(* ===== verification/_CoqProject ===== *)
-Q . S2P
Prelude.v
Opcodes.v
GoSlice.v
GoIO.v
WireCommon.v
WireTx.v
WireLeaf.v
WireMsgs.v
Merkle.v
Compress.v
Script.v
ScriptNum.v
ScriptStack.v
SigHash.v
Taproot.v
Engine.v
EngineSafe.v
EngineRun.v
EngineTheorems.v
EngineCache.v
Treap.v
Difficulty.v
ChainIO.v
BlockIndex.v
ChainView.v
Retarget.v
Index.v
Threshold.v
Growth.v
UtxoView.v
UtxoCache.v
Rules.v
Mining.v
Connect.v
Supply.v
ViewSync.v
Branches.v
ScriptVal.v
Chain.v
Orphans.v
Reorg.v
Accept.v
Invalidate.v
Node.v
Queries.v
