(* ===== verification/Prelude.v ===== *)
(** * utreexod: a verification development

    utreexod is a Bitcoin full node written in Go, whose nodes may keep a
    utreexo accumulator in place of the set of unspent outputs.  This library
    translates the code that decides consensus, and the encodings it depends on,
    into executable definitions, and proves what makes them correct.

    ** The program and its parts

    Bytes from the network become transactions, blocks and utreexo data in
    package wire.  Package blockchain checks them: rules for a block by itself
    and for its place in the chain (validate.go), a tree of block nodes with the
    work and the difficulty of each branch (blockindex.go, chainview.go,
    difficulty.go), the states of rule changes (thresholdstate.go,
    versionbits.go), and the set of unspent outputs, as views
    (utxoviewpoint.go) over a cache (utxocache.go) over records in a database
    (chainio.go, compress.go).  A pool of goroutines (scriptval.go) runs the
    script of every input with the engine of package txscript.  Blocks and headers
    that pass, orphans included, go into the tree (process.go, accept.go), and the
    best branch is extended, reorganized, or taken back on request (chain.go).
    Package mining makes the blocks that have to pass those checks, and the treaps of package
    database hold the pending changes of a database transaction.

    ** Conventions

    A Go integer is a [Z], with the conversions [u8] to [i64] of this file where
    the code can wrap around; a big integer is a plain [Z].  A function that can
    return an error or panic gives an [outcome]: [Ok], [Err] with the error the
    code returns, or [Panic].  Sequencing is [let* x := m in k].  Slices are
    lists, with the run-time panics of GoSlice.v; a reader is the list of the
    bytes to come (GoIO.v); a Go map is a finite map, or an association list
    where the code visits it in an order, and then the order is an argument;
    block nodes, which are shared and compared as pointers, live in an arena.
    Code that is not part of the sources is a parameter: SHA-256 and the other
    hash functions, the elliptic curve library (the class [Crypto] with the laws
    [CryptoLaws], both in Taproot.v), the accumulator, the size estimates of the
    runtime, the number of processors, the clock.  Mutexes and log output are
    left out.

    ** The files

    - Prelude.v, Opcodes.v, GoSlice.v, GoIO.v: integers, outcomes, tactics, the
      numbers of the opcodes, slices, and byte streams with the classes [Codec],
      [CodecSound], [CodecSize] and [Local], by which a message is verified from
      the encodings of its fields.
    - WireCommon.v (wire/common.go), WireTx.v (wire/msgtx.go), WireLeaf.v
      (wire/leaf.go, batchproof.go, udata.go), WireMsgs.v (blockheader.go,
      msgblock.go, invvect.go and the utreexo messages).
    - Merkle.v (blockchain/merkle.go, rolling_merkle.go), Compress.v
      (blockchain/compress.go), Treap.v (database/internal/treap).
    - Script.v (txscript/tokenizer.go, script.go, standard.go), ScriptNum.v
      (scriptnum.go, scriptbuilder.go), ScriptStack.v (stack.go), SigHash.v
      (sighash.go, hashcache.go, sigcache.go), Taproot.v (taproot.go), Engine.v
      (engine.go, opcode.go, sigvalidate.go); the proofs about whole executions
      are in EngineSafe.v, EngineRun.v, EngineTheorems.v and, for the signature
      cache, EngineCache.v.
    - Difficulty.v and Retarget.v (blockchain/difficulty.go, chaincfg/params.go),
      BlockIndex.v and Index.v (blockindex.go, checkpoints.go), ChainView.v
      (chainview.go), Threshold.v (thresholdstate.go, versionbits.go).
    - ChainIO.v (chainio.go), UtxoView.v (utxoviewpoint.go), UtxoCache.v
      (utxocache.go): the records, the views and the cache.
    - Rules.v (validate.go, weight.go: what needs no unspent outputs), Connect.v
      (validate.go, chain.go: checkConnectBlock for a node that keeps the set of
      unspent outputs, sequence locks), Supply.v (what an accepted block does to
      the set), ScriptVal.v (scriptval.go: the goroutines), Mining.v (mining.go).
    - Chain.v (chain.go, process.go, accept.go, chainio.go): the node as a state,
      with index, views, cache, database and orphan pool, and its operations in a
      monad of state and errors ([do! x := m in k]), in which a database
      transaction that fails leaves the database as it was ([Update]).  The
      proofs are in Growth.v (the tree only grows), ViewSync.v (a view over the
      cache against the ledger), Branches.v (the chain and the ledger of a node
      of the tree), Orphans.v, Reorg.v, Accept.v and Invalidate.v, and come
      together in Node.v, where events are any blocks, headers, invalidations and
      reconsiderations at any time.  Queries.v (chain.go): ranges of hashes and
      locators.

    ** What the theorems show

    - The ledger.  The abstract contract of the views and of the cache is a
      finite map of coins with one step per transaction ([applyTx], [applyBlock]
      of UtxoView.v).  The cache over its database refines it through every
      history of blocks, flushes and fetches ([cache_refines_ledger]);
      disconnecting a block with its spend journal gives the set from before
      ([disconnect_undoes_connect]); a block that the checks accept is a
      sequence of valid steps and connects ([accepted_block_connects]).  The
      example [forward_spend_accepted] is a block, possible where the duplicate
      check of BIP 30 runs, for which the checks are not enough.
    - The node.  After any history of events the best chain is valid, the cache
      over the database is the ledger of its blocks, and the total of the amounts
      is at most the subsidies, hence 21 million ([node_history]); the index, the
      buckets and the snapshot agree with the chain ([node_wellformed]); work
      never gets less unless a block is invalidated ([best_work_grows]);
      reorganizing is all or nothing ([reorganize_atomic]), accepting and
      invalidating a block do what they answer ([accept_answers],
      [invalidated_out]), the orphan pool is bounded and its loop ends.
      The examples [marked_header_connects] and [header_tip_chosen] are histories
      in which the code gets around its own marks.  Assumed of the events
      ([event_ok] of Node.v, [universe_ok] of Branches.v) is that headers and
      blocks with the same hash are equal, that no transaction is repeated on a
      branch (what the checks of BIP 30 and BIP 34 are for), that no transaction
      of a block spends an output of a later one, that heights stay below
      2^31 - 2000, and that blocks and headers do not come with BFFastAdd, the
      flag that netsync/manager.go and cmd/addblock set for blocks they trust and
      with which checks are skipped.  The bound on the total also needs a
      subsidy interval of at most 210,000 blocks.  The verdict on the scripts of a
      block is an argument, which ScriptVal.v is about; validity here is that of
      inputs, amounts, maturity and subsidy.
    - The script engine.  Execution ends, keeps the limits on elements, stacks
      and operations, and does not panic for the inputs the node builds, with
      the exception that [nested_program_panics] exhibits.  The tokenizer, the
      numbers, the stack and the signature messages agree with reference
      definitions.  An engine with a signature cache gives the verdict of one
      without, whatever verified signatures the cache holds, evicts or gets from
      other goroutines ([signature_cache_transparent]).
    - Concurrency.  For every schedule of the dispatcher and the workers the
      pool of goroutines ends, leaves no goroutine behind and gives the verdict
      of a sequential run ([pool_every_schedule], [block_scripts_correct]).  The
      signature cache that the workers share is a [SharedCache] of SigHash.v: the
      entries that the others add between two accesses are an argument, of which
      it is assumed that they are verified signatures, the only ones an engine
      adds.
    - Rules.  The sanity checks accept exactly the transactions and blocks that
      satisfy a declarative predicate, without an overflow; what the miner makes
      passes the checks.
    - The chain.  The skip list, the views, the forks, the inactive tips and the
      difficulty agree with their definitions on the tree; the answers of the
      deployment caches are those of the state machine of BIP 9, which only moves
      forward; locators are answered with the best chain ([locator_answered]).
    - Encodings.  Round trips, canonical forms and freedom from panics for
      transactions, blocks, leaves, spend journals and compressed outputs;
      equality of the merkle roots computed in different ways; both treaps are
      ordered stores.

    ** Fuel and bounds

    [Execute] of Engine.v takes one step per byte of the scripts, of the witness
    and of the scripts that can be appended; [Execute_terminates] proves that
    this is enough and that more changes nothing.  The loops over the arena use
    the number of nodes, which bounds every path to the root; the loops over a
    script use its length, since a token takes a byte; the loop of the rolling
    merkle store uses the number of roots.  The work list of processOrphans gets
    one round and two for every orphan in the lists, since each orphan is taken out
    once and followed up once; [processOrphans_ends] proves that this is what the
    loop without a bound gives.  The pool of goroutines has no fuel:
    a schedule is a list of labels, and the number of its steps is bounded.
    Amounts are at most 21 million bitcoins, which keeps every sum of the checks
    within 64 bits; where a theorem needs slices that fit in memory it says so.

    ** Not modelled

    - The accumulator and the views over it (blockchain/utreexoviewpoint.go,
      utreexoio.go), and the branch of checkConnectBlock for a node that has no
      set of unspent outputs: the accumulator is a library outside of the
      sources.
    - In chain.go, pruning, the index manager and the notifications to
      subscribers.  The chain lock is released for the notification of an
      accepted block; the model takes one event after the other, also where that
      happens between two orphans.  Reading the state of an existing database at
      a restart (initChainState, InitConsistentState): histories start from the
      genesis block, and a database transaction either happens or does not.
    - The database (ffldb) and the indexers, which are file access; the frames
      of messages; peers, synchronisation, the memory pool, the selection of
      transactions for a block template, RPC, wallet and configuration. *)

From Stdlib Require Import String ZArith List Lia Bool.
Import ListNotations.
Local Open Scope Z_scope.

(** Arithmetic on [Z] stays folded under [simpl]. *)
#[global] Arguments Z.add : simpl never.
#[global] Arguments Z.sub : simpl never.
#[global] Arguments Z.mul : simpl never.
#[global] Arguments Z.pow : simpl never.
#[global] Arguments Z.div : simpl never.
#[global] Arguments Z.modulo : simpl never.
#[global] Arguments Z.shiftl : simpl never.
#[global] Arguments Z.shiftr : simpl never.
#[global] Arguments Z.land : simpl never.
#[global] Arguments Z.lor : simpl never.
#[global] Arguments Z.of_nat : simpl never.
#[global] Arguments Z.to_nat : simpl never.

(** ** Machine integers

    Go integers are modelled as [Z]; the functions below write out the
    conversion (and hence the wrap-around) to each machine width.  Go's [int]
    is 64 bits wide on the supported platforms. *)

Definition u8 (z : Z) : Z := z mod 2 ^ 8.
Definition u16 (z : Z) : Z := z mod 2 ^ 16.
Definition u32 (z : Z) : Z := z mod 2 ^ 32.
Definition u64 (z : Z) : Z := z mod 2 ^ 64.
Definition i32 (z : Z) : Z := (z + 2 ^ 31) mod 2 ^ 32 - 2 ^ 31.
Definition i64 (z : Z) : Z := (z + 2 ^ 63) mod 2 ^ 64 - 2 ^ 63.

Definition is_byte (b : Z) : Prop := 0 <= b < 2 ^ 8.
Definition is_u16 (z : Z) : Prop := 0 <= z < 2 ^ 16.
Definition is_u32 (z : Z) : Prop := 0 <= z < 2 ^ 32.
Definition is_u64 (z : Z) : Prop := 0 <= z < 2 ^ 64.
Definition is_i32 (z : Z) : Prop := - 2 ^ 31 <= z < 2 ^ 31.
Definition is_i64 (z : Z) : Prop := - 2 ^ 63 <= z < 2 ^ 63.
Definition bytes_ok (l : list Z) : Prop := Forall is_byte l.

(** Length of a slice as the Go [len] returns it. *)
Definition len {A} (l : list A) : Z := Z.of_nat (List.length l).

Ltac unfold_ints :=
  unfold u8, u16, u32, u64, i32, i64, is_byte, is_u16, is_u32, is_u64,
    is_i32, is_i64 in *.

(** [ints] closes goals about the machine conversions: it unfolds them and
    hands the resulting [mod] equations to [lia]. *)
Ltac ints := unfold_ints; Z.div_mod_to_equations; lia.

Create HintDb ints.

Lemma u8_id z : is_byte z -> u8 z = z.
Proof. intros H; apply Z.mod_small, H. Qed.

Lemma u16_id z : is_u16 z -> u16 z = z.
Proof. intros H; apply Z.mod_small, H. Qed.

Lemma u32_id z : is_u32 z -> u32 z = z.
Proof. intros H; apply Z.mod_small, H. Qed.

Lemma u64_id z : is_u64 z -> u64 z = z.
Proof. intros H; apply Z.mod_small, H. Qed.

Lemma i32_id z : is_i32 z -> i32 z = z.
Proof. intros H; unfold i32; rewrite Z.mod_small; unfold is_i32 in H; lia. Qed.

Lemma i64_id z : is_i64 z -> i64 z = z.
Proof. intros H; unfold i64; rewrite Z.mod_small; unfold is_i64 in H; lia. Qed.

Lemma u8_range z : is_byte (u8 z).
Proof. apply Z.mod_pos_bound; reflexivity. Qed.

Lemma u16_range z : is_u16 (u16 z).
Proof. apply Z.mod_pos_bound; reflexivity. Qed.

Lemma u32_range z : is_u32 (u32 z).
Proof. apply Z.mod_pos_bound; reflexivity. Qed.

Lemma u64_range z : is_u64 (u64 z).
Proof. apply Z.mod_pos_bound; reflexivity. Qed.

Lemma i32_range z : is_i32 (i32 z).
Proof.
  unfold i32, is_i32. pose proof (Z.mod_pos_bound (z + 2 ^ 31) (2 ^ 32) eq_refl). lia.
Qed.

Lemma i64_range z : is_i64 (i64 z).
Proof.
  unfold i64, is_i64. pose proof (Z.mod_pos_bound (z + 2 ^ 63) (2 ^ 64) eq_refl). lia.
Qed.

(** Conversions between a signed integer and its two's complement image are
    inverse to each other. *)
Lemma i32_u32 z : is_i32 z -> i32 (u32 z) = z.
Proof.
  intros H; unfold i32, u32. rewrite Zplus_mod_idemp_l. apply i32_id, H.
Qed.

Lemma i64_u64 z : is_i64 z -> i64 (u64 z) = z.
Proof.
  intros H; unfold i64, u64. rewrite Zplus_mod_idemp_l. apply i64_id, H.
Qed.

Lemma u32_i32 z : is_u32 z -> u32 (i32 z) = z.
Proof.
  intros H; unfold i32, u32. rewrite <- Zminus_mod_idemp_l, Z.mod_mod by lia.
  rewrite Zminus_mod_idemp_l. replace (z + 2 ^ 31 - 2 ^ 31) with z by lia.
  apply u32_id, H.
Qed.

Lemma u64_i64 z : is_u64 z -> u64 (i64 z) = z.
Proof.
  intros H; unfold i64, u64. rewrite <- Zminus_mod_idemp_l, Z.mod_mod by lia.
  rewrite Zminus_mod_idemp_l. replace (z + 2 ^ 63 - 2 ^ 63) with z by lia.
  apply u64_id, H.
Qed.

#[export] Hint Resolve u8_range u16_range u32_range u64_range i32_range i64_range : ints.
#[export] Hint Resolve i32_u32 i64_u64 u32_i32 u64_i64 : ints.

Lemma len_nonneg {A} (l : list A) : 0 <= len l.
Proof. unfold len; lia. Qed.

Lemma len_nil {A} : len (@nil A) = 0.
Proof. reflexivity. Qed.

Lemma len_cons {A} (x : A) l : len (x :: l) = 1 + len l.
Proof. unfold len; simpl List.length; lia. Qed.

Lemma len_app {A} (l l' : list A) : len (l ++ l') = len l + len l'.
Proof. unfold len; rewrite length_app; lia. Qed.

Lemma map_fst_combine {A B} (l : list A) : forall l' : list B,
  List.length l = List.length l' -> map fst (combine l l') = l.
Proof. induction l; intros [|] H; try discriminate; simpl; f_equal; auto. Qed.

Lemma map_snd_combine {A B} (l : list A) : forall l' : list B,
  List.length l = List.length l' -> map snd (combine l l') = l'.
Proof. induction l; intros [|] H; try discriminate; simpl; f_equal; auto. Qed.

Lemma concat_nth {A} (parts : list (list A)) : forall i o,
  nth_error parts i = Some o ->
  concat parts = concat (firstn i parts) ++ o ++ concat (skipn (S i) parts).
Proof.
  induction parts as [|p parts IH]; intros [|i] o H; try discriminate; simpl in H.
  - injection H as ->. reflexivity.
  - simpl. rewrite (IH _ _ H), <- app_assoc. reflexivity.
Qed.

Lemma len_firstn {A} (l : list A) n :
  0 <= n <= len l -> len (firstn (Z.to_nat n) l) = n.
Proof. unfold len; intros H. rewrite length_firstn. lia. Qed.

Lemma firstn_len_app {A} (l l' : list A) :
  firstn (Z.to_nat (len l)) (l ++ l') = l.
Proof.
  unfold len; rewrite Nat2Z.id.
  now rewrite firstn_app, firstn_all, Nat.sub_diag, firstn_O, app_nil_r.
Qed.

Lemma skipn_len_app {A} (l l' : list A) :
  skipn (Z.to_nat (len l)) (l ++ l') = l'.
Proof.
  unfold len; rewrite Nat2Z.id.
  now rewrite skipn_app, skipn_all, Nat.sub_diag, skipn_O.
Qed.

Lemma bytes_ok_app l l' : bytes_ok (l ++ l') <-> bytes_ok l /\ bytes_ok l'.
Proof. apply Forall_app. Qed.

Lemma Forall_firstn {A} (P : A -> Prop) l n : Forall P l -> Forall P (firstn n l).
Proof. intros H. rewrite <- (firstn_skipn n l) in H. now apply Forall_app in H. Qed.

Lemma Forall_skipn {A} (P : A -> Prop) l n : Forall P l -> Forall P (skipn n l).
Proof. intros H. rewrite <- (firstn_skipn n l) in H. now apply Forall_app in H. Qed.

(** [bytes_lit] proves [bytes_ok] of a literal list of bytes. *)
Ltac bytes_lit :=
  unfold bytes_ok; repeat (apply Forall_cons; [split; [vm_compute; discriminate | vm_compute; reflexivity]|]);
  apply Forall_nil.

Create Rewrite HintDb lens.
#[export] Hint Rewrite @len_nil @len_cons @len_app @length_app : lens.

(** ** Outcomes

    The result of a Go function that can return an error or panic. *)
Inductive outcome (E A : Type) : Type :=
| Ok (a : A)
| Err (e : E)
| Panic.
Arguments Ok {E A} a.
Arguments Err {E A} e.
Arguments Panic {E A}.

Definition obind {E A B} (m : outcome E A) (k : A -> outcome E B) : outcome E B :=
  match m with
  | Ok a => k a
  | Err e => Err e
  | Panic => Panic
  end.

Declare Scope go_scope.
Delimit Scope go_scope with go.
Notation "'let*' p ':=' m 'in' k" := (obind m (fun p => k))
  (at level 10, p pattern at level 0, m at level 100, k at level 200) : go_scope.
Local Open Scope go_scope.

Lemma obind_Ok {E A B} (m : outcome E A) (k : A -> outcome E B) b :
  obind m k = Ok b -> exists a, m = Ok a /\ k a = Ok b.
Proof. destruct m; simpl; intros; try discriminate; eauto. Qed.

(** [inv_ok] inverts every hypothesis saying that a chain of binds succeeded. *)
Ltac inv_ok :=
  repeat match goal with
  | H : obind ?m _ = Ok _ |- _ =>
      let E := fresh "E" in
      apply obind_Ok in H; destruct H as [? [E H]]
  | H : Ok _ = Ok _ |- _ => injection H; clear H; intros; subst
  | H : Err _ = Ok _ |- _ => discriminate H
  | H : Panic = Ok _ |- _ => discriminate H
  end.

(** The largest allocation the Go runtime attempts: [make] panics beyond it
    ([maxAlloc] of the runtime on 64-bit platforms). *)
Definition maxAlloc : Z := 2 ^ 48.

(** [make([]T, n)] for elements of [size] bytes: the run-time check only; the
    contents are written by the caller. *)
Definition go_make {E} (size n : Z) : outcome E unit :=
  if (n <? 0) || (maxAlloc <? size * n) then Panic else Ok tt.

Lemma go_make_ok {E} size n :
  0 <= n -> size * n <= maxAlloc -> @go_make E size n = Ok tt.
Proof.
  intros Hn Hs; unfold go_make.
  destruct (Z.ltb_spec n 0), (Z.ltb_spec maxAlloc (size * n)); simpl; auto; lia.
Qed.

Lemma go_make_smaller {E} size' size n u :
  0 <= size' <= size -> @go_make E size n = Ok u -> @go_make E size' n = Ok tt.
Proof.
  intros Hs H; unfold go_make in H.
  destruct (Z.ltb_spec n 0), (Z.ltb_spec maxAlloc (size * n)); try discriminate.
  apply go_make_ok; nia.
Qed.

Lemma go_make_panics {E} size n :
  maxAlloc < size * n -> @go_make E size n = Panic.
Proof.
  intros H; unfold go_make. apply Z.ltb_lt in H; rewrite H, orb_true_r. reflexivity.
Qed.

(** [decide_cmp] evaluates the comparisons of the goal that [lia] decides. *)
Ltac decide_cmp :=
  repeat match goal with
  | |- context [?a =? ?b] =>
      first [ replace (a =? b) with true by (symmetry; apply Z.eqb_eq; lia)
            | replace (a =? b) with false by (symmetry; apply Z.eqb_neq; lia) ]
  | |- context [?a <? ?b] =>
      first [ replace (a <? b) with true by (symmetry; apply Z.ltb_lt; lia)
            | replace (a <? b) with false by (symmetry; apply Z.ltb_ge; lia) ]
  | |- context [?a <=? ?b] =>
      first [ replace (a <=? b) with true by (symmetry; apply Z.leb_le; lia)
            | replace (a <=? b) with false by (symmetry; apply Z.leb_gt; lia) ]
  end.

(** ** Bits of bytes *)

(** A boolean property of bytes checked on all of them. *)
Lemma byte_cases (P : Z -> bool) :
  forallb (fun n => P (Z.of_nat n)) (seq 0 256) = true -> forall b, is_byte b -> P b = true.
Proof.
  intros H b Hb. unfold is_byte in Hb. rewrite forallb_forall in H.
  specialize (H (Z.to_nat b)). rewrite Z2Nat.id in H by lia. apply H, in_seq. lia.
Qed.

Lemma lor_shiftl_add a x k :
  0 <= k -> 0 <= x < 2 ^ k -> Z.lor (Z.shiftl a k) x = a * 2 ^ k + x.
Proof.
  intros Hk Hx. rewrite <- Z.shiftl_mul_pow2 by assumption.
  rewrite <- Z.lxor_lor, <- Z.add_nocarry_lxor; try reflexivity.
  all: apply Z.bits_inj'; intros n Hn; rewrite Z.land_spec, Z.bits_0, Z.shiftl_spec by assumption;
    destruct (Z.ltb_spec n k); [now rewrite Z.testbit_neg_r by lia|];
    replace (Z.testbit x n) with false; [apply andb_false_r|];
    symmetry; destruct (Z.eq_dec x 0) as [->|]; [apply Z.bits_0|];
    apply Z.bits_above_log2; [lia|]; apply Z.log2_lt_pow2; try lia;
    apply (Z.lt_le_trans _ (2 ^ k)); [lia|]; apply Z.pow_le_mono_r; lia.
Qed.

Lemma land_7f v : Z.land v 0x7f = v mod 128.
Proof. exact (Z.land_ones v 7 ltac:(lia)). Qed.

Lemma lor_80 x : 0 <= x < 128 -> Z.lor x 0x80 = x + 128.
Proof.
  intros H. rewrite Z.lor_comm. change (Z.lor 0x80 x) with (Z.lor (Z.shiftl 1 7) x).
  rewrite lor_shiftl_add by lia. lia.
Qed.

Lemma land_bit b k : 0 <= k -> negb (Z.land b (Z.shiftl 1 k) =? 0) = Z.testbit b k.
Proof.
  intros Hk. rewrite Z.shiftl_1_l. destruct (Z.testbit b k) eqn:E.
  - apply negb_true_iff, Z.eqb_neq. intros H.
    apply (f_equal (fun z => Z.testbit z k)) in H.
    rewrite Z.land_spec, Z.pow2_bits_true, E, Z.bits_0 in H by lia. discriminate.
  - apply negb_false_iff, Z.eqb_eq. apply Z.bits_inj'. intros n Hn.
    rewrite Z.land_spec, Z.bits_0, Z.pow2_bits_eqb by lia.
    destruct (Z.eqb_spec k n) as [->|]; [now rewrite E | apply andb_false_r].
Qed.

Lemma testbit_top k m : 0 <= k -> 0 <= m < 2 ^ (k + 1) -> Z.testbit m k = (2 ^ k <=? m).
Proof.
  intros Hk Hm. rewrite Z.pow_add_r in Hm by lia. apply Bool.eq_true_iff_eq. rewrite Z.leb_le.
  assert (0 < 2 ^ k) by (apply Z.pow_pos_nonneg; lia). split; intros H0.
  - destruct (Z.lt_ge_cases m (2 ^ k)) as [Hlt|]; [|lia].
    rewrite Z.testbit_true, Z.div_small in H0 by lia. discriminate.
  - rewrite Z.testbit_true by assumption.
    replace (m / 2 ^ k) with 1; [reflexivity|]. apply Z.div_unique with (m - 2 ^ k); lia.
Qed.

Lemma last_nth {A} (l : list A) d : last l d = nth (List.length l - 1) l d.
Proof.
  induction l as [|x [|y l] IH]; [reflexivity | reflexivity |].
  change (last (x :: y :: l) d) with (last (y :: l) d). rewrite IH. cbn [List.length].
  replace (S (S (List.length l)) - 1)%nat with (S (S (List.length l) - 1))%nat by lia. reflexivity.
Qed.

Lemma last_app_nonempty {A} (a b : list A) d : b <> [] -> last (a ++ b) d = last b d.
Proof.
  intros Hb. induction a as [|x a IH]; [reflexivity|]. cbn [app last].
  destruct (a ++ b) eqn:E; [|exact IH]. apply app_eq_nil in E. tauto.
Qed.

Lemma skipn_cons_nth_error {A} (l : list A) : forall i x,
  nth_error l i = Some x -> skipn i l = x :: skipn (S i) l.
Proof.
  induction l as [|y l IH]; intros [|i] x E; try discriminate; [now injection E as ->|].
  cbn [skipn]. rewrite (IH i x E). reflexivity.
Qed.
