(* ===== verification/GoSlice.v ===== *)
(** * Go slices

    Indexing, assignment, slicing and [copy] as Go defines them, with the
    run-time panic of an index out of range.  A slice is the list of its
    elements; its capacity is its length, as for the slices the sources build
    with [make]. *)

From Stdlib Require Import ZArith List Lia Bool.
From S2P Require Import Prelude.
Import ListNotations.
Local Open Scope Z_scope.
Local Open Scope go_scope.

Section Slices.
Context {E A : Type}.

(** [l[i]]. *)
Definition get_at (l : list A) (i : Z) : outcome E A :=
  if 0 <=? i then
    match nth_error l (Z.to_nat i) with Some x => Ok x | None => Panic end
  else Panic.

(** [l[i] = v]. *)
Definition set_at (l : list A) (i : Z) (v : A) : outcome E (list A) :=
  if (0 <=? i) && (i <? len l)
  then Ok (firstn (Z.to_nat i) l ++ v :: skipn (Z.to_nat (i + 1)) l)
  else Panic.

(** [l[a:b]]. *)
Definition slice (l : list A) (a b : Z) : outcome E (list A) :=
  if (0 <=? a) && (a <=? b) && (b <=? len l)
  then Ok (firstn (Z.to_nat (b - a)) (skipn (Z.to_nat a) l))
  else Panic.

(** [copy(l[offset:], src)]: as many elements as fit. *)
Definition copy_at (l : list A) (offset : Z) (src : list A) : outcome E (list A) :=
  if (offset <? 0) || (len l <? offset) then Panic
  else
    let n := Z.to_nat (Z.min (len l - offset) (len src)) in
    Ok (firstn (Z.to_nat offset) l ++ firstn n src ++ skipn (Z.to_nat offset + n) l).

(** [copy(l[a:b], src)]. *)
Definition copy_into (l : list A) (a b : Z) (src : list A) : outcome E (list A) :=
  let* _ := slice l a b in
  let n := Z.to_nat (Z.min (b - a) (len src)) in
  Ok (firstn (Z.to_nat a) l ++ firstn n src ++ skipn (Z.to_nat a + n) l).

Lemma get_at_mid pre x post : get_at (pre ++ x :: post) (len pre) = Ok x.
Proof.
  unfold get_at. pose proof (len_nonneg pre). decide_cmp. unfold len.
  now rewrite Nat2Z.id, nth_error_app2, Nat.sub_diag by lia.
Qed.

Lemma set_at_mid pre x post v :
  set_at (pre ++ x :: post) (len pre) v = Ok (pre ++ v :: post).
Proof.
  unfold set_at. pose proof (len_nonneg pre). pose proof (len_nonneg post).
  autorewrite with lens. decide_cmp. simpl. f_equal. rewrite firstn_len_app.
  change (pre ++ x :: post) with (pre ++ [x] ++ post). rewrite app_assoc.
  replace (len pre + 1) with (len (pre ++ [x])) by (autorewrite with lens; lia).
  now rewrite skipn_len_app.
Qed.

Lemma get_at_eq pre x post i : i = len pre -> get_at (pre ++ x :: post) i = Ok x.
Proof. intros ->. apply get_at_mid. Qed.

Lemma set_at_eq pre x post i v :
  i = len pre -> set_at (pre ++ x :: post) i v = Ok (pre ++ v :: post).
Proof. intros ->. apply set_at_mid. Qed.

Lemma slice_mid pre s post :
  slice (pre ++ s ++ post) (len pre) (len pre + len s) = Ok s.
Proof.
  unfold slice. rewrite !len_app. pose proof (len_nonneg s). pose proof (len_nonneg post).
  pose proof (len_nonneg pre). decide_cmp. simpl. rewrite skipn_len_app.
  replace (len pre + len s - len pre) with (len s) by lia. now rewrite firstn_len_app.
Qed.

Lemma slice_prefix s post : slice (s ++ post) 0 (len s) = Ok s.
Proof. exact (slice_mid [] s post). Qed.

(** Copying over a part of the same length. *)
Lemma copy_at_mid pre old post src :
  len old = len src -> copy_at (pre ++ old ++ post) (len pre) src = Ok (pre ++ src ++ post).
Proof.
  intros Hl. unfold copy_at. rewrite !len_app. pose proof (len_nonneg old).
  pose proof (len_nonneg post). pose proof (len_nonneg pre). decide_cmp. simpl. f_equal.
  rewrite firstn_len_app. f_equal.
  replace (Z.to_nat (Z.min _ _)) with (Z.to_nat (len src)) by lia.
  rewrite <- (Nat2Z.id (Z.to_nat (len src))), <- Z2Nat.inj_add, Z2Nat.id by lia.
  rewrite <- Hl at 2. rewrite <- len_app, (app_assoc pre), skipn_len_app. f_equal.
  unfold len. now rewrite Nat2Z.id, firstn_all.
Qed.

Lemma copy_into_mid pre old post src :
  len old = len src ->
  copy_into (pre ++ old ++ post) (len pre) (len pre + len old) src = Ok (pre ++ src ++ post).
Proof.
  intros Hl. unfold copy_into. rewrite slice_mid. cbn [obind].
  pose proof (copy_at_mid pre old post src Hl) as H. unfold copy_at in H.
  destruct (_ || _); [discriminate|]. injection H as H. rewrite <- H at 1.
  rewrite !len_app. pose proof (len_nonneg post).
  replace (Z.min (len pre + len old - len pre) (len src)) with (len src) by lia.
  replace (Z.min (len pre + (len old + len post) - len pre) (len src)) with (len src) by lia.
  reflexivity.
Qed.
End Slices.

(** Copying to the start of the zeroed remainder of a buffer. *)
Lemma copy_at_fresh {E} done s m :
  @copy_at E Z (done ++ repeat 0 (List.length s + m)) (len done) s
  = Ok ((done ++ s) ++ repeat 0 m).
Proof.
  rewrite repeat_app, copy_at_mid by (unfold len; now rewrite repeat_length).
  now rewrite <- app_assoc.
Qed.

(** [l[i]] and [l[a:b]] of a byte slice under a guard on its length. *)
Definition at_ (l : list Z) (i : nat) : Z := nth i l 0.
Definition sub (l : list Z) (a b : nat) : list Z := firstn (b - a) (skipn a l).

(** ** Package bytes *)

(** bytes.Equal. *)
Fixpoint bytes_eqb (a b : list Z) : bool :=
  match a, b with
  | [], [] => true
  | x :: a', y :: b' => (x =? y) && bytes_eqb a' b'
  | _, _ => false
  end.

(** bytes.HasPrefix. *)
Definition HasPrefix (s prefix : list Z) : bool :=
  (len prefix <=? len s) && bytes_eqb (firstn (List.length prefix) s) prefix.

(** bytes.Contains. *)
Fixpoint Contains (b subslice : list Z) : bool :=
  HasPrefix b subslice || match b with [] => false | _ :: b' => Contains b' subslice end.

Lemma bytes_eqb_eq a : forall b, bytes_eqb a b = true <-> a = b.
Proof.
  induction a as [|x a IH]; intros [|y b]; cbn [bytes_eqb]; try easy.
  rewrite andb_true_iff, Z.eqb_eq, IH. split; [now intros [-> ->] | now injection 1].
Qed.

Lemma bytes_eqb_refl a : bytes_eqb a a = true.
Proof. now apply bytes_eqb_eq. Qed.

(** bytes.Compare. *)
Fixpoint Compare (a b : list Z) : comparison :=
  match a, b with
  | [], [] => Eq
  | [], _ :: _ => Lt
  | _ :: _, [] => Gt
  | x :: a', y :: b' =>
      match x ?= y with
      | Eq => Compare a' b'
      | c => c
      end
  end.

Lemma Compare_Eq a : forall b, Compare a b = Eq <-> a = b.
Proof.
  induction a as [|x a IH]; intros [|y b]; simpl; try (split; congruence).
  destruct (Z.compare_spec x y) as [->|Hlt|Hlt]; try (split; [congruence | intros [= ? ?]; lia]).
  rewrite IH. split; congruence.
Qed.

Lemma Compare_antisym a : forall b, Compare b a = CompOpp (Compare a b).
Proof.
  induction a as [|x a IH]; intros [|y b]; simpl; try reflexivity.
  rewrite Z.compare_antisym. destruct (x ?= y); simpl; auto.
Qed.
