(* ===== verification/GoIO.v ===== *)
(** * Byte streams: the io.Reader, io.Writer and encoding/binary of the model

    A reader is the list of bytes still to be read (a [bytes.Buffer]); a read
    returns an outcome together with what is left.  A writer is an in-memory
    buffer, whose [Write] never fails: an encoder is modelled by the bytes it
    appends and the error it stops with, if any.  The classes [Codec] and
    [CodecSound] are the interface between a field's serialization and the
    messages built from it. *)

From Stdlib Require Import String ZArith List Lia Bool.
From S2P Require Import Prelude.
Import ListNotations.
Local Open Scope Z_scope.
Local Open Scope go_scope.

(** Errors the wire package returns: the two of package io, a
    [*MessageError] (with the function it names) and a [fmt.Errorf]. *)
Inductive gerr : Type :=
| EOF
| ErrUnexpectedEOF
| MessageError (fn : string)
| FmtError (fn : string).

(** ** Readers *)

Definition reader (A : Type) : Type := list Z -> outcome gerr (A * list Z).

Definition rret {A} (a : A) : reader A := fun r => Ok (a, r).
Definition rfail {A} (e : gerr) : reader A := fun _ => Err e.
Definition rpanic {A} : reader A := fun _ => Panic.
Definition rbind {A B} (m : reader A) (k : A -> reader B) : reader B :=
  fun r => obind (m r) (fun '(a, r') => k a r').
Definition rlift {A} (o : outcome gerr A) : reader A :=
  fun r => obind o (fun a => Ok (a, r)).

Notation "'let!' p ':=' m 'in' k" := (rbind m (fun p => k))
  (at level 10, p pattern at level 0, m at level 100, k at level 200) : go_scope.

Lemma rbind_Ok {A B} (m : reader A) (k : A -> reader B) r b r' :
  rbind m k r = Ok (b, r') -> exists a r1, m r = Ok (a, r1) /\ k a r1 = Ok (b, r').
Proof.
  unfold rbind; intros H. apply obind_Ok in H. destruct H as [[a r1] [H1 H2]]. eauto.
Qed.

(** [inv_read] inverts the success of a chain of reads, naming the
    intermediate equations. *)
Ltac inv_read :=
  repeat match goal with
  | H : rbind _ _ _ = Ok _ |- _ =>
      let E := fresh "E" in
      apply rbind_Ok in H; destruct H as (? & ? & E & H)
  | H : rret _ _ = Ok _ |- _ => unfold rret in H; injection H; clear H; intros; subst
  | H : rfail _ _ = Ok _ |- _ => discriminate H
  | H : rpanic _ = Ok _ |- _ => discriminate H
  end.

(** io.ReadFull into a buffer of [n] bytes. *)
Definition ReadFull (n : Z) : reader (list Z) := fun r =>
  if n <=? 0 then Ok ([], r)
  else match r with
       | [] => Err EOF
       | _ => if len r <? n then Err ErrUnexpectedEOF
              else Ok (firstn (Z.to_nat n) r, skipn (Z.to_nat n) r)
       end.

(** A single [Read] of a [bytes.Buffer] into a zeroed buffer of [n] bytes: it
    returns the bytes at hand, and an error only when there are none. *)
Definition Read1 (n : Z) : reader (list Z) := fun r =>
  match r with
  | [] => if n =? 0 then Ok ([], []) else Err EOF
  | _ => let got := firstn (Z.to_nat n) r in
         Ok (got ++ repeat 0 (Z.to_nat n - List.length got), skipn (Z.to_nat n) r)
  end.

Lemma ReadFull_app l rest : ReadFull (len l) (l ++ rest) = Ok (l, rest).
Proof.
  unfold ReadFull. destruct l as [|x l].
  - reflexivity.
  - destruct (Z.leb_spec (len (x :: l)) 0) as [E|_].
    + rewrite len_cons in E. pose proof (len_nonneg l). lia.
    + cbn [app]. change (x :: l ++ rest) with ((x :: l) ++ rest).
      destruct (Z.ltb_spec (len ((x :: l) ++ rest)) (len (x :: l))) as [H|_].
      * rewrite len_app in H. pose proof (len_nonneg rest). lia.
      * now rewrite firstn_len_app, skipn_len_app.
Qed.

Lemma ReadFull_Ok n r l rest :
  0 <= n -> ReadFull n r = Ok (l, rest) -> r = l ++ rest /\ len l = n.
Proof.
  unfold ReadFull; intros Hn. destruct (Z.leb_spec n 0) as [H0|Hn0].
  - intros [= <- <-]. split; [reflexivity|]. rewrite len_nil. lia.
  - destruct r as [|x r]; [discriminate|].
    destruct (Z.ltb_spec (len (x :: r)) n) as [|H]; [discriminate|].
    intros [= <- <-]. split; [now rewrite firstn_skipn | now apply len_firstn].
Qed.

Lemma Read1_app l rest : l <> [] -> Read1 (len l) (l ++ rest) = Ok (l, rest).
Proof.
  intros Hl; unfold Read1. destruct (l ++ rest) as [|x q] eqn:E.
  - apply app_eq_nil in E. now destruct E.
  - rewrite <- E, firstn_len_app, skipn_len_app.
    unfold len; rewrite Nat2Z.id, Nat.sub_diag. simpl. now rewrite app_nil_r.
Qed.

Lemma ReadFull_never_panics n r : ReadFull n r <> Panic.
Proof.
  unfold ReadFull. destruct (n <=? 0); [discriminate|].
  destruct r; [discriminate|]. destruct (_ <? _); discriminate.
Qed.

(** ** Writers *)

(** What an encoder has written and the error it returned. *)
Definition written : Type := list Z * option gerr.

Definition write (l : list Z) : written := (l, None).
Definition wfail (e : gerr) : written := ([], Some e).

(** Sequential composition: [b] runs only when [a] returned no error. *)
Definition wseq (a b : written) : written :=
  match a with
  | (out, None) => (out ++ fst b, snd b)
  | (out, Some e) => (out, Some e)
  end.

Notation "a >> b" := (wseq a b) (at level 62, right associativity) : go_scope.

Fixpoint wall {A} (enc : A -> written) (l : list A) : written :=
  match l with
  | [] => write []
  | x :: l' => enc x >> wall enc l'
  end.

(** A loop that reads [n] elements. *)
Fixpoint readN {A} (dec : reader A) (n : nat) : reader (list A) :=
  match n with
  | O => rret []
  | S n' => let! x := dec in let! xs := readN dec n' in rret (x :: xs)
  end.

Lemma wseq_write out out' e : wseq (out, None) (out', e) = (out ++ out', e).
Proof. reflexivity. Qed.

Lemma wseq_None a b out :
  wseq a b = (out, None) ->
  exists oa ob, a = (oa, None) /\ b = (ob, None) /\ out = oa ++ ob.
Proof.
  destruct a as [oa [e|]], b as [ob eb]; simpl; intros H; inversion H; subst; eauto.
Qed.

(** Writers form a monoid. *)
Lemma wseq_assoc a b c : wseq (wseq a b) c = wseq a (wseq b c).
Proof.
  destruct a as [oa [e|]], b as [ob [e'|]], c as [oc ec]; cbn; rewrite ?app_assoc; reflexivity.
Qed.

Lemma wseq_nil_l a : wseq (write []) a = a.
Proof. now destruct a. Qed.

Lemma wseq_nil_r a : wseq a (write []) = a.
Proof. destruct a as [o [e|]]; cbn; now rewrite ?app_nil_r. Qed.

Lemma wall_app {A} (enc : A -> written) l l' : wall enc (l ++ l') = wseq (wall enc l) (wall enc l').
Proof.
  induction l as [|x l IH]; cbn [wall app]; [now rewrite wseq_nil_l | now rewrite IH, wseq_assoc].
Qed.

(** Encoders that never return an error. *)
Create HintDb writes.

Lemma wseq_writes a b : snd a = None -> snd b = None -> snd (wseq a b) = None.
Proof. destruct a as [o [e|]]; simpl; intros; [discriminate | assumption]. Qed.

Lemma wall_writes {A} (enc : A -> written) l :
  (forall a, snd (enc a) = None) -> snd (wall enc l) = None.
Proof. intros H. induction l; simpl; [reflexivity | now apply wseq_writes]. Qed.

Lemma writes_out (w : written) : snd w = None -> w = (fst w, None).
Proof. destruct w; simpl; intros ->; reflexivity. Qed.

#[export] Hint Resolve wseq_writes wall_writes : writes.

(** ** The codec interface

    [Codec enc dec valid]: every valid value is encoded without error, and
    decoding its encoding followed by anything gives the value back and leaves
    exactly the rest.  [CodecSound]: whatever the decoder accepts is the
    encoding of the value it returns, which is valid. *)
Class Codec {A} (enc : A -> written) (dec : reader A) (valid : A -> Prop) : Prop :=
  codec_roundtrip : forall a rest, valid a ->
    exists out, enc a = (out, None) /\ dec (out ++ rest) = Ok (a, rest).

Class CodecSound {A} (enc : A -> written) (dec : reader A) (valid : A -> Prop) : Prop :=
  codec_sound : forall a r rest, bytes_ok r -> dec r = Ok (a, rest) ->
    exists out, enc a = (out, None) /\ r = out ++ rest /\ valid a.

(** The size an encoder announces is the size of what it writes. *)
Class CodecSize {A} (enc : A -> written) (size : A -> Z) (valid : A -> Prop) : Prop :=
  codec_size : forall a out, valid a -> enc a = (out, None) -> len out = size a.

Section Lists.
Context {A} {enc : A -> written} {dec : reader A} {valid : A -> Prop}.

#[export] Instance codec_list `{!Codec enc dec valid} n :
  Codec (wall enc) (readN dec n) (fun l => Forall valid l /\ List.length l = n).
Proof.
  intros l rest [Hl Hn]. revert l Hl Hn.
  induction n as [|n IH]; intros [|x l] Hl Hn; try discriminate.
  - exists []. split; reflexivity.
  - inversion Hl as [|? ? Hx Hl']; subst. injection Hn as Hn.
    destruct (IH l Hl' Hn) as (out' & Eo & Ed).
    destruct (codec_roundtrip x (out' ++ rest) Hx) as (ox & Ex & Dx).
    exists (ox ++ out'). simpl. rewrite Ex, Eo. split; [reflexivity|].
    unfold rbind. rewrite <- app_assoc, Dx. simpl. rewrite Ed. reflexivity.
Qed.

#[export] Instance codec_sound_list `{!CodecSound enc dec valid} n :
  CodecSound (wall enc) (readN dec n) (fun l => Forall valid l /\ List.length l = n).
Proof.
  intros l. revert l. induction n as [|n IH]; intros l r rest Hr H; simpl in H; inv_read.
  - exists []. repeat split; auto.
  - destruct (codec_sound _ _ _ Hr E) as (o1 & E1 & -> & V1).
    apply bytes_ok_app in Hr. destruct Hr as [_ Hr].
    destruct (IH _ _ _ Hr E0) as (o2 & E2 & -> & V2 & L2).
    exists (o1 ++ o2). simpl. rewrite E1, E2, <- app_assoc.
    repeat split; simpl; auto.
Qed.

(** Decoding that normalises: each element comes back as its [view]. *)
Lemma readN_view {B} (dec' : reader B) (view : A -> B) l rest :
  (forall a rest', valid a -> exists out, enc a = (out, None) /\
                                      dec' (out ++ rest') = Ok (view a, rest')) ->
  Forall valid l ->
  exists out, wall enc l = (out, None) /\
              readN dec' (List.length l) (out ++ rest) = Ok (map view l, rest).
Proof.
  intros H. induction 1 as [|x l Hx Hl IH]; simpl.
  - exists []. split; reflexivity.
  - destruct IH as (o2 & E2 & D2). destruct (H x (o2 ++ rest) Hx) as (o1 & E1 & D1).
    exists (o1 ++ o2). rewrite E1, E2. split; [reflexivity|].
    unfold rbind. rewrite <- app_assoc, D1. simpl. rewrite D2. reflexivity.
Qed.

Lemma wall_size {size : A -> Z} `{!CodecSize enc size valid} l out :
  Forall valid l -> wall enc l = (out, None) ->
  len out = fold_right (fun x n => size x + n) 0 l.
Proof.
  intros Hl; revert out; induction Hl as [|x l Hx Hl IH]; intros out H; simpl in *.
  - injection H as <-. reflexivity.
  - apply wseq_None in H. destruct H as (o1 & o2 & E1 & E2 & ->).
    rewrite len_app, (IH _ E2), (codec_size _ _ Hx E1). reflexivity.
Qed.
End Lists.

(** A reader is local when what it reads does not depend on what follows: it
    consumes a prefix of its input, and gives the same value on that prefix with
    any other continuation. *)
Class Local {A} (dec : reader A) : Prop :=
  local_prefix : forall r a rest, dec r = Ok (a, rest) ->
    exists o, r = o ++ rest /\ forall t, dec (o ++ t) = Ok (a, t).

#[export] Instance local_ret {A} (a : A) : Local (rret a).
Proof. intros r b rest [= <- <-]. exists []. split; reflexivity. Qed.

#[export] Instance local_fail {A} e : Local (A := A) (rfail e).
Proof. intros r b rest H. discriminate. Qed.

#[export] Instance local_lift {A} (m : outcome gerr A) : Local (rlift m).
Proof.
  intros r b rest H. unfold rlift in *. destruct m; inversion H; subst.
  exists []. split; reflexivity.
Qed.

#[export] Instance local_bind {A B} (m : reader A) (k : A -> reader B) :
  Local m -> (forall a, Local (k a)) -> Local (rbind m k).
Proof.
  intros Hm Hk r b rest H. apply rbind_Ok in H. destruct H as (a & r1 & E & H).
  destruct (Hm _ _ _ E) as (o1 & -> & D1). destruct (Hk _ _ _ _ H) as (o2 & -> & D2).
  exists (o1 ++ o2). split; [apply app_assoc|]. intros t.
  unfold rbind. rewrite <- app_assoc, D1. simpl. apply D2.
Qed.

#[export] Instance local_if {A} (b : bool) (m1 m2 : reader A) :
  Local m1 -> Local m2 -> Local (if b then m1 else m2).
Proof. destruct b; auto. Qed.

#[export] Instance local_ReadFull n : Local (ReadFull n).
Proof.
  intros r l rest H. destruct (Z.leb_spec n 0) as [Hn|Hn].
  - unfold ReadFull in *. apply Z.leb_le in Hn. rewrite Hn in *.
    injection H as <- <-. exists []. split; reflexivity.
  - apply ReadFull_Ok in H; [|lia]. destruct H as [-> <-].
    exists l. split; [reflexivity|]. apply ReadFull_app.
Qed.

#[export] Instance local_readN {A} (dec : reader A) n : Local dec -> Local (readN dec n).
Proof. intros Hd. induction n; simpl; typeclasses eauto. Qed.

(** A sound decoder is injective: one encoding per value. *)
Lemma Codec_unique {A} (enc : A -> written) dec valid
    `{!CodecSound enc dec valid} r1 r2 a rest :
  bytes_ok r1 -> bytes_ok r2 -> dec r1 = Ok (a, rest) -> dec r2 = Ok (a, rest) -> r1 = r2.
Proof.
  intros B1 B2 D1 D2.
  destruct (codec_sound _ _ _ B1 D1) as (o1 & E1 & -> & _).
  destruct (codec_sound _ _ _ B2 D2) as (o2 & E2 & -> & _).
  congruence.
Qed.

(** ** Little-endian integers (encoding/binary) *)

Fixpoint le_put (n : nat) (z : Z) : list Z :=
  match n with
  | O => []
  | S n' => u8 z :: le_put n' (Z.shiftr z 8)
  end.

Fixpoint le_get (l : list Z) : Z :=
  match l with
  | [] => 0
  | b :: l' => Z.lor b (Z.shiftl (le_get l') 8)
  end.

Lemma le_get_cons b l : is_byte b -> le_get (b :: l) = b + 256 * le_get l.
Proof.
  intros Hb; cbn [le_get]. unfold is_byte in Hb.
  rewrite Z.lor_comm, lor_shiftl_add by lia. lia.
Qed.

Lemma le_put_length n z : List.length (le_put n z) = n.
Proof. revert z; induction n; intros z; simpl; auto. Qed.

Lemma le_put_bytes n z : bytes_ok (le_put n z).
Proof. revert z; induction n; intros z; constructor; [apply u8_range | apply IHn]. Qed.

Lemma pow256_succ n : 256 ^ Z.of_nat (S n) = 256 * 256 ^ Z.of_nat n.
Proof. rewrite Nat2Z.inj_succ, Z.pow_succ_r by lia. reflexivity. Qed.

Lemma le_get_put n z : 0 <= z < 256 ^ Z.of_nat n -> le_get (le_put n z) = z.
Proof.
  revert z; induction n as [|n IH]; intros z Hz.
  - simpl in *. lia.
  - cbn [le_put]. rewrite le_get_cons by apply u8_range.
    rewrite pow256_succ in Hz. rewrite Z.shiftr_div_pow2 by lia.
    rewrite IH by (split; [apply Z.div_pos | apply Z.div_lt_upper_bound]; lia).
    unfold u8. change (2 ^ 8) with 256. rewrite (Z.div_mod z 256) at 3; lia.
Qed.

Lemma le_get_range l : bytes_ok l -> 0 <= le_get l < 256 ^ len l.
Proof.
  induction 1 as [|b l Hb Hl IH].
  - unfold len; simpl; lia.
  - rewrite le_get_cons by assumption. unfold len in *. cbn [List.length].
    rewrite pow256_succ. unfold is_byte in Hb. lia.
Qed.

Lemma le_put_get l : bytes_ok l -> le_put (List.length l) (le_get l) = l.
Proof.
  induction 1 as [|b l Hb Hl IH]; [reflexivity|].
  rewrite le_get_cons by assumption. cbn [List.length le_put]. f_equal.
  - unfold u8, is_byte in *. change (2 ^ 8) with 256 in *.
    rewrite Z.mul_comm, Z.mod_add by lia. apply Z.mod_small; lia.
  - rewrite Z.shiftr_div_pow2 by lia. change (2 ^ 8) with 256.
    rewrite Z.mul_comm, Z.div_add by lia.
    rewrite Z.div_small by apply Hb. exact IH.
Qed.

(** Reading a [w]-byte little-endian unsigned integer, and writing one. *)
Definition readLE (w : nat) : reader Z :=
  let! b := ReadFull (Z.of_nat w) in rret (le_get b).
Definition writeLE (w : nat) (z : Z) : written := write (le_put w z).

#[export] Instance codec_LE w :
  Codec (writeLE w) (readLE w) (fun z => 0 <= z < 256 ^ Z.of_nat w).
Proof.
  intros z rest Hz. exists (le_put w z). split; [reflexivity|].
  unfold readLE, rbind. replace (Z.of_nat w) with (len (le_put w z))
    by (unfold len; now rewrite le_put_length).
  rewrite ReadFull_app. simpl. unfold rret. now rewrite le_get_put.
Qed.

#[export] Instance codec_sound_LE w :
  CodecSound (writeLE w) (readLE w) (fun z => 0 <= z < 256 ^ Z.of_nat w).
Proof.
  intros z r rest Hr H. unfold readLE in H. inv_read.
  apply ReadFull_Ok in E; [|lia]. destruct E as [-> El].
  apply bytes_ok_app in Hr. destruct Hr as [Hb _].
  exists x. repeat split.
  - unfold writeLE, write. f_equal. unfold len in El. apply Nat2Z.inj in El.
    rewrite <- El. now apply le_put_get.
  - now apply le_get_range.
  - rewrite <- El; now apply le_get_range.
Qed.

#[export] Instance codec_size_LE w valid :
  CodecSize (writeLE w) (fun _ => Z.of_nat w) valid.
Proof. intros z out _ [= <-]. unfold len; now rewrite le_put_length. Qed.

Lemma writeLE_size w z out : writeLE w z = (out, None) -> len out = Z.of_nat w.
Proof. exact (codec_size (CodecSize := codec_size_LE w (fun _ => True)) z out I). Qed.

(** Raw byte arrays of a fixed length (hashes, checksums). *)
#[export] Instance codec_raw n :
  Codec write (ReadFull n) (fun l => len l = n).
Proof.
  intros l rest <-. exists l. split; [reflexivity|]. apply ReadFull_app.
Qed.

Lemma codec_sound_raw n : 0 <= n -> CodecSound write (ReadFull n) (fun l => len l = n).
Proof.
  intros Hn l r rest _ H. apply ReadFull_Ok in H; [|assumption].
  destruct H as [-> Hl]. exists l. repeat split; assumption.
Qed.

(** Serialized data stays folded: proofs go through the codec lemmas. *)
#[global] Arguments wseq : simpl never.
#[global] Arguments write : simpl never.
#[global] Arguments writeLE : simpl never.
#[global] Arguments le_put : simpl never.
#[global] Arguments le_get : simpl never.
#[global] Arguments ReadFull : simpl never.
