(* ===== verification/WireCommon.v ===== *)
(** * wire/common.go: integers, elements and variable length data

    The primitive (de)serializers every message of package wire is built from.
    Buffers borrowed from a [sync.Pool] are private to the call that borrows
    them and are not part of the state; the protocol version argument, which
    none of these functions reads, is left out. *)

From Stdlib Require Import String ZArith List Lia Bool.
From S2P Require Import Prelude GoIO.
Import ListNotations.
Local Open Scope string_scope.
Local Open Scope list_scope.
Local Open Scope Z_scope.
Local Open Scope go_scope.

(** ** Constants *)

Definition MaxVarIntPayload : Z := 9.
Definition CommandSize : Z := 12.
Definition MaxMessagePayload : Z := 1024 * 1024 * 32.
Definition HashSize : Z := 32.
Definition zeroHash : list Z := repeat 0 32.
Definition MaxUint16 : Z := 65535.
Definition MaxUint32 : Z := 4294967295.

(** ** binarySerializer *)

Definition Uint8 : reader Z := readLE 1.
Definition Uint16 : reader Z := readLE 2.
Definition Uint32 : reader Z := readLE 4.
Definition Uint64 : reader Z := readLE 8.

Definition PutUint8 (val : Z) : written := writeLE 1 val.
Definition PutUint16 (val : Z) : written := writeLE 2 val.
Definition PutUint32 (val : Z) : written := writeLE 4 val.
Definition PutUint64 (val : Z) : written := writeLE 8 val.

#[export] Instance codec_u8 : Codec PutUint8 Uint8 is_byte := codec_LE 1.
#[export] Instance codec_u16 : Codec PutUint16 Uint16 is_u16 := codec_LE 2.
#[export] Instance codec_u32 : Codec PutUint32 Uint32 is_u32 := codec_LE 4.
#[export] Instance codec_u64 : Codec PutUint64 Uint64 is_u64 := codec_LE 8.
#[export] Instance codec_sound_u8 : CodecSound PutUint8 Uint8 is_byte := codec_sound_LE 1.
#[export] Instance codec_sound_u16 : CodecSound PutUint16 Uint16 is_u16 := codec_sound_LE 2.
#[export] Instance codec_sound_u32 : CodecSound PutUint32 Uint32 is_u32 := codec_sound_LE 4.
#[export] Instance codec_sound_u64 : CodecSound PutUint64 Uint64 is_u64 := codec_sound_LE 8.

(** ** readElement and writeElement

    The dynamic type of the element is a constructor of [elem]; [elem_kind] is
    the type of the destination a read is given.  A timestamp is its Unix
    seconds. *)
Inductive elem_kind : Type :=
| KInt32 | KUint32 | KInt64 | KUint64 | KBool | KUint32Time | KInt64Time
| KBytes4 | KCommand | KBytes16 | KHash | KServiceFlag | KInvType
| KBitcoinNet | KBloomUpdateType | KRejectCode.

Inductive elem : Type :=
| EInt32 (z : Z) | EUint32 (z : Z) | EInt64 (z : Z) | EUint64 (z : Z)
| EBool (b : bool) | EUint32Time (sec : Z) | EInt64Time (sec : Z)
| EBytes4 (l : list Z) | ECommand (l : list Z) | EBytes16 (l : list Z)
| EHash (l : list Z) | EServiceFlag (z : Z) | EInvType (z : Z)
| EBitcoinNet (z : Z) | EBloomUpdateType (z : Z) | ERejectCode (z : Z).

Definition readElement (k : elem_kind) : reader elem :=
  match k with
  | KInt32 => let! rv := Uint32 in rret (EInt32 (i32 rv))
  | KUint32 => let! rv := Uint32 in rret (EUint32 rv)
  | KInt64 => let! rv := Uint64 in rret (EInt64 (i64 rv))
  | KUint64 => let! rv := Uint64 in rret (EUint64 rv)
  | KBool => let! rv := Uint8 in rret (EBool (negb (rv =? 0)))
  | KUint32Time => let! rv := Uint32 in rret (EUint32Time rv)
  | KInt64Time => let! rv := Uint64 in rret (EInt64Time (i64 rv))
  | KBytes4 => let! e := ReadFull 4 in rret (EBytes4 e)
  | KCommand => let! e := ReadFull CommandSize in rret (ECommand e)
  | KBytes16 => let! e := ReadFull 16 in rret (EBytes16 e)
  | KHash => let! e := ReadFull HashSize in rret (EHash e)
  | KServiceFlag => let! rv := Uint64 in rret (EServiceFlag rv)
  | KInvType => let! rv := Uint32 in rret (EInvType rv)
  | KBitcoinNet => let! rv := Uint32 in rret (EBitcoinNet rv)
  | KBloomUpdateType => let! rv := Uint8 in rret (EBloomUpdateType rv)
  | KRejectCode => let! rv := Uint8 in rret (ERejectCode rv)
  end.

Fixpoint readElements (ks : list elem_kind) : reader (list elem) :=
  match ks with
  | [] => rret []
  | k :: ks' =>
      let! e := readElement k in
      let! es := readElements ks' in
      rret (e :: es)
  end.

(** The two timestamp wrappers have no case in the type switch: they reach
    [binary.Write], which refuses a [time.Time]. *)
Definition writeElement (e : elem) : written :=
  match e with
  | EInt32 z => PutUint32 (u32 z)
  | EUint32 z => PutUint32 z
  | EInt64 z => PutUint64 (u64 z)
  | EUint64 z => PutUint64 z
  | EBool true => PutUint8 1
  | EBool false => PutUint8 0
  | EBytes4 l | ECommand l | EBytes16 l | EHash l => write l
  | EServiceFlag z => PutUint64 z
  | EInvType z => PutUint32 z
  | EBitcoinNet z => PutUint32 z
  | EBloomUpdateType z => PutUint8 z
  | ERejectCode z => PutUint8 z
  | EUint32Time _ | EInt64Time _ => wfail (FmtError "binary.Write")
  end.

Definition writeElements (es : list elem) : written := wall writeElement es.

(** ** Variable length integers *)

Definition ReadVarInt : reader Z :=
  let! discriminant := Uint8 in
  if discriminant =? 0xff then
    let! rv := Uint64 in
    if rv <? 0x100000000 then rfail (MessageError "ReadVarInt") else rret rv
  else if discriminant =? 0xfe then
    let! rv := Uint32 in
    if rv <? 0x10000 then rfail (MessageError "ReadVarInt") else rret rv
  else if discriminant =? 0xfd then
    let! rv := Uint16 in
    if rv <? 0xfd then rfail (MessageError "ReadVarInt") else rret rv
  else rret discriminant.

Definition WriteVarInt (val : Z) : written :=
  if val <? 0xfd then PutUint8 (u8 val)
  else if val <=? MaxUint16 then PutUint8 0xfd >> PutUint16 (u16 val)
  else if val <=? MaxUint32 then PutUint8 0xfe >> PutUint32 (u32 val)
  else PutUint8 0xff >> PutUint64 val.

Definition VarIntSerializeSize (val : Z) : Z :=
  if val <? 0xfd then 1
  else if val <=? MaxUint16 then 3
  else if val <=? MaxUint32 then 5
  else 9.

(** ** Variable length strings and byte arrays *)

(** A Go string is its bytes. *)
Definition ReadVarString : reader (list Z) :=
  let! count := ReadVarInt in
  if MaxMessagePayload <? count then rfail (MessageError "ReadVarString")
  else let! _ := rlift (go_make 1 count) in ReadFull count.

Definition WriteVarString (str : list Z) : written :=
  WriteVarInt (u64 (len str)) >> write str.

Definition ReadVarBytes (maxAllowed : Z) : reader (list Z) :=
  let! count := ReadVarInt in
  if maxAllowed <? count then rfail (MessageError "ReadVarBytes")
  else let! _ := rlift (go_make 1 count) in ReadFull count.

Definition WriteVarBytes (bytes : list Z) : written :=
  WriteVarInt (u64 (len bytes)) >> write bytes.

(** randomUint64 reads its eight bytes big endian. *)
Definition randomUint64 : reader Z :=
  let! b := ReadFull 8 in rret (le_get (rev b)).

(** ** Lemmas: variable length integers *)

Lemma codec_step {A} (enc : A -> written) dec valid `{!Codec enc dec valid} {B} a
    (k : A -> reader B) rest res :
  valid a -> k a rest = res ->
  exists out, enc a = (out, None) /\ rbind dec k (out ++ rest) = res.
Proof.
  intros Ha <-. destruct (codec_roundtrip a rest Ha) as (out & E & D).
  exists out. split; [assumption|]. unfold rbind. now rewrite D.
Qed.

(** A field followed by what [k] reads. *)
Lemma codec_seq {A} (enc : A -> written) dec valid `{!Codec enc dec valid} {B} a w2
    (k : A -> reader B) rest res :
  valid a ->
  (exists out2, w2 = (out2, None) /\ k a (out2 ++ rest) = res) ->
  exists out, enc a >> w2 = (out, None) /\ rbind dec k (out ++ rest) = res.
Proof.
  intros Ha (o2 & -> & <-).
  destruct (codec_step enc dec valid a k (o2 ++ rest) _ Ha eq_refl) as (o1 & E & D).
  exists (o1 ++ o2). rewrite E, <- app_assoc. auto.
Qed.

(** Inverting a successful read of a field. *)
Lemma sound_bind {A B} (enc : A -> written) dec valid `{!CodecSound enc dec valid}
    (k : A -> reader B) r b rest :
  bytes_ok r -> rbind dec k r = Ok (b, rest) ->
  exists a o r1, enc a = (o, None) /\ valid a /\ r = o ++ r1 /\ bytes_ok r1 /\
                 k a r1 = Ok (b, rest).
Proof.
  intros Hr H. apply rbind_Ok in H. destruct H as (a & r1 & E & H).
  destruct (codec_sound _ _ _ Hr E) as (o & Eo & -> & V).
  apply bytes_ok_app in Hr. destruct Hr. exists a, o, r1. auto.
Qed.

#[export] Instance codec_VarInt : Codec WriteVarInt ReadVarInt is_u64.
Proof.
  intros v rest Hv. unfold WriteVarInt, ReadVarInt, MaxUint16, MaxUint32, is_u64 in *.
  destruct (Z.ltb_spec v 0xfd); [|destruct (Z.leb_spec v 65535);
    [|destruct (Z.leb_spec v 4294967295)]].
  - rewrite u8_id by (unfold is_byte; lia).
    apply (codec_step PutUint8 Uint8 is_byte); [unfold is_byte; lia | now decide_cmp].
  - rewrite u16_id by (unfold is_u16; lia).
    apply (codec_seq PutUint8 Uint8 is_byte); [unfold is_byte; lia | decide_cmp].
    apply (codec_step PutUint16 Uint16 is_u16); [unfold is_u16; lia | now decide_cmp].
  - rewrite u32_id by (unfold is_u32; lia).
    apply (codec_seq PutUint8 Uint8 is_byte); [unfold is_byte; lia | decide_cmp].
    apply (codec_step PutUint32 Uint32 is_u32); [unfold is_u32; lia | now decide_cmp].
  - apply (codec_seq PutUint8 Uint8 is_byte); [unfold is_byte; lia | decide_cmp].
    apply (codec_step PutUint64 Uint64 is_u64); [unfold is_u64; lia | now decide_cmp].
Qed.

#[export] Instance codec_sound_VarInt : CodecSound WriteVarInt ReadVarInt is_u64.
Proof.
  intros v r rest Hr H. unfold ReadVarInt in H. inv_read.
  destruct (codec_sound _ _ _ Hr E) as (o1 & E1 & -> & V1).
  apply bytes_ok_app in Hr. destruct Hr as [_ Hr].
  unfold WriteVarInt, MaxUint16, MaxUint32, is_byte, is_u64 in *.
  destruct (Z.eqb_spec x 0xff) as [->|N1];
    [|destruct (Z.eqb_spec x 0xfe) as [->|N2]; [|destruct (Z.eqb_spec x 0xfd) as [->|N3]]].
  4:{ inv_read. rewrite u8_id by (unfold is_byte; lia). decide_cmp.
      exists o1. repeat split; auto; lia. }
  all: inv_read; destruct (codec_sound _ _ _ Hr E0) as (o2 & E2 & -> & V2);
    unfold is_u64, is_u32, is_u16 in *;
    destruct (Z.ltb_spec x 0x100000000), (Z.ltb_spec x 0x10000), (Z.ltb_spec x 0xfd);
    try discriminate; try (exfalso; lia); inv_read; decide_cmp;
    rewrite ?u32_id, ?u16_id by (unfold is_u32, is_u16; lia);
    exists (o1 ++ o2); rewrite E1, E2, <- app_assoc; repeat split; auto; lia.
Qed.

#[export] Instance codec_size_VarInt : CodecSize WriteVarInt VarIntSerializeSize is_u64.
Proof.
  intros v out Hv H. unfold WriteVarInt, VarIntSerializeSize in *.
  destruct (v <? 0xfd); [|destruct (v <=? MaxUint16); [|destruct (v <=? MaxUint32)]];
    injection H as <-; unfold len; rewrite ?length_app, ?le_put_length; reflexivity.
Qed.

Lemma VarInt_writes v : snd (WriteVarInt v) = None.
Proof.
  unfold WriteVarInt.
  destruct (v <? 0xfd); [|destruct (v <=? MaxUint16); [|destruct (v <=? MaxUint32)]];
    reflexivity.
Qed.

Lemma VarBytes_writes l : snd (WriteVarBytes l) = None.
Proof. apply wseq_writes; [apply VarInt_writes | reflexivity]. Qed.

#[export] Hint Resolve VarInt_writes VarBytes_writes : writes.

(** ** Lemmas: variable length byte arrays *)

Lemma len_u64 {A} (l : list A) : len l < 2 ^ 64 -> u64 (len l) = len l.
Proof. intros H. apply u64_id. pose proof (len_nonneg l). unfold is_u64; lia. Qed.

Lemma codec_VarBytes max :
  max < maxAlloc ->
  Codec WriteVarBytes (ReadVarBytes max) (fun l => len l <= max).
Proof.
  intros Hmax l rest Hl. unfold WriteVarBytes, ReadVarBytes, maxAlloc in *.
  pose proof (len_nonneg l). rewrite len_u64 by lia.
  apply (codec_seq WriteVarInt ReadVarInt is_u64); [unfold is_u64; lia|].
  exists l. split; [reflexivity|]. decide_cmp.
  unfold rbind, rlift. rewrite go_make_ok by (unfold maxAlloc; lia). simpl.
  apply ReadFull_app.
Qed.

Lemma codec_sound_VarBytes max :
  max < 2 ^ 64 ->
  CodecSound WriteVarBytes (ReadVarBytes max) (fun l => len l <= max).
Proof.
  intros Hmax l r rest Hr H. unfold ReadVarBytes in H. inv_read.
  destruct (codec_sound _ _ _ Hr E) as (o1 & E1 & -> & V1).
  destruct (Z.ltb_spec max x); [discriminate|]. inv_read.
  unfold rlift, go_make in E0. destruct (_ || _); [discriminate|]. inv_ok.
  unfold is_u64 in V1. apply ReadFull_Ok in H; [|lia]. destruct H as [-> Hl].
  exists (o1 ++ l). unfold WriteVarBytes. rewrite Hl.
  rewrite u64_id by (unfold is_u64; lia). rewrite E1, <- app_assoc. auto.
Qed.

Lemma WriteVarBytes_size l out :
  len l < 2 ^ 64 -> WriteVarBytes l = (out, None) ->
  len out = VarIntSerializeSize (len l) + len l.
Proof.
  unfold WriteVarBytes; intros Hl H. rewrite len_u64 in H by assumption.
  apply wseq_None in H. destruct H as (o1 & o2 & E1 & [= <-] & ->).
  rewrite len_app. erewrite codec_size; [reflexivity | | exact E1].
  pose proof (len_nonneg l). unfold is_u64; lia.
Qed.

(** ** Decoders never panic

    [reads dec P]: on a stream of bytes the decoder never panics, and what it
    returns satisfies [P] and leaves a stream of bytes.  In particular every
    allocation the decoder makes has been bounded before it is made. *)
Definition reads {A} (dec : reader A) (P : A -> Prop) : Prop :=
  forall r, bytes_ok r ->
    match dec r with
    | Ok (a, r') => P a /\ bytes_ok r'
    | Err _ => True
    | Panic => False
    end.

Create HintDb reads.

Lemma reads_ret {A} (a : A) (P : A -> Prop) : P a -> reads (rret a) P.
Proof. intros HP r Hr. simpl. auto. Qed.

Lemma reads_fail {A} e (P : A -> Prop) : reads (rfail e) P.
Proof. intros r Hr. exact I. Qed.

Lemma reads_bind {A B} (m : reader A) (k : A -> reader B) P Q :
  reads m P -> (forall a, P a -> reads (k a) Q) -> reads (rbind m k) Q.
Proof.
  intros Hm Hk r Hr. unfold rbind. specialize (Hm r Hr).
  destruct (m r) as [[a r']|e|]; simpl; auto. now apply Hk.
Qed.

Lemma reads_weaken {A} (m : reader A) (P Q : A -> Prop) :
  reads m P -> (forall a, P a -> Q a) -> reads m Q.
Proof.
  intros Hm HPQ r Hr. specialize (Hm r Hr).
  destruct (m r) as [[a r']|e|]; intuition auto.
Qed.

Lemma reads_if {A} (b : bool) (m1 m2 : reader A) P :
  (b = true -> reads m1 P) -> (b = false -> reads m2 P) ->
  reads (if b then m1 else m2) P.
Proof. destruct b; auto. Qed.

Lemma reads_ReadFull n : 0 <= n -> reads (ReadFull n) (fun l => len l = n /\ bytes_ok l).
Proof.
  intros Hn r Hr. destruct (ReadFull n r) as [[l r']|e|] eqn:E; auto.
  - apply ReadFull_Ok in E; [|assumption]. destruct E as [-> Hl].
    apply bytes_ok_app in Hr. tauto.
  - exact (ReadFull_never_panics n r E).
Qed.

Lemma reads_readLE w : reads (readLE w) (fun z => 0 <= z < 256 ^ Z.of_nat w).
Proof.
  eapply reads_bind; [apply reads_ReadFull; lia|].
  intros l [Hl Hb]. apply reads_ret. rewrite <- Hl. now apply le_get_range.
Qed.

Lemma reads_readN {A} (dec : reader A) P n :
  reads dec P -> reads (readN dec n) (fun l => Forall P l /\ List.length l = n).
Proof.
  intros H. induction n as [|n IH]; simpl; [apply reads_ret; auto|].
  eapply reads_bind; [exact H|]. intros x Hx. eapply reads_bind; [exact IH|].
  intros xs [Hxs Hn]. apply reads_ret. simpl; auto.
Qed.

Lemma reads_make {A} size n (k : unit -> reader A) P :
  0 <= n -> size * n <= maxAlloc -> reads (k tt) P ->
  reads (rbind (rlift (go_make size n)) k) P.
Proof.
  intros Hn Hs Hk r Hr. unfold rbind, rlift. rewrite go_make_ok by assumption.
  now apply Hk.
Qed.

Lemma reads_Uint8 : reads Uint8 is_byte.
Proof. exact (reads_readLE 1). Qed.

Lemma reads_Uint16 : reads Uint16 is_u16.
Proof. exact (reads_readLE 2). Qed.

Lemma reads_Uint32 : reads Uint32 is_u32.
Proof. exact (reads_readLE 4). Qed.

Lemma reads_Uint64 : reads Uint64 is_u64.
Proof. exact (reads_readLE 8). Qed.

#[export] Hint Resolve reads_fail reads_readLE reads_readN reads_Uint8 reads_Uint16
  reads_Uint32 reads_Uint64 : reads.

Lemma reads_ReadVarInt : reads ReadVarInt is_u64.
Proof.
  unfold ReadVarInt. eapply reads_bind; [auto with reads|]. intros d Hd.
  repeat (apply reads_if; intros _); try (eapply reads_bind; [auto with reads|]; intros v Hv;
    apply reads_if; intros _; [apply reads_fail|]); apply reads_ret;
    unfold is_byte, is_u16, is_u32, is_u64 in *; lia.
Qed.

Lemma reads_ReadVarBytes max :
  max <= maxAlloc ->
  reads (ReadVarBytes max) (fun l => len l <= max /\ bytes_ok l).
Proof.
  intros Hmax. eapply reads_bind; [apply reads_ReadVarInt|]. intros c Hc.
  unfold is_u64 in Hc. apply reads_if; [auto with reads|]. intros Hle.
  apply Z.ltb_ge in Hle. apply reads_make; [lia|lia|].
  eapply reads_weaken; [apply reads_ReadFull; lia|]. intros l [<- Hb]. auto.
Qed.

#[export] Hint Resolve reads_ReadVarInt reads_ReadVarBytes : reads.

(** ** Elements

    [elem_fits k e]: a value [e] can be written and read back as kind [k]; a
    timestamp is written as the [uint32] of its seconds. *)
Definition elem_fits (k : elem_kind) (e : elem) : Prop :=
  match k, e with
  | KInt32, EInt32 z => is_i32 z
  | KUint32, EUint32 z | KUint32Time, EUint32 z => is_u32 z
  | KInt64, EInt64 z | KInt64Time, EInt64 z => is_i64 z
  | KUint64, EUint64 z | KServiceFlag, EServiceFlag z => is_u64 z
  | KBool, EBool _ => True
  | KBytes4, EBytes4 l => len l = 4
  | KCommand, ECommand l => len l = CommandSize
  | KBytes16, EBytes16 l => len l = 16
  | KHash, EHash l => len l = HashSize
  | KInvType, EInvType z | KBitcoinNet, EBitcoinNet z => is_u32 z
  | KBloomUpdateType, EBloomUpdateType z | KRejectCode, ERejectCode z => is_byte z
  | _, _ => False
  end.

(** The element as the destination of kind [k] sees it. *)
Definition elem_view (k : elem_kind) (e : elem) : elem :=
  match k, e with
  | KUint32Time, EUint32 z => EUint32Time z
  | KInt64Time, EInt64 z => EInt64Time z
  | _, _ => e
  end.

Lemma element_decode_encode k e rest :
  elem_fits k e ->
  exists out, writeElement e = (out, None) /\
              readElement k (out ++ rest) = Ok (elem_view k e, rest).
Proof.
  destruct k, e; simpl; intros H; try contradiction;
    try (apply (codec_step PutUint32 Uint32 is_u32); [assumption | reflexivity]);
    try (apply (codec_step PutUint64 Uint64 is_u64); [assumption | reflexivity]);
    try (apply (codec_step PutUint8 Uint8 is_byte); [assumption | reflexivity]).
  1: apply (codec_step PutUint32 Uint32 is_u32); [apply u32_range | now rewrite i32_u32].
  1, 3: apply (codec_step PutUint64 Uint64 is_u64); [apply u64_range | now rewrite i64_u64].
  1: destruct b; apply (codec_step PutUint8 Uint8 is_byte);
       (unfold is_byte; lia) || reflexivity.
  1: apply (codec_step write (ReadFull 4) (fun l => len l = 4)); auto.
  1: apply (codec_step write (ReadFull CommandSize) (fun l => len l = CommandSize)); auto.
  1: apply (codec_step write (ReadFull 16) (fun l => len l = 16)); auto.
  1: apply (codec_step write (ReadFull HashSize) (fun l => len l = HashSize)); auto.
Qed.

Lemma elements_decode_encode ks es rest :
  Forall2 elem_fits ks es ->
  exists out, writeElements es = (out, None) /\
    readElements ks (out ++ rest)
    = Ok (map (fun ke => elem_view (fst ke) (snd ke)) (combine ks es), rest).
Proof.
  unfold writeElements. induction 1 as [|k e ks es He Hes IH]; simpl.
  - exists []. split; reflexivity.
  - destruct IH as (o2 & E2 & D2).
    destruct (element_decode_encode k e (o2 ++ rest) He) as (o1 & E1 & D1).
    exists (o1 ++ o2). rewrite E1, E2. split; [reflexivity|].
    unfold rbind. rewrite <- app_assoc, D1. simpl. now rewrite D2.
Qed.

(** ** Properties *)

(** Reading a variable length integer succeeds exactly on the bytes that
    writing its value produces, of the size computed for it: no value has a second
    encoding. *)
Theorem VarInt_canonical r v rest :
  bytes_ok r ->
  ReadVarInt r = Ok (v, rest) <->
  is_u64 v /\ exists out, WriteVarInt v = (out, None)
                        /\ len out = VarIntSerializeSize v /\ r = out ++ rest.
Proof.
  intros Hr. split.
  - intros H. destruct (codec_sound _ _ _ Hr H) as (out & E & -> & V).
    split; [exact V|]. exists out. split; [exact E|]. split; [|reflexivity].
    exact (codec_size _ _ V E).
  - intros (V & out & E & _ & ->).
    destruct (codec_roundtrip v rest V) as (out' & E' & D).
    rewrite E in E'. injection E' as <-. exact D.
Qed.

Lemma VarInt_canonical_witness :
  ReadVarInt [0xfd; 0x34; 0x12; 7] = Ok (0x1234, [7])
  /\ VarIntSerializeSize 0x1234 = 3.
Proof.
  split; [|reflexivity].
  apply (VarInt_canonical [0xfd; 0x34; 0x12; 7] 0x1234 [7]).
  - repeat constructor; unfold is_byte; lia.
  - split; [unfold is_u64; lia|]. exists [0xfd; 0x34; 0x12]. repeat split.
Defined.
