(* ===== verification/WireTx.v ===== *)
(** * wire/msgtx.go: transactions

    Outpoints, inputs, outputs and the transaction message: its encoding in the
    base and in the witness format, its decoding (the bounds on every count,
    the witness flag, and the final step that moves all scripts into one
    contiguous allocation), and the sizes and script offsets computed without
    encoding.  A witness is an [option]: [None] is Go's nil slice, which
    PkScriptLocs distinguishes from an empty one. *)

From Stdlib Require Import String ZArith List Lia Bool.
From S2P Require Import Prelude GoSlice GoIO WireCommon.
Import ListNotations.
Local Open Scope string_scope.
Local Open Scope list_scope.
Local Open Scope Z_scope.
Local Open Scope go_scope.

(** ** Constants *)

Definition MaxTxInSequenceNum : Z := 0xffffffff.
Definition minTxInPayload : Z := 9 + HashSize.
Definition maxTxInPerMessage : Z := MaxMessagePayload / minTxInPayload + 1.
Definition MinTxOutPayload : Z := 9.
Definition maxTxOutPerMessage : Z := MaxMessagePayload / MinTxOutPayload + 1.
Definition maxWitnessItemsPerInput : Z := 4000000.
Definition maxWitnessItemSize : Z := 4000000.
Definition TxFlagMarker : Z := 0.
Definition WitnessFlag : Z := 1.

(** MessageEncoding is a bit set. *)
Definition BaseEncoding : Z := 1.
Definition WitnessEncoding : Z := 2.
Definition wantsWitness (enc : Z) : bool := Z.land enc WitnessEncoding =? WitnessEncoding.

(** ** Data *)

Record OutPoint : Type := mkOutPoint { op_Hash : list Z; op_Index : Z }.

Record TxIn : Type := mkTxIn {
  ti_PreviousOutPoint : OutPoint;
  ti_SignatureScript : list Z;
  ti_Witness : option (list (list Z));
  ti_Sequence : Z
}.

Record TxOut : Type := mkTxOut { to_Value : Z; to_PkScript : list Z }.

Record MsgTx : Type := mkMsgTx {
  tx_Version : Z;
  tx_TxIn : list TxIn;
  tx_TxOut : list TxOut;
  tx_LockTime : Z
}.

(** The items of a witness; ranging over a nil slice visits nothing. *)
Definition wit_items (w : option (list (list Z))) : list (list Z) :=
  match w with Some l => l | None => [] end.

Definition set_witness (ti : TxIn) (w : option (list (list Z))) : TxIn :=
  mkTxIn (ti_PreviousOutPoint ti) (ti_SignatureScript ti) w (ti_Sequence ti).

Definition NewTxIn (prevOut : OutPoint) (signatureScript : list Z)
    (witness : option (list (list Z))) : TxIn :=
  mkTxIn prevOut signatureScript witness MaxTxInSequenceNum.

Definition NewMsgTx (version : Z) : MsgTx := mkMsgTx version [] [] 0.

Definition AddTxIn (msg : MsgTx) (ti : TxIn) : MsgTx :=
  mkMsgTx (tx_Version msg) (tx_TxIn msg ++ [ti]) (tx_TxOut msg) (tx_LockTime msg).

Definition AddTxOut (msg : MsgTx) (to : TxOut) : MsgTx :=
  mkMsgTx (tx_Version msg) (tx_TxIn msg) (tx_TxOut msg ++ [to]) (tx_LockTime msg).

(** ** Encoding *)

Definition WriteOutPoint (op : OutPoint) : written :=
  write (op_Hash op) >> PutUint32 (op_Index op).

Definition writeTxIn (ti : TxIn) : written :=
  WriteOutPoint (ti_PreviousOutPoint ti) >>
  WriteVarBytes (ti_SignatureScript ti) >>
  PutUint32 (ti_Sequence ti).

Definition WriteTxOut (to : TxOut) : written :=
  PutUint64 (u64 (to_Value to)) >> WriteVarBytes (to_PkScript to).

Definition writeTxWitness (wit : list (list Z)) : written :=
  WriteVarInt (u64 (len wit)) >> wall WriteVarBytes wit.

Definition HasWitness (msg : MsgTx) : bool :=
  existsb (fun ti => negb (len (wit_items (ti_Witness ti)) =? 0)) (tx_TxIn msg).

Definition BtcEncode (enc : Z) (msg : MsgTx) : written :=
  let doWitness := wantsWitness enc && HasWitness msg in
  PutUint32 (u32 (tx_Version msg)) >>
  (if doWitness then write [TxFlagMarker; WitnessFlag] else write []) >>
  WriteVarInt (u64 (len (tx_TxIn msg))) >>
  wall writeTxIn (tx_TxIn msg) >>
  WriteVarInt (u64 (len (tx_TxOut msg))) >>
  wall WriteTxOut (tx_TxOut msg) >>
  (if doWitness then wall (fun ti => writeTxWitness (wit_items (ti_Witness ti))) (tx_TxIn msg)
   else write []) >>
  PutUint32 (tx_LockTime msg).

Definition Serialize (msg : MsgTx) : written := BtcEncode WitnessEncoding msg.
Definition SerializeNoWitness (msg : MsgTx) : written := BtcEncode BaseEncoding msg.

(** ** Decoding *)

Definition readOutPoint : reader OutPoint :=
  let! h := ReadFull HashSize in
  let! i := Uint32 in
  rret (mkOutPoint h i).

(** scriptFreeList.Borrow: only sizes beyond the free list's allocate. *)
Definition freeListMaxScriptSize : Z := 512.
Definition Borrow (size : Z) : outcome gerr unit :=
  if freeListMaxScriptSize <? size then go_make 1 size else Ok tt.

Definition readScript (maxAllowed : Z) : reader (list Z) :=
  let! count := ReadVarInt in
  if maxAllowed <? count then rfail (MessageError "readScript")
  else let! _ := rlift (Borrow count) in ReadFull count.

Definition readTxIn : reader TxIn :=
  let! op := readOutPoint in
  let! script := readScript MaxMessagePayload in
  let! sequence := Uint32 in
  rret (mkTxIn op script None sequence).

Definition ReadTxOut : reader TxOut :=
  let! v := Uint64 in
  let! script := readScript MaxMessagePayload in
  rret (mkTxOut (i64 v) script).

Definition readTxWitness : reader (list (list Z)) :=
  let! witCount := ReadVarInt in
  if maxWitnessItemsPerInput <? witCount then rfail (MessageError "MsgTx.BtcDecode")
  else
    let! _ := rlift (go_make 24 witCount) in
    readN (readScript maxWitnessItemSize) (Z.to_nat witCount).

(** The loop that reads one witness per input already read. *)
Fixpoint readWitnesses (txins : list TxIn) : reader (list TxIn) :=
  match txins with
  | [] => rret []
  | ti :: rest =>
      let! w := readTxWitness in
      let! tis := readWitnesses rest in
      rret (set_witness ti (Some w) :: tis)
  end.

(** The input count, behind the optional marker and flag. *)
Definition readFlagAndCount (enc : Z) : reader (Z * Z) :=
  let! count := ReadVarInt in
  if (count =? TxFlagMarker) && wantsWitness enc then
    let! flag := ReadFull 1 in
    let flag0 := nth 0 flag 0 in
    if negb (flag0 =? WitnessFlag) then rfail (MessageError "MsgTx.BtcDecode")
    else let! count' := ReadVarInt in rret (flag0, count')
  else rret (0, count).

(** BtcDecode from the output count to the lock time, given what was read
    before. *)
Definition decodeOutputs (enc version flag : Z) (txIns : list TxIn) : reader MsgTx :=
  let! count := ReadVarInt in
  if maxTxOutPerMessage <? count then rfail (MessageError "MsgTx.BtcDecode")
  else
    let! _ := rlift (go_make 32 count) in
    let! txOuts := readN ReadTxOut (Z.to_nat count) in
    let! txIns' := (if negb (flag =? 0) && wantsWitness enc
                    then readWitnesses txIns else rret txIns) in
    let! lockTime := Uint32 in
    rret (mkMsgTx (i32 version) txIns' txOuts lockTime).

(** BtcDecode up to the lock time. *)
Definition decodeFields (enc : Z) : reader MsgTx :=
  let! version := Uint32 in
  let! (flag, count) := readFlagAndCount enc in
  if maxTxInPerMessage <? count then rfail (MessageError "MsgTx.BtcDecode")
  else
    let! _ := rlift (go_make 96 count) in
    let! txIns := readN readTxIn (Z.to_nat count) in
    decodeOutputs enc version flag txIns.

(** *** The contiguous script buffer

    The scripts read one by one are copied into a single allocation, and each
    field is set to its slice of it.  The slices alias the buffer: what a field
    holds in the end is the part of the final buffer between its two offsets. *)

(** The scripts of a transaction in the order the two loops visit them. *)
Definition txin_scripts (ti : TxIn) : list (list Z) :=
  ti_SignatureScript ti :: wit_items (ti_Witness ti).
Definition tx_scripts (msg : MsgTx) : list (list Z) :=
  flat_map txin_scripts (tx_TxIn msg) ++ map to_PkScript (tx_TxOut msg).

Fixpoint copy_scripts (buf : list Z) (offset : Z) (ss : list (list Z)) :
    outcome gerr (list Z) :=
  match ss with
  | [] => Ok buf
  | s :: ss' =>
      let* buf' := copy_at buf offset s in
      copy_scripts buf' (offset + len s) ss'
  end.

Fixpoint reslice (buf : list Z) (offset : Z) (ss : list (list Z)) :
    outcome gerr (list (list Z) * Z) :=
  match ss with
  | [] => Ok ([], offset)
  | s :: ss' =>
      let* s' := slice buf offset (offset + len s) in
      let* (rest, off) := reslice buf (offset + len s) ss' in
      Ok (s' :: rest, off)
  end.

Fixpoint reslice_ins (buf : list Z) (offset : Z) (tis : list TxIn) :
    outcome gerr (list TxIn * Z) :=
  match tis with
  | [] => Ok ([], offset)
  | ti :: tis' =>
      let* sig := slice buf offset (offset + len (ti_SignatureScript ti)) in
      let* (items, off) := reslice buf (offset + len (ti_SignatureScript ti))
                                    (wit_items (ti_Witness ti)) in
      let* (rest, off') := reslice_ins buf off tis' in
      Ok (mkTxIn (ti_PreviousOutPoint ti) sig
            (option_map (fun _ => items) (ti_Witness ti)) (ti_Sequence ti) :: rest, off')
  end.

Fixpoint reslice_outs (buf : list Z) (offset : Z) (tos : list TxOut) :
    outcome gerr (list TxOut) :=
  match tos with
  | [] => Ok []
  | to :: tos' =>
      let* s := slice buf offset (offset + len (to_PkScript to)) in
      let* rest := reslice_outs buf (offset + len (to_PkScript to)) tos' in
      Ok (mkTxOut (to_Value to) s :: rest)
  end.

Definition totalScriptSize (msg : MsgTx) : Z :=
  fold_right (fun s n => u64 (n + len s)) 0 (tx_scripts msg).

Definition relocate (msg : MsgTx) : outcome gerr MsgTx :=
  let total := totalScriptSize msg in
  let* _ := go_make 1 total in
  let* scripts := copy_scripts (repeat 0 (Z.to_nat total)) 0 (tx_scripts msg) in
  let* (txIns, off) := reslice_ins scripts 0 (tx_TxIn msg) in
  let* txOuts := reslice_outs scripts off (tx_TxOut msg) in
  Ok (mkMsgTx (tx_Version msg) txIns txOuts (tx_LockTime msg)).

Definition BtcDecode (enc : Z) : reader MsgTx :=
  let! msg := decodeFields enc in rlift (relocate msg).

Definition Deserialize : reader MsgTx := BtcDecode WitnessEncoding.
Definition DeserializeNoWitness : reader MsgTx := BtcDecode BaseEncoding.

(** ** Sizes *)

Definition txin_SerializeSize (t : TxIn) : Z :=
  40 + VarIntSerializeSize (len (ti_SignatureScript t)) + len (ti_SignatureScript t).

Definition witness_SerializeSize (t : list (list Z)) : Z :=
  VarIntSerializeSize (len t) +
  fold_right (fun w n => VarIntSerializeSize (len w) + len w + n) 0 t.

Definition txout_SerializeSize (t : TxOut) : Z :=
  8 + VarIntSerializeSize (len (to_PkScript t)) + len (to_PkScript t).

Definition baseSize (msg : MsgTx) : Z :=
  8 + VarIntSerializeSize (len (tx_TxIn msg)) + VarIntSerializeSize (len (tx_TxOut msg)) +
  fold_right (fun ti n => txin_SerializeSize ti + n) 0 (tx_TxIn msg) +
  fold_right (fun to n => txout_SerializeSize to + n) 0 (tx_TxOut msg).

Definition SerializeSize (msg : MsgTx) : Z :=
  if HasWitness msg then
    baseSize msg + 2 +
    fold_right (fun ti n => witness_SerializeSize (wit_items (ti_Witness ti)) + n) 0
      (tx_TxIn msg)
  else baseSize msg.

Definition SerializeSizeStripped (msg : MsgTx) : Z := baseSize msg.

(** PkScriptLocs decides whether the flag is there by the first input only. *)
Fixpoint pkScriptLocs_from (n : Z) (outs : list TxOut) : list Z :=
  match outs with
  | [] => []
  | to :: outs' =>
      let n' := n + 8 + VarIntSerializeSize (len (to_PkScript to)) in
      n' :: pkScriptLocs_from (n' + len (to_PkScript to)) outs'
  end.

Definition firstWitnessSet (msg : MsgTx) : bool :=
  match tx_TxIn msg with
  | ti :: _ => match ti_Witness ti with Some _ => true | None => false end
  | [] => false
  end.

Definition PkScriptLocs (msg : MsgTx) : list Z :=
  if len (tx_TxOut msg) =? 0 then []
  else
    let n := 4 + VarIntSerializeSize (len (tx_TxIn msg)) +
             VarIntSerializeSize (len (tx_TxOut msg)) +
             (if firstWitnessSet msg then 2 else 0) +
             fold_right (fun ti m => txin_SerializeSize ti + m) 0 (tx_TxIn msg) in
    pkScriptLocs_from n (tx_TxOut msg).

(** ** Hashes and copies *)

Section Hashes.
(** chainhash.DoubleHashRaw: double SHA-256, not part of the model. *)
Context (DoubleHash : list Z -> list Z).

Definition TxHash (msg : MsgTx) : list Z := DoubleHash (fst (SerializeNoWitness msg)).

Definition WitnessHash (msg : MsgTx) : list Z :=
  if HasWitness msg then DoubleHash (fst (Serialize msg)) else TxHash msg.
End Hashes.

(** Copy keeps a witness only when it has items. *)
Definition copy_txin (old : TxIn) : TxIn :=
  mkTxIn (ti_PreviousOutPoint old) (ti_SignatureScript old)
    (if negb (len (wit_items (ti_Witness old)) =? 0)
     then Some (wit_items (ti_Witness old)) else None)
    (ti_Sequence old).

Definition Copy (msg : MsgTx) : MsgTx :=
  mkMsgTx (tx_Version msg) (map copy_txin (tx_TxIn msg))
    (map (fun to => mkTxOut (to_Value to) (to_PkScript to)) (tx_TxOut msg))
    (tx_LockTime msg).

(** ** Lemmas: the contiguous buffer *)

Lemma len_concat_cons {A} (s : list A) ss : len (concat (s :: ss)) = len s + len (concat ss).
Proof. simpl. apply len_app. Qed.

Lemma copy_scripts_fresh ss : forall done,
  copy_scripts (done ++ repeat 0 (List.length (concat ss))) (len done) ss
  = Ok (done ++ concat ss).
Proof.
  induction ss as [|s ss IH]; intros done; simpl.
  - reflexivity.
  - rewrite length_app, copy_at_fresh. simpl.
    rewrite <- len_app, IH, app_assoc. reflexivity.
Qed.

Lemma reslice_mid ss : forall pre post,
  reslice (pre ++ concat ss ++ post) (len pre) ss = Ok (ss, len pre + len (concat ss)).
Proof.
  induction ss as [|s ss IH]; intros pre post; cbn [reslice concat].
  - rewrite len_nil, Z.add_0_r. reflexivity.
  - rewrite <- app_assoc, slice_mid. simpl.
    rewrite <- len_app, (app_assoc pre s), IH. simpl.
    now rewrite !len_app, Z.add_assoc.
Qed.

Lemma reslice_ins_mid tis : forall pre post,
  reslice_ins (pre ++ concat (flat_map txin_scripts tis) ++ post) (len pre) tis
  = Ok (tis, len pre + len (concat (flat_map txin_scripts tis))).
Proof.
  induction tis as [|ti tis IH]; intros pre post.
  - simpl. rewrite len_nil, Z.add_0_r. reflexivity.
  - replace (concat (flat_map txin_scripts (ti :: tis)))
      with (ti_SignatureScript ti ++ concat (wit_items (ti_Witness ti)) ++
            concat (flat_map txin_scripts tis))
      by (cbn [flat_map]; rewrite concat_app; simpl; now rewrite app_assoc).
    cbn [reslice_ins]. rewrite <- !app_assoc, slice_mid. cbn [obind].
    rewrite <- len_app, (app_assoc pre), reslice_mid. cbn [obind].
    rewrite <- len_app, (app_assoc (pre ++ _)), IH. cbn [obind].
    rewrite !len_app, !Z.add_assoc. now destruct ti as [op sig [w|] sq].
Qed.

Lemma reslice_outs_mid tos : forall pre post,
  reslice_outs (pre ++ concat (map to_PkScript tos) ++ post) (len pre) tos = Ok tos.
Proof.
  induction tos as [|to tos IH]; intros pre post; [reflexivity|].
  cbn [reslice_outs map concat]. rewrite <- app_assoc, slice_mid. cbn [obind].
  rewrite <- len_app, (app_assoc pre), IH. destruct to. reflexivity.
Qed.

(** The number of script bytes of a transaction. *)
Definition scriptBytes (msg : MsgTx) : Z := len (concat (tx_scripts msg)).

Lemma totalScriptSize_eq msg :
  scriptBytes msg <= maxAlloc -> totalScriptSize msg = scriptBytes msg.
Proof.
  unfold totalScriptSize, scriptBytes, maxAlloc. induction (tx_scripts msg) as [|s ss IH].
  - reflexivity.
  - rewrite len_concat_cons. cbn [fold_right]. intros H.
    pose proof (len_nonneg s). pose proof (len_nonneg (concat ss)).
    rewrite IH by lia. rewrite u64_id by (unfold is_u64; lia). lia.
Qed.

Lemma relocate_ok msg : scriptBytes msg <= maxAlloc -> relocate msg = Ok msg.
Proof.
  intros H. unfold relocate. rewrite totalScriptSize_eq by assumption.
  rewrite go_make_ok by (rewrite ?Z.mul_1_l; unfold scriptBytes in *; auto using len_nonneg).
  cbn [obind]. unfold scriptBytes at 1. unfold len at 1. rewrite Nat2Z.id.
  pose proof (copy_scripts_fresh (tx_scripts msg) []) as Hc. cbn [app] in Hc.
  change (len []) with 0 in Hc. rewrite Hc. cbn [obind].
  unfold tx_scripts. rewrite concat_app.
  pose proof (reslice_ins_mid (tx_TxIn msg) []) as Hi. cbn [app] in Hi.
  change (len []) with 0 in Hi. rewrite Hi. cbn [obind]. rewrite Z.add_0_l.
  rewrite <- (app_nil_r (concat (map to_PkScript (tx_TxOut msg)))), reslice_outs_mid.
  cbn [obind]. now destruct msg.
Qed.

(** ** Well-formed transactions

    What the decoder accepts: the counts within the limits of a message and
    every integer within its width. *)

Definition outpoint_ok (op : OutPoint) : Prop :=
  len (op_Hash op) = HashSize /\ is_u32 (op_Index op).
Definition txin_ok (ti : TxIn) : Prop :=
  outpoint_ok (ti_PreviousOutPoint ti) /\
  len (ti_SignatureScript ti) <= MaxMessagePayload /\ is_u32 (ti_Sequence ti).
Definition script_ok (max : Z) (s : list Z) : Prop := len s <= max.
Definition witness_ok (w : list (list Z)) : Prop :=
  len w <= maxWitnessItemsPerInput /\ Forall (script_ok maxWitnessItemSize) w.
Definition txout_ok (to : TxOut) : Prop :=
  is_i64 (to_Value to) /\ len (to_PkScript to) <= MaxMessagePayload.

Record tx_ok (msg : MsgTx) : Prop := {
  ok_version : is_i32 (tx_Version msg);
  ok_nin : len (tx_TxIn msg) <= maxTxInPerMessage;
  ok_ins : Forall txin_ok (tx_TxIn msg);
  ok_wits : Forall (fun ti => witness_ok (wit_items (ti_Witness ti))) (tx_TxIn msg);
  ok_nout : len (tx_TxOut msg) <= maxTxOutPerMessage;
  ok_outs : Forall txout_ok (tx_TxOut msg);
  ok_locktime : is_u32 (tx_LockTime msg);
  ok_scripts : scriptBytes msg <= maxAlloc
}.

(** An input as the decoder produces it: without witness when the encoding has
    none, with a non-nil one otherwise. *)
Definition norm_txin (doWitness : bool) (ti : TxIn) : TxIn :=
  set_witness ti (if doWitness then Some (wit_items (ti_Witness ti)) else None).
Definition norm_tx (enc : Z) (msg : MsgTx) : MsgTx :=
  mkMsgTx (tx_Version msg)
    (map (norm_txin (wantsWitness enc && HasWitness msg)) (tx_TxIn msg))
    (tx_TxOut msg) (tx_LockTime msg).

(** ** Codecs of the parts *)

Lemma Borrow_ok c : 0 <= c <= maxAlloc -> Borrow c = Ok tt.
Proof.
  intros H. unfold Borrow. destruct (_ <? _); [|reflexivity]. apply go_make_ok; lia.
Qed.

Lemma codec_script max :
  max <= maxAlloc -> Codec WriteVarBytes (readScript max) (script_ok max).
Proof.
  unfold script_ok. intros Hmax l rest Hl. unfold WriteVarBytes, readScript, maxAlloc in *.
  pose proof (len_nonneg l). rewrite len_u64 by lia.
  apply (codec_seq WriteVarInt ReadVarInt is_u64); [unfold is_u64; lia|].
  exists l. split; [reflexivity|]. decide_cmp.
  unfold rbind, rlift. rewrite Borrow_ok by (unfold maxAlloc; lia).
  apply ReadFull_app.
Qed.

Lemma codec_sound_script max :
  max < 2 ^ 64 -> CodecSound WriteVarBytes (readScript max) (script_ok max).
Proof.
  intros Hmax l r rest Hr H. unfold readScript in H. inv_read.
  destruct (codec_sound _ _ _ Hr E) as (o1 & E1 & -> & V1).
  destruct (Z.ltb_spec max x); [discriminate|]. inv_read.
  unfold rlift in E0. inv_ok.
  unfold is_u64 in V1. apply ReadFull_Ok in H; [|lia]. destruct H as [-> Hl].
  exists (o1 ++ l). unfold WriteVarBytes, script_ok. rewrite Hl.
  rewrite u64_id by (unfold is_u64; lia). rewrite E1, <- app_assoc. auto.
Qed.

Lemma reads_script max :
  max <= maxAlloc -> reads (readScript max) (fun l => len l <= max /\ bytes_ok l).
Proof.
  intros Hmax. eapply reads_bind; [apply reads_ReadVarInt|]. intros c Hc.
  unfold is_u64 in Hc. apply reads_if; [auto with reads|]. intros Hle.
  apply Z.ltb_ge in Hle. intros r Hr. unfold rbind, rlift.
  rewrite Borrow_ok by lia. simpl.
  generalize (reads_ReadFull c (proj1 Hc) r Hr).
  destruct (ReadFull c r) as [[l r']|e|]; intuition lia.
Qed.

#[export] Instance codec_item :
  Codec WriteVarBytes (readScript maxWitnessItemSize) (script_ok maxWitnessItemSize).
Proof. now apply codec_script. Qed.

#[export] Instance codec_msgscript :
  Codec WriteVarBytes (readScript MaxMessagePayload) (script_ok MaxMessagePayload).
Proof. now apply codec_script. Qed.

#[export] Instance codec_sound_item :
  CodecSound WriteVarBytes (readScript maxWitnessItemSize) (script_ok maxWitnessItemSize).
Proof. now apply codec_sound_script. Qed.

#[export] Instance codec_sound_msgscript :
  CodecSound WriteVarBytes (readScript MaxMessagePayload) (script_ok MaxMessagePayload).
Proof. now apply codec_sound_script. Qed.

#[export] Instance codec_OutPoint : Codec WriteOutPoint readOutPoint outpoint_ok.
Proof.
  intros [h i] rest [Hh Hi]. simpl in *. unfold WriteOutPoint, readOutPoint. simpl.
  apply (codec_seq write (ReadFull HashSize) (fun l => len l = HashSize)); [assumption|].
  now apply (codec_step PutUint32 Uint32 is_u32).
Qed.

#[export] Instance codec_TxIn :
  Codec writeTxIn readTxIn (fun ti => txin_ok ti /\ ti_Witness ti = None).
Proof.
  intros [op sig w sq] rest [(Hop & Hs & Hq) Hw]. simpl in *; subst w.
  unfold writeTxIn, readTxIn. simpl.
  apply (codec_seq WriteOutPoint readOutPoint outpoint_ok); [assumption|].
  apply (codec_seq WriteVarBytes (readScript MaxMessagePayload) (script_ok MaxMessagePayload));
    [assumption|].
  now apply (codec_step PutUint32 Uint32 is_u32).
Qed.

#[export] Instance codec_TxOut : Codec WriteTxOut ReadTxOut txout_ok.
Proof.
  intros [v s] rest [Hv Hs]. simpl in *. unfold WriteTxOut, ReadTxOut. simpl.
  apply (codec_seq PutUint64 Uint64 is_u64); [apply u64_range|].
  apply (codec_step WriteVarBytes (readScript MaxMessagePayload) (script_ok MaxMessagePayload));
    [assumption|].
  now rewrite i64_u64.
Qed.

#[export] Instance codec_TxWitness : Codec writeTxWitness readTxWitness witness_ok.
Proof.
  intros w rest [Hn Hw]. unfold writeTxWitness, readTxWitness, maxWitnessItemsPerInput in *.
  pose proof (len_nonneg w). rewrite len_u64 by lia.
  apply (codec_seq WriteVarInt ReadVarInt is_u64); [unfold is_u64; lia|]. decide_cmp.
  destruct (codec_roundtrip (dec := readN (readScript maxWitnessItemSize) (List.length w))
    w rest) as (o & E & D).
  { split; [exact Hw | reflexivity]. }
  exists o. split; [exact E|]. unfold rbind, rlift.
  rewrite go_make_ok by (unfold maxAlloc; lia). simpl.
  unfold len. now rewrite Nat2Z.id.
Qed.

(** The witnesses of a list of inputs. *)
Lemma codec_witnesses tis rest :
  Forall (fun ti => witness_ok (wit_items (ti_Witness ti))) tis ->
  exists out,
    wall (fun ti => writeTxWitness (wit_items (ti_Witness ti))) tis = (out, None) /\
    readWitnesses (map (norm_txin false) tis) (out ++ rest)
    = Ok (map (norm_txin true) tis, rest).
Proof.
  induction 1 as [|ti tis Hti Htis IH]; simpl.
  - exists []. split; reflexivity.
  - destruct IH as (o2 & E2 & D2).
    destruct (codec_roundtrip _ (o2 ++ rest) Hti) as (o1 & E1 & D1).
    exists (o1 ++ o2). rewrite E1, E2. split; [reflexivity|].
    unfold rbind. rewrite <- app_assoc, D1. simpl. rewrite D2. reflexivity.
Qed.

(** The optional flag and the input count. *)
Lemma codec_flag_count enc (doWitness : bool) c rest :
  is_u64 c -> (doWitness = true -> wantsWitness enc = true) ->
  (doWitness = false -> wantsWitness enc = true -> c <> 0) ->
  exists out,
    (if doWitness then write [TxFlagMarker; WitnessFlag] else write []) >> WriteVarInt c
    = (out, None) /\
    readFlagAndCount enc (out ++ rest) = Ok ((if doWitness then 1 else 0, c), rest).
Proof.
  intros Hc Hw Hnz. unfold readFlagAndCount.
  destruct (codec_roundtrip (enc := WriteVarInt) c rest Hc) as (o & E & D).
  destruct doWitness.
  - exists ([0; 1] ++ o). rewrite E. split; [reflexivity|].
    destruct (codec_roundtrip (enc := WriteVarInt) 0 ([1] ++ o ++ rest))
      as (o0 & [= <-] & D0); [unfold is_u64; lia|].
    unfold rbind. rewrite <- !app_assoc in *. change (le_put 1 (u8 0)) with [0] in D0.
    simpl in D0 |- *. rewrite D0. simpl.
    rewrite Hw by reflexivity. simpl.
    pose proof (ReadFull_app [1] (o ++ rest)) as R. simpl in R.
    change (len [1]) with 1 in R. rewrite R. simpl.
    now rewrite D.
  - exists o. rewrite E. split; [reflexivity|]. unfold rbind. rewrite D. simpl.
    destruct (wantsWitness enc) eqn:W.
    + rewrite (proj2 (Z.eqb_neq c TxFlagMarker)); [reflexivity|]. unfold TxFlagMarker. auto.
    + now rewrite andb_false_r.
Qed.

Lemma wall_strip tis : wall writeTxIn (map (norm_txin false) tis) = wall writeTxIn tis.
Proof. induction tis as [|ti tis IH]; simpl; [reflexivity|]. now rewrite IH. Qed.

Lemma norm_txin_ok tis :
  Forall txin_ok tis ->
  Forall (fun ti => txin_ok ti /\ ti_Witness ti = None) (map (norm_txin false) tis) /\
  List.length (map (norm_txin false) tis) = List.length tis.
Proof.
  intros H. split; [|apply length_map]. apply Forall_map.
  eapply Forall_impl; [|exact H]. intros ti Hti. split; [exact Hti | reflexivity].
Qed.

(** A list behind its count, whose bound is checked before it is read. *)
Lemma codec_counted {A} (enc : A -> written) dec valid `{!Codec enc dec valid} {B}
    (max size : Z) (e : gerr) (l : list A) w2 (k : list A -> reader B) rest res :
  len l <= max -> max * size <= maxAlloc -> 0 < size -> max < 2 ^ 64 -> Forall valid l ->
  (exists o, w2 = (o, None) /\ k l (o ++ rest) = res) ->
  exists out, wall enc l >> w2 = (out, None) /\
    (if max <? len l then rfail e
     else let! _ := rlift (go_make size (len l)) in
          rbind (readN dec (Z.to_nat (len l))) k) (out ++ rest) = res.
Proof.
  intros Hl Hs Hs0 Hm Hv (o2 & -> & <-). pose proof (len_nonneg l).
  rewrite (proj2 (Z.ltb_ge max (len l))) by lia.
  destruct (codec_roundtrip (dec := readN dec (List.length l)) l (o2 ++ rest))
    as (o1 & E1 & D1); [split; [exact Hv | reflexivity]|].
  exists (o1 ++ o2). rewrite E1. split; [reflexivity|].
  unfold rbind, rlift. rewrite go_make_ok by nia. simpl.
  unfold len at 1. rewrite Nat2Z.id, <- app_assoc, D1. reflexivity.
Qed.

Definition encodeWitnesses (doWitness : bool) (tis : list TxIn) : written :=
  if doWitness then wall (fun ti => writeTxWitness (wit_items (ti_Witness ti))) tis
  else write [].

Lemma max_counts : 0 < maxTxInPerMessage < 2 ^ 20 /\ 0 < maxTxOutPerMessage < 2 ^ 23.
Proof. repeat split; reflexivity. Qed.

Lemma decodeOutputs_encode enc dw msg rest :
  tx_ok msg -> (dw = true -> wantsWitness enc = true) ->
  exists o,
    WriteVarInt (u64 (len (tx_TxOut msg))) >> wall WriteTxOut (tx_TxOut msg) >>
      encodeWitnesses dw (tx_TxIn msg) >> PutUint32 (tx_LockTime msg) = (o, None) /\
    decodeOutputs enc (u32 (tx_Version msg)) (if dw then 1 else 0)
      (map (norm_txin false) (tx_TxIn msg)) (o ++ rest)
    = Ok (mkMsgTx (tx_Version msg) (map (norm_txin dw) (tx_TxIn msg)) (tx_TxOut msg)
            (tx_LockTime msg), rest).
Proof.
  intros Hok Hdw. pose proof max_counts as [_ M]. pose proof (len_nonneg (tx_TxOut msg)).
  pose proof (ok_nout _ Hok). pose proof (ok_locktime _ Hok) as Hl.
  rewrite len_u64 by lia. unfold decodeOutputs.
  rewrite (i32_u32 (tx_Version msg)) by apply Hok.
  apply (codec_seq WriteVarInt ReadVarInt is_u64); [unfold is_u64; lia|].
  apply (codec_counted WriteTxOut ReadTxOut txout_ok);
    [assumption | unfold maxAlloc; lia | lia | lia | apply Hok |].
  destruct dw.
  - rewrite Hdw by reflexivity. simpl.
    destruct (codec_step PutUint32 Uint32 is_u32 (tx_LockTime msg)
      (fun lockTime => rret (mkMsgTx (tx_Version msg)
         (map (norm_txin true) (tx_TxIn msg)) (tx_TxOut msg) lockTime)) rest _ Hl eq_refl)
      as (o2 & E2 & D2).
    destruct (codec_witnesses _ (o2 ++ rest) (ok_wits _ Hok)) as (o1 & E1 & D1).
    exists (o1 ++ o2). rewrite E1, E2. split; [reflexivity|].
    unfold rbind at 1. rewrite <- app_assoc, D1. exact D2.
  - exact (codec_step PutUint32 Uint32 is_u32 _ _ _ _ Hl eq_refl).
Qed.

Lemma decodeFields_encode enc msg rest :
  tx_ok msg -> (wantsWitness enc = true -> tx_TxIn msg <> []) ->
  exists out, BtcEncode enc msg = (out, None) /\
              decodeFields enc (out ++ rest) = Ok (norm_tx enc msg, rest).
Proof.
  intros Hok Hne. unfold BtcEncode, decodeFields, norm_tx.
  pose proof max_counts as [M _]. pose proof (len_nonneg (tx_TxIn msg)).
  pose proof (ok_nin _ Hok).
  set (dw := wantsWitness enc && HasWitness msg).
  assert (Hdw : dw = true -> wantsWitness enc = true)
    by (unfold dw; destruct (wantsWitness enc); auto).
  apply (codec_seq PutUint32 Uint32 is_u32); [apply u32_range|].
  destruct (norm_txin_ok _ (ok_ins _ Hok)) as [Hi' Hilen].
  destruct (codec_counted writeTxIn readTxIn _ maxTxInPerMessage 96
    (MessageError "MsgTx.BtcDecode") (map (norm_txin false) (tx_TxIn msg)) _ _ rest _
    ltac:(unfold len in *; rewrite length_map; assumption) ltac:(unfold maxAlloc; lia)
    ltac:(lia) ltac:(lia) Hi' (decodeOutputs_encode enc dw msg rest Hok Hdw)) as (o2 & E2 & D2).
  rewrite wall_strip in E2. rewrite (len_u64 (tx_TxIn msg)) by lia.
  destruct (codec_flag_count enc dw (len (tx_TxIn msg)) (o2 ++ rest)) as (o1 & E1 & D1).
  - unfold is_u64; lia.
  - exact Hdw.
  - intros _ Hww E. apply (Hne Hww). destruct (tx_TxIn msg); [reflexivity|].
    rewrite len_cons in E. pose proof (len_nonneg l). lia.
  - exists (o1 ++ o2). unfold encodeWitnesses in E2. rewrite <- wseq_assoc, E1, E2.
    split; [reflexivity|]. unfold rbind at 1. rewrite <- app_assoc, D1. simpl.
    unfold len in D2 |- *. rewrite length_map in D2. exact D2.
Qed.

Lemma scriptBytes_norm enc msg : scriptBytes (norm_tx enc msg) <= scriptBytes msg.
Proof.
  unfold scriptBytes, tx_scripts, norm_tx. simpl. rewrite !concat_app, !len_app.
  apply Z.add_le_mono_r. generalize (wantsWitness enc && HasWitness msg); intros b.
  induction (tx_TxIn msg) as [|ti tis IH]; [simpl; lia|].
  cbn [map flat_map]. rewrite !concat_app, !len_app. unfold txin_scripts at 1 3.
  rewrite !len_concat_cons. destruct b; simpl; [lia|]. rewrite len_nil.
  pose proof (len_nonneg (concat (wit_items (ti_Witness ti)))). lia.
Qed.

Lemma tx_decode_encode enc msg rest :
  tx_ok msg -> (wantsWitness enc = true -> tx_TxIn msg <> []) ->
  exists out, BtcEncode enc msg = (out, None) /\
              BtcDecode enc (out ++ rest) = Ok (norm_tx enc msg, rest).
Proof.
  intros Hok Hne. destruct (decodeFields_encode enc msg rest Hok Hne) as (o & E & D).
  exists o. split; [exact E|]. unfold BtcDecode, rbind, rlift. rewrite D. simpl.
  rewrite relocate_ok; [reflexivity|].
  pose proof (scriptBytes_norm enc msg). pose proof (ok_scripts _ Hok). lia.
Qed.

#[export] Instance codec_MsgTx enc :
  Codec (BtcEncode enc) (BtcDecode enc)
    (fun msg => tx_ok msg /\ norm_tx enc msg = msg /\
                (wantsWitness enc = true -> tx_TxIn msg <> [])).
Proof.
  intros msg rest (Hok & Hn & Hne).
  destruct (tx_decode_encode enc msg rest Hok Hne) as (o & E & D).
  rewrite Hn in D. now exists o.
Qed.

(** ** Sizes *)

Lemma size_OutPoint op out : len (op_Hash op) = HashSize ->
  WriteOutPoint op = (out, None) -> len out = 36.
Proof.
  intros H [= <-]. unfold len in *. rewrite length_app, le_put_length.
  unfold HashSize in H. lia.
Qed.

#[export] Instance size_TxIn : CodecSize writeTxIn txin_SerializeSize txin_ok.
Proof.
  intros ti out ((Hh & _) & Hs & _) H. unfold writeTxIn in H.
  apply wseq_None in H. destruct H as (o1 & o2 & E1 & H & ->).
  apply wseq_None in H. destruct H as (o3 & o4 & E3 & E4 & ->).
  apply size_OutPoint in E1; [|assumption].
  apply WriteVarBytes_size in E3; [|unfold MaxMessagePayload in Hs; lia].
  apply writeLE_size in E4.
  autorewrite with lens. unfold txin_SerializeSize. lia.
Qed.

#[export] Instance size_TxOut : CodecSize WriteTxOut txout_SerializeSize txout_ok.
Proof.
  intros to out (_ & Hs) H. unfold WriteTxOut in H.
  apply wseq_None in H. destruct H as (o1 & o2 & E1 & E2 & ->).
  apply writeLE_size in E1.
  apply WriteVarBytes_size in E2; [|unfold MaxMessagePayload in Hs; lia].
  autorewrite with lens. unfold txout_SerializeSize. lia.
Qed.

#[export] Instance size_item :
  CodecSize WriteVarBytes (fun w => VarIntSerializeSize (len w) + len w)
    (script_ok maxWitnessItemSize).
Proof.
  intros w out Hw E. apply WriteVarBytes_size; [|assumption].
  unfold script_ok, maxWitnessItemSize in Hw. lia.
Qed.

#[export] Instance size_TxWitness : CodecSize writeTxWitness witness_SerializeSize witness_ok.
Proof.
  intros w out (Hn & Hw) H. unfold writeTxWitness, maxWitnessItemsPerInput in *.
  pose proof (len_nonneg w). rewrite len_u64 in H by lia.
  apply wseq_None in H. destruct H as (o1 & o2 & E1 & E2 & ->).
  apply (codec_size (CodecSize := codec_size_VarInt)) in E1; [|unfold is_u64; lia].
  apply (wall_size (size := fun w => VarIntSerializeSize (len w) + len w)) in E2;
    [|assumption].
  autorewrite with lens. unfold witness_SerializeSize. lia.
Qed.

#[export] Instance size_witness_of :
  CodecSize (fun ti => writeTxWitness (wit_items (ti_Witness ti)))
    (fun ti => witness_SerializeSize (wit_items (ti_Witness ti)))
    (fun ti => witness_ok (wit_items (ti_Witness ti))).
Proof. intros ti out H E. exact (codec_size _ _ H E). Qed.

(** The encoding with the decision on the witness made explicit. *)
Definition encodeWith (doWitness : bool) (msg : MsgTx) : written :=
  PutUint32 (u32 (tx_Version msg)) >>
  (if doWitness then write [TxFlagMarker; WitnessFlag] else write []) >>
  WriteVarInt (u64 (len (tx_TxIn msg))) >>
  wall writeTxIn (tx_TxIn msg) >>
  WriteVarInt (u64 (len (tx_TxOut msg))) >>
  wall WriteTxOut (tx_TxOut msg) >>
  encodeWitnesses doWitness (tx_TxIn msg) >>
  PutUint32 (tx_LockTime msg).

Lemma BtcEncode_with enc msg :
  BtcEncode enc msg = encodeWith (wantsWitness enc && HasWitness msg) msg.
Proof. reflexivity. Qed.

(** Well-formedness of everything but the total size. *)
Record fields_ok (msg : MsgTx) : Prop := {
  fok_version : is_i32 (tx_Version msg);
  fok_nin : len (tx_TxIn msg) <= maxTxInPerMessage;
  fok_ins : Forall txin_ok (tx_TxIn msg);
  fok_wits : Forall (fun ti => witness_ok (wit_items (ti_Witness ti))) (tx_TxIn msg);
  fok_nout : len (tx_TxOut msg) <= maxTxOutPerMessage;
  fok_outs : Forall txout_ok (tx_TxOut msg);
  fok_locktime : is_u32 (tx_LockTime msg)
}.

Lemma tx_ok_fields msg : tx_ok msg <-> fields_ok msg /\ scriptBytes msg <= maxAlloc.
Proof.
  split; [intros []; split; [constructor|]; assumption | intros [[] ?]; constructor; assumption].
Qed.

Lemma encodeWith_size dw msg out :
  fields_ok msg -> encodeWith dw msg = (out, None) ->
  len out = baseSize msg +
    (if dw then 2 + fold_right (fun ti n => witness_SerializeSize (wit_items (ti_Witness ti)) + n) 0
                      (tx_TxIn msg) else 0).
Proof.
  intros Hok H. pose proof max_counts as [M1 M2]. destruct Hok as [_ N1 I1 W1 N2 O1 _].
  pose proof (len_nonneg (tx_TxIn msg)). pose proof (len_nonneg (tx_TxOut msg)).
  unfold encodeWith in H. rewrite !len_u64 in H by lia.
  apply wseq_None in H. destruct H as (o1 & ? & E1 & H & ->).
  apply wseq_None in H. destruct H as (o2 & ? & E2 & H & ->).
  apply wseq_None in H. destruct H as (o3 & ? & E3 & H & ->).
  apply wseq_None in H. destruct H as (o4 & ? & E4 & H & ->).
  apply wseq_None in H. destruct H as (o5 & ? & E5 & H & ->).
  apply wseq_None in H. destruct H as (o6 & ? & E6 & H & ->).
  apply wseq_None in H. destruct H as (o7 & o8 & E7 & E8 & ->).
  apply writeLE_size in E1, E8. apply (wall_size (size := txin_SerializeSize)) in E4; [|assumption].
  apply (wall_size (size := txout_SerializeSize)) in E6; [|assumption].
  apply (codec_size (CodecSize := codec_size_VarInt)) in E3, E5; try (unfold is_u64; lia).
  autorewrite with lens. unfold baseSize. destruct dw; unfold encodeWitnesses in E7.
  - apply (wall_size (size := fun ti => witness_SerializeSize (wit_items (ti_Witness ti)))) in E7;
      [|assumption]. injection E2 as <-. autorewrite with lens. lia.
  - injection E2 as <-. injection E7 as <-. autorewrite with lens. lia.
Qed.

(** ** Soundness: what the decoder accepts is an encoding *)

#[export] Instance codec_sound_hash :
  CodecSound write (ReadFull HashSize) (fun l => len l = HashSize).
Proof. apply codec_sound_raw. unfold HashSize; lia. Qed.

#[export] Instance codec_sound_OutPoint : CodecSound WriteOutPoint readOutPoint outpoint_ok.
Proof.
  intros op r rest Hr H.
  apply (sound_bind write _ (fun l => len l = HashSize)) in H; [|assumption].
  destruct H as (h & o1 & r1 & E1 & V1 & -> & Hr1 & H).
  apply (sound_bind PutUint32 _ is_u32) in H; [|assumption].
  destruct H as (i & o2 & r2 & E2 & V2 & -> & _ & H). inv_read.
  exists (o1 ++ o2). unfold WriteOutPoint. simpl. rewrite E1, E2, <- app_assoc.
  repeat split; auto; apply V2.
Qed.

#[export] Instance codec_sound_TxIn :
  CodecSound writeTxIn readTxIn (fun ti => txin_ok ti /\ ti_Witness ti = None).
Proof.
  intros ti r rest Hr H.
  apply (sound_bind WriteOutPoint _ outpoint_ok) in H; [|assumption].
  destruct H as (op & o1 & r1 & E1 & V1 & -> & Hr1 & H).
  apply (sound_bind WriteVarBytes _ (script_ok MaxMessagePayload)) in H; [|assumption].
  destruct H as (sg & o2 & r2 & E2 & V2 & -> & Hr2 & H).
  apply (sound_bind PutUint32 _ is_u32) in H; [|assumption].
  destruct H as (sq & o3 & r3 & E3 & V3 & -> & _ & H). inv_read.
  exists (o1 ++ o2 ++ o3). unfold writeTxIn. simpl. rewrite E1, E2, E3, <- !app_assoc.
  repeat split; auto; try apply V1; apply V3.
Qed.

#[export] Instance codec_sound_TxOut : CodecSound WriteTxOut ReadTxOut txout_ok.
Proof.
  intros to r rest Hr H.
  apply (sound_bind PutUint64 _ is_u64) in H; [|assumption].
  destruct H as (v & o1 & r1 & E1 & V1 & -> & Hr1 & H).
  apply (sound_bind WriteVarBytes _ (script_ok MaxMessagePayload)) in H; [|assumption].
  destruct H as (s & o2 & r2 & E2 & V2 & -> & _ & H). inv_read.
  exists (o1 ++ o2). unfold WriteTxOut. simpl. rewrite u64_i64, E1, E2, <- app_assoc by assumption.
  split; [reflexivity|]. split; [reflexivity|]. split; [apply i64_range | exact V2].
Qed.

(** A counted list: the bound is checked, the storage made, the elements read. *)
Lemma sound_counted {A B} (enc : A -> written) dec valid `{!CodecSound enc dec valid}
    max size e (k : list A -> reader B) r b rest :
  max < 2 ^ 63 -> bytes_ok r ->
  (let! c := ReadVarInt in
   if max <? c then rfail e
   else let! _ := rlift (go_make size c) in rbind (readN dec (Z.to_nat c)) k) r = Ok (b, rest) ->
  exists l o r1, WriteVarInt (u64 (len l)) >> wall enc l = (o, None) /\ len l <= max /\
    Forall valid l /\ r = o ++ r1 /\ bytes_ok r1 /\ k l r1 = Ok (b, rest).
Proof.
  intros Hmax Hr H. apply (sound_bind WriteVarInt _ is_u64) in H; [|assumption].
  destruct H as (c & o1 & r1 & E1 & V1 & -> & Hr1 & H). unfold is_u64 in V1.
  destruct (Z.ltb_spec max c); [discriminate|]. apply rbind_Ok in H.
  destruct H as (u & r2 & E & H). unfold rlift in E. inv_ok.
  apply (sound_bind (wall enc) (readN dec (Z.to_nat c)) _) in H; [|assumption].
  destruct H as (l & o2 & r2' & E2 & (V2 & Ln) & -> & Hr2 & H).
  assert (Hl : len l = c) by (unfold len; lia).
  exists l, (o1 ++ o2), r2'. rewrite Hl, u64_id, E1, E2, <- app_assoc
    by (unfold is_u64; lia). repeat split; auto; lia.
Qed.

#[export] Instance codec_sound_TxWitness : CodecSound writeTxWitness readTxWitness witness_ok.
Proof.
  intros w r rest Hr H.
  assert (H' : (let! c := ReadVarInt in
     if maxWitnessItemsPerInput <? c then rfail (MessageError "MsgTx.BtcDecode")
     else let! _ := rlift (go_make 24 c) in
          rbind (readN (readScript maxWitnessItemSize) (Z.to_nat c)) rret) r = Ok (w, rest)).
  { unfold readTxWitness in H. rewrite <- H. unfold rbind.
    destruct (ReadVarInt r) as [[c r1]|e|]; simpl; auto.
    destruct (maxWitnessItemsPerInput <? c); auto. destruct (rlift (go_make 24 c) r1) as [[u r2]|e|]; simpl; auto.
    destruct (readN (readScript maxWitnessItemSize) (Z.to_nat c) r2) as [[l r3]|e|]; reflexivity. }
  apply (sound_counted WriteVarBytes _ (script_ok maxWitnessItemSize)) in H';
    [|reflexivity|assumption].
  destruct H' as (l & o & r1 & E & Hn & V & -> & _ & H'). inv_read.
  exists o. repeat split; assumption.
Qed.

Lemma readWitnesses_sound tis : forall tis' r rest,
  bytes_ok r -> readWitnesses tis r = Ok (tis', rest) ->
  exists out,
    wall (fun ti => writeTxWitness (wit_items (ti_Witness ti))) tis' = (out, None) /\
    r = out ++ rest /\ bytes_ok rest /\
    Forall (fun ti => witness_ok (wit_items (ti_Witness ti))) tis' /\
    map (norm_txin false) tis' = map (norm_txin false) tis /\
    map (norm_txin true) tis' = tis'.
Proof.
  induction tis as [|ti tis IH]; intros tis' r rest Hr H; simpl in H.
  - inv_read. exists []. repeat split; auto.
  - apply (sound_bind writeTxWitness _ witness_ok) in H; [|assumption].
    destruct H as (w & o1 & r1 & E1 & V1 & -> & Hr1 & H). inv_read.
    destruct (IH _ _ _ Hr1 E) as (o2 & E2 & -> & Hr2 & V2 & N2 & N3).
    exists (o1 ++ o2). simpl. rewrite E1, E2, N2, N3, <- app_assoc. repeat split; auto.
Qed.

Lemma decodeOutputs_sound enc version flag tis msg r rest :
  is_u32 version -> bytes_ok r -> (flag <> 0 -> wantsWitness enc = true) ->
  Forall (fun ti => txin_ok ti /\ ti_Witness ti = None) tis ->
  decodeOutputs enc version flag tis r = Ok (msg, rest) ->
  exists o,
    WriteVarInt (u64 (len (tx_TxOut msg))) >> wall WriteTxOut (tx_TxOut msg) >>
      encodeWitnesses (negb (flag =? 0)) (tx_TxIn msg) >> PutUint32 (tx_LockTime msg)
      = (o, None) /\
    r = o ++ rest /\ tx_Version msg = i32 version /\
    map (norm_txin false) (tx_TxIn msg) = tis /\
    map (norm_txin (negb (flag =? 0))) (tx_TxIn msg) = tx_TxIn msg /\
    Forall (fun ti => witness_ok (wit_items (ti_Witness ti))) (tx_TxIn msg) /\
    len (tx_TxOut msg) <= maxTxOutPerMessage /\ Forall txout_ok (tx_TxOut msg) /\
    is_u32 (tx_LockTime msg).
Proof.
  intros Hver Hr Hflag Htis H. unfold decodeOutputs in H. pose proof max_counts as [_ M].
  apply (sound_counted WriteTxOut _ txout_ok) in H; [|lia|assumption].
  destruct H as (outs & o1 & r1 & E1 & Hn & V1 & -> & Hr1 & H).
  assert (Hnone : map (norm_txin false) tis = tis).
  { clear - Htis. induction Htis as [|[op sg w sq] l [_ Hw] _ IH]; simpl in *; [reflexivity|].
    subst w. now rewrite IH. }
  apply rbind_Ok in H. destruct H as (tis' & r2 & Ew & H).
  assert (Hw : exists o2, encodeWitnesses (negb (flag =? 0)) tis' = (o2, None) /\
     r1 = o2 ++ r2 /\ bytes_ok r2 /\
     Forall (fun ti => witness_ok (wit_items (ti_Witness ti))) tis' /\
     map (norm_txin false) tis' = tis /\ map (norm_txin (negb (flag =? 0))) tis' = tis').
  { destruct (Z.eqb_spec flag 0) as [->|Hnz]; simpl in Ew.
    - inv_read. exists []. repeat split; auto.
      eapply Forall_impl; [|exact Htis]. intros ti [_ ->]. split; [discriminate|constructor].
    - rewrite Hflag in Ew by assumption. simpl in Ew.
      destruct (readWitnesses_sound _ _ _ _ Hr1 Ew) as (o2 & ? & -> & ? & ? & ? & ?).
      exists o2. repeat split; auto. congruence. }
  destruct Hw as (o2 & E2 & -> & Hr2 & V2 & N1 & N2).
  apply (sound_bind PutUint32 _ is_u32) in H; [|assumption].
  destruct H as (lt & o3 & r3 & E3 & V3 & -> & _ & H). inv_read. simpl.
  exists (o1 ++ o2 ++ o3). rewrite <- wseq_assoc, E1, E2, E3, <- !app_assoc.
  repeat split; auto; apply V3.
Qed.

Lemma readFlagAndCount_sound enc flag c r rest :
  bytes_ok r -> readFlagAndCount enc r = Ok ((flag, c), rest) ->
  exists o,
    (if negb (flag =? 0) then write [TxFlagMarker; WitnessFlag] else write []) >> WriteVarInt c
      = (o, None) /\ r = o ++ rest /\ bytes_ok rest /\ is_u64 c /\
    (flag <> 0 -> wantsWitness enc = true) /\
    (flag = 0 -> wantsWitness enc = true -> c <> 0).
Proof.
  intros Hr H. unfold readFlagAndCount in H.
  apply (sound_bind WriteVarInt _ is_u64) in H; [|assumption].
  destruct H as (c0 & o1 & r1 & E1 & V1 & -> & Hr1 & H).
  destruct ((c0 =? TxFlagMarker) && wantsWitness enc) eqn:B.
  - apply andb_true_iff in B. destruct B as [B W]. apply Z.eqb_eq in B. subst c0.
    injection E1 as <-.
    pose proof (codec_sound_raw 1 ltac:(lia)) as S1.
    apply (sound_bind write _ (fun l => len l = 1)) in H; [|assumption].
    destruct H as (fl & o2 & r2 & [= <-] & V2 & -> & Hr2 & H).
    destruct fl as [|f [|f' fl]]; [discriminate V2 | |
      rewrite !len_cons in V2; pose proof (len_nonneg fl); lia].
    simpl in H. unfold WitnessFlag in H. destruct (Z.eqb_spec f 1) as [->|]; [|discriminate].
    simpl in H. apply (sound_bind WriteVarInt _ is_u64) in H; [|assumption].
    destruct H as (c1 & o3 & r3 & E3 & V3 & -> & Hr3 & H). inv_read.
    exists ([0; 1] ++ o3). rewrite E3. repeat split; auto; try apply V3; discriminate.
  - inv_read. exists o1. rewrite E1. repeat split; auto; try apply V1; try congruence.
    intros _ W. rewrite W, andb_true_r in B. now apply Z.eqb_neq in B.
Qed.

Lemma decodeFields_sound enc msg r rest :
  bytes_ok r -> decodeFields enc r = Ok (msg, rest) ->
  exists dw o, encodeWith dw msg = (o, None) /\ r = o ++ rest /\ fields_ok msg /\
    (dw = true -> wantsWitness enc = true) /\
    (dw = false -> wantsWitness enc = true -> tx_TxIn msg <> []) /\
    map (norm_txin dw) (tx_TxIn msg) = tx_TxIn msg.
Proof.
  intros Hr H. unfold decodeFields in H. pose proof max_counts as [M _].
  apply (sound_bind PutUint32 _ is_u32) in H; [|assumption].
  destruct H as (v & o1 & r1 & E1 & V1 & -> & Hr1 & H).
  apply rbind_Ok in H. destruct H as ([flag c] & r2 & Ef & H).
  destruct (readFlagAndCount_sound _ _ _ _ _ Hr1 Ef) as (o2 & E2 & -> & Hr2 & V2 & Hf & Hf0).
  unfold is_u64 in V2. destruct (Z.ltb_spec maxTxInPerMessage c); [discriminate|].
  apply rbind_Ok in H. destruct H as (u & r3 & E & H). unfold rlift in E. inv_ok.
  apply (sound_bind (wall writeTxIn) (readN readTxIn (Z.to_nat c)) _) in H; [|assumption].
  destruct H as (tis & o3 & r4 & E3 & (V3 & L3) & -> & Hr3 & H).
  destruct (decodeOutputs_sound _ _ _ _ _ _ _ V1 Hr3 Hf V3 H)
    as (o4 & E4 & -> & Ev & N1 & N2 & W & Ln & Vo & Vl).
  assert (Lt : len (tx_TxIn msg) = c).
  { unfold len. rewrite <- (length_map (norm_txin false)), N1. lia. }
  assert (Et : wall writeTxIn (tx_TxIn msg) = (o3, None)) by (rewrite <- wall_strip, N1; exact E3).
  exists (negb (flag =? 0)), (o1 ++ o2 ++ o3 ++ o4). repeat split; auto.
  - unfold encodeWith. rewrite Lt, u64_id by (unfold is_u64; lia).
    rewrite Ev, u32_i32, E1, <- (wseq_assoc _ (WriteVarInt c)), E2, Et, E4 by assumption.
    reflexivity.
  - now rewrite <- !app_assoc.
  - rewrite Ev. apply i32_range.
  - rewrite Ev. apply i32_range.
  - rewrite Lt. assumption.
  - rewrite <- N1 in V3. apply Forall_map in V3.
    eapply Forall_impl; [|exact V3]. intros ti [Hti _]. exact Hti.
  - apply Vl.
  - apply Vl.
  - intros B. apply Hf. apply negb_true_iff, Z.eqb_neq in B. exact B.
  - intros B Hw Hnil. apply negb_false_iff, Z.eqb_eq in B. apply (Hf0 B Hw).
    rewrite <- Lt, Hnil. reflexivity.
Qed.

Lemma scriptBytes_le_size dw msg :
  map (norm_txin dw) (tx_TxIn msg) = tx_TxIn msg ->
  scriptBytes msg <= baseSize msg +
    (if dw then 2 + fold_right (fun ti n => witness_SerializeSize (wit_items (ti_Witness ti)) + n) 0
                      (tx_TxIn msg) else 0).
Proof.
  assert (Hvi : forall z, 1 <= VarIntSerializeSize z).
  { intros z. unfold VarIntSerializeSize. repeat destruct (_ <? _); repeat destruct (_ <=? _); lia. }
  assert (Hw : forall w, len (concat w) <= witness_SerializeSize w).
  { intros w. unfold witness_SerializeSize. pose proof (Hvi (len w)).
    generalize dependent (VarIntSerializeSize (len w)). intros z Hz.
    induction w as [|s w IH]; simpl; [rewrite len_nil; lia|].
    rewrite len_app. pose proof (Hvi (len s)). lia. }
  unfold scriptBytes, tx_scripts, baseSize. rewrite concat_app, len_app. intros Hn.
  pose proof (Hvi (len (tx_TxIn msg))). pose proof (Hvi (len (tx_TxOut msg))).
  assert (Ho : len (concat (map to_PkScript (tx_TxOut msg))) <=
               fold_right (fun to n => txout_SerializeSize to + n) 0 (tx_TxOut msg)).
  { clear - Hvi. induction (tx_TxOut msg) as [|to tos IH]; simpl; [rewrite len_nil; lia|].
    rewrite len_app. unfold txout_SerializeSize at 1. pose proof (Hvi (len (to_PkScript to))). lia. }
  assert (Hi : len (concat (flat_map txin_scripts (tx_TxIn msg))) <=
    fold_right (fun ti n => txin_SerializeSize ti + n) 0 (tx_TxIn msg) +
    (if dw then fold_right (fun ti n => witness_SerializeSize (wit_items (ti_Witness ti)) + n) 0
                      (tx_TxIn msg) else 0)).
  { clear - Hn Hvi Hw. induction (tx_TxIn msg) as [|ti tis IH]; simpl; [rewrite len_nil; destruct dw; lia|].
    simpl in Hn. injection Hn as Hti Hn. specialize (IH Hn).
    rewrite concat_app, !len_app. unfold txin_SerializeSize at 1.
    pose proof (Hvi (len (ti_SignatureScript ti))). specialize (Hw (wit_items (ti_Witness ti))).
    destruct dw; [lia|]. apply (f_equal ti_Witness) in Hti. simpl in Hti. rewrite <- Hti.
    simpl. rewrite len_nil. lia. }
  destruct dw; lia.
Qed.

(** ** The decoder does not panic *)

Lemma reads_TxIn : reads readTxIn (fun _ => True).
Proof.
  unfold readTxIn, readOutPoint. eapply reads_bind.
  - eapply reads_bind; [apply reads_ReadFull; unfold HashSize; lia|]. intros h _.
    eapply reads_bind; [auto with reads|]. intros i _. now apply (reads_ret _ (fun _ => True)).
  - intros op _. eapply reads_bind; [apply reads_script; discriminate|]. intros s _.
    eapply reads_bind; [auto with reads|]. intros q _. now apply reads_ret.
Qed.

Lemma reads_TxOut : reads ReadTxOut (fun _ => True).
Proof.
  unfold ReadTxOut. eapply reads_bind; [auto with reads|]. intros v _.
  eapply reads_bind; [apply reads_script; discriminate|]. intros s _. now apply reads_ret.
Qed.

(** A counted list read after its bound was checked. *)
Lemma reads_counted {A B} (dec : reader A) P max size c e (k : list A -> reader B) Q :
  is_u64 c -> 0 < size -> size * max <= maxAlloc -> reads dec P ->
  (forall l, Forall P l -> reads (k l) Q) ->
  reads (if max <? c then rfail e
         else let! _ := rlift (go_make size c) in rbind (readN dec (Z.to_nat c)) k) Q.
Proof.
  unfold is_u64; intros Hc Hs Hm Hdec Hk. apply reads_if; [auto with reads|].
  intros B1. apply Z.ltb_ge in B1. apply reads_make; [lia|nia|].
  eapply reads_bind; [apply reads_readN; exact Hdec|]. intros l [Hl _]. auto.
Qed.

Lemma reads_TxWitness : reads readTxWitness (fun _ => True).
Proof.
  unfold readTxWitness. eapply reads_bind; [auto with reads|]. intros c Hc.
  unfold is_u64 in Hc. apply reads_if; [auto with reads|]. intros B1. apply Z.ltb_ge in B1.
  unfold maxWitnessItemsPerInput in B1. apply reads_make; [lia|unfold maxAlloc; lia|].
  eapply reads_weaken; [apply reads_readN, reads_script; discriminate|]. auto.
Qed.

Lemma reads_witnesses tis : reads (readWitnesses tis) (fun _ => True).
Proof.
  induction tis as [|ti tis IH]; simpl; [now apply reads_ret|].
  eapply reads_bind; [apply reads_TxWitness|]. intros w _.
  eapply reads_bind; [apply IH|]. intros l _. now apply reads_ret.
Qed.

Lemma reads_flag enc : reads (readFlagAndCount enc) (fun fc => is_u64 (snd fc)).
Proof.
  unfold readFlagAndCount. eapply reads_bind; [auto with reads|]. intros c Hc.
  apply reads_if; intros _; [|now apply reads_ret].
  eapply reads_bind; [apply reads_ReadFull; lia|]. intros f _.
  apply reads_if; intros _; [auto with reads|].
  eapply reads_bind; [auto with reads|]. intros c' Hc'. now apply reads_ret.
Qed.

Lemma reads_decodeFields enc : reads (decodeFields enc) (fun _ => True).
Proof.
  pose proof max_counts as [M1 M2]. unfold decodeFields, decodeOutputs.
  eapply reads_bind; [auto with reads|]. intros v _.
  eapply reads_bind; [apply reads_flag|]. intros [f c] Hc. simpl in Hc.
  eapply reads_counted; [exact Hc | lia | unfold maxAlloc; lia | apply reads_TxIn |].
  intros tis _. eapply reads_bind; [auto with reads|]. intros c' Hc'.
  eapply reads_counted; [exact Hc' | lia | unfold maxAlloc; lia | apply reads_TxOut |].
  intros tos _. eapply (reads_bind _ _ (fun _ => True)).
  - apply reads_if; intros _; [apply reads_witnesses | now apply reads_ret].
  - intros tis' _. eapply reads_bind; [auto with reads|]. intros l _. now apply reads_ret.
Qed.

Lemma decodeFields_relocates enc msg r rest :
  bytes_ok r -> len r <= maxAlloc -> decodeFields enc r = Ok (msg, rest) ->
  relocate msg = Ok msg /\ tx_ok msg.
Proof.
  intros Hr Hlen H.
  destruct (decodeFields_sound _ _ _ _ Hr H) as (dw & o & E & -> & Hok & _ & _ & Hn).
  assert (Hs : scriptBytes msg <= maxAlloc).
  { pose proof (encodeWith_size _ _ _ Hok E). pose proof (scriptBytes_le_size _ _ Hn).
    rewrite len_app in Hlen. pose proof (len_nonneg rest). lia. }
  split; [now apply relocate_ok | now apply tx_ok_fields].
Qed.

(** ** Properties *)

(** C11: every well-formed transaction encodes without an error in either encoding,
    and decoding the bytes, whatever follows them, gives the transaction back (in
    the base encoding without its witnesses) and leaves the rest of the input. *)
Theorem tx_roundtrip enc msg rest :
  tx_ok msg -> (wantsWitness enc = true -> tx_TxIn msg <> []) ->
  exists out, BtcEncode enc msg = (out, None) /\
              BtcDecode enc (out ++ rest) = Ok (norm_tx enc msg, rest).
Proof. apply tx_decode_encode. Qed.

(** A transaction with one input (a witness of one item) and two outputs. *)
Definition sample_tx : MsgTx :=
  mkMsgTx 2
    [mkTxIn (mkOutPoint (repeat 7 32) 1) [0x51] (Some [[1; 2; 3]]) MaxTxInSequenceNum]
    [mkTxOut 5000 [0x6a]; mkTxOut 7 []] 0.

Lemma sample_tx_ok : tx_ok sample_tx.
Proof.
  constructor.
  3, 4, 6: repeat constructor; try (vm_compute; congruence).
  1, 4: split; vm_compute; congruence.
  all: vm_compute; congruence.
Qed.

Lemma tx_roundtrip_witness :
  exists out, Serialize sample_tx = (out, None) /\ Deserialize (out ++ [9]) = Ok (sample_tx, [9]).
Proof.
  apply (tx_roundtrip WitnessEncoding sample_tx [9]); [exact sample_tx_ok | discriminate].
Defined.

(** C12: what the decoder of transactions accepts is well formed, and the bytes it
    consumed are exactly the encoding of the result, unless the witness flag was set
    although every witness is empty. *)
Theorem tx_decode_canonical enc r msg rest :
  bytes_ok r -> len r <= maxAlloc -> BtcDecode enc r = Ok (msg, rest) ->
  tx_ok msg /\
  ((exists out, BtcEncode enc msg = (out, None) /\ r = out ++ rest) \/
   (wantsWitness enc = true /\ Forall (fun ti => ti_Witness ti = Some []) (tx_TxIn msg))).
Proof.
  intros Hr Hlen H. unfold BtcDecode in H. apply rbind_Ok in H.
  destruct H as (m & r1 & D & H). destruct (decodeFields_relocates _ _ _ _ Hr Hlen D) as [R Hok].
  unfold rlift in H. rewrite R in H. inv_ok. split; [exact Hok|].
  destruct (decodeFields_sound _ _ _ _ Hr D) as (dw & o & E & -> & _ & Hw & _ & Hn).
  rewrite BtcEncode_with. destruct dw.
  - rewrite Hw by reflexivity. destruct (HasWitness msg) eqn:HW; [left; eauto|].
    right. split; [reflexivity|]. clear - Hn HW. unfold HasWitness in HW.
    induction (tx_TxIn msg) as [|ti tis IH]; constructor; simpl in *.
    + injection Hn as Hti _. apply orb_false_iff in HW. destruct HW as [HW _].
      apply (f_equal ti_Witness) in Hti. simpl in Hti. rewrite <- Hti. f_equal.
      destruct (wit_items (ti_Witness ti)) as [|x l]; [reflexivity|].
      rewrite len_cons in HW. pose proof (len_nonneg l).
      apply negb_false_iff, Z.eqb_eq in HW. lia.
    + injection Hn as _ Hn. apply orb_false_iff in HW. now apply IH.
  - replace (HasWitness msg) with false; [rewrite andb_false_r; left; eauto|].
    symmetry. unfold HasWitness. clear - Hn.
    induction (tx_TxIn msg) as [|ti tis IH]; [reflexivity|]. injection Hn as Hti Hn.
    simpl. rewrite IH by assumption. apply (f_equal ti_Witness) in Hti. simpl in Hti.
    now rewrite <- Hti.
Qed.

Lemma tx_decode_canonical_witness :
  tx_ok sample_tx /\
  ((exists out, Serialize sample_tx = (out, None) /\ fst (Serialize sample_tx) = out ++ []) \/
   (wantsWitness WitnessEncoding = true /\
    Forall (fun ti => ti_Witness ti = Some []) (tx_TxIn sample_tx))).
Proof.
  apply (tx_decode_canonical WitnessEncoding (fst (Serialize sample_tx)) sample_tx []).
  - vm_compute; repeat constructor; discriminate.
  - vm_compute; discriminate.
  - vm_compute; reflexivity.
Defined.

(** C30: decoding a transaction never panics, whatever the bytes: no count or script
    length leads to an impossible allocation, and the script buffer is never indexed
    out of its range. *)
Theorem tx_decode_safe enc r :
  bytes_ok r -> len r <= maxAlloc -> BtcDecode enc r <> Panic.
Proof.
  intros Hr Hlen. unfold BtcDecode, rbind. pose proof (reads_decodeFields enc r Hr) as S.
  destruct (decodeFields enc r) as [[m r1]|e|] eqn:D; simpl; try discriminate; [|easy].
  destruct (decodeFields_relocates _ _ _ _ Hr Hlen D) as [R _].
  unfold rlift. rewrite R. discriminate.
Qed.

Lemma tx_decode_safe_witness : Deserialize [1; 0; 0; 0; 0; 1; 0xfe] <> Panic.
Proof.
  apply (tx_decode_safe WitnessEncoding [1; 0; 0; 0; 0; 1; 0xfe]).
  - repeat constructor; unfold is_byte; lia.
  - vm_compute; discriminate.
Defined.

Lemma BtcEncode_writes enc msg : snd (BtcEncode enc msg) = None.
Proof.
  assert (Hi : forall ti, snd (writeTxIn ti) = None)
    by (intros; unfold writeTxIn, WriteOutPoint; auto with writes).
  assert (Ho : forall to, snd (WriteTxOut to) = None)
    by (intros; unfold WriteTxOut; auto with writes).
  assert (Hw : forall ti, snd (writeTxWitness (wit_items (ti_Witness ti))) = None)
    by (intros; unfold writeTxWitness; auto with writes).
  unfold BtcEncode. destruct (_ && _); repeat apply wseq_writes; auto with writes.
Qed.

Lemma Serialize_size msg out :
  tx_ok msg -> Serialize msg = (out, None) -> len out = SerializeSize msg.
Proof.
  intros Hok E. apply tx_ok_fields in Hok. destruct Hok as [Hok _].
  rewrite (encodeWith_size (wantsWitness WitnessEncoding && HasWitness msg) _ _ Hok E).
  unfold SerializeSize. simpl. destruct (HasWitness msg); lia.
Qed.

Lemma SerializeNoWitness_size msg out :
  tx_ok msg -> SerializeNoWitness msg = (out, None) -> len out = SerializeSizeStripped msg.
Proof.
  intros Hok E. apply tx_ok_fields in Hok. destruct Hok as [Hok _].
  rewrite (encodeWith_size (wantsWitness BaseEncoding && HasWitness msg) _ _ Hok E).
  unfold SerializeSizeStripped. simpl. lia.
Qed.

(** SerializeSize and SerializeSizeStripped are the lengths of what Serialize
    and SerializeNoWitness write. *)
Theorem tx_size msg :
  tx_ok msg ->
  (exists out, Serialize msg = (out, None) /\ len out = SerializeSize msg) /\
  (exists out, SerializeNoWitness msg = (out, None) /\ len out = SerializeSizeStripped msg).
Proof.
  intros Hok. pose proof (writes_out _ (BtcEncode_writes WitnessEncoding msg)) as E1.
  pose proof (writes_out _ (BtcEncode_writes BaseEncoding msg)) as E2.
  split; eexists; (split; [eassumption|]);
    [now apply Serialize_size | now apply SerializeNoWitness_size].
Qed.

Lemma tx_size_witness :
  (exists out, Serialize sample_tx = (out, None) /\ len out = 78) /\
  (exists out, SerializeNoWitness sample_tx = (out, None) /\ len out = 71).
Proof. exact (tx_size sample_tx sample_tx_ok). Defined.

(** The offsets of the output scripts in a serialization that has [n] bytes
    before the first output. *)
Lemma pkScriptLocs_from_spec tos : forall pre o post,
  Forall txout_ok tos -> wall WriteTxOut tos = (o, None) ->
  Forall2 (fun loc to => firstn (Z.to_nat (len (to_PkScript to)))
                           (skipn (Z.to_nat loc) (pre ++ o ++ post)) = to_PkScript to)
    (pkScriptLocs_from (len pre) tos) tos.
Proof.
  induction tos as [|to tos IH]; intros pre o post Hok E; simpl; [constructor|].
  inversion Hok as [|? ? [Hv Hs] Hok']; subst. unfold MaxMessagePayload in Hs.
  simpl in E. apply wseq_None in E. destruct E as (o1 & o2 & E1 & E2 & ->).
  unfold WriteTxOut, WriteVarBytes in E1. rewrite len_u64 in E1 by lia.
  rewrite <- wseq_assoc in E1.
  apply wseq_None in E1. destruct E1 as (h & ? & E1 & [= <-] & ->).
  apply wseq_None in E1. destruct E1 as (h1 & h2 & E1 & E3 & ->).
  pose proof (len_nonneg (to_PkScript to)).
  apply (codec_size (CodecSize := codec_size_VarInt)) in E3; [|unfold is_u64; lia].
  apply writeLE_size in E1.
  replace (len pre + 8 + VarIntSerializeSize (len (to_PkScript to)))
    with (len (pre ++ h1 ++ h2)) by (rewrite !len_app; lia).
  constructor.
  - replace (pre ++ (((h1 ++ h2) ++ to_PkScript to) ++ o2) ++ post)
      with ((pre ++ h1 ++ h2) ++ to_PkScript to ++ o2 ++ post)
      by now rewrite <- !app_assoc.
    now rewrite skipn_len_app, firstn_len_app.
  - rewrite <- len_app.
    replace (pre ++ (((h1 ++ h2) ++ to_PkScript to) ++ o2) ++ post)
      with (((pre ++ h1 ++ h2) ++ to_PkScript to) ++ o2 ++ post)
      by now rewrite <- !app_assoc.
    now apply IH.
Qed.

(** When the first input has a witness exactly if some input has one, every
    location PkScriptLocs returns is where the script of that output starts in the
    serialized transaction. *)
Theorem PkScriptLocs_correct msg :
  tx_ok msg -> firstWitnessSet msg = HasWitness msg ->
  exists out, Serialize msg = (out, None) /\
    Forall2 (fun loc to => firstn (Z.to_nat (len (to_PkScript to)))
                             (skipn (Z.to_nat loc) out) = to_PkScript to)
      (PkScriptLocs msg) (tx_TxOut msg).
Proof.
  intros Hok Hfw. pose proof max_counts as [M1 M2].
  pose proof (writes_out _ (BtcEncode_writes WitnessEncoding msg)) as E.
  eexists. split; [exact E|]. destruct Hok as [_ N1 I1 W1 N2 O1 _ _].
  pose proof (len_nonneg (tx_TxIn msg)). pose proof (len_nonneg (tx_TxOut msg)).
  unfold PkScriptLocs. destruct (Z.eqb_spec (len (tx_TxOut msg)) 0) as [E0|_].
  { destruct (tx_TxOut msg) as [|t l]; [constructor|].
    rewrite len_cons in E0. pose proof (len_nonneg l). lia. }
  generalize dependent (fst (BtcEncode WitnessEncoding msg)). intros out E.
  unfold BtcEncode in E. rewrite !len_u64 in E by lia. simpl in E.
  apply wseq_None in E. destruct E as (o1 & ? & E1 & E & ->).
  apply wseq_None in E. destruct E as (o2 & ? & E2 & E & ->).
  apply wseq_None in E. destruct E as (o3 & ? & E3 & E & ->).
  apply wseq_None in E. destruct E as (o4 & ? & E4 & E & ->).
  apply wseq_None in E. destruct E as (o5 & ? & E5 & E & ->).
  apply wseq_None in E. destruct E as (o6 & o7 & E6 & _ & ->).
  apply writeLE_size in E1. apply (wall_size (size := txin_SerializeSize)) in E4; [|assumption].
  apply (codec_size (CodecSize := codec_size_VarInt)) in E3, E5; try (unfold is_u64; lia).
  assert (L2 : len o2 = if HasWitness msg then 2 else 0)
    by (destruct (HasWitness msg); injection E2 as <-; reflexivity).
  replace (o1 ++ o2 ++ o3 ++ o4 ++ o5 ++ o6 ++ o7)
    with ((o1 ++ o2 ++ o3 ++ o4 ++ o5) ++ o6 ++ o7) by now rewrite <- !app_assoc.
  replace (4 + _ + _ + _ + _) with (len (o1 ++ o2 ++ o3 ++ o4 ++ o5))
    by (rewrite Hfw; autorewrite with lens; lia).
  now apply pkScriptLocs_from_spec.
Qed.

Lemma PkScriptLocs_correct_witness :
  exists out, Serialize sample_tx = (out, None) /\
    Forall2 (fun loc to => firstn (Z.to_nat (len (to_PkScript to)))
                             (skipn (Z.to_nat loc) out) = to_PkScript to)
      [59; 69] (tx_TxOut sample_tx).
Proof. exact (PkScriptLocs_correct sample_tx sample_tx_ok eq_refl). Defined.

(** A transaction whose second input alone has a witness. *)
Definition mixed_tx : MsgTx :=
  mkMsgTx 2
    [mkTxIn (mkOutPoint (repeat 7 32) 1) [0x51] None MaxTxInSequenceNum;
     mkTxIn (mkOutPoint (repeat 8 32) 0) [] (Some [[1]]) MaxTxInSequenceNum]
    [mkTxOut 5000 [0x6a]] 0.

(** PkScriptLocs looks at the witness of the first input only: on a transaction
    whose second input alone has a witness, the location it returns is two bytes
    before the script. *)
Theorem PkScriptLocs_mixed_witness_wrong :
  HasWitness mixed_tx = true /\ PkScriptLocs mixed_tx = [98] /\
  exists out, Serialize mixed_tx = (out, None) /\
    nth_error out 98 <> Some 0x6a /\ nth_error out 100 = Some 0x6a.
Proof.
  split; [reflexivity|]. split; [vm_compute; reflexivity|].
  eexists. split; [vm_compute; reflexivity|]. vm_compute. split; congruence.
Qed.
