(* ===== verification/WireLeaf.v ===== *)
(** * wire/leaf.go, wire/batchproof.go, wire/udata.go: utreexo data

    The data committed to by a leaf of the accumulator (LeafData), in its full
    and in its compact serialization, the accumulator proof, and the UData of a
    block that holds both.  The hash function and the accumulator are
    parameters: the sources only call them. *)

From Stdlib Require Import String ZArith List Lia Bool.
From S2P Require Import Prelude GoIO WireCommon WireTx.
Import ListNotations.
Local Open Scope string_scope.
Local Open Scope list_scope.
Local Open Scope Z_scope.
Local Open Scope go_scope.

Definition MaxScriptSize : Z := 10000.
Definition MaxPossibleInputsPerBlock : Z := 24386.

(** PkType is a byte; these are the values it is given. *)
Definition OtherTy : Z := 0.
Definition PubKeyHashTy : Z := 1.
Definition WitnessV0PubKeyHashTy : Z := 2.
Definition ScriptHashTy : Z := 3.
Definition WitnessV0ScriptHashTy : Z := 4.

(** A nil pkScript is [None]. *)
Record LeafData : Type := mkLeafData {
  ld_BlockHash : list Z;
  ld_OutPoint : OutPoint;
  ld_Height : Z;
  ld_IsCoinBase : bool;
  ld_Amount : Z;
  ld_ReconstructablePkType : Z;
  ld_PkScript : option (list Z)
}.

Definition pk_bytes (s : option (list Z)) : list Z :=
  match s with Some l => l | None => [] end.

(** The zero value of chainhash.Hash, and of LeafData. *)
Definition empty_hash : list Z := repeat 0 32.
Definition emptyLd : LeafData :=
  mkLeafData empty_hash (mkOutPoint empty_hash 0) 0 false 0 OtherTy None.
Definition NewLeafData : LeafData := emptyLd.

Definition hash_eqb (a b : list Z) : bool := if list_eq_dec Z.eq_dec a b then true else false.

(** *** LeafData *)

Definition IsUnconfirmed (l : LeafData) : bool := ld_Height l =? -1.
Definition SetUnconfirmed (l : LeafData) : LeafData :=
  mkLeafData (ld_BlockHash l) (ld_OutPoint l) (-1) (ld_IsCoinBase l) (ld_Amount l)
    (ld_ReconstructablePkType l) (ld_PkScript l).
Definition IsCompact (l : LeafData) : bool :=
  hash_eqb (ld_BlockHash l) empty_hash && hash_eqb (op_Hash (ld_OutPoint l)) empty_hash &&
  (op_Index (ld_OutPoint l) =? 0).

(** Copy allocates the script: the copy of a nil script is an empty one. *)
Definition ld_Copy (l : LeafData) : LeafData :=
  mkLeafData (ld_BlockHash l) (ld_OutPoint l) (ld_Height l) (ld_IsCoinBase l) (ld_Amount l)
    (ld_ReconstructablePkType l) (Some (pk_bytes (ld_PkScript l))).

Definition ld_Equal (l other : LeafData) : bool :=
  hash_eqb (ld_BlockHash l) (ld_BlockHash other) &&
  hash_eqb (op_Hash (ld_OutPoint l)) (op_Hash (ld_OutPoint other)) &&
  (op_Index (ld_OutPoint l) =? op_Index (ld_OutPoint other)) &&
  (ld_Height l =? ld_Height other) &&
  Bool.eqb (ld_IsCoinBase l) (ld_IsCoinBase other) &&
  (ld_Amount l =? ld_Amount other) &&
  (ld_ReconstructablePkType l =? ld_ReconstructablePkType other) &&
  hash_eqb (pk_bytes (ld_PkScript l)) (pk_bytes (ld_PkScript other)).

(** The header code: the height shifted left (in 32 bits) with the coinbase
    flag in bit 0. *)
Definition headerCode (l : LeafData) : Z :=
  let hcb := i32 (Z.shiftl (ld_Height l) 1) in
  if ld_IsCoinBase l then Z.lor hcb 1 else hcb.

Definition ld_SerializeSize (l : LeafData) : Z :=
  VarIntSerializeSize (len (pk_bytes (ld_PkScript l))) + len (pk_bytes (ld_PkScript l)) + 80.

Definition is_nil (s : option (list Z)) : bool := match s with None => true | Some _ => false end.

Definition ld_Serialize (l : LeafData) : written :=
  if hash_eqb (ld_BlockHash l) empty_hash then wfail (FmtError "LeafData Serialize")
  else
    write (ld_BlockHash l) >>
    WriteOutPoint (ld_OutPoint l) >>
    PutUint32 (u32 (headerCode l)) >>
    PutUint64 (u64 (ld_Amount l)) >>
    (if MaxScriptSize <? u32 (len (pk_bytes (ld_PkScript l)))
     then wfail (MessageError "LeafData Serialize")
     else if negb (ld_ReconstructablePkType l =? OtherTy) && is_nil (ld_PkScript l)
     then wfail (MessageError "LeafData Serialize")
     else WriteVarBytes (pk_bytes (ld_PkScript l))).

(** The receiver [l0] keeps its IsCoinBase when bit 0 of the code is clear, and
    its ReconstructablePkType. *)
Definition ld_Deserialize (l0 : LeafData) : reader LeafData :=
  let! blockHash := ReadFull HashSize in
  let! outPoint := readOutPoint in
  let! height := Uint32 in
  let h := i32 height in
  let isCoinBase := if Z.land h 1 =? 1 then true else ld_IsCoinBase l0 in
  let! amt := Uint64 in
  let! pkScript := ReadVarBytes MaxScriptSize in
  rret (mkLeafData blockHash outPoint (Z.shiftr h 1) isCoinBase (i64 amt)
          (ld_ReconstructablePkType l0) (Some pkScript)).

(** PkType.String indexes a table of five names; [None] is the index panic. *)
Definition pkTypeToName : list string :=
  ["other"; "pubkeyhash"; "witness_v0_keyhash"; "scripthash"; "witness_v0_scripthash"].
Definition PkType_String (ty : Z) : option string :=
  if (Z.of_nat (List.length pkTypeToName) <? ty) || (ty <? 0) then Some "Invalid"
  else nth_error pkTypeToName (Z.to_nat ty).

Definition PkScriptSerializeSizeCompact (ty : Z) (pkScript : option (list Z)) : Z :=
  if ty =? OtherTy
  then 1 + VarIntSerializeSize (len (pk_bytes pkScript)) + len (pk_bytes pkScript)
  else 1.

(** A type outside the five known ones writes nothing and reports no error. *)
Definition PkScriptSerializeCompact (ty : Z) (pkscript : option (list Z)) : written :=
  if ty =? OtherTy then write [0] >> WriteVarBytes (pk_bytes pkscript)
  else if ty =? PubKeyHashTy then write [1]
  else if ty =? WitnessV0PubKeyHashTy then write [2]
  else if ty =? ScriptHashTy then write [3]
  else if ty =? WitnessV0ScriptHashTy then write [4]
  else write [].

Definition PkScriptDeserializeCompact : reader (Z * option (list Z)) :=
  let! buf := Read1 1 in
  let b := nth 0 buf 0 in
  if b =? 0 then
    let! pkScript := ReadVarBytes MaxScriptSize in rret (OtherTy, Some pkScript)
  else if b =? 1 then rret (PubKeyHashTy, None)
  else if b =? 2 then rret (WitnessV0PubKeyHashTy, None)
  else if b =? 3 then rret (ScriptHashTy, None)
  else if b =? 4 then rret (WitnessV0ScriptHashTy, None)
  else rfail (FmtError "PkScriptDeserializeCompact").

Definition ld_SerializeSizeCompact (l : LeafData) : Z :=
  if IsUnconfirmed l then 0
  else 12 + PkScriptSerializeSizeCompact (ld_ReconstructablePkType l) (ld_PkScript l).

Definition ld_SerializeCompact (l : LeafData) : written :=
  if IsUnconfirmed l then write []
  else
    PutUint32 (u32 (headerCode l)) >>
    PutUint64 (u64 (ld_Amount l)) >>
    (if MaxScriptSize <? u32 (len (pk_bytes (ld_PkScript l)))
     then wfail (MessageError "LeafData SerializeCompact")
     else PkScriptSerializeCompact (ld_ReconstructablePkType l) (ld_PkScript l)).

Definition ld_DeserializeCompact (l0 : LeafData) : reader LeafData :=
  let! height := Uint32 in
  let h := i32 height in
  let isCoinBase := if Z.land h 1 =? 1 then true else ld_IsCoinBase l0 in
  let! amt := Uint64 in
  let! (ty, pkScript) := PkScriptDeserializeCompact in
  rret (mkLeafData (ld_BlockHash l0) (ld_OutPoint l0) (Z.shiftr h 1) isCoinBase (i64 amt)
          ty pkScript).

(** *** Leaf hashes *)

(** LeafHasher.writeVarInt: the variable length integer written from the
    hasher's own scratch buffer. *)
Definition lh_writeVarInt (val : Z) : list Z :=
  if val <? 0xfd then [u8 val]
  else if val <=? 0xffff then 0xfd :: le_put 2 (u16 val)
  else if val <=? 0xffffffff then 0xfe :: le_put 4 (u32 val)
  else [0xff] ++ le_put 8 val.

(** What HashLeaf feeds to the digest after the tag. *)
Definition leafPreimage (l : LeafData) : list Z :=
  ld_BlockHash l ++ op_Hash (ld_OutPoint l) ++ le_put 4 (op_Index (ld_OutPoint l)) ++
  le_put 4 (u32 (headerCode l)) ++ le_put 8 (u64 (ld_Amount l)) ++
  lh_writeVarInt (u64 (len (pk_bytes (ld_PkScript l)))) ++ pk_bytes (ld_PkScript l).

(** *** Accumulator proofs *)

Record Proof_ : Type := mkProof { pr_Targets : list Z; pr_Proof : list (list Z) }.

Definition BatchProofSerializeTargetSize (bp : Proof_) : Z :=
  VarIntSerializeSize (len (pr_Targets bp)) +
  fold_right (fun t n => VarIntSerializeSize t + n) 0 (pr_Targets bp).
Definition BatchProofSerializeAccProofSize (bp : Proof_) : Z :=
  VarIntSerializeSize (len (pr_Proof bp)) + HashSize * len (pr_Proof bp).
Definition BatchProofSerializeSize (bp : Proof_) : Z :=
  BatchProofSerializeTargetSize bp + BatchProofSerializeAccProofSize bp.

Definition ProofTargetsSerialize (targets : list Z) : written :=
  WriteVarInt (u64 (len targets)) >> wall WriteVarInt targets.
Definition ProofHashesSerialize (hashes : list (list Z)) : written :=
  WriteVarInt (u64 (len hashes)) >> wall write hashes.
Definition BatchProofSerialize (bp : Proof_) : written :=
  ProofTargetsSerialize (pr_Targets bp) >> ProofHashesSerialize (pr_Proof bp).

(** Both allocate the announced capacity before they read anything. *)
Definition ProofTargetsDeserialize : reader (list Z) :=
  let! targetCount := ReadVarInt in
  if targetCount =? 0 then rret []
  else
    let! _ := rlift (go_make 8 targetCount) in
    readN ReadVarInt (Z.to_nat (i64 targetCount)).
Definition ProofHashesDeserialize : reader (list (list Z)) :=
  let! proofCount := ReadVarInt in
  if proofCount =? 0 then rret []
  else
    let! _ := rlift (go_make 32 proofCount) in
    readN (ReadFull HashSize) (Z.to_nat (i64 proofCount)).
Definition BatchProofDeserialize : reader Proof_ :=
  let! targets := ProofTargetsDeserialize in
  let! hashes := ProofHashesDeserialize in
  rret (mkProof targets hashes).

(** *** UData *)

Record UData : Type := mkUData { ud_AccProof : Proof_; ud_LeafDatas : list LeafData }.

Definition ud_Copy (ud : UData) : UData :=
  mkUData (mkProof (pr_Targets (ud_AccProof ud)) (pr_Proof (ud_AccProof ud)))
    (map ld_Copy (ud_LeafDatas ud)).

Definition SerializeUtxoDataSize (ud : UData) : Z :=
  VarIntSerializeSize (len (ud_LeafDatas ud)) +
  fold_right (fun l n => ld_SerializeSizeCompact l + n) 0 (ud_LeafDatas ud).
Definition ud_SerializeSize (ud : UData) : Z :=
  BatchProofSerializeSize (ud_AccProof ud) + SerializeUtxoDataSize ud.

Definition SerializeUtxoData (leafDatas : list LeafData) : written :=
  WriteVarInt (u64 (len leafDatas)) >> wall ld_SerializeCompact leafDatas.
Definition ud_Serialize (ud : UData) : written :=
  BatchProofSerialize (ud_AccProof ud) >> SerializeUtxoData (ud_LeafDatas ud).

Definition DeserializeUtxoData : reader (list LeafData) :=
  let! txInCount := ReadVarInt in
  if txInCount =? 0 then rret []
  else if MaxPossibleInputsPerBlock <? txInCount
  then rfail (MessageError "DeserializeUtxoData")
  else
    let! _ := rlift (go_make 120 txInCount) in
    readN (ld_DeserializeCompact emptyLd) (Z.to_nat (i64 txInCount)).
Definition ud_Deserialize : reader UData :=
  let! proof := BatchProofDeserialize in
  let! lds := DeserializeUtxoData in
  rret (mkUData proof lds).

Section Accumulator.
(** SHA-512/256, the tag, and the accumulator's Prove: code outside the
    repository.  [Prove] returns the proof or an error. *)
Context (sha512_256 : list Z -> list Z) (UTREEXO_TAG_V1_APPEND : list Z).
Context (Prove : list (list Z) -> Proof_ + gerr).

Definition HashLeaf (l : LeafData) : list Z :=
  sha512_256 (UTREEXO_TAG_V1_APPEND ++ leafPreimage l).

Fixpoint HashesFromLeafDatas (leafDatas : list LeafData) : outcome gerr (list (list Z)) :=
  match leafDatas with
  | [] => Ok []
  | ld :: rest =>
      if IsCompact ld then Err (FmtError "HashesFromLeafDatas")
      else let* hs := HashesFromLeafDatas rest in Ok (HashLeaf ld :: hs)
  end.

(** The search for the hash that cannot be proven: the error of the last
    [Prove] is what remains in [err]. *)
Fixpoint find_unprovable (delHashes : list (list Z)) (err : option gerr) : option gerr :=
  match delHashes with
  | [] => err
  | h :: rest =>
      match Prove [h] with
      | inr _ => Some (FmtError "LeafData hash couldn't be proven")
      | inl _ => find_unprovable rest None
      end
  end.

(** GenerateUData returns a pointer (nil is [None]) and an error. *)
Definition GenerateUData (txIns : list LeafData) : option UData * option gerr :=
  match HashesFromLeafDatas txIns with
  | Ok delHashes =>
      match Prove delHashes with
      | inl proof => (Some (mkUData proof txIns), None)
      | inr e => (None, find_unprovable delHashes (Some e))
      end
  | Err e => (None, Some e)
  | Panic => (None, None)
  end.
End Accumulator.

(** ** Lemmas: header codes *)

Lemma lor_bit0 h : Z.lor (2 * h) 1 = 2 * h + 1.
Proof.
  pose proof (Z.add_lor_land (2 * h) 1) as H.
  change (Z.land (2 * h) 1) with (Z.land (2 * h) (Z.ones 1)) in H. rewrite Z.land_ones in H by lia.
  replace (2 * h mod 2 ^ 1) with 0 in H; [lia|].
  change (2 ^ 1) with 2. now rewrite Z.mul_comm, Z.mod_mul.
Qed.

Definition height_ok (h : Z) : Prop := - 2 ^ 30 <= h < 2 ^ 30.

Lemma headerCode_eq l :
  height_ok (ld_Height l) ->
  headerCode l = 2 * ld_Height l + (if ld_IsCoinBase l then 1 else 0).
Proof.
  unfold height_ok, headerCode. intros H. rewrite Z.shiftl_mul_pow2 by lia.
  rewrite i32_id by (unfold is_i32; lia). replace (ld_Height l * 2 ^ 1) with (2 * ld_Height l) by lia.
  destruct (ld_IsCoinBase l); [apply lor_bit0 | lia].
Qed.

Lemma headerCode_range l : height_ok (ld_Height l) -> is_i32 (headerCode l).
Proof.
  intros H. rewrite headerCode_eq by assumption. unfold height_ok, is_i32 in *.
  destruct (ld_IsCoinBase l); lia.
Qed.

(** Reading a header code back. *)
Lemma headerCode_decode l :
  height_ok (ld_Height l) ->
  Z.shiftr (i32 (u32 (headerCode l))) 1 = ld_Height l /\
  (Z.land (i32 (u32 (headerCode l))) 1 =? 1) = ld_IsCoinBase l.
Proof.
  intros H. rewrite i32_u32 by now apply headerCode_range.
  rewrite headerCode_eq by assumption. change (Z.land ?x 1) with (Z.land x (Z.ones 1)).
  rewrite Z.land_ones, Z.shiftr_div_pow2 by lia. change (2 ^ 1) with 2.
  split.
  - destruct (ld_IsCoinBase l); Z.div_mod_to_equations; lia.
  - destruct (ld_IsCoinBase l);
      [apply Z.eqb_eq | apply Z.eqb_neq]; Z.div_mod_to_equations; lia.
Qed.

Lemma hash_eqb_eq a b : hash_eqb a b = true <-> a = b.
Proof. unfold hash_eqb. destruct (list_eq_dec Z.eq_dec a b); split; congruence. Qed.

(** ** Codecs *)

#[export] Instance codec_pkscript :
  Codec WriteVarBytes (ReadVarBytes MaxScriptSize) (fun l => len l <= MaxScriptSize).
Proof. now apply codec_VarBytes. Qed.

#[export] Instance codec_sound_pkscript :
  CodecSound WriteVarBytes (ReadVarBytes MaxScriptSize) (fun l => len l <= MaxScriptSize).
Proof. now apply codec_sound_VarBytes. Qed.

(** A leaf that can be serialized in full. *)
Record leaf_ok (l : LeafData) : Prop := {
  lok_block : len (ld_BlockHash l) = HashSize;
  lok_nonempty : ld_BlockHash l <> empty_hash;
  lok_op : outpoint_ok (ld_OutPoint l);
  lok_height : height_ok (ld_Height l);
  lok_amount : is_i64 (ld_Amount l);
  lok_script : exists s, ld_PkScript l = Some s /\ len s <= MaxScriptSize
}.

Definition set_pktype (l : LeafData) (ty : Z) : LeafData :=
  mkLeafData (ld_BlockHash l) (ld_OutPoint l) (ld_Height l) (ld_IsCoinBase l) (ld_Amount l)
    ty (ld_PkScript l).

Lemma script_u32 (s : list Z) :
  len s <= MaxScriptSize -> (MaxScriptSize <? u32 (len s)) = false.
Proof.
  unfold MaxScriptSize. intros H. pose proof (len_nonneg s).
  rewrite u32_id by (unfold is_u32; lia). now apply Z.ltb_ge.
Qed.

Lemma leaf_decode_encode l l0 rest :
  leaf_ok l -> ld_IsCoinBase l0 = false ->
  exists out, ld_Serialize l = (out, None) /\
    ld_Deserialize l0 (out ++ rest) =
      Ok (set_pktype l (ld_ReconstructablePkType l0), rest).
Proof.
  intros [Hb Hne Hop Hh Ha (s & Hs & Hsl)] H0. unfold ld_Serialize, ld_Deserialize.
  destruct (hash_eqb (ld_BlockHash l) empty_hash) eqn:E; [now apply hash_eqb_eq in E|].
  rewrite Hs. cbn [pk_bytes is_nil]. rewrite script_u32, andb_false_r by assumption.
  apply (codec_seq write (ReadFull HashSize) (fun x => len x = HashSize)); [assumption|].
  apply (codec_seq WriteOutPoint readOutPoint outpoint_ok); [assumption|].
  apply (codec_seq PutUint32 Uint32 is_u32); [apply u32_range|].
  apply (codec_seq PutUint64 Uint64 is_u64); [apply u64_range|].
  apply (codec_step WriteVarBytes (ReadVarBytes MaxScriptSize) (fun l => len l <= MaxScriptSize));
    [assumption|].
  destruct (headerCode_decode l Hh) as [-> ->]. rewrite i64_u64, H0 by assumption.
  unfold rret, set_pktype. rewrite Hs. now destruct (ld_IsCoinBase l).
Qed.

(** *** Compact leaves *)

Record cleaf_ok (l : LeafData) : Prop := {
  cok_confirmed : IsUnconfirmed l = false;
  cok_height : height_ok (ld_Height l);
  cok_amount : is_i64 (ld_Amount l);
  cok_type : 0 <= ld_ReconstructablePkType l <= 4;
  cok_script : len (pk_bytes (ld_PkScript l)) <= MaxScriptSize
}.

(** What is left of a leaf after a compact round trip into [l0]: the block hash
    and the outpoint are the receiver's, and a reconstructable script is gone. *)
Definition compact_view (l0 l : LeafData) : LeafData :=
  mkLeafData (ld_BlockHash l0) (ld_OutPoint l0) (ld_Height l) (ld_IsCoinBase l) (ld_Amount l)
    (ld_ReconstructablePkType l)
    (if ld_ReconstructablePkType l =? OtherTy then Some (pk_bytes (ld_PkScript l)) else None).

Lemma pkscript_decode_encode ty s rest :
  0 <= ty <= 4 -> len (pk_bytes s) <= MaxScriptSize ->
  exists out, PkScriptSerializeCompact ty s = (out, None) /\
    PkScriptDeserializeCompact (out ++ rest) =
      Ok ((ty, if ty =? OtherTy then Some (pk_bytes s) else None), rest).
Proof.
  intros Hty Hs. unfold PkScriptDeserializeCompact.
  assert (Htag : forall (t : Z) tail (k : list Z -> reader (Z * option (list Z))),
    rbind (Read1 1) k ([t] ++ tail) = k [t] tail).
  { intros t tail k. unfold rbind. change 1 with (len [t]). rewrite Read1_app by discriminate.
    reflexivity. }
  destruct (Z.eqb_spec ty OtherTy) as [->|Hne].
  - destruct (codec_roundtrip (Codec := codec_pkscript) _ rest Hs) as (o & E & D).
    exists ([0] ++ o). unfold PkScriptSerializeCompact. simpl. rewrite E.
    split; [reflexivity|]. change (0 :: o ++ rest) with ([0] ++ o ++ rest). rewrite Htag.
    simpl. unfold rbind. now rewrite D.
  - unfold OtherTy in Hne. assert (Hc : ty = 1 \/ ty = 2 \/ ty = 3 \/ ty = 4) by lia.
    destruct Hc as [-> | [-> | [-> | ->]]]; eexists; (split; [reflexivity|]); rewrite Htag; reflexivity.
Qed.

Lemma compact_decode_encode l0 l rest :
  cleaf_ok l -> ld_IsCoinBase l0 = false ->
  exists out, ld_SerializeCompact l = (out, None) /\
    ld_DeserializeCompact l0 (out ++ rest) = Ok (compact_view l0 l, rest).
Proof.
  intros [Hc Hh Ha Ht Hs] H0. unfold ld_SerializeCompact, ld_DeserializeCompact.
  rewrite Hc, script_u32 by assumption.
  apply (codec_seq PutUint32 Uint32 is_u32); [apply u32_range|].
  apply (codec_seq PutUint64 Uint64 is_u64); [apply u64_range|].
  destruct (pkscript_decode_encode _ _ rest Ht Hs) as (o & E & D).
  exists o. split; [exact E|]. unfold rbind. rewrite D. simpl.
  destruct (headerCode_decode l Hh) as [-> ->]. rewrite i64_u64, H0 by assumption.
  unfold rret, compact_view. now destruct (ld_IsCoinBase l).
Qed.

(** *** Proofs and UData *)

Record proof_ok (bp : Proof_) : Prop := {
  pok_targets : Forall is_u64 (pr_Targets bp);
  pok_ntargets : 8 * len (pr_Targets bp) <= maxAlloc;
  pok_hashes : Forall (fun h => len h = HashSize) (pr_Proof bp);
  pok_nhashes : 32 * len (pr_Proof bp) <= maxAlloc
}.

(** A list behind its count where a count of zero returns at once. *)
Lemma codec_counted0 {A B} (enc : A -> written) (dec : reader B) (view : A -> B)
    (valid : A -> Prop) size l rest :
  (forall a rest', valid a -> exists out, enc a = (out, None) /\
                                      dec (out ++ rest') = Ok (view a, rest')) ->
  0 < size -> size * len l <= maxAlloc -> Forall valid l ->
  exists out, WriteVarInt (u64 (len l)) >> wall enc l = (out, None) /\
    (let! c := ReadVarInt in
     if c =? 0 then rret []
     else let! _ := rlift (go_make size c) in readN dec (Z.to_nat (i64 c))) (out ++ rest)
    = Ok (map view l, rest).
Proof.
  intros Hdec Hs Hsl Hl. pose proof (len_nonneg l). unfold maxAlloc in *.
  rewrite len_u64 by nia.
  apply (codec_seq WriteVarInt ReadVarInt is_u64); [unfold is_u64; nia|].
  destruct (readN_view dec view l rest Hdec Hl) as (o & E & D).
  exists o. split; [exact E|].
  destruct (Z.eqb_spec (len l) 0) as [Hz|Hnz].
  - destruct l as [|x l']; [|rewrite len_cons in Hz; pose proof (len_nonneg l'); lia].
    injection E as <-. reflexivity.
  - unfold rbind, rlift. rewrite go_make_ok by (unfold maxAlloc; lia). simpl.
    rewrite i64_id by (unfold is_i64; nia). unfold len. now rewrite Nat2Z.id.
Qed.

Lemma proof_decode_encode bp rest :
  proof_ok bp ->
  exists out, BatchProofSerialize bp = (out, None) /\
              BatchProofDeserialize (out ++ rest) = Ok (bp, rest).
Proof.
  intros [Ht Hnt Hh Hnh].
  destruct (codec_counted0 write (ReadFull HashSize) id (fun h => len h = HashSize) 32
    (pr_Proof bp) rest) as (o2 & E2 & D2); try assumption; try lia.
  { intros h r <-. exists h. split; [reflexivity|]. apply ReadFull_app. }
  destruct (codec_counted0 WriteVarInt ReadVarInt id is_u64 8
    (pr_Targets bp) (o2 ++ rest)) as (o1 & E1 & D1); try assumption; try lia.
  { intros t r H. exact (codec_roundtrip t r H). }
  exists (o1 ++ o2). unfold BatchProofSerialize, ProofTargetsSerialize, ProofHashesSerialize.
  rewrite E1, E2. split; [reflexivity|].
  unfold BatchProofDeserialize, ProofTargetsDeserialize, ProofHashesDeserialize.
  unfold rbind at 1. rewrite <- app_assoc, D1. simpl. unfold rbind at 1. rewrite D2. simpl.
  rewrite !map_id. now destruct bp.
Qed.

Lemma utxodata_decode_encode lds rest :
  Forall cleaf_ok lds -> len lds <= MaxPossibleInputsPerBlock ->
  exists out, SerializeUtxoData lds = (out, None) /\
              DeserializeUtxoData (out ++ rest) = Ok (map (compact_view emptyLd) lds, rest).
Proof.
  unfold MaxPossibleInputsPerBlock. intros Hl Hn. pose proof (len_nonneg lds).
  destruct (codec_counted0 ld_SerializeCompact (ld_DeserializeCompact emptyLd)
    (compact_view emptyLd) cleaf_ok 120 lds rest) as (o & E & D).
  - intros l r Hok. now apply compact_decode_encode.
  - lia.
  - unfold maxAlloc. lia.
  - assumption.
  - exists o. split; [exact E|].
    unfold SerializeUtxoData in E. apply wseq_None in E. destruct E as (o1 & o2 & E1 & _ & ->).
    rewrite len_u64 in E1 by lia.
    destruct (codec_roundtrip (Codec := codec_VarInt) (len lds) (o2 ++ rest)) as (o1' & E1' & R');
      [unfold is_u64; lia|].
    rewrite E1 in E1'. injection E1' as <-. rewrite <- app_assoc in D |- *.
    unfold DeserializeUtxoData. unfold rbind at 1 in D. unfold rbind at 1. rewrite R' in D |- *.
    simpl in D |- *. rewrite <- D. destruct (len lds =? 0); [reflexivity|].
    rewrite (proj2 (Z.ltb_ge MaxPossibleInputsPerBlock (len lds)) Hn). reflexivity.
Qed.

Lemma compact_size l out :
  cleaf_ok l -> ld_SerializeCompact l = (out, None) -> len out = ld_SerializeSizeCompact l.
Proof.
  intros [Hc Hh Ha Ht Hs] H. unfold ld_SerializeCompact, ld_SerializeSizeCompact in *.
  rewrite Hc in *. rewrite script_u32 in H by assumption.
  apply wseq_None in H. destruct H as (o1 & ? & E1 & H & ->).
  apply wseq_None in H. destruct H as (o2 & o3 & E2 & E3 & ->).
  apply writeLE_size in E1, E2. autorewrite with lens.
  unfold PkScriptSerializeCompact, PkScriptSerializeSizeCompact in *.
  destruct (Z.eqb_spec (ld_ReconstructablePkType l) OtherTy) as [|Hne].
  - apply wseq_None in E3. destruct E3 as (o4 & o5 & [= <-] & E5 & ->).
    apply WriteVarBytes_size in E5; [|unfold MaxScriptSize in Hs; lia].
    autorewrite with lens. lia.
  - enough (len o3 = 1) by lia. unfold OtherTy in Hne.
    assert (Hc4 : ld_ReconstructablePkType l = 1 \/ ld_ReconstructablePkType l = 2 \/
                  ld_ReconstructablePkType l = 3 \/ ld_ReconstructablePkType l = 4) by lia.
    destruct Hc4 as [E | [E | [E | E]]]; rewrite E in E3; injection E3 as <-; reflexivity.
Qed.

#[export] Instance size_compact :
  CodecSize ld_SerializeCompact ld_SerializeSizeCompact cleaf_ok.
Proof. exact compact_size. Qed.

Lemma udata_size ud out :
  proof_ok (ud_AccProof ud) -> Forall cleaf_ok (ud_LeafDatas ud) ->
  len (ud_LeafDatas ud) <= MaxPossibleInputsPerBlock ->
  ud_Serialize ud = (out, None) -> len out = ud_SerializeSize ud.
Proof.
  intros [Ht Hnt Hh Hnh] Hl Hn H. unfold maxAlloc, MaxPossibleInputsPerBlock in *.
  pose proof (len_nonneg (pr_Targets (ud_AccProof ud))).
  pose proof (len_nonneg (pr_Proof (ud_AccProof ud))).
  pose proof (len_nonneg (ud_LeafDatas ud)).
  unfold ud_Serialize, BatchProofSerialize, ProofTargetsSerialize, ProofHashesSerialize,
    SerializeUtxoData in H. rewrite !len_u64, !wseq_assoc in H by lia.
  apply wseq_None in H. destruct H as (o1 & ? & E1 & H & ->).
  apply wseq_None in H. destruct H as (o2 & ? & E2 & H & ->).
  apply wseq_None in H. destruct H as (o3 & ? & E3 & H & ->).
  apply wseq_None in H. destruct H as (o4 & ? & E4 & H & ->).
  apply wseq_None in H. destruct H as (o5 & o6 & E5 & E6 & ->).
  apply (codec_size (CodecSize := codec_size_VarInt)) in E1, E3, E5; try (unfold is_u64; lia).
  apply (wall_size (size := VarIntSerializeSize)) in E2; [|assumption].
  apply (wall_size (size := ld_SerializeSizeCompact)) in E6; [|assumption].
  assert (L4 : len o4 = HashSize * len (pr_Proof (ud_AccProof ud))).
  { clear - Hh E4. revert o4 E4. induction Hh as [|h hs Hhh _ IH]; intros o4 E; simpl in E.
    - injection E as <-. reflexivity.
    - apply wseq_None in E. destruct E as (a & b & [= <-] & Eb & ->).
      rewrite len_app, (IH _ Eb), len_cons. lia. }
  autorewrite with lens. unfold ud_SerializeSize, BatchProofSerializeSize,
    BatchProofSerializeTargetSize, BatchProofSerializeAccProofSize, SerializeUtxoDataSize. lia.
Qed.

(** *** The inlined hashing *)

Lemma lh_writeVarInt_eq v : WriteVarInt v = (lh_writeVarInt v, None).
Proof.
  unfold WriteVarInt, lh_writeVarInt, MaxUint16, MaxUint32.
  destruct (v <? 0xfd); [|destruct (v <=? 65535); [|destruct (v <=? 4294967295)]].
  - unfold PutUint8, writeLE, write. change (le_put 1 (u8 v)) with [u8 (u8 v)].
    now rewrite (u8_id (u8 v)) by apply u8_range.
  - reflexivity.
  - reflexivity.
  - reflexivity.
Qed.

Lemma Serialize_preimage l out : ld_Serialize l = (out, None) -> leafPreimage l = out.
Proof.
  unfold ld_Serialize, leafPreimage. destruct (hash_eqb _ _); [discriminate|]. intros H.
  apply wseq_None in H. destruct H as (o1 & ? & [= <-] & H & ->).
  apply wseq_None in H. destruct H as (o2 & ? & [= <-] & H & ->).
  apply wseq_None in H. destruct H as (o3 & ? & [= <-] & H & ->).
  apply wseq_None in H. destruct H as (o4 & o5 & [= <-] & H & ->).
  destruct (_ <? _); [discriminate|]. destruct (_ && _); [discriminate|].
  unfold WriteVarBytes in H. rewrite lh_writeVarInt_eq in H. injection H as <-.
  now rewrite <- !app_assoc.
Qed.

Lemma SerializeCompact_unconfirmed l : IsUnconfirmed l = true -> ld_SerializeCompact l = ([], None).
Proof. intros H. unfold ld_SerializeCompact. now rewrite H. Qed.

Lemma readN_runs_dry {A} (dec : reader A) e m k r xs :
  readN dec m r = Ok (xs, []) -> dec [] = Err e -> readN dec (m + S k) r = Err e.
Proof.
  revert r xs. induction m as [|m IH]; intros r xs H He; simpl in *.
  - inv_read. unfold rbind. now rewrite He.
  - inv_read. unfold rbind at 1. rewrite E. simpl. unfold rbind. now rewrite (IH _ _ E0 He).
Qed.

(** ** Properties *)

(** A confirmed leaf with a non-reconstructable script. *)
Definition sample_leaf : LeafData :=
  mkLeafData (repeat 9 32) (mkOutPoint (repeat 7 32) 3) 150 true 5000000000 OtherTy
    (Some [0x51; 0x52]).

Lemma sample_leaf_ok : leaf_ok sample_leaf.
Proof.
  constructor; try (split; vm_compute; congruence); try (vm_compute; congruence).
  - split; [|split]; vm_compute; congruence.
  - exists [0x51; 0x52]. split; [reflexivity | vm_compute; congruence].
Qed.

(** A well-formed leaf serializes in the size computed for it and deserializes
    to itself. *)
Theorem leaf_roundtrip l rest :
  leaf_ok l ->
  exists out, ld_Serialize l = (out, None) /\ len out = ld_SerializeSize l /\
    ld_Deserialize emptyLd (out ++ rest) = Ok (set_pktype l OtherTy, rest).
Proof.
  intros Hok. destruct (leaf_decode_encode l emptyLd rest Hok eq_refl) as (o & E & D).
  exists o. split; [exact E|]. split; [|exact D].
  rewrite <- (Serialize_preimage _ _ E). unfold leafPreimage, ld_SerializeSize.
  destruct Hok as [Hb _ [Hh _] _ _ (s & -> & Hs)]. cbn [pk_bytes]. unfold HashSize, MaxScriptSize in *.
  autorewrite with lens. rewrite Hb, Hh, len_u64 by lia. pose proof (len_nonneg s).
  pose proof (codec_size (CodecSize := codec_size_VarInt) (len s) _
    ltac:(unfold is_u64; lia) (lh_writeVarInt_eq (len s))) as ->.
  unfold len. rewrite !le_put_length. lia.
Qed.

Lemma leaf_roundtrip_witness :
  exists out, ld_Serialize sample_leaf = (out, None) /\ len out = 83 /\
    ld_Deserialize emptyLd (out ++ [1]) = Ok (sample_leaf, [1]).
Proof. exact (leaf_roundtrip sample_leaf [1] sample_leaf_ok). Defined.

(** C35: two well-formed leaves whose hashes are taken over the same bytes are equal
    in every field the hash commits to. *)
Theorem leafPreimage_commits l1 l2 :
  leaf_ok l1 -> leaf_ok l2 -> leafPreimage l1 = leafPreimage l2 ->
  set_pktype l1 OtherTy = set_pktype l2 OtherTy.
Proof.
  intros H1 H2 E.
  destruct (leaf_decode_encode l1 emptyLd [] H1 eq_refl) as (o1 & E1 & D1).
  destruct (leaf_decode_encode l2 emptyLd [] H2 eq_refl) as (o2 & E2 & D2).
  apply Serialize_preimage in E1, E2. rewrite <- E1 in D1. rewrite <- E2, <- E, D1 in D2.
  exact (f_equal (fun o => match o with Ok (x, _) => x | _ => l1 end) D2).
Qed.

Lemma leafPreimage_commits_witness :
  set_pktype sample_leaf OtherTy = set_pktype (set_pktype sample_leaf PubKeyHashTy) OtherTy.
Proof.
  apply (leafPreimage_commits sample_leaf (set_pktype sample_leaf PubKeyHashTy)).
  - exact sample_leaf_ok.
  - destruct sample_leaf_ok; constructor; assumption.
  - reflexivity.
Defined.

(** The leaf hash is the hash of the tag prefix and the serialized leaf. *)
Theorem HashLeaf_of_serialization sha tag l out :
  ld_Serialize l = (out, None) -> HashLeaf sha tag l = sha (tag ++ out).
Proof. intros H. unfold HashLeaf. now rewrite (Serialize_preimage _ _ H). Qed.

Lemma HashLeaf_of_serialization_witness :
  HashLeaf (fun x => x) [1] sample_leaf = [1] ++ fst (ld_Serialize sample_leaf).
Proof. apply (HashLeaf_of_serialization (fun x => x) [1]). vm_compute. reflexivity. Defined.

Definition sample_ud : UData :=
  mkUData (mkProof [5; 70000] [repeat 1 32])
    [sample_leaf;
     mkLeafData (repeat 9 32) (mkOutPoint (repeat 7 32) 3) 7 false 12 ScriptHashTy None].

(** The accumulator proof and the compact leaves of a block serialize and
    deserialize to what the compact form keeps of them. *)
Theorem udata_roundtrip ud rest :
  proof_ok (ud_AccProof ud) -> Forall cleaf_ok (ud_LeafDatas ud) ->
  len (ud_LeafDatas ud) <= MaxPossibleInputsPerBlock ->
  exists out, ud_Serialize ud = (out, None) /\ len out = ud_SerializeSize ud /\
    ud_Deserialize (out ++ rest)
    = Ok (mkUData (ud_AccProof ud) (map (compact_view emptyLd) (ud_LeafDatas ud)), rest).
Proof.
  intros Hp Hl Hn.
  destruct (utxodata_decode_encode _ rest Hl Hn) as (o2 & E2 & D2).
  destruct (proof_decode_encode _ (o2 ++ rest) Hp) as (o1 & E1 & D1).
  assert (E : ud_Serialize ud = (o1 ++ o2, None)) by (unfold ud_Serialize; now rewrite E1, E2).
  exists (o1 ++ o2). split; [exact E|]. split; [now apply udata_size|].
  unfold ud_Deserialize, rbind. rewrite <- app_assoc, D1. simpl. now rewrite D2.
Qed.

Lemma udata_roundtrip_witness :
  exists out, ud_Serialize sample_ud = (out, None) /\ len out = 70 /\
    ud_Deserialize (out ++ [])
    = Ok (mkUData (ud_AccProof sample_ud) (map (compact_view emptyLd) (ud_LeafDatas sample_ud)), []).
Proof.
  apply (udata_roundtrip sample_ud []).
  - constructor; [| vm_compute; congruence | | vm_compute; congruence];
      repeat constructor; vm_compute; congruence.
  - repeat constructor; vm_compute; congruence.
  - vm_compute; congruence.
Defined.

(** SerializeUtxoData counts unconfirmed leaves but does not write them, so a list
    that has one does not decode. *)
Theorem utxodata_unconfirmed_undecodable lds :
  Forall (fun l => cleaf_ok l \/ IsUnconfirmed l = true) lds ->
  Exists (fun l => IsUnconfirmed l = true) lds ->
  len lds <= MaxPossibleInputsPerBlock ->
  exists out, SerializeUtxoData lds = (out, None) /\ DeserializeUtxoData out = Err EOF.
Proof.
  unfold MaxPossibleInputsPerBlock. intros Hl Hex Hn. pose proof (len_nonneg lds).
  set (conf := filter (fun l => negb (IsUnconfirmed l)) lds).
  assert (Hw : wall ld_SerializeCompact lds = wall ld_SerializeCompact conf).
  { unfold conf. clear. induction lds as [|l lds IH]; simpl; [reflexivity|].
    destruct (IsUnconfirmed l) eqn:U; simpl; rewrite IH; [|reflexivity].
    rewrite (SerializeCompact_unconfirmed l U). unfold wseq. simpl.
    now rewrite <- surjective_pairing. }
  assert (Hc : Forall cleaf_ok conf).
  { unfold conf. apply Forall_forall. intros l Hin. apply filter_In in Hin.
    destruct Hin as [Hin U]. apply negb_true_iff in U.
    rewrite Forall_forall in Hl. destruct (Hl l Hin); [assumption|congruence]. }
  assert (Hlt : exists k, List.length lds = (List.length conf + S k)%nat).
  { unfold conf. clear - Hex. induction Hex as [l lds U|l lds _ [k IH]]; simpl.
    - rewrite U. simpl.
      exists (List.length lds - List.length (filter (fun l => negb (IsUnconfirmed l)) lds))%nat.
      pose proof (filter_length_le (fun l => negb (IsUnconfirmed l)) lds). lia.
    - destruct (IsUnconfirmed l); simpl; [exists (S k) | exists k]; lia. }
  destruct Hlt as [k Hk].
  destruct (readN_view (ld_DeserializeCompact emptyLd) (compact_view emptyLd) conf []
    (fun a r H => compact_decode_encode emptyLd a r H eq_refl) Hc) as (o & E & D).
  destruct (codec_roundtrip (Codec := codec_VarInt) (len lds) o) as (o1 & E1 & D1);
    [unfold is_u64; lia|].
  exists (o1 ++ o). unfold SerializeUtxoData. rewrite len_u64, Hw, E1, E by lia.
  split; [reflexivity|]. unfold DeserializeUtxoData, rbind at 1. rewrite D1. simpl.
  assert (Hnz : len lds <> 0) by (unfold len; lia).
  rewrite (proj2 (Z.eqb_neq _ _) Hnz), (proj2 (Z.ltb_ge MaxPossibleInputsPerBlock (len lds)) Hn).
  unfold rbind, rlift. rewrite go_make_ok by (unfold maxAlloc; lia). simpl.
  rewrite i64_id by (unfold is_i64; lia). unfold len. rewrite Nat2Z.id, Hk.
  rewrite app_nil_r in D. exact (readN_runs_dry _ EOF _ k _ _ D eq_refl).
Qed.

Lemma utxodata_unconfirmed_undecodable_witness :
  exists out, SerializeUtxoData [sample_leaf; SetUnconfirmed sample_leaf] = (out, None) /\
              DeserializeUtxoData out = Err EOF.
Proof.
  apply (utxodata_unconfirmed_undecodable [sample_leaf; SetUnconfirmed sample_leaf]).
  - constructor; [left; constructor; vm_compute; repeat split; congruence|].
    constructor; [right; reflexivity | constructor].
  - apply Exists_cons_tl, Exists_cons_hd. reflexivity.
  - vm_compute; congruence.
Defined.

(** The announced number of targets is not bounded: a count beyond the largest
    allocation makes the decoder of batch proofs panic. *)
Theorem BatchProofDeserialize_panics c rest :
  2 ^ 45 < c < 2 ^ 64 ->
  exists out, WriteVarInt c = (out, None) /\ len out = 9 /\
              BatchProofDeserialize (out ++ rest) = Panic.
Proof.
  intros Hc. assert (V : is_u64 c) by (unfold is_u64; lia).
  destruct (codec_roundtrip (Codec := codec_VarInt) c rest V) as (o & E & D).
  exists o. split; [exact E|]. split.
  - rewrite (codec_size (CodecSize := codec_size_VarInt) _ _ V E).
    unfold VarIntSerializeSize, MaxUint16, MaxUint32. now decide_cmp.
  - unfold BatchProofDeserialize, ProofTargetsDeserialize, rbind. rewrite D. simpl.
    rewrite (proj2 (Z.eqb_neq c 0)) by lia. unfold rlift.
    now rewrite go_make_panics by (unfold maxAlloc; lia).
Qed.

Lemma BatchProofDeserialize_panics_witness :
  exists out, WriteVarInt (2 ^ 63) = (out, None) /\ len out = 9 /\
              BatchProofDeserialize (out ++ []) = Panic.
Proof. apply (BatchProofDeserialize_panics (2 ^ 63) []). lia. Defined.

(** When the accumulator cannot prove the inputs together but can prove each of them
    alone, GenerateUData returns neither data nor an error. *)
Theorem GenerateUData_nil_without_error sha tag Prove txIns hs e :
  HashesFromLeafDatas sha tag txIns = Ok hs -> hs <> [] -> Prove hs = inr e ->
  (forall h, In h hs -> exists p, Prove [h] = inl p) ->
  GenerateUData sha tag Prove txIns = (None, None).
Proof.
  intros Hh Hne Hp Hall. unfold GenerateUData. rewrite Hh, Hp. f_equal.
  destruct hs as [|h hs]; [congruence|]. simpl.
  destruct (Hall h (or_introl eq_refl)) as [p ->].
  assert (Hrest : forall x, In x hs -> exists p, Prove [x] = inl p) by (intros; apply Hall; now right).
  clear - Hrest. induction hs as [|x hs IH]; simpl; [reflexivity|].
  destruct (Hrest x (or_introl eq_refl)) as [p' ->]. apply IH. intros; apply Hrest; now right.
Qed.

(** An accumulator that proves single leaves only. *)
Definition single_prover (hs : list (list Z)) : Proof_ + gerr :=
  match hs with [_] => inl (mkProof [] []) | _ => inr EOF end.

Lemma GenerateUData_nil_without_error_witness :
  GenerateUData (fun x => x) [] single_prover [sample_leaf; sample_leaf] = (None, None).
Proof.
  eapply (GenerateUData_nil_without_error (fun x => x) [] single_prover
            [sample_leaf; sample_leaf]).
  - vm_compute; reflexivity.
  - discriminate.
  - reflexivity.
  - intros h _. eexists. reflexivity.
Defined.

(** PkType.String guards with > instead of >=, so the first value past the table of
    names is an index out of range; every other value has a name or the fallback
    text. *)
Theorem PkType_String_out_of_range : PkType_String 5 = None /\
  forall ty, 0 <= ty < 256 -> ty <> 5 -> PkType_String ty <> None.
Proof.
  split; [reflexivity|]. intros ty Hty H5. unfold PkType_String, pkTypeToName. simpl.
  destruct (Z.ltb_spec (Z.of_nat 5) ty), (Z.ltb_spec ty 0); simpl; try discriminate; try lia.
  intros N. apply nth_error_None in N. simpl in N. lia.
Qed.

Lemma PkType_String_out_of_range_witness : PkType_String 5 = None /\ PkType_String 6 <> None.
Proof.
  split; [apply PkType_String_out_of_range|]. apply (proj2 PkType_String_out_of_range 6); lia.
Defined.
