(* ===== verification/WireMsgs.v ===== *)
(** * Messages of package wire

    Block headers and blocks (wire/blockheader.go, wire/msgblock.go), inventory
    vectors (wire/invvect.go) and the utreexo messages: utreexotx
    (wire/msgutreexotx.go), uproof (wire/msgutreexoproof.go), getuproof
    (wire/msggetutreexoproof.go), the TTLs (wire/utreexottls.go), the block
    summary (wire/utreexoblocksummary.go) and the root message
    (wire/msgutreexoroot.go). *)

From Stdlib Require Import String ZArith List Lia Bool.
From S2P Require Import Prelude GoSlice GoIO WireCommon WireTx WireLeaf.
Import ListNotations.
Local Open Scope string_scope.
Local Open Scope list_scope.
Local Open Scope Z_scope.
Local Open Scope go_scope.

(** ** Block headers *)

(** The timestamp is its Unix seconds. *)
Record BlockHeader : Type := mkBlockHeader {
  bh_Version : Z;
  bh_PrevBlock : list Z;
  bh_MerkleRoot : list Z;
  bh_Timestamp : Z;
  bh_Bits : Z;
  bh_Nonce : Z
}.

Definition blockHeaderLen : Z := 80.

Definition readBlockHeader : reader BlockHeader :=
  let! es := readElements [KInt32; KHash; KHash; KUint32Time; KUint32; KUint32] in
  match es with
  | [EInt32 v; EHash p; EHash m; EUint32Time t; EUint32 b; EUint32 n] =>
      rret (mkBlockHeader v p m t b n)
  | _ => rpanic
  end.

Definition writeBlockHeader (bh : BlockHeader) : written :=
  let sec := u32 (bh_Timestamp bh) in
  writeElements [EInt32 (bh_Version bh); EHash (bh_PrevBlock bh); EHash (bh_MerkleRoot bh);
                 EUint32 sec; EUint32 (bh_Bits bh); EUint32 (bh_Nonce bh)].

(** ** Blocks *)

Record MsgBlock : Type := mkMsgBlock { mb_Header : BlockHeader; mb_Transactions : list MsgTx }.

Definition minTxPayload : Z := 10.
Definition MaxBlockPayload : Z := 4000000.
Definition maxTxPerBlock : Z := MaxBlockPayload / minTxPayload + 1.

Definition AddTransaction (msg : MsgBlock) (tx : MsgTx) : MsgBlock :=
  mkMsgBlock (mb_Header msg) (mb_Transactions msg ++ [tx]).
Definition ClearTransactions (msg : MsgBlock) : MsgBlock := mkMsgBlock (mb_Header msg) [].
Definition NewMsgBlock (blockHeader : BlockHeader) : MsgBlock := mkMsgBlock blockHeader [].
Definition mb_Copy (msg : MsgBlock) : MsgBlock :=
  mkMsgBlock (mb_Header msg) (map Copy (mb_Transactions msg)).

Definition mb_BtcDecode (enc : Z) : reader MsgBlock :=
  let! hdr := readBlockHeader in
  let! txCount := ReadVarInt in
  if maxTxPerBlock <? txCount then rfail (MessageError "MsgBlock.BtcDecode")
  else
    let! _ := rlift (go_make 8 txCount) in
    let! txs := readN (BtcDecode enc) (Z.to_nat txCount) in
    rret (mkMsgBlock hdr txs).

Definition mb_BtcEncode (enc : Z) (msg : MsgBlock) : written :=
  writeBlockHeader (mb_Header msg) >>
  WriteVarInt (u64 (len (mb_Transactions msg))) >>
  wall (BtcEncode enc) (mb_Transactions msg).

Definition mb_Serialize (msg : MsgBlock) : written := mb_BtcEncode WitnessEncoding msg.
Definition mb_SerializeNoWitness (msg : MsgBlock) : written := mb_BtcEncode BaseEncoding msg.
Definition mb_Deserialize : reader MsgBlock := mb_BtcDecode WitnessEncoding.
Definition mb_DeserializeNoWitness : reader MsgBlock := mb_BtcDecode BaseEncoding.

Definition mb_SerializeSize (msg : MsgBlock) : Z :=
  blockHeaderLen + VarIntSerializeSize (len (mb_Transactions msg)) +
  fold_right (fun tx n => SerializeSize tx + n) 0 (mb_Transactions msg).
Definition mb_SerializeSizeStripped (msg : MsgBlock) : Z :=
  blockHeaderLen + VarIntSerializeSize (len (mb_Transactions msg)) +
  fold_right (fun tx n => SerializeSizeStripped tx + n) 0 (mb_Transactions msg).

(** DeserializeTxLoc also returns where each transaction lies in the buffer;
    [fullLen] is the length the buffer had at the start. *)
Record TxLoc : Type := mkTxLoc { TxStart : Z; TxLen : Z }.

Fixpoint readTxLocs (fullLen : Z) (n : nat) : reader (list (MsgTx * TxLoc)) :=
  match n with
  | O => rret []
  | S n' => fun r =>
      let start := fullLen - len r in
      (let! tx := Deserialize in
       fun r' =>
         (let! rest := readTxLocs fullLen n' in
          rret ((tx, mkTxLoc start ((fullLen - len r') - start)) :: rest)) r') r
  end.

Definition DeserializeTxLoc (r : list Z) : outcome gerr (MsgBlock * list TxLoc) :=
  let fullLen := len r in
  let* (p, _) :=
    (let! hdr := readBlockHeader in
     let! txCount := ReadVarInt in
     if maxTxPerBlock <? txCount then rfail (MessageError "MsgBlock.DeserializeTxLoc")
     else
       let! _ := rlift (go_make 16 txCount) in
       let! tls := readTxLocs fullLen (Z.to_nat txCount) in
       rret (mkMsgBlock hdr (map fst tls), map snd tls)) r in
  Ok p.

Section BlockHashes.
(** chainhash.DoubleHashH: double SHA-256, not part of the model. *)
Context (DoubleHash : list Z -> list Z).

Definition BlockHash (h : BlockHeader) : list Z := DoubleHash (fst (writeBlockHeader h)).
Definition TxHashes (msg : MsgBlock) : list (list Z) :=
  map (TxHash DoubleHash) (mb_Transactions msg).
End BlockHashes.

(** ** Inventory vectors *)

Record InvVect : Type := mkInvVect { iv_Type : Z; iv_Hash : list Z }.

Definition readInvVect : reader InvVect :=
  let! es := readElements [KInvType; KHash] in
  match es with
  | [EInvType t; EHash h] => rret (mkInvVect t h)
  | _ => rpanic
  end.
Definition writeInvVect (iv : InvVect) : written :=
  writeElements [EInvType (iv_Type iv); EHash (iv_Hash iv)].

(** ** utreexotx

    BtcEncode marks the unconfirmed inputs in the low bit of the shifted
    outpoint index, in the message itself: the message it leaves behind is
    returned with what was written. *)
Record MsgUtreexoTx : Type := mkMsgUtreexoTx {
  mu_MsgTx : MsgTx; mu_AccProof : Proof_; mu_LeafDatas : list LeafData }.

Definition set_index (ti : TxIn) (i : Z) : TxIn :=
  mkTxIn (mkOutPoint (op_Hash (ti_PreviousOutPoint ti)) i) (ti_SignatureScript ti)
    (ti_Witness ti) (ti_Sequence ti).

Definition markIndex (ti : TxIn) (ld : LeafData) : TxIn :=
  let i := u32 (Z.shiftl (op_Index (ti_PreviousOutPoint ti)) 1) in
  set_index ti (if IsUnconfirmed ld then Z.lor i 1 else i).

(** The loop over the inputs indexes LeafDatas: a missing leaf is a panic. *)
Fixpoint markAll (tis : list TxIn) (lds : list LeafData) : outcome gerr (list TxIn) :=
  match tis, lds with
  | [], _ => Ok []
  | ti :: tis', ld :: lds' => let* r := markAll tis' lds' in Ok (markIndex ti ld :: r)
  | _ :: _, [] => Panic
  end.

Definition with_txins (msg : MsgTx) (tis : list TxIn) : MsgTx :=
  mkMsgTx (tx_Version msg) tis (tx_TxOut msg) (tx_LockTime msg).

Definition mu_BtcEncode (enc : Z) (msg : MsgUtreexoTx) : outcome gerr (written * MsgUtreexoTx) :=
  match BatchProofSerialize (mu_AccProof msg) with
  | (out, Some e) => Ok ((out, Some e), msg)
  | (out, None) =>
      let* tis := markAll (tx_TxIn (mu_MsgTx msg)) (mu_LeafDatas msg) in
      let tx' := with_txins (mu_MsgTx msg) tis in
      Ok ((out, None) >> BtcEncode enc tx' >> wall ld_SerializeCompact (mu_LeafDatas msg),
          mkMsgUtreexoTx tx' (mu_AccProof msg) (mu_LeafDatas msg))
  end.

Definition NewMsgUtreexoTx (version : Z) : MsgUtreexoTx :=
  mkMsgUtreexoTx (NewMsgTx 1) (mkProof [] []) [].

Definition mu_Copy (msg : MsgUtreexoTx) : MsgUtreexoTx :=
  mkMsgUtreexoTx (Copy (mu_MsgTx msg))
    (mkProof (pr_Targets (mu_AccProof msg)) (pr_Proof (mu_AccProof msg)))
    (map ld_Copy (mu_LeafDatas msg)).

(** The decoding loop over the inputs; a leaf takes the outpoint of its input. *)
Fixpoint readMarked (tis : list TxIn) : reader (list (TxIn * LeafData)) :=
  match tis with
  | [] => rret []
  | ti :: tis' =>
      let isUnconfirmed := Z.land (op_Index (ti_PreviousOutPoint ti)) 1 =? 1 in
      let ti' := set_index ti (Z.shiftr (op_Index (ti_PreviousOutPoint ti)) 1) in
      let ld0 := mkLeafData empty_hash (ti_PreviousOutPoint ti') 0 false 0 OtherTy None in
      if isUnconfirmed then
        let! rest := readMarked tis' in rret ((ti', SetUnconfirmed ld0) :: rest)
      else
        let! ld := ld_DeserializeCompact ld0 in
        let! rest := readMarked tis' in rret ((ti', ld) :: rest)
  end.

Definition mu_BtcDecode (enc : Z) : reader MsgUtreexoTx :=
  let! proof := BatchProofDeserialize in
  let! msgTx := BtcDecode enc in
  if len (tx_TxIn msgTx) =? 0 then rret (mkMsgUtreexoTx msgTx proof [])
  else
    let! pairs := readMarked (tx_TxIn msgTx) in
    rret (mkMsgUtreexoTx (with_txins msgTx (map fst pairs)) proof (map snd pairs)).

Definition mu_Deserialize : reader MsgUtreexoTx := mu_BtcDecode WitnessEncoding.

(** ** uproof *)

Record MsgUtreexoProof : Type := mkMsgUtreexoProof {
  mp_BlockHash : list Z;
  mp_ProofHashes : list (list Z);
  mp_Targets : list Z;
  mp_LeafDatas : list LeafData
}.

Definition mp_BtcDecode : reader MsgUtreexoProof :=
  let! blockHash := Read1 HashSize in
  let! proofCount := ReadVarInt in
  let! _ := rlift (go_make 32 proofCount) in
  let! hashes := readN (ReadFull HashSize) (Z.to_nat proofCount) in
  let! targetCount := ReadVarInt in
  let! _ := rlift (go_make 8 targetCount) in
  let! targets := readN ReadVarInt (Z.to_nat targetCount) in
  let! leafCount := ReadVarInt in
  let! _ := rlift (go_make 120 leafCount) in
  let! lds := readN (ld_DeserializeCompact emptyLd) (Z.to_nat leafCount) in
  rret (mkMsgUtreexoProof blockHash hashes targets lds).

Definition mp_BtcEncode (msg : MsgUtreexoProof) : written :=
  write (mp_BlockHash msg) >>
  WriteVarInt (u64 (len (mp_ProofHashes msg))) >> wall write (mp_ProofHashes msg) >>
  WriteVarInt (u64 (len (mp_Targets msg))) >> wall WriteVarInt (mp_Targets msg) >>
  WriteVarInt (u64 (len (mp_LeafDatas msg))) >> wall ld_SerializeCompact (mp_LeafDatas msg).

(** ** getuproof *)

Record MsgGetUtreexoProof : Type := mkMsgGetUtreexoProof {
  gp_BlockHash : list Z;
  gp_RequestBitMap : Z;
  gp_ProofIndexBitMap : list Z;
  gp_LeafIndexBitMap : list Z
}.

Definition gp_BtcDecode : reader MsgGetUtreexoProof :=
  let! blockHash := Read1 HashSize in
  let! b := Read1 1 in
  let! proofCount := ReadVarInt in
  let! _ := rlift (go_make 1 proofCount) in
  let! proofs := Read1 proofCount in
  let! leafCount := ReadVarInt in
  let! _ := rlift (go_make 1 leafCount) in
  let! leaves := Read1 leafCount in
  rret (mkMsgGetUtreexoProof blockHash (nth 0 b 0) proofs leaves).

Definition gp_BtcEncode (msg : MsgGetUtreexoProof) : written :=
  write (gp_BlockHash msg) >> write [gp_RequestBitMap msg] >>
  WriteVarInt (u64 (len (gp_ProofIndexBitMap msg))) >> write (gp_ProofIndexBitMap msg) >>
  WriteVarInt (u64 (len (gp_LeafIndexBitMap msg))) >> write (gp_LeafIndexBitMap msg).

(** [idx / 8] and [idx % 8] truncate towards zero; a negative index is a panic
    once the slice is not empty. *)
Definition isBitSet (slice : list Z) (idx : Z) : outcome gerr bool :=
  let bytesIdx := Z.quot idx 8 in
  if len slice <=? bytesIdx then Ok false
  else
    let bit := Z.rem idx 8 in
    if (bytesIdx <? 0) || (bit <? 0) then Panic
    else
      let b := nth (Z.to_nat bytesIdx) slice 0 in
      Ok (negb (Z.land b (u8 (Z.shiftl 1 bit)) =? 0)).

(** The loop of createBitmap: the byte index advances when the bit index comes
    back to zero. *)
Fixpoint createBitmap_loop (includes : list bool) (idx bitMapIdx : Z) (bitMap : list Z)
    : outcome gerr (list Z) :=
  match includes with
  | [] => Ok bitMap
  | include :: rest =>
      let bitPlace := idx mod 8 in
      let bitMapIdx := if negb (idx =? 0) && (bitPlace =? 0) then bitMapIdx + 1 else bitMapIdx in
      let* bitMap :=
        if include
        then set_at bitMap bitMapIdx
               (Z.lor (nth (Z.to_nat bitMapIdx) bitMap 0) (u8 (Z.shiftl 1 bitPlace)))
        else Ok bitMap in
      createBitmap_loop rest (idx + 1) bitMapIdx bitMap
  end.

Definition createBitmap (includes : list bool) : outcome gerr (list Z) :=
  let count := len includes / 8 in
  let count := if negb (len includes mod 8 =? 0) then count + 1 else count in
  createBitmap_loop includes 0 0 (repeat 0 (Z.to_nat count)).

(** The bits of the request byte. *)
Definition SetTargetRequestBit (msg : MsgGetUtreexoProof) : MsgGetUtreexoProof :=
  mkMsgGetUtreexoProof (gp_BlockHash msg) (Z.lor (gp_RequestBitMap msg) 1)
    (gp_ProofIndexBitMap msg) (gp_LeafIndexBitMap msg).
Definition SetProofHashRequestBit (msg : MsgGetUtreexoProof) : MsgGetUtreexoProof :=
  mkMsgGetUtreexoProof (gp_BlockHash msg) (Z.lor (gp_RequestBitMap msg) 2)
    (gp_ProofIndexBitMap msg) (gp_LeafIndexBitMap msg).
Definition SetLeafDataRequestBit (msg : MsgGetUtreexoProof) : MsgGetUtreexoProof :=
  mkMsgGetUtreexoProof (gp_BlockHash msg) (Z.lor (gp_RequestBitMap msg) 4)
    (gp_ProofIndexBitMap msg) (gp_LeafIndexBitMap msg).
Definition IsLeafDataRequestedAtIdx (msg : MsgGetUtreexoProof) (idx : Z) : outcome gerr bool :=
  isBitSet (gp_LeafIndexBitMap msg) idx.
Definition IsProofRequestedAtIdx (msg : MsgGetUtreexoProof) (idx : Z) : outcome gerr bool :=
  isBitSet (gp_ProofIndexBitMap msg) idx.
Definition AreTargetsRequested (msg : MsgGetUtreexoProof) : outcome gerr bool :=
  isBitSet [gp_RequestBitMap msg] 0.
Definition IsEntireProofRequested (msg : MsgGetUtreexoProof) : outcome gerr bool :=
  isBitSet [gp_RequestBitMap msg] 1.
Definition IsEntireLeafDataRequested (msg : MsgGetUtreexoProof) : outcome gerr bool :=
  isBitSet [gp_RequestBitMap msg] 2.

(** ** TTLs, block summaries and roots *)

Record TTLInfo : Type := mkTTLInfo { DeathHeight : Z; DeathBlkIndex : Z }.
Record UtreexoTTL : Type := mkUtreexoTTL { ut_BlockHeight : Z; ut_TTLs : list TTLInfo }.

Definition ut_SerializeSize (ut : UtreexoTTL) : Z :=
  4 + VarIntSerializeSize (len (ut_TTLs ut)) + len (ut_TTLs ut) * (4 + 4).
Definition writeTTL (t : TTLInfo) : written := PutUint32 (DeathHeight t) >> PutUint32 (DeathBlkIndex t).
Definition readTTL : reader TTLInfo :=
  let! h := Uint32 in let! i := Uint32 in rret (mkTTLInfo h i).
Definition ut_Serialize (ut : UtreexoTTL) : written :=
  PutUint32 (ut_BlockHeight ut) >> WriteVarInt (u64 (len (ut_TTLs ut))) >> wall writeTTL (ut_TTLs ut).
Definition ut_Deserialize : reader UtreexoTTL :=
  let! height := Uint32 in
  let! count := ReadVarInt in
  let! _ := rlift (go_make 8 count) in
  let! ttls := readN readTTL (Z.to_nat count) in
  rret (mkUtreexoTTL height ttls).

Record UtreexoBlockSummary : Type := mkUtreexoBlockSummary {
  bs_BlockHash : list Z; bs_NumAdds : Z; bs_BlockTargets : list Z }.

Definition bs_SerializeSize (h : UtreexoBlockSummary) : Z :=
  HashSize + VarIntSerializeSize (bs_NumAdds h) + VarIntSerializeSize (len (bs_BlockTargets h)) +
  fold_right (fun t n => VarIntSerializeSize t + n) 0 (bs_BlockTargets h).
Definition readUtreexoBlockSummary : reader UtreexoBlockSummary :=
  let! h := ReadFull HashSize in
  let! numAdds := ReadVarInt in
  let! count := ReadVarInt in
  let! _ := rlift (go_make 8 count) in
  let! targets := readN ReadVarInt (Z.to_nat count) in
  rret (mkUtreexoBlockSummary h numAdds targets).
Definition writeUtreexoBlockSummary (bh : UtreexoBlockSummary) : written :=
  write (bs_BlockHash bh) >> WriteVarInt (bs_NumAdds bh) >>
  WriteVarInt (u64 (len (bs_BlockTargets bh))) >> wall WriteVarInt (bs_BlockTargets bh).

Record MsgUtreexoRoot : Type := mkMsgUtreexoRoot {
  ur_NumLeaves : Z; ur_Target : Z; ur_BlockHash : list Z;
  ur_Roots : list (list Z); ur_Proof : list (list Z) }.

Definition ur_BtcDecode : reader MsgUtreexoRoot :=
  let! numLeaves := ReadVarInt in
  let! target := ReadVarInt in
  let! blockHash := Read1 HashSize in
  let! rootCount := ReadVarInt in
  let! _ := rlift (go_make 32 rootCount) in
  let! roots := readN (ReadFull HashSize) (Z.to_nat rootCount) in
  let! proofCount := ReadVarInt in
  let! _ := rlift (go_make 32 proofCount) in
  let! proof := readN (ReadFull HashSize) (Z.to_nat proofCount) in
  rret (mkMsgUtreexoRoot numLeaves target blockHash roots proof).
Definition ur_BtcEncode (msg : MsgUtreexoRoot) : written :=
  WriteVarInt (ur_NumLeaves msg) >> WriteVarInt (ur_Target msg) >> write (ur_BlockHash msg) >>
  WriteVarInt (u64 (len (ur_Roots msg))) >> wall write (ur_Roots msg) >>
  WriteVarInt (u64 (len (ur_Proof msg))) >> wall write (ur_Proof msg).

(** ** Lemmas: locality *)

#[export] Instance local_LE w : Local (readLE w).
Proof. unfold readLE. typeclasses eauto. Qed.
#[export] Instance local_Uint8 : Local Uint8.
Proof. unfold Uint8. typeclasses eauto. Qed.
#[export] Instance local_Uint16 : Local Uint16.
Proof. unfold Uint16. typeclasses eauto. Qed.
#[export] Instance local_Uint32 : Local Uint32.
Proof. unfold Uint32. typeclasses eauto. Qed.
#[export] Instance local_Uint64 : Local Uint64.
Proof. unfold Uint64. typeclasses eauto. Qed.
#[export] Instance local_VarInt : Local ReadVarInt.
Proof. unfold ReadVarInt. typeclasses eauto. Qed.
#[export] Instance local_script max : Local (readScript max).
Proof. unfold readScript. typeclasses eauto. Qed.
#[export] Instance local_OutPoint : Local readOutPoint.
Proof. unfold readOutPoint. typeclasses eauto. Qed.
#[export] Instance local_TxIn : Local readTxIn.
Proof. unfold readTxIn. typeclasses eauto. Qed.
#[export] Instance local_TxOut : Local ReadTxOut.
Proof. unfold ReadTxOut. typeclasses eauto. Qed.
#[export] Instance local_TxWitness : Local readTxWitness.
Proof. unfold readTxWitness. typeclasses eauto. Qed.
#[export] Instance local_witnesses tis : Local (readWitnesses tis).
Proof. induction tis; simpl; typeclasses eauto. Qed.
#[export] Instance local_flag enc : Local (readFlagAndCount enc).
Proof. unfold readFlagAndCount. typeclasses eauto. Qed.

#[export] Instance local_decodeOutputs enc v f tis : Local (decodeOutputs enc v f tis).
Proof. unfold decodeOutputs. typeclasses eauto. Qed.
#[export] Instance local_decodeFields enc : Local (decodeFields enc).
Proof.
  unfold decodeFields. apply local_bind; [typeclasses eauto|]. intros v.
  apply local_bind; [typeclasses eauto|]. intros [f c]. typeclasses eauto.
Qed.
#[export] Instance local_MsgTx enc : Local (BtcDecode enc).
Proof. unfold BtcDecode. typeclasses eauto. Qed.

(** ** Lemmas: headers and blocks *)

Record header_ok (bh : BlockHeader) : Prop := {
  hok_version : is_i32 (bh_Version bh);
  hok_prev : len (bh_PrevBlock bh) = HashSize;
  hok_root : len (bh_MerkleRoot bh) = HashSize;
  hok_time : is_u32 (bh_Timestamp bh);
  hok_bits : is_u32 (bh_Bits bh);
  hok_nonce : is_u32 (bh_Nonce bh)
}.

#[export] Instance codec_BlockHeader : Codec writeBlockHeader readBlockHeader header_ok.
Proof.
  intros bh rest [Hv Hp Hm Ht Hb Hn]. unfold writeBlockHeader, readBlockHeader.
  rewrite (u32_id (bh_Timestamp bh)) by assumption.
  destruct (elements_decode_encode [KInt32; KHash; KHash; KUint32Time; KUint32; KUint32]
    [EInt32 (bh_Version bh); EHash (bh_PrevBlock bh); EHash (bh_MerkleRoot bh);
     EUint32 (bh_Timestamp bh); EUint32 (bh_Bits bh); EUint32 (bh_Nonce bh)] rest) as (o & E & D).
  { repeat (apply Forall2_cons; [assumption|]). apply Forall2_nil. }
  exists o. split; [exact E|]. unfold rbind. rewrite D. now destruct bh.
Qed.

#[export] Instance size_BlockHeader :
  CodecSize writeBlockHeader (fun _ => blockHeaderLen) header_ok.
Proof.
  intros bh out [Hv Hp Hm Ht Hb Hn] H. unfold writeBlockHeader, writeElements in H.
  cbn [wall writeElement] in H.
  repeat match goal with
  | H : wseq _ _ = (_, None) |- _ => apply wseq_None in H; destruct H as (? & ? & ? & H & ->)
  | H : write _ = (_, None) |- _ => injection H as <-
  | H : writeLE _ _ = (_, None) |- _ => apply writeLE_size in H
  | H : PutUint32 _ = (_, None) |- _ => apply writeLE_size in H
  end.
  autorewrite with lens. unfold blockHeaderLen, HashSize in *. lia.
Qed.

Record block_ok (enc : Z) (msg : MsgBlock) : Prop := {
  bok_header : header_ok (mb_Header msg);
  bok_count : len (mb_Transactions msg) <= maxTxPerBlock;
  bok_txs : Forall (fun tx => tx_ok tx /\ (wantsWitness enc = true -> tx_TxIn tx <> []))
              (mb_Transactions msg)
}.

Definition norm_block (enc : Z) (msg : MsgBlock) : MsgBlock :=
  mkMsgBlock (mb_Header msg) (map (norm_tx enc) (mb_Transactions msg)).

Lemma block_decode_encode enc msg rest :
  block_ok enc msg ->
  exists out, mb_BtcEncode enc msg = (out, None) /\
              mb_BtcDecode enc (out ++ rest) = Ok (norm_block enc msg, rest).
Proof.
  intros [Hh Hc Ht]. pose proof (len_nonneg (mb_Transactions msg)) as H0.
  change maxTxPerBlock with 400001 in Hc. unfold mb_BtcEncode, mb_BtcDecode.
  apply (codec_seq writeBlockHeader readBlockHeader header_ok); [assumption|].
  rewrite len_u64 by lia.
  apply (codec_seq WriteVarInt ReadVarInt is_u64); [unfold is_u64; lia|].
  destruct (readN_view (enc := BtcEncode enc) (BtcDecode enc) (norm_tx enc)
    (mb_Transactions msg) rest (fun tx r H => tx_decode_encode enc tx r (proj1 H) (proj2 H)) Ht)
    as (o & E & D).
  exists o. split; [exact E|]. change maxTxPerBlock with 400001.
  rewrite (proj2 (Z.ltb_ge 400001 _)) by assumption.
  unfold rbind, rlift. rewrite go_make_ok by (unfold maxAlloc; lia). simpl.
  unfold len at 1. rewrite Nat2Z.id, D. reflexivity.
Qed.

Lemma block_size enc msg out size :
  block_ok enc msg -> mb_BtcEncode enc msg = (out, None) ->
  (forall tx o, tx_ok tx -> BtcEncode enc tx = (o, None) -> len o = size tx) ->
  len out = blockHeaderLen + VarIntSerializeSize (len (mb_Transactions msg)) +
            fold_right (fun tx n => size tx + n) 0 (mb_Transactions msg).
Proof.
  intros [Hh Hc Ht] H Hs. pose proof (len_nonneg (mb_Transactions msg)) as H0.
  change maxTxPerBlock with 400001 in Hc. unfold mb_BtcEncode in H.
  rewrite len_u64 in H by lia.
  apply wseq_None in H. destruct H as (o1 & ? & E1 & H & ->).
  apply wseq_None in H. destruct H as (o2 & o3 & E2 & E3 & ->).
  assert (Hu : is_u64 (len (mb_Transactions msg))) by (unfold is_u64; lia).
  rewrite !len_app, (codec_size _ _ Hh E1), (codec_size _ _ Hu E2).
  assert (Hsz : CodecSize (BtcEncode enc) size (fun tx => tx_ok tx)) by exact Hs.
  rewrite (wall_size (mb_Transactions msg) o3 (valid := fun tx => tx_ok tx)); [lia| |exact E3].
  eapply Forall_impl; [|exact Ht]. intros tx [Hok _]. exact Hok.
Qed.

Lemma readTxLocs_spec fullLen n : forall r tls rest,
  readTxLocs fullLen n r = Ok (tls, rest) ->
  readN Deserialize n r = Ok (map fst tls, rest) /\
  exists parts, r = concat parts ++ rest /\
    Forall2 (fun tl o => Deserialize o = Ok (fst tl, []) /\ TxLen (snd tl) = len o) tls parts /\
    forall i tl, nth_error tls i = Some tl ->
      TxStart (snd tl) = fullLen - len r + len (concat (firstn i parts)).
Proof.
  induction n as [|n IH]; intros r tls rest H; simpl in H.
  - injection H as <- <-. split; [reflexivity|]. exists []. split; [reflexivity|].
    split; [constructor|]. intros [|i] tl [=].
  - apply rbind_Ok in H. destruct H as (tx & r1 & E & H).
    apply rbind_Ok in H. destruct H as (tls' & r2 & E2 & H). injection H as <- <-.
    destruct (IH _ _ _ E2) as (D & parts & Hr1 & Hp & Hs).
    destruct (local_prefix (Local := local_MsgTx WitnessEncoding) _ _ _ E) as (o & -> & Do).
    split.
    + simpl. unfold rbind. rewrite E. simpl. rewrite D. reflexivity.
    + exists (o :: parts). split; [simpl; now rewrite Hr1, app_assoc|]. split.
      * constructor; [|exact Hp]. simpl. split; [|rewrite len_app; lia].
        specialize (Do []). now rewrite app_nil_r in Do.
      * intros [|i] tl Hi; simpl in Hi.
        -- injection Hi as <-. simpl. rewrite len_nil. lia.
        -- rewrite (Hs _ _ Hi). simpl. rewrite !len_app. lia.
Qed.

(** ** Lemmas: bitmaps *)

(** Bit [i] of a bitmap, the least significant bit of a byte first. *)
Definition bitmap_bit (bm : list Z) (i : Z) : bool :=
  Z.testbit (nth (Z.to_nat (i / 8)) bm 0) (i mod 8).

Lemma u8_bit k : 0 <= k < 8 -> u8 (Z.shiftl 1 k) = Z.shiftl 1 k.
Proof.
  intros Hk. apply u8_id. unfold is_byte. rewrite Z.shiftl_1_l.
  pose proof (Z.pow_le_mono_r 2 k 7 ltac:(lia) ltac:(lia)).
  pose proof (Z.pow_nonneg 2 k ltac:(lia)). lia.
Qed.

Lemma isBitSet_bit slice idx :
  0 <= idx -> isBitSet slice idx = Ok (bitmap_bit slice idx).
Proof.
  intros Hi. unfold isBitSet, bitmap_bit.
  rewrite Z.quot_div_nonneg, Z.rem_mod_nonneg by lia.
  pose proof (Z.div_pos idx 8 Hi ltac:(lia)). pose proof (Z.mod_pos_bound idx 8 ltac:(lia)).
  destruct (Z.leb_spec (len slice) (idx / 8)) as [Hl|Hl].
  - rewrite nth_overflow by (unfold len in Hl; lia). now rewrite Z.bits_0.
  - decide_cmp. simpl. now rewrite u8_bit, land_bit by lia.
Qed.

Lemma set_at_bit l i k j bm' :
  0 <= k < 8 -> 0 <= j ->
  set_at (E := gerr) l i (Z.lor (nth (Z.to_nat i) l 0) (u8 (Z.shiftl 1 k))) = Ok bm' ->
  len bm' = len l /\
  bitmap_bit bm' j = bitmap_bit l j || (j =? 8 * i + k).
Proof.
  intros Hk Hj H. unfold set_at in H.
  destruct (Z.leb_spec 0 i) as [Hi|]; [|discriminate].
  destruct (Z.ltb_spec i (len l)) as [Hl|]; [|discriminate]. injection H as <-.
  assert (Hi' : (Z.to_nat i < List.length l)%nat) by (unfold len in Hl; lia).
  split.
  - rewrite len_app, len_cons. unfold len. rewrite length_firstn, length_skipn. lia.
  - unfold bitmap_bit. pose proof (Z.div_mod j 8 ltac:(lia)).
    pose proof (Z.mod_pos_bound j 8 ltac:(lia)). pose proof (Z.div_pos j 8 Hj ltac:(lia)).
    destruct (Z.eqb_spec (j / 8) i) as [<-|Hne].
    + rewrite app_nth2, length_firstn, Nat.min_l by (rewrite ?length_firstn; lia).
      rewrite Nat.sub_diag. simpl. rewrite Z.lor_spec, u8_bit by lia. f_equal.
      rewrite Z.shiftl_1_l, Z.pow2_bits_eqb by lia.
      destruct (Z.eqb_spec k (j mod 8)), (Z.eqb_spec j (8 * (j / 8) + k)); lia || reflexivity.
    + replace (j =? 8 * i + k) with false by (symmetry; apply Z.eqb_neq; lia).
      rewrite orb_false_r. f_equal.
      destruct (Z.ltb_spec (j / 8) i).
      * rewrite app_nth1 by (rewrite length_firstn; lia). rewrite nth_firstn.
        now rewrite (proj2 (Nat.ltb_lt _ _)) by lia.
      * rewrite app_nth2, length_firstn, Nat.min_l by (rewrite ?length_firstn; lia).
        replace (Z.to_nat (j / 8) - Z.to_nat i)%nat with (S (Z.to_nat (j / 8) - Z.to_nat (i + 1))) by lia.
        simpl. rewrite nth_skipn. f_equal. lia.
Qed.

Lemma div8_succ idx : 0 < idx -> idx mod 8 = 0 -> idx / 8 = (idx - 1) / 8 + 1.
Proof. intros H H0. pose proof (Z.div_mod idx 8 ltac:(lia)). Z.to_euclidean_division_equations. lia. Qed.
Lemma div8_same idx : 0 < idx -> idx mod 8 <> 0 -> idx / 8 = (idx - 1) / 8.
Proof. intros H H0. Z.to_euclidean_division_equations. lia. Qed.

Lemma createBitmap_loop_spec includes : forall idx bmi bm,
  0 <= idx -> bmi = Z.max 0 ((idx - 1) / 8) -> idx + len includes <= 8 * len bm ->
  exists bm', createBitmap_loop includes idx bmi bm = Ok bm' /\ len bm' = len bm /\
    forall j, 0 <= j ->
      bitmap_bit bm' j =
        bitmap_bit bm j || ((idx <=? j) && nth (Z.to_nat (j - idx)) includes false).
Proof.
  induction includes as [|inc rest IH]; intros idx bmi bm Hi Hb Hl; cbn [createBitmap_loop].
  - exists bm. split; [reflexivity|]. split; [reflexivity|]. intros j Hj.
    destruct (Z.to_nat (j - idx)); simpl; now rewrite andb_false_r, orb_false_r.
  - rewrite len_cons in Hl. pose proof (len_nonneg rest).
    set (bmi' := if negb (idx =? 0) && (idx mod 8 =? 0) then bmi + 1 else bmi).
    assert (Hb' : bmi' = idx / 8).
    { subst bmi' bmi. destruct (Z.eqb_spec idx 0) as [->|Hz]; [reflexivity|].
      destruct (Z.eqb_spec (idx mod 8) 0); cbn [negb andb];
        [rewrite (div8_succ idx) by lia | rewrite (div8_same idx) by lia]; Z.to_euclidean_division_equations; lia. }
    assert (Hstep : exists bm1,
      (if inc then set_at (E := gerr) bm bmi' (Z.lor (nth (Z.to_nat bmi') bm 0) (u8 (Z.shiftl 1 (idx mod 8))))
       else Ok bm) = Ok bm1 /\ len bm1 = len bm /\
      forall j, 0 <= j -> bitmap_bit bm1 j = bitmap_bit bm j || (inc && (j =? idx))).
    { destruct inc; [|exists bm; split; [reflexivity|split; [reflexivity|intros; simpl; now rewrite orb_false_r]]].
      pose proof (Z.mod_pos_bound idx 8 ltac:(lia)) as Hm. pose proof (Z.div_mod idx 8 ltac:(lia)).
      destruct (set_at bm bmi' _) as [bm1| |] eqn:E; try (unfold set_at in E; rewrite Hb' in E;
        replace ((0 <=? idx / 8) && (idx / 8 <? len bm)) with true in E
          by (symmetry; apply andb_true_iff; split; [apply Z.leb_le|apply Z.ltb_lt]; lia); discriminate).
      exists bm1. split; [reflexivity|]. split; [now apply (set_at_bit _ _ _ 0 _ Hm ltac:(lia) E)|].
      intros j Hj. rewrite (proj2 (set_at_bit _ _ _ j _ Hm Hj E)), Hb'. simpl. do 2 f_equal. lia. }
    destruct Hstep as (bm1 & -> & L1 & B1). cbn [obind].
    destruct (IH (idx + 1) bmi' bm1) as (bm' & E & L & B); [lia| |rewrite L1; lia|].
    { rewrite Hb'. replace (idx + 1 - 1) with idx by lia.
      pose proof (Z.div_pos idx 8 Hi ltac:(lia)). lia. }
    exists bm'. split; [exact E|]. split; [congruence|]. intros j Hj.
    rewrite B, B1, <- orb_assoc by assumption. f_equal.
    destruct (Z.eqb_spec j idx) as [->|Hne].
    + rewrite Z.sub_diag. decide_cmp. simpl. now rewrite andb_true_r, orb_false_r.
    + rewrite andb_false_r. simpl orb. destruct (Z.leb_spec idx j); decide_cmp; [|reflexivity].
      replace (Z.to_nat (j - idx)) with (S (Z.to_nat (j - (idx + 1)))) by lia. reflexivity.
Qed.

Lemma createBitmap_bits includes :
  exists bm, createBitmap includes = Ok bm /\ len bm = (len includes + 7) / 8 /\
    forall j, 0 <= j -> bitmap_bit bm j = nth (Z.to_nat j) includes false.
Proof.
  unfold createBitmap. pose proof (len_nonneg includes) as H0.
  set (count := if negb (len includes mod 8 =? 0) then _ else _).
  assert (Hc : count = (len includes + 7) / 8).
  { subst count. destruct (Z.eqb_spec (len includes mod 8) 0); cbn [negb];
      Z.to_euclidean_division_equations; lia. }
  assert (Hl : len (repeat 0 (Z.to_nat count)) = count).
  { unfold len. rewrite repeat_length. Z.to_euclidean_division_equations; lia. }
  destruct (createBitmap_loop_spec includes 0 0 (repeat 0 (Z.to_nat count))) as (bm & E & L & B);
    [lia|reflexivity|rewrite Hl; Z.to_euclidean_division_equations; lia|].
  exists bm. split; [exact E|]. split; [congruence|]. intros j Hj.
  rewrite B by assumption. unfold bitmap_bit. rewrite nth_repeat, Z.bits_0. decide_cmp.
  now rewrite Z.sub_0_r.
Qed.

(** ** Lemmas: messages *)

#[export] Instance codec_Read1 n : Codec write (Read1 n) (fun l => len l = n).
Proof.
  intros l rest <-. exists l. split; [reflexivity|]. destruct l as [|x l].
  - destruct rest; reflexivity.
  - now apply Read1_app.
Qed.

(** A list behind its count, allocated before it is read. *)
Lemma codec_seq_counted {A B C} (enc : A -> written) (dec : reader B) (view : A -> B)
    (valid : A -> Prop) size l w2 (k : list B -> reader C) rest res :
  (forall a rest', valid a -> exists out, enc a = (out, None) /\
                                      dec (out ++ rest') = Ok (view a, rest')) ->
  0 < size -> size * len l <= maxAlloc -> Forall valid l ->
  (exists out2, w2 = (out2, None) /\ k (map view l) (out2 ++ rest) = res) ->
  exists out, WriteVarInt (u64 (len l)) >> wall enc l >> w2 = (out, None) /\
    (let! c := ReadVarInt in
     let! _ := rlift (go_make size c) in
     rbind (readN dec (Z.to_nat c)) k) (out ++ rest) = res.
Proof.
  intros Hdec Hs Hsl Hl (o2 & -> & <-). pose proof (len_nonneg l). unfold maxAlloc in *.
  rewrite len_u64 by nia.
  apply (codec_seq WriteVarInt ReadVarInt is_u64); [unfold is_u64; nia|].
  destruct (readN_view dec view l (o2 ++ rest) Hdec Hl) as (o & E & D).
  exists (o ++ o2). rewrite E. split; [reflexivity|].
  unfold rbind, rlift. rewrite go_make_ok by (unfold maxAlloc; lia). simpl.
  unfold len. now rewrite Nat2Z.id, <- app_assoc, D.
Qed.

Lemma wseq_nil a : a >> write [] = a.
Proof.
  destruct a as [o [e|]]; [reflexivity|]. change (write []) with (@nil Z, @None gerr).
  now rewrite wseq_write, app_nil_r.
Qed.

Lemma readN_ret {A} (dec : reader A) n r : (let! l := readN dec n in rret l) r = readN dec n r.
Proof. unfold rbind. destruct (readN dec n r) as [[l r']| |]; reflexivity. Qed.

(** An instance of [codec_seq_counted] for elements with a codec. *)
Lemma codec_seq_list {A C} (enc : A -> written) (dec : reader A)
    (valid : A -> Prop) `{!Codec enc dec valid} size l w2 (k : list A -> reader C) rest res :
  0 < size -> size * len l <= maxAlloc -> Forall valid l ->
  (exists out2, w2 = (out2, None) /\ k l (out2 ++ rest) = res) ->
  exists out, WriteVarInt (u64 (len l)) >> wall enc l >> w2 = (out, None) /\
    (let! c := ReadVarInt in
     let! _ := rlift (go_make size c) in
     rbind (readN dec (Z.to_nat c)) k) (out ++ rest) = res.
Proof.
  intros Hs Hsl Hl H. apply (codec_seq_counted enc dec (fun a => a) valid); auto.
  now rewrite map_id.
Qed.

Record uproof_ok (msg : MsgUtreexoProof) : Prop := {
  upk_hash : len (mp_BlockHash msg) = HashSize;
  upk_hashes : Forall (fun h => len h = HashSize) (mp_ProofHashes msg);
  upk_nhashes : 32 * len (mp_ProofHashes msg) <= maxAlloc;
  upk_targets : Forall is_u64 (mp_Targets msg);
  upk_ntargets : 8 * len (mp_Targets msg) <= maxAlloc;
  upk_leaves : Forall cleaf_ok (mp_LeafDatas msg);
  upk_nleaves : 120 * len (mp_LeafDatas msg) <= maxAlloc
}.

Definition uproof_view (msg : MsgUtreexoProof) : MsgUtreexoProof :=
  mkMsgUtreexoProof (mp_BlockHash msg) (mp_ProofHashes msg) (mp_Targets msg)
    (map (compact_view emptyLd) (mp_LeafDatas msg)).

Lemma uproof_decode_encode msg rest :
  uproof_ok msg ->
  exists out, mp_BtcEncode msg = (out, None) /\
              mp_BtcDecode (out ++ rest) = Ok (uproof_view msg, rest).
Proof.
  intros [Hb Hh Hnh Ht Hnt Hl Hnl]. unfold mp_BtcEncode, mp_BtcDecode.
  apply (codec_seq write (Read1 HashSize) (fun x => len x = HashSize)); [assumption|].
  apply (codec_seq_list write (ReadFull HashSize) (fun x => len x = HashSize) 32); [lia|easy..|].
  apply (codec_seq_list WriteVarInt ReadVarInt is_u64 8); [lia|easy..|].
  rewrite <- (wseq_nil (wall ld_SerializeCompact _)).
  apply (codec_seq_counted ld_SerializeCompact (ld_DeserializeCompact emptyLd)
    (compact_view emptyLd) cleaf_ok 120); [|lia|easy..|].
  - intros l r Hok. now apply compact_decode_encode.
  - exists []. split; reflexivity.
Qed.

Record getuproof_ok (msg : MsgGetUtreexoProof) : Prop := {
  gpk_hash : len (gp_BlockHash msg) = HashSize;
  gpk_proof : len (gp_ProofIndexBitMap msg) <= maxAlloc;
  gpk_leaf : len (gp_LeafIndexBitMap msg) <= maxAlloc
}.

Lemma codec_seq_bytes {C} l w2 (k : list Z -> reader C) rest res :
  len l <= maxAlloc ->
  (exists out2, w2 = (out2, None) /\ k l (out2 ++ rest) = res) ->
  exists out, WriteVarInt (u64 (len l)) >> write l >> w2 = (out, None) /\
    (let! c := ReadVarInt in
     let! _ := rlift (go_make 1 c) in rbind (Read1 c) k) (out ++ rest) = res.
Proof.
  intros Hl H. pose proof (len_nonneg l). unfold maxAlloc in *. rewrite len_u64 by lia.
  apply (codec_seq WriteVarInt ReadVarInt is_u64); [unfold is_u64; lia|].
  destruct (codec_seq write (Read1 (len l)) (fun x => len x = len l) l w2 k rest res eq_refl H)
    as (o & E & D).
  exists o. split; [exact E|]. unfold rbind at 1, rlift.
  rewrite go_make_ok by (unfold maxAlloc; lia). exact D.
Qed.

#[export] Instance codec_getuproof : Codec gp_BtcEncode gp_BtcDecode getuproof_ok.
Proof.
  intros msg rest [Hh Hp Hl]. unfold gp_BtcEncode, gp_BtcDecode.
  apply (codec_seq write (Read1 HashSize) (fun x => len x = HashSize)); [assumption|].
  apply (codec_seq write (Read1 1) (fun x => len x = 1)); [reflexivity|].
  apply codec_seq_bytes; [assumption|].
  rewrite <- (wseq_nil (write (gp_LeafIndexBitMap msg))).
  apply codec_seq_bytes; [assumption|].
  exists []. split; [reflexivity|]. now destruct msg.
Qed.

Definition ttlinfo_ok (t : TTLInfo) : Prop := is_u32 (DeathHeight t) /\ is_u32 (DeathBlkIndex t).
Definition ttl_ok (ut : UtreexoTTL) : Prop :=
  is_u32 (ut_BlockHeight ut) /\ Forall ttlinfo_ok (ut_TTLs ut) /\ 8 * len (ut_TTLs ut) <= maxAlloc.

#[export] Instance codec_TTLInfo : Codec writeTTL readTTL ttlinfo_ok.
Proof.
  intros t rest [H1 H2]. unfold writeTTL, readTTL.
  apply (codec_seq PutUint32 Uint32 is_u32); [assumption|].
  apply (codec_step PutUint32 Uint32 is_u32); [assumption|]. now destruct t.
Qed.

#[export] Instance codec_TTL : Codec ut_Serialize ut_Deserialize ttl_ok.
Proof.
  intros ut rest (Hh & Ht & Hn). unfold ut_Serialize, ut_Deserialize.
  apply (codec_seq PutUint32 Uint32 is_u32); [assumption|].
  rewrite <- (wseq_nil (wall writeTTL _)).
  apply (codec_seq_list writeTTL readTTL ttlinfo_ok 8); [lia|easy..|].
  exists []. split; [reflexivity|]. now destruct ut.
Qed.

#[export] Instance size_TTL : CodecSize ut_Serialize ut_SerializeSize ttl_ok.
Proof.
  intros ut out (Hh & Ht & Hn) H. unfold ut_Serialize, ut_SerializeSize, maxAlloc in *.
  pose proof (len_nonneg (ut_TTLs ut)). rewrite len_u64 in H by lia.
  apply wseq_None in H. destruct H as (o1 & ? & E1 & H & ->).
  apply wseq_None in H. destruct H as (o2 & o3 & E2 & E3 & ->).
  apply writeLE_size in E1.
  assert (Hu : is_u64 (len (ut_TTLs ut))) by (unfold is_u64; lia).
  rewrite !len_app, E1, (codec_size _ _ Hu E2).
  assert (Hs : CodecSize writeTTL (fun _ => 8) ttlinfo_ok).
  { intros t o _ Ho. apply wseq_None in Ho. destruct Ho as (? & ? & A1 & A2 & ->).
    apply writeLE_size in A1, A2. rewrite len_app. lia. }
  rewrite (wall_size _ _ Ht E3).
  assert (Hf : fold_right (fun (_ : TTLInfo) n => 8 + n) 0 (ut_TTLs ut) = 8 * len (ut_TTLs ut)).
  { clear. induction (ut_TTLs ut) as [|t l IH]; [reflexivity|]. simpl. rewrite len_cons, IH. lia. }
  rewrite Hf. lia.
Qed.

Record summary_ok (h : UtreexoBlockSummary) : Prop := {
  sok_hash : len (bs_BlockHash h) = HashSize;
  sok_adds : is_u64 (bs_NumAdds h);
  sok_targets : Forall is_u64 (bs_BlockTargets h);
  sok_ntargets : 8 * len (bs_BlockTargets h) <= maxAlloc
}.

#[export] Instance codec_summary :
  Codec writeUtreexoBlockSummary readUtreexoBlockSummary summary_ok.
Proof.
  intros h rest [Hh Ha Ht Hn]. unfold writeUtreexoBlockSummary, readUtreexoBlockSummary.
  apply (codec_seq write (ReadFull HashSize) (fun x => len x = HashSize)); [assumption|].
  apply (codec_seq WriteVarInt ReadVarInt is_u64); [assumption|].
  rewrite <- (wseq_nil (wall WriteVarInt _)).
  apply (codec_seq_list WriteVarInt ReadVarInt is_u64 8); [lia|easy..|].
  exists []. split; [reflexivity|]. now destruct h.
Qed.

Record root_ok (msg : MsgUtreexoRoot) : Prop := {
  rok_leaves : is_u64 (ur_NumLeaves msg);
  rok_target : is_u64 (ur_Target msg);
  rok_hash : len (ur_BlockHash msg) = HashSize;
  rok_roots : Forall (fun h => len h = HashSize) (ur_Roots msg);
  rok_nroots : 32 * len (ur_Roots msg) <= maxAlloc;
  rok_proof : Forall (fun h => len h = HashSize) (ur_Proof msg);
  rok_nproof : 32 * len (ur_Proof msg) <= maxAlloc
}.

#[export] Instance codec_root : Codec ur_BtcEncode ur_BtcDecode root_ok.
Proof.
  intros msg rest [Hl Ht Hh Hr Hnr Hp Hnp]. unfold ur_BtcEncode, ur_BtcDecode.
  apply (codec_seq WriteVarInt ReadVarInt is_u64); [assumption|].
  apply (codec_seq WriteVarInt ReadVarInt is_u64); [assumption|].
  apply (codec_seq write (Read1 HashSize) (fun x => len x = HashSize)); [assumption|].
  apply (codec_seq_list write (ReadFull HashSize) (fun x => len x = HashSize) 32); [lia|easy..|].
  rewrite <- (wseq_nil (wall write (ur_Proof msg))).
  apply (codec_seq_list write (ReadFull HashSize) (fun x => len x = HashSize) 32); [lia|easy..|].
  exists []. split; [reflexivity|]. now destruct msg.
Qed.

(** ** Lemmas: utreexotx *)

Definition leaf_marked_ok (ld : LeafData) : Prop := IsUnconfirmed ld = true \/ cleaf_ok ld.

Record utx_ok (msg : MsgUtreexoTx) : Prop := {
  uxk_tx : tx_ok (mu_MsgTx msg);
  uxk_proof : proof_ok (mu_AccProof msg);
  uxk_index : Forall (fun ti => op_Index (ti_PreviousOutPoint ti) < 2 ^ 31)
                (tx_TxIn (mu_MsgTx msg));
  uxk_count : List.length (mu_LeafDatas msg) = List.length (tx_TxIn (mu_MsgTx msg));
  uxk_leaves : Forall leaf_marked_ok (mu_LeafDatas msg)
}.

(** The leaf an input comes back with. *)
Definition leaf_at (op : OutPoint) : LeafData :=
  mkLeafData empty_hash op 0 false 0 OtherTy None.
Definition leaf_view (ti : TxIn) (ld : LeafData) : LeafData :=
  if IsUnconfirmed ld then SetUnconfirmed (leaf_at (ti_PreviousOutPoint ti))
  else compact_view (leaf_at (ti_PreviousOutPoint ti)) ld.

Definition utx_view (enc : Z) (msg : MsgUtreexoTx) : MsgUtreexoTx :=
  mkMsgUtreexoTx (norm_tx enc (mu_MsgTx msg)) (mu_AccProof msg)
    (map (fun p => leaf_view (fst p) (snd p)) (combine (tx_TxIn (mu_MsgTx msg)) (mu_LeafDatas msg))).

Definition marked (tis : list TxIn) (lds : list LeafData) : list TxIn :=
  map (fun p => markIndex (fst p) (snd p)) (combine tis lds).

Lemma markAll_ok tis : forall lds,
  List.length lds = List.length tis -> markAll tis lds = Ok (marked tis lds).
Proof.
  induction tis as [|ti tis IH]; intros [|ld lds] H; try discriminate; [reflexivity|].
  cbn [markAll]. injection H as H. now rewrite IH.
Qed.

(** What marking keeps: everything but the index. *)
Lemma markIndex_keeps ti ld :
  op_Hash (ti_PreviousOutPoint (markIndex ti ld)) = op_Hash (ti_PreviousOutPoint ti) /\
  ti_SignatureScript (markIndex ti ld) = ti_SignatureScript ti /\
  ti_Witness (markIndex ti ld) = ti_Witness ti /\
  ti_Sequence (markIndex ti ld) = ti_Sequence ti.
Proof. repeat split. Qed.

Lemma markIndex_index ti ld :
  0 <= op_Index (ti_PreviousOutPoint ti) < 2 ^ 31 ->
  op_Index (ti_PreviousOutPoint (markIndex ti ld)) =
    2 * op_Index (ti_PreviousOutPoint ti) + (if IsUnconfirmed ld then 1 else 0).
Proof.
  intros H. unfold markIndex, set_index. simpl.
  rewrite Z.shiftl_mul_pow2, u32_id by (unfold is_u32; lia).
  destruct (IsUnconfirmed ld); [|lia].
  replace (op_Index (ti_PreviousOutPoint ti) * 2 ^ 1) with (2 * op_Index (ti_PreviousOutPoint ti)) by lia.
  apply lor_bit0.
Qed.

Lemma marked_map {B} (f : TxIn -> B) tis : forall lds,
  List.length lds = List.length tis -> (forall ti ld, f (markIndex ti ld) = f ti) ->
  map f (marked tis lds) = map f tis.
Proof.
  induction tis as [|ti tis IH]; intros [|ld lds] H Hf; try discriminate; [reflexivity|].
  injection H as H. unfold marked in *. simpl. now rewrite Hf, IH.
Qed.

Lemma marked_length tis lds :
  List.length lds = List.length tis -> List.length (marked tis lds) = List.length tis.
Proof. intros H. unfold marked. rewrite length_map, length_combine. lia. Qed.

Lemma marked_txins tis : forall lds,
  List.length lds = List.length tis -> Forall txin_ok tis ->
  Forall (fun ti => op_Index (ti_PreviousOutPoint ti) < 2 ^ 31) tis ->
  Forall txin_ok (marked tis lds).
Proof.
  induction tis as [|ti tis IH]; intros [|ld lds] H Ho Hi; try discriminate; [constructor|].
  injection H as H. inversion_clear Ho as [|? ? [[Hh Hix] Hs] Ho']. inversion_clear Hi.
  unfold marked in *. simpl. constructor; [|now apply IH].
  destruct Hs. unfold txin_ok, outpoint_ok, is_u32 in *.
  rewrite markIndex_index by lia. simpl. repeat split; try assumption; destruct (IsUnconfirmed ld); lia.
Qed.

Lemma Forall_of_map {A B} (f : A -> B) (P : B -> Prop) l l' :
  map f l = map f l' -> Forall (fun a => P (f a)) l -> Forall (fun a => P (f a)) l'.
Proof. intros E H. rewrite <- Forall_map in *. now rewrite <- E. Qed.

Lemma marked_tx_ok tx lds :
  List.length lds = List.length (tx_TxIn tx) -> tx_ok tx ->
  Forall (fun ti => op_Index (ti_PreviousOutPoint ti) < 2 ^ 31) (tx_TxIn tx) ->
  tx_ok (with_txins tx (marked (tx_TxIn tx) lds)).
Proof.
  intros Hl [H1 H2 H3 H4 H5 H6 H7 H8] Hi. constructor; simpl; try assumption.
  - unfold len. now rewrite marked_length.
  - now apply marked_txins.
  - apply (Forall_of_map ti_Witness (fun w => witness_ok (wit_items w)) (tx_TxIn tx)); [|assumption].
    symmetry. now apply marked_map.
  - unfold scriptBytes, tx_scripts in *. simpl.
    rewrite (flat_map_concat_map txin_scripts (marked _ _)), marked_map by easy.
    now rewrite <- flat_map_concat_map.
Qed.

Lemma HasWitness_marked tx lds :
  List.length lds = List.length (tx_TxIn tx) ->
  HasWitness (with_txins tx (marked (tx_TxIn tx) lds)) = HasWitness tx.
Proof.
  unfold HasWitness. simpl. generalize (tx_TxIn tx). intros tis. revert lds.
  induction tis as [|ti tis IH]; intros [|ld lds] H; try discriminate; [reflexivity|].
  injection H as H. unfold marked in *. simpl. now rewrite IH.
Qed.

Lemma half_marked i (b : bool) :
  0 <= i -> let m := 2 * i + (if b then 1 else 0) in
  (Z.land m 1 =? 1) = b /\ Z.shiftr m 1 = i.
Proof.
  intros Hi m. subst m. rewrite Z.shiftr_div_pow2 by lia.
  rewrite (Z.land_ones _ 1 ltac:(lia)). change (2 ^ 1) with 2.
  destruct b; split; try (apply Z.eqb_eq || apply Z.eqb_neq);
    Z.to_euclidean_division_equations; lia.
Qed.

Lemma set_index_back dw ti ld :
  0 <= op_Index (ti_PreviousOutPoint ti) < 2 ^ 31 ->
  let m := norm_txin dw (markIndex ti ld) in
  (Z.land (op_Index (ti_PreviousOutPoint m)) 1 =? 1) = IsUnconfirmed ld /\
  set_index m (Z.shiftr (op_Index (ti_PreviousOutPoint m)) 1) = norm_txin dw ti.
Proof.
  intros H m. subst m. unfold norm_txin at 1 2 3, set_witness. cbn [ti_PreviousOutPoint].
  rewrite (markIndex_index _ _ H).
  destruct (half_marked _ (IsUnconfirmed ld) (proj1 H)) as [-> ->].
  split; [reflexivity|]. unfold set_index, norm_txin, set_witness. simpl.
  destruct ti as [[h i] s w q]. reflexivity.
Qed.

Lemma readMarked_encode dw tis : forall lds rest,
  List.length lds = List.length tis ->
  Forall (fun ti => 0 <= op_Index (ti_PreviousOutPoint ti) < 2 ^ 31) tis ->
  Forall leaf_marked_ok lds ->
  exists out, wall ld_SerializeCompact lds = (out, None) /\
    readMarked (map (norm_txin dw) (marked tis lds)) (out ++ rest) =
      Ok (combine (map (norm_txin dw) tis)
            (map (fun p => leaf_view (fst p) (snd p)) (combine tis lds)), rest).
Proof.
  induction tis as [|ti tis IH]; intros [|ld lds] rest H Hi Hl; try discriminate.
  - exists []. split; reflexivity.
  - injection H as H. inversion_clear Hi as [|? ? Hix Hi']. inversion_clear Hl as [|? ? Hld Hl'].
    destruct (IH lds rest H Hi' Hl') as (o2 & E2 & D2).
    change (marked (ti :: tis) (ld :: lds)) with (markIndex ti ld :: marked tis lds).
    cbn [map readMarked wall combine fst snd].
    destruct (set_index_back dw ti ld Hix) as [-> Hback]. cbn zeta in Hback.
    unfold leaf_view at 1. rewrite Hback. change (ti_PreviousOutPoint (norm_txin dw ti)) with
      (ti_PreviousOutPoint ti). fold (leaf_at (ti_PreviousOutPoint ti)).
    destruct (IsUnconfirmed ld) eqn:Eu.
    + exists o2. rewrite SerializeCompact_unconfirmed, E2 by assumption.
      split; [reflexivity|]. unfold rbind. rewrite D2. reflexivity.
    + destruct Hld as [|Hld]; [congruence|].
      destruct (compact_decode_encode (leaf_at (ti_PreviousOutPoint ti)) ld (o2 ++ rest) Hld eq_refl)
        as (o1 & E1 & D1).
      exists (o1 ++ o2). rewrite E1, E2. split; [reflexivity|].
      unfold rbind. rewrite <- app_assoc, D1. simpl. rewrite D2. reflexivity.
Qed.

Lemma utx_decode_encode enc msg rest :
  utx_ok msg -> (wantsWitness enc = true -> tx_TxIn (mu_MsgTx msg) <> []) ->
  exists out msg',
    mu_BtcEncode enc msg = Ok ((out, None), msg') /\
    mu_BtcDecode enc (out ++ rest) = Ok (utx_view enc msg, rest) /\
    msg' = mkMsgUtreexoTx
             (with_txins (mu_MsgTx msg) (marked (tx_TxIn (mu_MsgTx msg)) (mu_LeafDatas msg)))
             (mu_AccProof msg) (mu_LeafDatas msg).
Proof.
  intros [Htx Hp Hi Hc Hl] Hne. destruct msg as [tx pr lds]. simpl in *.
  set (tx' := with_txins tx (marked (tx_TxIn tx) lds)).
  set (dw := wantsWitness enc && HasWitness tx).
  assert (Hix : Forall (fun ti => 0 <= op_Index (ti_PreviousOutPoint ti) < 2 ^ 31) (tx_TxIn tx)).
  { pose proof (ok_ins _ Htx) as Ho. rewrite Forall_forall in *. intros ti Hin.
    destruct (Ho ti Hin) as [[_ [H0 _]] _]. specialize (Hi ti Hin). simpl in Hi. lia. }
  destruct (readMarked_encode dw (tx_TxIn tx) lds rest Hc Hix Hl) as (o3 & E3 & D3).
  destruct (tx_decode_encode enc tx' (o3 ++ rest)) as (o2 & E2 & D2).
  { now apply marked_tx_ok. }
  { intros W Hn. apply (Hne W). apply (f_equal (@List.length _)) in Hn. simpl in Hn.
    rewrite marked_length in Hn by assumption. now apply length_zero_iff_nil. }
  destruct (proof_decode_encode pr (o2 ++ o3 ++ rest) Hp) as (o1 & E1 & D1).
  exists (o1 ++ o2 ++ o3), (mkMsgUtreexoTx tx' pr lds).
  unfold mu_BtcEncode. simpl. rewrite E1, markAll_ok by assumption. cbn [obind]. fold tx'.
  rewrite E2, E3. split; [reflexivity|]. split; [|reflexivity].
  unfold mu_BtcDecode. unfold rbind at 1. rewrite <- !app_assoc, D1. cbn [obind].
  unfold rbind at 1. rewrite D2. cbn [obind].
  unfold norm_tx at 1 2 3. subst tx'. rewrite HasWitness_marked by assumption. fold dw. simpl.
  unfold utx_view, norm_tx. simpl. fold dw.
  destruct (tx_TxIn tx) as [|ti tis] eqn:Et.
  - destruct lds; [|discriminate]. injection E3 as <-. reflexivity.
  - replace (len (map (norm_txin dw) (marked (ti :: tis) lds)) =? 0) with false.
    2:{ symmetry. apply Z.eqb_neq. unfold len. rewrite length_map, marked_length by assumption.
        simpl. lia. }
    unfold rbind. rewrite D3. cbn [obind]. unfold rret. unfold with_txins. simpl tx_Version.
    assert (Hlen : List.length (map (norm_txin dw) (ti :: tis)) =
      List.length (map (fun p => leaf_view (fst p) (snd p)) (combine (ti :: tis) lds))).
    { rewrite !length_map, length_combine. lia. }
    now rewrite map_fst_combine, map_snd_combine by exact Hlen.
Qed.

Lemma marked_indexes msg :
  utx_ok msg ->
  map (fun ti => op_Index (ti_PreviousOutPoint ti))
    (marked (tx_TxIn (mu_MsgTx msg)) (mu_LeafDatas msg)) =
  map (fun p => 2 * op_Index (ti_PreviousOutPoint (fst p)) +
                (if IsUnconfirmed (snd p) then 1 else 0))
    (combine (tx_TxIn (mu_MsgTx msg)) (mu_LeafDatas msg)).
Proof.
  intros [Htx _ Hi _ _]. unfold marked. rewrite map_map. apply map_ext_in. intros [ti ld] Hin.
  apply in_combine_l in Hin. apply markIndex_index. simpl.
  pose proof (ok_ins _ Htx) as Ho. rewrite Forall_forall in *.
  destruct (Ho ti Hin) as [[_ [H0 _]] _]. specialize (Hi ti Hin). simpl in Hi. lia.
Qed.

Lemma marked_utx_ok msg :
  utx_ok msg ->
  Forall (fun ti => op_Index (ti_PreviousOutPoint ti) < 2 ^ 30) (tx_TxIn (mu_MsgTx msg)) ->
  utx_ok (mkMsgUtreexoTx
    (with_txins (mu_MsgTx msg) (marked (tx_TxIn (mu_MsgTx msg)) (mu_LeafDatas msg)))
    (mu_AccProof msg) (mu_LeafDatas msg)).
Proof.
  intros Hok Hi. pose proof (marked_indexes msg Hok) as Hm. destruct Hok as [Htx Hp Hi' Hc Hl].
  constructor; simpl; try assumption.
  - now apply marked_tx_ok.
  - rewrite <- (Forall_map (fun ti => op_Index (ti_PreviousOutPoint ti)) (fun z => z < 2 ^ 31)), Hm.
    rewrite Forall_map, Forall_forall. intros [ti ld] Hin. apply in_combine_l in Hin. simpl.
    rewrite Forall_forall in Hi. specialize (Hi ti Hin). simpl in Hi.
    destruct (IsUnconfirmed ld); lia.
  - now rewrite marked_length.
Qed.

#[export] Instance local_elements ks : Local (readElements ks).
Proof.
  induction ks as [|k ks IH]; simpl; [typeclasses eauto|].
  apply local_bind; [|typeclasses eauto]. destruct k; simpl; typeclasses eauto.
Qed.
#[export] Instance local_BlockHeader : Local readBlockHeader.
Proof.
  unfold readBlockHeader. apply local_bind; [typeclasses eauto|]. intros es r bh rest H.
  repeat match type of H with
  | match ?l with [] => _ | _ :: _ => _ end _ = _ => destruct l; try discriminate
  | match ?e with EInt32 _ => _ | _ => _ end _ = _ => destruct e; try discriminate
  end.
  all: injection H as <- <-; exists []; split; reflexivity.
Qed.

Lemma Forall2_nth_error {A B} (R : A -> B -> Prop) l l' i a :
  Forall2 R l l' -> nth_error l i = Some a ->
  exists b, nth_error l' i = Some b /\ R a b.
Proof.
  intros H. revert i. induction H as [|x y l l' Hxy H IH]; intros [|i] E; try discriminate; simpl in *.
  - injection E as ->. eauto.
  - now apply IH.
Qed.

(** ** Properties *)

(** C34: every well-formed block encodes without an error, decodes to itself
    (without the witnesses in the base encoding), and takes the size that
    SerializeSize or SerializeSizeStripped computes. *)
Theorem block_roundtrip enc msg rest :
  block_ok enc msg ->
  exists out, mb_BtcEncode enc msg = (out, None) /\
    mb_BtcDecode enc (out ++ rest) = Ok (norm_block enc msg, rest) /\
    (enc = WitnessEncoding -> len out = mb_SerializeSize msg) /\
    (enc = BaseEncoding -> len out = mb_SerializeSizeStripped msg).
Proof.
  intros Hok. destruct (block_decode_encode enc msg rest Hok) as (o & E & D).
  exists o. split; [exact E|]. split; [exact D|].
  split; intros ->; unfold mb_SerializeSize, mb_SerializeSizeStripped;
    apply (block_size _ _ _ _ Hok E); intros tx o' Htx Ho.
  - now apply Serialize_size.
  - now apply SerializeNoWitness_size.
Qed.

Definition sample_header : BlockHeader :=
  mkBlockHeader 0x20000000 (repeat 7 32) (repeat 9 32) 1700000000 0x207fffff 42.
Definition sample_block : MsgBlock := mkMsgBlock sample_header [sample_tx; sample_tx].

Lemma sample_block_ok enc : block_ok enc sample_block.
Proof.
  constructor.
  - constructor; vm_compute; split; congruence || reflexivity.
  - vm_compute. congruence.
  - repeat constructor; try apply sample_tx_ok; discriminate.
Qed.

Lemma block_roundtrip_witness :
  exists out, mb_BtcEncode WitnessEncoding sample_block = (out, None) /\
    len out = mb_SerializeSize sample_block.
Proof.
  destruct (block_roundtrip WitnessEncoding sample_block [] (sample_block_ok _))
    as (o & E & _ & S & _).
  exists o. split; [exact E | exact (S eq_refl)].
Defined.

(** DeserializeTxLoc decodes the same block as Deserialize, and each location
    it returns delimits the bytes of the raw block that decode to the transaction at
    that place. *)
Theorem DeserializeTxLoc_correct r msg locs :
  DeserializeTxLoc r = Ok (msg, locs) ->
  exists rest, mb_Deserialize r = Ok (msg, rest) /\
    List.length locs = List.length (mb_Transactions msg) /\
    forall i tx loc, nth_error (mb_Transactions msg) i = Some tx ->
      nth_error locs i = Some loc ->
      let raw := firstn (Z.to_nat (TxLen loc)) (skipn (Z.to_nat (TxStart loc)) r) in
      len raw = TxLen loc /\ Deserialize raw = Ok (tx, []).
Proof.
  unfold DeserializeTxLoc, mb_Deserialize, mb_BtcDecode. intros H.
  apply obind_Ok in H. destruct H as ([p rest] & H & Hp). injection Hp as ->.
  apply rbind_Ok in H. destruct H as (hdr & r1 & E1 & H).
  apply rbind_Ok in H. destruct H as (c & r2 & E2 & H).
  destruct (maxTxPerBlock <? c) eqn:Em; [discriminate|].
  apply rbind_Ok in H. destruct H as (u & r3 & E3 & H).
  apply rbind_Ok in H. destruct H as (tls & r4 & E4 & H). injection H as <- <- <-.
  unfold rlift in E3. assert (r3 = r2) as ->.
  { destruct (go_make 16 c); inversion E3. reflexivity. }
  destruct (readTxLocs_spec _ _ _ _ _ E4) as (D & parts & Hr2 & Hp & Hs).
  exists r4. split.
  { unfold rbind, rlift. rewrite E1. cbn [obind]. rewrite E2. cbn [obind]. rewrite Em.
    destruct (go_make 16 c) as [u'| |] eqn:Eg; try discriminate.
    rewrite (go_make_smaller 8 16 c u' ltac:(lia) Eg). cbn [obind].
    unfold Deserialize in D. now rewrite D. }
  split; [simpl; now rewrite !length_map|]. intros i tx loc Htx Hloc.
  set (raw := firstn _ _).
  simpl in Htx. rewrite nth_error_map in Htx, Hloc.
  destruct (nth_error tls i) as [tl|] eqn:Etl; [|discriminate].
  injection Htx as <-. injection Hloc as <-.
  destruct (Forall2_nth_error _ _ _ _ _ Hp Etl) as (o & Ho & Do & Lo).
  destruct (local_prefix _ _ _ E1) as (o1 & -> & _). destruct (local_prefix _ _ _ E2) as (o2 & -> & _).
  assert (Hst : TxStart (snd tl) = len (o1 ++ o2 ++ concat (firstn i parts))).
  { rewrite (Hs _ _ Etl). autorewrite with lens. lia. }
  assert (raw = o) as ->; [|now rewrite Lo]. subst raw.
  rewrite Hst, Lo, Hr2, (concat_nth _ _ _ Ho).
  rewrite <- !app_assoc, !(app_assoc o1), !(app_assoc (o1 ++ o2)), skipn_len_app.
  apply firstn_len_app.
Qed.

Lemma DeserializeTxLoc_correct_witness :
  exists msg locs, DeserializeTxLoc (fst (mb_Serialize sample_block)) = Ok (msg, locs) /\
    locs = [mkTxLoc 81 78; mkTxLoc 159 78] /\
    List.length locs = List.length (mb_Transactions msg).
Proof.
  destruct (DeserializeTxLoc (fst (mb_Serialize sample_block))) as [[msg locs]| |] eqn:E;
    [|vm_compute in E; discriminate..].
  exists msg, locs. split; [reflexivity|]. split.
  - vm_compute in E. injection E as _ <-. reflexivity.
  - destruct (DeserializeTxLoc_correct _ _ _ E) as (_ & _ & L & _). exact L.
Defined.

(** A bitmap has one bit for each flag, packed eight to a byte, and isBitSet
    reads each flag back, and false past the end. *)
Theorem createBitmap_correct includes :
  exists bm, createBitmap includes = Ok bm /\ len bm = (len includes + 7) / 8 /\
    forall j, 0 <= j -> isBitSet bm j = Ok (nth (Z.to_nat j) includes false).
Proof.
  destruct (createBitmap_bits includes) as (bm & E & L & B).
  exists bm. split; [exact E|]. split; [exact L|]. intros j Hj.
  now rewrite isBitSet_bit, B.
Qed.

(** Utreexo proofs, proof requests, roots, time-to-live lists and block
    summaries decode to what was encoded. *)
Theorem utreexo_messages_roundtrip :
  (forall msg rest, uproof_ok msg -> exists out, mp_BtcEncode msg = (out, None) /\
     mp_BtcDecode (out ++ rest) = Ok (uproof_view msg, rest)) /\
  Codec gp_BtcEncode gp_BtcDecode getuproof_ok /\
  Codec ur_BtcEncode ur_BtcDecode root_ok /\
  Codec ut_Serialize ut_Deserialize ttl_ok /\ CodecSize ut_Serialize ut_SerializeSize ttl_ok /\
  Codec writeUtreexoBlockSummary readUtreexoBlockSummary summary_ok.
Proof.
  split; [exact uproof_decode_encode|]. repeat split; typeclasses eauto.
Qed.

(** A utreexo transaction decodes to the transaction, the proof and the compact
    leaves it was encoded from, the unconfirmed inputs marked by the low bit of
    their index. *)
Theorem utreexotx_roundtrip enc msg rest :
  utx_ok msg -> (wantsWitness enc = true -> tx_TxIn (mu_MsgTx msg) <> []) ->
  exists out msg', mu_BtcEncode enc msg = Ok ((out, None), msg') /\
    mu_BtcDecode enc (out ++ rest) = Ok (utx_view enc msg, rest).
Proof.
  intros Hok Hne. destruct (utx_decode_encode enc msg rest Hok Hne) as (o & msg' & E & D & _).
  eauto.
Qed.

Definition sample_utx : MsgUtreexoTx :=
  mkMsgUtreexoTx sample_tx (mkProof [3; 2 ^ 40] [repeat 5 32]) [SetUnconfirmed emptyLd].

Lemma sample_utx_ok : utx_ok sample_utx.
Proof.
  constructor.
  - apply sample_tx_ok.
  - constructor; repeat constructor; try (vm_compute; congruence).
  - repeat constructor.
  - reflexivity.
  - repeat constructor.
Qed.

Lemma utreexotx_roundtrip_witness :
  exists out msg', mu_BtcEncode WitnessEncoding sample_utx = Ok ((out, None), msg') /\
    mu_Deserialize out = Ok (utx_view WitnessEncoding sample_utx, []).
Proof.
  destruct (utreexotx_roundtrip WitnessEncoding sample_utx [] sample_utx_ok ltac:(discriminate))
    as (o & msg' & E & D).
  rewrite app_nil_r in D. eauto.
Defined.

(** BtcEncode shifts the outpoint indexes of the message in place, so encoding the
    same message again sends the doubled indexes. *)
Theorem utreexotx_second_encoding enc msg rest :
  utx_ok msg -> (wantsWitness enc = true -> tx_TxIn (mu_MsgTx msg) <> []) ->
  Forall (fun ti => op_Index (ti_PreviousOutPoint ti) < 2 ^ 30) (tx_TxIn (mu_MsgTx msg)) ->
  exists w1 msg1 out msg2,
    mu_BtcEncode enc msg = Ok (w1, msg1) /\ mu_BtcEncode enc msg1 = Ok ((out, None), msg2) /\
    mu_BtcDecode enc (out ++ rest) = Ok (utx_view enc msg1, rest) /\
    map (fun ti => op_Index (ti_PreviousOutPoint ti)) (tx_TxIn (mu_MsgTx msg1)) =
      map (fun p => 2 * op_Index (ti_PreviousOutPoint (fst p)) +
                    (if IsUnconfirmed (snd p) then 1 else 0))
        (combine (tx_TxIn (mu_MsgTx msg)) (mu_LeafDatas msg)).
Proof.
  intros Hok Hne Hi. destruct (utx_decode_encode enc msg rest Hok Hne) as (o & msg1 & E & _ & ->).
  pose proof (marked_indexes msg Hok) as Hm.
  destruct (utx_decode_encode enc _ rest (marked_utx_ok msg Hok Hi)) as (o2 & msg2 & E2 & D2 & _).
  { simpl. intros W Hn. apply (Hne W). apply (f_equal (@List.length _)) in Hn.
    rewrite marked_length in Hn by apply Hok. now apply length_zero_iff_nil. }
  do 4 eexists. split; [exact E|]. split; [exact E2|]. split; [exact D2|]. exact Hm.
Qed.

Lemma utreexotx_second_encoding_witness :
  exists w1 msg1 out msg2,
    mu_BtcEncode WitnessEncoding sample_utx = Ok (w1, msg1) /\
    mu_BtcEncode WitnessEncoding msg1 = Ok ((out, None), msg2) /\
    mu_Deserialize out <> Ok (utx_view WitnessEncoding sample_utx, []).
Proof.
  destruct (utreexotx_second_encoding WitnessEncoding sample_utx [] sample_utx_ok
    ltac:(discriminate) ltac:(repeat constructor)) as (w1 & msg1 & out & msg2 & E1 & E2 & D & M).
  exists w1, msg1, out, msg2. split; [exact E1|]. split; [exact E2|].
  rewrite app_nil_r in D. unfold mu_Deserialize. rewrite D. intros [= H].
  vm_compute in E1. injection E1 as _ <-. vm_compute in H. discriminate.
Defined.
