(* ===== verification/Merkle.v ===== *)
(** * Merkle trees (blockchain/merkle.go, blockchain/rolling_merkle.go)

    The merkle root of the transactions of a block, computed in three ways: as
    the tree in a linear array, by the rolling store of O(log n) roots, and from
    the branch of one transaction; and the witness commitment of the coinbase.
    A transaction of btcutil, which caches its hashes, is the MsgTx below it. *)

From Stdlib Require Import ZArith List Lia Bool.
From S2P Require Import Prelude Opcodes GoSlice GoIO WireCommon WireTx.
Import ListNotations.
Local Open Scope list_scope.
Local Open Scope Z_scope.
Local Open Scope go_scope.

Abbreviation hash := (list Z).

(** The rule violations of blockchain/error.go. *)
Inductive RuleError : Set :=
| ErrDuplicateBlock | ErrBlockTooBig | ErrBlockWeightTooHigh | ErrBlockVersionTooOld
| ErrInvalidTime | ErrTimeTooOld | ErrTimeTooNew | ErrDifficultyTooLow
| ErrUnexpectedDifficulty | ErrHighHash | ErrBadMerkleRoot | ErrBadCheckpoint
| ErrForkTooOld | ErrCheckpointTimeTooOld | ErrNoTransactions | ErrNoTxInputs
| ErrNoTxOutputs | ErrTxTooBig | ErrBadTxOutValue | ErrDuplicateTxInputs
| ErrBadTxInput | ErrMissingTxOut | ErrUnfinalizedTx | ErrDuplicateTx
| ErrOverwriteTx | ErrImmatureSpend | ErrSpendTooHigh | ErrBadFees
| ErrTooManySigOps | ErrFirstTxNotCoinbase | ErrMultipleCoinbases | ErrBadCoinbaseScriptLen
| ErrBadCoinbaseValue | ErrMissingCoinbaseHeight | ErrBadCoinbaseHeight | ErrScriptMalformed
| ErrScriptValidation | ErrUnexpectedWitness | ErrInvalidWitnessCommitment | ErrWitnessCommitmentMismatch
| ErrPreviousBlockUnknown | ErrInvalidAncestorBlock | ErrPrevBlockNotBest | ErrKnownInvalidBlock
| ErrMissingParent.

Definition CoinbaseWitnessDataLen : Z := 32.
Definition CoinbaseWitnessPkScriptLength : Z := 38.
Definition WitnessMagicBytes : list Z := [OP_RETURN; OP_DATA_36; 0xaa; 0x21; 0xa9; 0xed].

(** [uint(math.Log2(float64(n)))] is the integer logarithm: the float is exact
    far beyond the length of any slice of transactions. *)
Definition nextPowerOfTwo (n : Z) : Z :=
  if Z.land n (n - 1) =? 0 then n else Z.shiftl 1 (Z.log2 n + 1).

Definition treeRows (n : Z) : Z := if n =? 0 then 0 else if n =? 1 then 0 else Z.log2 (n - 1) + 1.
Definition sibling (pos : Z) : Z := Z.lxor pos 1.
Definition parent (position forestRows : Z) : Z := Z.lor (Z.shiftr position 1) (Z.shiftl 1 forestRows).
Definition isLeftNode (position : Z) : bool := Z.land position 1 =? 0.

Definition IsCoinBaseTx (tx : MsgTx) : bool :=
  match tx_TxIn tx with
  | [ti] =>
      let prevOut := ti_PreviousOutPoint ti in
      (op_Index prevOut =? MaxUint32) && bytes_eqb (op_Hash prevOut) zeroHash
  | _ => false
  end.

Section Merkle.
(** chainhash.DoubleHashH: double SHA-256, not part of the model. *)
Context (DoubleHash : list Z -> hash).

Definition HashMerkleBranches (left right : hash) : hash := DoubleHash (left ++ right).

(** The leaf of a transaction: its id, or its witness id, zero for the coinbase. *)
Definition leafHash (witness : bool) (i : nat) (tx : MsgTx) : hash :=
  match witness, i with
  | true, O => zeroHash
  | true, _ => WitnessHash DoubleHash tx
  | false, _ => TxHash DoubleHash tx
  end.

Fixpoint leafHashes (witness : bool) (i : nat) (txs : list MsgTx) : list hash :=
  match txs with
  | [] => []
  | tx :: txs' => leafHash witness i tx :: leafHashes witness (S i) txs'
  end.

(** ** The tree in a linear array *)

(** The node above two nodes of the array; nil is [None]. *)
Definition parentHash (left right : option hash) : option hash :=
  match left, right with
  | None, _ => None
  | Some l, None => Some (HashMerkleBranches l l)
  | Some l, Some r => Some (HashMerkleBranches l r)
  end.

Fixpoint build_loop (fuel : nat) (merkles : list (option hash)) (i offset : Z)
    : outcome unit (list (option hash)) :=
  if i <? len merkles - 1 then
    match fuel with
    | O => Panic
    | S fuel' =>
        let* lhs := get_at merkles i in
        let* rhs := match lhs with None => Ok None | Some _ => get_at merkles (i + 1) end in
        let* merkles := set_at merkles offset (parentHash lhs rhs) in
        build_loop fuel' merkles (i + 2) (offset + 1)
    end
  else Ok merkles.

Definition buildStore (leaves : list hash) : outcome unit (list (option hash)) :=
  let nextPoT := nextPowerOfTwo (len leaves) in
  let arraySize := nextPoT * 2 - 1 in
  if arraySize <? 0 then Panic
  else
    let merkles := map Some leaves ++ repeat None (Z.to_nat (arraySize - len leaves)) in
    build_loop (Z.to_nat arraySize) merkles 0 nextPoT.

Definition BuildMerkleTreeStore (transactions : list MsgTx) (witness : bool)
    : outcome unit (list (option hash)) :=
  buildStore (leafHashes witness 0 transactions).

(** ** The rolling store *)

Record rollingMerkleTreeStore : Type := mkRolling {
  rs_roots : list hash;
  rs_numLeaves : Z
}.

(** newRollingMerkleTreeStore: the capacity it reserves is not observable. *)
Definition newRollingMerkleTreeStore : rollingMerkleTreeStore := mkRolling [] 0.

Fixpoint add_loop (fuel : nat) (numLeaves h : Z) (roots : list hash) (newRoot : hash)
    : outcome unit (list hash) :=
  if Z.land (Z.shiftr numLeaves h) 1 =? 1 then
    match fuel with
    | O => Panic
    | S fuel' =>
        let* root := get_at roots (len roots - 1) in
        let* roots := slice roots 0 (len roots - 1) in
        add_loop fuel' numLeaves (h + 1) roots (HashMerkleBranches root newRoot)
    end
  else Ok (roots ++ [newRoot]).

(** A 64-bit number has no set bit past the 64th. *)
Definition rs_add (s : rollingMerkleTreeStore) (add : hash) : outcome unit rollingMerkleTreeStore :=
  let* roots := add_loop 64 (rs_numLeaves s) 0 (rs_roots s) add in
  Ok (mkRolling roots (u64 (rs_numLeaves s + 1))).

Fixpoint add_all (s : rollingMerkleTreeStore) (adds : list hash) : outcome unit rollingMerkleTreeStore :=
  match adds with
  | [] => Ok s
  | x :: adds' => let* s := rs_add s x in add_all s adds'
  end.

(** The loop that halves the leaves up to a row with an odd number of nodes.
    A number of leaves of zero would not end it. *)
Fixpoint shift_loop (fuel : nat) (currentLeaves h numLeaves : Z) : outcome unit Z :=
  if Z.land (Z.shiftr currentLeaves h) 1 =? 0 then
    match fuel with
    | O => Panic
    | S fuel' => shift_loop fuel' currentLeaves (h + 1) (Z.shiftr numLeaves 1)
    end
  else Ok numLeaves.

(** The loop over the upper rows; the number of leaves is at least halved each
    time. *)
Fixpoint rows_loop (fuel : nat) (s : rollingMerkleTreeStore) : outcome unit hash :=
  if 1 <? len (rs_roots s) then
    match fuel with
    | O => Panic
    | S fuel' =>
        let* numLeaves := shift_loop 64 (rs_numLeaves s) 0 (rs_numLeaves s) in
        let* h := get_at (rs_roots s) (len (rs_roots s) - 1) in
        let* s := rs_add (mkRolling (rs_roots s) numLeaves) h in
        rows_loop fuel' s
    end
  else get_at (rs_roots s) 0.

Definition calcMerkleRoot (s : rollingMerkleTreeStore) (adds : list MsgTx) (witness : bool)
    : outcome unit hash :=
  let* s := add_all s (leafHashes witness 0 adds) in
  if rs_numLeaves s =? 1 then get_at (rs_roots s) 0
  else
    let* s :=
      if (0 <? len adds) && negb (Z.rem (len adds) 2 =? 0) then
        let* tx := get_at adds (len adds - 1) in
        rs_add s (if witness then WitnessHash DoubleHash tx else TxHash DoubleHash tx)
      else Ok s in
    rows_loop 64 s.

Definition CalcMerkleRoot (transactions : list MsgTx) (witness : bool) : outcome unit hash :=
  calcMerkleRoot newRollingMerkleTreeStore transactions witness.

(** ** Branches *)

(** The search for the leaf; a nil leaf is dereferenced. *)
Fixpoint find_leaf (merkles : list (option hash)) (numLeaves : nat) (i : Z) (txHash : hash)
    : outcome unit (option Z) :=
  match numLeaves with
  | O => Ok None
  | S numLeaves' =>
      let* m := get_at merkles i in
      match m with
      | None => Panic
      | Some x => if bytes_eqb x txHash then Ok (Some i) else find_leaf merkles numLeaves' (i + 1) txHash
      end
  end.

Fixpoint branch_loop (rows : nat) (merkles : list (option hash)) (idx forestRows : Z)
    : outcome unit (list (option hash)) :=
  match rows with
  | O => Ok []
  | S rows' =>
      let* m := get_at merkles idx in
      let* m := match m with None => get_at merkles (sibling idx) | Some _ => Ok m end in
      let* rest := branch_loop rows' merkles (sibling (parent idx forestRows)) forestRows in
      Ok (m :: rest)
  end.

Definition ExtractMerkleBranch (merkles : list (option hash)) (txHash : hash)
    : outcome unit (list (option hash)) :=
  let numLeaves := (len merkles + 1) / 2 in
  let* idx := find_leaf merkles (Z.to_nat numLeaves) 0 txHash in
  match idx with
  | None => Ok []
  | Some idx =>
      let forestRows := treeRows numLeaves in
      branch_loop (Z.to_nat forestRows) merkles (sibling idx) forestRows
  end.

Fixpoint root_loop (merkles : list (option hash)) (i : Z) (result : hash) (pos : Z) : hash :=
  match merkles with
  | [] => result
  | merkle :: merkles' =>
      let h := match merkle with Some m => m | None => result end in
      let result :=
        if isLeftNode (Z.shiftr pos i) then HashMerkleBranches result h else HashMerkleBranches h result in
      root_loop merkles' (i + 1) result pos
  end.

Definition HashMerkleRoot (merkles : list (option hash)) (target : hash) (pos : Z) : hash :=
  root_loop merkles 0 target pos.

(** ** The witness commitment *)

Definition isCommitment (pkScript : list Z) : bool :=
  (CoinbaseWitnessPkScriptLength <=? len pkScript) && HasPrefix pkScript WitnessMagicBytes.

(** The loop over the outputs, last first. *)
Fixpoint find_commitment (outs : list TxOut) : option (list Z) :=
  match outs with
  | [] => None
  | to :: outs' =>
      if isCommitment (to_PkScript to)
      then Some (firstn 32 (skipn (List.length WitnessMagicBytes) (to_PkScript to)))
      else find_commitment outs'
  end.

Definition ExtractWitnessCommitment (tx : MsgTx) : option (list Z) :=
  if IsCoinBaseTx tx then find_commitment (rev (tx_TxOut tx)) else None.

Definition ValidateWitnessCommitment (transactions : list MsgTx) : outcome RuleError unit :=
  match transactions with
  | [] => Err ErrNoTransactions
  | coinbaseTx :: _ =>
      match tx_TxIn coinbaseTx with
      | [] => Err ErrNoTxInputs
      | ti :: _ =>
          match ExtractWitnessCommitment coinbaseTx with
          | None => if existsb HasWitness transactions then Err ErrUnexpectedWitness else Ok tt
          | Some witnessCommitment =>
              match wit_items (ti_Witness ti) with
              | [witnessNonce] =>
                  if negb (len witnessNonce =? CoinbaseWitnessDataLen) then Err ErrInvalidWitnessCommitment
                  else
                    match CalcMerkleRoot transactions true with
                    | Ok witnessMerkleRoot =>
                        if bytes_eqb (DoubleHash (witnessMerkleRoot ++ witnessNonce)) witnessCommitment
                        then Ok tt else Err ErrWitnessCommitmentMismatch
                    | _ => Panic
                    end
              | _ => Err ErrInvalidWitnessCommitment
              end
          end
      end
  end.
End Merkle.

(** ** The reference: rows of a merkle tree

    The row above a row hashes the nodes in pairs, an odd last one with
    itself; the root is what is left after as many rows as the tree has. *)

Section Rows.
Context (DoubleHash : list Z -> hash).
Abbreviation branch := (HashMerkleBranches DoubleHash).

Fixpoint next_row (l : list hash) : list hash :=
  match l with
  | [] => []
  | [a] => [branch a a]
  | a :: b :: l' => branch a b :: next_row l'
  end.

Definition merkleRoot (leaves : list hash) : hash :=
  hd zeroHash (Nat.iter (Z.to_nat (treeRows (len leaves))) next_row leaves).

(** The full pairs of a row. *)
Fixpoint pairs (l : list hash) : list hash :=
  match l with
  | a :: b :: l' => branch a b :: pairs l'
  | _ => []
  end.

Lemma list_ind2 {A} (P : list A -> Prop) :
  P [] -> (forall a, P [a]) -> (forall a b l, P l -> P (a :: b :: l)) -> forall l, P l.
Proof.
  intros H0 H1 H2. assert (Hboth : forall l, P l /\ forall a, P (a :: l)).
  { induction l as [|x l [I1 I2]]; split; auto. }
  intros l. apply Hboth.
Qed.

Lemma next_row_len l : len (next_row l) = (len l + 1) / 2.
Proof.
  induction l as [|a|a b l IH] using list_ind2; try reflexivity.
  cbn [next_row]. rewrite !len_cons, IH. Z.to_euclidean_division_equations; lia.
Qed.

Lemma pairs_len l : len (pairs l) = len l / 2.
Proof.
  induction l as [|a|a b l IH] using list_ind2; try reflexivity.
  cbn [pairs]. rewrite !len_cons, IH. Z.to_euclidean_division_equations; lia.
Qed.

Lemma next_row_even l : len l mod 2 = 0 -> next_row l = pairs l.
Proof.
  induction l as [|a|a b l IH] using list_ind2; intros Hl; [reflexivity | discriminate |].
  cbn [next_row pairs]. rewrite IH; [reflexivity|]. rewrite !len_cons in Hl.
  Z.to_euclidean_division_equations; lia.
Qed.

Lemma pairs_app l x y : len l mod 2 = 0 -> pairs (l ++ [x; y]) = pairs l ++ [branch x y].
Proof.
  induction l as [|a|a b l IH] using list_ind2; intros Hl; [reflexivity | discriminate |].
  cbn [pairs app]. rewrite IH; [reflexivity|]. rewrite !len_cons in Hl.
  Z.to_euclidean_division_equations; lia.
Qed.

Lemma pairs_app_odd l x : len l mod 2 = 0 -> pairs (l ++ [x]) = pairs l.
Proof.
  induction l as [|a|a b l IH] using list_ind2; intros Hl; [reflexivity | discriminate |].
  cbn [pairs app]. rewrite IH; [reflexivity|]. rewrite !len_cons in Hl.
  Z.to_euclidean_division_equations; lia.
Qed.

(** Hashing an odd last node with itself is the same as repeating it. *)
Lemma next_row_repeat l x : len l mod 2 = 0 -> next_row (l ++ [x]) = next_row (l ++ [x; x]).
Proof.
  induction l as [|a|a b l IH] using list_ind2; intros Hl; [reflexivity | discriminate |].
  cbn [next_row app]. rewrite IH; [reflexivity|]. rewrite !len_cons in Hl.
  Z.to_euclidean_division_equations; lia.
Qed.

Lemma treeRows_spec n : 1 <= n -> 0 <= treeRows n /\ n <= 2 ^ treeRows n < 2 * n.
Proof.
  intros Hn. unfold treeRows. destruct (Z.eqb_spec n 0); [lia|].
  destruct (Z.eqb_spec n 1) as [->|]; [lia|].
  pose proof (Z.log2_nonneg (n - 1)). pose proof (Z.log2_spec (n - 1) ltac:(lia)) as [L1 L2].
  rewrite <- Z.add_1_r, Z.pow_add_r in * by lia. lia.
Qed.

Lemma treeRows_unique n k : 1 <= n -> 0 <= k -> n <= 2 ^ k < 2 * n -> treeRows n = k.
Proof.
  intros Hn Hk Hr. destruct (treeRows_spec n Hn) as (H0 & H1).
  destruct (Z.lt_trichotomy (treeRows n) k) as [Hlt|[E|Hgt]]; [|exact E|]; exfalso.
  - assert (2 ^ (treeRows n + 1) <= 2 ^ k) by (apply Z.pow_le_mono_r; lia).
    rewrite Z.pow_add_r in * by lia. lia.
  - assert (2 ^ (k + 1) <= 2 ^ treeRows n) by (apply Z.pow_le_mono_r; lia).
    rewrite Z.pow_add_r in * by lia. lia.
Qed.

Lemma treeRows_half n : 2 <= n -> treeRows n = treeRows ((n + 1) / 2) + 1.
Proof.
  intros Hn. assert (Hh : 1 <= (n + 1) / 2 <= n) by (Z.to_euclidean_division_equations; lia).
  destruct (treeRows_spec ((n + 1) / 2) ltac:(lia)) as (H0 & H1).
  apply treeRows_unique; try lia. rewrite Z.pow_add_r by lia. change (2 ^ 1) with 2.
  destruct (Z.eq_dec (treeRows ((n + 1) / 2)) 0) as [E|E].
  - rewrite E in *. change (2 ^ 0) with 1 in *. Z.to_euclidean_division_equations; lia.
  - (* the power is even, so that it cannot lie strictly between n and n + 1 halves *)
    replace (treeRows ((n + 1) / 2)) with (treeRows ((n + 1) / 2) - 1 + 1) in * by lia.
    rewrite Z.pow_add_r in * by lia. change (2 ^ 1) with 2 in *.
    Z.to_euclidean_division_equations; lia.
Qed.

Lemma merkleRoot_next l : 2 <= len l -> merkleRoot l = merkleRoot (next_row l).
Proof.
  intros Hl. unfold merkleRoot. rewrite next_row_len, treeRows_half by assumption.
  assert (Hh : 1 <= (len l + 1) / 2) by (Z.to_euclidean_division_equations; lia).
  destruct (treeRows_spec _ Hh) as [H0 _].
  rewrite Z2Nat.inj_add, Nat.add_comm by lia. change (Z.to_nat 1) with 1%nat.
  cbn [Nat.add]. now rewrite Nat.iter_succ_r.
Qed.

(** ** The forest of the rolling store

    [forest l r]: [r] are the roots of the full trees over the leaves [l], the
    largest first; one for each binary digit of the number of leaves. *)
Inductive forest : list hash -> list hash -> Prop :=
| forest_nil : forest [] []
| forest_even l r : l <> [] -> len l mod 2 = 0 -> forest (pairs l) r -> forest l r
| forest_odd l x r : len l mod 2 = 0 -> forest (pairs l) r -> forest (l ++ [x]) (r ++ [x]).

Lemma land_1 x : Z.land x 1 = x mod 2.
Proof. exact (Z.land_ones x 1 ltac:(lia)). Qed.

Lemma shiftr_succ n k : 0 <= k -> Z.shiftr n (k + 1) = Z.shiftr n k / 2.
Proof.
  intros Hk. rewrite !Z.shiftr_div_pow2, Z.pow_add_r by lia. change (2 ^ 1) with 2.
  rewrite Z.div_div; [reflexivity | apply Z.pow_nonzero; lia | lia].
Qed.

Lemma pow2_succ_nat n : 2 ^ Z.of_nat (S n) = 2 * 2 ^ Z.of_nat n.
Proof. rewrite Nat2Z.inj_succ, Z.pow_succ_r by lia. reflexivity. Qed.

Lemma forest_add l r : forest l r -> forall fuel n k x,
  0 <= k -> Z.shiftr n k = len l -> len l < 2 ^ Z.of_nat fuel ->
  exists r', add_loop DoubleHash fuel n k r x = Ok r' /\ forest (l ++ [x]) r'.
Proof.
  induction 1 as [|l r Hne He Hf IH|l y r He Hf IH]; intros fuel n k x Hk Hn Hfuel.
  - exists [x]. split; [|apply (forest_odd [] x []); [reflexivity | constructor]].
    destruct fuel; cbn [add_loop]; rewrite Hn; reflexivity.
  - exists (r ++ [x]). split; [|now apply forest_odd].
    destruct fuel; cbn [add_loop]; rewrite Hn, land_1, He; reflexivity.
  - rewrite len_app, len_cons, len_nil in *. pose proof (len_nonneg l).
    assert (Ho : (len l + (1 + 0)) mod 2 = 1) by (Z.to_euclidean_division_equations; lia).
    destruct fuel as [|fuel]; [change (2 ^ Z.of_nat 0) with 1 in Hfuel; lia|].
    cbn [add_loop]. rewrite Hn, land_1, Ho. change (1 =? 1) with true. cbn iota.
    replace (len (r ++ [y]) - 1) with (len r) by (rewrite len_app, len_cons, len_nil; lia).
    rewrite get_at_mid. cbn [obind]. rewrite slice_prefix. cbn [obind].
    rewrite pow2_succ_nat in Hfuel.
    destruct (IH fuel n (k + 1) (branch y x)) as (r' & E & Hf').
    + lia.
    + rewrite shiftr_succ, Hn, pairs_len by lia. Z.to_euclidean_division_equations; lia.
    + rewrite pairs_len. Z.to_euclidean_division_equations; lia.
    + exists r'. split; [exact E|]. rewrite <- app_assoc. cbn [app].
      apply forest_even; [now destruct l | rewrite len_app, !len_cons, len_nil; Z.to_euclidean_division_equations; lia |].
      now rewrite pairs_app.
Qed.

Lemma forest_nonempty l r : forest l r -> l <> [] -> r <> [].
Proof.
  induction 1 as [|l r Hne He Hf IH|l y r He Hf IH]; intros Hl; [congruence| |now destruct r].
  apply IH. intros E. apply (f_equal len) in E. rewrite pairs_len, len_nil in E.
  destruct l as [|a [|b l]]; [congruence | discriminate |].
  rewrite !len_cons in E. pose proof (len_nonneg l). Z.to_euclidean_division_equations; lia.
Qed.

Lemma forest_nil_inv r : forest [] r -> r = [].
Proof.
  intros Hf. remember [] as l eqn:El. destruct Hf as [|l r Hne|l x r He Hf]; [reflexivity | congruence|].
  now destruct l.
Qed.

(** A single root is the root of the whole tree. *)
Lemma forest_single l r x : forest l r -> r = [x] -> merkleRoot l = x.
Proof.
  induction 1 as [|l r Hne He Hf IH|l y r He Hf IH]; intros E; [discriminate| |].
  - rewrite merkleRoot_next, next_row_even; auto.
    destruct l as [|a [|b l]]; [congruence | discriminate |].
    rewrite !len_cons. pose proof (len_nonneg l). lia.
  - destruct r as [|z r]; [|destruct r; discriminate]. injection E as ->.
    destruct l as [|a l]; [reflexivity|].
    exfalso. refine (forest_nonempty _ _ Hf _ eq_refl). now destruct l.
Qed.

Lemma rs_add_spec l r x :
  forest l r -> len l < 2 ^ 64 - 1 ->
  exists r', rs_add DoubleHash (mkRolling r (len l)) x = Ok (mkRolling r' (len (l ++ [x]))) /\
    forest (l ++ [x]) r'.
Proof.
  intros Hf Hl. pose proof (len_nonneg l).
  destruct (forest_add l r Hf 64 (len l) 0 x) as (r' & E & Hf');
    [lia | apply Z.shiftr_0_r | change (Z.of_nat 64) with 64; lia |].
  exists r'. split; [|exact Hf']. unfold rs_add. cbn [rs_roots rs_numLeaves].
  rewrite E. cbn [obind]. rewrite u64_id by (unfold is_u64; lia).
  now rewrite len_app, len_cons, len_nil.
Qed.

Lemma add_all_spec adds : forall l r,
  forest l r -> len l + len adds < 2 ^ 64 ->
  exists r', add_all DoubleHash (mkRolling r (len l)) adds = Ok (mkRolling r' (len (l ++ adds))) /\
    forest (l ++ adds) r'.
Proof.
  induction adds as [|x adds IH]; intros l r Hf Hl; cbn [add_all].
  - exists r. rewrite app_nil_r. auto.
  - rewrite len_cons in Hl. pose proof (len_nonneg adds).
    destruct (rs_add_spec l r x Hf ltac:(lia)) as (r1 & E1 & Hf1). rewrite E1. cbn [obind].
    destruct (IH (l ++ [x]) r1 Hf1) as (r' & E' & Hf'); [rewrite len_app, len_cons, len_nil; lia|].
    exists r'. rewrite <- app_assoc in *. auto.
Qed.

(** Going up to a row with an odd number of nodes keeps the roots. *)
Lemma shift_loop_spec l r : forest l r -> forall fuel cur k,
  l <> [] -> 0 <= k -> Z.shiftr cur k = len l -> len l < 2 ^ Z.of_nat fuel ->
  exists l0 y r0, shift_loop fuel cur k (len l) = Ok (len (l0 ++ [y])) /\
    r = r0 ++ [y] /\ forest (l0 ++ [y]) r /\ len l0 mod 2 = 0 /\ forest (pairs l0) r0 /\
    merkleRoot (l0 ++ [y]) = merkleRoot l /\
    len (l0 ++ [y]) <= len l /\ (len l mod 2 = 0 -> len (l0 ++ [y]) <= len l / 2).
Proof.
  induction 1 as [|l r Hne He Hf IH|l y r He Hf IH]; intros fuel cur k Hl Hk Hc Hfuel; [congruence| |].
  - assert (H2 : 2 <= len l).
    { destruct l as [|a [|b l]]; [congruence | discriminate |].
      rewrite !len_cons. pose proof (len_nonneg l). lia. }
    destruct fuel as [|fuel]; [change (2 ^ Z.of_nat 0) with 1 in Hfuel; lia|].
    cbn [shift_loop]. rewrite Hc, land_1, He. change (0 =? 0) with true. cbn iota.
    rewrite pow2_succ_nat in Hfuel.
    replace (Z.shiftr (len l) 1) with (len (pairs l)) by (rewrite pairs_len, Z.shiftr_div_pow2 by lia; reflexivity).
    destruct (IH fuel cur (k + 1)) as (l0 & y & r0 & E & Er & Hf' & He' & Hf0 & Hm & Hle & _).
    + intros E. apply (f_equal len) in E. rewrite pairs_len, len_nil in E. Z.to_euclidean_division_equations; lia.
    + lia.
    + rewrite shiftr_succ, Hc, pairs_len by lia. reflexivity.
    + rewrite pairs_len. Z.to_euclidean_division_equations; lia.
    + exists l0, y, r0. rewrite pairs_len in Hle. rewrite (merkleRoot_next l), next_row_even by assumption.
      repeat split; auto. Z.to_euclidean_division_equations; lia.
  - exists l, y, r. assert (Ho : len (l ++ [y]) mod 2 = 1).
    { rewrite len_app, len_cons, len_nil. Z.to_euclidean_division_equations; lia. }
    split; [destruct fuel; cbn [shift_loop]; rewrite Hc, land_1, Ho; reflexivity|].
    repeat split; auto; [now apply forest_odd | lia | lia].
Qed.

Lemma merkleRoot_repeat l y :
  len l mod 2 = 0 -> l <> [] -> merkleRoot (l ++ [y; y]) = merkleRoot (l ++ [y]).
Proof.
  intros He Hl. assert (1 <= len l).
  { destruct l; [congruence|]. rewrite len_cons. pose proof (len_nonneg l0). lia. }
  rewrite (merkleRoot_next (l ++ [y])), next_row_repeat, <- merkleRoot_next; auto;
    rewrite len_app, !len_cons, len_nil; lia.
Qed.

Lemma rows_loop_spec fuel : forall l r,
  forest l r -> l <> [] -> len l mod 2 = 0 \/ len l = 1 -> len l <= 2 ^ Z.of_nat fuel ->
  len l < 2 ^ 64 ->
  rows_loop DoubleHash fuel (mkRolling r (len l)) = Ok (merkleRoot l).
Proof.
  induction fuel as [|fuel IH]; intros l r Hf Hne Hpar Hfuel Hl; cbn [rows_loop rs_roots rs_numLeaves];
    pose proof (forest_nonempty l r Hf Hne) as Hr;
    (destruct r as [|x [|x2 r2]]; [congruence | now rewrite (forest_single l [x] x Hf eq_refl) |]);
    (replace (1 <? len (x :: x2 :: r2)) with true by
       (symmetry; apply Z.ltb_lt; rewrite !len_cons; pose proof (len_nonneg r2); lia));
    destruct (shift_loop_spec l _ Hf 64 (len l) 0 Hne ltac:(lia) (Z.shiftr_0_r _) Hl)
      as (l0 & y & r0 & E & Er & Hf' & He & Hf0 & Hm & Hle & Hhalf);
    (assert (H2 : 2 <= len l0);
      [destruct l0 as [|a [|b l0]];
        [apply forest_nil_inv in Hf0; subst r0; discriminate Er | discriminate He | rewrite !len_cons; pose proof (len_nonneg l0); lia]|]).
  - change (2 ^ Z.of_nat 0) with 1 in Hfuel. rewrite len_app, len_cons, len_nil in Hle. lia.
  - rewrite E. cbn [obind]. rewrite Er. rewrite (get_at_eq r0 y [])
      by (rewrite len_app, len_cons, len_nil; lia). cbn [obind]. rewrite <- Er.
    rewrite len_app, len_cons, len_nil in Hle.
    destruct Hpar as [Hev|]; [|lia]. specialize (Hhalf Hev).
    rewrite len_app, len_cons, len_nil in Hhalf. rewrite pow2_succ_nat in Hfuel.
    assert (Hd : 2 * (len l / 2) <= len l) by (apply Z.mul_div_le; lia).
    destruct (rs_add_spec (l0 ++ [y]) _ y Hf') as (r' & E' & Hf2);
      [rewrite len_app, len_cons, len_nil; lia|].
    rewrite E'. cbn [obind].
    assert (Hl2 : len ((l0 ++ [y]) ++ [y]) = len l0 + 2) by (rewrite !len_app, !len_cons, !len_nil; lia).
    assert (He2 : (len l0 + 2) mod 2 = 0) by (rewrite <- He; exact (Z.mod_add (len l0) 1 2 ltac:(lia))).
    assert (Hx : len l0 = 2 * (len l0 / 2)) by (apply Z.div_exact; lia).
    etransitivity; [apply IH|].
    + exact Hf2.
    + destruct l0; discriminate.
    + left. now rewrite Hl2.
    + rewrite Hl2. destruct fuel as [|fuel]; [change (2 ^ Z.of_nat 0) with 1 in *; lia|].
      rewrite pow2_succ_nat in *. lia.
    + rewrite Hl2. lia.
    + rewrite <- app_assoc. cbn [app]. rewrite merkleRoot_repeat, Hm; [reflexivity | exact He | destruct l0; [rewrite len_nil in H2; lia | discriminate]].
Qed.

(** ** Lemmas: the rolling root of the transactions *)

Lemma leafHashes_app w a : forall i b,
  leafHashes DoubleHash w i (a ++ b) =
    leafHashes DoubleHash w i a ++ leafHashes DoubleHash w (i + List.length a) b.
Proof.
  induction a as [|x a IH]; intros i b; cbn [leafHashes app List.length]; [now rewrite Nat.add_0_r|].
  rewrite IH. do 3 f_equal. lia.
Qed.

Lemma leafHashes_len w txs : forall i, len (leafHashes DoubleHash w i txs) = len txs.
Proof. induction txs as [|x txs IH]; intros i; cbn [leafHashes]; rewrite ?len_cons, ?IH; reflexivity. Qed.

Lemma CalcMerkleRoot_eq txs w :
  txs <> [] -> len txs < 2 ^ 63 ->
  CalcMerkleRoot DoubleHash txs w = Ok (merkleRoot (leafHashes DoubleHash w 0 txs)).
Proof.
  intros Hne Hl. unfold CalcMerkleRoot, calcMerkleRoot. set (leaves := leafHashes DoubleHash w 0 txs).
  assert (Hll : len leaves = len txs) by apply leafHashes_len.
  assert (Hlne : leaves <> []) by (destruct txs; [congruence | discriminate]).
  destruct (add_all_spec leaves [] [] forest_nil) as (r & E & Hf); [rewrite len_nil; lia|].
  change (mkRolling [] (len [])) with newRollingMerkleTreeStore in E. rewrite E. cbn [obind app] in *.
  cbn [rs_numLeaves rs_roots]. pose proof (forest_nonempty leaves r Hf Hlne) as Hr.
  destruct (Z.eqb_spec (len leaves) 1) as [E1|E1].
  - assert (Hrow : rows_loop DoubleHash 0 (mkRolling r (len leaves)) = Ok (merkleRoot leaves))
      by (apply rows_loop_spec; auto; rewrite E1; change (2 ^ Z.of_nat 0) with 1; lia).
    cbn [rows_loop rs_roots] in Hrow. now destruct (1 <? len r).
  - destruct (exists_last Hne) as (txs0 & tx & Etx). rewrite Hll in *.
    pose proof (len_nonneg txs). rewrite Z.rem_mod_nonneg by lia.
    assert (Hpos : 0 < len txs) by (destruct txs; [congruence|]; rewrite len_cons; pose proof (len_nonneg txs); lia).
    rewrite (proj2 (Z.ltb_lt _ _)) by exact Hpos. cbn [andb].
    destruct (Z.eqb_spec (len txs mod 2) 0) as [Ev|Od]; cbn [negb obind].
    + rewrite <- Hll. apply rows_loop_spec; auto; rewrite Hll; [now left | change (Z.of_nat 64) with 64; lia | lia].
    + rewrite Etx at 1. rewrite (get_at_eq txs0 tx [])
        by (rewrite Etx, len_app, len_cons, len_nil; lia). cbn [obind].
      assert (Hlt : 1 <= len txs0).
      { rewrite Etx, len_app, len_cons, len_nil in E1, Hpos. lia. }
      set (y := if w then _ else _).
      assert (Hleaves : leaves = leafHashes DoubleHash w 0 txs0 ++ [y]).
      { subst leaves y. rewrite Etx, leafHashes_app. f_equal. cbn [leafHashes].
        destruct txs0; [rewrite len_nil in Hlt; lia|]. now destruct w. }
      rewrite <- Hll. destruct (rs_add_spec leaves r y Hf ltac:(lia)) as (r' & -> & Hf'). cbn [obind].
      assert (Ev0 : len (leafHashes DoubleHash w 0 txs0) mod 2 = 0).
      { rewrite leafHashes_len. rewrite Etx, len_app, len_cons, len_nil in Od.
        Z.to_euclidean_division_equations; lia. }
      assert (Hl2 : len (leaves ++ [y]) = len txs0 + 2).
      { rewrite Hleaves, !len_app, leafHashes_len, !len_cons, len_nil. lia. }
      rewrite rows_loop_spec; auto.
      * rewrite Hleaves, <- app_assoc. cbn [app]. f_equal. apply merkleRoot_repeat; [exact Ev0|].
        destruct txs0; [rewrite len_nil in Hlt; lia | discriminate].
      * destruct leaves; discriminate.
      * left. rewrite Hl2. rewrite leafHashes_len in Ev0. rewrite <- Ev0. exact (Z.mod_add (len txs0) 1 2 ltac:(lia)).
      * rewrite Hl2. rewrite Etx, len_app, len_cons, len_nil in Hl. change (Z.of_nat 64) with 64. lia.
      * rewrite Hl2. rewrite Etx, len_app, len_cons, len_nil in Hl. lia.
Qed.

(** ** Lemmas: the linear array *)

Abbreviation parentOf := (parentHash DoubleHash).

(** The row above a row of the array. *)
Fixpoint prow (l : list (option hash)) : list (option hash) :=
  match l with
  | a :: b :: l' => parentOf a b :: prow l'
  | _ => []
  end.

(** The rows of a tree with [2 ^ k] leaves, one after the other. *)
Fixpoint levels (k : nat) (row : list (option hash)) : list (option hash) :=
  match k with
  | O => row
  | S k' => row ++ levels k' (prow row)
  end.

Definition pad (n : nat) (l : list hash) : list (option hash) :=
  map Some l ++ repeat None (n - List.length l).

(** The loop takes nodes in pairs from the front of a queue and puts their
    parents at its end. *)
Fixpoint queue_run (m : nat) (q : list (option hash)) : list (option hash) :=
  match m, q with
  | S m', a :: b :: q' => a :: b :: queue_run m' (q' ++ [parentOf a b])
  | _, _ => q
  end.

Lemma build_loop_queue m : forall fuel a q,
  (m <= fuel)%nat -> List.length q = S m ->
  build_loop DoubleHash fuel (a ++ q ++ repeat None m) (len a) (len a + len q) = Ok (a ++ queue_run m q).
Proof.
  induction m as [|m IH]; intros fuel a q Hf Hq.
  - assert (Hstop : (len a <? len (a ++ q ++ repeat None 0) - 1) = false).
    { apply Z.ltb_ge. rewrite !len_app. cbn [repeat]. rewrite len_nil. unfold len. lia. }
    destruct fuel; cbn [build_loop queue_run]; rewrite Hstop; cbn [repeat]; now rewrite app_nil_r.
  - destruct fuel as [|fuel]; [lia|]. destruct q as [|x [|y q]]; try discriminate.
    assert (Hgo : (len a <? len (a ++ (x :: y :: q) ++ repeat None (S m)) - 1) = true).
    { apply Z.ltb_lt. rewrite !len_app, !len_cons. pose proof (len_nonneg q).
      pose proof (len_nonneg (repeat (@None hash) (S m))). lia. }
    cbn [build_loop]. rewrite Hgo. cbn [app]. rewrite get_at_mid. cbn [obind].
    assert (Hr : match x with None => Ok None | Some _ => get_at (E := unit) (a ++ x :: y :: q ++ repeat None (S m)) (len a + 1) end
                 = Ok (match x with None => None | Some _ => y end)).
    { destruct x as [hx|]; [|reflexivity].
      change (a ++ Some hx :: y :: q ++ repeat None (S m)) with (a ++ [Some hx] ++ y :: q ++ repeat None (S m)).
      rewrite app_assoc. apply get_at_eq. rewrite len_app, len_cons, len_nil. lia. }
    rewrite Hr. cbn [obind repeat].
    replace (a ++ x :: y :: q ++ None :: repeat None m) with ((a ++ x :: y :: q) ++ None :: repeat None m)
      by (now rewrite <- app_assoc).
    rewrite set_at_eq by (rewrite len_app; reflexivity). cbn [obind queue_run].
    replace ((a ++ x :: y :: q) ++ parentOf x (match x with None => None | Some _ => y end) :: repeat None m)
      with ((a ++ [x; y]) ++ (q ++ [parentOf x y]) ++ repeat None m)
      by (rewrite <- !app_assoc; cbn [app]; now destruct x).
    replace (len a + 2) with (len (a ++ [x; y])) by (rewrite len_app, !len_cons, len_nil; lia).
    replace (len a + len (x :: y :: q) + 1) with (len (a ++ [x; y]) + len (q ++ [parentOf x y]))
      by (rewrite !len_app, !len_cons, len_nil; lia).
    rewrite IH; [now rewrite <- app_assoc | lia | rewrite length_app; cbn [List.length] in *; lia].
Qed.

Lemma queue_run_row row : forall n m done,
  List.length row = (2 * n)%nat ->
  queue_run (n + m) (row ++ done) = row ++ queue_run m (done ++ prow row).
Proof.
  induction row as [|a|a b row IH] using list_ind2; intros n m done Hl.
  - assert (n = O) as -> by (cbn in Hl; lia). cbn [app prow Nat.add]. now rewrite app_nil_r.
  - cbn in Hl. lia.
  - destruct n as [|n]; [discriminate|]. cbn [Nat.add app queue_run prow]. rewrite <- app_assoc.
    rewrite IH by (cbn in Hl; lia). now rewrite <- app_assoc.
Qed.

Lemma prow_length row : forall n, List.length row = (2 * n)%nat -> List.length (prow row) = n.
Proof.
  induction row as [|a|a b row IH] using list_ind2; intros n Hl; cbn in Hl; [cbn; lia | lia |].
  destruct n as [|n]; [lia|]. cbn [prow List.length]. rewrite (IH n); lia.
Qed.

Lemma queue_run_levels k : forall row,
  List.length row = (2 ^ k)%nat -> queue_run (2 ^ k - 1) row = levels k row.
Proof.
  induction k as [|k IH]; intros row Hl; [reflexivity|]. cbn [Nat.pow] in *. cbn [levels].
  assert (0 < 2 ^ k)%nat by (apply Nat.neq_0_lt_0, Nat.pow_nonzero; lia).
  replace (2 * 2 ^ k - 1)%nat with (2 ^ k + (2 ^ k - 1))%nat by lia.
  pose proof (queue_run_row row (2 ^ k) (2 ^ k - 1) [] ltac:(lia)) as Hq. rewrite app_nil_r in Hq.
  rewrite Hq. cbn [app]. rewrite IH; [reflexivity | apply prow_length; lia].
Qed.

Lemma prow_repeat n : prow (repeat None (2 * n)) = repeat None n.
Proof.
  induction n as [|n IH]; [reflexivity|]. replace (2 * S n)%nat with (S (S (2 * n))) by lia.
  cbn [repeat prow]. now rewrite IH.
Qed.

Lemma prow_pad l : forall n,
  (List.length l <= 2 * n)%nat -> prow (pad (2 * n) l) = pad n (next_row l).
Proof.
  induction l as [|a|a b l IH] using list_ind2; intros n Hl; unfold pad in *; cbn [map List.length next_row app] in *.
  - rewrite !Nat.sub_0_r. apply prow_repeat.
  - destruct n as [|n]; [lia|]. replace (2 * S n - 1)%nat with (S (2 * n)) by lia.
    cbn [repeat prow]. rewrite prow_repeat. do 3 f_equal. lia.
  - destruct n as [|n]; [lia|]. cbn [prow].
    replace (2 * S n - S (S (List.length l)))%nat with (2 * n - List.length l)%nat by lia.
    rewrite IH by lia. reflexivity.
Qed.

Lemma nextPowerOfTwo_eq n : 1 <= n -> nextPowerOfTwo n = 2 ^ treeRows n.
Proof.
  intros Hn. pose proof (Z.log2_nonneg n) as Hk. pose proof (Z.log2_spec n ltac:(lia)) as [L1 L2].
  rewrite <- Z.add_1_r, Z.pow_add_r in L2 by lia. change (2 ^ 1) with 2 in L2.
  unfold nextPowerOfTwo. destruct (Z.eqb_spec (Z.land n (n - 1)) 0) as [E|E].
  - assert (Hp : n = 2 ^ Z.log2 n).
    { destruct (Z.eq_dec n (2 ^ Z.log2 n)) as [|Hne]; [assumption|]. exfalso.
      apply (f_equal (fun z => Z.testbit z (Z.log2 n))) in E. rewrite Z.land_spec, Z.bits_0 in E.
      rewrite !(testbit_top (Z.log2 n)) in E by (rewrite ?Z.pow_add_r; lia).
      rewrite !(proj2 (Z.leb_le _ _)) in E by lia. discriminate. }
    rewrite (treeRows_unique n (Z.log2 n)) by lia. exact Hp.
  - assert (Hne : n <> 2 ^ Z.log2 n).
    { intros Hp. apply E. rewrite Z.land_comm. rewrite Hp at 2.
      replace (n - 1) with (Z.ones (Z.log2 n)) by (rewrite Z.ones_equiv; lia).
      rewrite Z.land_comm, Z.land_ones by lia. apply Z.mod_same. lia. }
    rewrite (treeRows_unique n (Z.log2 n + 1)), Z.shiftl_1_l by (rewrite ?Z.pow_add_r; lia). reflexivity.
Qed.

Lemma pow2_nat k : Z.of_nat (2 ^ k) = 2 ^ Z.of_nat k.
Proof. now rewrite Nat2Z.inj_pow. Qed.

(** The number of rows above the leaves. *)
Definition depth (leaves : list hash) : nat := Z.to_nat (treeRows (len leaves)).

Lemma depth_spec leaves : leaves <> [] -> (List.length leaves <= 2 ^ depth leaves)%nat.
Proof.
  intros Hne. unfold depth. assert (Hl : 1 <= len leaves).
  { destruct leaves; [congruence|]. rewrite len_cons. pose proof (len_nonneg leaves). lia. }
  destruct (treeRows_spec _ Hl) as (H0 & H1 & _). apply Nat2Z.inj_le.
  rewrite pow2_nat, Z2Nat.id by assumption. exact H1.
Qed.

Lemma pad_length n l : (List.length l <= n)%nat -> List.length (pad n l) = n.
Proof. intros Hl. unfold pad. rewrite length_app, length_map, repeat_length. lia. Qed.

Lemma buildStore_eq leaves :
  leaves <> [] -> buildStore DoubleHash leaves = Ok (levels (depth leaves) (pad (2 ^ depth leaves) leaves)).
Proof.
  intros Hne. pose proof (depth_spec leaves Hne) as Hd. unfold buildStore.
  assert (Hl : 1 <= len leaves).
  { destruct leaves; [congruence|]. rewrite len_cons. pose proof (len_nonneg leaves). lia. }
  destruct (treeRows_spec _ Hl) as (H0 & H1 & _).
  assert (Hp : nextPowerOfTwo (len leaves) = Z.of_nat (2 ^ depth leaves)).
  { rewrite nextPowerOfTwo_eq, pow2_nat by assumption. unfold depth. now rewrite Z2Nat.id. }
  rewrite Hp in *. set (k := depth leaves) in *. set (m := (2 ^ k)%nat) in *.
  rewrite (proj2 (Z.ltb_ge _ _)) by (unfold len in Hl; lia).
  pose proof (build_loop_queue (m - 1) (Z.to_nat (Z.of_nat m * 2 - 1)) [] (pad m leaves)) as Hq.
  assert (Hpl : len (pad m leaves) = Z.of_nat m) by (unfold len; now rewrite pad_length).
  rewrite Hpl, pad_length in Hq by assumption. cbn [app] in Hq.
  change (len [] + Z.of_nat m) with (Z.of_nat m) in Hq. change (@len (option hash) []) with 0 in Hq.
  replace (map Some leaves ++ repeat None (Z.to_nat (Z.of_nat m * 2 - 1 - len leaves)))
    with (pad m leaves ++ repeat None (m - 1)).
  - rewrite Hq by (unfold len in Hl; lia). f_equal. apply queue_run_levels. now apply pad_length.
  - unfold pad. rewrite <- app_assoc, <- repeat_app. do 2 f_equal. unfold len in *. lia.
Qed.

Lemma next_row_length l : (List.length (next_row l) <= (List.length l + 1) / 2)%nat.
Proof.
  pose proof (next_row_len l) as Hl. unfold len in Hl. apply Nat2Z.inj_le. rewrite Nat2Z.inj_div.
  rewrite Hl, Nat2Z.inj_add. reflexivity.
Qed.

Lemma iter_prow_pad k l j :
  (List.length l <= 2 ^ k)%nat -> (j <= k)%nat ->
  Nat.iter j prow (pad (2 ^ k) l) = pad (2 ^ (k - j)) (Nat.iter j next_row l) /\
  (List.length (Nat.iter j next_row l) <= 2 ^ (k - j))%nat.
Proof.
  intros Hl. induction j as [|j IH]; intros Hj; [rewrite Nat.sub_0_r; auto|].
  destruct (IH ltac:(lia)) as [E Hle]. cbn [Nat.iter nat_rect].
  replace (k - j)%nat with (S (k - S j)) in * by lia. rewrite Nat.pow_succ_r' in *.
  split; [|pose proof (next_row_length (Nat.iter j next_row l)) as Hn].
  - change (prow (Nat.iter j prow (pad (2 ^ k) l)) = pad (2 ^ (k - S j)) (next_row (Nat.iter j next_row l))).
    rewrite E. now apply prow_pad.
  - change (List.length (next_row (Nat.iter j next_row l)) <= 2 ^ (k - S j))%nat.
    etransitivity; [exact Hn|]. apply Nat.lt_succ_r, Nat.Div0.div_lt_upper_bound. lia.
Qed.

Lemma iter_next_row_nonempty j l : l <> [] -> Nat.iter j next_row l <> [].
Proof.
  intros Hl. induction j as [|j IH]; [exact Hl|]. cbn [Nat.iter nat_rect]. fold (Nat.iter j next_row l).
  destruct (Nat.iter j next_row l) as [|a [|b t]]; [congruence | discriminate | discriminate].
Qed.

(** The last row is the root. *)
Lemma top_row leaves :
  leaves <> [] ->
  Nat.iter (depth leaves) prow (pad (2 ^ depth leaves) leaves) = [Some (merkleRoot leaves)].
Proof.
  intros Hne. destruct (iter_prow_pad (depth leaves) leaves (depth leaves) (depth_spec _ Hne) (Nat.le_refl _))
    as [E Hl]. rewrite E, Nat.sub_diag in *. unfold merkleRoot. fold (depth leaves).
  pose proof (iter_next_row_nonempty (depth leaves) leaves Hne) as Hn.
  destruct (Nat.iter (depth leaves) next_row leaves) as [|x [|y t]]; [congruence | reflexivity | cbn in Hl; lia].
Qed.

Lemma levels_last k : forall row d,
  List.length row = (2 ^ k)%nat ->
  List.length (levels k row) = (2 * 2 ^ k - 1)%nat /\
  last (levels k row) d = hd d (Nat.iter k prow row).
Proof.
  induction k as [|k IH]; intros row d Hl.
  - destruct row as [|x [|y t]]; try discriminate. auto.
  - rewrite Nat.pow_succ_r' in *. destruct (IH (prow row) d) as [I1 I2]; [now apply prow_length|].
    assert (0 < 2 ^ k)%nat by (apply Nat.neq_0_lt_0, Nat.pow_nonzero; lia).
    cbn [levels]. rewrite length_app, I1, Hl. split; [lia|].
    rewrite Nat.iter_succ_r, <- I2. apply last_app_nonempty.
    intros E. rewrite E in I1. cbn [List.length] in I1. lia.
Qed.

(** Where row [j] starts in the array. *)
Definition rowStart (k j : nat) : nat := 2 * 2 ^ k - 2 * 2 ^ (k - j).

Lemma levels_nth k : forall row j q,
  List.length row = (2 ^ k)%nat -> (j <= k)%nat -> (q < 2 ^ (k - j))%nat ->
  nth_error (levels k row) (rowStart k j + q) = nth_error (Nat.iter j prow row) q.
Proof.
  induction k as [|k IH]; intros row j q Hl Hj Hq; unfold rowStart.
  - assert (j = O) as -> by lia. reflexivity.
  - assert (0 < 2 ^ k)%nat by (apply Nat.neq_0_lt_0, Nat.pow_nonzero; lia). cbn [levels].
    destruct j as [|j].
    + rewrite Nat.sub_0_r in Hq |- *. rewrite Nat.sub_diag.
      change (Nat.iter 0 prow row) with row. apply nth_error_app1. now rewrite Hl.
    + cbn [Nat.sub] in *. rewrite Nat.pow_succ_r' in *.
      assert (2 ^ (k - j) <= 2 ^ k)%nat by (apply Nat.pow_le_mono_r; lia).
      rewrite nth_error_app2, Hl, Nat.iter_succ_r by lia.
      rewrite <- (IH (prow row) j q); [|now apply prow_length | lia | exact Hq].
      unfold rowStart. f_equal. lia.
Qed.

Lemma sibling_even m : sibling (2 * m) = 2 * m + 1.
Proof.
  unfold sibling. symmetry. apply Z.add_nocarry_lxor. rewrite land_1, Z.mul_comm. apply Z.mod_mul. lia.
Qed.
Lemma sibling_odd m : sibling (2 * m + 1) = 2 * m.
Proof.
  rewrite <- (sibling_even m). unfold sibling. now rewrite Z.lxor_assoc, Z.lxor_nilpotent, Z.lxor_0_r.
Qed.

Lemma rowStart_even k j : (j <= k)%nat -> Z.of_nat (rowStart k j) = 2 * (2 ^ Z.of_nat k - 2 ^ Z.of_nat (k - j)).
Proof.
  intros Hj. unfold rowStart. assert (2 ^ (k - j) <= 2 ^ k)%nat by (apply Nat.pow_le_mono_r; lia).
  rewrite <- !pow2_nat. lia.
Qed.

Lemma parent_row k j q :
  (j < k)%nat -> (q < 2 ^ (k - j))%nat ->
  parent (Z.of_nat (rowStart k j + q)) (Z.of_nat k) = Z.of_nat (rowStart k (S j)) + Z.of_nat q / 2.
Proof.
  intros Hj Hq. unfold parent. rewrite Nat2Z.inj_add, !rowStart_even by lia.
  rewrite Z.lor_comm, Z.shiftr_div_pow2 by lia. change (2 ^ 1) with 2.
  assert (Hpow : 2 ^ Z.of_nat (k - j) = 2 * 2 ^ Z.of_nat (k - S j)).
  { replace (k - j)%nat with (S (k - S j)) by lia. apply pow2_succ_nat. }
  assert (Hle : 2 ^ Z.of_nat (k - j) <= 2 ^ Z.of_nat k) by (apply Z.pow_le_mono_r; lia).
  assert (Hqz : Z.of_nat q < 2 ^ Z.of_nat (k - j)) by (rewrite <- pow2_nat; lia).
  assert (Hdiv : (2 * (2 ^ Z.of_nat k - 2 ^ Z.of_nat (k - j)) + Z.of_nat q) / 2 =
                 2 ^ Z.of_nat k - 2 ^ Z.of_nat (k - j) + Z.of_nat q / 2).
  { rewrite Z.add_comm, Z.mul_comm, Z.div_add by lia. lia. }
  rewrite Hdiv. assert (0 <= Z.of_nat q / 2 < 2 ^ Z.of_nat (k - j)).
  { split; [apply Z.div_pos; lia | apply Z.div_lt_upper_bound; lia]. }
  rewrite lor_shiftl_add by lia. lia.
Qed.

(** The node above a node and its neighbour. *)
Lemma next_row_nth row : forall m,
  (2 * m < List.length row)%nat ->
  exists a, nth_error row (2 * m) = Some a /\
    nth_error (next_row row) m =
      Some (match nth_error row (2 * m + 1) with Some b => branch a b | None => branch a a end).
Proof.
  induction row as [|a|a b row IH] using list_ind2; intros m Hm; cbn [List.length] in Hm; [lia| |].
  - assert (m = O) as -> by lia. exists a. auto.
  - destruct m as [|m]; [exists a; auto|]. destruct (IH m ltac:(lia)) as (x & E1 & E2).
    replace (2 * S m)%nat with (S (S (2 * m))) by lia. exists x. auto.
Qed.

Lemma nth_error_pad n l i :
  (List.length l <= n)%nat -> (i < n)%nat -> nth_error (pad n l) i = Some (nth_error l i).
Proof.
  intros Hl Hi. unfold pad. destruct (Nat.lt_ge_cases i (List.length l)) as [Hlt|Hge].
  - rewrite nth_error_app1, nth_error_map by (rewrite length_map; lia).
    destruct (nth_error l i) eqn:E; [reflexivity|]. apply nth_error_None in E. lia.
  - rewrite nth_error_app2, length_map, nth_error_repeat by (rewrite ?length_map; lia).
    now rewrite (proj2 (nth_error_None l i)) by lia.
Qed.

Section Branch.
Context (leaves : list hash) (leaves_nonempty : leaves <> []).
Let k := depth leaves.
Let merkles := levels k (pad (2 ^ k) leaves).
Let row j := Nat.iter j next_row leaves.

Lemma row_length j : (j <= k)%nat -> (List.length (row j) <= 2 ^ (k - j))%nat.
Proof. intros Hj. now apply iter_prow_pad; [apply depth_spec|]. Qed.

Lemma merkles_at j q :
  (j <= k)%nat -> (q < 2 ^ (k - j))%nat ->
  get_at (E := unit) merkles (Z.of_nat (rowStart k j + q)) = Ok (nth_error (row j) q).
Proof.
  intros Hj Hq. pose proof (depth_spec leaves leaves_nonempty) as Hd. fold k in Hd.
  unfold get_at. rewrite (proj2 (Z.leb_le _ _)), Nat2Z.id by lia. unfold merkles.
  rewrite levels_nth by (auto; now apply pad_length).
  destruct (iter_prow_pad k leaves j Hd Hj) as [-> Hl]. now rewrite nth_error_pad.
Qed.

(** One step of the two loops: the hash taken from the array makes the parent. *)
Lemma branch_step j q v :
  (j < k)%nat -> nth_error (row j) q = Some v ->
  let pos := Z.of_nat (rowStart k j + q) in
  exists w v', (let* m := get_at (E := unit) merkles (sibling pos) in
                match m with None => get_at merkles (sibling (sibling pos)) | Some _ => Ok m end) = Ok (Some w) /\
    parent (sibling pos) (Z.of_nat k) = Z.of_nat (rowStart k (S j) + q / 2) /\
    nth_error (row (S j)) (q / 2) = Some v' /\
    v' = if isLeftNode (Z.of_nat q) then branch v w else branch w v.
Proof.
  intros Hj Hv pos. pose proof (row_length j ltac:(lia)) as Hl.
  assert (Hq : (q < List.length (row j))%nat) by (apply nth_error_Some; congruence).
  assert (Hpow : (2 ^ (k - j) = 2 * 2 ^ (k - S j))%nat)
    by (replace (k - j)%nat with (S (k - S j)) by lia; apply Nat.pow_succ_r').
  unfold isLeftNode. rewrite land_1.
  destruct (Nat.Even_or_Odd q) as [[m ->]|[m ->]].
  - assert (Hpos : pos = 2 * (2 ^ Z.of_nat k - 2 ^ Z.of_nat (k - j) + Z.of_nat m))
      by (unfold pos; rewrite Nat2Z.inj_add, rowStart_even by lia; lia).
    assert (Hs : sibling pos = Z.of_nat (rowStart k j + (2 * m + 1))).
    { rewrite Hpos, sibling_even, Nat2Z.inj_add, rowStart_even by lia. lia. }
    assert (Hss : sibling (sibling pos) = pos) by (rewrite Hpos, sibling_even; apply sibling_odd).
    rewrite Hss, Hs, merkles_at by lia. cbn [obind].
    destruct (next_row_nth (row j) m Hq) as (a & Ea & En). assert (a = v) by congruence. subst a.
    rewrite parent_row by lia. rewrite (Nat.mul_comm 2), Nat.div_mul by lia.
    assert (Hd : Z.of_nat (rowStart k (S j)) + Z.of_nat (m * 2 + 1) / 2 = Z.of_nat (rowStart k (S j) + m)).
    { rewrite Nat2Z.inj_add. f_equal. Z.to_euclidean_division_equations; lia. }
    replace (Z.of_nat (m * 2) mod 2 =? 0) with true
      by (symmetry; apply Z.eqb_eq; Z.to_euclidean_division_equations; lia).
    rewrite (Nat.mul_comm 2) in *. rewrite Hd.
    destruct (nth_error (row j) (m * 2 + 1)) as [w|].
    + exists w, (branch v w). repeat split. exact En.
    + exists v, (branch v v). unfold pos. rewrite merkles_at, (Nat.mul_comm 2 m), Hv by lia.
      repeat split. exact En.
  - assert (Hpos : pos = 2 * (2 ^ Z.of_nat k - 2 ^ Z.of_nat (k - j) + Z.of_nat m) + 1)
      by (unfold pos; rewrite Nat2Z.inj_add, rowStart_even by lia; lia).
    assert (Hs : sibling pos = Z.of_nat (rowStart k j + 2 * m)).
    { rewrite Hpos, sibling_odd, Nat2Z.inj_add, rowStart_even by lia. lia. }
    destruct (next_row_nth (row j) m ltac:(lia)) as (a & Ea & En). rewrite Hv in En.
    rewrite Hs, merkles_at, Ea by lia. cbn [obind]. exists a, (branch a v). rewrite parent_row by lia.
    assert (Hm : ((2 * m + 1) / 2 = m)%nat).
    { symmetry. apply (Nat.div_unique _ _ _ 1); lia. }
    rewrite Hm. repeat split.
    + rewrite Nat2Z.inj_add. f_equal. Z.to_euclidean_division_equations; lia.
    + exact En.
    + replace (Z.of_nat (2 * m + 1) mod 2 =? 0) with false; [reflexivity|].
      symmetry. apply Z.eqb_neq. Z.to_euclidean_division_equations; lia.
Qed.

Lemma branch_loop_spec rows : forall j q v,
  (j + rows = k)%nat -> nth_error (row j) q = Some v ->
  exists brs, branch_loop rows merkles (sibling (Z.of_nat (rowStart k j + q))) (Z.of_nat k) = Ok brs /\
    forall pos, Z.shiftr pos (Z.of_nat j) = Z.of_nat q ->
      root_loop DoubleHash brs (Z.of_nat j) v pos = merkleRoot leaves.
Proof.
  induction rows as [|rows IH]; intros j q v Hj Hv.
  - exists []. split; [reflexivity|]. intros pos _. cbn [root_loop].
    assert (j = k) by lia. subst j. pose proof (top_row leaves leaves_nonempty) as Ht.
    destruct (iter_prow_pad k leaves k (depth_spec _ leaves_nonempty) (Nat.le_refl _)) as [E Hl].
    fold k in Ht. rewrite E in Ht. fold (row k) in *. rewrite Nat.sub_diag in *.
    destruct (row k) as [|x [|y t]]; [destruct q; discriminate| |cbn in Hl; lia].
    injection Ht as <-. destruct q as [|[|q]]; cbn in Hv; congruence.
  - destruct (branch_step j q v ltac:(lia) Hv) as (w & v' & Eg & Ep & Ev & Hv').
    destruct (IH (S j) (q / 2)%nat v' ltac:(lia) Ev) as (brs & Eb & Hb).
    exists (Some w :: brs). cbn [branch_loop]. split.
    + destruct (get_at merkles (sibling _)) as [m| |]; cbn [obind] in *; try discriminate.
      rewrite Eg. cbn [obind]. rewrite Ep, Eb. reflexivity.
    + intros pos Hpos. cbn [root_loop]. rewrite Hpos, <- Hv'.
      replace (Z.of_nat j + 1) with (Z.of_nat (S j)) by lia. apply Hb.
      replace (Z.of_nat (S j)) with (Z.of_nat j + 1) by lia.
      rewrite shiftr_succ, Hpos, Nat2Z.inj_div by lia. reflexivity.
Qed.

Lemma find_leaf_spec txHash n : forall i,
  (i + n = 2 ^ k)%nat -> In txHash (skipn i leaves) ->
  exists idx, find_leaf merkles n (Z.of_nat i) txHash = Ok (Some (Z.of_nat idx)) /\
    nth_error leaves idx = Some txHash.
Proof.
  pose proof (depth_spec leaves leaves_nonempty) as Hd. fold k in Hd.
  induction n as [|n IH]; intros i Hi Hin.
  - rewrite skipn_all2 in Hin by lia. destruct Hin.
  - cbn [find_leaf]. assert (Hlt : (i < List.length leaves)%nat).
    { destruct (Nat.lt_ge_cases i (List.length leaves)); [assumption|]. rewrite skipn_all2 in Hin by lia. destruct Hin. }
    pose proof (merkles_at 0 i ltac:(lia)) as Hg. rewrite Nat.sub_0_r in Hg.
    unfold rowStart in Hg. rewrite Nat.sub_0_r, Nat.sub_diag in Hg. cbn [Nat.add] in Hg. rewrite Hg by lia.
    change (row 0) with leaves. cbn [obind].
    destruct (nth_error leaves i) as [x|] eqn:Ex; [|apply nth_error_None in Ex; lia].
    destruct (bytes_eqb x txHash) eqn:Eb.
    + apply bytes_eqb_eq in Eb. subst x. exists i. auto.
    + replace (Z.of_nat i + 1) with (Z.of_nat (S i)) by lia. apply IH; [lia|].
      rewrite (skipn_cons_nth_error leaves i x Ex) in Hin. destruct Hin as [->|Hin]; [|exact Hin].
      rewrite (proj2 (bytes_eqb_eq txHash txHash) eq_refl) in Eb. discriminate.
Qed.

Lemma find_leaf_missing txHash n : forall i,
  (i + n = 2 ^ k)%nat -> (i <= List.length leaves < 2 ^ k)%nat -> ~ In txHash (skipn i leaves) ->
  find_leaf merkles n (Z.of_nat i) txHash = Panic.
Proof.
  induction n as [|n IH]; intros i Hi Hl Hin; [lia|]. cbn [find_leaf].
  pose proof (merkles_at 0 i ltac:(lia)) as Hg. rewrite Nat.sub_0_r in Hg.
  unfold rowStart in Hg. rewrite Nat.sub_0_r, Nat.sub_diag in Hg. cbn [Nat.add] in Hg. rewrite Hg by lia.
  change (row 0) with leaves. cbn [obind].
  destruct (nth_error leaves i) as [x|] eqn:Ex; [|reflexivity].
  assert (i < List.length leaves)%nat by (apply nth_error_Some; congruence).
  rewrite (skipn_cons_nth_error leaves i x Ex) in Hin.
  destruct (bytes_eqb x txHash) eqn:Eb; [apply bytes_eqb_eq in Eb; subst x; exfalso; apply Hin; now left|].
  replace (Z.of_nat i + 1) with (Z.of_nat (S i)) by lia. apply IH; [lia | lia |].
  intros H1. apply Hin. now right.
Qed.
End Branch.
End Rows.

(** ** Properties *)

(** C27: for every nonempty list of transactions the linear array of
    BuildMerkleTreeStore and the rolling store of CalcMerkleRoot both return without
    a panic and give the same root, the one obtained by hashing the row of the
    leaves pairwise, the odd one with itself, until one is left. *)
Theorem merkle_roots_agree DoubleHash txs witness :
  txs <> [] -> len txs < 2 ^ 63 ->
  let leaves := leafHashes DoubleHash witness 0 txs in
  exists merkles, BuildMerkleTreeStore DoubleHash txs witness = Ok merkles /\
    firstn (List.length txs) merkles = map Some leaves /\
    last merkles None = Some (merkleRoot DoubleHash leaves) /\
    CalcMerkleRoot DoubleHash txs witness = Ok (merkleRoot DoubleHash leaves).
Proof.
  intros Hne Hl leaves. assert (Hlne : leaves <> []) by (destruct txs; [congruence | discriminate]).
  exists (levels DoubleHash (depth leaves) (pad (2 ^ depth leaves) leaves)).
  split; [now apply buildStore_eq|]. pose proof (depth_spec leaves Hlne) as Hd.
  destruct (levels_last DoubleHash (depth leaves) (pad (2 ^ depth leaves) leaves) None) as [_ HL];
    [now apply pad_length|].
  split; [|split; [|now apply CalcMerkleRoot_eq]].
  - assert (Hlen : List.length txs = List.length (map Some leaves)).
    { rewrite length_map. pose proof (leafHashes_len DoubleHash witness txs 0) as E. fold leaves in E. unfold len in E. lia. }
    rewrite Hlen. destruct (depth leaves); cbn [levels]; unfold pad;
      rewrite <- ?app_assoc, firstn_app, firstn_all, Nat.sub_diag, firstn_O, app_nil_r; reflexivity.
  - rewrite HL, top_row by assumption. reflexivity.
Qed.

(** C37: for every transaction of a block, ExtractMerkleBranch finds a branch in the
    array of BuildMerkleTreeStore, and HashMerkleRoot of the branch at the position
    of the transaction is the merkle root. *)
Theorem merkle_branch_proves DoubleHash txs witness txHash :
  let leaves := leafHashes DoubleHash witness 0 txs in
  In txHash leaves ->
  exists merkles branch idx,
    BuildMerkleTreeStore DoubleHash txs witness = Ok merkles /\
    ExtractMerkleBranch merkles txHash = Ok branch /\
    nth_error leaves idx = Some txHash /\
    HashMerkleRoot DoubleHash branch txHash (Z.of_nat idx) = merkleRoot DoubleHash leaves.
Proof.
  intros leaves Hin. assert (Hne : leaves <> []) by (intros E; rewrite E in Hin; destruct Hin).
  pose proof (depth_spec leaves Hne) as Hd. set (k := depth leaves) in *.
  destruct (levels_last DoubleHash k (pad (2 ^ k) leaves) None) as [HL _]; [now apply pad_length|].
  destruct (find_leaf_spec DoubleHash leaves Hne txHash (2 ^ k) 0 eq_refl Hin) as (idx & Ef & En).
  destruct (branch_loop_spec DoubleHash leaves Hne k 0 idx txHash (eq_refl k) En) as (brs & Eb & Hb).
  exists (levels DoubleHash k (pad (2 ^ k) leaves)), brs, idx.
  split; [now apply buildStore_eq|]. split; [|split; [exact En | apply Hb; apply Z.shiftr_0_r]].
  assert (Hnum : (len (levels DoubleHash k (pad (2 ^ k) leaves)) + 1) / 2 = Z.of_nat (2 ^ k)).
  { unfold len. rewrite HL. assert (0 < 2 ^ k)%nat by (apply Nat.neq_0_lt_0, Nat.pow_nonzero; lia).
    Z.to_euclidean_division_equations; lia. }
  assert (Hrows : treeRows (Z.of_nat (2 ^ k)) = Z.of_nat k).
  { rewrite pow2_nat. assert (0 < 2 ^ Z.of_nat k) by (apply Z.pow_pos_nonneg; lia).
    apply treeRows_unique; lia. }
  unfold ExtractMerkleBranch. rewrite Hnum, Nat2Z.id. fold k in Ef. change (Z.of_nat 0) with 0 in Ef.
  rewrite Ef. cbn [obind]. rewrite Hrows, Nat2Z.id.
  unfold rowStart in Eb. rewrite Nat.sub_0_r in Eb. fold k in Eb. rewrite Nat.sub_diag in Eb. exact Eb.
Qed.

(** The search of ExtractMerkleBranch reaches the nil leaves that pad the tree
    when the hash is not there, and dereferences them. *)
Theorem ExtractMerkleBranch_missing_panics DoubleHash leaves txHash :
  leaves <> [] -> (List.length leaves < 2 ^ depth leaves)%nat -> ~ In txHash leaves ->
  exists merkles, buildStore DoubleHash leaves = Ok merkles /\ ExtractMerkleBranch merkles txHash = Panic.
Proof.
  intros Hne Hlt Hin. eexists. split; [now apply buildStore_eq|].
  pose proof (depth_spec leaves Hne) as Hd. set (k := depth leaves) in *.
  destruct (levels_last DoubleHash k (pad (2 ^ k) leaves) None) as [HL _]; [now apply pad_length|].
  assert (Hnum : (len (levels DoubleHash k (pad (2 ^ k) leaves)) + 1) / 2 = Z.of_nat (2 ^ k)).
  { unfold len. rewrite HL. Z.to_euclidean_division_equations; lia. }
  unfold ExtractMerkleBranch. rewrite Hnum, Nat2Z.id.
  change 0 with (Z.of_nat 0). unfold k.
  rewrite (find_leaf_missing DoubleHash leaves Hne txHash (2 ^ depth leaves) 0);
    [reflexivity | reflexivity | fold k; lia | exact Hin].
Qed.

(** What a block has to satisfy: no witnesses at all, or a commitment to them
    in the coinbase. *)
Definition witnessCommitted (DoubleHash : list Z -> hash) (txs : list MsgTx) : Prop :=
  match txs with
  | [] => False
  | coinbase :: _ =>
      match tx_TxIn coinbase, ExtractWitnessCommitment coinbase with
      | [], _ => False
      | _ :: _, None => Forall (fun tx => HasWitness tx = false) txs
      | ti :: _, Some commitment =>
          exists nonce, wit_items (ti_Witness ti) = [nonce] /\ len nonce = 32 /\
            commitment = DoubleHash (merkleRoot DoubleHash (leafHashes DoubleHash true 0 txs) ++ nonce)
      end
  end.

Lemma no_witness txs : existsb HasWitness txs = false <-> Forall (fun tx => HasWitness tx = false) txs.
Proof.
  induction txs as [|tx txs IH]; cbn [existsb]; [split; auto|].
  rewrite orb_false_iff, IH. split; [intros [H1 H2]; auto | intros H; inversion H; auto].
Qed.

(** ValidateWitnessCommitment never panics and accepts exactly the blocks whose
    coinbase commits, in the last matching output, to the hash of the witness merkle
    root and the only 32 byte item of the coinbase witness, and the blocks that have
    no commitment and no witness. *)
Theorem ValidateWitnessCommitment_correct DoubleHash txs :
  len txs < 2 ^ 63 ->
  ValidateWitnessCommitment DoubleHash txs <> Panic /\
  (ValidateWitnessCommitment DoubleHash txs = Ok tt <-> witnessCommitted DoubleHash txs).
Proof.
  intros Hl. unfold ValidateWitnessCommitment, witnessCommitted.
  destruct txs as [|coinbase rest]; [split; [discriminate|]; split; [discriminate | contradiction]|].
  destruct (tx_TxIn coinbase) as [|ti ins]; [split; [discriminate|]; split; [discriminate | contradiction]|].
  destruct (ExtractWitnessCommitment coinbase) as [commitment|].
  - rewrite CalcMerkleRoot_eq by (auto; discriminate).
    destruct (wit_items (ti_Witness ti)) as [|nonce [|? ?]];
      try (split; [discriminate|]; split; [discriminate | intros (? & ? & _); discriminate]).
    unfold CoinbaseWitnessDataLen. destruct (Z.eqb_spec (len nonce) 32) as [E|E]; cbn [negb].
    + destruct (bytes_eqb _ commitment) eqn:Eb; (split; [discriminate|]).
      * apply bytes_eqb_eq in Eb. split; [|reflexivity]. intros _. exists nonce. auto.
      * split; [discriminate|]. intros (n & En & _ & Ec). injection En as <-.
        rewrite (proj2 (bytes_eqb_eq _ _)) in Eb; [discriminate | congruence].
    + split; [discriminate|]. split; [discriminate|]. intros (n & En & Hn & _). injection En as <-. congruence.
  - rewrite <- no_witness.
    destruct (existsb HasWitness (coinbase :: rest)); (split; [discriminate|]); split; congruence.
Qed.

(** ** Witnesses *)

Definition toyHash (l : list Z) : hash := [fold_left (fun n b => (n * 31 + b + 7) mod 65536) l 1].
Definition sample_txs : list MsgTx := [sample_tx; AddTxOut sample_tx (mkTxOut 1 []); NewMsgTx 1].

Lemma merkle_roots_agree_witness :
  exists merkles, BuildMerkleTreeStore toyHash sample_txs false = Ok merkles /\
    CalcMerkleRoot toyHash sample_txs false = Ok (merkleRoot toyHash (leafHashes toyHash false 0 sample_txs)).
Proof.
  destruct (merkle_roots_agree toyHash sample_txs false) as (m & E & _ & _ & R);
    [discriminate | vm_compute; reflexivity |].
  exists m. split; [exact E | exact R].
Defined.

Lemma merkle_branch_proves_witness :
  exists merkles branch idx,
    BuildMerkleTreeStore toyHash sample_txs false = Ok merkles /\
    ExtractMerkleBranch merkles (TxHash toyHash (NewMsgTx 1)) = Ok branch /\
    HashMerkleRoot toyHash branch (TxHash toyHash (NewMsgTx 1)) (Z.of_nat idx) =
      merkleRoot toyHash (leafHashes toyHash false 0 sample_txs).
Proof.
  destruct (merkle_branch_proves toyHash sample_txs false (TxHash toyHash (NewMsgTx 1)))
    as (m & b & i & E1 & E2 & _ & E3); [right; right; left; reflexivity|].
  exists m, b, i. split; [exact E1|]. split; [exact E2 | exact E3].
Defined.

Lemma ValidateWitnessCommitment_correct_witness :
  ValidateWitnessCommitment toyHash [NewMsgTx 1] <> Panic /\
  (ValidateWitnessCommitment toyHash [NewMsgTx 1] = Ok tt <-> witnessCommitted toyHash [NewMsgTx 1]).
Proof. apply (ValidateWitnessCommitment_correct toyHash [NewMsgTx 1]). vm_compute. reflexivity. Defined.
