(* ===== verification/Compress.v ===== *)
(** * Compressed transaction outputs (blockchain/compress.go)

    Variable length quantities, the compression of standard scripts and of
    amounts, and the encoding of a transaction output in the utxo set. *)

From Stdlib Require Import String ZArith List Lia Bool.
From S2P Require Import Prelude Opcodes GoSlice.
Import ListNotations.
Local Open Scope string_scope.
Local Open Scope list_scope.
Local Open Scope Z_scope.
Local Open Scope go_scope.

(** errDeserialize of blockchain/chainio.go. *)
Inductive derr : Type := errDeserialize (str : string).

(** ** Variable length quantities

    A 64-bit value takes at most ten groups of seven bits: [vlqFuel] iterations
    are enough for the loops on the value ([vlq_size_bound]). *)

Definition vlqFuel : nat := 10.

Fixpoint serializeSizeVLQ_loop (fuel : nat) (n size : Z) : Z :=
  match fuel with
  | O => size
  | S fuel' =>
      if 0x7f <? n then serializeSizeVLQ_loop fuel' (u64 (Z.shiftr n 7 - 1)) (size + 1) else size
  end.
Definition serializeSizeVLQ (n : Z) : Z := serializeSizeVLQ_loop vlqFuel n 1.

(** The first loop of putVLQ writes the groups, least significant first. *)
Fixpoint putVLQ_loop (fuel : nat) (target : list Z) (offset n : Z) : outcome derr (list Z * Z) :=
  match fuel with
  | O => Panic
  | S fuel' =>
      let highBitMask := if offset =? 0 then 0x00 else 0x80 in
      let* target := set_at target offset (Z.lor (Z.land n 0x7f) highBitMask) in
      if n <=? 0x7f then Ok (target, offset)
      else putVLQ_loop fuel' target (offset + 1) (u64 (Z.shiftr n 7 - 1))
  end.

(** The second one swaps them end to end. *)
Fixpoint reverse_loop (fuel : nat) (target : list Z) (i j : Z) : outcome derr (list Z) :=
  match fuel with
  | O => Ok target
  | S fuel' =>
      if i <? j then
        let* ti := get_at target i in
        let* tj := get_at target j in
        let* target := set_at target i tj in
        let* target := set_at target j ti in
        reverse_loop fuel' target (i + 1) (j - 1)
      else Ok target
  end.

Definition putVLQ (target : list Z) (n : Z) : outcome derr (list Z * Z) :=
  let* (target, offset) := putVLQ_loop vlqFuel target 0 n in
  let* target := reverse_loop vlqFuel target 0 offset in
  Ok (target, offset + 1).

Fixpoint deserializeVLQ_loop (serialized : list Z) (n size : Z) : Z * Z :=
  match serialized with
  | [] => (n, size)
  | val :: rest =>
      let n := Z.lor (u64 (Z.shiftl n 7)) (Z.land val 0x7f) in
      if negb (Z.land val 0x80 =? 0x80) then (n, size + 1)
      else deserializeVLQ_loop rest (u64 (n + 1)) (size + 1)
  end.
Definition deserializeVLQ (serialized : list Z) : Z * Z := deserializeVLQ_loop serialized 0 0.

(** ** Scripts *)

Definition cstPayToPubKeyHash : Z := 0.
Definition cstPayToScriptHash : Z := 1.
Definition cstPayToPubKeyComp2 : Z := 2.
Definition cstPayToPubKeyComp3 : Z := 3.
Definition cstPayToPubKeyUncomp4 : Z := 4.
Definition cstPayToPubKeyUncomp5 : Z := 5.
Definition numSpecialScripts : Z := 6.

Definition isPubKeyHash (script : list Z) : option (list Z) :=
  if (len script =? 25) && (at_ script 0 =? OP_DUP) && (at_ script 1 =? OP_HASH160) &&
     (at_ script 2 =? OP_DATA_20) && (at_ script 23 =? OP_EQUALVERIFY) &&
     (at_ script 24 =? OP_CHECKSIG)
  then Some (sub script 3 23) else None.

Definition isScriptHash (script : list Z) : option (list Z) :=
  if (len script =? 23) && (at_ script 0 =? OP_HASH160) && (at_ script 1 =? OP_DATA_20) &&
     (at_ script 22 =? OP_EQUAL)
  then Some (sub script 2 22) else None.

Section Scripts.
(** Package btcec: public keys, their parsing and their uncompressed form. *)
Context {PubKey : Type} (ParsePubKey : list Z -> option PubKey)
        (SerializeUncompressed : PubKey -> list Z).

Definition parses (s : list Z) : bool :=
  match ParsePubKey s with Some _ => true | None => false end.

Definition isPubKey (script : list Z) : option (list Z) :=
  if (len script =? 35) && (at_ script 0 =? OP_DATA_33) && (at_ script 34 =? OP_CHECKSIG) &&
     ((at_ script 1 =? 0x02) || (at_ script 1 =? 0x03)) && parses (sub script 1 34)
  then Some (sub script 1 34)
  else if (len script =? 67) && (at_ script 0 =? OP_DATA_65) &&
     (at_ script 66 =? OP_CHECKSIG) && (at_ script 1 =? 0x04) && parses (sub script 1 66)
  then Some (sub script 1 66)
  else None.

Definition compressedScriptSize (pkScript : list Z) : Z :=
  match isPubKeyHash pkScript with
  | Some _ => 21
  | None =>
      match isScriptHash pkScript with
      | Some _ => 21
      | None =>
          match isPubKey pkScript with
          | Some _ => 33
          | None => serializeSizeVLQ (u64 (len pkScript + numSpecialScripts)) + len pkScript
          end
      end
  end.

Definition decodeCompressedScriptSize (serialized : list Z) : Z :=
  let (scriptSize, bytesRead) := deserializeVLQ serialized in
  if bytesRead =? 0 then 0
  else if scriptSize =? cstPayToPubKeyHash then 21
  else if scriptSize =? cstPayToScriptHash then 21
  else if (scriptSize =? cstPayToPubKeyComp2) || (scriptSize =? cstPayToPubKeyComp3) ||
          (scriptSize =? cstPayToPubKeyUncomp4) || (scriptSize =? cstPayToPubKeyUncomp5) then 33
  else i64 (u64 (u64 (scriptSize - numSpecialScripts) + bytesRead)).

(** The encoding of a script that is not special. *)
Definition putPlainScript (target pkScript : list Z) : outcome derr (list Z * Z) :=
  let encodedSize := u64 (len pkScript + numSpecialScripts) in
  let* (target, vlqSizeLen) := putVLQ target encodedSize in
  let* target := copy_at target vlqSizeLen pkScript in
  Ok (target, vlqSizeLen + len pkScript).

Definition putCompressedScript (target pkScript : list Z) : outcome derr (list Z * Z) :=
  match isPubKeyHash pkScript with
  | Some hash =>
      let* target := set_at target 0 cstPayToPubKeyHash in
      let* target := copy_into target 1 21 hash in
      Ok (target, 21)
  | None =>
      match isScriptHash pkScript with
      | Some hash =>
          let* target := set_at target 0 cstPayToScriptHash in
          let* target := copy_into target 1 21 hash in
          Ok (target, 21)
      | None =>
          match isPubKey pkScript with
          | Some serializedPubKey =>
              let pubKeyFormat := at_ serializedPubKey 0 in
              if (pubKeyFormat =? 0x02) || (pubKeyFormat =? 0x03) then
                let* target := set_at target 0 pubKeyFormat in
                let* target := copy_into target 1 33 (sub serializedPubKey 1 33) in
                Ok (target, 33)
              else if pubKeyFormat =? 0x04 then
                let* target :=
                  set_at target 0 (Z.lor pubKeyFormat (Z.land (at_ serializedPubKey 64) 0x01)) in
                let* target := copy_into target 1 33 (sub serializedPubKey 1 33) in
                Ok (target, 33)
              else putPlainScript target pkScript
          | None => putPlainScript target pkScript
          end
      end
  end.

(** [None] is the nil script. *)
Definition decompressScript (compressedPkScript : list Z) : outcome derr (option (list Z)) :=
  if len compressedPkScript =? 0 then Ok None
  else
    let (encodedScriptSize, bytesRead) := deserializeVLQ compressedPkScript in
    if encodedScriptSize =? cstPayToPubKeyHash then
      let* hash := slice compressedPkScript bytesRead (bytesRead + 20) in
      Ok (Some ([OP_DUP; OP_HASH160; OP_DATA_20] ++ hash ++ [OP_EQUALVERIFY; OP_CHECKSIG]))
    else if encodedScriptSize =? cstPayToScriptHash then
      let* hash := slice compressedPkScript bytesRead (bytesRead + 20) in
      Ok (Some ([OP_HASH160; OP_DATA_20] ++ hash ++ [OP_EQUAL]))
    else if (encodedScriptSize =? cstPayToPubKeyComp2) || (encodedScriptSize =? cstPayToPubKeyComp3)
    then
      let* x := slice compressedPkScript bytesRead (bytesRead + 32) in
      Ok (Some ([OP_DATA_33; u8 encodedScriptSize] ++ x ++ [OP_CHECKSIG]))
    else if (encodedScriptSize =? cstPayToPubKeyUncomp4) ||
            (encodedScriptSize =? cstPayToPubKeyUncomp5)
    then
      let* x := slice compressedPkScript 1 (len compressedPkScript) in
      let* compressedKey := set_at (repeat 0 33) 0 (u8 (encodedScriptSize - 2)) in
      let* compressedKey := copy_at compressedKey 1 x in
      match ParsePubKey compressedKey with
      | None => Ok None
      | Some key =>
          let* pkScript := set_at (repeat 0 67) 0 OP_DATA_65 in
          let* pkScript := copy_at pkScript 1 (SerializeUncompressed key) in
          let* pkScript := set_at pkScript 66 OP_CHECKSIG in
          Ok (Some pkScript)
      end
    else
      let scriptSize := i64 (u64 (encodedScriptSize - numSpecialScripts)) in
      let* _ := go_make 1 scriptSize in
      let* pkScript := slice compressedPkScript bytesRead (i64 (bytesRead + scriptSize)) in
      Ok (Some pkScript).

(** ** Amounts *)

(** The loop that strips trailing zeroes, at most nine. *)
Fixpoint stripZeroes (fuel : nat) (amount exponent : Z) : Z * Z :=
  match fuel with
  | O => (amount, exponent)
  | S fuel' =>
      if (amount mod 10 =? 0) && (exponent <? 9)
      then stripZeroes fuel' (amount / 10) (exponent + 1)
      else (amount, exponent)
  end.

Definition compressTxOutAmount (amount : Z) : Z :=
  if amount =? 0 then 0
  else
    let (amount, exponent) := stripZeroes 10 amount 0 in
    if exponent <? 9 then
      let lastDigit := amount mod 10 in
      let amount := amount / 10 in
      u64 (1 + u64 (10 * u64 (u64 (9 * amount) + lastDigit - 1)) + exponent)
    else u64 (10 + u64 (10 * u64 (amount - 1))).

Fixpoint applyExponent (exponent : nat) (n : Z) : Z :=
  match exponent with
  | O => n
  | S e => applyExponent e (u64 (n * 10))
  end.

Definition decompressTxOutAmount (amount : Z) : Z :=
  if amount =? 0 then 0
  else
    let amount := amount - 1 in
    let exponent := amount mod 10 in
    let amount := amount / 10 in
    let n :=
      if exponent <? 9 then
        let lastDigit := amount mod 9 + 1 in
        let amount := amount / 9 in
        u64 (u64 (amount * 10) + lastDigit)
      else u64 (amount + 1) in
    applyExponent (Z.to_nat exponent) n.

(** ** Transaction outputs *)

Definition compressedTxOutSize (amount : Z) (pkScript : list Z) : Z :=
  serializeSizeVLQ (compressTxOutAmount amount) + compressedScriptSize pkScript.

(** [putCompressedScript] writes through the tail of the target. *)
Definition putCompressedTxOut (target : list Z) (amount : Z) (pkScript : list Z)
    : outcome derr (list Z * Z) :=
  let* (target, offset) := putVLQ target (compressTxOutAmount amount) in
  let* tail := slice target offset (len target) in
  let* (tail, n) := putCompressedScript tail pkScript in
  Ok (firstn (Z.to_nat offset) target ++ tail, offset + n).

Definition decodeCompressedTxOut (serialized : list Z)
    : outcome derr (Z * option (list Z) * Z) :=
  let (compressedAmount, bytesRead) := deserializeVLQ serialized in
  if len serialized <=? bytesRead then
    Err (errDeserialize "unexpected end of data after compressed amount")
  else
    let* tail := slice serialized bytesRead (len serialized) in
    let scriptSize := decodeCompressedScriptSize tail in
    if len tail <? scriptSize then
      Err (errDeserialize "unexpected end of data after script size")
    else
      let amount := decompressTxOutAmount compressedAmount in
      let* cs := slice serialized bytesRead (i64 (bytesRead + scriptSize)) in
      let* script := decompressScript cs in
      Ok (amount, script, i64 (bytesRead + scriptSize)).
End Scripts.

(** ** Lemmas: variable length quantities

    [vlq n]: the encoding of [n]; [vlq_lsb] gives its groups from the least
    significant one, every group but the first marked. *)

Fixpoint vlq_lsb (fuel : nat) (n mask : Z) : list Z :=
  match fuel with
  | O => []
  | S fuel' =>
      Z.lor (Z.land n 0x7f) mask ::
      (if n <=? 0x7f then [] else vlq_lsb fuel' (Z.shiftr n 7 - 1) 0x80)
  end.
Definition vlq (n : Z) : list Z := rev (vlq_lsb vlqFuel n 0).

Lemma high_bit b : is_byte b -> (Z.land b 0x80 =? 0x80) = (128 <=? b).
Proof.
  intros H. apply eqb_prop.
  apply (byte_cases (fun b => eqb (Z.land b 0x80 =? 0x80) (128 <=? b))); [reflexivity | assumption].
Qed.

(** One round of the loops on the value. *)
Lemma vlq_step fuel n :
  0x7f < n < 128 ^ Z.of_nat (S fuel) -> is_u64 n ->
  0 <= Z.shiftr n 7 - 1 < 128 ^ Z.of_nat fuel /\ u64 (Z.shiftr n 7 - 1) = Z.shiftr n 7 - 1 /\
  is_u64 (Z.shiftr n 7 - 1).
Proof.
  rewrite Nat2Z.inj_succ, Z.pow_succ_r, Z.shiftr_div_pow2 by lia. change (2 ^ 7) with 128.
  intros Hn Hu. assert (0 <= n / 128 - 1 < 128 ^ Z.of_nat fuel /\ is_u64 (n / 128 - 1)) as [H1 H2].
  { unfold is_u64 in *. Z.to_euclidean_division_equations. lia. }
  split; [exact H1|]. split; [now apply u64_id | exact H2].
Qed.

Lemma pow128_1 n : n < 128 ^ Z.of_nat 1 -> n <= 0x7f.
Proof. change (128 ^ Z.of_nat 1) with 128. lia. Qed.

(** The unfoldings of the three loops. *)
Lemma vlq_lsb_S fuel n mask :
  vlq_lsb (S fuel) n mask =
  Z.lor (Z.land n 0x7f) mask ::
  (if n <=? 0x7f then [] else vlq_lsb fuel (Z.shiftr n 7 - 1) 0x80).
Proof. reflexivity. Qed.

Lemma serializeSizeVLQ_loop_S fuel n size :
  serializeSizeVLQ_loop (S fuel) n size =
  if 0x7f <? n then serializeSizeVLQ_loop fuel (u64 (Z.shiftr n 7 - 1)) (size + 1) else size.
Proof. reflexivity. Qed.

Lemma putVLQ_loop_S fuel target offset n :
  putVLQ_loop (S fuel) target offset n =
  let* target := set_at target offset
    (Z.lor (Z.land n 0x7f) (if offset =? 0 then 0x00 else 0x80)) in
  if n <=? 0x7f then Ok (target, offset)
  else putVLQ_loop fuel target (offset + 1) (u64 (Z.shiftr n 7 - 1)).
Proof. reflexivity. Qed.

Lemma serializeSizeVLQ_loop_len fuel : forall n size mask,
  0 <= n < 128 ^ Z.of_nat (S fuel) -> is_u64 n ->
  serializeSizeVLQ_loop (S fuel) n size = size + len (vlq_lsb (S fuel) n mask) - 1.
Proof.
  induction fuel as [|fuel IH]; intros n size mask Hn Hu;
    rewrite serializeSizeVLQ_loop_S, vlq_lsb_S, len_cons;
    destruct (Z.leb_spec n 0x7f) as [Hle|Hgt].
  1, 3: rewrite (proj2 (Z.ltb_ge 0x7f n)), len_nil by lia; lia.
  - apply proj2, pow128_1 in Hn. lia.
  - rewrite (proj2 (Z.ltb_lt 0x7f n)) by lia.
    destruct (vlq_step (S fuel) n) as (H1 & -> & H2); [lia | assumption |].
    rewrite (IH _ _ 0x80) by assumption. lia.
Qed.

Lemma putVLQ_loop_spec fuel : forall pre old post n,
  let groups := vlq_lsb (S fuel) n (if len pre =? 0 then 0x00 else 0x80) in
  0 <= n < 128 ^ Z.of_nat (S fuel) -> is_u64 n -> len old = len groups ->
  putVLQ_loop (S fuel) (pre ++ old ++ post) (len pre) n =
    Ok (pre ++ groups ++ post, len pre + len groups - 1).
Proof.
  induction fuel as [|fuel IH]; intros pre old post n; cbn zeta;
    rewrite putVLQ_loop_S, vlq_lsb_S, len_cons; intros Hn Hu Hl;
    (destruct old as [|x old];
      [match type of Hl with _ = 1 + len ?X => pose proof (len_nonneg X) end;
       rewrite len_nil in Hl; lia|]);
    rewrite len_cons in Hl; cbn [app]; rewrite set_at_mid; cbn [obind];
    destruct (Z.leb_spec n 0x7f) as [Hle|Hgt].
  1, 3: rewrite len_nil in *; destruct old; [|rewrite len_cons in Hl; pose proof (len_nonneg old); lia];
    cbn [app]; do 2 f_equal; lia.
  - apply proj2, pow128_1 in Hn. lia.
  - destruct (vlq_step (S fuel) n) as (H1 & -> & H2); [lia | assumption |].
    set (b := Z.lor _ _). pose proof (len_nonneg pre).
    assert (Hb : len (pre ++ [b]) = len pre + 1) by (autorewrite with lens; lia).
    specialize (IH (pre ++ [b]) old post (Z.shiftr n 7 - 1)). cbn zeta in IH.
    rewrite Hb, <- app_assoc in IH. replace (len pre + 1 =? 0) with false in IH
      by (symmetry; apply Z.eqb_neq; lia).
    cbn [app] in IH. rewrite IH by (assumption || lia).
    rewrite <- app_assoc. cbn [app]. do 2 f_equal. lia.
Qed.

Lemma snoc_case {A} (l : list A) : l = [] \/ exists l' x, l = l' ++ [x].
Proof. destruct l using rev_ind; eauto. Qed.

Lemma reverse_loop_spec fuel : forall pre mid post,
  len mid <= 2 * Z.of_nat fuel + 1 ->
  reverse_loop fuel (pre ++ mid ++ post) (len pre) (len pre + len mid - 1) =
    Ok (pre ++ rev mid ++ post).
Proof.
  induction fuel as [|fuel IH]; intros pre mid post Hl; cbn [reverse_loop].
  - destruct mid as [|a [|b mid]]; [reflexivity..|].
    rewrite !len_cons in Hl. pose proof (len_nonneg mid). lia.
  - destruct mid as [|a mid].
    { rewrite len_nil. decide_cmp. reflexivity. }
    destruct (snoc_case mid) as [->|(m & b & ->)].
    { change (len [a]) with 1. decide_cmp. reflexivity. }
    rewrite len_cons, len_app in *. change (len [b]) with 1 in *.
    pose proof (len_nonneg m). pose proof (len_nonneg pre). decide_cmp.
    replace (len pre + (1 + (len m + 1)) - 1) with (len (pre ++ a :: m)) by (autorewrite with lens; lia).
    cbn [app]. rewrite get_at_mid. cbn [obind].
    rewrite <- app_assoc. cbn [app]. rewrite app_comm_cons, app_assoc, get_at_mid. cbn [obind].
    rewrite <- app_assoc. cbn [app]. rewrite set_at_mid. cbn [obind].
    rewrite app_comm_cons, app_assoc.
    replace (len (pre ++ a :: m)) with (len (pre ++ b :: m)) by (autorewrite with lens; lia).
    rewrite set_at_mid. cbn [obind].
    specialize (IH (pre ++ [b]) m (a :: post) ltac:(lia)).
    rewrite <- !app_assoc in IH. cbn [app] in IH.
    replace (len pre + 1) with (len (pre ++ [b])) by (autorewrite with lens; lia).
    replace (len (pre ++ b :: m) - 1) with (len (pre ++ [b]) + len m - 1)
      by (autorewrite with lens; lia).
    rewrite <- app_assoc. cbn [app]. rewrite IH. cbn [rev].
    rewrite rev_app_distr, <- !app_assoc. reflexivity.
Qed.

Lemma deserializeVLQ_loop_cons acc b tail size :
  is_byte b -> 0 <= acc -> acc * 128 < 2 ^ 64 ->
  deserializeVLQ_loop (b :: tail) acc size =
    if 128 <=? b then deserializeVLQ_loop tail (u64 (acc * 128 + b mod 128 + 1)) (size + 1)
    else (acc * 128 + b mod 128, size + 1).
Proof.
  intros Hb H0 H1. cbn [deserializeVLQ_loop]. rewrite high_bit by assumption.
  pose proof (Z.mod_pos_bound b 128 ltac:(lia)).
  rewrite u64_id by (rewrite Z.shiftl_mul_pow2 by lia; unfold is_u64; lia).
  rewrite land_7f, lor_shiftl_add by lia. change (2 ^ 7) with 128.
  now destruct (128 <=? b).
Qed.

(** A group as a byte. *)
Lemma group_byte n mask :
  0 <= n -> mask = 0 \/ mask = 0x80 ->
  let b := Z.lor (Z.land n 0x7f) mask in
  b = n mod 128 + mask /\ is_byte b.
Proof.
  intros Hn Hm b. subst b. rewrite land_7f. pose proof (Z.mod_pos_bound n 128 ltac:(lia)).
  destruct Hm as [-> | ->]; [rewrite Z.lor_0_r | rewrite lor_80 by assumption];
    unfold is_byte; lia.
Qed.

Lemma deserialize_masked fuel : forall n tail size,
  0 <= n < 128 ^ Z.of_nat (S fuel) -> n + 1 < 2 ^ 64 ->
  deserializeVLQ_loop (rev (vlq_lsb (S fuel) n 0x80) ++ tail) 0 size =
  deserializeVLQ_loop tail (n + 1) (size + len (vlq_lsb (S fuel) n 0x80)).
Proof.
  induction fuel as [|fuel IH]; intros n tail size Hn Hu;
    rewrite vlq_lsb_S, len_cons; cbn [rev]; rewrite <- app_assoc; cbn [app];
    destruct (group_byte n 0x80 ltac:(lia) ltac:(now right)) as [Hb Hbyte];
    destruct (Z.leb_spec n 0x7f) as [Hle|Hgt].
  1, 3: cbn [rev app]; change (@len Z []) with 0;
    rewrite deserializeVLQ_loop_cons, Hb by (assumption || lia);
    rewrite (Z.mod_small n) by lia; rewrite (proj2 (Z.leb_le _ _)) by lia;
    replace ((n + 128) mod 128) with n by (Z.to_euclidean_division_equations; lia);
    rewrite u64_id by (unfold is_u64; lia); f_equal; lia.
  - apply proj2, pow128_1 in Hn. lia.
  - destruct (vlq_step (S fuel) n) as (H1 & _ & H2); [lia | unfold is_u64; lia |].
    rewrite Z.shiftr_div_pow2 in * by lia. change (2 ^ 7) with 128 in *.
    rewrite IH by (assumption || (Z.to_euclidean_division_equations; lia)).
    rewrite Z.sub_add, deserializeVLQ_loop_cons, Hb
      by (assumption || (Z.to_euclidean_division_equations; lia)).
    pose proof (Z.mod_pos_bound n 128 ltac:(lia)). rewrite (proj2 (Z.leb_le _ _)) by lia.
    replace ((n mod 128 + 128) mod 128) with (n mod 128) by (Z.to_euclidean_division_equations; lia).
    rewrite u64_id by (unfold is_u64; Z.to_euclidean_division_equations; lia).
    f_equal; [Z.to_euclidean_division_equations; lia | lia].
Qed.

Lemma u64_groups n : is_u64 n -> 0 <= n < 128 ^ Z.of_nat 10.
Proof. unfold is_u64. change (128 ^ Z.of_nat 10) with (2 ^ 70). lia. Qed.

Lemma deserializeVLQ_vlq n rest :
  is_u64 n -> deserializeVLQ (vlq n ++ rest) = (n, len (vlq n)).
Proof.
  intros Hu. pose proof (u64_groups n Hu) as Hg. unfold deserializeVLQ, vlq, vlqFuel.
  unfold len. rewrite length_rev. fold (len (vlq_lsb 10 n 0)). rewrite vlq_lsb_S.
  cbn [rev]. rewrite <- app_assoc, len_cons. cbn [app]. unfold is_u64 in Hu.
  destruct (group_byte n 0 ltac:(lia) ltac:(now left)) as [Hb Hbyte].
  pose proof (Z.mod_pos_bound n 128 ltac:(lia)).
  destruct (Z.leb_spec n 0x7f) as [Hle|Hgt].
  - cbn [rev app]. change (@len Z []) with 0.
    rewrite deserializeVLQ_loop_cons, Hb by (assumption || lia).
    rewrite Z.add_0_r, Z.mod_mod, (proj2 (Z.leb_gt _ _)), Z.mod_small by lia. reflexivity.
  - destruct (vlq_step 9 n) as (H1 & _ & H2); [lia | exact Hu |].
    rewrite Z.shiftr_div_pow2 in * by lia. change (2 ^ 7) with 128 in *.
    rewrite (deserialize_masked 8) by (assumption || (Z.to_euclidean_division_equations; lia)).
    rewrite Z.sub_add, deserializeVLQ_loop_cons, Hb
      by (assumption || (Z.to_euclidean_division_equations; lia)).
    rewrite Z.add_0_r, Z.mod_mod, (proj2 (Z.leb_gt _ _)) by lia.
    f_equal; [Z.to_euclidean_division_equations; lia | lia].
Qed.

Lemma vlq_lsb_length fuel : forall n mask, (List.length (vlq_lsb fuel n mask) <= fuel)%nat.
Proof.
  induction fuel as [|fuel IH]; intros n mask; [reflexivity|]. rewrite vlq_lsb_S.
  cbn [List.length]. destruct (n <=? 0x7f); [simpl; lia|]. specialize (IH (Z.shiftr n 7 - 1) 0x80). lia.
Qed.

(** The size of an encoding, between one and ten bytes. *)
Lemma vlq_size_bound n : 1 <= len (vlq n) <= 10.
Proof.
  unfold vlq, vlqFuel, len. rewrite length_rev. pose proof (vlq_lsb_length 10 n 0).
  rewrite vlq_lsb_S in *. cbn [List.length] in *. lia.
Qed.

Lemma serializeSizeVLQ_len n : is_u64 n -> serializeSizeVLQ n = len (vlq n).
Proof.
  intros Hu. unfold serializeSizeVLQ, vlqFuel.
  rewrite (serializeSizeVLQ_loop_len 9 n 1 0) by (auto using u64_groups).
  unfold vlq, vlqFuel, len. rewrite length_rev. lia.
Qed.

Lemma putVLQ_spec old post n :
  is_u64 n -> len old = len (vlq n) ->
  putVLQ (old ++ post) n = Ok (vlq n ++ post, len (vlq n)).
Proof.
  intros Hu Hl. unfold putVLQ. pose proof (vlq_size_bound n) as Hs.
  assert (Hr : len (vlq n) = len (vlq_lsb 10 n 0)) by (unfold vlq, len; now rewrite length_rev).
  pose proof (putVLQ_loop_spec 9 [] old post n) as H. cbn [app] in H. change (len []) with 0 in H.
  cbn [Z.eqb] in H. unfold vlqFuel. rewrite H by (auto using u64_groups; congruence). cbn [obind].
  pose proof (reverse_loop_spec 10 [] (vlq_lsb 10 n 0) post) as R. cbn [app] in R.
  change (len []) with 0 in R. rewrite R by lia. cbn [obind]. rewrite Hr. do 2 f_equal. lia.
Qed.

(** The value of marked groups, most significant first. *)
Fixpoint groups_value (hs : list Z) (acc : Z) : Z :=
  match hs with
  | [] => acc
  | h :: hs' => groups_value hs' (acc * 128 + h mod 128 + 1)
  end.

Lemma groups_value_snoc hs : forall h acc,
  groups_value (hs ++ [h]) acc = groups_value hs acc * 128 + h mod 128 + 1.
Proof. induction hs; intros; simpl; auto. Qed.

Lemma groups_value_bound hs : forall acc, 0 <= acc ->
  0 <= groups_value hs acc <= acc * 128 ^ len hs + 2 * 128 ^ len hs - 2 /\
  (hs <> [] -> 0 < groups_value hs acc).
Proof.
  induction hs as [|h hs IH]; intros acc Ha; cbn [groups_value].
  - change (len []) with 0. rewrite Z.pow_0_r. split; [lia | congruence].
  - pose proof (Z.mod_pos_bound h 128 ltac:(lia)).
    destruct (IH (acc * 128 + h mod 128 + 1)) as [IH1 IH2]; [lia|].
    rewrite len_cons, Z.pow_add_r by (pose proof (len_nonneg hs); lia).
    change (128 ^ 1) with 128. pose proof (Z.pow_pos_nonneg 128 (len hs) ltac:(lia) (len_nonneg hs)).
    split; [nia|]. intros _. destruct hs; [simpl; lia | apply IH2; congruence].
Qed.

Lemma deserializeVLQ_groups hs : forall acc tail size,
  Forall (fun h => 128 <= h < 256) hs -> 0 <= acc ->
  acc * 128 ^ len hs + 2 * 128 ^ len hs < 2 ^ 64 ->
  deserializeVLQ_loop (hs ++ tail) acc size =
  deserializeVLQ_loop tail (groups_value hs acc) (size + len hs).
Proof.
  induction hs as [|h hs IH]; intros acc tail size Hh Ha Hb; cbn [app groups_value].
  - change (len []) with 0. now rewrite Z.add_0_r.
  - inversion_clear Hh as [|? ? H1 H2]. pose proof (Z.mod_pos_bound h 128 ltac:(lia)).
    rewrite len_cons in *. pose proof (len_nonneg hs).
    rewrite Z.pow_add_r in Hb by lia. change (128 ^ 1) with 128 in Hb.
    pose proof (Z.pow_pos_nonneg 128 (len hs) ltac:(lia) ltac:(lia)).
    rewrite deserializeVLQ_loop_cons by (unfold is_byte; nia).
    rewrite (proj2 (Z.leb_le _ _)), u64_id by (unfold is_u64; nia).
    rewrite IH by (assumption || nia). f_equal. lia.
Qed.

Lemma vlq_lsb_groups hs : forall fuel,
  Forall (fun h => 128 <= h < 256) hs -> hs <> [] -> (List.length hs <= fuel)%nat ->
  vlq_lsb fuel (groups_value hs 0 - 1) 0x80 = rev hs.
Proof.
  induction hs as [|h hs IH] using rev_ind; intros fuel Hh Hne Hl; [congruence|].
  rewrite length_app in Hl. cbn [List.length] in Hl.
  destruct fuel as [|fuel]; [lia|]. apply Forall_app in Hh. destruct Hh as [Hhs Hh].
  inversion_clear Hh as [|? ? Hb _]. rewrite rev_app_distr, groups_value_snoc, vlq_lsb_S.
  destruct (groups_value_bound hs 0 ltac:(lia)) as [Hv0 Hv1].
  pose proof (Z.mod_pos_bound h 128 ltac:(lia)).
  destruct (group_byte (groups_value hs 0 * 128 + h mod 128 + 1 - 1) 0x80) as [-> _];
    [lia | now right |].
  cbn [rev app]. f_equal; [Z.to_euclidean_division_equations; lia|].
  destruct hs as [|h0 hs].
  - cbn [groups_value]. decide_cmp. reflexivity.
  - specialize (Hv1 ltac:(congruence)). decide_cmp.
    rewrite Z.shiftr_div_pow2 by lia.
    replace ((groups_value (h0 :: hs) 0 * 128 + h mod 128 + 1 - 1) / 2 ^ 7)
      with (groups_value (h0 :: hs) 0)
      by (change (2 ^ 7) with 128; Z.to_euclidean_division_equations; lia).
    apply IH; [assumption | congruence | lia].
Qed.

Lemma vlq_groups hs b :
  Forall (fun h => 128 <= h < 256) hs -> (List.length hs <= 8)%nat -> 0 <= b < 128 ->
  vlq (groups_value hs 0 * 128 + b) = hs ++ [b].
Proof.
  intros Hh Hl Hb. unfold vlq, vlqFuel. rewrite vlq_lsb_S.
  destruct (groups_value_bound hs 0 ltac:(lia)) as [Hv0 Hv1].
  destruct (group_byte (groups_value hs 0 * 128 + b) 0) as [-> _]; [lia | now left |].
  cbn [rev]. f_equal; [|f_equal; Z.to_euclidean_division_equations; lia].
  destruct hs as [|h hs].
  - cbn [groups_value]. decide_cmp. reflexivity.
  - specialize (Hv1 ltac:(congruence)). decide_cmp. rewrite Z.shiftr_div_pow2 by lia.
    replace ((groups_value (h :: hs) 0 * 128 + b) / 2 ^ 7) with (groups_value (h :: hs) 0)
      by (change (2 ^ 7) with 128; Z.to_euclidean_division_equations; lia).
    rewrite vlq_lsb_groups, rev_involutive by (assumption || congruence || lia). reflexivity.
Qed.

Lemma vlq_small b : 0 <= b < 128 -> vlq b = [b].
Proof. intros H. exact (vlq_groups [] b (Forall_nil _) ltac:(simpl; lia) H). Qed.

(** ** Lemmas: amounts *)

Lemma stripZeroes_spec fuel : forall a e a' e',
  0 < a -> 0 <= e <= 9 -> 9 < e + Z.of_nat fuel -> stripZeroes fuel a e = (a', e') ->
  0 < a' /\ e <= e' <= 9 /\ a = a' * 10 ^ (e' - e) /\ (e' < 9 -> a' mod 10 <> 0).
Proof.
  induction fuel as [|fuel IH]; intros a e a' e' Ha He Hf H; cbn [stripZeroes] in H; [lia|].
  destruct (Z.eqb_spec (a mod 10) 0) as [Hm|Hm], (Z.ltb_spec e 9) as [He9|He9]; cbn [andb] in H.
  - assert (Hd : a = 10 * (a / 10)) by (Z.to_euclidean_division_equations; lia).
    destruct (IH (a / 10) (e + 1) a' e' ltac:(lia) ltac:(lia) ltac:(lia) H) as (H1 & H2 & H3 & H4).
    repeat split; try lia; try assumption.
    replace (e' - e) with (1 + (e' - (e + 1))) by lia.
    rewrite Z.pow_add_r, Z.pow_1_r by lia. lia.
  - injection H as <- <-. rewrite Z.sub_diag, Z.pow_0_r. lia.
  - injection H as <- <-. rewrite Z.sub_diag, Z.pow_0_r. lia.
  - injection H as <- <-. rewrite Z.sub_diag, Z.pow_0_r. lia.
Qed.

Lemma applyExponent_spec e : forall n,
  0 <= n -> n * 10 ^ Z.of_nat e < 2 ^ 64 -> applyExponent e n = n * 10 ^ Z.of_nat e.
Proof.
  induction e as [|e IH]; intros n Hn Hb; cbn [applyExponent].
  - change (10 ^ Z.of_nat 0) with 1. lia.
  - rewrite Nat2Z.inj_succ, Z.pow_succ_r in * by lia.
    pose proof (Z.pow_pos_nonneg 10 (Z.of_nat e) ltac:(lia) ltac:(lia)).
    rewrite u64_id by (unfold is_u64; nia). rewrite IH; [ring | lia | nia].
Qed.

Definition maxAmount : Z := 2 ^ 60.

(** The compressed amount as the comment of the source gives it. *)
Lemma compressTxOutAmount_eq a :
  0 < a <= maxAmount ->
  exists a' e, a = a' * 10 ^ e /\ 0 < a' /\ 0 <= e <= 9 /\
    (e < 9 -> a' mod 10 <> 0) /\
    compressTxOutAmount a =
      (if e <? 9 then 1 + 10 * (9 * (a' / 10) + a' mod 10 - 1) + e else 10 + 10 * (a' - 1)).
Proof.
  unfold maxAmount. intros Ha. unfold compressTxOutAmount. decide_cmp.
  destruct (stripZeroes 10 a 0) as [a' e] eqn:E.
  apply stripZeroes_spec in E; [|lia..]. rewrite Z.sub_0_r in E. destruct E as (H1 & H2 & H3 & H4).
  exists a', e. repeat split; try assumption; try lia.
  pose proof (Z.pow_pos_nonneg 10 e ltac:(lia) ltac:(lia)). assert (a' <= a) by nia.
  pose proof (Z.mod_pos_bound a' 10 ltac:(lia)). pose proof (Z.div_mod a' 10 ltac:(lia)).
  pose proof (Z.div_pos a' 10 ltac:(lia) ltac:(lia)).
  destruct (Z.ltb_spec e 9) as [He|He].
  - specialize (H4 He). rewrite (u64_id (9 * _)), (u64_id (_ - 1)), (u64_id (10 * _)), u64_id;
      unfold is_u64; lia.
  - rewrite (u64_id (a' - 1)), (u64_id (10 * _)), u64_id; unfold is_u64; lia.
Qed.

Lemma amount_decompress_compress a :
  0 <= a <= maxAmount -> decompressTxOutAmount (compressTxOutAmount a) = a.
Proof.
  intros Ha. destruct (Z.eq_dec a 0) as [->|Hne]; [reflexivity|].
  destruct (compressTxOutAmount_eq a ltac:(lia)) as (a' & e & H1 & H2 & H3 & H4 & ->).
  pose proof (Z.pow_pos_nonneg 10 e ltac:(lia) ltac:(lia)).
  pose proof (Z.mod_pos_bound a' 10 ltac:(lia)). pose proof (Z.div_mod a' 10 ltac:(lia)).
  pose proof (Z.div_pos a' 10 ltac:(lia) ltac:(lia)). unfold maxAmount in Ha.
  assert (Hle : a' <= a) by nia.
  assert (Happ : applyExponent (Z.to_nat e) a' = a).
  { rewrite applyExponent_spec, Z2Nat.id; rewrite ?Z2Nat.id; lia. }
  unfold decompressTxOutAmount. destruct (Z.ltb_spec e 9) as [He|He].
  - specialize (H4 He). decide_cmp. set (x := 9 * (a' / 10) + a' mod 10 - 1).
    replace ((1 + 10 * x + e - 1) mod 10) with e by (Z.to_euclidean_division_equations; lia).
    replace ((1 + 10 * x + e - 1) / 10) with x by (Z.to_euclidean_division_equations; lia).
    decide_cmp.
    replace (x mod 9) with (a' mod 10 - 1) by (subst x; Z.to_euclidean_division_equations; lia).
    replace (x / 9) with (a' / 10) by (subst x; Z.to_euclidean_division_equations; lia).
    rewrite (u64_id (_ * 10)), u64_id by (unfold is_u64; lia). rewrite <- Happ. f_equal. lia.
  - assert (e = 9) as -> by lia. decide_cmp.
    replace ((10 + 10 * (a' - 1) - 1) mod 10) with 9 by (Z.to_euclidean_division_equations; lia).
    replace ((10 + 10 * (a' - 1) - 1) / 10) with (a' - 1) by (Z.to_euclidean_division_equations; lia).
    change (9 <? 9) with false. cbn match. rewrite u64_id by (unfold is_u64; lia).
    rewrite <- Happ. f_equal. lia.
Qed.

(** ** Lemmas: scripts *)

Lemma skipn_at s i : (i < List.length s)%nat -> skipn i s = at_ s i :: skipn (S i) s.
Proof.
  revert i; induction s as [|x s IH]; intros [|i] H; simpl in *; try lia; [reflexivity|].
  rewrite IH by lia. reflexivity.
Qed.

Lemma skipn_sub s a b : (a <= b)%nat -> skipn a s = sub s a b ++ skipn b s.
Proof.
  intros H. unfold sub. rewrite <- (firstn_skipn (b - a) (skipn a s)) at 1.
  rewrite skipn_skipn. do 2 f_equal. lia.
Qed.

Lemma sub_length s a b : (a <= b <= List.length s)%nat -> len (sub s a b) = Z.of_nat (b - a).
Proof. intros H. unfold len, sub. rewrite length_firstn, length_skipn. lia. Qed.

Ltac split_guards :=
  repeat match goal with
  | H : _ && _ = true |- _ => apply andb_true_iff in H; destruct H
  | H : (_ =? _) = true |- _ => apply Z.eqb_eq in H
  | H : _ || _ = true |- _ => apply orb_true_iff in H; rewrite !Z.eqb_eq in H
  end.

Lemma isPubKeyHash_shape s h :
  isPubKeyHash s = Some h ->
  s = [OP_DUP; OP_HASH160; OP_DATA_20] ++ h ++ [OP_EQUALVERIFY; OP_CHECKSIG] /\ len h = 20.
Proof.
  unfold isPubKeyHash. destruct (_ && _) eqn:E; [|discriminate]. intros [= <-].
  split_guards. assert (Hl : List.length s = 25%nat) by (unfold len in *; lia).
  split; [|now rewrite sub_length by lia].
  change s with (skipn 0 s) at 1. do 3 rewrite skipn_at by lia.
  rewrite (skipn_sub s 3 23), (skipn_at s 23), (skipn_at s 24), (skipn_all2 s) by lia.
  cbn [app]. congruence.
Qed.

Lemma isScriptHash_shape s h :
  isScriptHash s = Some h ->
  s = [OP_HASH160; OP_DATA_20] ++ h ++ [OP_EQUAL] /\ len h = 20.
Proof.
  unfold isScriptHash. destruct (_ && _) eqn:E; [|discriminate]. intros [= <-].
  split_guards. assert (Hl : List.length s = 23%nat) by (unfold len in *; lia).
  split; [|now rewrite sub_length by lia].
  change s with (skipn 0 s) at 1. do 2 rewrite skipn_at by lia.
  rewrite (skipn_sub s 2 22), (skipn_at s 22), (skipn_all2 s) by lia.
  cbn [app]. congruence.
Qed.

Section ScriptLemmas.
Context {PubKey : Type} (ParsePubKey : list Z -> option PubKey)
        (SerializeUncompressed : PubKey -> list Z).

(** The two shapes of a pay-to-pubkey script that is compressed. *)
Lemma isPubKey_shape s k :
  isPubKey ParsePubKey s = Some k ->
  (exists t x, k = t :: x /\ len x = 32 /\ (t = 2 \/ t = 3) /\
     s = [OP_DATA_33] ++ k ++ [OP_CHECKSIG]) \/
  (len k = 65 /\ at_ k 0 = 4 /\ s = [OP_DATA_65] ++ k ++ [OP_CHECKSIG] /\
   exists key, ParsePubKey k = Some key).
Proof.
  unfold isPubKey. destruct (_ && parses _ _) eqn:E.
  - intros [= <-]. left. split_guards.
    assert (Hl : List.length s = 35%nat) by (unfold len in *; lia).
    exists (at_ s 1), (sub s 2 34).
    assert (Hs : sub s 1 34 = at_ s 1 :: sub s 2 34).
    { unfold sub. now rewrite (skipn_at s 1) by lia. }
    split; [exact Hs|]. split; [now rewrite sub_length by lia|].
    split; [assumption|].
    change s with (skipn 0 s) at 1. rewrite (skipn_at s 0) by lia.
    rewrite (skipn_sub s 1 34), (skipn_at s 34), (skipn_all2 s) by lia.
    cbn [app]. congruence.
  - clear E. destruct (_ && parses _ _) eqn:E; [|discriminate].
    intros [= <-]. right. split_guards.
    assert (Hl : List.length s = 67%nat) by (unfold len in *; lia).
    split; [now rewrite sub_length by lia|]. split.
    { unfold sub. rewrite (skipn_at s 1) by lia. simpl. assumption. }
    split.
    + change s with (skipn 0 s) at 1. rewrite (skipn_at s 0) by lia.
      rewrite (skipn_sub s 1 66), (skipn_at s 66), (skipn_all2 s) by lia.
      cbn [app]. congruence.
    + unfold parses in *. destruct (ParsePubKey (sub s 1 66)); [eauto | discriminate].
Qed.

(** The bytes [putCompressedScript] leaves. *)
Definition compressScript (pkScript : list Z) : list Z :=
  match isPubKeyHash pkScript with
  | Some hash => cstPayToPubKeyHash :: hash
  | None =>
      match isScriptHash pkScript with
      | Some hash => cstPayToScriptHash :: hash
      | None =>
          match isPubKey ParsePubKey pkScript with
          | Some key =>
              (if at_ key 0 =? 4 then 4 + at_ key 64 mod 2 else at_ key 0) :: sub key 1 33
          | None => vlq (len pkScript + numSpecialScripts) ++ pkScript
          end
      end
  end.

Lemma put_special (old post : list Z) (tag : Z) body n :
  len old = n + 1 -> len body = n -> 0 <= n ->
  (let* target := set_at (old ++ post) 0 tag in
   let* target := copy_into target 1 (n + 1) body in
   Ok (target, n + 1)) = @Ok derr _ ((tag :: body) ++ post, n + 1).
Proof.
  intros Ho Hb Hn. destruct old as [|x old]; [rewrite len_nil in Ho; lia|].
  rewrite len_cons in Ho. pose proof (@set_at_mid derr Z [] x (old ++ post) tag) as Hset.
  change (len []) with 0 in Hset. cbn [app] in *. rewrite Hset. cbn [obind].
  pose proof (@copy_into_mid derr Z [tag] old post body ltac:(lia)) as H.
  change (len [tag]) with 1 in H. replace (1 + len old) with (n + 1) in H by lia.
  cbn [app] in H. now rewrite H.
Qed.

Definition maxScript : Z := 2 ^ 47.

Lemma put_plain old post s :
  len s <= maxScript -> len old = len (vlq (len s + numSpecialScripts) ++ s) ->
  putPlainScript (old ++ post) s =
    Ok ((vlq (len s + numSpecialScripts) ++ s) ++ post, len (vlq (len s + numSpecialScripts) ++ s)).
Proof.
  unfold maxScript, putPlainScript, numSpecialScripts. intros Hs Ho. pose proof (len_nonneg s).
  assert (Hu : is_u64 (len s + 6)) by (unfold is_u64; lia).
  rewrite (u64_id (len s + 6)) by assumption. rewrite len_app in Ho.
  set (v := vlq (len s + 6)) in *. pose proof (len_nonneg v).
  rewrite <- (firstn_skipn (Z.to_nat (len v)) old), <- app_assoc.
  assert (Hf : len (firstn (Z.to_nat (len v)) old) = len v) by (apply len_firstn; lia).
  assert (Hk : len (skipn (Z.to_nat (len v)) old) = len s).
  { pose proof (f_equal len (firstn_skipn (Z.to_nat (len v)) old)) as E.
    rewrite len_app, Hf in E. lia. }
  rewrite putVLQ_spec by assumption. cbn [obind].
  rewrite copy_at_mid by assumption. cbn [obind]. now rewrite len_app, <- app_assoc.
Qed.

Lemma at_cons0 x l : at_ (x :: l) 0 = x.
Proof. reflexivity. Qed.

Lemma putCompressedScript_spec old post s :
  len s <= maxScript -> len old = len (compressScript s) ->
  putCompressedScript ParsePubKey (old ++ post) s =
    Ok (compressScript s ++ post, len (compressScript s)) /\
  compressedScriptSize ParsePubKey s = len (compressScript s).
Proof.
  intros Hs. unfold putCompressedScript, compressedScriptSize, compressScript.
  destruct (isPubKeyHash s) as [h|] eqn:E1; [|destruct (isScriptHash s) as [h|] eqn:E2;
    [|destruct (isPubKey ParsePubKey s) as [k|] eqn:E3]].
  - apply isPubKeyHash_shape in E1. destruct E1 as [_ Hh]. rewrite len_cons, Hh. intros Ho.
    split; [exact (put_special old post _ h 20 Ho Hh ltac:(lia)) | reflexivity].
  - apply isScriptHash_shape in E2. destruct E2 as [_ Hh]. rewrite len_cons, Hh. intros Ho.
    split; [exact (put_special old post _ h 20 Ho Hh ltac:(lia)) | reflexivity].
  - apply isPubKey_shape in E3.
    assert (Hx : len (sub k 1 33) = 32).
    { apply sub_length. destruct E3 as [(t & x & -> & Hx & _) | (Hk & _)];
        unfold len in *; cbn [List.length]; lia. }
    rewrite len_cons, Hx. intros Ho. split; [|reflexivity].
    destruct E3 as [(t & x & -> & Hl & [H1|H1] & Hsx) | (Hk & Hk0 & Hsx & _)];
      rewrite ?at_cons0 in *; rewrite ?H1, ?Hk0.
    1, 2: exact (put_special old post _ _ 32 Ho Hx ltac:(lia)).
    cbn [Z.eqb orb]. change (Z.land (at_ k 64) 1) with (Z.land (at_ k 64) (Z.ones 1)).
    rewrite Z.land_ones by lia. change (2 ^ 1) with 2.
    replace (Z.lor 4 (at_ k 64 mod 2)) with (4 + at_ k 64 mod 2).
    + exact (put_special old post _ _ 32 Ho Hx ltac:(lia)).
    + pose proof (Z.mod_pos_bound (at_ k 64) 2 ltac:(lia)).
      assert (Hc : at_ k 64 mod 2 = 0 \/ at_ k 64 mod 2 = 1) by lia.
      destruct Hc as [-> | ->]; reflexivity.
  - intros Ho. split; [now apply put_plain|]. pose proof (len_nonneg s).
    unfold maxScript, numSpecialScripts in *.
    rewrite u64_id, serializeSizeVLQ_len, len_app by (unfold is_u64; lia). reflexivity.
Qed.
(** What btcec documents of uncompressed keys: a key parsed from its uncompressed
    form serializes back to it, and the X coordinate with the parity of Y is the
    compressed form of the same key. *)
Definition pubkey_forms : Prop := forall k key,
  len k = 65 -> at_ k 0 = 4 -> ParsePubKey k = Some key ->
  SerializeUncompressed key = k /\
  ParsePubKey ((2 + at_ k 64 mod 2) :: sub k 1 33) = Some key.

Lemma decode_tag tag rest : 0 <= tag < 128 -> deserializeVLQ (tag :: rest) = (tag, 1).
Proof.
  intros H. pose proof (deserializeVLQ_vlq tag rest) as E. rewrite vlq_small in E by assumption.
  apply E. unfold is_u64. lia.
Qed.

Lemma decompress_special (tag : Z) (body : list Z) n :
  len body = n -> slice (tag :: body) 1 (1 + n) = @Ok derr _ body.
Proof.
  intros <-. pose proof (@slice_mid derr Z [tag] body []) as H. cbn [app] in H.
  now rewrite app_nil_r in H.
Qed.

Lemma decompress_uncompressed k key :
  pubkey_forms -> len k = 65 -> at_ k 0 = 4 -> ParsePubKey k = Some key ->
  decompressScript ParsePubKey SerializeUncompressed ((4 + at_ k 64 mod 2) :: sub k 1 33) =
    Ok (Some ([OP_DATA_65] ++ k ++ [OP_CHECKSIG])).
Proof.
  intros Hf Hk H0 Hp. destruct (Hf k key Hk H0 Hp) as [Hu Hc].
  assert (Hx : len (sub k 1 33) = 32) by (apply sub_length; unfold len in Hk; lia).
  set (x := sub k 1 33) in *. set (p := at_ k 64 mod 2) in *.
  assert (Hpar : p = 0 \/ p = 1) by (pose proof (Z.mod_pos_bound (at_ k 64) 2 ltac:(lia)); subst p; lia).
  assert (Hcopy : @copy_at derr Z ((2 + p) :: repeat 0 32) 1 x = Ok ((2 + p) :: x)).
  { pose proof (@copy_at_mid derr Z [2 + p] (repeat 0 32) [] x) as H.
    rewrite !app_nil_r in H. apply H. rewrite Hx. reflexivity. }
  assert (Hout : @copy_at derr Z (OP_DATA_65 :: repeat 0 66) 1 k = Ok (OP_DATA_65 :: k ++ [0])).
  { exact (@copy_at_mid derr Z [OP_DATA_65] (repeat 0 65) [0] k ltac:(now rewrite Hk)). }
  assert (Hset : @set_at derr Z (OP_DATA_65 :: k ++ [0]) 66 OP_CHECKSIG =
                 Ok (OP_DATA_65 :: k ++ [OP_CHECKSIG])).
  { pose proof (@set_at_mid derr Z (OP_DATA_65 :: k) 0 [] OP_CHECKSIG) as H.
    rewrite len_cons, Hk in H. exact H. }
  unfold decompressScript. rewrite len_cons, Hx, decode_tag by lia.
  change (1 + 32) with 33. cbn [Z.eqb].
  destruct Hpar as [-> | ->]; simpl (_ =? _); cbn [orb];
    pose proof (decompress_special (4 + 0) x 32 Hx) as S0;
    pose proof (decompress_special (4 + 1) x 32 Hx) as S1;
    change (1 + 32) with 33 in *; rewrite ?S0, ?S1; cbn [obind].
  1: change (@set_at derr Z (repeat 0 33) 0 (u8 (4 + 0 - 2))) with
       (@Ok derr _ ((2 + 0) :: repeat 0 32)).
  2: change (@set_at derr Z (repeat 0 33) 0 (u8 (4 + 1 - 2))) with
       (@Ok derr _ ((2 + 1) :: repeat 0 32)).
  all: cbn [obind]; rewrite Hcopy; cbn [obind]; rewrite Hc, Hu;
    change (@set_at derr Z (repeat 0 67) 0 OP_DATA_65) with (@Ok derr _ (OP_DATA_65 :: repeat 0 66));
    cbn [obind]; rewrite Hout; cbn [obind]; rewrite Hset; reflexivity.
Qed.

(** The first byte of a special encoding is its tag. *)
Lemma compressScript_cases s :
  (exists tag body, compressScript s = tag :: body /\ 0 <= tag <= 1 /\ len body = 20) \/
  (exists tag body, compressScript s = tag :: body /\ 2 <= tag <= 5 /\ len body = 32) \/
  compressScript s = vlq (len s + numSpecialScripts) ++ s.
Proof.
  unfold compressScript.
  destruct (isPubKeyHash s) as [h|] eqn:E1; [|destruct (isScriptHash s) as [h|] eqn:E2;
    [|destruct (isPubKey ParsePubKey s) as [k|] eqn:E3; [|now right; right]]].
  - apply isPubKeyHash_shape in E1. left. do 2 eexists. split; [reflexivity|].
    split; [unfold cstPayToPubKeyHash; lia | apply E1].
  - apply isScriptHash_shape in E2. left. do 2 eexists. split; [reflexivity|].
    split; [unfold cstPayToScriptHash; lia | apply E2].
  - apply isPubKey_shape in E3. right. left. do 2 eexists. split; [reflexivity|]. split.
    + destruct E3 as [(t & x & -> & Hx & [H1|H1] & _) | (Hk & -> & _)]; rewrite ?at_cons0, ?H1.
      * change (2 =? 4) with false. lia.
      * change (3 =? 4) with false. lia.
      * change (4 =? 4) with true. cbn match.
        pose proof (Z.mod_pos_bound (at_ k 64) 2 ltac:(lia)). lia.
    + apply sub_length. destruct E3 as [(t & x & -> & Hx & _) | (Hk & _)];
        unfold len in *; cbn [List.length]; lia.
Qed.

Lemma decodeCompressedScriptSize_spec s rest :
  len s <= maxScript ->
  decodeCompressedScriptSize (compressScript s ++ rest) = len (compressScript s).
Proof.
  intros Hs. pose proof (len_nonneg s). unfold maxScript in Hs. unfold decodeCompressedScriptSize.
  destruct (compressScript_cases s) as [(t & b & -> & Ht & Hb) | [(t & b & -> & Ht & Hb) | ->]].
  - cbn [app]. rewrite decode_tag, len_cons, Hb by lia. change (1 =? 0) with false. cbn match.
    assert (Hc : t = 0 \/ t = 1) by lia. destruct Hc as [-> | ->]; reflexivity.
  - cbn [app]. rewrite decode_tag, len_cons, Hb by lia. change (1 =? 0) with false. cbn match.
    assert (Hc : t = 2 \/ t = 3 \/ t = 4 \/ t = 5) by lia.
    destruct Hc as [-> | [-> | [-> | ->]]]; reflexivity.
  - unfold numSpecialScripts. pose proof (vlq_size_bound (len s + 6)).
    rewrite <- app_assoc, deserializeVLQ_vlq, len_app by (unfold is_u64; lia).
    unfold cstPayToPubKeyHash, cstPayToScriptHash, cstPayToPubKeyComp2, cstPayToPubKeyComp3,
      cstPayToPubKeyUncomp4, cstPayToPubKeyUncomp5. decide_cmp. cbn [orb].
    rewrite (u64_id (len s + 6 - 6)), u64_id, i64_id; unfold is_u64, is_i64; lia.
Qed.

Lemma decompress_plain s :
  len s <= maxScript ->
  decompressScript ParsePubKey SerializeUncompressed (vlq (len s + numSpecialScripts) ++ s) =
    Ok (Some s).
Proof.
  unfold maxScript, numSpecialScripts. intros Hs. pose proof (len_nonneg s).
  pose proof (vlq_size_bound (len s + 6)). unfold decompressScript.
  rewrite deserializeVLQ_vlq, len_app by (unfold is_u64; lia).
  unfold cstPayToPubKeyHash, cstPayToScriptHash, cstPayToPubKeyComp2, cstPayToPubKeyComp3,
    cstPayToPubKeyUncomp4, cstPayToPubKeyUncomp5, numSpecialScripts. decide_cmp. cbn [orb].
  rewrite (u64_id (len s + 6 - 6)), (i64_id (len s + 6 - 6)) by (unfold is_u64, is_i64; lia).
  rewrite go_make_ok by (unfold maxAlloc; lia). cbn [obind].
  rewrite i64_id by (unfold is_i64; lia).
  replace (len s + 6 - 6) with (len s) by lia.
  pose proof (@slice_mid derr Z (vlq (len s + 6)) s []) as E. rewrite app_nil_r in E.
  now rewrite E.
Qed.

Lemma decompress_compress s :
  pubkey_forms -> len s <= maxScript ->
  decompressScript ParsePubKey SerializeUncompressed (compressScript s) = Ok (Some s).
Proof.
  intros Hf Hs. unfold compressScript.
  destruct (isPubKeyHash s) as [h|] eqn:E1; [|destruct (isScriptHash s) as [h|] eqn:E2;
    [|destruct (isPubKey ParsePubKey s) as [k|] eqn:E3; [|now apply decompress_plain]]].
  - apply isPubKeyHash_shape in E1. destruct E1 as [-> Hh].
    unfold decompressScript. rewrite len_cons, Hh, decode_tag by (unfold cstPayToPubKeyHash; lia).
    cbn [Z.eqb]. change (1 + 20 =? 0) with false. cbn match.
    now rewrite (decompress_special _ h 20 Hh).
  - apply isScriptHash_shape in E2. destruct E2 as [-> Hh].
    unfold decompressScript. rewrite len_cons, Hh, decode_tag by (unfold cstPayToScriptHash; lia).
    cbn [Z.eqb]. change (1 + 20 =? 0) with false. cbn match.
    now rewrite (decompress_special _ h 20 Hh).
  - apply isPubKey_shape in E3.
    destruct E3 as [(t & x & -> & Hx & Ht & ->) | (Hk & Hk0 & -> & key & Hp)].
    + assert (Hsub : sub (t :: x) 1 33 = x).
      { unfold sub. simpl skipn. apply firstn_all2. unfold len in Hx. lia. }
      rewrite Hsub, at_cons0. destruct Ht as [-> | ->];
        [change (2 =? 4) with false | change (3 =? 4) with false]; cbn match;
        unfold decompressScript; rewrite len_cons, Hx, decode_tag by lia;
        change (1 + 32 =? 0) with false; cbn match; cbn [Z.eqb orb];
        rewrite (decompress_special _ x 32 Hx); reflexivity.
    + rewrite Hk0. change (4 =? 4) with true. cbn match.
      now apply decompress_uncompressed with (key := key).
Qed.

Lemma compressTxOutAmount_u64 a : is_u64 (compressTxOutAmount a).
Proof.
  unfold compressTxOutAmount. destruct (a =? 0); [unfold is_u64; lia|].
  destruct (stripZeroes 10 a 0) as [a' e]. destruct (e <? 9); apply u64_range.
Qed.

Lemma slice_tail (pre post : list Z) :
  slice (pre ++ post) (len pre) (len (pre ++ post)) = @Ok derr _ post.
Proof.
  pose proof (@slice_mid derr Z pre post []) as H. rewrite !app_nil_r in H.
  now rewrite len_app.
Qed.

Lemma putCompressedTxOut_spec target a s :
  let v := vlq (compressTxOutAmount a) in let cs := compressScript s in
  len s <= maxScript -> len target = len v + len cs ->
  putCompressedTxOut ParsePubKey target a s = Ok (v ++ cs, len target).
Proof.
  intros v cs Hs Ht. unfold putCompressedTxOut. pose proof (len_nonneg v). pose proof (len_nonneg cs).
  assert (Hf : len (firstn (Z.to_nat (len v)) target) = len v) by (apply len_firstn; lia).
  pose proof (firstn_skipn (Z.to_nat (len v)) target) as Hsplit.
  set (t1 := firstn _ _) in *. set (t2 := skipn _ _) in *. rewrite <- Hsplit in Ht |- *.
  rewrite len_app in Ht. rewrite putVLQ_spec by (exact Hf || apply compressTxOutAmount_u64).
  cbn [obind]. rewrite slice_tail. cbn [obind].
  destruct (putCompressedScript_spec t2 [] s Hs) as [Hput _]; [fold cs; lia|].
  rewrite !app_nil_r in Hput. rewrite Hput. cbn [obind]. fold v cs.
  rewrite firstn_len_app, len_app. do 2 f_equal. lia.
Qed.

Lemma decodeCompressedTxOut_spec a s rest :
  let v := vlq (compressTxOutAmount a) in let cs := compressScript s in
  pubkey_forms -> 0 <= a <= maxAmount -> len s <= maxScript ->
  decodeCompressedTxOut ParsePubKey SerializeUncompressed (v ++ cs ++ rest) =
    Ok (a, Some s, len v + len cs).
Proof.
  intros v cs Hf Ha Hs. unfold decodeCompressedTxOut.
  assert (Hd : deserializeVLQ (v ++ cs ++ rest) = (compressTxOutAmount a, len v))
    by apply deserializeVLQ_vlq, compressTxOutAmount_u64.
  rewrite Hd. pose proof (len_nonneg rest).
  assert (Hcs : 1 <= len cs <= 2 ^ 48).
  { subst cs. pose proof (vlq_size_bound (len s + numSpecialScripts)). pose proof (len_nonneg s).
    unfold maxScript in Hs.
    destruct (compressScript_cases s) as [(t & b & -> & _ & Hb) | [(t & b & -> & _ & Hb) | ->]];
      autorewrite with lens; lia. }
  pose proof (vlq_size_bound (compressTxOutAmount a)) as Hv. fold v in Hv.
  rewrite (proj2 (Z.leb_gt _ _)) by (autorewrite with lens; lia).
  rewrite slice_tail. cbn [obind]. unfold cs. rewrite decodeCompressedScriptSize_spec by assumption.
  fold cs. rewrite (proj2 (Z.ltb_ge _ _)) by (autorewrite with lens; lia).
  rewrite i64_id by (unfold is_i64; lia). rewrite slice_mid. cbn [obind].
  unfold cs at 1. rewrite decompress_compress by assumption. cbn [obind].
  now rewrite amount_decompress_compress.
Qed.
End ScriptLemmas.

(** ** Properties *)

(** Every 64-bit number is written as a variable length quantity in the size
    computed for it, at most ten bytes, and read back. *)
Theorem VLQ_roundtrip n target rest :
  is_u64 n -> len target = serializeSizeVLQ n ->
  exists enc, putVLQ (target ++ rest) n = Ok (enc ++ rest, serializeSizeVLQ n) /\
    len enc = serializeSizeVLQ n /\ 1 <= len enc <= 10 /\
    deserializeVLQ (enc ++ rest) = (n, serializeSizeVLQ n).
Proof.
  intros Hu Ht. rewrite serializeSizeVLQ_len in * by assumption. exists (vlq n).
  split; [now apply putVLQ_spec|]. split; [reflexivity|].
  split; [apply vlq_size_bound | now apply deserializeVLQ_vlq].
Qed.

Lemma VLQ_roundtrip_witness :
  exists enc, putVLQ [7; 7; 7; 9] 16512 = Ok (enc ++ [9], 3) /\
    deserializeVLQ (enc ++ [9]) = (16512, 3).
Proof.
  destruct (VLQ_roundtrip 16512 [7; 7; 7] [9]) as (enc & E & _ & _ & D);
    [unfold is_u64; lia | reflexivity |].
  exists enc. split; [exact E | exact D].
Defined.

(** Every sequence of up to eight continuation bytes and a final byte is the
    encoding of exactly the number it decodes to: the encoding has no redundancy. *)
Theorem VLQ_unique hs b rest :
  Forall (fun h => 128 <= h < 256) hs -> 0 <= b < 128 -> (List.length hs <= 8)%nat ->
  exists n, deserializeVLQ (hs ++ [b] ++ rest) = (n, len (hs ++ [b])) /\
    putVLQ (hs ++ [b]) n = Ok (hs ++ [b], len (hs ++ [b])).
Proof.
  intros Hh Hb Hl. exists (groups_value hs 0 * 128 + b).
  destruct (groups_value_bound hs 0 ltac:(lia)) as [Hv _].
  assert (Hp : 128 ^ len hs <= 2 ^ 56).
  { change (2 ^ 56) with (128 ^ 8). apply Z.pow_le_mono_r; unfold len; lia. }
  split.
  - unfold deserializeVLQ. cbn [app]. rewrite deserializeVLQ_groups by (assumption || lia).
    rewrite deserializeVLQ_loop_cons by (unfold is_byte; lia).
    rewrite (proj2 (Z.leb_gt _ _)), Z.mod_small by lia. f_equal.
    autorewrite with lens. lia.
  - pose proof (putVLQ_spec (hs ++ [b]) [] (groups_value hs 0 * 128 + b)) as H.
    rewrite vlq_groups, !app_nil_r in H by assumption. apply H; [unfold is_u64; lia | reflexivity].
Qed.

Lemma VLQ_unique_witness :
  exists n, deserializeVLQ [0x80; 0xff; 0x7f; 1; 2] = (n, 3) /\
    putVLQ [0x80; 0xff; 0x7f] n = Ok ([0x80; 0xff; 0x7f], 3).
Proof.
  apply (VLQ_unique [0x80; 0xff] 0x7f [1; 2]).
  - repeat constructor; lia.
  - lia.
  - simpl. lia.
Defined.

(** Every amount up to the money supply is compressed to a 64-bit number and
    decompressed to itself. *)
Theorem amount_roundtrip a :
  0 <= a <= maxAmount ->
  is_u64 (compressTxOutAmount a) /\ decompressTxOutAmount (compressTxOutAmount a) = a.
Proof.
  intros Ha. split; [apply compressTxOutAmount_u64 | now apply amount_decompress_compress].
Qed.

Lemma amount_roundtrip_witness :
  compressTxOutAmount 5000000000 = 50 /\ decompressTxOutAmount (compressTxOutAmount 5000000000) = 5000000000.
Proof. split; [reflexivity|]. apply amount_roundtrip. unfold maxAmount. lia. Defined.

Section TxOutProperties.
Context {PubKey : Type} (ParsePubKey : list Z -> option PubKey)
        (SerializeUncompressed : PubKey -> list Z).

(** C33: a compressed output fills exactly the size computed for it, and decoding it
    gives the amount, the script and the size, for all amounts up to the money
    supply and all scripts, provided that parsing a public key and serializing it
    uncompressed have their documented forms. *)
Theorem compressed_txout_roundtrip target a s rest :
  pubkey_forms ParsePubKey SerializeUncompressed ->
  0 <= a <= maxAmount -> len s <= maxScript ->
  len target = compressedTxOutSize ParsePubKey a s ->
  exists enc, putCompressedTxOut ParsePubKey target a s = Ok (enc, len target) /\
    len enc = len target /\
    decodeCompressedTxOut ParsePubKey SerializeUncompressed (enc ++ rest) =
      Ok (a, Some s, len target).
Proof.
  intros Hf Ha Hs Ht. pose proof (compressTxOutAmount_u64 a) as Hu.
  set (c := compressTxOutAmount a) in *. unfold compressedTxOutSize in Ht. fold c in Ht.
  set (cs := compressScript ParsePubKey s).
  assert (Hsize : compressedScriptSize ParsePubKey s = len cs).
  { now apply (putCompressedScript_spec ParsePubKey cs [] s Hs eq_refl). }
  rewrite serializeSizeVLQ_len, Hsize in Ht by assumption.
  set (v := vlq c) in *. pose proof (vlq_size_bound c) as Hv. fold v in Hv.
  exists (v ++ cs). split; [|split; [now rewrite len_app|]].
  - now apply putCompressedTxOut_spec.
  - rewrite <- app_assoc, Ht. now apply decodeCompressedTxOut_spec.
Qed.
End TxOutProperties.

(** A stand-in for the curve on which the Y coordinate equals the X coordinate. *)
Definition toy_parse (s : list Z) : option (list Z) :=
  if (len s =? 65) && (at_ s 0 =? 4) && (if list_eq_dec Z.eq_dec (sub s 33 65) (sub s 1 33) then true else false)
  then Some s
  else if (len s =? 33) && (at_ s 0 =? 2 + at_ s 32 mod 2)
  then Some (4 :: sub s 1 33 ++ sub s 1 33)
  else None.

Lemma toy_forms : pubkey_forms toy_parse (fun key => key).
Proof.
  intros k key Hk H0 Hp. unfold toy_parse in Hp. rewrite Hk, H0 in Hp.
  destruct (list_eq_dec Z.eq_dec (sub k 33 65) (sub k 1 33)) as [Heq|]; [|discriminate].
  injection Hp as <-. split; [reflexivity|].
  assert (Hl : List.length k = 65%nat) by (unfold len in Hk; lia).
  assert (Hx : len (sub k 1 33) = 32) by (apply sub_length; lia).
  assert (Hks : k = 4 :: sub k 1 33 ++ sub k 1 33).
  { rewrite <- Heq at 2. change k with (skipn 0 k) at 1. rewrite (skipn_at k 0), H0 by lia.
    rewrite (skipn_sub k 1 33), (skipn_sub k 33 65), (skipn_all2 k) by lia. now rewrite app_nil_r. }
  assert (H64 : at_ k 64 = at_ (sub k 1 33) 31).
  { rewrite <- Heq. unfold at_, sub. rewrite nth_firstn, nth_skipn. reflexivity. }
  unfold toy_parse. rewrite len_cons, Hx. change (1 + 32 =? 65) with false. cbn [andb].
  change (at_ (?x :: ?l) 32) with (at_ l 31). rewrite at_cons0, <- H64.
  rewrite !Z.eqb_refl. cbn [andb]. f_equal.
  assert (Hsub : forall t, sub (t :: sub k 1 33) 1 33 = sub k 1 33).
  { intros t. unfold sub at 1. cbn [skipn]. apply firstn_all2. unfold len in Hx. lia. }
  rewrite Hsub. now symmetry.
Qed.

Lemma compressed_txout_roundtrip_witness :
  exists enc, putCompressedTxOut toy_parse (repeat 0 34) 1000 (0x41 :: 4 :: repeat 6 64 ++ [0xac])
    = Ok (enc, 34) /\
    decodeCompressedTxOut toy_parse (fun key => key) (enc ++ [1])
    = Ok (1000, Some (0x41 :: 4 :: repeat 6 64 ++ [0xac]), 34).
Proof.
  destruct (compressed_txout_roundtrip toy_parse (fun key => key) (repeat 0 34) 1000
    (0x41 :: 4 :: repeat 6 64 ++ [0xac]) [1] toy_forms) as (enc & E & _ & D).
  - unfold maxAmount. lia.
  - vm_compute. discriminate.
  - vm_compute. reflexivity.
  - exists enc. split; [exact E | exact D].
Defined.

(** A script size of 2^63 or more becomes a negative int, and the decoder of
    compressed outputs panics on the slice bounds. *)
Theorem decodeCompressedTxOut_panics {PubKey} (parse : list Z -> option PubKey) unc a n rest :
  is_u64 a -> 2 ^ 63 + 6 <= n < 2 ^ 64 - 4 ->
  decodeCompressedTxOut parse unc (vlq a ++ vlq n ++ rest) = Panic.
Proof.
  intros Ha Hn. unfold decodeCompressedTxOut. rewrite deserializeVLQ_vlq by assumption.
  pose proof (vlq_size_bound a). pose proof (vlq_size_bound n). pose proof (len_nonneg rest).
  rewrite (proj2 (Z.leb_gt _ _)) by (autorewrite with lens; lia).
  rewrite slice_tail. cbn [obind]. unfold decodeCompressedScriptSize.
  rewrite deserializeVLQ_vlq by (unfold is_u64; lia).
  unfold cstPayToPubKeyHash, cstPayToScriptHash, cstPayToPubKeyComp2, cstPayToPubKeyComp3,
    cstPayToPubKeyUncomp4, cstPayToPubKeyUncomp5, numSpecialScripts. decide_cmp. cbn [orb].
  rewrite (u64_id (n - 6)), u64_id by (unfold is_u64; lia).
  assert (Hneg : i64 (n - 6 + len (vlq n)) = n - 6 + len (vlq n) - 2 ^ 64) by ints.
  rewrite Hneg, (proj2 (Z.ltb_ge _ _)) by (autorewrite with lens; lia).
  rewrite i64_id by (unfold is_i64; lia). unfold slice.
  rewrite (proj2 (Z.leb_gt _ (_ + (_ - _)))) by lia. now rewrite andb_false_r.
Qed.

Lemma decodeCompressedTxOut_panics_witness :
  decodeCompressedTxOut toy_parse (fun key => key) (vlq 8 ++ vlq (2 ^ 63 + 100) ++ [1; 2; 3]) = Panic.
Proof. apply decodeCompressedTxOut_panics; [unfold is_u64; lia | lia]. Defined.
