(* ===== verification/Script.v ===== *)
(** * Scripts

    src/txscript/error.go, tokenizer.go and script.go, with the script forms of
    standard.go: the error codes, the tokenizer that splits a script into
    opcodes and their data, and the functions that walk over a script with it.
    A script is the list of its bytes; the tokenizer's offsets are [int32] as in
    the code.  The reference view of a script is a list of tokens, and the
    theorems say that the tokenizer enumerates exactly the tokens a script
    consists of. *)

From Stdlib Require Import ZArith List Lia Bool.
From S2P Require Import Prelude Opcodes GoSlice GoIO.
Import ListNotations.
Local Open Scope Z_scope.
Local Open Scope go_scope.

(** ** Errors *)

Inductive ErrorCode : Set :=
| ErrInternal
| ErrInvalidFlags
| ErrInvalidIndex
| ErrUnsupportedAddress
| ErrNotMultisigScript
| ErrTooManyRequiredSigs
| ErrTooMuchNullData
| ErrUnsupportedScriptVersion
| ErrEarlyReturn
| ErrEmptyStack
| ErrEvalFalse
| ErrScriptUnfinished
| ErrInvalidProgramCounter
| ErrScriptTooBig
| ErrElementTooBig
| ErrTooManyOperations
| ErrStackOverflow
| ErrInvalidPubKeyCount
| ErrInvalidSignatureCount
| ErrNumberTooBig
| ErrVerify
| ErrEqualVerify
| ErrNumEqualVerify
| ErrCheckSigVerify
| ErrCheckMultiSigVerify
| ErrDisabledOpcode
| ErrReservedOpcode
| ErrMalformedPush
| ErrInvalidStackOperation
| ErrUnbalancedConditional
| ErrMinimalData
| ErrInvalidSigHashType
| ErrSigTooShort
| ErrSigTooLong
| ErrSigInvalidSeqID
| ErrSigInvalidDataLen
| ErrSigMissingSTypeID
| ErrSigMissingSLen
| ErrSigInvalidSLen
| ErrSigInvalidRIntID
| ErrSigZeroRLen
| ErrSigNegativeR
| ErrSigTooMuchRPadding
| ErrSigInvalidSIntID
| ErrSigZeroSLen
| ErrSigNegativeS
| ErrSigTooMuchSPadding
| ErrSigHighS
| ErrNotPushOnly
| ErrSigNullDummy
| ErrPubKeyType
| ErrCleanStack
| ErrNullFail
| ErrWitnessMalleated
| ErrWitnessMalleatedP2SH
| ErrDiscourageUpgradableNOPs
| ErrNegativeLockTime
| ErrUnsatisfiedLockTime
| ErrMinimalIf
| ErrDiscourageUpgradableWitnessProgram
| ErrWitnessProgramEmpty
| ErrWitnessProgramMismatch
| ErrWitnessProgramWrongLength
| ErrWitnessUnexpected
| ErrWitnessPubKeyType
| ErrDiscourageOpSuccess
| ErrDiscourageUpgradeableTaprootVersion
| ErrTapscriptCheckMultisig
| ErrDiscourageUpgradeablePubKeyType
| ErrTaprootSigInvalid
| ErrTaprootMerkleProofInvalid
| ErrTaprootOutputKeyParityMismatch
| ErrControlBlockTooSmall
| ErrControlBlockTooLarge
| ErrControlBlockInvalidLength
| ErrWitnessHasNoAnnex
| ErrInvalidTaprootSigLen
| ErrTaprootPubkeyIsEmpty
| ErrTaprootMaxSigOps
| numErrorCodes.

(** What the functions of the package return as an error: an [Error] with its
    code, or an error of another package, which [errors.As] tells apart. *)
Inductive scriptErr : Set :=
| scriptError (c : ErrorCode)
| otherError.

(** ** Constants of script.go and engine.go *)

Definition MaxOpsPerScript : Z := 201.
Definition MaxPubKeysPerMultiSig : Z := 20.
Definition MaxScriptElementSize : Z := 520.
Definition MaxScriptSize : Z := 10000.
Definition MaxDataCarrierSize : Z := 80.
Definition TaprootAnnexTag : Z := 0x50.
Definition TaprootLeafMask : Z := 0xfe.
Definition payToWitnessPubKeyHashDataSize : Z := 20.
Definition payToWitnessScriptHashDataSize : Z := 32.
Definition payToTaprootDataSize : Z := 32.
Definition BaseSegwitWitnessVersion : Z := 0.
Definition TaprootWitnessVersion : Z := 1.

(** ** The tokenizer *)

(** The length column of [opcodeArray]: 1 for an opcode without data, the total
    length of a push of fixed size, and minus the number of length bytes for
    the OP_PUSHDATA opcodes. *)
Definition opcodeLength (value : Z) : Z :=
  if (OP_DATA_1 <=? value) && (value <=? OP_DATA_75) then value + 1
  else if value =? OP_PUSHDATA1 then -1
  else if value =? OP_PUSHDATA2 then -2
  else if value =? OP_PUSHDATA4 then -4
  else 1.

(** The pointer to the current opcode is its number; before the first [Next] it
    is nil, which no caller reads. *)
Record ScriptTokenizer : Type := mkTokenizer {
  tk_script : list Z;
  tk_version : Z;
  tk_offset : Z;
  tk_opcodePos : Z;
  tk_op : Z;
  tk_data : list Z;
  tk_err : option ErrorCode
}.

Definition MakeScriptTokenizer (scriptVersion : Z) (script : list Z) : ScriptTokenizer :=
  mkTokenizer script scriptVersion 0 (-1) OP_INVALIDOPCODE []
    (if scriptVersion =? 0 then None else Some ErrUnsupportedScriptVersion).

Definition Done (t : ScriptTokenizer) : bool :=
  match tk_err t with Some _ => true | None => i32 (len (tk_script t)) <=? tk_offset t end.

Definition tk_fail (t : ScriptTokenizer) (pos : Z) : bool * ScriptTokenizer :=
  (false, mkTokenizer (tk_script t) (tk_version t) (tk_offset t) pos (tk_op t) (tk_data t)
            (Some ErrMalformedPush)).

Definition tk_step (t : ScriptTokenizer) (pos size op : Z) (data : list Z)
  : bool * ScriptTokenizer :=
  (true, mkTokenizer (tk_script t) (tk_version t) (i32 (tk_offset t + size)) pos op data
           (tk_err t)).

(** [Next]: reads the opcode at the offset with its data, and reports whether
    there was one.  In range by the tests the code makes, the indexing is that
    of lists. *)
Definition Next (t : ScriptTokenizer) : bool * ScriptTokenizer :=
  if Done t then (false, t)
  else
    let pos := i32 (tk_opcodePos t + 1) in
    let script := skipn (Z.to_nat (tk_offset t)) (tk_script t) in
    let op := nth 0 script 0 in
    let length := opcodeLength op in
    if length =? 1 then tk_step t pos 1 op []
    else if 1 <? length then
      if len script <? length then tk_fail t pos
      else tk_step t pos length op (firstn (Z.to_nat (length - 1)) (skipn 1 script))
    else
      let script := skipn 1 script in
      if len script <? - length then tk_fail t pos
      else
        let dataLen := i32 (le_get (firstn (Z.to_nat (- length)) script)) in
        let script := skipn (Z.to_nat (- length)) script in
        if (i32 (len script) <? dataLen) || (dataLen <? 0) then tk_fail t pos
        else tk_step t pos (1 + - length + dataLen) op (firstn (Z.to_nat dataLen) script).

(** [for tokenizer.Next() { body }]: the body continues the loop with a new
    state or leaves it.  Every iteration advances the offset, so as many
    iterations as the script has bytes, and one, are enough. *)
Inductive control (S : Type) : Type :=
| Continue (s : S)
| Leave (s : S).
Arguments Continue {S} s.
Arguments Leave {S} s.

Fixpoint next_loop {S} (fuel : nat) (body : S -> ScriptTokenizer -> control S)
    (t : ScriptTokenizer) (s : S) : S * ScriptTokenizer :=
  match fuel with
  | O => (s, t)
  | Datatypes.S fuel =>
      match Next t with
      | (false, t) => (s, t)
      | (true, t) =>
          match body s t with
          | Continue s => next_loop fuel body t s
          | Leave s => (s, t)
          end
      end
  end.

Definition forNext {S} (body : S -> ScriptTokenizer -> control S) (t : ScriptTokenizer) (s : S)
  : S * ScriptTokenizer :=
  next_loop (Datatypes.S (List.length (tk_script t))) body t s.

(** ** script.go *)

Definition isSmallInt (op : Z) : bool := (op =? OP_0) || ((OP_1 <=? op) && (op <=? OP_16)).

Definition asSmallInt (op : Z) : Z := if op =? OP_0 then 0 else op - (OP_1 - 1).

Definition isCanonicalPush (opcode : Z) (data : list Z) : bool :=
  let dataLen := len data in
  if OP_16 <? opcode then true
  else if (opcode <? OP_PUSHDATA1) && (OP_0 <? opcode) &&
          ((dataLen =? 1) && (at_ data 0 <=? 16)) then false
  else if (opcode =? OP_PUSHDATA1) && (dataLen <? OP_PUSHDATA1) then false
  else if (opcode =? OP_PUSHDATA2) && (dataLen <=? 0xff) then false
  else if (opcode =? OP_PUSHDATA4) && (dataLen <=? 0xffff) then false
  else true.

Definition IsPushOnlyScript (script : list Z) : bool :=
  let '(early, t) :=
    forNext (fun _ t => if OP_16 <? tk_op t then Leave true else Continue false)
      (MakeScriptTokenizer 0 script) false in
  if early then false else match tk_err t with None => true | Some _ => false end.

(** The common loop of [removeOpcodeRaw] and [removeOpcodeByData]: the result,
    nil until the first opcode to remove, and the offset behind the previous
    opcode. *)
Definition remove_body (script : list Z) (removed : ScriptTokenizer -> bool)
    (s : option (list Z) * Z) (t : ScriptTokenizer) : control (option (list Z) * Z) :=
  let '(result, prevOffset) := s in
  let result :=
    if removed t then
      match result with
      | None => Some (firstn (Z.to_nat prevOffset) script)
      | Some _ => result
      end
    else
      match result with
      | None => None
      | Some r => Some (r ++ firstn (Z.to_nat (tk_offset t - prevOffset))
                               (skipn (Z.to_nat prevOffset) script))
      end in
  Continue (result, tk_offset t).

Definition removeOpcodes (script : list Z) (removed : ScriptTokenizer -> bool) : list Z :=
  let '((result, _), _) :=
    forNext (remove_body script removed) (MakeScriptTokenizer 0 script) (None, 0) in
  match result with None => script | Some r => r end.

Definition removeOpcodeRaw (script : list Z) (opcode : Z) : list Z :=
  if len script =? 0 then script
  else removeOpcodes script (fun t => tk_op t =? opcode).

Definition removeOpcodeByData (script dataToRemove : list Z) : list Z :=
  if (len script =? 0) || (len dataToRemove =? 0) then script
  else removeOpcodes script (fun t =>
         isCanonicalPush (tk_op t) (tk_data t) && Contains (tk_data t) dataToRemove).

Definition countSigOps_body (precise : bool) (s : Z * Z) (t : ScriptTokenizer) : control (Z * Z) :=
  let '(numSigOps, prevOp) := s in
  let op := tk_op t in
  let numSigOps :=
    if (op =? OP_CHECKSIG) || (op =? OP_CHECKSIGVERIFY) then numSigOps + 1
    else if (op =? OP_CHECKMULTISIG) || (op =? OP_CHECKMULTISIGVERIFY) then
      if precise && (OP_1 <=? prevOp) && (prevOp <=? OP_16)
      then numSigOps + asSmallInt prevOp
      else numSigOps + MaxPubKeysPerMultiSig
    else numSigOps in
  Continue (numSigOps, op).

Definition countSigOpsV0 (script : list Z) (precise : bool) : Z :=
  fst (fst (forNext (countSigOps_body precise) (MakeScriptTokenizer 0 script)
              (0, OP_INVALIDOPCODE))).

Definition GetSigOpCount (script : list Z) : Z := countSigOpsV0 script false.

Definition checkScriptParses (scriptVersion : Z) (script : list Z) : outcome scriptErr unit :=
  match tk_err (snd (forNext (fun s _ => Continue s) (MakeScriptTokenizer scriptVersion script) tt)) with
  | None => Ok tt
  | Some c => Err (scriptError c)
  end.

(** The result of [finalOpcodeData] is read through its length and bytes only,
    so nil is the empty list. *)
Definition finalOpcodeData (scriptVersion : Z) (script : list Z) : list Z :=
  if len script =? 0 then []
  else
    let '(data, t) := forNext (fun _ t => Continue (tk_data t))
                        (MakeScriptTokenizer scriptVersion script) [] in
    match tk_err t with None => data | Some _ => [] end.

Definition IsUnspendable (pkScript : list Z) : bool :=
  if (0 <? len pkScript) && (at_ pkScript 0 =? OP_RETURN) then true
  else match checkScriptParses 0 pkScript with Ok _ => false | _ => true end.

(** The keys of the map [successOpcodes]. *)
Definition successOpcodes (op : Z) : bool :=
  existsb (Z.eqb op)
    [OP_RESERVED; OP_VER; OP_CAT; OP_SUBSTR; OP_LEFT; OP_RIGHT; OP_INVERT; OP_AND; OP_OR;
     OP_XOR; OP_RESERVED1; OP_RESERVED2; OP_2MUL; OP_2DIV; OP_MUL; OP_DIV; OP_MOD;
     OP_LSHIFT; OP_RSHIFT]
  || ((OP_UNKNOWN187 <=? op) && (op <=? OP_PUBKEY)).

Definition ScriptHasOpSuccess (witnessScript : list Z) : bool :=
  fst (forNext (fun _ t => if successOpcodes (tk_op t) then Leave true else Continue false)
         (MakeScriptTokenizer 0 witnessScript) false).

(** ** Script forms of standard.go *)

Definition isSome {A} (o : option A) : bool := match o with Some _ => true | None => false end.

Definition extractCompressedPubKey (script : list Z) : option (list Z) :=
  if (len script =? 35) && (at_ script 34 =? OP_CHECKSIG) && (at_ script 0 =? OP_DATA_33) &&
     ((at_ script 1 =? 0x02) || (at_ script 1 =? 0x03))
  then Some (sub script 1 34) else None.

Definition extractUncompressedPubKey (script : list Z) : option (list Z) :=
  if (len script =? 67) && (at_ script 66 =? OP_CHECKSIG) && (at_ script 0 =? OP_DATA_65) &&
     ((at_ script 1 =? 0x04) || (at_ script 1 =? 0x06) || (at_ script 1 =? 0x07))
  then Some (sub script 1 66) else None.

Definition extractPubKey (script : list Z) : option (list Z) :=
  match extractCompressedPubKey script with
  | Some pubKey => Some pubKey
  | None => extractUncompressedPubKey script
  end.

Definition isPubKeyScript (script : list Z) : bool := isSome (extractPubKey script).

Definition extractPubKeyHash (script : list Z) : option (list Z) :=
  if (len script =? 25) && (at_ script 0 =? OP_DUP) && (at_ script 1 =? OP_HASH160) &&
     (at_ script 2 =? OP_DATA_20) && (at_ script 23 =? OP_EQUALVERIFY) &&
     (at_ script 24 =? OP_CHECKSIG)
  then Some (sub script 3 23) else None.

Definition isPubKeyHashScript (script : list Z) : bool := isSome (extractPubKeyHash script).

Definition extractScriptHash (script : list Z) : option (list Z) :=
  if (len script =? 23) && (at_ script 0 =? OP_HASH160) && (at_ script 1 =? OP_DATA_20) &&
     (at_ script 22 =? OP_EQUAL)
  then Some (sub script 2 22) else None.

Definition isScriptHashScript (script : list Z) : bool := isSome (extractScriptHash script).

Definition witnessV0PubKeyHashLen : Z := 22.
Definition witnessV0ScriptHashLen : Z := 34.
Definition witnessV1TaprootLen : Z := 34.

Definition extractWitnessPubKeyHash (script : list Z) : option (list Z) :=
  if (len script =? witnessV0PubKeyHashLen) && (at_ script 0 =? OP_0) &&
     (at_ script 1 =? OP_DATA_20)
  then Some (sub script 2 22) else None.

Definition isWitnessPubKeyHashScript (script : list Z) : bool :=
  isSome (extractWitnessPubKeyHash script).

Definition extractWitnessV0ScriptHash (script : list Z) : option (list Z) :=
  if (len script =? witnessV0ScriptHashLen) && (at_ script 0 =? OP_0) &&
     (at_ script 1 =? OP_DATA_32)
  then Some (sub script 2 34) else None.

Definition isWitnessScriptHashScript (script : list Z) : bool :=
  isSome (extractWitnessV0ScriptHash script).

Definition extractWitnessV1KeyBytes (script : list Z) : option (list Z) :=
  if (len script =? witnessV1TaprootLen) && (at_ script 0 =? OP_1) &&
     (at_ script 1 =? OP_DATA_32)
  then Some (sub script 2 34) else None.

Definition isWitnessTaprootScript (script : list Z) : bool :=
  isSome (extractWitnessV1KeyBytes script).

Definition extractWitnessProgramInfo (script : list Z) : Z * list Z * bool :=
  if (len script <? 4) || (42 <? len script) then (0, [], false)
  else
    match Next (MakeScriptTokenizer 0 script) with
    | (false, _) => (0, [], false)
    | (true, t) =>
        if negb (isSmallInt (tk_op t)) then (0, [], false)
        else
          let version := asSmallInt (tk_op t) in
          match Next t with
          | (false, _) => (0, [], false)
          | (true, t) =>
              if negb (isCanonicalPush (tk_op t) (tk_data t)) then (0, [], false)
              else (version, tk_data t, Done t && negb (isSome (tk_err t)))
          end
    end.

Definition isWitnessProgramScript (script : list Z) : bool :=
  snd (extractWitnessProgramInfo script).

Definition ExtractWitnessProgramInfo (script : list Z) : outcome scriptErr (Z * list Z) :=
  let '(version, program, valid) := extractWitnessProgramInfo script in
  if valid then Ok (version, program) else Err otherError.

Definition isAnnexedWitness (witness : list (list Z)) : bool :=
  if len witness <? 2 then false
  else let lastElement := last witness [] in
       (0 <? len lastElement) && (at_ lastElement 0 =? TaprootAnnexTag).

Definition extractAnnex (witness : list (list Z)) : option (list Z) :=
  if isAnnexedWitness witness then Some (last witness []) else None.

Definition isNullDataScript (scriptVersion : Z) (script : list Z) : bool :=
  if negb (scriptVersion =? 0) then false
  else if (len script <? 1) || negb (at_ script 0 =? OP_RETURN) then false
  else if len script =? 1 then true
  else
    match Next (MakeScriptTokenizer scriptVersion (skipn 1 script)) with
    | (false, _) => false
    | (true, t) =>
        Done t && (isSmallInt (tk_op t) || (tk_op t <=? OP_PUSHDATA4)) &&
        (len (tk_data t) <=? MaxDataCarrierSize)
    end.

(** ** Signature operations *)

Definition GetPreciseSigOpCount (scriptSig scriptPubKey : list Z) : Z :=
  if negb (isScriptHashScript scriptPubKey) then countSigOpsV0 scriptPubKey true
  else if (len scriptSig =? 0) || negb (IsPushOnlyScript scriptSig) then 0
  else
    let redeemScript := finalOpcodeData 0 scriptSig in
    if len redeemScript =? 0 then 0 else countSigOpsV0 redeemScript true.

Definition getWitnessSigOps (pkScript : list Z) (witness : list (list Z)) : Z :=
  match ExtractWitnessProgramInfo pkScript with
  | Ok (witnessVersion, witnessProgram) =>
      if witnessVersion =? BaseSegwitWitnessVersion then
        if len witnessProgram =? payToWitnessPubKeyHashDataSize then 1
        else if (len witnessProgram =? payToWitnessScriptHashDataSize) && (0 <? len witness)
        then countSigOpsV0 (last witness []) true
        else 0
      else 0
  | _ => 0
  end.

Definition GetWitnessSigOpCount (sigScript pkScript : list Z) (witness : list (list Z)) : Z :=
  if isWitnessProgramScript pkScript then getWitnessSigOps pkScript witness
  else if isScriptHashScript pkScript && IsPushOnlyScript sigScript && (0 <? len sigScript) &&
          isWitnessProgramScript (skipn 1 sigScript)
  then getWitnessSigOps (skipn 1 sigScript) witness
  else 0.

(** ** Tokens: the reference view of a script *)

Record token : Type := mkToken { tok_op : Z; tok_data : list Z }.

(** The number of length bytes behind an opcode. *)
Definition lenBytes (op : Z) : nat :=
  if op =? OP_PUSHDATA1 then 1 else if op =? OP_PUSHDATA2 then 2
  else if op =? OP_PUSHDATA4 then 4 else 0.

(** The bytes of a token in a script. *)
Definition raw (k : token) : list Z :=
  tok_op k :: le_put (lenBytes (tok_op k)) (len (tok_data k)) ++ tok_data k.

(** The lengths of data an opcode can carry. *)
Definition dataLen_ok (op n : Z) : Prop :=
  if (OP_DATA_1 <=? op) && (op <=? OP_DATA_75) then n = op
  else if op =? OP_PUSHDATA1 then n < 2 ^ 8
  else if op =? OP_PUSHDATA2 then n < 2 ^ 16
  else if op =? OP_PUSHDATA4 then n < 2 ^ 31
  else n = 0.

Definition token_ok (k : token) : Prop :=
  is_byte (tok_op k) /\ bytes_ok (tok_data k) /\ dataLen_ok (tok_op k) (len (tok_data k)).

(** A script consists of tokens and, when it does not parse, of a rest that
    does not start with one. *)
Definition parses_to (script : list Z) (toks : list token) (rest : list Z) : Prop :=
  script = concat (map raw toks) ++ rest /\ Forall token_ok toks /\
  forall k post, token_ok k -> rest <> raw k ++ post.

(** The four shapes of an opcode. *)
Lemma opcode_shape op : is_byte op ->
  (1 <= op <= 75 /\ opcodeLength op = op + 1 /\ lenBytes op = 0%nat /\
     forall n, dataLen_ok op n <-> n = op) \/
  (exists w, lenBytes op = S w /\ opcodeLength op = - Z.of_nat (S w) /\
     forall n, 0 <= n -> dataLen_ok op n <-> n < Z.min (256 ^ Z.of_nat (S w)) (2 ^ 31)) \/
  (opcodeLength op = 1 /\ lenBytes op = 0%nat /\ forall n, dataLen_ok op n <-> n = 0).
Proof.
  intros Hb. unfold opcodeLength, lenBytes, dataLen_ok.
  unfold OP_DATA_1, OP_DATA_75, OP_PUSHDATA1, OP_PUSHDATA2, OP_PUSHDATA4.
  destruct (Z.leb_spec 1 op), (Z.leb_spec op 75); cbn [andb].
  1: { left. decide_cmp. repeat split; auto; lia. }
  all: right; destruct (Z.eqb_spec op 76) as [->|]; [left; exists 0%nat; repeat split; auto; intros; lia|].
  all: destruct (Z.eqb_spec op 77) as [->|]; [left; exists 1%nat; repeat split; auto; intros; lia|].
  all: destruct (Z.eqb_spec op 78) as [->|]; [left; exists 3%nat; repeat split; auto; intros; lia|].
  all: right; repeat split; auto.
Qed.

Lemma nth_0_cons (op : Z) l : nth 0 (op :: l) 0 = op.
Proof. reflexivity. Qed.

(** The tokenizer in front of a token, at its end, and in front of anything
    else. *)
Section Walk.
Context (script : list Z) (Hbytes : bytes_ok script) (Hlen : len script < 2 ^ 31).

Definition tokenizerAt (offset pos op : Z) (data : list Z) : ScriptTokenizer :=
  mkTokenizer script 0 offset pos op data None.

Lemma script_i32 : i32 (len script) = len script.
Proof. apply i32_id. unfold is_i32. pose proof (len_nonneg script). lia. Qed.

Lemma Next_end pos op data :
  Next (tokenizerAt (len script) pos op data) = (false, tokenizerAt (len script) pos op data).
Proof.
  unfold Next, Done, tokenizerAt; cbn [tk_err tk_script tk_offset]. rewrite script_i32.
  decide_cmp. reflexivity.
Qed.

Lemma Next_token pre k post pos op data :
  script = pre ++ raw k ++ post -> token_ok k -> is_i32 (pos + 1) ->
  Next (tokenizerAt (len pre) pos op data)
  = (true, tokenizerAt (len (pre ++ raw k)) (pos + 1) (tok_op k) (tok_data k)).
Proof.
  intros Hs (Hop & Hd & Hn) Hpos. pose proof (len_nonneg pre). pose proof (len_nonneg post).
  pose proof (len_nonneg (tok_data k)) as Hd0.
  assert (Hl : len script = len pre + len (raw k) + len post) by (rewrite Hs, !len_app; lia).
  assert (Hr : len (raw k) = 1 + Z.of_nat (lenBytes (tok_op k)) + len (tok_data k)).
  { unfold raw. rewrite len_cons, len_app. unfold len at 1. rewrite le_put_length. lia. }
  assert (Hoff : forall n, n = len (raw k) -> i32 (len pre + n) = len (pre ++ raw k))
    by (intros n ->; rewrite len_app; apply i32_id; unfold is_i32; lia).
  set (fin := len (pre ++ raw k)) in *.
  unfold Next, Done, tokenizerAt; cbn [tk_err tk_script tk_offset tk_opcodePos].
  rewrite script_i32, (i32_id (pos + 1)) by assumption. decide_cmp.
  replace (skipn (Z.to_nat (len pre)) script) with (raw k ++ post)
    by (rewrite Hs; symmetry; apply skipn_len_app).
  unfold raw. cbn [app]. rewrite nth_0_cons. cbn [skipn].
  unfold tk_step; cbn [tk_script tk_version tk_offset tk_err].
  destruct (opcode_shape (tok_op k) Hop) as
    [(H1 & El & Ew & Hiff) | [(w & Ew & El & Hiff) | (El & Ew & Hiff)]]; rewrite El, Ew.
  - apply Hiff in Hn. rewrite Ew in Hr. change (le_put 0 (len (tok_data k))) with (@nil Z).
    decide_cmp. cbn [app]. rewrite len_cons, len_app. decide_cmp. rewrite Hoff by lia.
    replace (tok_op k + 1 - 1) with (len (tok_data k)) by lia. now rewrite firstn_len_app.
  - apply Hiff in Hn; [|assumption]. rewrite Ew in Hr. decide_cmp.
    set (lb := le_put (S w) (len (tok_data k))).
    assert (Hlb : len lb = Z.of_nat (S w)) by (unfold len, lb; now rewrite le_put_length).
    rewrite <- app_assoc, !len_app, Hlb. decide_cmp.
    rewrite Z.opp_involutive, <- Hlb, firstn_len_app, skipn_len_app.
    assert (Hg : i32 (le_get lb) = len (tok_data k))
      by (unfold lb; rewrite le_get_put by lia; apply i32_id; unfold is_i32; lia).
    rewrite Hg, len_app, i32_id by (unfold is_i32; lia). decide_cmp. cbn [orb].
    rewrite firstn_len_app, Hoff by lia. reflexivity.
  - apply Hiff in Hn. rewrite Ew in Hr. decide_cmp. rewrite Hoff by lia.
    destruct (tok_data k) as [|b d]; [reflexivity|]. rewrite len_cons in Hn.
    pose proof (len_nonneg d). lia.
Qed.

Lemma Next_cases pre rest pos op data :
  script = pre ++ rest -> rest <> [] ->
  (exists k post, token_ok k /\ rest = raw k ++ post) \/
  (exists t, Next (tokenizerAt (len pre) pos op data) = (false, t) /\
             tk_err t = Some ErrMalformedPush).
Proof.
  intros Hs Hne. destruct rest as [|o r]; [congruence|]. clear Hne.
  pose proof (len_nonneg pre). pose proof (len_nonneg r) as Hr0.
  assert (Hl : len script = len pre + (1 + len r)) by (rewrite Hs, len_app, len_cons; lia).
  assert (Hb : is_byte o /\ bytes_ok r).
  { rewrite Hs in Hbytes. apply bytes_ok_app in Hbytes. destruct Hbytes as [_ Hb].
    inversion Hb. auto. }
  destruct Hb as [Ho Hr].
  unfold Next, Done, tokenizerAt; cbn [tk_err tk_script tk_offset tk_opcodePos].
  rewrite script_i32. decide_cmp.
  replace (skipn (Z.to_nat (len pre)) script) with (o :: r)
    by (rewrite Hs; symmetry; apply skipn_len_app).
  rewrite nth_0_cons. cbn [skipn].
  destruct (opcode_shape o Ho) as
    [(H1 & El & Ew & Hiff) | [(w & Ew & El & Hiff) | (El & Ew & Hiff)]]; rewrite El.
  - decide_cmp. destruct (Z.ltb_spec (len (o :: r)) (o + 1)); [right; eexists; split; reflexivity|].
    rewrite len_cons in *. left.
    exists (mkToken o (firstn (Z.to_nat o) r)), (skipn (Z.to_nat o) r). split.
    + split; [exact Ho|]. cbn [tok_op tok_data]. split; [now apply Forall_firstn|].
      apply Hiff. apply len_firstn. lia.
    + unfold raw. cbn [tok_op tok_data]. rewrite Ew.
      change (le_put 0 _) with (@nil Z). cbn [app]. now rewrite firstn_skipn.
  - decide_cmp. rewrite Z.opp_involutive.
    destruct (Z.ltb_spec (len r) (Z.of_nat (S w))); [right; eexists; split; reflexivity|].
    rewrite Nat2Z.id. set (lb := firstn (S w) r). set (r' := skipn (S w) r).
    assert (Hlb : bytes_ok lb) by now apply Forall_firstn.
    assert (Hll : List.length lb = S w) by (unfold lb; rewrite length_firstn; unfold len in *; lia).
    pose proof (le_get_range lb Hlb) as Hn. unfold len in Hn at 1. rewrite Hll in Hn.
    assert (Hw : 256 ^ Z.of_nat (S w) <= 2 ^ 32).
    { unfold lenBytes in Ew. destruct (o =? _); [injection Ew as <-; lia|].
      destruct (o =? _); [injection Ew as <-; lia|].
      destruct (o =? _); [injection Ew as <-; lia | discriminate]. }
    destruct ((i32 (len r') <? i32 (le_get lb)) || (i32 (le_get lb) <? 0)) eqn:Ec;
      [right; eexists; split; reflexivity|].
    apply orb_false_iff in Ec. destruct Ec as [Ec1 Ec2].
    apply Z.ltb_ge in Ec1, Ec2.
    assert (Hsmall : le_get lb < 2 ^ 31)
      by (destruct (Z.lt_ge_cases (le_get lb) (2 ^ 31)); [assumption | ints]).
    assert (Hr' : len r' <= len r) by (unfold len, r'; rewrite length_skipn; lia).
    pose proof (len_nonneg r'). rewrite !i32_id in Ec1 by (unfold is_i32; lia). left.
    exists (mkToken o (firstn (Z.to_nat (le_get lb)) r')), (skipn (Z.to_nat (le_get lb)) r'). split.
    + split; [exact Ho|]. cbn [tok_op tok_data].
      split; [now apply Forall_firstn, Forall_skipn|].
      rewrite len_firstn by lia. apply Hiff; lia.
    + unfold raw. cbn [tok_op tok_data]. rewrite Ew, len_firstn, <- Hll, le_put_get by (auto; lia).
      cbn [app]. rewrite <- app_assoc, firstn_skipn. unfold lb, r'. now rewrite firstn_skipn.
  - left. exists (mkToken o []), r. split.
    + split; [exact Ho|]. split; [constructor|]. now apply Hiff.
    + unfold raw. cbn [tok_op tok_data]. rewrite Ew. reflexivity.
Qed.
End Walk.

Lemma raw_len k : len (raw k) = 1 + Z.of_nat (lenBytes (tok_op k)) + len (tok_data k).
Proof.
  unfold raw. rewrite len_cons, len_app. unfold len at 1. rewrite le_put_length. lia.
Qed.

Lemma raw_nonempty k : 1 <= len (raw k).
Proof. rewrite raw_len. pose proof (len_nonneg (tok_data k)). lia. Qed.

(** No token starts with another one: the tokens of a script are unique. *)
Lemma raw_prefix_code k k' post post' :
  token_ok k -> token_ok k' -> raw k ++ post = raw k' ++ post' -> k = k' /\ post = post'.
Proof.
  destruct k as [op d], k' as [op' d']. intros (Ho & _ & Hn) (_ & _ & Hn').
  unfold raw; cbn [tok_op tok_data] in *. cbn [app]. injection 1 as <- E.
  rewrite <- !app_assoc in E. pose proof (len_nonneg d). pose proof (len_nonneg d').
  assert (Hl : len d = len d').
  { destruct (opcode_shape op Ho) as
      [(_ & _ & _ & Hiff) | [(w & Ew & _ & Hiff) | (_ & _ & Hiff)]];
      try (apply Hiff in Hn, Hn'; congruence).
    apply Hiff in Hn, Hn'; try assumption. rewrite Ew in E.
    apply (f_equal (fun l => le_get (firstn (S w) l))) in E.
    rewrite !firstn_app, !le_put_length, Nat.sub_diag, !firstn_O, !app_nil_r in E.
    rewrite !firstn_all2 in E by (rewrite le_put_length; lia).
    rewrite !le_get_put in E by lia. exact E. }
  rewrite Hl in E. apply app_inv_head in E. unfold len in Hl. apply Nat2Z.inj in Hl.
  apply app_eq_app in E. destruct E as (l & [(E1 & E2) | (E1 & E2)]);
    subst; rewrite length_app in Hl; (destruct l; [|cbn [List.length] in Hl; lia]);
    rewrite app_nil_r; split; reflexivity.
Qed.

(** Every script parses, and in exactly one way. *)
Lemma parses_exists script : bytes_ok script -> len script < 2 ^ 31 ->
  exists toks rest, parses_to script toks rest.
Proof.
  remember (List.length script) as n eqn:En. revert script En.
  induction n as [n IH] using lt_wf_ind. intros script En Hb Hl.
  destruct script as [|o r].
  { exists [], []. split; [reflexivity|]. split; [constructor|]. intros k post _. discriminate. }
  destruct (Next_cases (o :: r) Hb Hl [] (o :: r) (-1) OP_INVALIDOPCODE [] eq_refl ltac:(discriminate))
    as [(k & post & Hk & Hs) | (t & Et & _)].
  - rewrite Hs in *. apply bytes_ok_app in Hb. destruct Hb as [_ Hb]. pose proof (raw_nonempty k).
    rewrite len_app in Hl. rewrite length_app in En.
    destruct (IH (List.length post)) with (script := post) as (toks & rest & E & Hok & Hst);
      [unfold len in *; lia | reflexivity | exact Hb | lia |].
    exists (k :: toks), rest. split; [cbn [map concat]; now rewrite <- app_assoc, <- E|]. auto.
  - exists [], (o :: r). split; [reflexivity|]. split; [constructor|]. intros k post Hk Hs.
    rewrite (Next_token (o :: r) Hl [] k post) in Et; [discriminate | exact Hs | exact Hk |].
    unfold is_i32; lia.
Qed.

Lemma parses_unique script toks rest toks' rest' :
  parses_to script toks rest -> parses_to script toks' rest' -> toks = toks' /\ rest = rest'.
Proof.
  intros (E & Hok & Hst) (E' & Hok' & Hst'). subst script. revert toks' Hok' E' Hst'.
  induction Hok as [|k toks Hk Hok IH]; intros [|k' toks'] Hok' E Hst'; cbn [map concat app] in E.
  - auto.
  - inversion Hok'; subst. exfalso. apply (Hst k' (concat (map raw toks') ++ rest')); auto.
    now rewrite app_assoc.
  - exfalso. apply (Hst' k (concat (map raw toks) ++ rest)); auto. now rewrite app_assoc.
  - inversion Hok' as [|? ? Hk' Hok'']; subst. rewrite <- !app_assoc in E.
    apply raw_prefix_code in E; auto. destruct E as [<- E].
    destruct (IH toks' Hok'' E Hst') as [<- <-]. auto.
Qed.

(** What a loop over the tokenizer computes, in terms of the tokens. *)
Fixpoint walk {S} (body : S -> ScriptTokenizer -> control S) (script : list Z)
    (offset pos : Z) (toks : list token) (s : S) : S * bool :=
  match toks with
  | [] => (s, false)
  | k :: toks' =>
      let offset' := offset + len (raw k) in
      match body s (tokenizerAt script offset' (pos + 1) (tok_op k) (tok_data k)) with
      | Continue s' => walk body script offset' (pos + 1) toks' s'
      | Leave s' => (s', true)
      end
  end.

(** How the tokenizer ends: with an error exactly when something is left. *)
Definition end_err (rest : list Z) : option ErrorCode :=
  match rest with [] => None | _ => Some ErrMalformedPush end.

Lemma next_loop_walk {S} (body : S -> ScriptTokenizer -> control S) script rest :
  bytes_ok script -> len script < 2 ^ 31 ->
  (forall k post, token_ok k -> rest <> raw k ++ post) ->
  forall toks fuel pre pos op data s,
  script = pre ++ concat (map raw toks) ++ rest -> Forall token_ok toks ->
  -1 <= pos < len pre -> (List.length toks < fuel)%nat ->
  exists t, next_loop fuel body (tokenizerAt script (len pre) pos op data) s
            = (fst (walk body script (len pre) pos toks s), t) /\
    (snd (walk body script (len pre) pos toks s) = false -> tk_err t = end_err rest).
Proof.
  intros Hb Hl Hst. induction toks as [|k toks IH];
    intros [|fuel] pre pos op data s Hs Hok Hpos Hf; cbn [List.length] in Hf; try lia;
    cbn [next_loop walk fst snd].
  - cbn [map concat app] in Hs. destruct rest as [|o r].
    + rewrite app_nil_r in Hs. subst pre. rewrite Next_end by assumption.
      eexists. split; reflexivity.
    + destruct (Next_cases script Hb Hl pre (o :: r) pos op data Hs ltac:(discriminate))
        as [(k & post & Hk & E) | (t & -> & Et)]; [now destruct (Hst k post)|]. eauto.
  - apply Forall_cons_iff in Hok. destruct Hok as [Hk Hok'].
    cbn [map concat] in Hs. rewrite <- app_assoc in Hs.
    pose proof (raw_nonempty k). pose proof (len_nonneg rest).
    assert (len pre + len (raw k) <= len script)
      by (rewrite Hs, !len_app; pose proof (len_nonneg (concat (map raw toks))); lia).
    rewrite (Next_token script Hl pre k _ _ _ _ Hs Hk) by (unfold is_i32; lia).
    rewrite <- len_app.
    destruct (body s _) as [s'|s'] eqn:Eb; [|eexists; split; [reflexivity | discriminate]].
    apply IH; [now rewrite <- app_assoc | exact Hok' | rewrite len_app; lia | lia].
Qed.

Lemma raw_total toks : Z.of_nat (List.length toks) <= len (concat (map raw toks)).
Proof.
  induction toks as [|k toks IH]; [reflexivity|]. cbn [map concat List.length].
  rewrite len_app. pose proof (raw_nonempty k). lia.
Qed.

Lemma forNext_walk {S} (body : S -> ScriptTokenizer -> control S) script toks rest s :
  bytes_ok script -> len script < 2 ^ 31 -> parses_to script toks rest ->
  exists t, forNext body (MakeScriptTokenizer 0 script) s
            = (fst (walk body script 0 (-1) toks s), t) /\
    (snd (walk body script 0 (-1) toks s) = false -> tk_err t = end_err rest).
Proof.
  intros Hb Hl (E & Hok & Hst).
  apply (next_loop_walk body script rest Hb Hl Hst toks _ []); auto; [change (len []) with 0; lia|].
  cbn [tk_script MakeScriptTokenizer]. pose proof (raw_total toks).
  rewrite E, length_app. unfold len in *. lia.
Qed.

(** ** Correctness of the functions of script.go *)

Definition collect_body (acc : list token) (t : ScriptTokenizer) : control (list token) :=
  Continue (acc ++ [mkToken (tk_op t) (tk_data t)]).

Lemma walk_collect script toks : forall offset pos acc,
  walk collect_body script offset pos toks acc = (acc ++ toks, false).
Proof.
  induction toks as [|[op d] toks IH]; intros offset pos acc; cbn [walk collect_body].
  - now rewrite app_nil_r.
  - rewrite IH, <- app_assoc. reflexivity.
Qed.

(** C31: every script of bytes has exactly one reading as a sequence of opcodes with
    their data followed by a rest where no opcode can be read, and looping over the
    tokenizer yields these opcodes in order and ends with an error exactly if the
    rest is not empty. *)
Theorem tokenizer_correct script : bytes_ok script -> len script < 2 ^ 31 ->
  exists toks rest, parses_to script toks rest /\
    (forall toks' rest', parses_to script toks' rest' -> toks' = toks /\ rest' = rest) /\
    exists t, forNext collect_body (MakeScriptTokenizer 0 script) [] = (toks, t) /\
              tk_err t = end_err rest.
Proof.
  intros Hb Hl. destruct (parses_exists script Hb Hl) as (toks & rest & Hp).
  exists toks, rest. split; [exact Hp|]. split.
  - intros toks' rest' Hp'. now apply (parses_unique script).
  - destruct (forNext_walk collect_body script toks rest [] Hb Hl Hp) as (t & E & He).
    rewrite walk_collect in *. exists t. auto.
Qed.

Lemma tokenizer_correct_witness :
  exists toks rest, parses_to [OP_DUP; 2; 7; 8; OP_PUSHDATA1] toks rest /\
    (forall toks' rest', parses_to [OP_DUP; 2; 7; 8; OP_PUSHDATA1] toks' rest' ->
       toks' = toks /\ rest' = rest) /\
    exists t, forNext collect_body (MakeScriptTokenizer 0 [OP_DUP; 2; 7; 8; OP_PUSHDATA1]) []
              = (toks, t) /\ tk_err t = end_err rest.
Proof. apply tokenizer_correct; [bytes_lit | reflexivity]. Defined.

Lemma checkScriptParses_spec script toks rest :
  bytes_ok script -> len script < 2 ^ 31 -> parses_to script toks rest ->
  checkScriptParses 0 script = Ok tt <-> rest = [].
Proof.
  intros Hb Hl Hp. unfold checkScriptParses.
  destruct (forNext_walk (fun (s : unit) _ => Continue s) script toks rest tt Hb Hl Hp) as (t & -> & He).
  cbn [snd]. rewrite He; [destruct rest; cbn; split; congruence|].
  clear. generalize 0, (-1). induction toks as [|k toks IH]; intros o p; [reflexivity | apply IH].
Qed.

(** Only pushes: every opcode is at most OP_16 and nothing is left over. *)
Lemma IsPushOnlyScript_spec script toks rest :
  bytes_ok script -> len script < 2 ^ 31 -> parses_to script toks rest ->
  IsPushOnlyScript script = true <-> rest = [] /\ Forall (fun k => tok_op k <= OP_16) toks.
Proof.
  intros Hb Hl Hp. unfold IsPushOnlyScript. set (body := fun _ t => _).
  destruct (forNext_walk body script toks rest false Hb Hl Hp) as (t & -> & He).
  assert (Hw : forall o p, walk body script o p toks false = (false, false) /\
                 Forall (fun k => tok_op k <= OP_16) toks \/
               walk body script o p toks false = (true, true) /\
                 ~ Forall (fun k => tok_op k <= OP_16) toks).
  { clear. induction toks as [|k toks IH]; intros o p; cbn [walk]; [left; auto|].
    unfold body at 1 3. cbn [tk_op tokenizerAt]. destruct (Z.ltb_spec OP_16 (tok_op k)) as [Hk|Hk].
    - right. split; [reflexivity|]. intros Hf. inversion Hf. lia.
    - destruct (IH (o + len (raw k)) (p + 1)) as [[-> H]|[-> H]]; [left | right]; split; auto.
      intros Hf. now inversion Hf. }
  destruct (Hw 0 (-1)) as [[E HF]|[E HF]]; rewrite E in *; cbn [fst snd] in *.
  - rewrite (He eq_refl). destruct rest; cbn; split; intros; intuition congruence.
  - split; [discriminate | tauto].
Qed.

(** Removing opcodes: the script without the tokens concerned.  A script that
    does not parse loses its rest as soon as something is removed. *)
Section Removal.
Context (script : list Z) (Hb : bytes_ok script) (Hl : len script < 2 ^ 31).
Context (removed : ScriptTokenizer -> bool) (f : token -> bool).
Hypothesis Hf : forall t, removed t = f (mkToken (tk_op t) (tk_data t)).

Lemma walk_remove_some toks : forall pre rest pos r,
  script = pre ++ concat (map raw toks) ++ rest ->
  exists o, walk (remove_body script removed) script (len pre) pos toks (Some r, len pre)
  = ((Some (r ++ concat (map raw (filter (fun k => negb (f k)) toks))), o), false).
Proof.
  induction toks as [|[op d] toks IH]; intros pre rest pos r Hs; cbn [walk].
  - exists (len pre). now rewrite app_nil_r.
  - cbn [map concat] in Hs. rewrite <- app_assoc in Hs.
    unfold remove_body at 1. rewrite Hf. cbn [tk_op tk_data tk_offset tokenizerAt tok_op tok_data filter].
    rewrite <- len_app.
    assert (Hsub : firstn (Z.to_nat (len (pre ++ raw (mkToken op d)) - len pre))
                     (skipn (Z.to_nat (len pre)) script) = raw (mkToken op d)).
    { rewrite Hs, skipn_len_app, len_app.
      replace (len pre + len (raw (mkToken op d)) - len pre) with (len (raw (mkToken op d))) by lia.
      apply firstn_len_app. }
    rewrite Hsub. rewrite app_assoc in Hs.
    destruct (f (mkToken op d)); cbn [negb]; destruct (IH _ _ (pos + 1) (r ++ raw (mkToken op d)) Hs) as (o & E);
      destruct (IH _ _ (pos + 1) r Hs) as (o' & E').
    + exists o'. exact E'.
    + exists o. rewrite E. cbn [map concat]. now rewrite <- app_assoc.
Qed.

Lemma walk_remove_none toks : forall pre rest pos,
  script = pre ++ concat (map raw toks) ++ rest ->
  exists o, walk (remove_body script removed) script (len pre) pos toks (None, len pre)
  = ((if existsb f toks
      then Some (pre ++ concat (map raw (filter (fun k => negb (f k)) toks))) else None, o), false).
Proof.
  induction toks as [|[op d] toks IH]; intros pre rest pos Hs; cbn [walk existsb].
  - now exists (len pre).
  - cbn [map concat] in Hs. rewrite <- app_assoc in Hs.
    unfold remove_body at 1. rewrite Hf. cbn [tk_op tk_data tk_offset tokenizerAt tok_op tok_data filter].
    rewrite <- len_app. assert (Hp : firstn (Z.to_nat (len pre)) script = pre)
      by (rewrite Hs; apply firstn_len_app).
    rewrite Hp. rewrite app_assoc in Hs.
    destruct (f (mkToken op d)); cbn [negb orb].
    + exact (walk_remove_some toks _ _ (pos + 1) pre Hs).
    + destruct (IH _ _ (pos + 1) Hs) as (o & E). exists o. rewrite E.
      cbn [map concat]. now rewrite <- app_assoc.
Qed.

Lemma removeOpcodes_spec toks rest :
  parses_to script toks rest ->
  removeOpcodes script removed
  = if existsb f toks then concat (map raw (filter (fun k => negb (f k)) toks)) else script.
Proof.
  intros Hp. unfold removeOpcodes.
  destruct (forNext_walk (remove_body script removed) script toks rest (None, 0) Hb Hl Hp) as (t & -> & _).
  destruct Hp as (Hs & _). destruct (walk_remove_none toks [] rest (-1) Hs) as (o & E).
  change (len []) with 0 in E. rewrite E. cbn [fst app]. destruct (existsb f toks); reflexivity.
Qed.
End Removal.

Lemma filter_none {A} (f : A -> bool) l : existsb f l = false -> filter (fun k => negb (f k)) l = l.
Proof.
  induction l as [|x l IH]; [reflexivity|]. cbn [existsb filter]. intros H.
  apply orb_false_iff in H. destruct H as [-> H]. cbn [negb]. f_equal. auto.
Qed.

(** On a script that parses, removeOpcodeRaw drops exactly the occurrences of
    the opcode, and removeOpcodeByData exactly the canonical pushes whose data
    contains the given bytes; what is left parses to the other opcodes in order. *)
Theorem removal_correct script toks :
  bytes_ok script -> len script < 2 ^ 31 -> parses_to script toks [] ->
  (forall opcode,
     parses_to (removeOpcodeRaw script opcode)
       (filter (fun k => negb (tok_op k =? opcode)) toks) []) /\
  (forall sig, sig <> [] ->
     parses_to (removeOpcodeByData script sig)
       (filter (fun k => negb (isCanonicalPush (tok_op k) (tok_data k) &&
                               Contains (tok_data k) sig)) toks) []).
Proof.
  intros Hb Hl Hp.
  assert (Hgen : forall removed f, (forall t, removed t = f (mkToken (tk_op t) (tk_data t))) ->
            parses_to (removeOpcodes script removed) (filter (fun k => negb (f k)) toks) []).
  { intros removed f Hf. rewrite (removeOpcodes_spec script Hb Hl removed f Hf toks [] Hp).
    destruct Hp as (Hs & Hok & Hst). split; [|split; [|exact Hst]].
    - destruct (existsb f toks) eqn:E; [now rewrite app_nil_r | now rewrite filter_none].
    - rewrite Forall_forall in *. intros k Hk. apply filter_In in Hk. now apply Hok. }
  assert (Hnil : script = [] -> toks = []).
  { intros E. destruct toks as [|k toks]; [reflexivity|]. destruct Hp as (Hs & _).
    rewrite E in Hs. discriminate. }
  unfold removeOpcodeRaw, removeOpcodeByData.
  destruct script as [|o r] eqn:E.
  - rewrite (Hnil eq_refl) in *. split; intros; exact Hp.
  - rewrite len_cons. pose proof (len_nonneg r). decide_cmp. cbn [orb]. rewrite <- E in *. split.
    + intros opcode. now apply Hgen.
    + intros [|x sig] Hne; [congruence|]. rewrite len_cons. pose proof (len_nonneg sig).
      decide_cmp. now apply Hgen with (f := fun k => isCanonicalPush (tok_op k) (tok_data k) && _).
Qed.

Lemma removal_correct_witness :
  parses_to (removeOpcodeRaw [2; 7; 8; OP_CODESEPARATOR] OP_CODESEPARATOR) [mkToken 2 [7; 8]] [].
Proof.
  apply (removal_correct [2; 7; 8; OP_CODESEPARATOR] [mkToken 2 [7; 8]; mkToken OP_CODESEPARATOR []]);
    [bytes_lit | reflexivity |].
  split; [reflexivity|]. split; [|intros k post _; discriminate].
  repeat constructor; try discriminate.
Defined.

Lemma Next_true_inv script pre rest pos op data t :
  bytes_ok script -> len script < 2 ^ 31 -> script = pre ++ rest -> -1 <= pos < len pre ->
  Next (tokenizerAt script (len pre) pos op data) = (true, t) ->
  exists k post, token_ok k /\ rest = raw k ++ post /\
    t = tokenizerAt script (len (pre ++ raw k)) (pos + 1) (tok_op k) (tok_data k).
Proof.
  intros Hb Hl Hs Hpos E. destruct rest as [|o r].
  - rewrite app_nil_r in Hs. subst pre. rewrite Next_end in E by assumption. discriminate.
  - destruct (Next_cases script Hb Hl pre (o :: r) pos op data Hs ltac:(discriminate))
      as [(k & post & Hk & Hr) | (t' & E' & _)]; [|rewrite E in E'; discriminate].
    exists k, post. split; [exact Hk|]. split; [exact Hr|].
    assert (len pre <= len script) by (rewrite Hs, len_app; pose proof (len_nonneg (o :: r)); lia).
    rewrite Hr in Hs. rewrite (Next_token script Hl pre k post) in E; auto;
      [congruence | unfold is_i32; lia].
Qed.

Lemma smallInt_raw k : token_ok k -> isSmallInt (tok_op k) = true -> raw k = [tok_op k].
Proof.
  intros (Ho & _ & Hn) Hs. unfold isSmallInt in Hs.
  apply orb_true_iff in Hs. rewrite andb_true_iff, Z.eqb_eq, !Z.leb_le in Hs.
  unfold OP_0, OP_1, OP_16 in Hs.
  assert (E : lenBytes (tok_op k) = 0%nat /\ len (tok_data k) = 0).
  { unfold dataLen_ok, lenBytes in *.
    unfold OP_DATA_1, OP_DATA_75, OP_PUSHDATA1, OP_PUSHDATA2, OP_PUSHDATA4 in *.
    destruct (Z.leb_spec 1 (tok_op k)), (Z.leb_spec (tok_op k) 75),
      (Z.eqb_spec (tok_op k) 76), (Z.eqb_spec (tok_op k) 77), (Z.eqb_spec (tok_op k) 78);
      cbn [andb] in Hn; try lia; auto. }
  destruct E as [Ew El]. unfold raw. rewrite Ew. destruct (tok_data k) as [|x d]; [reflexivity|].
  rewrite len_cons in El. pose proof (len_nonneg d). lia.
Qed.

(** A push that fits a witness program is a direct one. *)
Lemma canonical_short k :
  token_ok k -> isCanonicalPush (tok_op k) (tok_data k) = true -> 3 <= len (raw k) <= 41 ->
  tok_op k = len (tok_data k) /\ 2 <= len (tok_data k) <= 40 /\ raw k = tok_op k :: tok_data k.
Proof.
  intros (Ho & _ & Hn) Hc Hlen. rewrite raw_len in Hlen.
  destruct (opcode_shape (tok_op k) Ho) as
    [(H1 & _ & Ew & Hiff) | [(w & Ew & El & Hiff) | (_ & Ew & Hiff)]]; rewrite Ew in Hlen.
  - apply Hiff in Hn. repeat split; try lia. unfold raw. rewrite Ew. reflexivity.
  - exfalso. unfold lenBytes in Ew. unfold isCanonicalPush in Hc.
    unfold OP_16, OP_PUSHDATA1, OP_PUSHDATA2, OP_PUSHDATA4, OP_0 in *.
    destruct (Z.eqb_spec (tok_op k) 76) as [E|];
      [|destruct (Z.eqb_spec (tok_op k) 77) as [E|];
        [|destruct (Z.eqb_spec (tok_op k) 78) as [E|]; [|discriminate]]];
      revert Hc; rewrite ?E; decide_cmp; cbn [andb orb]; decide_cmp; discriminate.
  - apply Hiff in Hn. lia.
Qed.

Lemma smallInt_token op : is_byte op -> isSmallInt op = true -> token_ok (mkToken op []).
Proof.
  intros Hop Es. split; [exact Hop|]. split; [constructor|]. cbn [tok_op tok_data].
  unfold isSmallInt in Es. apply orb_true_iff in Es.
  rewrite andb_true_iff, Z.eqb_eq, !Z.leb_le in Es. unfold OP_0, OP_1, OP_16 in Es.
  unfold dataLen_ok, OP_DATA_1, OP_DATA_75, OP_PUSHDATA1, OP_PUSHDATA2, OP_PUSHDATA4.
  rewrite len_nil. destruct Es as [->|Es]; [reflexivity|]. decide_cmp. now rewrite andb_false_r.
Qed.

(** A direct push of up to 75 bytes. *)
Lemma push_token d : bytes_ok d -> 1 <= len d <= 75 ->
  token_ok (mkToken (len d) d) /\ raw (mkToken (len d) d) = len d :: d.
Proof.
  intros Hd Hl. split.
  - split; [unfold is_byte; cbn [tok_op]; lia|]. split; [exact Hd|]. cbn [tok_op tok_data].
    unfold dataLen_ok, OP_DATA_1, OP_DATA_75. decide_cmp. reflexivity.
  - unfold raw. cbn [tok_op tok_data]. unfold lenBytes, OP_PUSHDATA1, OP_PUSHDATA2, OP_PUSHDATA4.
    decide_cmp. reflexivity.
Qed.

Lemma MakeScriptTokenizer_at script :
  MakeScriptTokenizer 0 script = tokenizerAt script (len (@nil Z)) (-1) OP_INVALIDOPCODE [].
Proof. reflexivity. Qed.

Lemma witness_program_shape script version program : bytes_ok script ->
  extractWitnessProgramInfo script = (version, program, true) ->
  exists op, isSmallInt op = true /\ version = asSmallInt op /\
    2 <= len program <= 40 /\ script = op :: len program :: program.
Proof.
  intros Hb. unfold extractWitnessProgramInfo.
  destruct (Z.ltb_spec (len script) 4) as [H4|H4]; cbn [orb]; [discriminate|].
  destruct (Z.ltb_spec 42 (len script)) as [H42|H42]; [discriminate|].
  assert (Hl : len script < 2 ^ 31) by lia.
  rewrite MakeScriptTokenizer_at. destruct (Next _) as [[|] t] eqn:E1; [|discriminate].
  apply (Next_true_inv script [] script) in E1; auto; [|change (len []) with 0; lia].
  destruct E1 as (k & post & Hk & Hs & ->). cbn [tk_op tokenizerAt app].
  destruct (isSmallInt (tok_op k)) eqn:Es; cbn [negb]; [|discriminate].
  pose proof (smallInt_raw k Hk Es) as Hrk.
  destruct (Next _) as [[|] t] eqn:E2; [|discriminate].
  apply (Next_true_inv script (raw k) post) in E2; auto; [|rewrite Hrk, len_cons, (@len_nil Z); lia].
  destruct E2 as (k2 & post2 & Hk2 & Hs2 & ->). cbn [tk_op tk_data tk_err tokenizerAt].
  destruct (isCanonicalPush _ _) eqn:Ec; cbn [negb]; [|discriminate].
  destruct (Done _) eqn:Hd; [|discriminate]. intros Hi. injection Hi as <- <-. unfold Done, tokenizerAt in Hd. cbn [tk_err tk_script tk_offset] in Hd.
  rewrite script_i32, Z.leb_le in Hd by assumption. rewrite Hs, Hs2, !len_app in *.
  assert (post2 = []) as -> by (destruct post2; [reflexivity|]; rewrite len_cons in Hd;
    pose proof (len_nonneg post2); lia).
  rewrite Hrk, len_cons, (@len_nil Z) in *.
  destruct (canonical_short k2 Hk2 Ec) as (Eo & Hp & Er); [lia|].
  exists (tok_op k). rewrite Er, app_nil_r, Eo. repeat split; auto; lia.
Qed.

Lemma witness_program_accepted op program : isSmallInt op = true -> 2 <= len program <= 40 ->
  bytes_ok (op :: len program :: program) ->
  extractWitnessProgramInfo (op :: len program :: program) = (asSmallInt op, program, true).
Proof.
  intros Es Hp Hb. set (script := op :: len program :: program) in *.
  assert (Hs : script = op :: len program :: program) by reflexivity. clearbody script.
  assert (H4 : 4 <= len script <= 42) by (rewrite Hs, !len_cons; lia).
  unfold extractWitnessProgramInfo. decide_cmp. cbn [orb].
  assert (Hl : len script < 2 ^ 31) by lia.
  assert (Hop : is_byte op) by (rewrite Hs in Hb; now inversion Hb).
  assert (Hpb : bytes_ok program) by (rewrite Hs in Hb; inversion Hb as [|? ? ? Hb']; now inversion Hb').
  pose proof (smallInt_token op Hop Es) as Hk.
  pose proof (smallInt_raw _ Hk Es) as Hr1. cbn [tok_op] in Hr1.
  destruct (push_token program Hpb ltac:(lia)) as [Hk2 Hr2].
  rewrite MakeScriptTokenizer_at, (Next_token script Hl [] (mkToken op []) (len program :: program));
    [|now rewrite Hr1 | exact Hk | unfold is_i32; lia].
  cbn [tk_op tokenizerAt tok_op tok_data app]. rewrite Es. cbn [negb].
  rewrite Hr1, (Next_token script Hl [op] (mkToken (len program) program) []);
    [|now rewrite Hr2, app_nil_r | exact Hk2 | unfold is_i32; lia].
  cbn [tk_op tk_data tk_err tokenizerAt tok_op tok_data isSome negb]. rewrite andb_true_r.
  assert (Hc : isCanonicalPush (len program) program = true).
  { unfold isCanonicalPush, OP_16, OP_PUSHDATA1, OP_PUSHDATA2, OP_PUSHDATA4, OP_0.
    decide_cmp. cbn [andb]. reflexivity. }
  rewrite Hc. cbn [negb]. unfold Done, tokenizerAt. cbn [tk_err tk_script tk_offset].
  rewrite script_i32, Hr2 by assumption. rewrite Hs. change ([op] ++ len program :: program) with (op :: len program :: program).
  rewrite Z.leb_refl. reflexivity.
Qed.

(** A script is a witness program exactly if it is a small integer opcode
    followed by the direct push of 2 to 40 bytes, which are its version and program. *)
Theorem witness_program_form script version program :
  bytes_ok script ->
  extractWitnessProgramInfo script = (version, program, true) <->
  exists op, isSmallInt op = true /\ version = asSmallInt op /\
    2 <= len program <= 40 /\ script = op :: len program :: program.
Proof.
  intros Hb. split; [now apply witness_program_shape|].
  intros (op & Es & -> & Hp & ->). now apply witness_program_accepted.
Qed.

Lemma witness_program_form_witness :
  exists op, isSmallInt op = true /\ 0 = asSmallInt op /\ 2 <= len [9; 9; 9] <= 40 /\
    [OP_0; 3; 9; 9; 9] = op :: len [9; 9; 9] :: [9; 9; 9].
Proof. apply (witness_program_form [OP_0; 3; 9; 9; 9]); [bytes_lit | reflexivity]. Defined.
