(* ===== verification/ScriptNum.v ===== *)
(** * Script numbers and the script builder

    src/txscript/scriptnum.go and scriptbuilder.go.  A script number is an
    [int64]; [Bytes] writes it in little endian with a sign bit and
    [makeScriptNum] reads it back, with the limit on the size and the check of
    minimality the opcodes ask for. *)

From Stdlib Require Import ZArith List Lia Bool.
From S2P Require Import Prelude Opcodes GoSlice GoIO Script.
Import ListNotations.
Local Open Scope Z_scope.
Local Open Scope go_scope.

Definition maxInt32 : Z := 2 ^ 31 - 1.
Definition minInt32 : Z := - 2 ^ 31.
Definition maxScriptNumLen : Z := 4.
Definition cltvMaxScriptNumLen : Z := 5.

Definition checkMinimalDataEncoding (v : list Z) : outcome scriptErr unit :=
  if len v =? 0 then Ok tt
  else if Z.land (last v 0) 0x7f =? 0 then
    if (len v =? 1) || (Z.land (nth (List.length v - 2) v 0) 0x80 =? 0)
    then Err (scriptError ErrMinimalData) else Ok tt
  else Ok tt.

(** [for n > 0 { result = append(result, byte(n&0xff)); n >>= 8 }]: an [int64]
    has eight bytes. *)
Fixpoint bytes_loop (fuel : nat) (n : Z) : list Z :=
  match fuel with
  | O => []
  | S fuel => if 0 <? n then u8 (Z.land n 0xff) :: bytes_loop fuel (Z.shiftr n 8) else []
  end.

(** The method [Bytes] of [scriptNum].  Negating the smallest [int64] gives
    itself, the loop does not run, and reading the last byte panics. *)
Definition Bytes (n : Z) : outcome scriptErr (list Z) :=
  if n =? 0 then Ok []
  else
    let isNegative := n <? 0 in
    let n := if isNegative then i64 (- n) else n in
    let result := bytes_loop 8 n in
    match result with
    | [] => Panic
    | _ =>
        if negb (Z.land (last result 0) 0x80 =? 0) then
          Ok (result ++ [if isNegative then 0x80 else 0x00])
        else if isNegative then Ok (removelast result ++ [Z.lor (last result 0) 0x80])
        else Ok result
    end.

(** The method [Int32] of [scriptNum]. *)
Definition Int32 (n : Z) : Z :=
  if maxInt32 <? n then maxInt32 else if n <? minInt32 then minInt32 else n.

(** [for i, val := range v { result |= int64(val) << uint8(8*i) }]. *)
Fixpoint num_loop (v : list Z) (i result : Z) : Z :=
  match v with
  | [] => result
  | val :: v' => num_loop v' (i + 1) (Z.lor result (i64 (Z.shiftl val (u8 (8 * i)))))
  end.

Definition makeScriptNum (v : list Z) (requireMinimal : bool) (scriptNumLen : Z)
  : outcome scriptErr Z :=
  if scriptNumLen <? len v then Err (scriptError ErrNumberTooBig)
  else
    let* _ := if requireMinimal then checkMinimalDataEncoding v else Ok tt in
    if len v =? 0 then Ok 0
    else
      let result := num_loop v 0 0 in
      if negb (Z.land (last v 0) 0x80 =? 0) then
        let result := Z.land result (Z.lnot (i64 (Z.shiftl 0x80 (u8 (8 * (len v - 1)))))) in
        Ok (i64 (- result))
      else Ok result.

(** ** The script builder *)

(** The only error is [ErrScriptNotCanonical]. *)
Record ScriptBuilder : Type := mkBuilder { sb_script : list Z; sb_err : bool }.

Definition NewScriptBuilder : ScriptBuilder := mkBuilder [] false.
Definition sb_Reset (b : ScriptBuilder) : ScriptBuilder := mkBuilder [] false.

Definition sb_append (b : ScriptBuilder) (l : list Z) : ScriptBuilder :=
  mkBuilder (sb_script b ++ l) (sb_err b).
Definition sb_fail (b : ScriptBuilder) : ScriptBuilder := mkBuilder (sb_script b) true.

Definition AddOp (b : ScriptBuilder) (opcode : Z) : ScriptBuilder :=
  if sb_err b then b
  else if MaxScriptSize <? len (sb_script b) + 1 then sb_fail b
  else sb_append b [opcode].

Definition AddOps (b : ScriptBuilder) (opcodes : list Z) : ScriptBuilder :=
  if sb_err b then b
  else if MaxScriptSize <? len (sb_script b) + len opcodes then sb_fail b
  else sb_append b opcodes.

Definition canonicalDataSize (data : list Z) : Z :=
  let dataLen := len data in
  if dataLen =? 0 then 1
  else if (dataLen =? 1) && (at_ data 0 <=? 16) then 1
  else if (dataLen =? 1) && (at_ data 0 =? 0x81) then 1
  else if dataLen <? OP_PUSHDATA1 then 1 + dataLen
  else if dataLen <=? 0xff then 2 + dataLen
  else if dataLen <=? 0xffff then 3 + dataLen
  else 5 + dataLen.

Definition addData (b : ScriptBuilder) (data : list Z) : ScriptBuilder :=
  let dataLen := len data in
  if (dataLen =? 0) || ((dataLen =? 1) && (at_ data 0 =? 0)) then sb_append b [OP_0]
  else if (dataLen =? 1) && (at_ data 0 <=? 16) then sb_append b [u8 ((OP_1 - 1) + at_ data 0)]
  else if (dataLen =? 1) && (at_ data 0 =? 0x81) then sb_append b [OP_1NEGATE]
  else
    let b :=
      if dataLen <? OP_PUSHDATA1 then sb_append b [u8 ((OP_DATA_1 - 1) + dataLen)]
      else if dataLen <=? 0xff then sb_append b [OP_PUSHDATA1; u8 dataLen]
      else if dataLen <=? 0xffff then
        sb_append (sb_append b [OP_PUSHDATA2]) (le_put 2 (u16 dataLen))
      else sb_append (sb_append b [OP_PUSHDATA4]) (le_put 4 (u32 dataLen)) in
    sb_append b data.

Definition AddFullData (b : ScriptBuilder) (data : list Z) : ScriptBuilder :=
  if sb_err b then b else addData b data.

Definition AddData (b : ScriptBuilder) (data : list Z) : ScriptBuilder :=
  if sb_err b then b
  else if MaxScriptSize <? len (sb_script b) + canonicalDataSize data then sb_fail b
  else if MaxScriptElementSize <? len data then sb_fail b
  else addData b data.

Definition AddInt64 (b : ScriptBuilder) (val : Z) : outcome scriptErr ScriptBuilder :=
  if sb_err b then Ok b
  else if MaxScriptSize <? len (sb_script b) + 1 then Ok (sb_fail b)
  else if val =? 0 then Ok (sb_append b [OP_0])
  else if (val =? -1) || ((1 <=? val) && (val <=? 16)) then
    Ok (sb_append b [u8 ((OP_1 - 1) + val)])
  else let* l := Bytes val in Ok (AddData b l).

(** ** Numbers: what the bytes mean *)

(** Sign and magnitude, little endian, the sign in the top bit of the last byte. *)
Definition num_value (v : list Z) : Z :=
  match v with
  | [] => 0
  | _ =>
      let m := le_get (removelast v) + 256 ^ (len v - 1) * (last v 0 mod 128) in
      if 128 <=? last v 0 then - m else m
  end.

(** No shorter sequence of bytes has the same value. *)
Definition minimal (v : list Z) : Prop :=
  v = [] \/ last v 0 mod 128 <> 0 \/ (2 <= len v /\ 128 <= nth (List.length v - 2) v 0).

Lemma land_80 b : is_byte b -> negb (Z.land b 0x80 =? 0) = (128 <=? b).
Proof.
  intros Hb. apply (byte_cases (fun b => eqb (negb (Z.land b 0x80 =? 0)) (128 <=? b))) in Hb;
    [now apply eqb_prop | vm_compute; reflexivity].
Qed.

Lemma bytes_ok_last v : bytes_ok v -> v <> [] -> is_byte (last v 0).
Proof.
  intros Hb Hne. rewrite (app_removelast_last 0 Hne) in Hb.
  apply bytes_ok_app in Hb. destruct Hb as [_ Hb]. now inversion Hb.
Qed.

Lemma bytes_ok_nth v i : bytes_ok v -> is_byte (nth i v 0).
Proof.
  intros Hb. destruct (Nat.lt_ge_cases i (List.length v)).
  - unfold bytes_ok in Hb. rewrite Forall_forall in Hb. apply Hb, nth_In. assumption.
  - rewrite nth_overflow by assumption. unfold is_byte. lia.
Qed.

Lemma checkMinimal_spec v : bytes_ok v ->
  checkMinimalDataEncoding v = Ok tt <-> minimal v.
Proof.
  intros Hb. unfold checkMinimalDataEncoding, minimal. destruct v as [|x v'].
  { split; auto. }
  remember (x :: v') as v eqn:Ev. assert (Hne : v <> []) by (rewrite Ev; discriminate).
  assert (Hl : 1 <= len v) by (rewrite Ev, len_cons; pose proof (len_nonneg v'); lia).
  rewrite land_7f. decide_cmp.
  pose proof (land_80 _ (bytes_ok_nth v (List.length v - 2) Hb)) as H80.
  destruct (Z.eqb_spec (last v 0 mod 128) 0) as [E|E]; [|tauto].
  destruct (Z.eqb_spec (len v) 1) as [E1|E1]; cbn [orb].
  - split; [discriminate|]. intros [|[|]]; [congruence | congruence | lia].
  - destruct (Z.land _ 0x80 =? 0); cbn [negb] in H80; symmetry in H80.
    + apply Z.leb_gt in H80. split; [discriminate|]. intros [|[|]]; [congruence | congruence | lia].
    + apply Z.leb_le in H80. split; [intros _ | reflexivity]. right; right. lia.
Qed.

Lemma le_get_app w l : bytes_ok w -> le_get (w ++ l) = le_get w + 256 ^ len w * le_get l.
Proof.
  induction 1 as [|b w Hb Hw IH].
  - cbn [app]. rewrite (@len_nil Z). change (le_get (@nil Z)) with 0. lia.
  - cbn [app]. rewrite !le_get_cons, IH, len_cons, Z.pow_add_r by (auto; pose proof (len_nonneg w); lia).
    change (256 ^ 1) with 256. lia.
Qed.

Lemma le_get_one b : is_byte b -> le_get [b] = b.
Proof. intros Hb. rewrite le_get_cons by assumption. change (le_get []) with 0. lia. Qed.

Lemma pow_256 n : 0 <= n -> 256 ^ n = 2 ^ (8 * n).
Proof. intros Hn. rewrite Z.pow_mul_r by lia. reflexivity. Qed.

Lemma num_loop_spec v : forall i r, bytes_ok v -> 0 <= i -> i + len v <= 7 ->
  0 <= r < 256 ^ i -> num_loop v i r = r + 256 ^ i * le_get v.
Proof.
  induction v as [|b v IH]; intros i r Hb Hi Hl Hr; cbn [num_loop].
  - change (le_get []) with 0. lia.
  - apply Forall_cons_iff in Hb. destruct Hb as [Hb Hv]. rewrite len_cons in Hl.
    pose proof (len_nonneg v). unfold is_byte in Hb.
    assert (Hp : 256 ^ (i + 1) = 256 * 256 ^ i) by (rewrite Z.pow_add_r by lia; lia).
    assert (H56 : 256 ^ (i + 1) <= 256 ^ 7) by (apply Z.pow_le_mono_r; lia).
    assert (E : Z.lor r (i64 (Z.shiftl b (u8 (8 * i)))) = r + b * 256 ^ i).
    { rewrite u8_id by (unfold is_byte; lia).
      rewrite (i64_id (Z.shiftl b (8 * i))).
      - rewrite pow_256 in * by lia. rewrite Z.lor_comm, lor_shiftl_add by lia. lia.
      - rewrite Z.shiftl_mul_pow2, <- pow_256 by lia. unfold is_i64. nia. }
    rewrite E, IH, le_get_cons, Hp by (auto; try (unfold is_byte; lia); nia). lia.
Qed.

Lemma land_lnot_pow2 x k : 0 <= k -> 2 ^ k <= x < 2 ^ (k + 1) ->
  Z.land x (Z.lnot (2 ^ k)) = x - 2 ^ k.
Proof.
  intros Hk Hx. assert (0 < 2 ^ k) by (apply Z.pow_pos_nonneg; lia).
  rewrite <- Z.ldiff_land. symmetry. apply Z.sub_nocarry_ldiff.
  apply Z.bits_inj'. intros n Hn. rewrite Z.ldiff_spec, Z.bits_0, Z.pow2_bits_eqb by lia.
  destruct (Z.eqb_spec k n) as [<-|]; [|reflexivity].
  rewrite testbit_top by lia. replace (2 ^ k <=? x) with true; [reflexivity|].
  symmetry. apply Z.leb_le. lia.
Qed.

(** Splitting off the last byte of a number. *)
Lemma le_get_last v : bytes_ok v -> v <> [] ->
  le_get v = le_get (removelast v) + 256 ^ (len v - 1) * last v 0 /\
  0 <= le_get (removelast v) < 256 ^ (len v - 1) /\ bytes_ok (removelast v) /\ 1 <= len v /\
  len (removelast v) = len v - 1.
Proof.
  intros Hb Hne. pose proof (bytes_ok_last v Hb Hne) as Hlast.
  pose proof (app_removelast_last 0 Hne) as E.
  assert (Hr : bytes_ok (removelast v)) by (rewrite E in Hb; now apply bytes_ok_app in Hb).
  assert (El : len (removelast v) = len v - 1)
    by (rewrite E at 2; rewrite len_app, len_cons, (@len_nil Z); lia).
  pose proof (len_nonneg (removelast v)). pose proof (le_get_range _ Hr) as Hrange.
  rewrite El in Hrange. repeat split; auto; try lia.
  rewrite E at 1. rewrite le_get_app, le_get_one, El by assumption. lia.
Qed.

Lemma num_value_bound v : bytes_ok v -> v <> [] ->
  Z.abs (num_value v) < 128 * 256 ^ (len v - 1).
Proof.
  intros Hb Hne. destruct (le_get_last v Hb Hne) as (_ & Hr & _).
  unfold num_value. destruct v as [|x v']; [congruence|]. set (v := x :: v') in *.
  pose proof (Z.mod_pos_bound (last v 0) 128 eq_refl).
  assert (0 <= 256 ^ (len v - 1)) by (apply Z.pow_nonneg; lia).
  destruct (128 <=? last v 0); rewrite ?Z.abs_opp, Z.abs_eq by nia; nia.
Qed.

Lemma makeScriptNum_value v req k :
  bytes_ok v -> len v <= 7 -> len v <= k -> (req = true -> minimal v) ->
  makeScriptNum v req k = Ok (num_value v).
Proof.
  intros Hb H7 Hk Hmin. unfold makeScriptNum. decide_cmp.
  replace (if req then checkMinimalDataEncoding v else Ok tt) with (@Ok scriptErr unit tt)
    by (destruct req; [symmetry; apply checkMinimal_spec; auto | reflexivity]).
  cbn [obind]. destruct v as [|x v'] eqn:Ev; [reflexivity|]. rewrite <- Ev in *.
  assert (Hne : v <> []) by (rewrite Ev; discriminate).
  pose proof (bytes_ok_last v Hb Hne) as Hlast. pose proof (num_value_bound v Hb Hne) as Hbound.
  destruct (le_get_last v Hb Hne) as (E & Hr & _ & Hl & _).
  assert (Hp : 256 ^ (len v - 1) <= 256 ^ 6) by (apply Z.pow_le_mono_r; lia).
  assert (Hp0 : 0 < 256 ^ (len v - 1)) by (apply Z.pow_pos_nonneg; lia).
  decide_cmp. rewrite land_80 by assumption. rewrite num_loop_spec by (auto; try lia).
  replace (0 + 256 ^ 0 * le_get v) with (le_get v) by lia.
  assert (Hv : num_value v = if 128 <=? last v 0
      then - (le_get (removelast v) + 256 ^ (len v - 1) * (last v 0 mod 128))
      else le_get (removelast v) + 256 ^ (len v - 1) * (last v 0 mod 128)) by now rewrite Ev.
  destruct (Z.leb_spec 128 (last v 0)) as [H128|H128]; rewrite Hv in *; unfold is_byte in Hlast.
  - rewrite u8_id by (unfold is_byte; lia).
    assert (Ek : i64 (Z.shiftl 0x80 (8 * (len v - 1))) = 2 ^ (8 * (len v - 1) + 7)).
    { rewrite Z.shiftl_mul_pow2, Z.pow_add_r, <- pow_256 by lia.
      change (2 ^ 7) with 128. rewrite i64_id; [lia|]. unfold is_i64. lia. }
    assert (Em : last v 0 mod 128 = last v 0 - 128)
      by (symmetry; apply Z.mod_unique with 1; lia).
    rewrite Ek, land_lnot_pow2; rewrite ?Z.pow_add_r, <- ?pow_256 by lia;
      change (2 ^ 7) with 128; change (2 ^ 1) with 2; [|lia | nia].
    rewrite E, Em in *. rewrite i64_id; [f_equal; lia|]. unfold is_i64. nia.
  - rewrite Z.mod_small by lia. now rewrite E.
Qed.

Lemma le_get_pos r : bytes_ok r -> r <> [] -> last r 0 <> 0 -> 0 < le_get r.
Proof.
  intros Hb Hne Hl. destruct (le_get_last r Hb Hne) as (-> & Hr & _ & H1 & _).
  pose proof (bytes_ok_last r Hb Hne) as Hb'. unfold is_byte in Hb'.
  assert (0 < 256 ^ (len r - 1)) by (apply Z.pow_pos_nonneg; lia). nia.
Qed.

(** The loop writes the digits of its number to base 256, without a leading
    zero. *)
Lemma bytes_loop_digits r : forall fuel, bytes_ok r -> (r = [] \/ last r 0 <> 0) ->
  (List.length r <= fuel)%nat -> bytes_loop fuel (le_get r) = r.
Proof.
  induction r as [|b r IH]; intros fuel Hb Hl Hf; [now destruct fuel|].
  destruct fuel as [|fuel]; [cbn in Hf; lia|]. cbn [List.length] in Hf.
  assert (Hpos : 0 < le_get (b :: r))
    by (apply le_get_pos; [exact Hb | discriminate | destruct Hl; [discriminate | assumption]]).
  apply Forall_cons_iff in Hb. destruct Hb as [Hb Hr]. cbn [bytes_loop]. decide_cmp.
  rewrite le_get_cons by assumption. unfold is_byte in Hb. f_equal.
  - change 0xff with (Z.ones 8). rewrite Z.land_ones by lia. change (2 ^ 8) with 256.
    rewrite Z.mul_comm, Z.mod_add, Z.mod_small by lia. apply u8_id. unfold is_byte. lia.
  - rewrite Z.shiftr_div_pow2 by lia. change (2 ^ 8) with 256.
    rewrite Z.mul_comm, Z.div_add, Z.div_small by lia. cbn [Z.add]. apply IH; [exact Hr | | lia].
    destruct r; [now left | right]. destruct Hl as [Hl|Hl]; [discriminate | exact Hl].
Qed.

Lemma bytes_loop_get fuel : forall n, 0 <= n < 256 ^ Z.of_nat fuel ->
  le_get (bytes_loop fuel n) = n /\ bytes_ok (bytes_loop fuel n) /\
  (bytes_loop fuel n = [] \/ last (bytes_loop fuel n) 0 <> 0) /\
  (List.length (bytes_loop fuel n) <= fuel)%nat.
Proof.
  induction fuel as [|fuel IH]; intros n Hn; cbn [bytes_loop].
  - change (256 ^ Z.of_nat 0) with 1 in Hn. repeat split; auto; [|constructor].
    change (le_get []) with 0. lia.
  - destruct (Z.ltb_spec 0 n) as [H0|H0].
    2: { replace n with 0 by lia. repeat split; auto; [constructor | cbn; lia]. }
    rewrite pow256_succ in Hn. change 0xff with (Z.ones 8).
    rewrite Z.land_ones, Z.shiftr_div_pow2 by lia. change (2 ^ 8) with 256.
    pose proof (Z.mod_pos_bound n 256 eq_refl) as Hm.
    rewrite (u8_id (n mod 256)) by (unfold is_byte; lia).
    destruct (IH (n / 256)) as (Eg & Hb & Hl & Hf).
    { split; [apply Z.div_pos | apply Z.div_lt_upper_bound]; lia. }
    assert (Hmb : is_byte (n mod 256)) by (unfold is_byte; lia). repeat split.
    + rewrite le_get_cons, Eg by assumption. pose proof (Z.div_mod n 256). lia.
    + now constructor.
    + right. destruct (bytes_loop fuel (n / 256)) as [|x l] eqn:E.
      * change (le_get []) with 0 in Eg. cbn [last]. pose proof (Z.div_mod n 256). lia.
      * destruct Hl as [Hl|Hl]; [discriminate|]. exact Hl.
    + cbn [List.length]. lia.
Qed.

(** What [Bytes] makes of the digits of a magnitude. *)
Definition signed (neg : bool) (r : list Z) : list Z :=
  if 128 <=? last r 0 then r ++ [if neg then 0x80 else 0x00]
  else if neg then removelast r ++ [last r 0 + 128] else r.

Lemma Bytes_signed n r :
  n <> 0 -> - 2 ^ 63 < n < 2 ^ 63 -> bytes_ok r -> r <> [] -> last r 0 <> 0 ->
  le_get r = Z.abs n -> (List.length r <= 8)%nat -> Bytes n = Ok (signed (n <? 0) r).
Proof.
  intros Hn Hr Hb Hne Hl Hg Hf. unfold Bytes, signed. pose proof (bytes_ok_last r Hb Hne) as Hlb.
  assert (Ea : (if n <? 0 then i64 (- n) else n) = le_get r).
  { rewrite Hg. destruct (Z.ltb_spec n 0); [rewrite i64_id by (unfold is_i64; lia)|]; lia. }
  decide_cmp. rewrite Ea, bytes_loop_digits by auto. destruct r as [|x r']; [congruence|].
  rewrite land_80 by assumption. set (r := x :: r') in *.
  destruct (Z.leb_spec 128 (last r 0)); [reflexivity|].
  destruct (n <? 0); [|reflexivity]. rewrite lor_80 by (unfold is_byte in Hlb; lia). reflexivity.
Qed.

Lemma last_snoc {A} (l : list A) x d : last (l ++ [x]) d = x.
Proof. rewrite last_app_nonempty by discriminate. reflexivity. Qed.

Lemma len_snoc {A} (l : list A) x : len (l ++ [x]) = len l + 1.
Proof. rewrite len_app, len_cons, (@len_nil A). lia. Qed.

Lemma num_value_snoc w b : bytes_ok w ->
  num_value (w ++ [b]) =
  if 128 <=? b then - (le_get w + 256 ^ len w * (b mod 128)) else le_get w + 256 ^ len w * (b mod 128).
Proof.
  intros Hb. unfold num_value. destruct (w ++ [b]) eqn:E; [now destruct w|]. rewrite <- E.
  rewrite last_snoc, removelast_last, len_snoc. now replace (len w + 1 - 1) with (len w) by lia.
Qed.

Lemma signed_spec neg r : bytes_ok r -> r <> [] -> last r 0 <> 0 ->
  bytes_ok (signed neg r) /\ minimal (signed neg r) /\
  num_value (signed neg r) = (if neg then - le_get r else le_get r) /\
  len (signed neg r) <= len r + 1 /\
  (le_get r < 2 ^ (8 * len r - 1) -> len (signed neg r) = len r).
Proof.
  intros Hb Hne Hl. pose proof (bytes_ok_last r Hb Hne) as Hlb.
  destruct (le_get_last r Hb Hne) as (E & Hr & Hbr & H1 & El). unfold is_byte in Hlb.
  pose proof (app_removelast_last 0 Hne) as Er.
  assert (H0 : 0 < 256 ^ (len r - 1)) by (apply Z.pow_pos_nonneg; lia).
  unfold signed. destruct (Z.leb_spec 128 (last r 0)) as [H128|H128].
  - repeat split.
    + apply bytes_ok_app. split; [exact Hb|]. destruct neg; bytes_lit.
    + right; right. rewrite len_snoc. split; [lia|]. rewrite length_app. cbn [List.length].
      rewrite last_nth in H128. rewrite app_nth1 by (unfold len in H1; lia).
      now replace (List.length r + 1 - 2)%nat with (List.length r - 1)%nat by lia.
    + rewrite num_value_snoc by assumption. destruct neg.
      * change (128 <=? 128) with true. change (128 mod 128) with 0. cbv iota. lia.
      * change (128 <=? 0) with false. change (0 mod 128) with 0. cbv iota. lia.
    + rewrite len_snoc. lia.
    + intros Hlt. exfalso. replace (8 * len r - 1) with (8 * (len r - 1) + 7) in Hlt by lia.
      rewrite Z.pow_add_r, <- pow_256 in Hlt by lia. change (2 ^ 7) with 128 in Hlt. nia.
  - assert (Hm : (last r 0 + 128) mod 128 = last r 0)
      by (symmetry; apply Z.mod_unique with 1; lia).
    destruct neg; repeat split; try lia; auto.
    + apply bytes_ok_app. split; [exact Hbr|]. apply Forall_cons; [unfold is_byte; lia | constructor].
    + right; left. rewrite last_snoc. lia.
    + rewrite num_value_snoc, Hm, El by assumption. decide_cmp. lia.
    + rewrite len_snoc. lia.
    + rewrite len_snoc. lia.
    + right; left. rewrite Z.mod_small; lia.
    + rewrite Er at 1. rewrite num_value_snoc, El by assumption. decide_cmp.
      rewrite Z.mod_small by lia. lia.
Qed.

(** Every number has digits without a leading zero. *)
Lemma digits_of n : n <> 0 -> - 2 ^ 63 < n < 2 ^ 63 ->
  exists r, bytes_ok r /\ r <> [] /\ last r 0 <> 0 /\ le_get r = Z.abs n /\ (List.length r <= 8)%nat.
Proof.
  intros Hn Hr. assert (H8 : 256 ^ Z.of_nat 8 = 2 ^ 64) by reflexivity.
  destruct (bytes_loop_get 8 (Z.abs n)) as (Eg & Hb & Hl & Hf); [lia|].
  exists (bytes_loop 8 (Z.abs n)). repeat split; auto.
  - intros E. rewrite E in Eg. change (le_get []) with 0 in Eg. lia.
  - destruct Hl as [Hl|Hl]; [|exact Hl]. rewrite Hl in Eg. change (le_get []) with 0 in Eg. lia.
Qed.

Lemma Bytes_total n : - 2 ^ 63 < n < 2 ^ 63 ->
  exists v, Bytes n = Ok v /\ bytes_ok v /\ minimal v /\ num_value v = n /\ len v <= 9 /\
    forall k, 0 < k -> Z.abs n < 2 ^ (8 * k - 1) -> len v <= k.
Proof.
  intros Hn. destruct (Z.eq_dec n 0) as [->|H0].
  { exists []. split; [reflexivity|]. split; [constructor|]. split; [now left|].
    split; [reflexivity|]. change (len []) with 0. split; [lia|]. intros; lia. }
  destruct (digits_of n H0 Hn) as (r & Hb & Hne & Hl & Hg & Hf).
  destruct (signed_spec (n <? 0) r Hb Hne Hl) as (Hsb & Hmin & Hv & Hsl & Hexact).
  destruct (le_get_last r Hb Hne) as (E & Hr & _ & H1 & _).
  pose proof (bytes_ok_last r Hb Hne) as Hlb. unfold is_byte in Hlb.
  exists (signed (n <? 0) r). split; [now apply Bytes_signed|]. repeat split; auto.
  - rewrite Hv, Hg. destruct (Z.ltb_spec n 0); lia.
  - unfold len in Hsl at 2. lia.
  - intros k Hk Hlt. destruct (Z.lt_ge_cases (len r) k) as [|Hge]; [lia|].
    assert (Hp : 256 ^ (len r - 1) <= Z.abs n) by (rewrite <- Hg, E; nia).
    assert (len r <= k).
    { destruct (Z.lt_ge_cases k (len r)) as [Hc|]; [|assumption].
      assert (2 ^ (8 * k) <= 256 ^ (len r - 1)) by (rewrite pow_256 by lia; apply Z.pow_le_mono_r; lia).
      assert (2 ^ (8 * k - 1) <= 2 ^ (8 * k)) by (apply Z.pow_le_mono_r; lia). lia. }
    replace k with (len r) in * by lia. rewrite Hexact; lia.
Qed.

(** A minimal encoding is the one [Bytes] produces. *)
Lemma minimal_Bytes v : bytes_ok v -> len v <= 7 -> minimal v -> Bytes (num_value v) = Ok v.
Proof.
  intros Hb Hl Hmin. destruct v as [|x v'] eqn:Ev; [reflexivity|]. rewrite <- Ev in *.
  assert (Hne : v <> []) by (rewrite Ev; discriminate). clear Ev. unfold minimal in Hmin.
  pose proof (bytes_ok_last v Hb Hne) as Hlb. pose proof (num_value_bound v Hb Hne) as Hbd.
  destruct (le_get_last v Hb Hne) as (_ & Hr & Hbr & H1 & El). unfold is_byte in Hlb.
  pose proof (app_removelast_last 0 Hne) as Er.
  set (w := removelast v) in *. set (b := last v 0) in *.
  assert (Hw : 256 ^ (len v - 1) <= 256 ^ 6) by (apply Z.pow_le_mono_r; lia).
  assert (Hw0 : 0 < 256 ^ (len v - 1)) by (apply Z.pow_pos_nonneg; lia).
  assert (Hv : num_value v = if 128 <=? b then - (le_get w + 256 ^ len w * (b mod 128))
                             else le_get w + 256 ^ len w * (b mod 128))
    by (rewrite Er; now apply num_value_snoc).
  pose proof (Z.mod_pos_bound b 128 eq_refl) as Hm. rewrite El in Hv.
  destruct (Z.eq_dec (b mod 128) 0) as [E0|E0].
  - destruct Hmin as [?|[?|[H2 H128]]]; [congruence | congruence |].
    assert (Hwne : w <> []) by (intros E; rewrite E in El; change (len []) with 0 in El; lia).
    assert (Hlw : last w 0 = nth (List.length v - 2) v 0).
    { rewrite last_nth, Er, length_app, app_nth1 by (unfold len in *; cbn [List.length]; lia).
      cbn [List.length]. f_equal. lia. }
    assert (Hpos : 0 < le_get w) by (apply le_get_pos; auto; rewrite Hlw; lia).
    assert (Hb0 : b = 0 \/ b = 128) by (pose proof (Z.div_mod b 128); lia).
    rewrite E0 in Hv. rewrite (Bytes_signed _ w); auto.
    + assert (Hs : (if num_value v <? 0 then 128 else 0) = b).
      { rewrite Hv. destruct Hb0 as [E|E]; rewrite E;
          [change (128 <=? 0) with false | change (128 <=? 128) with true]; cbv iota; decide_cmp;
          reflexivity. }
      unfold signed. rewrite Hlw, Hs. decide_cmp. now rewrite <- Er.
    + rewrite Hv. destruct (128 <=? b); lia.
    + lia.
    + rewrite Hlw. lia.
    + rewrite Hv. destruct (128 <=? b); lia.
    + unfold len in *. lia.
  - assert (Hrb : bytes_ok (w ++ [b mod 128])).
    { apply bytes_ok_app. split; [exact Hbr|]. apply Forall_cons; [unfold is_byte; lia | constructor]. }
    assert (Hg : le_get (w ++ [b mod 128]) = le_get w + 256 ^ (len v - 1) * (b mod 128))
      by (rewrite le_get_app, le_get_one, El by (auto; unfold is_byte; lia); reflexivity).
    rewrite (Bytes_signed _ (w ++ [b mod 128])); auto.
    + unfold signed. rewrite last_snoc, removelast_last, Hv. decide_cmp.
      destruct (Z.leb_spec 128 b) as [Hc|Hc]; decide_cmp; rewrite Er; do 3 f_equal.
      * pose proof (Z.div_mod b 128). assert (b / 128 = 1) by nia. lia.
      * rewrite Z.mod_small; lia.
    + rewrite Hv. destruct (128 <=? b); nia.
    + lia.
    + now destruct w.
    + rewrite last_snoc. exact E0.
    + rewrite Hg, Hv. destruct (128 <=? b); nia.
    + rewrite length_app. unfold len in *. cbn [List.length]. lia.
Qed.

Lemma makeScriptNum_Ok v req k n : bytes_ok v -> k <= 7 -> makeScriptNum v req k = Ok n ->
  len v <= k /\ (req = true -> minimal v) /\ n = num_value v.
Proof.
  intros Hb Hk H. assert (Hl : len v <= k).
  { unfold makeScriptNum in H. destruct (Z.ltb_spec k (len v)); [discriminate | assumption]. }
  assert (Hm : req = true -> minimal v).
  { intros ->. apply checkMinimal_spec; [exact Hb|]. unfold makeScriptNum in H.
    destruct (_ <? _); [discriminate|]. apply obind_Ok in H. destruct H as ([] & E & _). exact E. }
  rewrite makeScriptNum_value in H by (auto; lia). split; [exact Hl|]. split; [exact Hm | congruence].
Qed.

(** Reading a number of limited size never panics, and fails only for the two
    reasons. *)
Lemma makeScriptNum_safe v req k : bytes_ok v -> k <= 7 ->
  (exists n, makeScriptNum v req k = Ok n /\ (len v = 0 -> n = 0) /\
             (v <> [] -> Z.abs n < 128 * 256 ^ (len v - 1)) /\ len v <= k) \/
  makeScriptNum v req k = Err (scriptError ErrNumberTooBig) \/
  makeScriptNum v req k = Err (scriptError ErrMinimalData).
Proof.
  intros Hb Hk. destruct (makeScriptNum v req k) as [n|e|] eqn:E.
  - left. exists n. apply makeScriptNum_Ok in E; auto. destruct E as (Hl & _ & ->).
    repeat split; auto; [|intros; now apply num_value_bound].
    destruct v; [reflexivity|]. rewrite len_cons. pose proof (len_nonneg v). lia.
  - right. unfold makeScriptNum, checkMinimalDataEncoding in E.
    destruct (_ <? _); [left; congruence|]. right.
    destruct req; cbn [obind] in E;
      repeat match type of E with context [if ?c then _ else _] => destruct c end;
      cbn [obind] in E; congruence.
  - exfalso. unfold makeScriptNum, checkMinimalDataEncoding in E.
    destruct (_ <? _); [discriminate|].
    destruct req; cbn [obind] in E;
      repeat match type of E with context [if ?c then _ else _] => destruct c end;
      cbn [obind] in E; congruence.
Qed.

(** Every 64-bit number but the smallest encodes to at most nine bytes, and
    decoding them under any length limit that the number fits gives the number, with
    and without the minimal encoding rule. *)
Theorem scriptNum_roundtrip n : - 2 ^ 63 < n < 2 ^ 63 ->
  exists v, Bytes n = Ok v /\ bytes_ok v /\ len v <= 9 /\
    forall k req, 0 < k <= 7 -> Z.abs n < 2 ^ (8 * k - 1) -> makeScriptNum v req k = Ok n.
Proof.
  intros Hn. destruct (Bytes_total n Hn) as (v & E & Hb & Hm & Hv & H9 & Hl).
  exists v. repeat split; auto. intros k req Hk Hlt. specialize (Hl k (proj1 Hk) Hlt).
  rewrite makeScriptNum_value by (auto; lia). congruence.
Qed.

Lemma scriptNum_roundtrip_witness :
  exists v, Bytes (-255) = Ok v /\ bytes_ok v /\ len v <= 9 /\
    forall k req, 0 < k <= 7 -> Z.abs (-255) < 2 ^ (8 * k - 1) -> makeScriptNum v req k = Ok (-255).
Proof. apply (scriptNum_roundtrip (-255)). lia. Defined.

(** Under the minimal encoding rule makeScriptNum accepts exactly the bytes
    that Bytes produces for a number that fits the length limit, and returns that
    number. *)
Theorem scriptNum_canonical v k n : bytes_ok v -> 0 < k <= 7 ->
  makeScriptNum v true k = Ok n <-> Bytes n = Ok v /\ Z.abs n < 2 ^ (8 * k - 1).
Proof.
  intros Hb Hk. split.
  - intros H. apply makeScriptNum_Ok in H; [|exact Hb | lia]. destruct H as (Hl & Hm & ->).
    split; [apply minimal_Bytes; auto; lia|]. destruct v as [|x v'] eqn:Ev.
    + change (num_value []) with 0. change (Z.abs 0) with 0. apply Z.pow_pos_nonneg; lia.
    + rewrite <- Ev in *. pose proof (num_value_bound v Hb ltac:(rewrite Ev; discriminate)) as H.
      replace (8 * k - 1) with (8 * (k - 1) + 7) by lia. rewrite Z.pow_add_r, <- pow_256 by lia.
      change (2 ^ 7) with 128.
      assert (256 ^ (len v - 1) <= 256 ^ (k - 1)) by (apply Z.pow_le_mono_r; lia). lia.
  - intros [E Hlt]. assert (2 ^ (8 * k - 1) <= 2 ^ 55) by (apply Z.pow_le_mono_r; lia).
    destruct (Bytes_total n) as (v' & E' & Hb' & Hm & Hv & _ & Hl); [lia|].
    rewrite E in E'. injection E' as <-. specialize (Hl k (proj1 Hk) Hlt).
    rewrite makeScriptNum_value by (auto; lia). congruence.
Qed.

Lemma scriptNum_canonical_witness :
  Bytes (-255) = Ok [0xff; 0x80] /\ Z.abs (-255) < 2 ^ (8 * 4 - 1).
Proof. apply (scriptNum_canonical [0xff; 0x80] 4 (-255)); [bytes_lit | lia | reflexivity]. Defined.

(** Encoding the smallest [int64] panics. *)
Theorem Bytes_min_panics : Bytes (- 2 ^ 63) = Panic.
Proof. reflexivity. Qed.

(** ** The builder writes the tokens it is asked for *)

(** What executing a push puts on the stack. *)
Definition pushed (k : token) : option (list Z) :=
  if tok_op k <=? OP_PUSHDATA4 then Some (tok_data k)
  else if tok_op k =? OP_1NEGATE then Some [0x81]
  else if (OP_1 <=? tok_op k) && (tok_op k <=? OP_16) then Some [tok_op k - (OP_1 - 1)]
  else None.

(** The shortest push of some data. *)
Definition canon (d : list Z) : token :=
  if (len d =? 0) || ((len d =? 1) && (at_ d 0 =? 0)) then mkToken OP_0 []
  else if (len d =? 1) && (at_ d 0 <=? 16) then mkToken (0x50 + at_ d 0) []
  else if (len d =? 1) && (at_ d 0 =? 0x81) then mkToken OP_1NEGATE []
  else if len d <? OP_PUSHDATA1 then mkToken (len d) d
  else if len d <=? 0xff then mkToken OP_PUSHDATA1 d
  else if len d <=? 0xffff then mkToken OP_PUSHDATA2 d
  else mkToken OP_PUSHDATA4 d.

Lemma sb_append_app b l l' : sb_append (sb_append b l) l' = sb_append b (l ++ l').
Proof. unfold sb_append. cbn [sb_script sb_err]. now rewrite app_assoc. Qed.

Lemma len1 (d : list Z) : len d = 1 -> d = [at_ d 0].
Proof.
  destruct d as [|x [|y d]]; [discriminate | reflexivity|]. rewrite !len_cons.
  pose proof (len_nonneg d). lia.
Qed.

(** The builder appends the shortest push, of the size computed for it. *)
Definition adds_canon (b : ScriptBuilder) (d : list Z) : Prop :=
  addData b d = sb_append b (raw (canon d)) /\ token_ok (canon d) /\
  canonicalDataSize d = len (raw (canon d)) /\
  pushed (canon d) = Some (if bytes_eqb d [0] then [] else d).

Lemma addData_one b x : is_byte x -> adds_canon b [x].
Proof.
  intros Hx. unfold adds_canon, addData, canonicalDataSize, canon, at_.
  change (len [x]) with 1. cbn [nth bytes_eqb Z.eqb Pos.eqb orb andb]. rewrite andb_true_r.
  unfold OP_PUSHDATA1, is_byte in *. change (1 <? 76) with true. cbv iota.
  destruct (Z.eqb_spec x 0) as [->|Hx0]; cbv iota; [repeat split; try discriminate; constructor|].
  destruct (Z.leb_spec x 16) as [H16|H16]; cbv iota.
  { rewrite u8_id by (unfold is_byte, OP_1; lia).
    assert (Hs : isSmallInt (0x50 + x) = true)
      by (unfold isSmallInt, OP_0, OP_1, OP_16; decide_cmp; reflexivity).
    pose proof (smallInt_token (0x50 + x) ltac:(unfold is_byte; lia) Hs) as Hk.
    rewrite (smallInt_raw _ Hk Hs). repeat split; try apply Hk.
    unfold pushed, OP_PUSHDATA4, OP_1NEGATE, OP_1, OP_16. cbn [tok_op]. decide_cmp. cbn [andb].
    do 2 f_equal. lia. }
  destruct (Z.eqb_spec x 0x81) as [->|Hx81]; cbv iota; [repeat split; try discriminate; constructor|].
  destruct (push_token [x]) as [Hk Hr];
    [repeat constructor; unfold is_byte; lia | change (len [x]) with 1; lia |].
  change (len [x]) with 1 in Hk, Hr. rewrite Hr, sb_append_app. repeat split; try apply Hk.
Qed.

(** The pushes with explicit length bytes. *)
Lemma pushdata_token op w d : bytes_ok d ->
  (op, w) = (76, 1%nat) \/ (op, w) = (77, 2%nat) \/ (op, w) = (78, 4%nat) ->
  len d < Z.min (256 ^ Z.of_nat w) (2 ^ 31) ->
  token_ok (mkToken op d) /\ raw (mkToken op d) = [op] ++ le_put w (len d) ++ d /\
  len (raw (mkToken op d)) = 1 + Z.of_nat w + len d /\ pushed (mkToken op d) = Some d.
Proof.
  intros Hb Hc Hl.
  assert (Hr : raw (mkToken op d) = [op] ++ le_put w (len d) ++ d)
    by (destruct Hc as [[= -> ->]|[[= -> ->]|[= -> ->]]]; reflexivity).
  split; [|split; [exact Hr|]; split].
  - destruct Hc as [[= -> ->]|[[= -> ->]|[= -> ->]]];
      (split; [split; cbn; lia|]; split; [exact Hb|]; unfold dataLen_ok; cbn [tok_op tok_data];
       cbn -[Z.pow] in *; lia).
  - rewrite Hr, !len_app. unfold len at 2. rewrite le_put_length. change (len [op]) with 1. lia.
  - destruct Hc as [[= -> ->]|[[= -> ->]|[= -> ->]]]; reflexivity.
Qed.

Lemma addData_canon b d : bytes_ok d -> len d < 2 ^ 31 -> adds_canon b d.
Proof.
  intros Hb Hl. pose proof (len_nonneg d) as H0.
  destruct (Z.eq_dec (len d) 1) as [E1|E1].
  { rewrite (len1 d E1) in *. apply addData_one. now inversion Hb. }
  unfold adds_canon, addData, canonicalDataSize, canon. decide_cmp. cbn [andb]. rewrite orb_false_r.
  destruct (Z.eqb_spec (len d) 0) as [E|E].
  { destruct d as [|x d]; [|rewrite len_cons in E; pose proof (len_nonneg d); lia].
    repeat split; try discriminate. constructor. }
  replace (bytes_eqb d [0]) with false
    by (symmetry; apply not_true_iff_false; rewrite bytes_eqb_eq; intros ->; apply E1; reflexivity).
  cbv iota. unfold OP_PUSHDATA1, OP_PUSHDATA2, OP_PUSHDATA4, OP_DATA_1 in *.
  destruct (Z.ltb_spec (len d) 76).
  { rewrite u8_id, sb_append_app by (unfold is_byte; lia).
    destruct (push_token d Hb ltac:(lia)) as [Hk Hr]. rewrite Hr, len_cons. repeat split; try apply Hk.
    unfold pushed, OP_PUSHDATA4. cbn [tok_op]. decide_cmp. reflexivity. }
  destruct (Z.leb_spec (len d) 0xff).
  { destruct (pushdata_token 76 1 d) as (Hk & Hr & Hrl & Hp); auto; [cbn -[Z.pow]; lia|].
    rewrite Hr at 1. rewrite u8_id, sb_append_app, Hrl by (unfold is_byte; lia).
    unfold le_put at 1. rewrite u8_id by (unfold is_byte; lia). repeat split; try apply Hk; auto. }
  destruct (Z.leb_spec (len d) 0xffff).
  { destruct (pushdata_token 77 2 d) as (Hk & Hr & Hrl & Hp); auto; [cbn -[Z.pow]; lia|].
    rewrite Hr at 1. rewrite u16_id, !sb_append_app, Hrl by (unfold is_u16; lia).
    repeat split; try apply Hk; auto. }
  destruct (pushdata_token 78 4 d) as (Hk & Hr & Hrl & Hp); auto.
  rewrite Hr at 1. rewrite u32_id, !sb_append_app, Hrl by (unfold is_u32; lia).
  repeat split; try apply Hk; auto.
Qed.

(** Programs for the builder. *)
Inductive builderCmd : Type :=
| CmdOp (opcode : Z)
| CmdData (data : list Z)
| CmdInt (val : Z).

Definition run_cmd (b : ScriptBuilder) (c : builderCmd) : outcome scriptErr ScriptBuilder :=
  match c with
  | CmdOp opcode => Ok (AddOp b opcode)
  | CmdData data => Ok (AddData b data)
  | CmdInt val => AddInt64 b val
  end.

Fixpoint run_cmds (b : ScriptBuilder) (cs : list builderCmd) : outcome scriptErr ScriptBuilder :=
  match cs with
  | [] => Ok b
  | c :: cs' => let* b' := run_cmd b c in run_cmds b' cs'
  end.

(** An opcode that is not a push, bytes, and a number that can be negated. *)
Definition cmd_ok (c : builderCmd) : Prop :=
  match c with
  | CmdOp opcode => is_byte opcode /\ opcodeLength opcode = 1
  | CmdData data => bytes_ok data
  | CmdInt val => - 2 ^ 63 < val < 2 ^ 63
  end.

(** The token a command should leave: the opcode itself, or a push of the data
    or of the number. *)
Definition cmd_token (c : builderCmd) (k : token) : Prop :=
  match c with
  | CmdOp opcode => k = mkToken opcode []
  | CmdData data => pushed k = Some (if bytes_eqb data [0] then [] else data)
  | CmdInt val => exists l, Bytes val = Ok l /\ pushed k = Some l
  end.

(** A command either fails, leaving the script as it is, or appends its token. *)
Definition cmd_result (b : ScriptBuilder) (c : builderCmd) (b' : ScriptBuilder) : Prop :=
  len (sb_script b') <= MaxScriptSize /\
  (sb_err b' = true \/
   sb_err b' = false /\
   exists k, token_ok k /\ cmd_token c k /\ sb_script b' = sb_script b ++ raw k).

Lemma cmd_result_fail b c : len (sb_script b) <= MaxScriptSize -> cmd_result b c (sb_fail b).
Proof. intros H. split; auto. Qed.

Lemma cmd_result_append b c k : sb_err b = false -> token_ok k -> cmd_token c k ->
  len (sb_script b) + len (raw k) <= MaxScriptSize -> cmd_result b c (sb_append b (raw k)).
Proof.
  intros He Hk Hc Hs. split; [|right]; unfold sb_append; cbn [sb_script sb_err].
  - rewrite len_app. exact Hs.
  - split; [exact He|]. exists k. auto.
Qed.

Section Commands.
Context (b : ScriptBuilder) (He : sb_err b = false) (Hs : len (sb_script b) <= MaxScriptSize).

Lemma AddOp_result op : cmd_ok (CmdOp op) -> cmd_result b (CmdOp op) (AddOp b op).
Proof.
  intros [Hop Hlen]. unfold AddOp. rewrite He.
  destruct (Z.ltb_spec MaxScriptSize (len (sb_script b) + 1)); [now apply cmd_result_fail|].
  assert (Hk : token_ok (mkToken op []) /\ raw (mkToken op []) = [op]).
  { destruct (opcode_shape op Hop) as [(? & E & _) | [(w & _ & E & _) | (_ & Ew & Hiff)]]; try lia.
    split; [split; [exact Hop|]; split; [constructor|]; now apply Hiff|].
    unfold raw. cbn [tok_op tok_data]. now rewrite Ew. }
  destruct Hk as [Hk Hr]. rewrite <- Hr. apply cmd_result_append; auto; [reflexivity|].
  rewrite Hr. change (len [op]) with 1. lia.
Qed.

Lemma AddData_result d : bytes_ok d -> cmd_result b (CmdData d) (AddData b d).
Proof.
  intros Hd. unfold AddData. rewrite He.
  destruct (Z.ltb_spec MaxScriptSize (len (sb_script b) + canonicalDataSize d));
    [now apply cmd_result_fail|].
  destruct (Z.ltb_spec MaxScriptElementSize (len d)); [now apply cmd_result_fail|].
  destruct (addData_canon b d Hd) as (E & Hk & Es & Ep); [unfold MaxScriptElementSize in *; lia|].
  rewrite E. apply cmd_result_append; auto. lia.
Qed.

(** The opcodes for -1 and 1 to 16. *)
Lemma smallNum_token n : n = -1 \/ 1 <= n <= 16 ->
  exists l, Bytes n = Ok l /\ token_ok (mkToken (0x50 + n) []) /\
    raw (mkToken (0x50 + n) []) = [0x50 + n] /\ pushed (mkToken (0x50 + n) []) = Some l.
Proof.
  intros [->|Hn]; [exists [0x81]; repeat split; try discriminate; constructor|].
  assert (Hin : In n (map Z.of_nat (seq 1 16)))
    by (apply in_map_iff; exists (Z.to_nat n); split; [lia | apply in_seq; lia]).
  cbn in Hin. repeat destruct Hin as [<-|Hin]; try contradiction;
    (eexists; repeat split; try discriminate; constructor).
Qed.

Lemma AddInt64_result n : cmd_ok (CmdInt n) ->
  exists b', AddInt64 b n = Ok b' /\ cmd_result b (CmdInt n) b'.
Proof.
  intros Hc. unfold AddInt64. rewrite He.
  destruct (Z.ltb_spec MaxScriptSize (len (sb_script b) + 1));
    [eexists; split; [reflexivity | now apply cmd_result_fail]|].
  destruct (Z.eqb_spec n 0) as [->|H0].
  { exists (sb_append b (raw (mkToken OP_0 []))). split; [reflexivity|].
    apply cmd_result_append; auto; [repeat split; try discriminate; constructor|].
    exists []. split; reflexivity. }
  destruct ((n =? -1) || ((1 <=? n) && (n <=? 16))) eqn:Esm.
  - destruct (smallNum_token n) as (l & El & Hk & Hr & Hp).
    { apply orb_true_iff in Esm. now rewrite andb_true_iff, Z.eqb_eq, !Z.leb_le in Esm. }
    change (OP_1 - 1) with 0x50. rewrite u8_id by apply Hk. rewrite <- Hr.
    eexists. split; [reflexivity|]. apply cmd_result_append; auto; [exists l; auto|].
    rewrite Hr. change (len [_]) with 1. lia.
  - destruct (Bytes_total n Hc) as (l & El & Hlb & _ & Hv & _).
    rewrite El. cbn [obind]. eexists. split; [reflexivity|].
    destruct (AddData_result l Hlb) as [H1 [H2|(H2 & k & Hk & Hp & H3)]]; split; auto.
    right. split; [exact H2|]. exists k. split; [exact Hk|]. split; [|exact H3].
    exists l. split; [exact El|]. cbn [cmd_token] in Hp. rewrite Hp.
    destruct (bytes_eqb l [0]) eqn:E0; [|reflexivity]. apply bytes_eqb_eq in E0. subst l.
    exfalso. apply H0. rewrite <- Hv. reflexivity.
Qed.
End Commands.

(** A builder that failed stays as it is. *)
Lemma run_cmds_failed cs : forall b, sb_err b = true -> run_cmds b cs = Ok b.
Proof.
  induction cs as [|c cs IH]; intros b He; [reflexivity|]. cbn [run_cmds].
  replace (run_cmd b c) with (@Ok scriptErr _ b); [now apply IH|].
  destruct c; cbn [run_cmd]; unfold AddOp, AddData, AddInt64; now rewrite He.
Qed.

Lemma run_cmds_spec cs : forall b pre,
  Forall cmd_ok cs -> sb_err b = false -> len (sb_script b) <= MaxScriptSize ->
  sb_script b = concat (map raw pre) -> Forall token_ok pre ->
  exists b', run_cmds b cs = Ok b' /\ len (sb_script b') <= MaxScriptSize /\
    (sb_err b' = false ->
     exists toks, Forall2 cmd_token cs toks /\ Forall token_ok (pre ++ toks) /\
       sb_script b' = concat (map raw (pre ++ toks))).
Proof.
  induction cs as [|c cs IH]; intros b pre Hcs He Hs Hb Hpre; cbn [run_cmds].
  - exists b. repeat split; auto. intros _. exists []. rewrite app_nil_r. auto.
  - apply Forall_cons_iff in Hcs. destruct Hcs as [Hc Hcs].
    assert (Hrun : exists b1, run_cmd b c = Ok b1 /\ cmd_result b c b1).
    { destruct c; cbn [run_cmd]; [eexists; split; [reflexivity | now apply AddOp_result] |
        eexists; split; [reflexivity | now apply AddData_result] | now apply AddInt64_result]. }
    destruct Hrun as (b1 & E1 & Hs1 & [He1|(He1 & k & Hk & Hck & Hb1)]); rewrite E1; cbn [obind].
    + exists b1. rewrite run_cmds_failed by assumption. repeat split; auto. congruence.
    + destruct (IH b1 (pre ++ [k])) as (b' & Er & Hs' & Hgood); auto.
      * rewrite Hb1, Hb, map_app, concat_app. cbn [map concat]. now rewrite app_nil_r.
      * apply Forall_app. auto.
      * exists b'. repeat split; auto. intros He'. destruct (Hgood He') as (toks & H2 & Hok & Ht).
        exists (k :: toks). rewrite <- app_assoc in *. repeat split; auto.
Qed.

(** A sequence of builder calls never panics and never exceeds the script size
    limit, and unless it ends in the error state the script parses to one token for
    each call: the opcode, the number or the data in its canonical push. *)
Theorem builder_correct cs : Forall cmd_ok cs ->
  exists b, run_cmds NewScriptBuilder cs = Ok b /\ len (sb_script b) <= MaxScriptSize /\
    (sb_err b = false ->
     exists toks, parses_to (sb_script b) toks [] /\ Forall2 cmd_token cs toks).
Proof.
  intros Hcs. destruct (run_cmds_spec cs NewScriptBuilder []) as (b & E & Hs & Hgood); auto;
    [vm_compute; discriminate|].
  exists b. repeat split; auto. intros He. destruct (Hgood He) as (toks & H2 & Hok & Ht).
  exists toks. split; [|exact H2]. split; [now rewrite app_nil_r|].
  split; [exact Hok|]. intros k post _. discriminate.
Qed.

Lemma builder_correct_witness :
  exists b, run_cmds NewScriptBuilder [CmdOp OP_DUP; CmdInt 300; CmdData [7; 8]] = Ok b /\
    len (sb_script b) <= MaxScriptSize /\
    (sb_err b = false ->
     exists toks, parses_to (sb_script b) toks [] /\
       Forall2 cmd_token [CmdOp OP_DUP; CmdInt 300; CmdData [7; 8]] toks).
Proof.
  apply (builder_correct [CmdOp OP_DUP; CmdInt 300; CmdData [7; 8]]).
  apply Forall_cons; [split; [split; [discriminate | reflexivity] | reflexivity]|].
  apply Forall_cons; [cbn [cmd_ok]; lia|]. apply Forall_cons; [cbn [cmd_ok]; bytes_lit | constructor].
Defined.
