(* ===== verification/ScriptStack.v ===== *)
(** * The stacks of the script engine

    src/txscript/stack.go.  As in the code the stack is a slice whose last
    element is the top, indexes count from the top, and sizes are [int32].  The
    reference view is the list with the top first, on which every operation is
    a simple rearrangement. *)

From Stdlib Require Import ZArith List Lia Bool.
From S2P Require Import Prelude Opcodes GoSlice GoIO Script ScriptNum.
Import ListNotations.
Local Open Scope Z_scope.
Local Open Scope go_scope.

Fixpoint asBool (t : list Z) : bool :=
  match t with
  | [] => false
  | x :: t' =>
      if x =? 0 then asBool t'
      else negb ((len t' =? 0) && (x =? 0x80))
  end.

Definition fromBool (v : bool) : list Z := if v then [1] else [].

Record stack : Type := mkStack { stk : list (list Z); verifyMinimalData : bool }.

Definition with_stk (s : stack) (l : list (list Z)) : stack := mkStack l (verifyMinimalData s).

Definition Depth (s : stack) : Z := i32 (len (stk s)).

Definition PushByteArray (s : stack) (so : list Z) : stack := with_stk s (stk s ++ [so]).

Definition PushInt (s : stack) (val : Z) : outcome scriptErr stack :=
  let* so := Bytes val in Ok (PushByteArray s so).

Definition PushBool (s : stack) (val : bool) : stack := PushByteArray s (fromBool val).

Definition nipN (s : stack) (idx : Z) : outcome scriptErr (list Z * stack) :=
  let sz := i32 (len (stk s)) in
  if (idx <? 0) || (sz - 1 <? idx) then Err (scriptError ErrInvalidStackOperation)
  else
    let* so := get_at (stk s) (sz - idx - 1) in
    if idx =? 0 then
      let* l := slice (stk s) 0 (sz - 1) in Ok (so, with_stk s l)
    else if idx =? sz - 1 then
      let* l := slice (stk s) 1 (len (stk s)) in Ok (so, with_stk s l)
    else
      let* s1 := slice (stk s) (sz - idx) sz in
      let* l := slice (stk s) 0 (sz - idx - 1) in
      Ok (so, with_stk s (l ++ s1)).

Definition PopByteArray (s : stack) : outcome scriptErr (list Z * stack) := nipN s 0.

Definition PopInt (s : stack) : outcome scriptErr (Z * stack) :=
  let* (so, s) := PopByteArray s in
  let* n := makeScriptNum so (verifyMinimalData s) maxScriptNumLen in
  Ok (n, s).

Definition PopBool (s : stack) : outcome scriptErr (bool * stack) :=
  let* (so, s) := PopByteArray s in Ok (asBool so, s).

Definition PeekByteArray (s : stack) (idx : Z) : outcome scriptErr (list Z) :=
  let sz := i32 (len (stk s)) in
  if (idx <? 0) || (sz <=? idx) then Err (scriptError ErrInvalidStackOperation)
  else get_at (stk s) (sz - idx - 1).

Definition PeekInt (s : stack) (idx : Z) : outcome scriptErr Z :=
  let* so := PeekByteArray s idx in
  makeScriptNum so (verifyMinimalData s) maxScriptNumLen.

Definition PeekBool (s : stack) (idx : Z) : outcome scriptErr bool :=
  let* so := PeekByteArray s idx in Ok (asBool so).

Definition NipN (s : stack) (idx : Z) : outcome scriptErr stack :=
  let* (_, s) := nipN s idx in Ok s.

Definition Tuck (s : stack) : outcome scriptErr stack :=
  let* (so2, s) := PopByteArray s in
  let* (so1, s) := PopByteArray s in
  Ok (PushByteArray (PushByteArray (PushByteArray s so2) so1) so2).

Fixpoint drop_loop (n : nat) (s : stack) : outcome scriptErr stack :=
  match n with
  | O => Ok s
  | S n => let* (_, s) := PopByteArray s in drop_loop n s
  end.

Definition DropN (s : stack) (n : Z) : outcome scriptErr stack :=
  if n <? 1 then Err (scriptError ErrInvalidStackOperation) else drop_loop (Z.to_nat n) s.

(** [for i := n; i > 0; i-- { so := PeekByteArray(entry); PushByteArray(so) }]. *)
Fixpoint peek_loop (n : nat) (entry : Z) (s : stack) : outcome scriptErr stack :=
  match n with
  | O => Ok s
  | S n => let* so := PeekByteArray s entry in peek_loop n entry (PushByteArray s so)
  end.

(** [for i := n; i > 0; i-- { so := nipN(entry); PushByteArray(so) }]. *)
Fixpoint nip_loop (n : nat) (entry : Z) (s : stack) : outcome scriptErr stack :=
  match n with
  | O => Ok s
  | S n => let* (so, s) := nipN s entry in nip_loop n entry (PushByteArray s so)
  end.

Definition DupN (s : stack) (n : Z) : outcome scriptErr stack :=
  if n <? 1 then Err (scriptError ErrInvalidStackOperation)
  else peek_loop (Z.to_nat n) (i32 (n - 1)) s.

Definition RotN (s : stack) (n : Z) : outcome scriptErr stack :=
  if n <? 1 then Err (scriptError ErrInvalidStackOperation)
  else nip_loop (Z.to_nat n) (i32 (3 * n - 1)) s.

Definition SwapN (s : stack) (n : Z) : outcome scriptErr stack :=
  if n <? 1 then Err (scriptError ErrInvalidStackOperation)
  else nip_loop (Z.to_nat n) (i32 (2 * n - 1)) s.

Definition OverN (s : stack) (n : Z) : outcome scriptErr stack :=
  if n <? 1 then Err (scriptError ErrInvalidStackOperation)
  else peek_loop (Z.to_nat n) (i32 (2 * n - 1)) s.

Definition PickN (s : stack) (n : Z) : outcome scriptErr stack :=
  let* so := PeekByteArray s n in Ok (PushByteArray s so).

Definition RollN (s : stack) (n : Z) : outcome scriptErr stack :=
  let* (so, s) := nipN s n in Ok (PushByteArray s so).

(** ** The reference view *)

(** The elements, top first. *)
Definition items (s : stack) : list (list Z) := rev (stk s).

(** The stack with the given elements, top first. *)
Definition restack (s : stack) (l : list (list Z)) : stack := with_stk s (rev l).

Definition stack_ok (s : stack) : Prop := len (stk s) < 2 ^ 31.

Lemma restack_items s : restack s (items s) = s.
Proof. unfold restack, items, with_stk. rewrite rev_involutive. now destruct s. Qed.

Lemma items_restack s l : items (restack s l) = l.
Proof. apply rev_involutive. Qed.

Lemma len_rev {A} (l : list A) : len (rev l) = len l.
Proof. unfold len. now rewrite length_rev. Qed.

Lemma restack_restack s l l' : restack (restack s l) l' = restack s l'.
Proof. reflexivity. Qed.

Lemma Push_restack s l so : PushByteArray (restack s l) so = restack s (so :: l).
Proof. reflexivity. Qed.

Section Top.
Context (s : stack) (l : list (list Z)) (Hl : len l < 2 ^ 31).

Lemma depth_restack : i32 (len (stk (restack s l))) = len l.
Proof.
  unfold restack, with_stk; cbn [stk]. rewrite len_rev. apply i32_id.
  unfold is_i32. pose proof (len_nonneg l). lia.
Qed.

(** Reading from the top. *)
Lemma Peek_restack i so : nth_error l i = Some so ->
  PeekByteArray (restack s l) (Z.of_nat i) = Ok so.
Proof.
  intros E. pose proof (nth_error_Some l i) as Hi. rewrite E in Hi.
  assert (Hlt : (i < List.length l)%nat) by (apply Hi; discriminate).
  unfold PeekByteArray. rewrite depth_restack. unfold len. decide_cmp. cbn [orb].
  unfold get_at. decide_cmp. unfold restack, with_stk; cbn [stk].
  rewrite nth_error_rev. replace (Z.to_nat _) with (List.length l - S i)%nat by lia.
  destruct (Nat.ltb_spec (List.length l - S i) (List.length l)); [|lia].
  replace (List.length l - S (List.length l - S i))%nat with i by lia. now rewrite E.
Qed.

Lemma Peek_restack_none i : i < 0 \/ len l <= i ->
  PeekByteArray (restack s l) i = Err (scriptError ErrInvalidStackOperation).
Proof.
  intros Hi. unfold PeekByteArray. rewrite depth_restack.
  destruct (Z.ltb_spec i 0), (Z.leb_spec (len l) i); try reflexivity. lia.
Qed.

(** Removing below the top. *)
Lemma nipN_restack a so b : l = a ++ so :: b ->
  nipN (restack s l) (len a) = Ok (so, restack s (a ++ b)).
Proof.
  intros E. unfold nipN. rewrite depth_restack.
  pose proof (len_nonneg a). pose proof (len_nonneg b).
  assert (Hlen : len l = len a + 1 + len b) by (rewrite E, len_app, len_cons; lia).
  decide_cmp. cbn [orb]. unfold restack, with_stk; cbn [stk verifyMinimalData].
  assert (HL : rev l = rev b ++ so :: rev a)
    by (rewrite E, rev_app_distr; cbn [rev]; now rewrite <- app_assoc).
  rewrite HL, (get_at_eq (rev b) so (rev a)) by (rewrite len_rev; lia). cbn [obind]. rewrite Hlen.
  assert (Hb : slice (rev b ++ so :: rev a) 0 (len b) = @Ok scriptErr _ (rev b))
    by (rewrite <- (len_rev b); apply slice_prefix).
  destruct (Z.eqb_spec (len a) 0) as [E0|E0].
  - destruct a as [|x a]; [|rewrite len_cons in E0; pose proof (len_nonneg a); lia].
    replace (len (@nil (list Z)) + 1 + len b - 1) with (len b) by (rewrite (@len_nil (list Z)); lia).
    rewrite Hb. reflexivity.
  - destruct (Z.eqb_spec (len a) (len a + 1 + len b - 1)) as [E1|E1].
    + destruct b as [|x b]; [|rewrite len_cons in *; pose proof (len_nonneg b); lia].
      cbn [rev app]. change (so :: rev a) with ([so] ++ rev a).
      replace (len ([so] ++ rev a)) with (len [so] + len (rev a)) by now rewrite len_app.
      change 1 with (len [so]) at 1. rewrite <- (app_nil_r (rev a)) at 1.
      rewrite (slice_mid [so] (rev a) []). rewrite !app_nil_r. reflexivity.
    + assert (Hs : slice (rev b ++ so :: rev a) (len a + 1 + len b - len a) (len a + 1 + len b)
                   = @Ok scriptErr _ (rev a)).
      { replace (len a + 1 + len b - len a) with (len (rev b ++ [so])) by (rewrite len_snoc, len_rev; lia).
        replace (len a + 1 + len b) with (len (rev b ++ [so]) + len (rev a))
          by (rewrite len_snoc, !len_rev; lia).
        pose proof (@slice_mid scriptErr _ (rev b ++ [so]) (rev a) []) as Hs.
        now rewrite app_nil_r, <- app_assoc in Hs. }
      rewrite Hs. cbn [obind]. replace (len a + 1 + len b - len a - 1) with (len b) by lia.
      rewrite Hb. cbn [obind]. now rewrite rev_app_distr.
Qed.

Lemma nipN_restack_none i : i < 0 \/ len l <= i ->
  nipN (restack s l) i = Err (scriptError ErrInvalidStackOperation).
Proof.
  intros Hi. unfold nipN. rewrite depth_restack.
  destruct (Z.ltb_spec i 0), (Z.ltb_spec (len l - 1) i); try reflexivity. lia.
Qed.
End Top.

Lemma Pop_restack s x l : len l < 2 ^ 31 - 1 ->
  PopByteArray (restack s (x :: l)) = Ok (x, restack s l).
Proof. intros Hl. apply (nipN_restack s (x :: l)) with (a := []); [rewrite len_cons; lia | reflexivity]. Qed.

Lemma Pop_restack_nil s : PopByteArray (restack s []) = Err (scriptError ErrInvalidStackOperation).
Proof. apply nipN_restack_none; [reflexivity | right; reflexivity]. Qed.

Lemma peek_loop_spec s q : forall p r entry,
  entry = len p + len q - 1 -> len p + 2 * len q + len r < 2 ^ 31 ->
  peek_loop (List.length q) entry (restack s (p ++ q ++ r)) = Ok (restack s (q ++ p ++ q ++ r)).
Proof.
  induction q as [|x q IH] using rev_ind; intros p r entry He Hl; [reflexivity|].
  rewrite length_app, Nat.add_1_r. cbn [peek_loop]. rewrite len_snoc in *.
  pose proof (len_nonneg p). pose proof (len_nonneg q). pose proof (len_nonneg r).
  assert (Ei : entry = Z.of_nat (List.length (p ++ q))) by (rewrite length_app; unfold len in *; lia).
  rewrite Ei, (Peek_restack s _) with (so := x).
  - cbn [obind]. rewrite Push_restack, <- Ei. rewrite <- !app_assoc. cbn [app].
    rewrite (IH (x :: p) (x :: r)); [reflexivity | rewrite len_cons; lia | rewrite !len_cons; lia].
  - rewrite !len_app, len_cons, (@len_nil (list Z)). lia.
  - rewrite <- app_assoc. cbn [app]. rewrite app_assoc, nth_error_app2, Nat.sub_diag by lia. reflexivity.
Qed.

Lemma nip_loop_spec s q : forall p r entry,
  entry = len p + len q - 1 -> len p + len q + len r < 2 ^ 31 ->
  nip_loop (List.length q) entry (restack s (p ++ q ++ r)) = Ok (restack s (q ++ p ++ r)).
Proof.
  induction q as [|x q IH] using rev_ind; intros p r entry He Hl; [reflexivity|].
  rewrite length_app, Nat.add_1_r. cbn [nip_loop]. rewrite len_snoc in *.
  assert (Ei : entry = len (p ++ q)) by (rewrite len_app; lia).
  rewrite Ei, (nipN_restack s _) with (a := p ++ q) (so := x) (b := r).
  - cbn [obind]. rewrite Push_restack, <- Ei. rewrite <- !app_assoc. cbn [app].
    rewrite (IH (x :: p) r); [reflexivity | rewrite len_cons; lia | rewrite len_cons; lia].
  - rewrite !len_app, len_cons, (@len_nil (list Z)). lia.
  - now rewrite <- !app_assoc.
Qed.

Lemma drop_loop_spec s p : forall r, len p + len r < 2 ^ 31 ->
  drop_loop (List.length p) (restack s (p ++ r)) = Ok (restack s r).
Proof.
  induction p as [|x p IH]; intros r Hl; [reflexivity|]. rewrite len_cons in Hl.
  cbn [List.length drop_loop app]. rewrite Pop_restack by (rewrite len_app; lia). cbn [obind].
  apply IH. lia.
Qed.

Lemma drop_loop_short s : forall n l, (List.length l < n)%nat -> len l < 2 ^ 31 ->
  drop_loop n (restack s l) = Err (scriptError ErrInvalidStackOperation).
Proof.
  induction n as [|n IH]; intros l Hn Hl; [lia|]. cbn [drop_loop]. destruct l as [|x l].
  - now rewrite Pop_restack_nil.
  - rewrite len_cons in Hl. cbn [List.length] in Hn. rewrite Pop_restack by lia. cbn [obind].
    apply IH; lia.
Qed.

Section Ops.
Context (s : stack) (n : Z) (Hn : 1 <= n) (Hmax : 3 * n < 2 ^ 31).

Lemma to_nat_len (q : list (list Z)) : len q = n -> Z.to_nat n = List.length q.
Proof. unfold len. lia. Qed.

Lemma DropN_spec p r : len p = n -> n + len r < 2 ^ 31 ->
  DropN (restack s (p ++ r)) n = Ok (restack s r).
Proof.
  intros Hp Hl. unfold DropN. decide_cmp. rewrite (to_nat_len p Hp). apply drop_loop_spec. lia.
Qed.

Lemma DupN_spec p r : len p = n -> 2 * n + len r < 2 ^ 31 ->
  DupN (restack s (p ++ r)) n = Ok (restack s (p ++ p ++ r)).
Proof.
  intros Hp Hl. unfold DupN. decide_cmp. rewrite (to_nat_len p Hp), i32_id by (unfold is_i32; lia).
  apply (peek_loop_spec s p []); rewrite ?(@len_nil (list Z)); lia.
Qed.

Lemma OverN_spec p q r : len p = n -> len q = n -> 3 * n + len r < 2 ^ 31 ->
  OverN (restack s (p ++ q ++ r)) n = Ok (restack s (q ++ p ++ q ++ r)).
Proof.
  intros Hp Hq Hl. unfold OverN. decide_cmp. rewrite (to_nat_len q Hq), i32_id by (unfold is_i32; lia).
  apply peek_loop_spec; lia.
Qed.

Lemma SwapN_spec p q r : len p = n -> len q = n -> 2 * n + len r < 2 ^ 31 ->
  SwapN (restack s (p ++ q ++ r)) n = Ok (restack s (q ++ p ++ r)).
Proof.
  intros Hp Hq Hl. unfold SwapN. decide_cmp. rewrite (to_nat_len q Hq), i32_id by (unfold is_i32; lia).
  apply nip_loop_spec; lia.
Qed.

Lemma RotN_spec p q t r : len p = n -> len q = n -> len t = n -> 3 * n + len r < 2 ^ 31 ->
  RotN (restack s (p ++ q ++ t ++ r)) n = Ok (restack s (t ++ p ++ q ++ r)).
Proof.
  intros Hp Hq Ht Hl. unfold RotN. decide_cmp. rewrite (to_nat_len t Ht), i32_id by (unfold is_i32; lia).
  rewrite !(app_assoc p q). apply nip_loop_spec; rewrite len_app; lia.
Qed.

(** Not enough elements. *)
Lemma ops_short l : len l < 2 ^ 31 ->
  (len l < n -> DropN (restack s l) n = Err (scriptError ErrInvalidStackOperation) /\
                DupN (restack s l) n = Err (scriptError ErrInvalidStackOperation)) /\
  (len l < 2 * n -> OverN (restack s l) n = Err (scriptError ErrInvalidStackOperation) /\
                    SwapN (restack s l) n = Err (scriptError ErrInvalidStackOperation)) /\
  (len l < 3 * n -> RotN (restack s l) n = Err (scriptError ErrInvalidStackOperation)).
Proof.
  intros Hl. assert (Hs : exists m, Z.to_nat n = S m) by (exists (Z.to_nat n - 1)%nat; lia).
  destruct Hs as (m & Em). unfold DropN, DupN, OverN, SwapN, RotN. decide_cmp.
  rewrite !i32_id by (unfold is_i32; lia). rewrite Em. cbn [peek_loop nip_loop].
  split; [intros H; split | split; [intros H; split | intros H]].
  - rewrite <- Em. apply drop_loop_short; [unfold len in *; lia | exact Hl].
  - rewrite Peek_restack_none by lia. reflexivity.
  - rewrite Peek_restack_none by lia. reflexivity.
  - rewrite nipN_restack_none by lia. reflexivity.
  - rewrite nipN_restack_none by lia. reflexivity.
Qed.
End Ops.

(** On the list of the items with the top first, each stack operation of n
    items is its rearrangement of consecutive blocks, and each fails with the
    invalid stack operation error when there are too few items. *)
Theorem stack_refines s n p q t r x y :
  1 <= n -> 4 * n + len r + 2 < 2 ^ 31 -> len p = n -> len q = n -> len t = n ->
  DropN (restack s (p ++ r)) n = Ok (restack s r) /\
  DupN (restack s (p ++ r)) n = Ok (restack s (p ++ p ++ r)) /\
  OverN (restack s (p ++ q ++ r)) n = Ok (restack s (q ++ p ++ q ++ r)) /\
  SwapN (restack s (p ++ q ++ r)) n = Ok (restack s (q ++ p ++ r)) /\
  RotN (restack s (p ++ q ++ t ++ r)) n = Ok (restack s (t ++ p ++ q ++ r)) /\
  PickN (restack s (p ++ x :: r)) n = Ok (restack s (x :: p ++ x :: r)) /\
  RollN (restack s (p ++ x :: r)) n = Ok (restack s (x :: p ++ r)) /\
  NipN (restack s (p ++ x :: r)) n = Ok (restack s (p ++ r)) /\
  Tuck (restack s (x :: y :: r)) = Ok (restack s (x :: y :: x :: r)) /\
  (forall l, len l < n ->
     DropN (restack s l) n = Err (scriptError ErrInvalidStackOperation) /\
     DupN (restack s l) n = Err (scriptError ErrInvalidStackOperation)) /\
  (forall l, len l < 2 * n ->
     OverN (restack s l) n = Err (scriptError ErrInvalidStackOperation) /\
     SwapN (restack s l) n = Err (scriptError ErrInvalidStackOperation)) /\
  (forall l, len l < 3 * n -> RotN (restack s l) n = Err (scriptError ErrInvalidStackOperation)) /\
  (forall l, len l <= n ->
     PickN (restack s l) n = Err (scriptError ErrInvalidStackOperation) /\
     RollN (restack s l) n = Err (scriptError ErrInvalidStackOperation)).
Proof.
  intros Hn Hmax Hp Hq Ht. pose proof (len_nonneg r).
  split; [apply DropN_spec; lia|]. split; [apply DupN_spec; lia|]. split; [apply OverN_spec; lia|].
  split; [apply SwapN_spec; lia|]. split; [apply RotN_spec; lia|].
  assert (Hx : len (p ++ x :: r) < 2 ^ 31) by (rewrite len_app, len_cons; lia).
  assert (Hnip : nipN (restack s (p ++ x :: r)) n = Ok (x, restack s (p ++ r)))
    by (rewrite <- Hp; now apply (nipN_restack s)).
  split; [|split; [|split; [|split]]].
  - unfold PickN. replace n with (Z.of_nat (List.length p)) by (unfold len in Hp; lia).
    rewrite (Peek_restack s _ Hx _ x); [reflexivity|].
    now rewrite nth_error_app2, Nat.sub_diag by lia.
  - unfold RollN. now rewrite Hnip.
  - unfold NipN. now rewrite Hnip.
  - unfold Tuck. rewrite Pop_restack by (rewrite len_cons; lia). cbn [obind].
    rewrite Pop_restack by lia. reflexivity.
  - split; [|split; [|split]].
    + intros l Hl. apply ops_short; lia.
    + intros l Hl. apply ops_short; lia.
    + intros l Hl. apply ops_short; lia.
    + intros l Hl. unfold PickN, RollN.
      rewrite Peek_restack_none, nipN_restack_none by lia. split; reflexivity.
Qed.

Lemma stack_refines_witness :
  RotN (mkStack [[1]; [2]; [3]; [4]] false) 1 = Ok (mkStack [[1]; [3]; [4]; [2]] false).
Proof. apply (stack_refines (mkStack [] false) 1 [[4]] [[3]] [[2]] [[1]] [] []); reflexivity || lia. Defined.
