(* ===== verification/SigHash.v ===== *)
(** * Signature hashes

    src/txscript/sighash.go, hashcache.go and sigcache.go, with the hash
    functions of src/chaincfg/chainhash that they call.  SHA-256 is a parameter;
    what is hashed is modelled byte for byte: the messages of the original
    transaction digest, of segregated witness and of taproot, the midstates
    that are shared between the inputs of a transaction, and the cache of
    verified signatures. *)

From Stdlib Require Import ZArith List Lia Bool.
From S2P Require Import Prelude Opcodes GoSlice GoIO WireCommon WireTx Script.
Import ListNotations.
Local Open Scope Z_scope.
Local Open Scope go_scope.

Definition SigHashDefault : Z := 0x00.
Definition SigHashOld : Z := 0x0.
Definition SigHashAll : Z := 0x1.
Definition SigHashNone : Z := 0x2.
Definition SigHashSingle : Z := 0x3.
Definition SigHashAnyOneCanPay : Z := 0x80.
Definition sigHashMask : Z := 0x1f.
Definition blankCodeSepValue : Z := 2 ^ 32 - 1.

(** A pointer dereference. *)
Definition deref {E A} (p : option A) : outcome E A :=
  match p with Some a => Ok a | None => Panic end.

(** What an encoder that cannot fail has written. *)
Definition bytesOf (w : written) : list Z := fst w.

(** The interface PrevOutputFetcher, by its only method, and its two
    implementations. *)
Definition PrevOutputFetcher : Type := OutPoint -> option TxOut.

Definition CannedPrevOutputFetcher (pkScript : list Z) (amt : Z) : PrevOutputFetcher :=
  fun _ => Some (mkTxOut amt pkScript).

Definition outpoint_eqb (a b : OutPoint) : bool :=
  bytes_eqb (op_Hash a) (op_Hash b) && (op_Index a =? op_Index b).

(** MultiPrevOutFetcher: the map as the list of its entries, the latest first. *)
Definition MultiPrevOutFetcher : Type := list (OutPoint * TxOut).

Definition FetchPrevOutput (m : MultiPrevOutFetcher) : PrevOutputFetcher := fun op =>
  option_map snd (find (fun e => outpoint_eqb op (fst e)) m).

Definition AddPrevOut (m : MultiPrevOutFetcher) (op : OutPoint) (txOut : TxOut)
  : MultiPrevOutFetcher := (op, txOut) :: m.

Definition Merge (m other : MultiPrevOutFetcher) : MultiPrevOutFetcher := other ++ m.

Section SigHash.
Context (sha256 : list Z -> list Z).

(** chainhash.HashB, DoubleHashB and TaggedHash. *)
Definition HashB (b : list Z) : list Z := sha256 b.
Definition DoubleHashB (b : list Z) : list Z := sha256 (sha256 b).
Definition TaggedHash (tag : list Z) (msgs : list (list Z)) : list Z :=
  sha256 (sha256 tag ++ sha256 tag ++ concat msgs).

(** The bytes of "TapSighash". *)
Definition TagTapSighash : list Z := [84; 97; 112; 83; 105; 103; 104; 97; 115; 104].

(** ** hashcache.go *)

Definition prevOutsMessage (tx : MsgTx) : written :=
  wall (fun ti => write (op_Hash (ti_PreviousOutPoint ti)) >>
                  PutUint32 (op_Index (ti_PreviousOutPoint ti))) (tx_TxIn tx).
Definition calcHashPrevOuts (tx : MsgTx) : list Z := HashB (bytesOf (prevOutsMessage tx)).

Definition sequenceMessage (tx : MsgTx) : written :=
  wall (fun ti => PutUint32 (ti_Sequence ti)) (tx_TxIn tx).
Definition calcHashSequence (tx : MsgTx) : list Z := HashB (bytesOf (sequenceMessage tx)).

Definition outputsMessage (tx : MsgTx) : written := wall WriteTxOut (tx_TxOut tx).
Definition calcHashOutputs (tx : MsgTx) : list Z := HashB (bytesOf (outputsMessage tx)).

(** Reading what a missing previous output points to panics. *)
Fixpoint prevOuts (fetch : PrevOutputFetcher) (ins : list TxIn) : outcome scriptErr (list TxOut) :=
  match ins with
  | [] => Ok []
  | ti :: ins' =>
      let* out := deref (fetch (ti_PreviousOutPoint ti)) in
      let* outs := prevOuts fetch ins' in
      Ok (out :: outs)
  end.

Definition calcHashInputAmounts (tx : MsgTx) (fetch : PrevOutputFetcher) : outcome scriptErr (list Z) :=
  let* outs := prevOuts fetch (tx_TxIn tx) in
  Ok (HashB (bytesOf (wall (fun out => PutUint64 (u64 (to_Value out))) outs))).

Definition calcHashInputScripts (tx : MsgTx) (fetch : PrevOutputFetcher) : outcome scriptErr (list Z) :=
  let* outs := prevOuts fetch (tx_TxIn tx) in
  Ok (HashB (bytesOf (wall (fun out => WriteVarBytes (to_PkScript out)) outs))).

Record SegwitSigHashMidstate : Type := mkSegwitMid {
  HashPrevOutsV0 : list Z; HashSequenceV0 : list Z; HashOutputsV0 : list Z }.

Record TaprootSigHashMidState : Type := mkTaprootMid {
  HashPrevOutsV1 : list Z; HashSequenceV1 : list Z; HashOutputsV1 : list Z;
  HashInputScriptsV1 : list Z; HashInputAmountsV1 : list Z }.

Record TxSigHashes : Type := mkTxSigHashes {
  segwitMid : SegwitSigHashMidstate; taprootMid : TaprootSigHashMidState }.

(** Which kinds of inputs there are, until both have been seen. *)
Fixpoint inputKinds (fetch : PrevOutputFetcher) (ins : list TxIn) (hasV0 hasV1 : bool)
  : outcome scriptErr (bool * bool) :=
  match ins with
  | [] => Ok (hasV0, hasV1)
  | ti :: ins' =>
      let outpoint := ti_PreviousOutPoint ti in
      if (op_Index outpoint =? MaxUint32) && bytes_eqb (op_Hash outpoint) zeroHash
      then inputKinds fetch ins' true hasV1
      else
        let* prevOut := deref (fetch outpoint) in
        let (hasV0, hasV1) :=
          if isWitnessTaprootScript (to_PkScript prevOut) then (hasV0, true) else (true, hasV1) in
        if hasV0 && hasV1 then Ok (hasV0, hasV1) else inputKinds fetch ins' hasV0 hasV1
  end.

Definition NewTxSigHashes (tx : MsgTx) (fetch : PrevOutputFetcher) : outcome scriptErr TxSigHashes :=
  let* (hasV0Inputs, hasV1Inputs) := inputKinds fetch (tx_TxIn tx) false false in
  let prevOutsV1 := calcHashPrevOuts tx in
  let sequenceV1 := calcHashSequence tx in
  let outputsV1 := calcHashOutputs tx in
  let segwit :=
    if hasV0Inputs then mkSegwitMid (HashB prevOutsV1) (HashB sequenceV1) (HashB outputsV1)
    else mkSegwitMid zeroHash zeroHash zeroHash in
  let* (amounts, scripts) :=
    if hasV1Inputs then
      let* a := calcHashInputAmounts tx fetch in
      let* s := calcHashInputScripts tx fetch in Ok (a, s)
    else Ok (zeroHash, zeroHash) in
  Ok (mkTxSigHashes segwit (mkTaprootMid prevOutsV1 sequenceV1 outputsV1 scripts amounts)).

(** ** The original digest *)

Definition isSingle (hashType : Z) : bool := Z.land hashType sigHashMask =? SigHashSingle.
Definition isNone (hashType : Z) : bool := Z.land hashType sigHashMask =? SigHashNone.
Definition anyOneCanPay (hashType : Z) : bool := negb (Z.land hashType SigHashAnyOneCanPay =? 0).

(** The loop over all inputs, the one at [idx] with the script. *)
Fixpoint writeSigIns (sigScript : list Z) (hashType idx i : Z) (ins : list TxIn) : written :=
  match ins with
  | [] => write []
  | ti :: ins' =>
      write (op_Hash (ti_PreviousOutPoint ti)) >>
      PutUint32 (op_Index (ti_PreviousOutPoint ti)) >>
      (if i =? idx then WriteVarBytes sigScript >> PutUint32 (ti_Sequence ti)
       else WriteVarBytes [] >>
            (if isNone hashType || isSingle hashType then PutUint32 0
             else PutUint32 (ti_Sequence ti))) >>
      writeSigIns sigScript hashType idx (i + 1) ins'
  end.

(** Everything written to the hash, for a script without code separators. *)
Definition sigMessage (sigScript : list Z) (hashType : Z) (tx : MsgTx) (idx : Z)
  : outcome scriptErr written :=
  let* ins :=
    if negb (anyOneCanPay hashType) then
      Ok (WriteVarInt (u64 (len (tx_TxIn tx))) >>
          writeSigIns sigScript hashType idx 0 (tx_TxIn tx))
    else
      let* ti := get_at (tx_TxIn tx) idx in
      Ok (WriteVarInt 1 >> WriteOutPoint (ti_PreviousOutPoint ti) >>
          WriteVarBytes sigScript >> PutUint32 (ti_Sequence ti)) in
  let* outs :=
    if isNone hashType then Ok (WriteVarInt 0)
    else if isSingle hashType then
      let* out := get_at (tx_TxOut tx) idx in
      Ok (WriteVarInt (u64 (idx + 1)) >>
          wall WriteTxOut (repeat (mkTxOut (-1) []) (Z.to_nat idx)) >>
          PutUint64 (u64 (to_Value out)) >> WriteVarBytes (to_PkScript out))
    else
      Ok (WriteVarInt (u64 (len (tx_TxOut tx))) >>
          wall (fun out => PutUint64 (u64 (to_Value out)) >> WriteVarBytes (to_PkScript out))
               (tx_TxOut tx)) in
  Ok (PutUint32 (u32 (tx_Version tx)) >> ins >> outs >>
      PutUint32 (tx_LockTime tx) >> PutUint32 hashType).

Definition calcSignatureHash (sigScript : list Z) (hashType : Z) (tx : MsgTx) (idx : Z)
  : outcome scriptErr (list Z) :=
  if isSingle hashType && (len (tx_TxOut tx) <=? idx) then Ok (1 :: repeat 0 31)
  else
    let* msg := sigMessage (removeOpcodeRaw sigScript OP_CODESEPARATOR) hashType tx idx in
    Ok (DoubleHashB (bytesOf msg)).

Definition CalcSignatureHash (script : list Z) (hashType : Z) (tx : MsgTx) (idx : Z)
  : outcome scriptErr (list Z) :=
  let* _ := checkScriptParses 0 script in calcSignatureHash script hashType tx idx.

(** ** The digest of segregated witness *)

Definition scriptCode (scriptSig : list Z) : written :=
  match extractWitnessPubKeyHash scriptSig with
  | Some pubKeyHash =>
      write [0x19] >> write [OP_DUP] >> write [OP_HASH160] >> write [OP_DATA_20] >>
      write pubKeyHash >> write [OP_EQUALVERIFY] >> write [OP_CHECKSIG]
  | None => WriteVarBytes scriptSig
  end.

Definition witnessMessage (scriptSig : list Z) (sigHashes : option TxSigHashes) (hashType : Z)
    (tx : MsgTx) (idx amt : Z) : outcome scriptErr written :=
  if len (tx_TxIn tx) - 1 <? idx then Err otherError
  else
    let* prevs :=
      if negb (anyOneCanPay hashType) then
        let* m := deref sigHashes in Ok (HashPrevOutsV0 (segwitMid m))
      else Ok zeroHash in
    let* seqs :=
      if negb (anyOneCanPay hashType) && negb (isSingle hashType) && negb (isNone hashType) then
        let* m := deref sigHashes in Ok (HashSequenceV0 (segwitMid m))
      else Ok zeroHash in
    let* txIn := get_at (tx_TxIn tx) idx in
    let* outs :=
      if negb (isSingle hashType) && negb (isNone hashType) then
        let* m := deref sigHashes in Ok (HashOutputsV0 (segwitMid m))
      else if isSingle hashType && (idx <? len (tx_TxOut tx)) then
        let* out := get_at (tx_TxOut tx) idx in Ok (DoubleHashB (bytesOf (WriteTxOut out)))
      else Ok zeroHash in
    Ok (PutUint32 (u32 (tx_Version tx)) >> write prevs >> write seqs >>
        write (op_Hash (ti_PreviousOutPoint txIn)) >>
        PutUint32 (op_Index (ti_PreviousOutPoint txIn)) >>
        scriptCode scriptSig >> PutUint64 (u64 amt) >> PutUint32 (ti_Sequence txIn) >>
        write outs >> PutUint32 (tx_LockTime tx) >> PutUint32 hashType).

Definition calcWitnessSignatureHashRaw (scriptSig : list Z) (sigHashes : option TxSigHashes)
    (hashType : Z) (tx : MsgTx) (idx amt : Z) : outcome scriptErr (list Z) :=
  let* msg := witnessMessage scriptSig sigHashes hashType tx idx amt in
  Ok (DoubleHashB (bytesOf msg)).

Definition CalcWitnessSigHash (script : list Z) (sigHashes : option TxSigHashes) (hType : Z)
    (tx : MsgTx) (idx amt : Z) : outcome scriptErr (list Z) :=
  let* _ := checkScriptParses 0 script in
  calcWitnessSignatureHashRaw script sigHashes hType tx idx amt.

(** ** The digest of taproot *)

Record taprootSigHashOptions : Type := mkTapOpts {
  extFlag : Z; annexHash : option (list Z); tapLeafHash : list Z; keyVersion : Z; codeSepPos : Z }.

Definition baseSigHashExtFlag : Z := 0.
Definition tapscriptSighashExtFlag : Z := 1.

Definition defaultTaprootSighashOptions : taprootSigHashOptions := mkTapOpts 0 None [] 0 0.

Definition writeDigestExtensions (t : taprootSigHashOptions) : written :=
  if extFlag t =? tapscriptSighashExtFlag then
    write (tapLeafHash t) >> write [keyVersion t] >> PutUint32 (codeSepPos t)
  else write [].

Definition WithAnnex (annex : list Z) (o : taprootSigHashOptions) : taprootSigHashOptions :=
  mkTapOpts (extFlag o) (Some (HashB (bytesOf (WriteVarBytes annex)))) (tapLeafHash o)
    (keyVersion o) (codeSepPos o).

Definition WithBaseTapscriptVersion (sepPos : Z) (leafHash : list Z) (o : taprootSigHashOptions)
  : taprootSigHashOptions :=
  mkTapOpts tapscriptSighashExtFlag (annexHash o) leafHash 0 sepPos.

Definition isValidTaprootSigHash (hashType : Z) : bool :=
  existsb (Z.eqb hashType) [SigHashDefault; SigHashAll; SigHashNone; SigHashSingle; 0x81; 0x82; 0x83].

Definition taprootMessage (sigHashes : option TxSigHashes) (hType : Z) (tx : MsgTx) (idx : Z)
    (fetch : PrevOutputFetcher) (opts : taprootSigHashOptions) : outcome scriptErr written :=
  if negb (isValidTaprootSigHash hType) then Err otherError
  else if len (tx_TxIn tx) - 1 <? idx then Err otherError
  else
    let acp := Z.land hType SigHashAnyOneCanPay =? SigHashAnyOneCanPay in
    let* common :=
      if negb acp then
        let* m := deref sigHashes in
        Ok (write (HashPrevOutsV1 (taprootMid m)) >> write (HashInputAmountsV1 (taprootMid m)) >>
            write (HashInputScriptsV1 (taprootMid m)) >> write (HashSequenceV1 (taprootMid m)))
      else Ok (write []) in
    let* outs :=
      if negb (Z.land hType SigHashSingle =? SigHashSingle) &&
         negb (Z.land hType SigHashSingle =? SigHashNone) then
        let* m := deref sigHashes in Ok (write (HashOutputsV1 (taprootMid m)))
      else Ok (write []) in
    let* input := get_at (tx_TxIn tx) idx in
    let spendType := u8 (extFlag opts * 2 + match annexHash opts with Some _ => 1 | None => 0 end) in
    let* this :=
      if acp then
        let* prevOut := deref (fetch (ti_PreviousOutPoint input)) in
        Ok (WriteOutPoint (ti_PreviousOutPoint input) >> WriteTxOut prevOut >>
            PutUint32 (ti_Sequence input))
      else Ok (PutUint32 (u32 idx)) in
    let annex := match annexHash opts with Some h => write h | None => write [] end in
    let* single :=
      if isSingle hType then
        if len (tx_TxOut tx) <=? idx then Err otherError
        else let* out := get_at (tx_TxOut tx) idx in Ok (write (HashB (bytesOf (WriteTxOut out))))
      else Ok (write []) in
    Ok (write [0x00] >> write [u8 hType] >> PutUint32 (u32 (tx_Version tx)) >>
        PutUint32 (tx_LockTime tx) >> common >> outs >> write [spendType] >> this >> annex >>
        single >> writeDigestExtensions opts).

Definition calcTaprootSignatureHashRaw (sigHashes : option TxSigHashes) (hType : Z) (tx : MsgTx)
    (idx : Z) (fetch : PrevOutputFetcher) (opts : taprootSigHashOptions)
  : outcome scriptErr (list Z) :=
  let* msg := taprootMessage sigHashes hType tx idx fetch opts in
  Ok (TaggedHash TagTapSighash [bytesOf msg]).

Definition CalcTaprootSignatureHash (sigHashes : option TxSigHashes) (hType : Z) (tx : MsgTx)
    (idx : Z) (fetch : PrevOutputFetcher) : outcome scriptErr (list Z) :=
  calcTaprootSignatureHashRaw sigHashes hType tx idx fetch defaultTaprootSighashOptions.
End SigHash.

(** ** sigcache.go

    The map of verified signatures as the list of its entries, one for each
    key.  Which entry Go's map iteration visits first is not specified: [evict]
    chooses it. *)
Record sigCacheEntry : Type := mkCacheEntry { ce_sig : list Z; ce_pubKey : list Z }.
Record SigCache : Type := mkSigCache {
  validSigs : list (list Z * sigCacheEntry); maxEntries : Z }.

Definition NewSigCache (max : Z) : SigCache := mkSigCache [] max.

Definition Exists (s : SigCache) (sigHash sig pubKey : list Z) : bool :=
  match find (fun e => bytes_eqb (fst e) sigHash) (validSigs s) with
  | Some (_, entry) => bytes_eqb (ce_pubKey entry) pubKey && bytes_eqb (ce_sig entry) sig
  | None => false
  end.

Definition cache_delete (k : list Z) (m : list (list Z * sigCacheEntry))
  : list (list Z * sigCacheEntry) := filter (fun e => negb (bytes_eqb (fst e) k)) m.

Definition Add (evict : list (list Z * sigCacheEntry) -> nat) (s : SigCache)
    (sigHash sig pubKey : list Z) : SigCache :=
  if maxEntries s <=? 0 then s
  else
    let m :=
      if maxEntries s <? len (validSigs s) + 1 then
        match nth_error (validSigs s) (evict (validSigs s)) with
        | Some (k, _) => cache_delete k (validSigs s)
        | None => validSigs s
        end
      else validSigs s in
    mkSigCache ((sigHash, mkCacheEntry sig pubKey) :: cache_delete sigHash m) (maxEntries s).

(** The cache as one goroutine sees it.  It is shared, and its lock is held for
    one access at a time, so that other goroutines can add entries before each
    access: a list of additions for each access to come, and none when the list of
    them is used up. *)
Record cacheAdd : Type := mkCacheAdd { ca_evict : nat; ca_sigHash : list Z; ca_sig : list Z; ca_pubKey : list Z }.
Record SharedCache : Type := mkShared { sh_cache : SigCache; sh_others : list (list cacheAdd) }.

Definition addOther (s : SigCache) (x : cacheAdd) : SigCache :=
  Add (fun _ => ca_evict x) s (ca_sigHash x) (ca_sig x) (ca_pubKey x).

Definition access (sh : SharedCache) : SharedCache :=
  match sh_others sh with
  | [] => sh
  | xs :: others => mkShared (fold_left addOther xs (sh_cache sh)) others
  end.

(** Everything in a cache satisfies a predicate that holds of what is added. *)
Definition cache_all (P : list Z -> list Z -> list Z -> Prop) (s : SigCache) : Prop :=
  Forall (fun e => P (fst e) (ce_sig (snd e)) (ce_pubKey (snd e))) (validSigs s).

Lemma cache_delete_all P k m :
  Forall P m -> Forall P (cache_delete k m).
Proof.
  intros H. apply Forall_forall. intros e He. apply filter_In in He.
  rewrite Forall_forall in H. now apply H.
Qed.

Lemma Add_all P evict s h sig pk : cache_all P s -> P h sig pk -> cache_all P (Add evict s h sig pk).
Proof.
  intros Hs Hp. unfold Add. destruct (_ <=? _); [exact Hs|]. constructor; [exact Hp|].
  apply cache_delete_all. destruct (_ <? _); [|exact Hs].
  destruct (nth_error _ _) as [[k e]|]; [now apply cache_delete_all | exact Hs].
Qed.

Lemma Exists_all P s h sig pk : cache_all P s -> Exists s h sig pk = true -> P h sig pk.
Proof.
  intros Hs. unfold Exists. destruct (find _ _) as [[k e]|] eqn:E; [|discriminate].
  intros H. apply andb_true_iff in H. rewrite !bytes_eqb_eq in H. destruct H as [<- <-].
  apply find_some in E. destruct E as [Hin Hk]. apply bytes_eqb_eq in Hk. cbn [fst] in Hk. subst k.
  unfold cache_all in Hs. rewrite Forall_forall in Hs. exact (Hs _ Hin).
Qed.

(** The same of a shared cache, and of what the others will add. *)
Definition shared_all (P : list Z -> list Z -> list Z -> Prop) (sh : SharedCache) : Prop :=
  cache_all P (sh_cache sh) /\
  Forall (Forall (fun x => P (ca_sigHash x) (ca_sig x) (ca_pubKey x))) (sh_others sh).

Lemma access_all P sh : shared_all P sh -> shared_all P (access sh).
Proof.
  intros [Hc Ho]. unfold access. destruct (sh_others sh) as [|xs others] eqn:E; [split; [exact Hc | now rewrite E]|].
  clear E. apply Forall_cons_iff in Ho. destruct Ho as [Hx Ho]. split; [|exact Ho]. cbn [sh_cache]. revert Hc.
  generalize (sh_cache sh). induction Hx as [|x xs Hp _ IH]; intros s Hs; [exact Hs|]. cbn [fold_left].
  apply IH. now apply Add_all.
Qed.

(** ** The original digest is that of a modified transaction *)

(** The inputs with their scripts blanked, the one at [idx] with the script. *)
Fixpoint sigTxIns (sigScript : list Z) (hashType idx i : Z) (ins : list TxIn) : list TxIn :=
  match ins with
  | [] => []
  | ti :: ins' =>
      (if i =? idx then mkTxIn (ti_PreviousOutPoint ti) sigScript None (ti_Sequence ti)
       else mkTxIn (ti_PreviousOutPoint ti) [] None
              (if isNone hashType || isSingle hashType then 0 else ti_Sequence ti))
      :: sigTxIns sigScript hashType idx (i + 1) ins'
  end.

(** The transaction a signature of the given type signs. *)
Definition sigTx (sigScript : list Z) (hashType : Z) (tx : MsgTx) (idx : Z) : MsgTx :=
  mkMsgTx (tx_Version tx)
    (let ins := sigTxIns sigScript hashType idx 0 (tx_TxIn tx) in
     if anyOneCanPay hashType then firstn 1 (skipn (Z.to_nat idx) ins) else ins)
    (if isNone hashType then []
     else if isSingle hashType then
       repeat (mkTxOut (-1) []) (Z.to_nat idx) ++ firstn 1 (skipn (Z.to_nat idx) (tx_TxOut tx))
     else tx_TxOut tx)
    (tx_LockTime tx).

Lemma writeSigIns_eq script hashType idx ins : forall i,
  writeSigIns script hashType idx i ins = wall writeTxIn (sigTxIns script hashType idx i ins).
Proof.
  induction ins as [|ti ins IH]; intros i; [reflexivity|]. cbn [writeSigIns sigTxIns wall].
  rewrite IH. unfold writeTxIn, WriteOutPoint. rewrite !wseq_assoc.
  destruct (i =? idx); cbn [ti_PreviousOutPoint ti_SignatureScript ti_Sequence];
    [|destruct (isNone hashType || isSingle hashType)]; now rewrite !wseq_assoc.
Qed.

Lemma sigTxIns_length script hashType idx ins : forall i,
  List.length (sigTxIns script hashType idx i ins) = List.length ins.
Proof. induction ins; intros i; cbn; auto. Qed.

Lemma sigTxIns_at script hashType idx ins : forall i ti,
  nth_error ins (Z.to_nat (idx - i)) = Some ti -> i <= idx ->
  firstn 1 (skipn (Z.to_nat (idx - i)) (sigTxIns script hashType idx i ins))
  = [mkTxIn (ti_PreviousOutPoint ti) script None (ti_Sequence ti)].
Proof.
  induction ins as [|t ins IH]; intros i ti E Hi; [now destruct (Z.to_nat _)|].
  destruct (Z.eq_dec i idx) as [->|Hne].
  - rewrite Z.sub_diag in *. change (Z.to_nat 0) with 0%nat in *. injection E as ->.
    cbn [sigTxIns skipn firstn]. now rewrite Z.eqb_refl.
  - replace (Z.to_nat (idx - i)) with (S (Z.to_nat (idx - (i + 1)))) in * by lia.
    cbn [nth_error sigTxIns skipn] in *. apply IH; [exact E | lia].
Qed.

Lemma get_at_nth {E A} (l : list A) i x :
  0 <= i -> nth_error l (Z.to_nat i) = Some x -> @get_at E A l i = Ok x.
Proof. intros Hi Hx. unfold get_at. decide_cmp. now rewrite Hx. Qed.

Lemma nth_error_in_range {A} (l : list A) i : 0 <= i < len l -> exists x, nth_error l (Z.to_nat i) = Some x.
Proof.
  intros Hi. destruct (nth_error l (Z.to_nat i)) eqn:E; [eauto|].
  apply nth_error_None in E. unfold len in Hi. lia.
Qed.

Lemma firstn_1_skipn {A} (l : list A) i x : nth_error l i = Some x -> firstn 1 (skipn i l) = [x].
Proof. intros E. now rewrite (skipn_cons_nth_error l i x E). Qed.

(** C32: what calcSignatureHash hashes is the serialization of the transaction the
    hash type describes, with blanked scripts and the inputs and outputs it selects,
    followed by the hash type. *)
Theorem sigMessage_correct sigScript hashType tx idx :
  0 <= idx < len (tx_TxIn tx) -> (isSingle hashType = true -> idx < len (tx_TxOut tx)) ->
  sigMessage sigScript hashType tx idx
  = Ok (SerializeNoWitness (sigTx sigScript hashType tx idx) >> PutUint32 hashType).
Proof.
  intros Hi Hs. destruct (nth_error_in_range _ idx Hi) as (ti & Eti).
  unfold sigMessage, SerializeNoWitness, BtcEncode, sigTx.
  change (wantsWitness BaseEncoding) with false. cbn [andb tx_Version tx_TxIn tx_TxOut tx_LockTime].
  assert (Hins : (if negb (anyOneCanPay hashType) then
      Ok (WriteVarInt (u64 (len (tx_TxIn tx))) >> writeSigIns sigScript hashType idx 0 (tx_TxIn tx))
    else
      let* ti := get_at (tx_TxIn tx) idx in
      Ok (WriteVarInt 1 >> WriteOutPoint (ti_PreviousOutPoint ti) >>
          WriteVarBytes sigScript >> PutUint32 (ti_Sequence ti)))
    = @Ok scriptErr _ (let ins := if anyOneCanPay hashType
         then firstn 1 (skipn (Z.to_nat idx) (sigTxIns sigScript hashType idx 0 (tx_TxIn tx)))
         else sigTxIns sigScript hashType idx 0 (tx_TxIn tx) in
         WriteVarInt (u64 (len ins)) >> wall writeTxIn ins)).
  { destruct (anyOneCanPay hashType); cbn [negb].
    - rewrite (get_at_nth _ _ _ (proj1 Hi) Eti). cbn [obind].
      pose proof (sigTxIns_at sigScript hashType idx (tx_TxIn tx) 0 ti) as Hat.
      rewrite Z.sub_0_r in Hat. rewrite (Hat Eti (proj1 Hi)). cbn [wall]. rewrite wseq_nil_r. reflexivity.
    - unfold len. rewrite sigTxIns_length, writeSigIns_eq. reflexivity. }
  rewrite Hins. cbn [obind]. clear Hins. destruct (isNone hashType) eqn:En; cbn [obind].
  { f_equal. cbn [wall]. rewrite !wseq_assoc, !wseq_nil_l. reflexivity. }
  destruct (isSingle hashType) eqn:Es; cbn [obind].
  - destruct (nth_error_in_range (tx_TxOut tx) idx) as (out & Eo); [pose proof (Hs eq_refl); lia|].
    rewrite (get_at_nth _ _ _ (proj1 Hi) Eo), (firstn_1_skipn _ _ _ Eo). cbn [obind]. f_equal.
    rewrite wall_app. cbn [wall]. rewrite len_app. unfold len at 3. rewrite repeat_length.
    change (len [out]) with 1. rewrite Z2Nat.id, !wseq_nil_l, wseq_nil_r by lia.
    unfold WriteTxOut at 3. rewrite !wseq_assoc. reflexivity.
  - f_equal. rewrite !wseq_assoc, !wseq_nil_l. reflexivity.
Qed.

Lemma sigMessage_correct_witness :
  sigMessage [OP_DUP] (SigHashSingle + SigHashAnyOneCanPay) sample_tx 0
  = Ok (SerializeNoWitness (sigTx [OP_DUP] (SigHashSingle + SigHashAnyOneCanPay) sample_tx 0) >>
        PutUint32 (SigHashSingle + SigHashAnyOneCanPay)).
Proof. apply sigMessage_correct; [split; [discriminate | reflexivity] | reflexivity]. Defined.

(** ** The midstates shared by the inputs *)

Lemma inputKinds_mono fetch ins : forall v0 v1 r0 r1,
  inputKinds fetch ins v0 v1 = Ok (r0, r1) -> (v0 = true -> r0 = true) /\ (v1 = true -> r1 = true).
Proof.
  induction ins as [|ti ins IH]; intros v0 v1 r0 r1 H; cbn [inputKinds] in H;
    [injection H as <- <-; auto|].
  destruct (_ && _).
  - apply IH in H. destruct H as [H0 H1]. auto.
  - apply obind_Ok in H. destruct H as (out & _ & H). destruct (isWitnessTaprootScript _).
    + destruct (v0 && true) eqn:E; [injection H as <- <-; auto | apply IH in H; tauto].
    + destruct (true && v1) eqn:E; [injection H as <- <-; auto | apply IH in H; tauto].
Qed.

Definition isNullOutPoint (op : OutPoint) : bool :=
  (op_Index op =? MaxUint32) && bytes_eqb (op_Hash op) zeroHash.

Lemma inputKinds_seen fetch ins ti out : forall v0 v1 r0 r1,
  In ti ins -> isNullOutPoint (ti_PreviousOutPoint ti) = false ->
  fetch (ti_PreviousOutPoint ti) = Some out -> inputKinds fetch ins v0 v1 = Ok (r0, r1) ->
  if isWitnessTaprootScript (to_PkScript out) then r1 = true else r0 = true.
Proof.
  induction ins as [|t ins IH]; intros v0 v1 r0 r1 Hin Hnull Hf H; [contradiction|].
  cbn [inputKinds] in H. fold (isNullOutPoint (ti_PreviousOutPoint t)) in H.
  destruct Hin as [->|Hin].
  - rewrite Hnull, Hf in H. cbn [deref obind] in H.
    destruct (isWitnessTaprootScript (to_PkScript out)).
    + destruct (v0 && true); [congruence | apply inputKinds_mono in H; now apply H].
    + destruct (true && v1); [congruence | apply inputKinds_mono in H; now apply H].
  - destruct (isNullOutPoint (ti_PreviousOutPoint t)); [now apply (IH _ _ _ _ Hin Hnull Hf) in H|].
    apply obind_Ok in H. destruct H as (o & _ & H).
    destruct (isWitnessTaprootScript (to_PkScript o)).
    + destruct v0; cbn [andb] in H; [injection H as <- <-; now destruct (isWitnessTaprootScript _)|].
      now apply (IH _ _ _ _ Hin Hnull Hf) in H.
    + destruct v1; cbn [andb] in H; [injection H as <- <-; now destruct (isWitnessTaprootScript _)|].
      now apply (IH _ _ _ _ Hin Hnull Hf) in H.
Qed.

(** NewTxSigHashes computes the midstates every input of the transaction needs:
    double hashes of the outpoints, sequences and outputs for one that does not
    spend a taproot output, and single hashes with the scripts and amounts of all
    spent outputs for one that does. *)
Theorem midstates_correct sha256 tx fetch m ti out :
  NewTxSigHashes sha256 tx fetch = Ok m -> In ti (tx_TxIn tx) ->
  isNullOutPoint (ti_PreviousOutPoint ti) = false -> fetch (ti_PreviousOutPoint ti) = Some out ->
  if isWitnessTaprootScript (to_PkScript out) then
    exists outs, prevOuts fetch (tx_TxIn tx) = Ok outs /\
      taprootMid m = mkTaprootMid (sha256 (bytesOf (prevOutsMessage tx)))
        (sha256 (bytesOf (sequenceMessage tx))) (sha256 (bytesOf (outputsMessage tx)))
        (sha256 (bytesOf (wall (fun o => WriteVarBytes (to_PkScript o)) outs)))
        (sha256 (bytesOf (wall (fun o => PutUint64 (u64 (to_Value o))) outs)))
  else
    segwitMid m = mkSegwitMid (DoubleHashB sha256 (bytesOf (prevOutsMessage tx)))
      (DoubleHashB sha256 (bytesOf (sequenceMessage tx))) (DoubleHashB sha256 (bytesOf (outputsMessage tx))).
Proof.
  intros H Hin Hnull Hf. unfold NewTxSigHashes in H.
  apply obind_Ok in H. destruct H as ([v0 v1] & Ek & H).
  pose proof (inputKinds_seen fetch _ ti out _ _ _ _ Hin Hnull Hf Ek) as Hseen.
  apply obind_Ok in H. destruct H as ([amounts scripts] & Ea & H). injection H as <-.
  cbn [segwitMid taprootMid]. destruct (isWitnessTaprootScript (to_PkScript out)); subst.
  - unfold calcHashInputAmounts, calcHashInputScripts in Ea.
    destruct (prevOuts fetch (tx_TxIn tx)) as [outs|e|]; cbn [obind] in Ea; try discriminate.
    injection Ea as <- <-. exists outs. split; reflexivity.
  - reflexivity.
Qed.

Lemma midstates_correct_witness :
  match NewTxSigHashes (fun l => l) sample_tx (CannedPrevOutputFetcher [OP_DUP] 3) with
  | Ok m => segwitMid m = mkSegwitMid (bytesOf (prevOutsMessage sample_tx))
              (bytesOf (sequenceMessage sample_tx)) (bytesOf (outputsMessage sample_tx))
  | _ => False
  end.
Proof.
  destruct (NewTxSigHashes _ _ _) as [m|e|] eqn:Hm; [|discriminate | discriminate].
  exact (midstates_correct (fun l => l) sample_tx (CannedPrevOutputFetcher [OP_DUP] 3) m
           (nth 0 (tx_TxIn sample_tx) (mkTxIn (mkOutPoint [] 0) [] None 0)) (mkTxOut 3 [OP_DUP])
           Hm (or_introl eq_refl) eq_refl eq_refl).
Defined.
