(* ===== verification/Taproot.v ===== *)
(** * Taproot commitments

    src/txscript/taproot.go: control blocks, the hashes of script trees, and the
    check that a script is committed to by an output key.  The elliptic curve
    libraries are the class [Crypto]; point arithmetic appears only as the
    function that adds a tweak to a key. *)

From Stdlib Require Import ZArith List Lia Bool.
From S2P Require Import Prelude Opcodes GoSlice GoIO WireCommon Script SigHash.
Import ListNotations.
Local Open Scope Z_scope.
Local Open Scope go_scope.

(** The hash functions of the standard library and what the sources use of the
    packages btcec, ecdsa and schnorr. *)
Class Crypto : Type := {
  sha256 : list Z -> list Z;
  sha1 : list Z -> list Z;
  ripemd160 : list Z -> list Z;
  PublicKey : Type;
  ParsePubKey : list Z -> option PublicKey;
  IsCompressedPubKey : list Z -> bool;
  (** the order of the group, and half of it *)
  halfOrder : Z;
  Signature : Type;
  ParseSignature : list Z -> option Signature;
  ParseDERSignature : list Z -> option Signature;
  sig_Verify : Signature -> list Z -> PublicKey -> bool;
  SchnorrSignature : Type;
  schnorr_ParsePubKey : list Z -> option PublicKey;
  schnorr_SerializePubKey : PublicKey -> list Z;
  schnorr_ParseSignature : list Z -> option SchnorrSignature;
  schnorr_Verify : SchnorrSignature -> list Z -> PublicKey -> bool;
  (** the key plus the given multiple of the generator, and the parity of its
      y coordinate *)
  addTweak : PublicKey -> list Z -> PublicKey;
  yIsOdd : PublicKey -> bool
}.

(** What the code relies on: hashes have their documented size, and a serialized
    schnorr key parses. *)
Class CryptoLaws (C : Crypto) : Prop := {
  sha256_size : forall l, len (sha256 l) = 32 /\ bytes_ok (sha256 l);
  sha1_size : forall l, len (sha1 l) = 20 /\ bytes_ok (sha1 l);
  ripemd160_size : forall l, len (ripemd160 l) = 20 /\ bytes_ok (ripemd160 l);
  schnorr_reparse : forall k, exists k', schnorr_ParsePubKey (schnorr_SerializePubKey k) = Some k'
}.

Definition BaseLeafVersion : Z := 0xc0.
Definition ControlBlockBaseSize : Z := 33.
Definition ControlBlockNodeSize : Z := 32.
Definition ControlBlockMaxNodeCount : Z := 128.
Definition ControlBlockMaxSize : Z :=
  ControlBlockBaseSize + ControlBlockNodeSize * ControlBlockMaxNodeCount.

(** The bytes of "TapLeaf", "TapBranch" and "TapTweak". *)
Definition TagTapLeaf : list Z := [84; 97; 112; 76; 101; 97; 102].
Definition TagTapBranch : list Z := [84; 97; 112; 66; 114; 97; 110; 99; 104].
Definition TagTapTweak : list Z := [84; 97; 112; 84; 119; 101; 97; 107].

Record TapLeaf : Type := mkTapLeaf { tl_LeafVersion : Z; tl_Script : list Z }.

Definition NewTapLeaf (leafVersion : Z) (script : list Z) : TapLeaf := mkTapLeaf leafVersion script.
Definition NewBaseTapLeaf (script : list Z) : TapLeaf := mkTapLeaf BaseLeafVersion script.

Section Taproot.
Context `{C : Crypto}.

(** The hash of a leaf. *)
Definition leaf_TapHash (t : TapLeaf) : list Z :=
  TaggedHash sha256 TagTapLeaf
    [bytesOf (write [u8 (tl_LeafVersion t)] >> WriteVarBytes (tl_Script t))].

Definition tapBranchHash (l r : list Z) : list Z :=
  match Compare l r with
  | Gt => TaggedHash sha256 TagTapBranch [r; l]
  | _ => TaggedHash sha256 TagTapBranch [l; r]
  end.

Record ControlBlock : Type := mkControlBlock {
  cb_InternalKey : PublicKey;
  cb_OutputKeyYIsOdd : bool;
  cb_LeafVersion : Z;
  cb_InclusionProof : list Z
}.

Definition cb_ToBytes (c : ControlBlock) : list Z :=
  [Z.lor (u8 (cb_LeafVersion c)) (if cb_OutputKeyYIsOdd c then 1 else 0)] ++
  schnorr_SerializePubKey (cb_InternalKey c) ++ cb_InclusionProof c.

(** The loop of [RootHash] over the nodes of the proof. *)
Fixpoint root_nodes (n : nat) (merkleAccumulator proof : list Z) : list Z :=
  match n with
  | O => merkleAccumulator
  | S n => root_nodes n (tapBranchHash merkleAccumulator (firstn 32 proof)) (skipn 32 proof)
  end.

Definition RootHash (c : ControlBlock) (revealedScript : list Z) : list Z :=
  root_nodes (Z.to_nat (len (cb_InclusionProof c) / ControlBlockNodeSize))
    (leaf_TapHash (NewTapLeaf (cb_LeafVersion c) revealedScript)) (cb_InclusionProof c).

Definition ParseControlBlock (ctrlBlock : list Z) : outcome scriptErr ControlBlock :=
  if len ctrlBlock <? ControlBlockBaseSize then Err (scriptError ErrControlBlockTooSmall)
  else if ControlBlockMaxSize <? len ctrlBlock then Err (scriptError ErrControlBlockTooLarge)
  else if negb ((len ctrlBlock - ControlBlockBaseSize) mod ControlBlockNodeSize =? 0)
  then Err (scriptError ErrControlBlockInvalidLength)
  else
    let leafVersion := Z.land (at_ ctrlBlock 0) TaprootLeafMask in
    let odd := Z.land (at_ ctrlBlock 0) 0x01 =? 0x01 in
    match schnorr_ParsePubKey (sub ctrlBlock 1 33) with
    | None => Err otherError
    | Some pubKey => Ok (mkControlBlock pubKey odd leafVersion (skipn 33 ctrlBlock))
    end.

(** [ComputeTaprootOutputKey]: the internal key is parsed again from its
    serialization, which drops the parity; parsing what was serialized does not
    fail, and would give a nil key. *)
Definition ComputeTaprootOutputKey (pubKey : PublicKey) (scriptRoot : list Z)
  : outcome scriptErr PublicKey :=
  let* internalKey := deref (schnorr_ParsePubKey (schnorr_SerializePubKey pubKey)) in
  let tapTweakHash :=
    TaggedHash sha256 TagTapTweak [schnorr_SerializePubKey internalKey; scriptRoot] in
  Ok (addTweak internalKey tapTweakHash).

Definition ComputeTaprootKeyNoScript (internalKey : PublicKey) : outcome scriptErr PublicKey :=
  ComputeTaprootOutputKey internalKey [].

Definition VerifyTaprootLeafCommitment (controlBlock : ControlBlock)
    (taprootWitnessProgram revealedScript : list Z) : outcome scriptErr unit :=
  let rootHash := RootHash controlBlock revealedScript in
  let* taprootKey := ComputeTaprootOutputKey (cb_InternalKey controlBlock) rootHash in
  let expectedWitnessProgram := schnorr_SerializePubKey taprootKey in
  if negb (bytes_eqb expectedWitnessProgram taprootWitnessProgram)
  then Err (scriptError ErrTaprootMerkleProofInvalid)
  else if negb (eqb (cb_OutputKeyYIsOdd controlBlock) (yIsOdd taprootKey))
  then Err (scriptError ErrTaprootOutputKeyParityMismatch)
  else Ok tt.
End Taproot.
