(* ===== verification/Engine.v ===== *)
(** * The script engine

    src/txscript/engine.go, opcode.go and sigvalidate.go: the virtual machine
    that decides whether an input may spend an output.  The fields of [Engine]
    that never change after [NewEngine] are the record [EngineEnv]; the others
    are the state.  An opcode handler takes the opcode, its data and the engine,
    and returns the engine or an error; the state at an error is not observed by
    any caller of [Execute] and is dropped.  Log output and the disassembler
    have no effect on the result and are left out. *)

From Stdlib Require Import ZArith List Lia Bool.
From S2P Require Import Prelude Opcodes GoSlice GoIO WireCommon WireTx Script ScriptNum ScriptStack SigHash Taproot.
Import ListNotations.
Local Open Scope Z_scope.
Local Open Scope go_scope.

(** ** Flags and limits *)

Definition ScriptBip16 : Z := Z.shiftl 1 0.
Definition ScriptStrictMultiSig : Z := Z.shiftl 1 1.
Definition ScriptDiscourageUpgradableNops : Z := Z.shiftl 1 2.
Definition ScriptVerifyCheckLockTimeVerify : Z := Z.shiftl 1 3.
Definition ScriptVerifyCheckSequenceVerify : Z := Z.shiftl 1 4.
Definition ScriptVerifyCleanStack : Z := Z.shiftl 1 5.
Definition ScriptVerifyDERSignatures : Z := Z.shiftl 1 6.
Definition ScriptVerifyLowS : Z := Z.shiftl 1 7.
Definition ScriptVerifyMinimalData : Z := Z.shiftl 1 8.
Definition ScriptVerifyNullFail : Z := Z.shiftl 1 9.
Definition ScriptVerifySigPushOnly : Z := Z.shiftl 1 10.
Definition ScriptVerifyStrictEncoding : Z := Z.shiftl 1 11.
Definition ScriptVerifyWitness : Z := Z.shiftl 1 12.
Definition ScriptVerifyDiscourageUpgradeableWitnessProgram : Z := Z.shiftl 1 13.
Definition ScriptVerifyMinimalIf : Z := Z.shiftl 1 14.
Definition ScriptVerifyWitnessPubKeyType : Z := Z.shiftl 1 15.
Definition ScriptVerifyTaproot : Z := Z.shiftl 1 16.
Definition ScriptVerifyDiscourageUpgradeableTaprootVersion : Z := Z.shiftl 1 17.
Definition ScriptVerifyDiscourageOpSuccess : Z := Z.shiftl 1 18.
Definition ScriptVerifyDiscourageUpgradeablePubkeyType : Z := Z.shiftl 1 19.

Definition StandardVerifyFlags : Z :=
  fold_left Z.lor
    [ScriptVerifyDERSignatures; ScriptVerifyStrictEncoding; ScriptVerifyMinimalData;
     ScriptStrictMultiSig; ScriptDiscourageUpgradableNops; ScriptVerifyCleanStack;
     ScriptVerifyNullFail; ScriptVerifyCheckLockTimeVerify; ScriptVerifyCheckSequenceVerify;
     ScriptVerifyLowS; ScriptStrictMultiSig; ScriptVerifyWitness;
     ScriptVerifyDiscourageUpgradeableWitnessProgram; ScriptVerifyMinimalIf;
     ScriptVerifyWitnessPubKeyType; ScriptVerifyTaproot;
     ScriptVerifyDiscourageUpgradeableTaprootVersion; ScriptVerifyDiscourageOpSuccess;
     ScriptVerifyDiscourageUpgradeablePubkeyType] ScriptBip16.

Definition MaxStackSize : Z := 1000.
Definition sigOpsDelta : Z := 50.
Definition LockTimeThreshold : Z := 500000000.
Definition SequenceLockTimeDisabled : Z := Z.shiftl 1 31.
Definition SequenceLockTimeIsSeconds : Z := Z.shiftl 1 22.
Definition SequenceLockTimeMask : Z := 0x0000ffff.
Definition OpCondFalse : Z := 0.
Definition OpCondTrue : Z := 1.
Definition OpCondSkip : Z := 2.

(** ** Opcode classes *)

Definition isOpcodeDisabled (opcode : Z) : bool :=
  existsb (Z.eqb opcode)
    [OP_CAT; OP_SUBSTR; OP_LEFT; OP_RIGHT; OP_INVERT; OP_AND; OP_OR; OP_XOR; OP_2MUL; OP_2DIV;
     OP_MUL; OP_DIV; OP_MOD; OP_LSHIFT; OP_RSHIFT].

Definition isOpcodeAlwaysIllegal (opcode : Z) : bool :=
  existsb (Z.eqb opcode) [OP_VERIF; OP_VERNOTIF].

Definition isOpcodeConditional (opcode : Z) : bool :=
  existsb (Z.eqb opcode) [OP_IF; OP_NOTIF; OP_ELSE; OP_ENDIF].

Definition checkMinimalDataPush (op : Z) (data : list Z) : outcome scriptErr unit :=
  let dataLen := len data in
  let require (b : bool) : outcome scriptErr unit :=
    if b then Ok tt else Err (scriptError ErrMinimalData) in
  if (dataLen =? 0) && negb (op =? OP_0) then Err (scriptError ErrMinimalData)
  else if (dataLen =? 1) && (1 <=? at_ data 0) && (at_ data 0 <=? 16) then
    require (op =? u8 (OP_1 + at_ data 0 - 1))
  else if (dataLen =? 1) && (at_ data 0 =? 0x81) then require (op =? OP_1NEGATE)
  else if dataLen <=? 75 then require (op =? dataLen)
  else if dataLen <=? 255 then require (op =? OP_PUSHDATA1)
  else if dataLen <=? 65535 then require (op =? OP_PUSHDATA2)
  else Ok tt.

Definition isStrictPubKeyEncoding (pubKey : list Z) : bool :=
  if (len pubKey =? 33) && ((at_ pubKey 0 =? 0x02) || (at_ pubKey 0 =? 0x03)) then true
  else if len pubKey =? 65 then
    (at_ pubKey 0 =? 0x04) || (at_ pubKey 0 =? 0x06) || (at_ pubKey 0 =? 0x07)
  else false.

(** ** The engine *)

Record taprootExecutionCtx : Type := mkTapCtx {
  tc_annex : option (list Z);
  tc_codeSepPos : Z;
  tc_tapLeafHash : list Z;
  tc_sigOpsBudget : Z;
  tc_mustSucceed : bool
}.

Definition tallysigOp (t : taprootExecutionCtx) : outcome scriptErr taprootExecutionCtx :=
  let budget := i32 (tc_sigOpsBudget t - sigOpsDelta) in
  if budget <? 0 then Err (scriptError ErrTaprootMaxSigOps)
  else Ok (mkTapCtx (tc_annex t) (tc_codeSepPos t) (tc_tapLeafHash t) budget (tc_mustSucceed t)).

Definition newTaprootExecutionCtx (inputWitnessSize : Z) : taprootExecutionCtx :=
  mkTapCtx None blankCodeSepValue zeroHash (i32 (sigOpsDelta + inputWitnessSize)) false.

Record EngineEnv : Type := mkEnv {
  e_flags : Z;
  e_tx : MsgTx;
  e_txIdx : Z;
  e_version : Z;
  e_bip16 : bool;
  e_hashCache : option TxSigHashes;
  e_prevOutFetcher : PrevOutputFetcher;
  e_inputAmount : Z
}.

Record Engine : Type := mkEngine {
  vm_env : EngineEnv;
  vm_sigCache : option SharedCache;
  vm_scripts : list (list Z);
  vm_scriptIdx : Z;
  vm_opcodeIdx : Z;
  vm_lastCodeSep : Z;
  vm_tokenizer : ScriptTokenizer;
  vm_savedFirstStack : list (list Z);
  vm_dstack : stack;
  vm_astack : stack;
  vm_condStack : list Z;
  vm_numOps : Z;
  vm_witnessVersion : Z;
  vm_witnessProgram : option (list Z);
  vm_taprootCtx : option taprootExecutionCtx
}.

(** Assignments to one field. *)
Definition set_sigCache (vm : Engine) x : Engine :=
  mkEngine (vm_env vm) x (vm_scripts vm) (vm_scriptIdx vm) (vm_opcodeIdx vm) (vm_lastCodeSep vm)
    (vm_tokenizer vm) (vm_savedFirstStack vm) (vm_dstack vm) (vm_astack vm) (vm_condStack vm)
    (vm_numOps vm) (vm_witnessVersion vm) (vm_witnessProgram vm) (vm_taprootCtx vm).
Definition set_scripts (vm : Engine) x : Engine :=
  mkEngine (vm_env vm) (vm_sigCache vm) x (vm_scriptIdx vm) (vm_opcodeIdx vm) (vm_lastCodeSep vm)
    (vm_tokenizer vm) (vm_savedFirstStack vm) (vm_dstack vm) (vm_astack vm) (vm_condStack vm)
    (vm_numOps vm) (vm_witnessVersion vm) (vm_witnessProgram vm) (vm_taprootCtx vm).
Definition set_scriptIdx (vm : Engine) x : Engine :=
  mkEngine (vm_env vm) (vm_sigCache vm) (vm_scripts vm) x (vm_opcodeIdx vm) (vm_lastCodeSep vm)
    (vm_tokenizer vm) (vm_savedFirstStack vm) (vm_dstack vm) (vm_astack vm) (vm_condStack vm)
    (vm_numOps vm) (vm_witnessVersion vm) (vm_witnessProgram vm) (vm_taprootCtx vm).
Definition set_opcodeIdx (vm : Engine) x : Engine :=
  mkEngine (vm_env vm) (vm_sigCache vm) (vm_scripts vm) (vm_scriptIdx vm) x (vm_lastCodeSep vm)
    (vm_tokenizer vm) (vm_savedFirstStack vm) (vm_dstack vm) (vm_astack vm) (vm_condStack vm)
    (vm_numOps vm) (vm_witnessVersion vm) (vm_witnessProgram vm) (vm_taprootCtx vm).
Definition set_lastCodeSep (vm : Engine) x : Engine :=
  mkEngine (vm_env vm) (vm_sigCache vm) (vm_scripts vm) (vm_scriptIdx vm) (vm_opcodeIdx vm) x
    (vm_tokenizer vm) (vm_savedFirstStack vm) (vm_dstack vm) (vm_astack vm) (vm_condStack vm)
    (vm_numOps vm) (vm_witnessVersion vm) (vm_witnessProgram vm) (vm_taprootCtx vm).
Definition set_tokenizer (vm : Engine) x : Engine :=
  mkEngine (vm_env vm) (vm_sigCache vm) (vm_scripts vm) (vm_scriptIdx vm) (vm_opcodeIdx vm)
    (vm_lastCodeSep vm) x (vm_savedFirstStack vm) (vm_dstack vm) (vm_astack vm) (vm_condStack vm)
    (vm_numOps vm) (vm_witnessVersion vm) (vm_witnessProgram vm) (vm_taprootCtx vm).
Definition set_savedFirstStack (vm : Engine) x : Engine :=
  mkEngine (vm_env vm) (vm_sigCache vm) (vm_scripts vm) (vm_scriptIdx vm) (vm_opcodeIdx vm)
    (vm_lastCodeSep vm) (vm_tokenizer vm) x (vm_dstack vm) (vm_astack vm) (vm_condStack vm)
    (vm_numOps vm) (vm_witnessVersion vm) (vm_witnessProgram vm) (vm_taprootCtx vm).
Definition set_dstack (vm : Engine) x : Engine :=
  mkEngine (vm_env vm) (vm_sigCache vm) (vm_scripts vm) (vm_scriptIdx vm) (vm_opcodeIdx vm)
    (vm_lastCodeSep vm) (vm_tokenizer vm) (vm_savedFirstStack vm) x (vm_astack vm) (vm_condStack vm)
    (vm_numOps vm) (vm_witnessVersion vm) (vm_witnessProgram vm) (vm_taprootCtx vm).
Definition set_astack (vm : Engine) x : Engine :=
  mkEngine (vm_env vm) (vm_sigCache vm) (vm_scripts vm) (vm_scriptIdx vm) (vm_opcodeIdx vm)
    (vm_lastCodeSep vm) (vm_tokenizer vm) (vm_savedFirstStack vm) (vm_dstack vm) x (vm_condStack vm)
    (vm_numOps vm) (vm_witnessVersion vm) (vm_witnessProgram vm) (vm_taprootCtx vm).
Definition set_condStack (vm : Engine) x : Engine :=
  mkEngine (vm_env vm) (vm_sigCache vm) (vm_scripts vm) (vm_scriptIdx vm) (vm_opcodeIdx vm)
    (vm_lastCodeSep vm) (vm_tokenizer vm) (vm_savedFirstStack vm) (vm_dstack vm) (vm_astack vm) x
    (vm_numOps vm) (vm_witnessVersion vm) (vm_witnessProgram vm) (vm_taprootCtx vm).
Definition set_numOps (vm : Engine) x : Engine :=
  mkEngine (vm_env vm) (vm_sigCache vm) (vm_scripts vm) (vm_scriptIdx vm) (vm_opcodeIdx vm)
    (vm_lastCodeSep vm) (vm_tokenizer vm) (vm_savedFirstStack vm) (vm_dstack vm) (vm_astack vm)
    (vm_condStack vm) x (vm_witnessVersion vm) (vm_witnessProgram vm) (vm_taprootCtx vm).
Definition set_witnessProgram (vm : Engine) x : Engine :=
  mkEngine (vm_env vm) (vm_sigCache vm) (vm_scripts vm) (vm_scriptIdx vm) (vm_opcodeIdx vm)
    (vm_lastCodeSep vm) (vm_tokenizer vm) (vm_savedFirstStack vm) (vm_dstack vm) (vm_astack vm)
    (vm_condStack vm) (vm_numOps vm) (vm_witnessVersion vm) x (vm_taprootCtx vm).
Definition set_taprootCtx (vm : Engine) x : Engine :=
  mkEngine (vm_env vm) (vm_sigCache vm) (vm_scripts vm) (vm_scriptIdx vm) (vm_opcodeIdx vm)
    (vm_lastCodeSep vm) (vm_tokenizer vm) (vm_savedFirstStack vm) (vm_dstack vm) (vm_astack vm)
    (vm_condStack vm) (vm_numOps vm) (vm_witnessVersion vm) (vm_witnessProgram vm) x.

Definition hasFlag (vm : Engine) (flag : Z) : bool :=
  Z.land (e_flags (vm_env vm)) flag =? flag.

Definition isBranchExecuting (vm : Engine) : bool :=
  match vm_condStack vm with
  | [] => true
  | _ => last (vm_condStack vm) OpCondFalse =? OpCondTrue
  end.

Definition isWitnessVersionActive (vm : Engine) (version : Z) : bool :=
  isSome (vm_witnessProgram vm) && (vm_witnessVersion vm =? version).

Definition inTaproot (vm : Engine) : bool := isSome (vm_taprootCtx vm).

(** [subScript]: what follows the last code separator. *)
Definition subScript (vm : Engine) : outcome scriptErr (list Z) :=
  let* s := get_at (vm_scripts vm) (vm_scriptIdx vm) in
  slice s (vm_lastCodeSep vm) (len s).

(** [getStack] copies the stack, bottom first; [setStack] replaces it. *)
Definition getStack (s : stack) : list (list Z) :=
  rev (map (fun i => match PeekByteArray s (Z.of_nat i) with Ok b => b | _ => [] end)
         (seq 0 (Z.to_nat (Depth s)))).

Definition setStack (s : stack) (data : list (list Z)) : stack :=
  let s := match DropN s (Depth s) with Ok s' => s' | _ => s end in
  fold_left PushByteArray data s.

Definition GetStack (vm : Engine) : list (list Z) := getStack (vm_dstack vm).
Definition SetStack (vm : Engine) (data : list (list Z)) : Engine :=
  set_dstack vm (setStack (vm_dstack vm) data).
Definition GetAltStack (vm : Engine) : list (list Z) := getStack (vm_astack vm).
Definition SetAltStack (vm : Engine) (data : list (list Z)) : Engine :=
  set_astack vm (setStack (vm_astack vm) data).

(** ** Encodings of signatures and keys *)

Section Machine.
Context `{C : Crypto}.
(** The choice of the entry a full signature cache drops. *)
Context (evict : list (list Z * sigCacheEntry) -> nat).

Definition checkHashTypeEncoding (vm : Engine) (hashType : Z) : outcome scriptErr unit :=
  if negb (hasFlag vm ScriptVerifyStrictEncoding) then Ok tt
  else
    let sigHashType := Z.ldiff hashType SigHashAnyOneCanPay in
    if (sigHashType <? SigHashAll) || (SigHashSingle <? sigHashType)
    then Err (scriptError ErrInvalidSigHashType) else Ok tt.

Definition checkPubKeyEncoding (vm : Engine) (pubKey : list Z) : outcome scriptErr unit :=
  if hasFlag vm ScriptVerifyWitnessPubKeyType &&
     isWitnessVersionActive vm BaseSegwitWitnessVersion && negb (IsCompressedPubKey pubKey)
  then Err (scriptError ErrWitnessPubKeyType)
  else if negb (hasFlag vm ScriptVerifyStrictEncoding) then Ok tt
  else if (len pubKey =? 33) && ((at_ pubKey 0 =? 0x02) || (at_ pubKey 0 =? 0x03)) then Ok tt
  else if (len pubKey =? 65) && (at_ pubKey 0 =? 0x04) then Ok tt
  else Err (scriptError ErrPubKeyType).

(** [return scriptError(c)] unless the test passes. *)
Definition guard (b : bool) (c : ErrorCode) : outcome scriptErr unit :=
  if b then Ok tt else Err (scriptError c).

Definition checkSignatureEncoding (vm : Engine) (sig : list Z) : outcome scriptErr unit :=
  if negb (hasFlag vm ScriptVerifyDERSignatures) && negb (hasFlag vm ScriptVerifyLowS) &&
     negb (hasFlag vm ScriptVerifyStrictEncoding)
  then Ok tt
  else
    let sigLen := len sig in
    let* _ := guard (8 <=? sigLen) ErrSigTooShort in
    let* _ := guard (sigLen <=? 72) ErrSigTooLong in
    let* b0 := get_at sig 0 in
    let* _ := guard (b0 =? 0x30) ErrSigInvalidSeqID in
    let* b1 := get_at sig 1 in
    let* _ := guard (b1 =? sigLen - 2) ErrSigInvalidDataLen in
    let* rLen := get_at sig 3 in
    let sTypeOffset := 4 + rLen in
    let sLenOffset := sTypeOffset + 1 in
    let* _ := guard (sTypeOffset <? sigLen) ErrSigMissingSTypeID in
    let* _ := guard (sLenOffset <? sigLen) ErrSigMissingSLen in
    let sOffset := sLenOffset + 1 in
    let* sLen := get_at sig sLenOffset in
    let* _ := guard (sOffset + sLen =? sigLen) ErrSigInvalidSLen in
    let* rType := get_at sig 2 in
    let* _ := guard (rType =? 0x02) ErrSigInvalidRIntID in
    let* _ := guard (negb (rLen =? 0)) ErrSigZeroRLen in
    let* r0 := get_at sig 4 in
    let* _ := guard (Z.land r0 0x80 =? 0) ErrSigNegativeR in
    let* _ :=
      if (1 <? rLen) && (r0 =? 0x00) then
        let* r1 := get_at sig 5 in guard (negb (Z.land r1 0x80 =? 0)) ErrSigTooMuchRPadding
      else Ok tt in
    let* sType := get_at sig sTypeOffset in
    let* _ := guard (sType =? 0x02) ErrSigInvalidSIntID in
    let* _ := guard (negb (sLen =? 0)) ErrSigZeroSLen in
    let* s0 := get_at sig sOffset in
    let* _ := guard (Z.land s0 0x80 =? 0) ErrSigNegativeS in
    let* _ :=
      if (1 <? sLen) && (s0 =? 0x00) then
        let* s1 := get_at sig (sOffset + 1) in
        guard (negb (Z.land s1 0x80 =? 0)) ErrSigTooMuchSPadding
      else Ok tt in
    if hasFlag vm ScriptVerifyLowS then
      let* sBytes := slice sig sOffset (sOffset + sLen) in
      guard (le_get (rev sBytes) <=? halfOrder) ErrSigHighS
    else Ok tt.

(** ** sigvalidate.go *)

Definition ofOption {A} (o : option A) : outcome scriptErr A :=
  match o with Some a => Ok a | None => Err otherError end.

Definition parseBaseSigAndPubkey (pkBytes fullSigBytes : list Z) (vm : Engine)
  : outcome scriptErr (PublicKey * Signature * Z) :=
  let strictEncoding :=
    hasFlag vm ScriptVerifyStrictEncoding || hasFlag vm ScriptVerifyDERSignatures in
  let* hashType := get_at fullSigBytes (len fullSigBytes - 1) in
  let* sigBytes := slice fullSigBytes 0 (len fullSigBytes - 1) in
  let* _ := checkHashTypeEncoding vm hashType in
  let* _ := checkSignatureEncoding vm sigBytes in
  let* _ := checkPubKeyEncoding vm pkBytes in
  let* pubKey := ofOption (ParsePubKey pkBytes) in
  let* signature :=
    ofOption (if strictEncoding then ParseDERSignature sigBytes else ParseSignature sigBytes) in
  Ok (pubKey, signature, hashType).

Record baseSigVerifier : Type := mkBaseVerifier {
  bv_pubKey : PublicKey;
  bv_sig : Signature;
  bv_fullSigBytes : list Z;
  bv_sigBytes : list Z;
  bv_pkBytes : list Z;
  bv_subScript : list Z;
  bv_hashType : Z
}.

Definition newBaseSigVerifier (pkBytes fullSigBytes : list Z) (vm : Engine)
  : outcome scriptErr baseSigVerifier :=
  let* (pubKey, sig, hashType) := parseBaseSigAndPubkey pkBytes fullSigBytes vm in
  let* script := subScript vm in
  let* sigBytes := slice fullSigBytes 0 (len fullSigBytes - 1) in
  Ok (mkBaseVerifier pubKey sig fullSigBytes sigBytes pkBytes script hashType).

(** A [chainhash.Hash] filled from a slice. *)
Definition hashKey (sigHash : list Z) : list Z := firstn 32 (sigHash ++ repeat 0 32).

(** Verifying through the signature cache: a hit is valid, and what verifies is
    added. *)
Definition verifyCached (vm : Engine) (key sig pubKey : list Z) (verify : bool) : bool * Engine :=
  match vm_sigCache vm with
  | None => (verify, vm)
  | Some shared =>
      let shared := access shared in
      if Exists (sh_cache shared) key sig pubKey then (true, set_sigCache vm (Some shared))
      else if verify then
        let shared := access shared in
        (true, set_sigCache vm (Some (mkShared (Add evict (sh_cache shared) key sig pubKey) (sh_others shared))))
      else (false, set_sigCache vm (Some shared))
  end.

Definition base_verifySig (b : baseSigVerifier) (vm : Engine) (sigHash : list Z) : bool * Engine :=
  verifyCached vm (hashKey sigHash) (bv_sigBytes b) (bv_pkBytes b)
    (sig_Verify (bv_sig b) sigHash (bv_pubKey b)).

Definition base_Verify (b : baseSigVerifier) (vm : Engine) : outcome scriptErr (bool * Engine) :=
  let subScript := removeOpcodeByData (bv_subScript b) (bv_fullSigBytes b) in
  let* sigHash :=
    calcSignatureHash sha256 subScript (bv_hashType b) (e_tx (vm_env vm)) (e_txIdx (vm_env vm)) in
  Ok (base_verifySig b vm sigHash).

(** The midstates: the cached ones, or computed now. *)
Definition vm_sigHashes (vm : Engine) : outcome scriptErr (option TxSigHashes) :=
  match e_hashCache (vm_env vm) with
  | Some m => Ok (Some m)
  | None =>
      let* m := NewTxSigHashes sha256 (e_tx (vm_env vm)) (e_prevOutFetcher (vm_env vm)) in
      Ok (Some m)
  end.

Definition segwit_Verify (b : baseSigVerifier) (vm : Engine) : outcome scriptErr (bool * Engine) :=
  let* sigHashes := vm_sigHashes vm in
  match calcWitnessSignatureHashRaw sha256 (bv_subScript b) sigHashes (bv_hashType b)
          (e_tx (vm_env vm)) (e_txIdx (vm_env vm)) (e_inputAmount (vm_env vm)) with
  | Ok sigHash => Ok (base_verifySig b vm sigHash)
  | Err _ => Ok (false, vm)
  | Panic => Panic
  end.

Definition parseTaprootSigAndPubKey (pkBytes rawSig : list Z)
  : outcome scriptErr (PublicKey * SchnorrSignature * Z) :=
  let* pubKey := ofOption (schnorr_ParsePubKey pkBytes) in
  if len rawSig =? 64 then
    let* sig := ofOption (schnorr_ParseSignature rawSig) in Ok (pubKey, sig, SigHashDefault)
  else if (len rawSig =? 65) && negb (at_ rawSig 64 =? 0) then
    let* sig := ofOption (schnorr_ParseSignature (firstn 64 rawSig)) in
    Ok (pubKey, sig, at_ rawSig 64)
  else Err (scriptError ErrInvalidTaprootSigLen).

Record taprootSigVerifier : Type := mkTaprootVerifier {
  tv_pubKey : PublicKey;
  tv_pkBytes : list Z;
  tv_fullSigBytes : list Z;
  tv_sig : SchnorrSignature;
  tv_hashType : Z;
  tv_annex : option (list Z)
}.

Definition newTaprootSigVerifier (pkBytes fullSigBytes : list Z) (annex : option (list Z))
  : outcome scriptErr taprootSigVerifier :=
  let* (pubKey, sig, sigHashType) := parseTaprootSigAndPubKey pkBytes fullSigBytes in
  Ok (mkTaprootVerifier pubKey pkBytes fullSigBytes sig sigHashType annex).

(** [chainhash.NewHash] gives nil for another length than 32, and the cache
    lookup dereferences it. *)
Definition taproot_verifySig (t : taprootSigVerifier) (vm : Engine) (sigHash : list Z)
  : outcome scriptErr (bool * Engine) :=
  let verify := schnorr_Verify (tv_sig t) sigHash (tv_pubKey t) in
  match vm_sigCache vm with
  | None => Ok (verify, vm)
  | Some _ =>
      let* key := deref (if len sigHash =? 32 then Some sigHash else None) in
      Ok (verifyCached vm key (tv_fullSigBytes t) (tv_pkBytes t) verify)
  end.

Definition annexOption (annex : option (list Z)) (o : taprootSigHashOptions) : taprootSigHashOptions :=
  match annex with Some a => WithAnnex sha256 a o | None => o end.

Definition taproot_verifyWith (t : taprootSigVerifier) (opts : taprootSigHashOptions) (vm : Engine)
  : outcome scriptErr (bool * Engine) :=
  match calcTaprootSignatureHashRaw sha256 (e_hashCache (vm_env vm)) (tv_hashType t)
          (e_tx (vm_env vm)) (e_txIdx (vm_env vm)) (e_prevOutFetcher (vm_env vm)) opts with
  | Ok sigHash => taproot_verifySig t vm sigHash
  | Err _ => Ok (false, vm)
  | Panic => Panic
  end.

Definition taproot_Verify (t : taprootSigVerifier) (vm : Engine) : outcome scriptErr (bool * Engine) :=
  taproot_verifyWith t (annexOption (tv_annex t) defaultTaprootSighashOptions) vm.

(** [newBaseTapscriptSigVerifier]: a key of another length than 32 has an empty
    verifier, which accepts. *)
Definition newBaseTapscriptSigVerifier (pkBytes rawSig : list Z) (vm : Engine)
    (ctx : taprootExecutionCtx) : outcome scriptErr (option taprootSigVerifier) :=
  if len pkBytes =? 0 then Err (scriptError ErrTaprootPubkeyIsEmpty)
  else if len pkBytes =? 32 then
    let* t := newTaprootSigVerifier pkBytes rawSig (tc_annex ctx) in Ok (Some t)
  else if hasFlag vm ScriptVerifyDiscourageUpgradeablePubkeyType
  then Err (scriptError ErrDiscourageUpgradeablePubKeyType)
  else Ok None.

Definition tapscript_Verify (b : option taprootSigVerifier) (ctx : taprootExecutionCtx) (vm : Engine)
  : outcome scriptErr (bool * Engine) :=
  match b with
  | None => Ok (true, vm)
  | Some t =>
      taproot_verifyWith t
        (annexOption (tc_annex ctx)
           (WithBaseTapscriptVersion (tc_codeSepPos ctx) (tc_tapLeafHash ctx)
              defaultTaprootSighashOptions)) vm
  end.

Definition VerifyTaprootKeySpend (witnessProgram rawSig : list Z) (vm : Engine)
  : outcome scriptErr Engine :=
  let* ti := get_at (tx_TxIn (e_tx (vm_env vm))) (e_txIdx (vm_env vm)) in
  let witness := wit_items (ti_Witness ti) in
  let* t := newTaprootSigVerifier witnessProgram rawSig (extractAnnex witness) in
  let* (valid, vm) := taproot_Verify t vm in
  if valid then Ok vm else Err (scriptError ErrTaprootSigInvalid).

(** ** Opcode handlers (opcode.go) *)

Definition handler : Type := Z -> list Z -> Engine -> outcome scriptErr Engine.

(** A handler that is one operation of the data stack. *)
Definition dstackOp (f : stack -> outcome scriptErr stack) (vm : Engine) : outcome scriptErr Engine :=
  let* s := f (vm_dstack vm) in Ok (set_dstack vm s).

Definition opcodeDisabled : handler := fun _ _ _ => Err (scriptError ErrDisabledOpcode).
Definition opcodeReserved : handler := fun _ _ _ => Err (scriptError ErrReservedOpcode).
Definition opcodeInvalid : handler := fun _ _ _ => Err (scriptError ErrReservedOpcode).

Definition opcodeFalse : handler := fun _ _ vm =>
  Ok (set_dstack vm (PushByteArray (vm_dstack vm) [])).
Definition opcodePushData : handler := fun _ data vm =>
  Ok (set_dstack vm (PushByteArray (vm_dstack vm) data)).
Definition opcode1Negate : handler := fun _ _ vm => dstackOp (fun s => PushInt s (-1)) vm.
Definition opcodeN : handler := fun op _ vm =>
  dstackOp (fun s => PushInt s (u8 (op - (OP_1 - 1)))) vm.

Definition opcodeNop : handler := fun op _ vm =>
  if existsb (Z.eqb op) [OP_NOP1; OP_NOP4; OP_NOP5; OP_NOP6; OP_NOP7; OP_NOP8; OP_NOP9; OP_NOP10] &&
     hasFlag vm ScriptDiscourageUpgradableNops
  then Err (scriptError ErrDiscourageUpgradableNOPs)
  else Ok vm.

Definition popIfBool (vm : Engine) : outcome scriptErr (bool * Engine) :=
  if negb (isWitnessVersionActive vm TaprootWitnessVersion) &&
     (negb (isWitnessVersionActive vm BaseSegwitWitnessVersion) ||
      negb (hasFlag vm ScriptVerifyMinimalIf))
  then let* (b, s) := PopBool (vm_dstack vm) in Ok (b, set_dstack vm s)
  else
    let* (so, s) := PopByteArray (vm_dstack vm) in
    if 1 <? len so then Err (scriptError ErrMinimalIf)
    else if (len so =? 1) && negb (at_ so 0 =? 0x01) then Err (scriptError ErrMinimalIf)
    else Ok (asBool so, set_dstack vm s).

Definition pushCond (vm : Engine) (condVal : Z) : Engine :=
  set_condStack vm (vm_condStack vm ++ [condVal]).

Definition opcodeIf : handler := fun _ _ vm =>
  if isBranchExecuting vm then
    let* (ok, vm) := popIfBool vm in
    Ok (pushCond vm (if ok then OpCondTrue else OpCondFalse))
  else Ok (pushCond vm OpCondSkip).

Definition opcodeNotIf : handler := fun _ _ vm =>
  if isBranchExecuting vm then
    let* (ok, vm) := popIfBool vm in
    Ok (pushCond vm (if negb ok then OpCondTrue else OpCondFalse))
  else Ok (pushCond vm OpCondSkip).

Definition opcodeElse : handler := fun _ _ vm =>
  match vm_condStack vm with
  | [] => Err (scriptError ErrUnbalancedConditional)
  | _ =>
      let c := last (vm_condStack vm) OpCondFalse in
      let c' := if c =? OpCondTrue then OpCondFalse
                else if c =? OpCondFalse then OpCondTrue else c in
      Ok (set_condStack vm (removelast (vm_condStack vm) ++ [c']))
  end.

Definition opcodeEndif : handler := fun _ _ vm =>
  match vm_condStack vm with
  | [] => Err (scriptError ErrUnbalancedConditional)
  | _ => Ok (set_condStack vm (removelast (vm_condStack vm)))
  end.

Definition abstractVerify (vm : Engine) (c : ErrorCode) : outcome scriptErr Engine :=
  let* (verified, s) := PopBool (vm_dstack vm) in
  if verified then Ok (set_dstack vm s) else Err (scriptError c).

Definition opcodeVerify : handler := fun _ _ vm => abstractVerify vm ErrVerify.
Definition opcodeReturn : handler := fun _ _ _ => Err (scriptError ErrEarlyReturn).

Definition verifyLockTime (txLockTime threshold lockTime : Z) : outcome scriptErr unit :=
  if negb (((txLockTime <? threshold) && (lockTime <? threshold)) ||
           ((threshold <=? txLockTime) && (threshold <=? lockTime)))
  then Err (scriptError ErrUnsatisfiedLockTime)
  else if txLockTime <? lockTime then Err (scriptError ErrUnsatisfiedLockTime)
  else Ok tt.

Definition opcodeCheckLockTimeVerify : handler := fun _ _ vm =>
  if negb (hasFlag vm ScriptVerifyCheckLockTimeVerify) then
    if hasFlag vm ScriptDiscourageUpgradableNops
    then Err (scriptError ErrDiscourageUpgradableNOPs) else Ok vm
  else
    let* so := PeekByteArray (vm_dstack vm) 0 in
    let* lockTime := makeScriptNum so (verifyMinimalData (vm_dstack vm)) 5 in
    if lockTime <? 0 then Err (scriptError ErrNegativeLockTime)
    else
      let* _ := verifyLockTime (tx_LockTime (e_tx (vm_env vm))) LockTimeThreshold lockTime in
      let* ti := get_at (tx_TxIn (e_tx (vm_env vm))) (e_txIdx (vm_env vm)) in
      if ti_Sequence ti =? MaxTxInSequenceNum then Err (scriptError ErrUnsatisfiedLockTime)
      else Ok vm.

Definition opcodeCheckSequenceVerify : handler := fun _ _ vm =>
  if negb (hasFlag vm ScriptVerifyCheckSequenceVerify) then
    if hasFlag vm ScriptDiscourageUpgradableNops
    then Err (scriptError ErrDiscourageUpgradableNOPs) else Ok vm
  else
    let* so := PeekByteArray (vm_dstack vm) 0 in
    let* sequence := makeScriptNum so (verifyMinimalData (vm_dstack vm)) 5 in
    if sequence <? 0 then Err (scriptError ErrNegativeLockTime)
    else if negb (Z.land sequence SequenceLockTimeDisabled =? 0) then Ok vm
    else if u32 (tx_Version (e_tx (vm_env vm))) <? 2 then Err (scriptError ErrUnsatisfiedLockTime)
    else
      let* ti := get_at (tx_TxIn (e_tx (vm_env vm))) (e_txIdx (vm_env vm)) in
      let txSequence := ti_Sequence ti in
      if negb (Z.land txSequence SequenceLockTimeDisabled =? 0)
      then Err (scriptError ErrUnsatisfiedLockTime)
      else
        let lockTimeMask := Z.lor SequenceLockTimeIsSeconds SequenceLockTimeMask in
        let* _ := verifyLockTime (Z.land txSequence lockTimeMask) SequenceLockTimeIsSeconds
                    (Z.land sequence lockTimeMask) in
        Ok vm.

Definition opcodeToAltStack : handler := fun _ _ vm =>
  let* (so, s) := PopByteArray (vm_dstack vm) in
  Ok (set_astack (set_dstack vm s) (PushByteArray (vm_astack vm) so)).
Definition opcodeFromAltStack : handler := fun _ _ vm =>
  let* (so, s) := PopByteArray (vm_astack vm) in
  Ok (set_dstack (set_astack vm s) (PushByteArray (vm_dstack vm) so)).

Definition opcode2Drop : handler := fun _ _ vm => dstackOp (fun s => DropN s 2) vm.
Definition opcode2Dup : handler := fun _ _ vm => dstackOp (fun s => DupN s 2) vm.
Definition opcode3Dup : handler := fun _ _ vm => dstackOp (fun s => DupN s 3) vm.
Definition opcode2Over : handler := fun _ _ vm => dstackOp (fun s => OverN s 2) vm.
Definition opcode2Rot : handler := fun _ _ vm => dstackOp (fun s => RotN s 2) vm.
Definition opcode2Swap : handler := fun _ _ vm => dstackOp (fun s => SwapN s 2) vm.
Definition opcodeIfDup : handler := fun _ _ vm =>
  let* so := PeekByteArray (vm_dstack vm) 0 in
  if asBool so then Ok (set_dstack vm (PushByteArray (vm_dstack vm) so)) else Ok vm.
Definition opcodeDepth : handler := fun _ _ vm => dstackOp (fun s => PushInt s (Depth s)) vm.
Definition opcodeDrop : handler := fun _ _ vm => dstackOp (fun s => DropN s 1) vm.
Definition opcodeDup : handler := fun _ _ vm => dstackOp (fun s => DupN s 1) vm.
Definition opcodeNip : handler := fun _ _ vm => dstackOp (fun s => NipN s 1) vm.
Definition opcodeOver : handler := fun _ _ vm => dstackOp (fun s => OverN s 1) vm.
Definition opcodePick : handler := fun _ _ vm =>
  dstackOp (fun s => let* (val, s) := PopInt s in PickN s (Int32 val)) vm.
Definition opcodeRoll : handler := fun _ _ vm =>
  dstackOp (fun s => let* (val, s) := PopInt s in RollN s (Int32 val)) vm.
Definition opcodeRot : handler := fun _ _ vm => dstackOp (fun s => RotN s 1) vm.
Definition opcodeSwap : handler := fun _ _ vm => dstackOp (fun s => SwapN s 1) vm.
Definition opcodeTuck : handler := fun _ _ vm => dstackOp Tuck vm.
Definition opcodeSize : handler := fun _ _ vm =>
  dstackOp (fun s => let* so := PeekByteArray s 0 in PushInt s (len so)) vm.

Definition opcodeEqual : handler := fun _ _ vm =>
  dstackOp (fun s =>
    let* (a, s) := PopByteArray s in
    let* (b, s) := PopByteArray s in
    Ok (PushBool s (bytes_eqb a b))) vm.
Definition opcodeEqualVerify : handler := fun op data vm =>
  let* vm := opcodeEqual op data vm in abstractVerify vm ErrEqualVerify.

(** Numeric handlers with one and with two operands; [v0] is the top. *)
Definition unaryNum (f : Z -> Z) (vm : Engine) : outcome scriptErr Engine :=
  dstackOp (fun s => let* (m, s) := PopInt s in PushInt s (f m)) vm.
Definition binaryNum (f : Z -> Z -> Z) (vm : Engine) : outcome scriptErr Engine :=
  dstackOp (fun s =>
    let* (v0, s) := PopInt s in
    let* (v1, s) := PopInt s in
    PushInt s (f v0 v1)) vm.

Definition opcode1Add : handler := fun _ _ vm => unaryNum (fun m => i64 (m + 1)) vm.
Definition opcode1Sub : handler := fun _ _ vm => unaryNum (fun m => i64 (m - 1)) vm.
Definition opcodeNegate : handler := fun _ _ vm => unaryNum (fun m => i64 (- m)) vm.
Definition opcodeAbs : handler := fun _ _ vm => unaryNum (fun m => if m <? 0 then i64 (- m) else m) vm.
Definition opcodeNot : handler := fun _ _ vm => unaryNum (fun m => if m =? 0 then 1 else 0) vm.
Definition opcode0NotEqual : handler := fun _ _ vm =>
  unaryNum (fun m => if negb (m =? 0) then 1 else m) vm.
Definition opcodeAdd : handler := fun _ _ vm => binaryNum (fun v0 v1 => i64 (v0 + v1)) vm.
Definition opcodeSub : handler := fun _ _ vm => binaryNum (fun v0 v1 => i64 (v1 - v0)) vm.
Definition opcodeBoolAnd : handler := fun _ _ vm =>
  binaryNum (fun v0 v1 => if negb (v0 =? 0) && negb (v1 =? 0) then 1 else 0) vm.
Definition opcodeBoolOr : handler := fun _ _ vm =>
  binaryNum (fun v0 v1 => if negb (v0 =? 0) || negb (v1 =? 0) then 1 else 0) vm.
Definition opcodeNumEqual : handler := fun _ _ vm =>
  binaryNum (fun v0 v1 => if v0 =? v1 then 1 else 0) vm.
Definition opcodeNumEqualVerify : handler := fun op data vm =>
  let* vm := opcodeNumEqual op data vm in abstractVerify vm ErrNumEqualVerify.
Definition opcodeNumNotEqual : handler := fun _ _ vm =>
  binaryNum (fun v0 v1 => if negb (v0 =? v1) then 1 else 0) vm.
Definition opcodeLessThan : handler := fun _ _ vm =>
  binaryNum (fun v0 v1 => if v1 <? v0 then 1 else 0) vm.
Definition opcodeGreaterThan : handler := fun _ _ vm =>
  binaryNum (fun v0 v1 => if v0 <? v1 then 1 else 0) vm.
Definition opcodeLessThanOrEqual : handler := fun _ _ vm =>
  binaryNum (fun v0 v1 => if v1 <=? v0 then 1 else 0) vm.
Definition opcodeGreaterThanOrEqual : handler := fun _ _ vm =>
  binaryNum (fun v0 v1 => if v0 <=? v1 then 1 else 0) vm.
Definition opcodeMin : handler := fun _ _ vm =>
  binaryNum (fun v0 v1 => if v1 <? v0 then v1 else v0) vm.
Definition opcodeMax : handler := fun _ _ vm =>
  binaryNum (fun v0 v1 => if v0 <? v1 then v1 else v0) vm.
Definition opcodeWithin : handler := fun _ _ vm =>
  dstackOp (fun s =>
    let* (maxVal, s) := PopInt s in
    let* (minVal, s) := PopInt s in
    let* (x, s) := PopInt s in
    PushInt s (if (minVal <=? x) && (x <? maxVal) then 1 else 0)) vm.

(** Hashing the top of the stack. *)
Definition hashTop (f : list Z -> list Z) (vm : Engine) : outcome scriptErr Engine :=
  dstackOp (fun s => let* (buf, s) := PopByteArray s in Ok (PushByteArray s (f buf))) vm.

Definition opcodeRipemd160 : handler := fun _ _ vm => hashTop ripemd160 vm.
Definition opcodeSha1 : handler := fun _ _ vm => hashTop sha1 vm.
Definition opcodeSha256 : handler := fun _ _ vm => hashTop sha256 vm.
Definition opcodeHash160 : handler := fun _ _ vm => hashTop (fun buf => ripemd160 (sha256 buf)) vm.
Definition opcodeHash256 : handler := fun _ _ vm => hashTop (DoubleHashB sha256) vm.

Definition opcodeCodeSeparator : handler := fun _ _ vm =>
  let vm := set_lastCodeSep vm (tk_offset (vm_tokenizer vm)) in
  match vm_taprootCtx vm with
  | None => Ok vm
  | Some t =>
      Ok (set_taprootCtx vm (Some (mkTapCtx (tc_annex t) (u32 (tk_opcodePos (vm_tokenizer vm)))
            (tc_tapLeafHash t) (tc_sigOpsBudget t) (tc_mustSucceed t))))
  end.

(** ** Signature checks *)

(** The interface signatureVerifier: the verifier a check uses, or nil. *)
Inductive signatureVerifier : Type :=
| BaseVerifier (b : baseSigVerifier)
| SegwitVerifier (b : baseSigVerifier)
| TapscriptVerifier (b : option taprootSigVerifier) (ctx : taprootExecutionCtx)
| NilVerifier.

Definition sv_Verify (v : signatureVerifier) (vm : Engine) : outcome scriptErr (bool * Engine) :=
  match v with
  | BaseVerifier b => base_Verify b vm
  | SegwitVerifier b => segwit_Verify b vm
  | TapscriptVerifier b ctx => tapscript_Verify b ctx vm
  | NilVerifier => Panic
  end.

Definition pushBool (vm : Engine) (b : bool) : Engine := set_dstack vm (PushBool (vm_dstack vm) b).

(** A verifier built with [new], or what the handler returns without one: an
    error of the script, and otherwise false on the stack. *)
Definition orFalse {A} (m : outcome scriptErr A) (vm : Engine) (k : A -> outcome scriptErr Engine)
  : outcome scriptErr Engine :=
  match m with
  | Ok a => k a
  | Err (scriptError c) => Err (scriptError c)
  | Err otherError => Ok (pushBool vm false)
  | Panic => Panic
  end.

(** The end of the handler: verify, and push the result. *)
Definition checkSig_verify (fullSigBytes : list Z) (v : signatureVerifier) (vm : Engine)
  : outcome scriptErr Engine :=
  let* (valid, vm) := sv_Verify v vm in
  if negb valid && (inTaproot vm || hasFlag vm ScriptVerifyNullFail) && (0 <? len fullSigBytes)
  then Err (scriptError ErrNullFail)
  else Ok (pushBool vm valid).

Definition opcodeCheckSig : handler := fun _ _ vm =>
  let* (pkBytes, s) := PopByteArray (vm_dstack vm) in
  let* (fullSigBytes, s) := PopByteArray s in
  let vm := set_dstack vm s in
  if negb (inTaproot vm) && (len fullSigBytes <? 1) then Ok (pushBool vm false)
  else if negb (isSome (vm_witnessProgram vm)) then
    orFalse (newBaseSigVerifier pkBytes fullSigBytes vm) vm
      (fun b => checkSig_verify fullSigBytes (BaseVerifier b) vm)
  else if isWitnessVersionActive vm BaseSegwitWitnessVersion then
    orFalse (newBaseSigVerifier pkBytes fullSigBytes vm) vm
      (fun b => checkSig_verify fullSigBytes (SegwitVerifier b) vm)
  else
    match vm_taprootCtx vm with
    | Some ctx =>
        let* ctx := if 0 <? len fullSigBytes then tallysigOp ctx else Ok ctx in
        let vm := set_taprootCtx vm (Some ctx) in
        if len pkBytes =? 0 then Err (scriptError ErrTaprootPubkeyIsEmpty)
        else if len fullSigBytes =? 0 then
          Ok (set_dstack vm (PushByteArray (vm_dstack vm) []))
        else
          let* b := newBaseTapscriptSigVerifier pkBytes fullSigBytes vm ctx in
          checkSig_verify fullSigBytes (TapscriptVerifier b ctx) vm
    | None => checkSig_verify fullSigBytes NilVerifier vm
    end.

Definition opcodeCheckSigVerify : handler := fun op data vm =>
  let* vm := opcodeCheckSig op data vm in abstractVerify vm ErrCheckSigVerify.

Definition opcodeCheckSigAdd : handler := fun _ _ vm =>
  match vm_taprootCtx vm with
  | None => Err (scriptError ErrReservedOpcode)
  | Some ctx =>
      let* (pubKeyBytes, s) := PopByteArray (vm_dstack vm) in
      let* (accumulatorInt, s) := PopInt s in
      let* (sigBytes, s) := PopByteArray s in
      let vm := set_dstack vm s in
      let* ctx := if negb (len sigBytes =? 0) then tallysigOp ctx else Ok ctx in
      let vm := set_taprootCtx vm (Some ctx) in
      if len pubKeyBytes =? 0 then Err (scriptError ErrTaprootPubkeyIsEmpty)
      else if len sigBytes =? 0 then dstackOp (fun s => PushInt s accumulatorInt) vm
      else
        let* b := newBaseTapscriptSigVerifier pubKeyBytes sigBytes vm ctx in
        let* (valid, vm) := tapscript_Verify b ctx vm in
        if negb valid then Err (scriptError ErrNullFail)
        else dstackOp (fun s => PushInt s (i64 (accumulatorInt + 1))) vm
  end.

(** A signature of OP_CHECKMULTISIG with what has been parsed of it. *)
Record parsedSigInfo : Type := mkSigInfo {
  si_signature : list Z; si_parsedSignature : option Signature; si_parsed : bool }.

Fixpoint pop_loop (n : nat) (s : stack) : outcome scriptErr (list (list Z) * stack) :=
  match n with
  | O => Ok ([], s)
  | S n =>
      let* (x, s) := PopByteArray s in
      let* (xs, s) := pop_loop n s in
      Ok (x :: xs, s)
  end.

(** The part of an iteration behind the parsing of the signature: whether it is
    valid for the key. *)
Definition multisig_verify (script signature pubKey : list Z) (hashType : Z) (parsedSig : Signature)
    (vm : Engine) : outcome scriptErr (bool * Engine) :=
  let* _ := checkPubKeyEncoding vm pubKey in
  match ParsePubKey pubKey with
  | None => Ok (false, vm)
  | Some parsedPubKey =>
      let* hash :=
        if isWitnessVersionActive vm 0 then
          let* sigHashes := vm_sigHashes vm in
          calcWitnessSignatureHashRaw sha256 script sigHashes hashType (e_tx (vm_env vm))
            (e_txIdx (vm_env vm)) (e_inputAmount (vm_env vm))
        else
          calcSignatureHash sha256 script hashType (e_tx (vm_env vm)) (e_txIdx (vm_env vm)) in
      Ok (verifyCached vm (hashKey hash) signature pubKey (sig_Verify parsedSig hash parsedPubKey))
  end.

(** One signature against one key: the signature with its parsing recorded,
    whether it is valid, and the engine. *)
Definition multisig_try (script : list Z) (info : parsedSigInfo) (pubKey : list Z) (vm : Engine)
  : outcome scriptErr (parsedSigInfo * bool * Engine) :=
  let rawSig := si_signature info in
  if len rawSig =? 0 then Ok (info, false, vm)
  else
    let* hashType := get_at rawSig (len rawSig - 1) in
    let* signature := slice rawSig 0 (len rawSig - 1) in
    let* info :=
      if negb (si_parsed info) then
        let* _ := checkHashTypeEncoding vm hashType in
        let* _ := checkSignatureEncoding vm signature in
        let strict :=
          hasFlag vm ScriptVerifyStrictEncoding || hasFlag vm ScriptVerifyDERSignatures in
        Ok (mkSigInfo rawSig
              (if strict then ParseDERSignature signature else ParseSignature signature) true)
      else Ok info in
    match si_parsedSignature info with
    | None => Ok (info, false, vm)
    | Some parsedSig =>
        let* (valid, vm) := multisig_verify script signature pubKey hashType parsedSig vm in
        Ok (info, valid, vm)
    end.

(** [for numSignatures > 0]: the signatures and keys still to be tried; a
    signature stays until a key matches, and the loop gives up when there are
    fewer keys than signatures. *)
Fixpoint multisig_loop (script : list Z) (signatures : list parsedSigInfo)
    (pubKeys : list (list Z)) (vm : Engine) : outcome scriptErr (bool * Engine) :=
  match signatures with
  | [] => Ok (true, vm)
  | info :: signatures' =>
      if len pubKeys <? len signatures then Ok (false, vm)
      else
        match pubKeys with
        | [] => Panic
        | pubKey :: pubKeys' =>
            let* (info, valid, vm) := multisig_try script info pubKey vm in
            multisig_loop script (if valid then signatures' else info :: signatures') pubKeys' vm
        end
  end.

Definition opcodeCheckMultiSig : handler := fun _ _ vm =>
  if inTaproot vm then Err (scriptError ErrTapscriptCheckMultisig)
  else
    let* (numKeys, s) := PopInt (vm_dstack vm) in
    let numPubKeys := Int32 numKeys in
    if numPubKeys <? 0 then Err (scriptError ErrInvalidPubKeyCount)
    else if MaxPubKeysPerMultiSig <? numPubKeys then Err (scriptError ErrInvalidPubKeyCount)
    else
      let vm := set_numOps vm (vm_numOps vm + numPubKeys) in
      if MaxOpsPerScript <? vm_numOps vm then Err (scriptError ErrTooManyOperations)
      else
        let* (pubKeys, s) := pop_loop (Z.to_nat numPubKeys) s in
        let* (numSigs, s) := PopInt s in
        let numSignatures := Int32 numSigs in
        if numSignatures <? 0 then Err (scriptError ErrInvalidSignatureCount)
        else if numPubKeys <? numSignatures then Err (scriptError ErrInvalidSignatureCount)
        else
          let* (sigs, s) := pop_loop (Z.to_nat numSignatures) s in
          let* (dummy, s) := PopByteArray s in
          let vm := set_dstack vm s in
          if hasFlag vm ScriptStrictMultiSig && negb (len dummy =? 0)
          then Err (scriptError ErrSigNullDummy)
          else
            let* script := subScript vm in
            let script :=
              if negb (isWitnessVersionActive vm 0)
              then fold_left removeOpcodeByData sigs script else script in
            let* (success, vm) :=
              multisig_loop script (map (fun x => mkSigInfo x None false) sigs) pubKeys vm in
            if negb success && hasFlag vm ScriptVerifyNullFail &&
               existsb (fun x => 0 <? len x) sigs
            then Err (scriptError ErrNullFail)
            else Ok (pushBool vm success).

Definition opcodeCheckMultiSigVerify : handler := fun op data vm =>
  let* vm := opcodeCheckMultiSig op data vm in abstractVerify vm ErrCheckMultiSigVerify.

(** ** Dispatch *)

(** The handler column of [opcodeArray], but for the three ranges of pushes,
    small integers and undefined opcodes. *)
Definition opcodeTable : list (Z * handler) := [
  (OP_FALSE, opcodeFalse);
  (OP_1NEGATE, opcode1Negate);
  (OP_RESERVED, opcodeReserved);
  (OP_NOP, opcodeNop);
  (OP_VER, opcodeReserved);
  (OP_IF, opcodeIf);
  (OP_NOTIF, opcodeNotIf);
  (OP_VERIF, opcodeReserved);
  (OP_VERNOTIF, opcodeReserved);
  (OP_ELSE, opcodeElse);
  (OP_ENDIF, opcodeEndif);
  (OP_VERIFY, opcodeVerify);
  (OP_RETURN, opcodeReturn);
  (OP_CHECKLOCKTIMEVERIFY, opcodeCheckLockTimeVerify);
  (OP_CHECKSEQUENCEVERIFY, opcodeCheckSequenceVerify);
  (OP_TOALTSTACK, opcodeToAltStack);
  (OP_FROMALTSTACK, opcodeFromAltStack);
  (OP_2DROP, opcode2Drop);
  (OP_2DUP, opcode2Dup);
  (OP_3DUP, opcode3Dup);
  (OP_2OVER, opcode2Over);
  (OP_2ROT, opcode2Rot);
  (OP_2SWAP, opcode2Swap);
  (OP_IFDUP, opcodeIfDup);
  (OP_DEPTH, opcodeDepth);
  (OP_DROP, opcodeDrop);
  (OP_DUP, opcodeDup);
  (OP_NIP, opcodeNip);
  (OP_OVER, opcodeOver);
  (OP_PICK, opcodePick);
  (OP_ROLL, opcodeRoll);
  (OP_ROT, opcodeRot);
  (OP_SWAP, opcodeSwap);
  (OP_TUCK, opcodeTuck);
  (OP_CAT, opcodeDisabled);
  (OP_SUBSTR, opcodeDisabled);
  (OP_LEFT, opcodeDisabled);
  (OP_RIGHT, opcodeDisabled);
  (OP_SIZE, opcodeSize);
  (OP_INVERT, opcodeDisabled);
  (OP_AND, opcodeDisabled);
  (OP_OR, opcodeDisabled);
  (OP_XOR, opcodeDisabled);
  (OP_EQUAL, opcodeEqual);
  (OP_EQUALVERIFY, opcodeEqualVerify);
  (OP_RESERVED1, opcodeReserved);
  (OP_RESERVED2, opcodeReserved);
  (OP_1ADD, opcode1Add);
  (OP_1SUB, opcode1Sub);
  (OP_2MUL, opcodeDisabled);
  (OP_2DIV, opcodeDisabled);
  (OP_NEGATE, opcodeNegate);
  (OP_ABS, opcodeAbs);
  (OP_NOT, opcodeNot);
  (OP_0NOTEQUAL, opcode0NotEqual);
  (OP_ADD, opcodeAdd);
  (OP_SUB, opcodeSub);
  (OP_MUL, opcodeDisabled);
  (OP_DIV, opcodeDisabled);
  (OP_MOD, opcodeDisabled);
  (OP_LSHIFT, opcodeDisabled);
  (OP_RSHIFT, opcodeDisabled);
  (OP_BOOLAND, opcodeBoolAnd);
  (OP_BOOLOR, opcodeBoolOr);
  (OP_NUMEQUAL, opcodeNumEqual);
  (OP_NUMEQUALVERIFY, opcodeNumEqualVerify);
  (OP_NUMNOTEQUAL, opcodeNumNotEqual);
  (OP_LESSTHAN, opcodeLessThan);
  (OP_GREATERTHAN, opcodeGreaterThan);
  (OP_LESSTHANOREQUAL, opcodeLessThanOrEqual);
  (OP_GREATERTHANOREQUAL, opcodeGreaterThanOrEqual);
  (OP_MIN, opcodeMin);
  (OP_MAX, opcodeMax);
  (OP_WITHIN, opcodeWithin);
  (OP_RIPEMD160, opcodeRipemd160);
  (OP_SHA1, opcodeSha1);
  (OP_SHA256, opcodeSha256);
  (OP_HASH160, opcodeHash160);
  (OP_HASH256, opcodeHash256);
  (OP_CODESEPARATOR, opcodeCodeSeparator);
  (OP_CHECKSIG, opcodeCheckSig);
  (OP_CHECKSIGVERIFY, opcodeCheckSigVerify);
  (OP_CHECKMULTISIG, opcodeCheckMultiSig);
  (OP_CHECKMULTISIGVERIFY, opcodeCheckMultiSigVerify);
  (OP_CHECKSIGADD, opcodeCheckSigAdd);
  (OP_NOP1, opcodeNop);
  (OP_NOP4, opcodeNop);
  (OP_NOP5, opcodeNop);
  (OP_NOP6, opcodeNop);
  (OP_NOP7, opcodeNop);
  (OP_NOP8, opcodeNop);
  (OP_NOP9, opcodeNop);
  (OP_NOP10, opcodeNop)].

Definition opfunc (op : Z) : handler :=
  if (OP_DATA_1 <=? op) && (op <=? OP_PUSHDATA4) then opcodePushData
  else if (OP_1 <=? op) && (op <=? OP_16) then opcodeN
  else match find (fun e => fst e =? op) opcodeTable with
       | Some (_, h) => h
       | None => opcodeInvalid
       end.

Definition executeOpcode (op : Z) (data : list Z) (vm : Engine) : outcome scriptErr Engine :=
  if isOpcodeDisabled op then Err (scriptError ErrDisabledOpcode)
  else if isOpcodeAlwaysIllegal op then Err (scriptError ErrReservedOpcode)
  else
    let* vm :=
      if negb (inTaproot vm) && (OP_16 <? op) then
        let vm := set_numOps vm (vm_numOps vm + 1) in
        if MaxOpsPerScript <? vm_numOps vm then Err (scriptError ErrTooManyOperations) else Ok vm
      else if MaxScriptElementSize <? len data then Err (scriptError ErrElementTooBig)
      else Ok vm in
    if negb (isBranchExecuting vm) && negb (isOpcodeConditional op) then Ok vm
    else
      let* _ :=
        if verifyMinimalData (vm_dstack vm) && isBranchExecuting vm && (0 <=? op) && (op <=? OP_PUSHDATA4)
        then checkMinimalDataPush op data else Ok tt in
      opfunc op op data vm.

(** ** Witness programs *)

Definition payToPubKeyHashScript (pubKeyHash : list Z) : outcome scriptErr (list Z) :=
  let b := AddOp (AddOp (AddData (AddOp (AddOp NewScriptBuilder OP_DUP) OP_HASH160) pubKeyHash)
                    OP_EQUALVERIFY) OP_CHECKSIG in
  if sb_err b then Err otherError else Ok (sb_script b).

(** The next script, and the stack it runs on. *)
Definition runNext (vm : Engine) (script : list Z) (data : list (list Z)) : Engine :=
  SetStack (set_scripts vm (vm_scripts vm ++ [script])) data.

(** The second switch of [verifyWitnessProgram]. *)
Definition checkWitnessStack (vm : Engine) : outcome scriptErr Engine :=
  if isWitnessVersionActive vm TaprootWitnessVersion && (MaxStackSize <? Depth (vm_dstack vm))
  then Err (scriptError ErrStackOverflow)
  else if (isWitnessVersionActive vm TaprootWitnessVersion ||
           isWitnessVersionActive vm BaseSegwitWitnessVersion) &&
          existsb (fun x => MaxScriptElementSize <? len x) (GetStack vm)
  then Err (scriptError ErrElementTooBig)
  else Ok vm.

Definition verifyWitnessV0 (program : list Z) (witness : list (list Z)) (vm : Engine)
  : outcome scriptErr Engine :=
  if len program =? payToWitnessPubKeyHashDataSize then
    if negb (len witness =? 2) then Err (scriptError ErrWitnessProgramMismatch)
    else
      let* pkScript := payToPubKeyHashScript program in
      let* _ := checkScriptParses (e_version (vm_env vm)) pkScript in
      checkWitnessStack (runNext vm pkScript witness)
  else if len program =? payToWitnessScriptHashDataSize then
    if len witness =? 0 then Err (scriptError ErrWitnessProgramEmpty)
    else
      let* witnessScript := get_at witness (len witness - 1) in
      if MaxScriptSize <? len witnessScript then Err (scriptError ErrScriptTooBig)
      else if negb (bytes_eqb (sha256 witnessScript) program)
      then Err (scriptError ErrWitnessProgramMismatch)
      else
        let* _ := checkScriptParses (e_version (vm_env vm)) witnessScript in
        let* items := slice witness 0 (len witness - 1) in
        checkWitnessStack (runNext vm witnessScript items)
  else Err (scriptError ErrWitnessProgramWrongLength).

(** [vm.taprootCtx.mustSucceed = true] *)
Definition succeed (vm : Engine) (ctx : taprootExecutionCtx) : Engine :=
  set_taprootCtx vm (Some (mkTapCtx (tc_annex ctx) (tc_codeSepPos ctx) (tc_tapLeafHash ctx)
                             (tc_sigOpsBudget ctx) true)).

Definition verifyTapscript (program : list Z) (witness : list (list Z)) (ctx : taprootExecutionCtx)
    (vm : Engine) : outcome scriptErr Engine :=
  let* ctrlBlock := get_at witness (len witness - 1) in
  let* controlBlock := ParseControlBlock ctrlBlock in
  let* witnessScript := get_at witness (len witness - 2) in
  let* _ := VerifyTaprootLeafCommitment controlBlock program witnessScript in
  if ScriptHasOpSuccess witnessScript then
    if hasFlag vm ScriptVerifyDiscourageOpSuccess then Err (scriptError ErrDiscourageOpSuccess)
    else Ok (succeed vm ctx)
  else if negb (cb_LeafVersion controlBlock =? BaseLeafVersion) then
    if hasFlag vm ScriptVerifyDiscourageUpgradeableTaprootVersion
    then Err (scriptError ErrDiscourageUpgradeableTaprootVersion)
    else Ok (succeed vm ctx)
  else
    let* _ := checkScriptParses (e_version (vm_env vm)) witnessScript in
    let ctx := mkTapCtx (tc_annex ctx) (tc_codeSepPos ctx)
                 (leaf_TapHash (NewBaseTapLeaf witnessScript)) (tc_sigOpsBudget ctx)
                 (tc_mustSucceed ctx) in
    let* items := slice witness 0 (len witness - 2) in
    checkWitnessStack (runNext (set_taprootCtx vm (Some ctx)) witnessScript items).

Definition verifyTaproot (program : list Z) (witness : list (list Z)) (vm : Engine)
  : outcome scriptErr Engine :=
  if negb (hasFlag vm ScriptVerifyTaproot) then Ok vm
  else if len witness =? 0 then Err (scriptError ErrWitnessProgramEmpty)
  else
    let ctx := newTaprootExecutionCtx (i32 (witness_SerializeSize witness)) in
    let annexed := isAnnexedWitness witness in
    let ctx := mkTapCtx (if annexed then extractAnnex witness else tc_annex ctx)
                 (tc_codeSepPos ctx) (tc_tapLeafHash ctx) (tc_sigOpsBudget ctx)
                 (tc_mustSucceed ctx) in
    let* witness := if annexed then slice witness 0 (len witness - 1) else Ok witness in
    let vm := set_taprootCtx vm (Some ctx) in
    if len witness =? 1 then
      let* rawSig := get_at witness 0 in
      let* vm := VerifyTaprootKeySpend program rawSig vm in
      Ok (succeed vm ctx)
    else verifyTapscript program witness ctx vm.

Definition verifyWitnessProgram (witness : list (list Z)) (vm : Engine) : outcome scriptErr Engine :=
  match vm_witnessProgram vm with
  | Some program =>
      if vm_witnessVersion vm =? BaseSegwitWitnessVersion then verifyWitnessV0 program witness vm
      else if (vm_witnessVersion vm =? TaprootWitnessVersion) &&
              (len program =? payToTaprootDataSize) && negb (e_bip16 (vm_env vm))
      then verifyTaproot program witness vm
      else if hasFlag vm ScriptVerifyDiscourageUpgradeableWitnessProgram
      then Err (scriptError ErrDiscourageUpgradableWitnessProgram)
      else checkWitnessStack (set_witnessProgram vm None)
  | None =>
      if hasFlag vm ScriptVerifyDiscourageUpgradeableWitnessProgram
      then Err (scriptError ErrDiscourageUpgradableWitnessProgram)
      else checkWitnessStack (set_witnessProgram vm None)
  end.

(** ** Steps *)

Definition checkValidPC (vm : Engine) : outcome scriptErr unit :=
  if len (vm_scripts vm) <=? vm_scriptIdx vm then Err (scriptError ErrInvalidProgramCounter)
  else Ok tt.

(** [CheckErrorCondition] pops the result. *)
Definition CheckErrorCondition (finalScript : bool) (vm : Engine) : outcome scriptErr Engine :=
  if match vm_taprootCtx vm with Some ctx => tc_mustSucceed ctx | None => false end then Ok vm
  else if vm_scriptIdx vm <? len (vm_scripts vm) then Err (scriptError ErrScriptUnfinished)
  else if finalScript && isWitnessVersionActive vm BaseSegwitWitnessVersion &&
          negb (Depth (vm_dstack vm) =? 1)
  then Err (scriptError ErrEvalFalse)
  else
    let cleanStackActive := hasFlag vm ScriptVerifyCleanStack || inTaproot vm in
    if finalScript && cleanStackActive && negb (Depth (vm_dstack vm) =? 1)
    then Err (scriptError ErrCleanStack)
    else if Depth (vm_dstack vm) <? 1 then Err (scriptError ErrEmptyStack)
    else
      let* (v, s) := PopBool (vm_dstack vm) in
      if negb v then Err (scriptError ErrEvalFalse) else Ok (set_dstack vm s).

(** [vm.scriptIdx++] *)
Definition nextScript (vm : Engine) : Engine := set_scriptIdx vm (vm_scriptIdx vm + 1).

(** The switch of [Step] at the end of a script. *)
Definition finishScript (vm : Engine) : outcome scriptErr Engine :=
  let bip16 := e_bip16 (vm_env vm) in
  if (vm_scriptIdx vm =? 0) && bip16 then
    let vm := nextScript vm in
    Ok (set_savedFirstStack vm (GetStack vm))
  else if (vm_scriptIdx vm =? 1) && bip16 then
    let* vm := CheckErrorCondition false (nextScript vm) in
    let saved := vm_savedFirstStack vm in
    let* script := get_at saved (len saved - 1) in
    let* _ := checkScriptParses (e_version (vm_env vm)) script in
    let vm := set_scripts vm (vm_scripts vm ++ [script]) in
    let* rest := slice saved 0 (len saved - 1) in
    Ok (SetStack vm rest)
  else if ((vm_scriptIdx vm =? 1) && isSome (vm_witnessProgram vm)) ||
          ((vm_scriptIdx vm =? 2) && isSome (vm_witnessProgram vm) && bip16) then
    let vm := nextScript vm in
    let* ti := get_at (tx_TxIn (e_tx (vm_env vm))) (e_txIdx (vm_env vm)) in
    verifyWitnessProgram (wit_items (ti_Witness ti)) vm
  else Ok (nextScript vm).

(** [Step]: whether execution is done, and the engine. *)
Definition Step (vm : Engine) : outcome scriptErr (bool * Engine) :=
  let* _ := checkValidPC vm in
  let '(more, t) := Next (vm_tokenizer vm) in
  let vm := set_tokenizer vm t in
  if negb more then
    match tk_err t with
    | Some c => Err (scriptError c)
    | None => Err (scriptError ErrInvalidProgramCounter)
    end
  else
    let* vm := executeOpcode (tk_op t) (tk_data t) vm in
    if MaxStackSize <? i32 (Depth (vm_dstack vm) + Depth (vm_astack vm))
    then Err (scriptError ErrStackOverflow)
    else
      let vm := set_opcodeIdx vm (vm_opcodeIdx vm + 1) in
      if Done (vm_tokenizer vm) then
        if negb (len (vm_condStack vm) =? 0) then Err (scriptError ErrUnbalancedConditional)
        else
          let vm := set_astack vm (match DropN (vm_astack vm) (Depth (vm_astack vm)) with
                                   | Ok s => s | _ => vm_astack vm end) in
          let vm := set_opcodeIdx (set_numOps vm 0) 0 in
          let* vm := finishScript vm in
          let vm :=
            if (vm_scriptIdx vm <? len (vm_scripts vm)) &&
               (len (nth (Z.to_nat (vm_scriptIdx vm)) (vm_scripts vm) []) =? 0)
            then nextScript vm else vm in
          let vm := set_lastCodeSep vm 0 in
          if len (vm_scripts vm) <=? vm_scriptIdx vm then Ok (true, vm)
          else
            let* script := get_at (vm_scripts vm) (vm_scriptIdx vm) in
            Ok (false, set_tokenizer vm (MakeScriptTokenizer (e_version (vm_env vm)) script))
      else Ok (false, vm).

(** [Execute]: steps until done.  [None] is a loop that is still running when
    the fuel is used up. *)
Fixpoint run (fuel : nat) (vm : Engine) : option (outcome scriptErr Engine) :=
  match fuel with
  | O => None
  | S fuel =>
      match Step vm with
      | Ok (false, vm) => run fuel vm
      | Ok (true, vm) => Some (CheckErrorCondition true vm)
      | Err e => Some (Err e)
      | Panic => Some Panic
      end
  end.

(** Enough fuel: a step per byte of the scripts the engine starts with, of a
    redeem script, of the witness, and of the script of a key hash program. *)
Definition executeFuel (vm : Engine) : nat :=
  Z.to_nat (fold_right (fun s n => len s + n) 0 (vm_scripts vm) + MaxScriptElementSize +
            match get_at (E := scriptErr) (tx_TxIn (e_tx (vm_env vm))) (e_txIdx (vm_env vm)) with
            | Ok ti => fold_right (fun w n => len w + n) 0 (wit_items (ti_Witness ti))
            | _ => 0
            end + 26).

Definition Execute (vm : Engine) : option (outcome scriptErr Engine) :=
  if negb (e_version (vm_env vm) =? 0) then Some (Ok vm)
  else run (executeFuel vm) vm.

(** ** NewEngine *)

Definition IsWitnessProgram (script : list Z) : bool := isWitnessProgramScript script.

(** The witness program of an input, if it has one. *)
Definition inputProgram (scriptSig scriptPubKey : list Z) (witness : list (list Z)) (bip16 : bool)
  : outcome scriptErr (option (list Z)) :=
  if IsWitnessProgram scriptPubKey then
    if negb (len scriptSig =? 0) then Err (scriptError ErrWitnessMalleated)
    else Ok (Some scriptPubKey)
  else if negb (len witness =? 0) && bip16 then
    if (2 <? len scriptSig) && isCanonicalPush (at_ scriptSig 0) (skipn 1 scriptSig) &&
       IsWitnessProgram (skipn 1 scriptSig)
    then Ok (Some (skipn 1 scriptSig))
    else Err (scriptError ErrWitnessMalleatedP2SH)
  else Ok None.

Definition setupWitness (flags : Z) (scriptSig scriptPubKey : list Z) (witness : list (list Z))
    (bip16 : bool) : outcome scriptErr (Z * option (list Z)) :=
  let has f := Z.land flags f =? f in
  if has ScriptVerifyWitness then
    if negb (has ScriptBip16) then Err (scriptError ErrInvalidFlags)
    else
      let* witProgram := inputProgram scriptSig scriptPubKey witness bip16 in
      match witProgram with
      | Some p => let* (version, program) := ExtractWitnessProgramInfo p in Ok (version, Some program)
      | None =>
          if negb (len witness =? 0) then Err (scriptError ErrWitnessUnexpected) else Ok (0, None)
      end
  else Ok (0, None).

Definition checkScript (script : list Z) : outcome scriptErr unit :=
  if MaxScriptSize <? len script then Err (scriptError ErrScriptTooBig)
  else checkScriptParses 0 script.

Definition NewEngine (scriptPubKey : list Z) (tx : MsgTx) (txIdx flags : Z)
    (sigCache : option SharedCache) (hashCache : option TxSigHashes) (inputAmount : Z)
    (prevOutFetcher : PrevOutputFetcher) : outcome scriptErr Engine :=
  let has f := Z.land flags f =? f in
  if (txIdx <? 0) || (len (tx_TxIn tx) <=? txIdx) then Err (scriptError ErrInvalidIndex)
  else
    let* ti := get_at (tx_TxIn tx) txIdx in
    let scriptSig := ti_SignatureScript ti in
    if (len scriptSig =? 0) && (len scriptPubKey =? 0) then Err (scriptError ErrEvalFalse)
    else if has ScriptVerifyCleanStack && (negb (has ScriptBip16) && negb (has ScriptVerifyWitness))
    then Err (scriptError ErrInvalidFlags)
    else if has ScriptVerifySigPushOnly && negb (IsPushOnlyScript scriptSig)
    then Err (scriptError ErrNotPushOnly)
    else
      let bip16 := has ScriptBip16 && isScriptHashScript scriptPubKey in
      if bip16 && negb (has ScriptVerifySigPushOnly) && negb (IsPushOnlyScript scriptSig)
      then Err (scriptError ErrNotPushOnly)
      else
        let* _ := checkScript scriptSig in
        let* _ := checkScript scriptPubKey in
        let scripts := [scriptSig; scriptPubKey] in
        let scriptIdx := if len scriptSig =? 0 then 1 else 0 in
        let minimal := has ScriptVerifyMinimalData in
        let* (witnessVersion, witnessProgram) :=
          setupWitness flags scriptSig scriptPubKey (wit_items (ti_Witness ti)) bip16 in
        let* script := get_at scripts scriptIdx in
        Ok (mkEngine (mkEnv flags tx txIdx 0 bip16 hashCache prevOutFetcher inputAmount)
              sigCache scripts scriptIdx 0 0 (MakeScriptTokenizer 0 script) []
              (mkStack [] minimal) (mkStack [] minimal) [] 0 witnessVersion witnessProgram None).
End Machine.
