(* ===== verification/EngineSafe.v ===== *)
(** * The script engine: limits, safety and termination

    One invariant is kept by every opcode handler and every step: the elements
    of the stacks are byte strings of at most 520 bytes, the operation counter
    is at most 201, and the program counter and the last code separator are in
    range.  It is proved with a weakest precondition over outcomes that takes
    what to require of a panic as an argument: nothing for the limits and
    termination, falsity for safety. *)

From Stdlib Require Import ZArith List Lia Bool.
From S2P Require Import Prelude Opcodes GoSlice GoIO WireCommon WireTx Script ScriptNum ScriptStack SigHash Taproot Engine.
Import ListNotations.
Local Open Scope Z_scope.
Local Open Scope go_scope.

(** ** Weakest preconditions *)

Create HintDb wp.

Section Wp.
(** What a panic has to satisfy. *)
Context (crash : Prop).

Definition wp {E A} (m : outcome E A) (Q : A -> Prop) : Prop :=
  match m with Ok a => Q a | Err _ => True | Panic => crash end.

Lemma wp_bind {E A B} (m : outcome E A) (k : A -> outcome E B) Q R :
  wp m R -> (forall a, R a -> wp (k a) Q) -> wp (obind m k) Q.
Proof. destruct m; cbn; auto. Qed.

Lemma wp_weaken {E A} (m : outcome E A) (Q R : A -> Prop) :
  wp m R -> (forall a, R a -> Q a) -> wp m Q.
Proof. destruct m; cbn; auto. Qed.

Lemma wp_and {E A} (m : outcome E A) (Q R : A -> Prop) :
  wp m Q -> wp m R -> wp m (fun a => Q a /\ R a).
Proof. destruct m; cbn; auto. Qed.

Lemma wp_ok {E A} (a : A) (Q : A -> Prop) : Q a -> wp (@Ok E A a) Q.
Proof. auto. Qed.

Lemma wp_if {E A} (b : bool) (m1 m2 : outcome E A) Q :
  (b = true -> wp m1 Q) -> (b = false -> wp m2 Q) -> wp (if b then m1 else m2) Q.
Proof. destruct b; auto. Qed.

Lemma wp_get {E A} (l : list A) i : 0 <= i < len l -> wp (@get_at E A l i) (fun x => In x l).
Proof.
  intros Hi. destruct (nth_error_in_range l i Hi) as (x & E0).
  rewrite (get_at_nth l i x (proj1 Hi) E0). apply nth_error_In in E0. exact E0.
Qed.

Lemma wp_slice {E A} (l : list A) a b : 0 <= a <= b -> b <= len l ->
  wp (@slice E A l a b) (fun s => len s = b - a /\ incl s l).
Proof.
  intros Ha Hb. unfold slice. decide_cmp. cbn [andb]. split.
  - rewrite len_firstn; [reflexivity|]. unfold len in *. rewrite length_skipn. lia.
  - intros x Hx. rewrite <- (firstn_skipn (Z.to_nat a) l). apply in_or_app. right.
    rewrite <- (firstn_skipn (Z.to_nat (b - a)) (skipn _ _)). apply in_or_app. now left.
Qed.
End Wp.

Lemma incl_Forall {A} (P : A -> Prop) s l : incl s l -> Forall P l -> Forall P s.
Proof. intros Hi Hl. rewrite Forall_forall in *. auto. Qed.

(** ** Stacks of limited elements *)

Definition elem_ok (x : list Z) : Prop := bytes_ok x /\ len x <= MaxScriptElementSize.

(** At most [n] elements, all of them in the limits. *)
Definition limited (n : Z) (s : stack) : Prop := Forall elem_ok (stk s) /\ len (stk s) <= n.

Lemma limited_weaken n n' s : limited n s -> n <= n' -> limited n' s.
Proof. intros [H L] Hn. split; [exact H | lia]. Qed.

Lemma elem_nil : elem_ok [].
Proof. split; [constructor | vm_compute; discriminate]. Qed.

Lemma elem_fromBool b : elem_ok (fromBool b).
Proof. destruct b; [split; [bytes_lit | vm_compute; discriminate] | apply elem_nil]. Qed.

Lemma limited_push n s x : limited n s -> elem_ok x -> limited (n + 1) (PushByteArray s x).
Proof.
  intros [H L] Hx. split; cbn [PushByteArray with_stk stk].
  - apply Forall_app; auto.
  - rewrite len_snoc. lia.
Qed.

Section StackRules.
Context (crash : Prop).

Lemma items_limited n s : limited n s -> Forall elem_ok (items s) /\ len (items s) <= n.
Proof. intros [H L]. unfold items. rewrite len_rev. split; [now apply Forall_rev | exact L]. Qed.

Lemma restack_limited n s l : Forall elem_ok l -> len l <= n -> limited n (restack s l).
Proof.
  intros H L. split; cbn [restack with_stk stk]; [now apply Forall_rev | now rewrite len_rev].
Qed.

Lemma nipN_wp n s i : limited n s -> n < 2 ^ 31 ->
  wp crash (nipN s i) (fun p => elem_ok (fst p) /\ limited (n - 1) (snd p)).
Proof.
  intros Hs Hn. apply items_limited in Hs. destruct Hs as [Hf Hl].
  rewrite <- (restack_items s). set (l := items s) in *.
  destruct (Z.lt_ge_cases i 0) as [Hi|Hi]; [rewrite nipN_restack_none by lia; exact I|].
  destruct (Z.lt_ge_cases i (len l)) as [Hi2|Hi2]; [|rewrite nipN_restack_none by lia; exact I].
  destruct (nth_error_in_range l i (conj Hi Hi2)) as (x & E).
  apply nth_error_split in E. destruct E as (a & b & E & Ha).
  replace i with (len a) by (unfold len; lia).
  rewrite (nipN_restack s l ltac:(lia) a x b E). cbn [wp fst snd].
  rewrite E in Hf, Hl. rewrite Forall_app, Forall_cons_iff in Hf. rewrite len_app, len_cons in Hl.
  destruct Hf as (Hfa & Hx & Hfb). split; [exact Hx|].
  apply restack_limited; [apply Forall_app; auto | rewrite len_app; lia].
Qed.

Lemma Pop_wp n s : limited n s -> n < 2 ^ 31 ->
  wp crash (PopByteArray s) (fun p => elem_ok (fst p) /\ limited (n - 1) (snd p)).
Proof. apply nipN_wp. Qed.

Lemma Peek_wp n s i : limited n s -> n < 2 ^ 31 -> wp crash (PeekByteArray s i) elem_ok.
Proof.
  intros [Hf Hl] Hn. unfold PeekByteArray. pose proof (len_nonneg (stk s)).
  rewrite i32_id by (unfold is_i32; lia).
  destruct (Z.ltb_spec i 0); [exact I|]. destruct (Z.leb_spec (len (stk s)) i); [exact I|]. cbn [orb].
  eapply wp_weaken; [apply wp_get; lia|]. intros x Hx. rewrite Forall_forall in Hf. auto.
Qed.

(** A number read from the stack fits in 32 bits. *)
Lemma makeScriptNum_wp v req k : bytes_ok v -> k <= 7 ->
  wp crash (makeScriptNum v req k) (fun n => Z.abs n < 2 ^ (8 * k - 1) \/ n = 0).
Proof.
  intros Hb Hk. destruct (makeScriptNum_safe v req k Hb Hk) as [(n & E & H0 & Hn & Hl)|[-> | ->]];
    [|exact I | exact I].
  rewrite E. cbn [wp]. destruct v as [|x v]; [right; now apply H0|]. left.
  specialize (Hn ltac:(discriminate)). rewrite len_cons in *. pose proof (len_nonneg v).
  assert (128 * 256 ^ (1 + len v - 1) <= 2 ^ (8 * k - 1)); [|lia].
  rewrite pow_256 by lia. change 128 with (2 ^ 7). rewrite <- Z.pow_add_r by lia.
  apply Z.pow_le_mono_r; lia.
Qed.

Lemma PopInt_wp n s : limited n s -> n < 2 ^ 31 ->
  wp crash (PopInt s) (fun p => Z.abs (fst p) < 2 ^ 31 /\ limited (n - 1) (snd p)).
Proof.
  intros Hs Hn. eapply wp_bind; [apply Pop_wp; eassumption|]. intros [x s'] [[Hb Hl] Hs']. cbn [fst snd] in *.
  eapply wp_bind; [apply makeScriptNum_wp with (k := maxScriptNumLen); [exact Hb | vm_compute; discriminate]|].
  intros m Hm. cbv beta in Hm. cbn [wp fst snd]. split; [|exact Hs']. change (8 * maxScriptNumLen - 1) with 31 in Hm. lia.
Qed.

Lemma PopBool_wp n s : limited n s -> n < 2 ^ 31 ->
  wp crash (PopBool s) (fun p => limited (n - 1) (snd p)).
Proof.
  intros Hs Hn. eapply wp_bind; [apply Pop_wp; eassumption|]. intros [x s'] [_ Hs']. exact Hs'.
Qed.

Lemma PushInt_wp n s v : limited n s -> Z.abs v < 2 ^ 63 -> wp crash (PushInt s v) (limited (n + 1)).
Proof.
  intros Hs Hv. unfold PushInt. destruct (Bytes_total v) as (b & E & Hb & _ & _ & Hl & _); [lia|].
  rewrite E. cbn [wp obind]. apply limited_push; [exact Hs|]. split; [exact Hb|]. unfold MaxScriptElementSize. lia.
Qed.

Lemma drop_loop_wp k : forall n s, limited n s -> n < 2 ^ 31 -> wp crash (drop_loop k s) (limited n).
Proof.
  induction k as [|k IH]; intros n s Hs Hn; [exact Hs|]. cbn [drop_loop].
  eapply wp_bind; [apply Pop_wp; eassumption|]. intros [x s'] [_ Hs'].
  apply IH; [eapply limited_weaken; [exact Hs' | lia] | exact Hn].
Qed.

Lemma peek_loop_wp k e : forall n s, limited n s -> n + Z.of_nat k < 2 ^ 31 ->
  wp crash (peek_loop k e s) (limited (n + Z.of_nat k)).
Proof.
  induction k as [|k IH]; intros n s Hs Hn; [eapply limited_weaken; [exact Hs | lia]|]. cbn [peek_loop].
  eapply wp_bind; [apply (Peek_wp n); [exact Hs | lia]|]. intros x Hx.
  replace (n + Z.of_nat (S k)) with (n + 1 + Z.of_nat k) by lia.
  apply IH; [now apply limited_push | lia].
Qed.

Lemma nip_loop_wp k e : forall n s, limited n s -> n < 2 ^ 31 -> wp crash (nip_loop k e s) (limited n).
Proof.
  induction k as [|k IH]; intros n s Hs Hn; [exact Hs|]. cbn [nip_loop].
  eapply wp_bind; [apply nipN_wp; eassumption|]. intros [x s'] [Hx Hs']. cbn [fst snd] in *.
  apply IH; [|exact Hn]. replace n with (n - 1 + 1) by lia. now apply limited_push.
Qed.
End StackRules.

(** ** The invariant *)

Section Machine.
Context `{C : Crypto} {L : CryptoLaws C}.
Context (evict : list (list Z * sigCacheEntry) -> nat).
Context (crash : Prop).

Definition item_ok (x : list Z) : Prop := bytes_ok x /\ len x < 2 ^ 31.

(** What never changes: the input exists, its witness is of a size that fits in
    memory, and, for safety, the spent outputs are known and taproot has its
    midstates. *)
Record env_ok (e : EngineEnv) : Prop := {
  eo_version : e_version e = 0;
  eo_input : 0 <= e_txIdx e < len (tx_TxIn (e_tx e));
  eo_witness : forall ti, In ti (tx_TxIn (e_tx e)) ->
    Forall item_ok (wit_items (ti_Witness ti)) /\ len (wit_items (ti_Witness ti)) < 2 ^ 31 - 16;
  eo_fetch : crash \/
    forall ti, In ti (tx_TxIn (e_tx e)) -> e_prevOutFetcher e (ti_PreviousOutPoint ti) <> None;
  eo_midstates : crash \/ Z.land (e_flags e) ScriptVerifyTaproot <> ScriptVerifyTaproot \/
    e_hashCache e <> None
}.

(** The engine between two opcodes, with at most [n] elements on its stacks. *)
Record vm_safe (n : Z) (vm : Engine) : Prop := {
  vs_env : env_ok (vm_env vm);
  vs_dstack : Forall elem_ok (stk (vm_dstack vm));
  vs_astack : Forall elem_ok (stk (vm_astack vm));
  vs_depth : len (stk (vm_dstack vm)) + len (stk (vm_astack vm)) <= n;
  vs_numOps : 0 <= vm_numOps vm <= MaxOpsPerScript;
  vs_script : exists script,
    0 <= vm_scriptIdx vm /\ nth_error (vm_scripts vm) (Z.to_nat (vm_scriptIdx vm)) = Some script /\
    bytes_ok script /\ 0 <= vm_lastCodeSep vm <= len script /\
    0 <= tk_offset (vm_tokenizer vm) <= len script;
  vs_tap : crash \/ inTaproot vm = false \/ e_hashCache (vm_env vm) <> None;
  vs_mode : inTaproot vm = true -> isWitnessVersionActive vm TaprootWitnessVersion = true
}.

(** What a handler leaves alone. *)
Record same_frame (vm vm' : Engine) : Prop := {
  sf_env : vm_env vm' = vm_env vm;
  sf_scripts : vm_scripts vm' = vm_scripts vm;
  sf_scriptIdx : vm_scriptIdx vm' = vm_scriptIdx vm;
  sf_tokenizer : vm_tokenizer vm' = vm_tokenizer vm;
  sf_saved : vm_savedFirstStack vm' = vm_savedFirstStack vm;
  sf_version : vm_witnessVersion vm' = vm_witnessVersion vm;
  sf_program : vm_witnessProgram vm' = vm_witnessProgram vm;
  sf_tap : inTaproot vm' = inTaproot vm
}.

Lemma same_frame_refl vm : same_frame vm vm.
Proof. split; reflexivity. Qed.

Lemma same_frame_trans a b c : same_frame a b -> same_frame b c -> same_frame a c.
Proof. intros [] []. split; congruence. Qed.

(** A signature opcode has a verifier to use. *)
Definition sig_ok (vm : Engine) : Prop :=
  crash \/ vm_witnessProgram vm = None \/ vm_witnessVersion vm = BaseSegwitWitnessVersion \/
  inTaproot vm = true.

Definition stepped (n : Z) (vm vm' : Engine) : Prop := vm_safe n vm' /\ same_frame vm vm'.

(** A handler under its opcode keeps the invariant and does not panic. *)
Definition handler_ok (o : Z) (h : handler) : Prop := forall data vm n,
  vm_safe n vm -> n + 3 < 2 ^ 31 -> elem_ok data -> sig_ok vm \/ o <= OP_16 ->
  wp crash (h o data vm) (stepped (n + 3) vm).

(** ** One assignment at a time *)

Lemma vm_safe_weaken n n' vm : vm_safe n vm -> n <= n' -> vm_safe n' vm.
Proof. intros [] Hn. split; auto; lia. Qed.

Lemma stepped_refl n n' vm : vm_safe n vm -> n <= n' -> stepped n' vm vm.
Proof. intros H Hn. split; [eapply vm_safe_weaken; eassumption | apply same_frame_refl]. Qed.

Lemma stepped_trans n a b c : same_frame a b -> stepped n b c -> stepped n a c.
Proof. intros Hf [Hs Hf']. split; [exact Hs | eapply same_frame_trans; eassumption]. Qed.

Lemma limited_dstack n vm : vm_safe n vm -> limited (n - len (stk (vm_astack vm))) (vm_dstack vm).
Proof. intros []. split; [assumption | lia]. Qed.

Lemma limited_astack n vm : vm_safe n vm -> limited (n - len (stk (vm_dstack vm))) (vm_astack vm).
Proof. intros []. split; [assumption | lia]. Qed.

Lemma set_dstack_ok n n' vm s k : vm_safe n vm -> limited k s -> k + len (stk (vm_astack vm)) <= n' ->
  stepped n' vm (set_dstack vm s).
Proof. intros [] [Hf Hl] Hk. split; [split; auto; cbn; lia | split; reflexivity]. Qed.

Lemma set_astack_ok n n' vm s k : vm_safe n vm -> limited k s -> k + len (stk (vm_dstack vm)) <= n' ->
  stepped n' vm (set_astack vm s).
Proof. intros [] [Hf Hl] Hk. split; [split; auto; cbn; lia | split; reflexivity]. Qed.

Lemma set_condStack_ok n vm c : vm_safe n vm -> stepped n vm (set_condStack vm c).
Proof. intros []. split; [split; auto | split; reflexivity]. Qed.

Lemma set_sigCache_ok n vm c : vm_safe n vm -> stepped n vm (set_sigCache vm c).
Proof. intros []. split; [split; auto | split; reflexivity]. Qed.

Lemma set_numOps_ok n vm k : vm_safe n vm -> 0 <= k <= MaxOpsPerScript -> stepped n vm (set_numOps vm k).
Proof. intros [] Hk. split; [split; auto | split; reflexivity]. Qed.

Lemma set_taprootCtx_ok n vm c : vm_safe n vm -> inTaproot vm = true ->
  stepped n vm (set_taprootCtx vm (Some c)).
Proof.
  intros [] Ht. split; [split; auto | split; auto].
  cbn. destruct vs_tap0 as [H|[H|H]]; auto. congruence.
Qed.

(** ** Handlers of the data stack *)

Definition grows (f : stack -> outcome scriptErr stack) : Prop := forall n s,
  limited n s -> n + 3 < 2 ^ 31 -> wp crash (f s) (limited (n + 3)).

Lemma dstackOp_wp f vm n : grows f -> vm_safe n vm -> n + 3 < 2 ^ 31 ->
  wp crash (dstackOp f vm) (stepped (n + 3) vm).
Proof.
  intros Hf Hs Hn. pose proof (len_nonneg (stk (vm_astack vm))). eapply wp_bind.
  - apply Hf with (n := n - len (stk (vm_astack vm))); [now apply limited_dstack | lia].
  - intros s Hl. apply wp_ok. eapply set_dstack_ok; [eassumption | exact Hl | lia].
Qed.

(** [pops] takes an operation of the stack off the front of a chain. *)
Ltac pops :=
  lazymatch goal with
  | |- wp _ (obind (PopInt _) _) _ =>
      eapply wp_bind; [eapply PopInt_wp; [eassumption | lia]|];
      intros [? ?] [? ?]; cbn [fst snd] in *
  | |- wp _ (obind (PopByteArray _) _) _ =>
      eapply wp_bind; [eapply Pop_wp; [eassumption | lia]|];
      intros [? ?] [? ?]; cbn [fst snd] in *
  | |- wp _ (obind (nipN _ _) _) _ =>
      eapply wp_bind; [eapply nipN_wp; [eassumption | lia]|];
      intros [? ?] [? ?]; cbn [fst snd] in *
  | |- wp _ (obind (PeekByteArray _ _) _) _ =>
      eapply wp_bind; [eapply Peek_wp; [eassumption | lia]|]; intros ? ?
  | |- wp _ (PushInt _ _) _ =>
      eapply wp_weaken; [eapply PushInt_wp; [eassumption|] |
        intros ? ?; eapply limited_weaken; [eassumption | lia]]
  | |- wp _ (Ok (PushByteArray _ _)) _ =>
      apply wp_ok; eapply limited_weaken; [eapply limited_push; [eassumption | try assumption] | lia]
  end.

Lemma grows_PushInt v : Z.abs v < 2 ^ 63 -> grows (fun s => PushInt s v).
Proof. intros Hv n s Hs Hn. pops. exact Hv. Qed.

Lemma grows_Depth : grows (fun s => PushInt s (Depth s)).
Proof.
  intros n s Hs Hn. pops. unfold Depth. pose proof (i32_range (len (stk s))) as H.
  unfold is_i32 in H. lia.
Qed.

Lemma grows_Size : grows (fun s => let* so := PeekByteArray s 0 in PushInt s (len so)).
Proof.
  intros n s Hs Hn. pops. pops. destruct H as [_ H]. pose proof (len_nonneg a).
  unfold MaxScriptElementSize in H. lia.
Qed.

Lemma grows_unary f : (forall m, Z.abs m < 2 ^ 31 -> Z.abs (f m) < 2 ^ 63) ->
  grows (fun s => let* (m, s) := PopInt s in PushInt s (f m)).
Proof. intros Hf n s Hs Hn. pops. pops. auto. Qed.

Lemma grows_binary f :
  (forall a b, Z.abs a < 2 ^ 31 -> Z.abs b < 2 ^ 31 -> Z.abs (f a b) < 2 ^ 63) ->
  grows (fun s => let* (v0, s) := PopInt s in let* (v1, s) := PopInt s in PushInt s (f v0 v1)).
Proof. intros Hf n s Hs Hn. pops. pops. pops. auto. Qed.

Lemma grows_DropN k : grows (fun s => DropN s k).
Proof.
  intros n s Hs Hn. unfold DropN. destruct (_ <? _); [exact I|].
  eapply wp_weaken; [apply (drop_loop_wp _ _ n); [exact Hs | lia]|].
  intros ? ?; eapply limited_weaken; [eassumption | lia].
Qed.

Lemma grows_peek_loop k e : (k <= 3)%nat -> grows (peek_loop k e).
Proof.
  intros Hk n s Hs Hn. eapply wp_weaken; [apply (peek_loop_wp _ _ _ n); [exact Hs | lia]|].
  intros ? ?; eapply limited_weaken; [eassumption | lia].
Qed.

Lemma grows_nip_loop k e : grows (nip_loop k e).
Proof.
  intros n s Hs Hn. eapply wp_weaken; [apply (nip_loop_wp _ _ _ n); [exact Hs | lia]|].
  intros ? ?; eapply limited_weaken; [eassumption | lia].
Qed.

Lemma grows_Tuck : grows Tuck.
Proof.
  intros n s Hs Hn. unfold Tuck. pops. pops. apply wp_ok.
  eapply limited_weaken; [repeat eapply limited_push; eassumption | lia].
Qed.

Lemma grows_NipN k : grows (fun s => NipN s k).
Proof.
  intros n s Hs Hn. unfold NipN. pops. apply wp_ok. eapply limited_weaken; [eassumption | lia].
Qed.

Lemma grows_pick_roll :
  grows (fun s => let* (val, s) := PopInt s in PickN s (Int32 val)) /\
  grows (fun s => let* (val, s) := PopInt s in RollN s (Int32 val)).
Proof.
  split; intros n s Hs Hn; unfold PickN, RollN; pops; pops; pops; assumption.
Qed.

Lemma grows_Equal : grows (fun s => let* (a, s) := PopByteArray s in
  let* (b, s) := PopByteArray s in Ok (PushBool s (bytes_eqb a b))).
Proof. intros n s Hs Hn. pops. pops. unfold PushBool. pops. apply elem_fromBool. Qed.

Lemma grows_hash f : (forall x, elem_ok (f x)) ->
  grows (fun s => let* (buf, s) := PopByteArray s in Ok (PushByteArray s (f buf))).
Proof. intros Hf n s Hs Hn. pops. pops. apply Hf. Qed.

Lemma grows_Within : grows (fun s =>
  let* (maxVal, s) := PopInt s in
  let* (minVal, s) := PopInt s in
  let* (x, s) := PopInt s in
  PushInt s (if (minVal <=? x) && (x <? maxVal) then 1 else 0)).
Proof. intros n s Hs Hn. pops. pops. pops. pops. destruct (_ && _); reflexivity. Qed.

(** [small] bounds the result of an arithmetic opcode. *)
Ltac small :=
  intros; rewrite ?i64_id by (unfold is_i64; lia);
  repeat match goal with |- context [if ?b then _ else _] => destruct b end; lia.

Ltac by_grows lem :=
  intros data vm n Hs Hn Hd Hsig; refine (dstackOp_wp _ vm n _ Hs Hn); apply lem; try small.

Lemma push_handlers_ok o : 
  handler_ok o opcode1Negate /\ handler_ok o opcodeN /\ handler_ok o opcodeDepth /\ handler_ok o opcodeSize.
Proof.
  split; [by_grows grows_PushInt|]. split; [|split; [by_grows grows_Depth | by_grows grows_Size]].
  by_grows grows_PushInt. pose proof (u8_range (o - (OP_1 - 1))) as H. unfold is_byte in H. lia.
Qed.

Lemma move_handlers_ok o :
  handler_ok o opcode2Drop /\ handler_ok o opcode2Dup /\ handler_ok o opcode3Dup /\
  handler_ok o opcode2Over /\ handler_ok o opcode2Rot /\ handler_ok o opcode2Swap /\
  handler_ok o opcodeDrop /\ handler_ok o opcodeDup /\ handler_ok o opcodeNip /\
  handler_ok o opcodeOver /\ handler_ok o opcodeRot /\ handler_ok o opcodeSwap /\
  handler_ok o opcodeTuck.
Proof.
  split; [by_grows grows_DropN|]. split; [by_grows grows_peek_loop|].
  split; [by_grows grows_peek_loop|]. split; [by_grows grows_peek_loop|].
  split; [by_grows grows_nip_loop|]. split; [by_grows grows_nip_loop|].
  split; [by_grows grows_DropN|]. split; [by_grows grows_peek_loop|]. split; [by_grows grows_NipN|].
  split; [by_grows grows_peek_loop|]. split; [by_grows grows_nip_loop|].
  split; [by_grows grows_nip_loop | by_grows grows_Tuck].
Qed.

Lemma pick_handlers_ok o : handler_ok o opcodePick /\ handler_ok o opcodeRoll.
Proof. split; [by_grows (proj1 grows_pick_roll) | by_grows (proj2 grows_pick_roll)]. Qed.

Lemma unary_handlers_ok o :
  handler_ok o opcode1Add /\ handler_ok o opcode1Sub /\ handler_ok o opcodeNegate /\
  handler_ok o opcodeAbs /\ handler_ok o opcodeNot /\ handler_ok o opcode0NotEqual.
Proof. repeat match goal with |- _ /\ _ => split end; by_grows grows_unary. Qed.

Lemma binary_handlers_ok o :
  handler_ok o opcodeAdd /\ handler_ok o opcodeSub /\ handler_ok o opcodeBoolAnd /\
  handler_ok o opcodeBoolOr /\ handler_ok o opcodeNumEqual /\ handler_ok o opcodeNumNotEqual /\
  handler_ok o opcodeLessThan /\ handler_ok o opcodeGreaterThan /\
  handler_ok o opcodeLessThanOrEqual /\ handler_ok o opcodeGreaterThanOrEqual /\
  handler_ok o opcodeMin /\ handler_ok o opcodeMax.
Proof. repeat match goal with |- _ /\ _ => split end; by_grows grows_binary. Qed.

Lemma hash_elem x : elem_ok (sha256 x) /\ elem_ok (sha1 x) /\ elem_ok (ripemd160 x).
Proof.
  pose proof (sha256_size x). pose proof (sha1_size x). pose proof (ripemd160_size x).
  unfold elem_ok, MaxScriptElementSize. intuition lia.
Qed.

Lemma hash_handlers_ok o :
  handler_ok o opcodeRipemd160 /\ handler_ok o opcodeSha1 /\ handler_ok o opcodeSha256 /\
  handler_ok o opcodeHash160 /\ handler_ok o opcodeHash256.
Proof. repeat match goal with |- _ /\ _ => split end; by_grows grows_hash; intros x; apply hash_elem. Qed.

Lemma compare_handlers_ok o : handler_ok o opcodeEqual /\ handler_ok o opcodeWithin.
Proof. split; [by_grows grows_Equal | by_grows grows_Within]. Qed.

Lemma const_handlers_ok o :
  handler_ok o opcodeDisabled /\ handler_ok o opcodeReserved /\ handler_ok o opcodeInvalid /\
  handler_ok o opcodeReturn.
Proof. repeat match goal with |- _ /\ _ => split end; intros data vm n Hs Hn Hd Hsig; exact I. Qed.

(** ** Handlers of the engine *)

Lemma dstack_push_ok n vm x : vm_safe n vm -> elem_ok x ->
  stepped (n + 1) vm (set_dstack vm (PushByteArray (vm_dstack vm) x)).
Proof.
  intros Hs Hx. eapply set_dstack_ok; [exact Hs | apply limited_push; [exact (limited_dstack n vm Hs) | exact Hx] | lia].
Qed.

Lemma stepped_weaken n n' vm vm' : stepped n vm vm' -> n <= n' -> stepped n' vm vm'.
Proof. intros [H F] Hn. split; [eapply vm_safe_weaken; eassumption | exact F]. Qed.

Lemma data_handlers_ok o : handler_ok o opcodeFalse /\ handler_ok o opcodePushData.
Proof.
  split; intros data vm n Hs Hn Hd Hsig; apply wp_ok;
    (eapply stepped_weaken; [apply dstack_push_ok; [exact Hs|] | lia]); [apply elem_nil | exact Hd].
Qed.

Lemma popIfBool_wp vm n : vm_safe n vm -> n < 2 ^ 31 ->
  wp crash (popIfBool vm) (fun p => stepped n vm (snd p)).
Proof.
  intros Hs Hn. pose proof (limited_dstack n vm Hs) as Hd. pose proof (len_nonneg (stk (vm_astack vm))).
  unfold popIfBool. apply wp_if; intros _.
  - eapply wp_bind; [eapply PopBool_wp; [exact Hd | lia]|]. intros [b s] Hl. apply wp_ok.
    cbn [snd] in *. eapply set_dstack_ok; [exact Hs | exact Hl | lia].
  - pops. repeat (apply wp_if; intros _; [exact I|]). apply wp_ok. cbn [snd].
    eapply set_dstack_ok; [exact Hs | eassumption | lia].
Qed.

Lemma abstractVerify_wp vm n c : vm_safe n vm -> n < 2 ^ 31 ->
  wp crash (abstractVerify vm c) (stepped n vm).
Proof.
  intros Hs Hn. pose proof (len_nonneg (stk (vm_astack vm))). unfold abstractVerify.
  eapply wp_bind; [eapply PopBool_wp; [exact (limited_dstack n vm Hs) | lia]|].
  intros [b s] Hl. cbn [snd] in *. destruct b; [|exact I]. apply wp_ok.
  eapply set_dstack_ok; [exact Hs | exact Hl | lia].
Qed.

Lemma verify_after o h c : handler_ok o h ->
  handler_ok o (fun op data vm => let* vm := h op data vm in abstractVerify vm c).
Proof.
  intros Hh data vm n Hs Hn Hd Hsig. eapply wp_bind; [exact (Hh data vm n Hs Hn Hd Hsig)|]. intros vm' [Hs' Hf].
  eapply wp_weaken; [apply abstractVerify_wp; [exact Hs' | lia]|]. intros vm'' H.
  eapply stepped_trans; eassumption.
Qed.

Lemma verify_handlers_ok o :
  handler_ok o opcodeVerify /\ handler_ok o opcodeEqualVerify /\ handler_ok o opcodeNumEqualVerify.
Proof.
  split; [|split].
  - intros data vm n Hs Hn Hd Hsig. eapply wp_weaken; [apply abstractVerify_wp; [exact Hs | lia]|].
    intros vm' H. eapply stepped_weaken; [exact H | lia].
  - apply (verify_after o opcodeEqual), compare_handlers_ok.
  - apply (verify_after o opcodeNumEqual), binary_handlers_ok.
Qed.

Lemma pushCond_ok n vm c : vm_safe n vm -> stepped n vm (pushCond vm c).
Proof. apply set_condStack_ok. Qed.

Lemma if_handlers_ok o :
  handler_ok o opcodeIf /\ handler_ok o opcodeNotIf /\ handler_ok o opcodeElse /\ handler_ok o opcodeEndif.
Proof.
  assert (Hif : forall f, handler_ok o (fun _ _ vm =>
    if isBranchExecuting vm then
      let* (ok, vm) := popIfBool vm in Ok (pushCond vm (f ok))
    else Ok (pushCond vm OpCondSkip))).
  { intros f data vm n Hs Hn Hd Hsig. apply wp_if; intros _.
    - eapply wp_bind; [apply popIfBool_wp; [exact Hs | lia]|]. intros [b vm'] [Hs' Hf]. apply wp_ok.
      eapply stepped_trans; [exact Hf|]. eapply stepped_weaken; [eapply pushCond_ok; exact Hs' | lia].
    - apply wp_ok. eapply stepped_weaken; [eapply pushCond_ok; exact Hs | lia]. }
  split; [apply Hif|]. split; [apply Hif|].
  split; intros data vm n Hs Hn Hd Hsig; unfold opcodeElse, opcodeEndif;
    destruct (vm_condStack vm); try exact I; apply wp_ok;
    (eapply stepped_weaken; [eapply set_condStack_ok; exact Hs | lia]).
Qed.

Lemma alt_handlers_ok o : handler_ok o opcodeToAltStack /\ handler_ok o opcodeFromAltStack.
Proof.
  split; intros data vm n Hs Hn Hd Hsig; unfold opcodeToAltStack, opcodeFromAltStack;
    pose proof (len_nonneg (stk (vm_astack vm))); pose proof (len_nonneg (stk (vm_dstack vm))).
  - pose proof (limited_dstack n vm Hs) as Hl. pops. apply wp_ok.
    destruct (set_dstack_ok n n vm s _ Hs H2 ltac:(lia)) as [Hs' Hf].
    eapply stepped_trans; [exact Hf|]. eapply set_astack_ok; [exact Hs' | | ].
    + exact (limited_push _ _ _ (limited_astack _ _ Hs') H1).
    + cbn. lia.
  - pose proof (limited_astack n vm Hs) as Hl. pops. apply wp_ok.
    destruct (set_astack_ok n n vm s _ Hs H2 ltac:(lia)) as [Hs' Hf].
    eapply stepped_trans; [exact Hf|]. eapply set_dstack_ok; [exact Hs' | | ].
    + exact (limited_push _ _ _ (limited_dstack _ _ Hs') H1).
    + cbn. lia.
Qed.

Lemma opcodeIfDup_ok o : handler_ok o opcodeIfDup.
Proof.
  intros data vm n Hs Hn Hd Hsig. unfold opcodeIfDup. pose proof (len_nonneg (stk (vm_astack vm))).
  pose proof (limited_dstack n vm Hs) as Hl. pops. apply wp_if; intros _; apply wp_ok.
  - eapply stepped_weaken; [eapply dstack_push_ok; [exact Hs | assumption] | lia].
  - eapply stepped_refl; [exact Hs | lia].
Qed.

Lemma verifyLockTime_wp a b c : wp crash (verifyLockTime a b c) (fun _ => True).
Proof. unfold verifyLockTime. repeat (apply wp_if; intros _; [exact I|]). exact I. Qed.

Lemma input_wp vm n : vm_safe n vm ->
  wp crash (get_at (E := scriptErr) (tx_TxIn (e_tx (vm_env vm))) (e_txIdx (vm_env vm)))
    (fun ti => In ti (tx_TxIn (e_tx (vm_env vm)))).
Proof. intros Hs. apply wp_get, Hs. Qed.

Lemma locktime_handlers_ok o :
  handler_ok o opcodeNop /\ handler_ok o opcodeCheckLockTimeVerify /\ handler_ok o opcodeCheckSequenceVerify.
Proof.
  split; [|split]; intros data vm n Hs Hn Hd Hsig;
    unfold opcodeNop, opcodeCheckLockTimeVerify, opcodeCheckSequenceVerify;
    (assert (Hok : stepped (n + 3) vm vm) by (eapply stepped_refl; [exact Hs | lia]));
    pose proof (len_nonneg (stk (vm_astack vm))); pose proof (limited_dstack n vm Hs) as Hl.
  - apply wp_if; intros _; [exact I | exact Hok].
  - apply wp_if; intros _; [apply wp_if; intros _; [exact I | exact Hok]|]. pops.
    eapply wp_bind; [apply makeScriptNum_wp; [apply H0 | lia]|]. intros lock _.
    apply wp_if; intros _; [exact I|]. eapply wp_bind; [apply verifyLockTime_wp|]. intros _ _.
    eapply wp_bind; [apply (input_wp vm n Hs)|]. intros ti _. apply wp_if; intros _; [exact I | exact Hok].
  - apply wp_if; intros _; [apply wp_if; intros _; [exact I | exact Hok]|]. pops.
    eapply wp_bind; [apply makeScriptNum_wp; [apply H0 | lia]|]. intros lock _.
    apply wp_if; intros _; [exact I|]. apply wp_if; intros _; [exact Hok|].
    apply wp_if; intros _; [exact I|]. eapply wp_bind; [apply (input_wp vm n Hs)|]. intros ti _.
    cbv zeta. apply wp_if; intros _; [exact I|]. eapply wp_bind; [apply verifyLockTime_wp|].
    intros _ _. exact Hok.
Qed.

Lemma opcodeCodeSeparator_ok o : handler_ok o opcodeCodeSeparator.
Proof.
  intros data vm n Hs Hn Hd Hsig. unfold opcodeCodeSeparator.
  assert (Hsep : stepped (n + 3) vm (set_lastCodeSep vm (tk_offset (vm_tokenizer vm)))).
  { destruct Hs. split; [|split; reflexivity]. split; auto; [cbn; lia|].
    destruct vs_script0 as (script & Hi & E & Hb & _ & Ho). exists script. auto. }
  cbn [vm_taprootCtx set_lastCodeSep]. destruct (vm_taprootCtx vm) as [t|] eqn:Et; apply wp_ok; [|exact Hsep].
  destruct Hsep as [Hs' Hf]. eapply stepped_trans; [exact Hf|]. apply set_taprootCtx_ok; [exact Hs'|].
  unfold inTaproot. cbn. now rewrite Et.
Qed.

(** ** Signatures *)

Lemma get_byte_wp {E} l i : bytes_ok l -> 0 <= i < len l -> wp crash (@get_at E Z l i) is_byte.
Proof.
  intros Hb Hi. eapply wp_weaken; [now apply wp_get|]. intros x Hx.
  unfold bytes_ok in Hb. rewrite Forall_forall in Hb. auto.
Qed.

Lemma guard_wp b c : wp crash (guard b c) (fun _ => b = true).
Proof. destruct b; exact eq_refl || exact I. Qed.

Lemma guard_wp' b c : wp crash (guard b c) (fun _ => True).
Proof. destruct b; exact I. Qed.

Lemma checkHashTypeEncoding_wp vm t : wp crash (checkHashTypeEncoding vm t) (fun _ => True).
Proof. unfold checkHashTypeEncoding. repeat (destruct (_ : bool)); exact I. Qed.

Lemma checkPubKeyEncoding_wp vm k : wp crash (checkPubKeyEncoding vm k) (fun _ => True).
Proof.
  unfold checkPubKeyEncoding.
  repeat match goal with |- context [if ?b then _ else _] => destruct b end; exact I.
Qed.

(** [guarded] steps over a test, [byte] over an index that is in range. *)
Ltac guarded := eapply wp_bind; [apply guard_wp | intros [] ?; cbv beta in *].
Ltac byte := eapply wp_bind; [apply get_byte_wp; [assumption | lia] | intros ? ?].

Lemma checkSignatureEncoding_wp vm sig : bytes_ok sig ->
  wp crash (checkSignatureEncoding vm sig) (fun _ => True).
Proof.
  intros Hb. unfold checkSignatureEncoding. apply wp_if; intros _; [exact I|]. cbv zeta.
  guarded. guarded. rewrite Z.leb_le in *. byte. guarded. byte. guarded.
  eapply wp_bind; [apply get_byte_wp; [assumption | lia] | intros rLen HrLen]. unfold is_byte in HrLen.
  guarded. guarded. rewrite Z.ltb_lt in *.
  eapply wp_bind; [apply get_byte_wp; [assumption | lia] | intros sLen HsLen]. unfold is_byte in HsLen.
  eapply wp_bind; [apply guard_wp | intros [] Hlen]. apply Z.eqb_eq in Hlen.
  byte. guarded. eapply wp_bind; [apply guard_wp | intros [] Hr0].
  apply negb_true_iff, Z.eqb_neq in Hr0. byte. guarded.
  apply wp_bind with (R := fun _ => True).
  { apply wp_if; intros Hr1; [|exact I]. apply andb_true_iff in Hr1. rewrite Z.ltb_lt in Hr1.
    byte. apply guard_wp'. }
  intros _ _. byte. guarded. eapply wp_bind; [apply guard_wp | intros [] Hs0].
  apply negb_true_iff, Z.eqb_neq in Hs0. byte. guarded.
  apply wp_bind with (R := fun _ => True).
  { apply wp_if; intros Hs1; [|exact I]. apply andb_true_iff in Hs1. rewrite Z.ltb_lt in Hs1.
    byte. apply guard_wp'. }
  intros _ _. apply wp_if; intros _; [|exact I].
  eapply wp_bind; [apply wp_slice; lia|]. intros s _. apply guard_wp'.
Qed.

Lemma ofOption_wp {A} (o : option A) : wp crash (ofOption o) (fun a => o = Some a).
Proof. destruct o; exact eq_refl || exact I. Qed.

Lemma parseBase_wp pk sig vm : bytes_ok sig -> 1 <= len sig ->
  wp crash (parseBaseSigAndPubkey pk sig vm) (fun _ => True).
Proof.
  intros Hb Hl. unfold parseBaseSigAndPubkey. cbv zeta.
  eapply wp_bind; [apply get_byte_wp; [exact Hb | lia] | intros t Ht].
  eapply wp_bind; [apply wp_slice; lia | intros s [_ Hs]].
  eapply wp_bind; [apply checkHashTypeEncoding_wp | intros _ _].
  eapply wp_bind; [apply checkSignatureEncoding_wp; exact (incl_Forall _ _ _ Hs Hb) | intros _ _].
  eapply wp_bind; [apply checkPubKeyEncoding_wp | intros _ _].
  eapply wp_bind; [apply ofOption_wp | intros k _].
  eapply wp_bind; [apply ofOption_wp | intros g _]. exact I.
Qed.

Lemma subScript_wp vm n : vm_safe n vm -> wp crash (subScript vm) (fun _ => True).
Proof.
  intros Hs. destruct (vs_script _ _ Hs) as (script & Hi & E & _ & Hsep & _). unfold subScript.
  rewrite (get_at_nth _ _ _ Hi E). cbn [obind].
  eapply wp_weaken; [apply wp_slice; lia | intros; exact I].
Qed.

Lemma newBaseSigVerifier_wp pk sig vm n : vm_safe n vm -> bytes_ok sig -> 1 <= len sig ->
  wp crash (newBaseSigVerifier pk sig vm) (fun _ => True).
Proof.
  intros Hs Hb Hl. unfold newBaseSigVerifier.
  eapply wp_bind; [now apply parseBase_wp | intros [[k g] t] _].
  eapply wp_bind; [exact (subScript_wp vm n Hs) | intros script _].
  eapply wp_bind; [apply wp_slice; lia | intros s _]. exact I.
Qed.

Lemma sha256_len x : len (sha256 x) = 32.
Proof. apply sha256_size. Qed.

Lemma sigMessage_wp script hashType tx idx : 0 <= idx < len (tx_TxIn tx) ->
  (isSingle hashType = true -> idx < len (tx_TxOut tx)) ->
  wp crash (sigMessage script hashType tx idx) (fun _ => True).
Proof.
  intros Hi Ho. unfold sigMessage. apply wp_bind with (R := fun _ => True).
  { apply wp_if; intros _; [exact I|]. eapply wp_bind; [now apply wp_get | intros; exact I]. }
  intros ins _. apply wp_bind with (R := fun _ => True); [|intros; exact I].
  apply wp_if; intros _; [exact I|]. apply wp_if; intros Hsg; [|exact I].
  eapply wp_bind; [apply wp_get; specialize (Ho Hsg); lia | intros; exact I].
Qed.

Lemma calcSignatureHash_wp script hashType tx idx : 0 <= idx < len (tx_TxIn tx) ->
  wp crash (calcSignatureHash sha256 script hashType tx idx) (fun h => len h = 32).
Proof.
  intros Hi. unfold calcSignatureHash. apply wp_if; intros Hsg; [reflexivity|].
  eapply wp_bind.
  - apply sigMessage_wp; [exact Hi|]. intros H. rewrite H in Hsg. cbn [andb] in Hsg.
    apply Z.leb_gt in Hsg. exact Hsg.
  - intros msg _. apply sha256_len.
Qed.

Lemma deref_wp {A} (o : option A) : crash \/ o <> None ->
  wp crash (deref (E := scriptErr) o) (fun a => o = Some a).
Proof. destruct o; cbn; [reflexivity|]. intros [H|H]; [exact H | congruence]. Qed.

Section Spent.
Context (fetch : PrevOutputFetcher) (tx : MsgTx).
Context (Hfetch : crash \/ forall ti, In ti (tx_TxIn tx) -> fetch (ti_PreviousOutPoint ti) <> None).

Lemma fetch_wp ti : In ti (tx_TxIn tx) ->
  wp crash (deref (E := scriptErr) (fetch (ti_PreviousOutPoint ti))) (fun _ => True).
Proof.
  intros Hin. eapply wp_weaken; [apply deref_wp | intros; exact I].
  destruct Hfetch as [H|H]; [now left | right; now apply H].
Qed.

Lemma prevOuts_wp ins : incl ins (tx_TxIn tx) -> wp crash (prevOuts fetch ins) (fun _ => True).
Proof.
  induction ins as [|ti ins IH]; intros Hin; [exact I|]. cbn [prevOuts].
  eapply wp_bind; [apply fetch_wp, Hin; now left | intros out _].
  eapply wp_bind; [apply IH; intros x Hx; apply Hin; now right | intros outs _]. exact I.
Qed.

Lemma inputKinds_wp ins : forall v0 v1, incl ins (tx_TxIn tx) ->
  wp crash (inputKinds fetch ins v0 v1) (fun _ => True).
Proof.
  induction ins as [|ti ins IH]; intros v0 v1 Hin; [exact I|]. cbn [inputKinds].
  assert (Hin' : incl ins (tx_TxIn tx)) by (intros x Hx; apply Hin; now right).
  apply wp_if; intros _; [now apply IH|].
  eapply wp_bind; [apply fetch_wp, Hin; now left | intros out _].
  destruct (isWitnessTaprootScript _); (apply wp_if; intros _; [exact I | now apply IH]).
Qed.

Lemma NewTxSigHashes_wp : wp crash (NewTxSigHashes sha256 tx fetch) (fun _ => True).
Proof.
  unfold NewTxSigHashes. eapply wp_bind; [apply inputKinds_wp, incl_refl | intros [v0 v1] _]. cbv zeta.
  apply wp_bind with (R := fun _ => True); [|intros [a s] _; exact I].
  apply wp_if; intros _; [|exact I]. unfold calcHashInputAmounts, calcHashInputScripts.
  apply wp_bind with (R := fun _ => True).
  { eapply wp_bind; [apply prevOuts_wp, incl_refl | intros; exact I]. }
  intros a _. apply wp_bind with (R := fun _ => True); [|intros; exact I].
  eapply wp_bind; [apply prevOuts_wp, incl_refl | intros; exact I].
Qed.

Lemma taprootHash_wp m hType idx opts : 0 <= idx < len (tx_TxIn tx) -> crash \/ m <> None ->
  wp crash (calcTaprootSignatureHashRaw sha256 m hType tx idx fetch opts) (fun h => len h = 32).
Proof.
  intros Hi Hm. unfold calcTaprootSignatureHashRaw.
  apply wp_bind with (R := fun _ => True); [|intros msg _; apply sha256_len].
  unfold taprootMessage. repeat (apply wp_if; intros _; [exact I|]). cbv zeta.
  apply wp_bind with (R := fun _ => True).
  { apply wp_if; intros _; [|exact I]. eapply wp_bind; [now apply deref_wp | intros; exact I]. }
  intros common _. apply wp_bind with (R := fun _ => True).
  { apply wp_if; intros _; [|exact I]. eapply wp_bind; [now apply deref_wp | intros; exact I]. }
  intros outs _. eapply wp_bind; [now apply wp_get | intros ti Hti].
  apply wp_bind with (R := fun _ => True).
  { apply wp_if; intros _; [|exact I]. eapply wp_bind; [now apply fetch_wp | intros; exact I]. }
  intros this _. apply wp_bind with (R := fun _ => True); [|intros; exact I].
  apply wp_if; intros _; [|exact I]. apply wp_if; intros Ho; [exact I|]. apply Z.leb_gt in Ho.
  eapply wp_bind; [apply wp_get; lia | intros; exact I].
Qed.
End Spent.

Lemma witnessHash_wp script m hashType tx idx amt : 0 <= idx < len (tx_TxIn tx) -> m <> None ->
  wp crash (calcWitnessSignatureHashRaw sha256 script m hashType tx idx amt) (fun h => len h = 32).
Proof.
  intros Hi Hm. unfold calcWitnessSignatureHashRaw.
  apply wp_bind with (R := fun _ => True); [|intros msg _; apply sha256_len].
  unfold witnessMessage. apply wp_if; intros _; [exact I|].
  assert (Hd : forall (f : TxSigHashes -> list Z) (b : bool) (z : list Z),
    wp crash (if b then let* m := deref m in @Ok scriptErr _ (f m) else Ok z) (fun _ => True)).
  { intros f b z. apply wp_if; intros _; [|exact I].
    eapply wp_bind; [apply deref_wp; now right | intros; exact I]. }
  eapply wp_bind; [apply Hd | intros prevs _]. eapply wp_bind; [apply Hd | intros seqs _].
  eapply wp_bind; [now apply wp_get | intros ti _].
  apply wp_bind with (R := fun _ => True); [|intros; exact I].
  apply wp_if; intros _; [eapply wp_bind; [apply deref_wp; now right | intros; exact I]|].
  apply wp_if; intros Ho; [|exact I]. apply andb_true_iff in Ho. rewrite Z.ltb_lt in Ho.
  eapply wp_bind; [apply wp_get; lia | intros; exact I].
Qed.

(** Verifying a signature changes nothing but the signature cache. *)
Definition only_cache (vm vm' : Engine) : Prop := exists c, vm' = set_sigCache vm c.

Lemma only_cache_refl vm : only_cache vm vm.
Proof. exists (vm_sigCache vm). now destruct vm. Qed.

Lemma only_cache_ok n vm vm' : vm_safe n vm -> only_cache vm vm' -> stepped n vm vm'.
Proof. intros Hs [c ->]. now apply set_sigCache_ok. Qed.

Lemma verifyCached_only vm key sig pk b : only_cache vm (snd (verifyCached evict vm key sig pk b)).
Proof.
  unfold verifyCached. pose proof (only_cache_refl vm).
  destruct (vm_sigCache vm) as [c|]; [|assumption]. destruct (Exists _ _ _ _); [eexists; reflexivity|].
  destruct b; eexists; reflexivity.
Qed.

Lemma verifyCached_ok n vm key sig pk b : vm_safe n vm ->
  stepped n vm (snd (verifyCached evict vm key sig pk b)).
Proof. intros Hs. apply only_cache_ok; [exact Hs | apply verifyCached_only]. Qed.

(** A verifier that leaves a good engine. *)
Definition verifies (n : Z) (vm : Engine) (m : outcome scriptErr (bool * Engine)) : Prop :=
  wp crash m (fun p => stepped n vm (snd p)).

Lemma base_Verify_wp n vm b : vm_safe n vm -> verifies n vm (base_Verify evict b vm).
Proof.
  intros Hs. unfold verifies, base_Verify.
  eapply wp_bind; [apply calcSignatureHash_wp, Hs | intros h _]. now apply verifyCached_ok.
Qed.

Lemma sigHashes_wp n vm : vm_safe n vm -> wp crash (vm_sigHashes vm) (fun m => m <> None).
Proof.
  intros Hs. unfold vm_sigHashes. destruct (e_hashCache (vm_env vm)) eqn:E; [discriminate|].
  eapply wp_bind; [apply NewTxSigHashes_wp, Hs | intros m _]. discriminate.
Qed.

Lemma segwit_Verify_wp n vm b : vm_safe n vm -> verifies n vm (segwit_Verify evict b vm).
Proof.
  intros Hs. unfold verifies, segwit_Verify.
  eapply wp_bind; [exact (sigHashes_wp n vm Hs) | intros m Hm]. cbv beta in Hm.
  pose proof (witnessHash_wp (bv_subScript b) m (bv_hashType b) (e_tx (vm_env vm))
    (e_txIdx (vm_env vm)) (e_inputAmount (vm_env vm)) (eo_input _ (vs_env _ _ Hs)) Hm) as H.
  destruct (calcWitnessSignatureHashRaw _ _ _ _ _ _ _) as [h|e|]; cbn [wp] in *.
  - now apply verifyCached_ok.
  - eapply stepped_refl; [exact Hs | lia].
  - exact H.
Qed.

Lemma verifySchnorr_wp vm t opts : env_ok (vm_env vm) -> crash \/ e_hashCache (vm_env vm) <> None ->
  wp crash (taproot_verifyWith evict t opts vm) (fun p => only_cache vm (snd p)).
Proof.
  intros He Hc. unfold taproot_verifyWith.
  pose proof (taprootHash_wp (e_prevOutFetcher (vm_env vm)) (e_tx (vm_env vm))
    (eo_fetch _ He) (e_hashCache (vm_env vm)) (tv_hashType t) (e_txIdx (vm_env vm)) opts
    (eo_input _ He) Hc) as H.
  destruct (calcTaprootSignatureHashRaw _ _ _ _ _ _ _) as [h|e|]; cbn [wp] in *.
  - unfold taproot_verifySig. destruct (vm_sigCache vm) eqn:Ec.
    + rewrite H. cbn. apply verifyCached_only.
    + apply only_cache_refl.
  - apply only_cache_refl.
  - exact H.
Qed.

Lemma parseTaproot_wp pk sig : wp crash (parseTaprootSigAndPubKey pk sig) (fun _ => True).
Proof.
  unfold parseTaprootSigAndPubKey. eapply wp_bind; [apply ofOption_wp | intros k _].
  apply wp_if; intros _; [|apply wp_if; intros _; [|exact I]];
    (eapply wp_bind; [apply ofOption_wp | intros; exact I]).
Qed.

Lemma newTaprootSigVerifier_wp pk sig annex : wp crash (newTaprootSigVerifier pk sig annex) (fun _ => True).
Proof. eapply wp_bind; [apply parseTaproot_wp | intros [[k g] t] _]. exact I. Qed.

Lemma newTapscriptVerifier_wp pk sig vm ctx :
  wp crash (newBaseTapscriptSigVerifier pk sig vm ctx) (fun _ => True).
Proof.
  unfold newBaseTapscriptSigVerifier. apply wp_if; intros _; [exact I|].
  apply wp_if; intros _; [|apply wp_if; intros _; exact I].
  eapply wp_bind; [apply newTaprootSigVerifier_wp | intros; exact I].
Qed.

Lemma tapscript_Verify_wp n vm b ctx : vm_safe n vm -> inTaproot vm = true ->
  verifies n vm (tapscript_Verify evict b ctx vm).
Proof.
  intros Hs Ht. destruct b as [t|]; [|eapply stepped_refl; [exact Hs | lia]].
  eapply wp_weaken; [apply verifySchnorr_wp; [apply Hs|] | intros p Hp; now apply only_cache_ok].
  destruct (vs_tap _ _ Hs) as [H|[H|H]]; auto. congruence.
Qed.

Lemma tallysigOp_wp ctx : wp crash (tallysigOp ctx) (fun _ => True).
Proof. unfold tallysigOp. apply wp_if; intros _; exact I. Qed.

Lemma pushBool_ok n vm b : vm_safe n vm -> stepped (n + 1) vm (pushBool vm b).
Proof. intros Hs. apply dstack_push_ok; [exact Hs | apply elem_fromBool]. Qed.

Lemma checkSig_verify_wp n vm sig v : verifies n vm (sv_Verify evict v vm) ->
  wp crash (checkSig_verify evict sig v vm) (stepped (n + 1) vm).
Proof.
  intros Hv. eapply wp_bind; [exact Hv | intros [b vm'] [Hs Hf]]. apply wp_if; intros _; [exact I|].
  eapply stepped_trans; [exact Hf | now apply pushBool_ok].
Qed.

Lemma orFalse_wp {A} n vm (m : outcome scriptErr A) k : vm_safe n vm -> wp crash m (fun _ => True) ->
  (forall a, wp crash (k a) (stepped (n + 1) vm)) -> wp crash (orFalse m vm k) (stepped (n + 1) vm).
Proof.
  intros Hs Hm Hk. destruct m as [a|[c|]|]; cbn in *; auto. now apply pushBool_ok.
Qed.

(** What [opcodeCheckSig] does in a tapscript. *)
Lemma tapscript_sig_wp n vm ctx pk sig (k : option taprootSigVerifier -> taprootExecutionCtx -> Engine ->
    outcome scriptErr Engine) (m : Engine -> outcome scriptErr Engine) (b : bool) :
  vm_safe n vm -> vm_taprootCtx vm = Some ctx ->
  (forall v ctx vm', vm_safe n vm' -> inTaproot vm' = true -> same_frame vm vm' ->
     wp crash (k v ctx vm') (stepped (n + 1) vm)) ->
  (forall vm', vm_safe n vm' -> same_frame vm vm' -> wp crash (m vm') (stepped (n + 1) vm)) ->
  wp crash
    (let* ctx := if b then tallysigOp ctx else Ok ctx in
     let vm := set_taprootCtx vm (Some ctx) in
     if len pk =? 0 then Err (scriptError ErrTaprootPubkeyIsEmpty)
     else if len sig =? 0 then m vm
     else let* v := newBaseTapscriptSigVerifier pk sig vm ctx in k v ctx vm)
    (stepped (n + 1) vm).
Proof.
  intros Hs Ec Hk Hm. assert (Ht : inTaproot vm = true) by (unfold inTaproot; now rewrite Ec).
  apply wp_bind with (R := fun _ => True); [destruct b; [apply tallysigOp_wp | exact I]|].
  intros ctx' _. cbv zeta. destruct (set_taprootCtx_ok n vm ctx' Hs Ht) as [Hs' Hf].
  apply wp_if; intros _; [exact I|]. apply wp_if; intros _; [now apply Hm|].
  eapply wp_bind; [apply newTapscriptVerifier_wp | intros v _]. now apply Hk.
Qed.

(** The engine after popping. *)
Lemma popped_ok n n' vm s k : vm_safe n vm -> limited k s -> k + len (stk (vm_astack vm)) <= n' ->
  vm_safe n' (set_dstack vm s) /\ same_frame vm (set_dstack vm s).
Proof. apply set_dstack_ok. Qed.

Lemma elem_bytes x : elem_ok x -> bytes_ok x.
Proof. intros []; assumption. Qed.

Lemma opcodeCheckSig_ok o : OP_16 < o -> handler_ok o (opcodeCheckSig evict).
Proof.
  intros Ho data vm n Hs Hn Hd Hsig. pose proof (len_nonneg (stk (vm_astack vm))).
  pose proof (limited_dstack n vm Hs) as Hl. unfold opcodeCheckSig.
  eapply wp_bind; [eapply Pop_wp; [exact Hl | lia] | intros [pk s1] [Hpk Hl1]]. cbn [fst snd] in *.
  eapply wp_bind; [eapply Pop_wp; [exact Hl1 | lia] | intros [sig s2] [Hsg Hl2]]. cbn [fst snd] in *.
  cbv zeta. destruct (popped_ok n n vm s2 _ Hs Hl2 ltac:(lia)) as [Hs1 Hf1].
  destruct Hsig as [Hsig|]; [|lia].
  assert (Hsig1 : sig_ok (set_dstack vm s2)) by exact Hsig. set (vm1 := set_dstack vm s2) in *.
  clearbody vm1. apply wp_weaken with (R := stepped (n + 1) vm1);
    [|intros vm' H'; eapply stepped_weaken; [eapply stepped_trans; [exact Hf1 | exact H'] | lia]].
  apply wp_if; intros E0; [now apply pushBool_ok|].
  assert (Hnew : isWitnessVersionActive vm1 TaprootWitnessVersion = false ->
    wp crash (newBaseSigVerifier pk sig vm1) (fun _ => True)).
  { intros E. eapply newBaseSigVerifier_wp; [exact Hs1 | now apply elem_bytes|].
    destruct (inTaproot vm1) eqn:Et; [rewrite (vs_mode _ _ Hs1 Et) in E; discriminate|].
    apply Z.ltb_ge in E0. exact E0. }
  unfold isWitnessVersionActive in *. destruct (vm_witnessProgram vm1) as [p|] eqn:Ep; cbn [isSome negb andb].
  2: { apply orFalse_wp; [exact Hs1 | now apply Hnew|].
       intros b. apply checkSig_verify_wp, base_Verify_wp, Hs1. }
  apply wp_if; intros Ev.
  { apply orFalse_wp; [exact Hs1 | apply Hnew; apply Z.eqb_eq in Ev; now rewrite Ev|].
    intros b. apply checkSig_verify_wp, segwit_Verify_wp, Hs1. }
  destruct (vm_taprootCtx vm1) as [ctx|] eqn:Ec.
  - apply tapscript_sig_wp with (k := fun v ctx vm => checkSig_verify evict sig (TapscriptVerifier v ctx) vm)
      (m := fun vm => Ok (set_dstack vm (PushByteArray (vm_dstack vm) []))); auto.
    + intros v ctx' vm' Hs' Ht' Hf'. eapply wp_weaken; [apply checkSig_verify_wp, tapscript_Verify_wp; eassumption|].
      intros vm2 H2. eapply stepped_trans; eassumption.
    + intros vm' Hs' Hf'. eapply stepped_trans; [exact Hf' | apply dstack_push_ok; [exact Hs' | apply elem_nil]].
  - assert (Hc : crash); [|exact Hc]. destruct Hsig1 as [Hc|[Hc|[Hc|Hc]]]; [exact Hc | congruence | |].
    + rewrite Hc in Ev. discriminate.
    + unfold inTaproot in Hc. rewrite Ec in Hc. discriminate.
Qed.

Lemma opcodeCheckSigVerify_ok o : OP_16 < o -> handler_ok o (opcodeCheckSigVerify evict).
Proof. intros Ho. apply (verify_after o (opcodeCheckSig evict)), opcodeCheckSig_ok, Ho. Qed.

Lemma pushInt_ok n vm v : vm_safe n vm -> Z.abs v < 2 ^ 63 ->
  wp crash (dstackOp (fun s => PushInt s v) vm) (stepped (n + 1) vm).
Proof.
  intros Hs Hv. eapply wp_bind; [exact (PushInt_wp _ _ _ v (limited_dstack n vm Hs) Hv) | intros s Hl].
  apply wp_ok. eapply set_dstack_ok; [exact Hs | exact Hl | lia].
Qed.

Lemma opcodeCheckSigAdd_ok o : handler_ok o (opcodeCheckSigAdd evict).
Proof.
  intros data vm n Hs Hn Hd Hsig. pose proof (len_nonneg (stk (vm_astack vm))).
  pose proof (limited_dstack n vm Hs) as Hl. unfold opcodeCheckSigAdd.
  destruct (vm_taprootCtx vm) as [ctx|] eqn:Ec; [|exact I].
  eapply wp_bind; [eapply Pop_wp; [exact Hl | lia] | intros [pk s1] [Hpk Hl1]]. cbn [fst snd] in *.
  eapply wp_bind; [eapply PopInt_wp; [exact Hl1 | lia] | intros [acc s2] [Hacc Hl2]]. cbn [fst snd] in *.
  eapply wp_bind; [eapply Pop_wp; [exact Hl2 | lia] | intros [sig s3] [Hsg Hl3]]. cbn [fst snd] in *.
  cbv zeta. destruct (popped_ok n n vm s3 _ Hs Hl3 ltac:(lia)) as [Hs1 Hf1].
  assert (Ec1 : vm_taprootCtx (set_dstack vm s3) = Some ctx) by exact Ec.
  set (vm1 := set_dstack vm s3) in *. clearbody vm1.
  apply wp_weaken with (R := stepped (n + 1) vm1);
    [|intros vm' H'; eapply stepped_weaken; [eapply stepped_trans; [exact Hf1 | exact H'] | lia]].
  apply tapscript_sig_wp with (m := dstackOp (fun s => PushInt s acc))
    (k := fun v ctx vm => let* (valid, vm) := tapscript_Verify evict v ctx vm in
       if negb valid then Err (scriptError ErrNullFail)
       else dstackOp (fun s => PushInt s (i64 (acc + 1))) vm); auto.
  - intros v ctx' vm' Hs' Ht' Hf'. eapply wp_bind; [apply tapscript_Verify_wp; eassumption|].
    intros [b vm2] [Hs2 Hf2]. cbn [snd] in *. apply wp_if; intros _; [exact I|].
    eapply wp_weaken; [apply (pushInt_ok n); [exact Hs2 | rewrite i64_id by (unfold is_i64; lia); lia]|].
    intros vm3 H3. eapply stepped_trans; [eapply same_frame_trans; eassumption | exact H3].
  - intros vm' Hs' Hf'. eapply wp_weaken; [apply (pushInt_ok n); [exact Hs' | lia]|].
    intros vm3 H3. eapply stepped_trans; eassumption.
Qed.

Lemma pop_loop_wp k : forall n s, limited n s -> n < 2 ^ 31 ->
  wp crash (pop_loop k s) (fun p => Forall elem_ok (fst p) /\ len (fst p) = Z.of_nat k /\ limited n (snd p)).
Proof.
  induction k as [|k IH]; intros n s Hs Hn.
  - cbn. split; [constructor|]. split; [reflexivity | exact Hs].
  - cbn [pop_loop]. eapply wp_bind; [eapply Pop_wp; eassumption | intros [x s1] [Hx Hs1]]. cbn [fst snd] in *.
    eapply wp_bind; [apply (IH n); [eapply limited_weaken; [exact Hs1 | lia] | exact Hn]|].
    intros [xs s2] (Hxs & Hk & Hs2). cbn [fst snd wp] in *. rewrite len_cons. auto with zarith.
Qed.

Lemma multisig_verify_ok n vm script sig pk t g : vm_safe n vm ->
  verifies n vm (multisig_verify evict script sig pk t g vm).
Proof.
  intros Hs. unfold verifies, multisig_verify.
  eapply wp_bind; [apply checkPubKeyEncoding_wp | intros _ _].
  destruct (ParsePubKey pk); [|eapply stepped_refl; [exact Hs | lia]].
  apply wp_bind with (R := fun _ => True).
  - apply wp_if; intros _.
    + eapply wp_bind; [exact (sigHashes_wp n vm Hs) | intros m Hm].
      eapply wp_weaken; [apply witnessHash_wp; [apply Hs | exact Hm] | intros; exact I].
    + eapply wp_weaken; [apply calcSignatureHash_wp, Hs | intros; exact I].
  - intros h _. now apply verifyCached_ok.
Qed.

Definition info_ok (i : parsedSigInfo) : Prop := bytes_ok (si_signature i).

Lemma multisig_try_ok n vm script info pk : vm_safe n vm -> info_ok info ->
  wp crash (multisig_try evict script info pk vm)
    (fun r => info_ok (fst (fst r)) /\ stepped n vm (snd r)).
Proof.
  intros Hs Hi. unfold multisig_try. cbv zeta. pose proof (stepped_refl n n vm Hs ltac:(lia)) as Hr.
  apply wp_if; intros E0; [split; assumption|]. apply Z.eqb_neq in E0.
  pose proof (len_nonneg (si_signature info)).
  eapply wp_bind; [apply get_byte_wp; [exact Hi | lia] | intros t Ht].
  eapply wp_bind; [apply wp_slice; lia | intros sig [_ Hsig]]. cbv beta in Hsig.
  apply wp_bind with (R := info_ok).
  - apply wp_if; intros _; [|exact Hi].
    eapply wp_bind; [apply checkHashTypeEncoding_wp | intros _ _].
    eapply wp_bind; [apply checkSignatureEncoding_wp; exact (incl_Forall _ _ _ Hsig Hi) | intros _ _].
    exact Hi.
  - intros info' Hi'. destruct (si_parsedSignature info'); [|split; assumption].
    eapply wp_bind; [exact (multisig_verify_ok n vm _ _ _ _ _ Hs) | intros [b vm'] Hv].
    split; [exact Hi' | exact Hv].
Qed.

Lemma multisig_loop_ok n script : forall pks sigs vm, vm_safe n vm -> Forall info_ok sigs ->
  verifies n vm (multisig_loop evict script sigs pks vm).
Proof.
  induction pks as [|pk pks IH]; intros [|info sigs] vm Hs Hi; cbn [multisig_loop];
    try (eapply stepped_refl; [exact Hs | lia]).
  apply wp_if; intros _; [eapply stepped_refl; [exact Hs | lia]|].
  apply Forall_cons_iff in Hi. destruct Hi as [Hi Hsigs].
  eapply wp_bind; [exact (multisig_try_ok n vm script info pk Hs Hi) | intros [[info' b] vm'] [Hi' [Hs' Hf]]].
  cbn [fst snd] in *. eapply wp_weaken; [apply (IH _ vm' Hs'); destruct b; [exact Hsigs | now constructor]|].
  intros [b' vm2] H2. eapply stepped_trans; eassumption.
Qed.

Lemma opcodeCheckMultiSig_ok o : handler_ok o (opcodeCheckMultiSig evict).
Proof.
  intros data vm n Hs Hn Hd Hsig. pose proof (len_nonneg (stk (vm_astack vm))).
  pose proof (limited_dstack n vm Hs) as Hl. pose proof (vs_numOps _ _ Hs) as Hops.
  unfold opcodeCheckMultiSig. apply wp_if; intros _; [exact I|].
  eapply wp_bind; [eapply PopInt_wp; [exact Hl | lia] | intros [nk s1] [Hnk Hl1]]. cbn [fst snd] in *.
  cbv zeta. apply wp_if; intros E0; [exact I|]. apply wp_if; intros E1; [exact I|].
  apply Z.ltb_ge in E0, E1. apply wp_if; intros E2; [exact I|]. apply Z.ltb_ge in E2.
  cbn [vm_numOps set_numOps] in E2.
  destruct (set_numOps_ok n vm (vm_numOps vm + Int32 nk) Hs ltac:(lia)) as [Hs1 Hf1].
  set (vm1 := set_numOps vm _) in *.
  assert (Ha : vm_astack vm1 = vm_astack vm) by reflexivity. clearbody vm1.
  eapply wp_bind; [apply pop_loop_wp; [exact Hl1 | lia] | intros [pks s2] (_ & _ & Hl2)]. cbn [fst snd] in *.
  eapply wp_bind; [eapply PopInt_wp; [exact Hl2 | lia] | intros [ns s3] [Hns Hl3]]. cbn [fst snd] in *.
  apply wp_if; intros E3; [exact I|]. apply wp_if; intros E4; [exact I|].
  eapply wp_bind; [apply pop_loop_wp; [exact Hl3 | lia] | intros [sigs s4] (Hsigs & _ & Hl4)]. cbn [fst snd] in *.
  eapply wp_bind; [eapply Pop_wp; [exact Hl4 | lia] | intros [dummy s5] [_ Hl5]]. cbn [fst snd] in *.
  destruct (popped_ok n n vm1 s5 _ Hs1 Hl5 ltac:(rewrite Ha; lia)) as [Hs2 Hf2].
  apply wp_if; intros _; [exact I|].
  eapply wp_bind; [exact (subScript_wp _ n Hs2) | intros script _].
  eapply wp_bind; [apply multisig_loop_ok; [exact Hs2|] | intros [b vm3] [Hs3 Hf3]].
  - apply Forall_forall. intros i Hi. apply in_map_iff in Hi. destruct Hi as (x & <- & Hx).
    rewrite Forall_forall in Hsigs. apply elem_bytes. auto.
  - cbn [snd] in *. apply wp_if; intros _; [exact I|]. apply wp_ok.
    eapply stepped_trans; [exact Hf1|]. eapply stepped_trans; [exact Hf2|].
    eapply stepped_trans; [exact Hf3|]. eapply stepped_weaken; [apply pushBool_ok; exact Hs3 | lia].
Qed.

Lemma opcodeCheckMultiSigVerify_ok o : handler_ok o (opcodeCheckMultiSigVerify evict).
Proof. apply (verify_after o (opcodeCheckMultiSig evict)), opcodeCheckMultiSig_ok. Qed.

(** ** Every opcode *)

#[local] Hint Resolve opcodeIfDup_ok opcodeCodeSeparator_ok opcodeCheckSigAdd_ok
  opcodeCheckMultiSig_ok opcodeCheckMultiSigVerify_ok : wp.

(** The lemma of the group a handler belongs to, found by its name. *)
Ltac entry :=
  lazymatch goal with |- handler_ok ?o ?h =>
    let H := fresh in
    first
    [ solve [auto with wp nocore]
    | assert (H : handler_ok o h)
        by (pose proof (const_handlers_ok o); pose proof (data_handlers_ok o);
            pose proof (push_handlers_ok o); pose proof (move_handlers_ok o);
            pose proof (pick_handlers_ok o); pose proof (unary_handlers_ok o);
            pose proof (binary_handlers_ok o); pose proof (hash_handlers_ok o);
            pose proof (compare_handlers_ok o); pose proof (verify_handlers_ok o);
            pose proof (if_handlers_ok o); pose proof (alt_handlers_ok o);
            pose proof (locktime_handlers_ok o);
            repeat match goal with K : _ /\ _ |- _ => destruct K end;
            match goal with K : handler_ok o h |- _ => exact K end);
      exact H ]
  end.

Lemma opcodeTable_ok : Forall (fun e => handler_ok (fst e) (snd e)) (opcodeTable evict).
Proof.
  unfold opcodeTable. repeat (apply Forall_cons; [cbn [fst snd]|]); try apply Forall_nil.
  all: lazymatch goal with
  | |- handler_ok _ (opcodeCheckSig _) => apply opcodeCheckSig_ok; reflexivity
  | |- handler_ok _ (opcodeCheckSigVerify _) => apply opcodeCheckSigVerify_ok; reflexivity
  | _ => entry
  end.
Qed.

Lemma opfunc_ok o : handler_ok o (opfunc evict o).
Proof.
  unfold opfunc. destruct (_ && _); [apply data_handlers_ok|].
  destruct (_ && _); [apply push_handlers_ok|].
  destruct (find _ _) as [[o' h]|] eqn:E; [|apply const_handlers_ok].
  apply find_some in E. destruct E as [Hin Ho]. cbn [fst] in Ho. apply Z.eqb_eq in Ho. subst o'.
  pose proof opcodeTable_ok as H. rewrite Forall_forall in H. exact (H _ Hin).
Qed.

Lemma checkMinimalDataPush_wp o d : wp crash (checkMinimalDataPush o d) (fun _ => True).
Proof.
  unfold checkMinimalDataPush. cbv zeta.
  repeat match goal with |- context [if ?b then _ else _] => destruct b end; exact I.
Qed.

Lemma executeOpcode_wp o data vm n : vm_safe n vm -> n + 3 < 2 ^ 31 -> bytes_ok data ->
  (OP_16 < o -> data = []) -> sig_ok vm \/ o <= OP_16 ->
  wp crash (executeOpcode evict o data vm) (stepped (n + 3) vm).
Proof.
  intros Hs Hn Hb Hdata Hsig. unfold executeOpcode. repeat (apply wp_if; intros _; [exact I|]).
  apply wp_bind with (R := fun vm' => stepped n vm vm' /\ elem_ok data).
  - apply wp_if; intros Eo.
    + apply andb_true_iff in Eo. destruct Eo as [_ Eo]. apply Z.ltb_lt in Eo. cbv zeta.
      apply wp_if; intros E; [exact I|]. apply Z.ltb_ge in E. cbn [vm_numOps set_numOps] in E.
      pose proof (vs_numOps _ _ Hs). apply wp_ok. split; [apply set_numOps_ok; [exact Hs | lia]|].
      rewrite (Hdata Eo). apply elem_nil.
    + apply wp_if; intros E; [exact I|]. apply Z.ltb_ge in E.
      split; [eapply stepped_refl; [exact Hs | lia] | now split].
  - intros vm' [[Hs' Hf] Hd]. apply wp_if; intros _.
    + eapply stepped_weaken; [split; eassumption | lia].
    + apply wp_bind with (R := fun _ => True).
      * apply wp_if; intros _; [apply checkMinimalDataPush_wp | exact I].
      * intros _ _. eapply wp_weaken; [apply (opfunc_ok o data vm' n); auto|].
        -- destruct Hsig as [Hsig|Hle]; [left | now right]. unfold sig_ok in *.
           now rewrite (sf_program _ _ Hf), (sf_version _ _ Hf), (sf_tap _ _ Hf).
        -- intros vm2 H2. eapply stepped_trans; eassumption.
Qed.

Lemma VerifyTaprootKeySpend_wp program sig vm : env_ok (vm_env vm) ->
  crash \/ e_hashCache (vm_env vm) <> None ->
  wp crash (VerifyTaprootKeySpend evict program sig vm) (only_cache vm).
Proof.
  intros He Hc. unfold VerifyTaprootKeySpend.
  eapply wp_bind; [apply wp_get, He | intros ti _]. cbv zeta.
  eapply wp_bind; [apply newTaprootSigVerifier_wp | intros v _].
  eapply wp_bind; [exact (verifySchnorr_wp vm v _ He Hc) | intros [b vm'] Hv].
  destruct b; [exact Hv | exact I].
Qed.
End Machine.
