(* ===== verification/EngineRun.v ===== *)
(** * The script engine: whole executions

    The invariant of EngineSafe.v carried through [Step]: at the end of a script
    the next one is chosen, and what is left to execute has become shorter.
    From it follow that [Execute] terminates, that it respects the limits, and
    that it does not panic. *)

From Stdlib Require Import ZArith List Lia Bool.
From S2P Require Import Prelude Opcodes GoSlice GoIO WireCommon WireTx Script ScriptNum ScriptStack SigHash Taproot Engine EngineSafe.
Import ListNotations.
Local Open Scope Z_scope.
Local Open Scope go_scope.

(** ** Whole stacks *)

Lemma drop_all s : len (stk s) < 2 ^ 31 ->
  match DropN s (Depth s) with Ok s' => s' | _ => s end = with_stk s [].
Proof.
  intros Hl. unfold DropN, Depth. pose proof (len_nonneg (stk s)).
  rewrite i32_id by (unfold is_i32; lia). destruct (Z.ltb_spec (len (stk s)) 1) as [H0|H0].
  - destruct s as [[|x l] v]; [reflexivity|]. cbn [stk] in *. rewrite len_cons in H0.
    pose proof (len_nonneg l). lia.
  - assert (Hi : Z.to_nat (len (stk s)) = List.length (items s))
      by (unfold items, len; rewrite length_rev; lia).
    rewrite Hi. rewrite <- (restack_items s) at 2. rewrite <- (app_nil_r (items s)) at 2.
    rewrite drop_loop_spec; [reflexivity|]. change (len (@nil (list Z))) with 0.
    unfold items. rewrite len_rev. lia.
Qed.

Lemma push_all data : forall s, fold_left PushByteArray data s = with_stk s (stk s ++ data).
Proof.
  induction data as [|x data IH]; intros s; cbn [fold_left].
  - rewrite app_nil_r. now destruct s.
  - rewrite IH. unfold PushByteArray, with_stk. cbn [stk verifyMinimalData]. now rewrite <- app_assoc.
Qed.

Lemma setStack_eq s data : len (stk s) < 2 ^ 31 -> setStack s data = with_stk s data.
Proof. intros Hl. unfold setStack. rewrite drop_all by exact Hl. apply push_all. Qed.

Lemma getStack_eq s : len (stk s) < 2 ^ 31 -> getStack s = stk s.
Proof.
  intros Hl. unfold getStack, Depth. pose proof (len_nonneg (stk s)).
  rewrite i32_id by (unfold is_i32; lia). rewrite <- (rev_involutive (stk s)) at 2. f_equal.
  fold (items s). assert (Hi : Z.to_nat (len (stk s)) = List.length (items s))
    by (unfold items, len; rewrite length_rev; lia).
  rewrite Hi. apply nth_error_ext. intros i.
  rewrite nth_error_map, nth_error_seq. destruct (Nat.ltb_spec i (List.length (items s))) as [Hlt|Hge].
  - cbn [option_map Nat.add]. destruct (nth_error (items s) i) as [x|] eqn:E.
    + rewrite <- (restack_items s) at 1. rewrite (Peek_restack s (items s)) with (so := x);
        [reflexivity | unfold items; rewrite len_rev; exact Hl | exact E].
    + apply nth_error_None in E. lia.
  - symmetry. apply nth_error_None. exact Hge.
Qed.

(** ** What is left of a script that only pushes *)

Definition push_rest (rest : list Z) : Prop := exists toks,
  rest = concat (map raw toks) /\ Forall token_ok toks /\ Forall (fun k => tok_op k <= OP_16) toks.

Lemma push_rest_next k post : token_ok k -> push_rest (raw k ++ post) ->
  tok_op k <= OP_16 /\ push_rest post.
Proof.
  intros Hk ([|k' toks] & E & Hok & Hp); [discriminate|]. cbn [map concat] in E.
  apply Forall_cons_iff in Hok, Hp. destruct Hok as [Hk' Hok], Hp as [Hp' Hp].
  apply raw_prefix_code in E; auto. destruct E as [-> ->]. split; [exact Hp'|]. now exists toks.
Qed.

Lemma push_only_rest script : bytes_ok script -> len script < 2 ^ 31 ->
  IsPushOnlyScript script = true -> push_rest script.
Proof.
  intros Hb Hl Hp. destruct (parses_exists script Hb Hl) as (toks & rest & Ht).
  apply (IsPushOnlyScript_spec script toks rest Hb Hl Ht) in Hp. destruct Hp as [-> Hp].
  destruct Ht as (E & Hok & _). exists toks. rewrite app_nil_r in E. auto.
Qed.

Lemma witness_program_push version program script : bytes_ok script ->
  extractWitnessProgramInfo script = (version, program, true) -> push_rest script.
Proof.
  intros Hb E. apply witness_program_shape in E; [|exact Hb].
  destruct E as (op & Es & _ & Hp & ->). apply Forall_cons_iff in Hb. destruct Hb as [Ho Hb].
  apply Forall_cons_iff in Hb. destruct Hb as [_ Hb].
  pose proof (smallInt_token op Ho Es) as Hk1. destruct (push_token program Hb ltac:(lia)) as [Hk2 Hr2].
  exists [mkToken op []; mkToken (len program) program]. cbn [map concat].
  rewrite (smallInt_raw _ Hk1 Es), Hr2, app_nil_r. split; [reflexivity|].
  split; repeat (apply Forall_cons; [assumption|]); try apply Forall_nil.
  apply Forall_cons; [|apply Forall_cons; [cbn; unfold OP_16; lia | apply Forall_nil]].
  unfold isSmallInt in Es. cbn [tok_op]. apply orb_true_iff in Es.
  rewrite andb_true_iff, Z.eqb_eq, !Z.leb_le in Es. unfold OP_0, OP_1, OP_16 in *. lia.
Qed.

Section Run.
Context `{C : Crypto} {L : CryptoLaws C}.
Context (evict : list (list Z * sigCacheEntry) -> nat).
Context (crash : Prop).

(** ** The invariant of a run *)

(** The total length of some byte strings. *)
Definition total (l : list (list Z)) : Z := fold_right (fun s n => len s + n) 0 l.

Lemma total_nonneg l : 0 <= total l.
Proof. induction l as [|x l IH]; cbn; [lia|]. fold (total l). pose proof (len_nonneg x). lia. Qed.

Lemma total_app l l' : total (l ++ l') = total l + total l'.
Proof.
  induction l as [|x l IH]; [reflexivity|]. cbn [app total fold_right].
  fold (total (l ++ l')). fold (total l). lia.
Qed.

Lemma total_In x l : In x l -> len x <= total l.
Proof.
  induction l as [|y l IH]; intros []; cbn [total fold_right]; fold (total l).
  - subst. pose proof (total_nonneg l). lia.
  - specialize (IH H). pose proof (len_nonneg y). lia.
Qed.

(** The witness of the input that is verified. *)
Definition input_witness (e : EngineEnv) : list (list Z) :=
  match get_at (E := scriptErr) (tx_TxIn (e_tx e)) (e_txIdx e) with
  | Ok ti => wit_items (ti_Witness ti)
  | _ => []
  end.

(** What can still be appended to the scripts: a redeem script and a witness
    script, or the script of a key hash. *)
Definition pending (vm : Engine) (idx : Z) : Z :=
  (if e_bip16 (vm_env vm) && (idx <=? 1) then MaxScriptElementSize else 0) +
  (if isSome (vm_witnessProgram vm) && ((idx <=? 1) || ((idx <=? 2) && e_bip16 (vm_env vm)))
   then total (input_witness (vm_env vm)) + 25 else 0).

(** The bytes that can still be executed, with [rest] left of the current
    script. *)
Definition measure (vm : Engine) (rest : list Z) : Z :=
  len rest + total (skipn (Z.to_nat (vm_scriptIdx vm + 1)) (vm_scripts vm)) +
  pending vm (vm_scriptIdx vm).

(** The tokenizer stands in front of [rest]. *)
Definition at_rest (vm : Engine) (rest : list Z) : Prop := exists script pre pos o d,
  nth_error (vm_scripts vm) (Z.to_nat (vm_scriptIdx vm)) = Some script /\ script = pre ++ rest /\
  -1 <= pos < len pre /\ vm_tokenizer vm = tokenizerAt script (len pre) pos o d.

(** The first two scripts of a pay-to-script-hash input: only pushes, and then
    a hash of what was pushed. *)
Definition p2sh_ok (vm : Engine) (rest : list Z) : Prop :=
  e_bip16 (vm_env vm) = true ->
  (vm_scriptIdx vm = 0 ->
     vm_condStack vm = [] /\ push_rest rest /\ (stk (vm_dstack vm) <> [] \/ rest <> [])) /\
  (vm_scriptIdx vm = 1 ->
     vm_savedFirstStack vm <> [] \/
     (vm_condStack vm = [] /\ stk (vm_dstack vm) = [] /\ exists r, rest = OP_HASH160 :: r)).

Definition bigDepth : Z := 2 ^ 31 - 8.

Record running (vm : Engine) (rest : list Z) : Prop := {
  rn_safe : vm_safe crash bigDepth vm;
  rn_scripts : Forall item_ok (vm_scripts vm);
  rn_count : len (vm_scripts vm) = Z.max 2 (vm_scriptIdx vm + 1);
  rn_saved : Forall elem_ok (vm_savedFirstStack vm) /\ len (vm_savedFirstStack vm) <= MaxStackSize;
  rn_at : at_rest vm rest;
  rn_sig : sig_ok crash vm \/
    (vm_scriptIdx vm = 1 /\ e_bip16 (vm_env vm) = false /\ push_rest rest);
  rn_tap : inTaproot vm = false \/ (2 <= vm_scriptIdx vm /\ e_bip16 (vm_env vm) = false);
  rn_program : forall p, vm_witnessProgram vm = Some p -> bytes_ok p;
  rn_p2sh : crash \/ p2sh_ok vm rest
}.

(** ** The engine between two scripts *)

(** [vm_safe] without the current script. *)
Record vm_base (vm : Engine) : Prop := {
  vb_env : env_ok crash (vm_env vm);
  vb_dstack : Forall elem_ok (stk (vm_dstack vm)) /\ len (stk (vm_dstack vm)) <= bigDepth;
  vb_astack : stk (vm_astack vm) = [];
  vb_numOps : vm_numOps vm = 0;
  vb_tap : crash \/ inTaproot vm = false \/ e_hashCache (vm_env vm) <> None;
  vb_mode : inTaproot vm = true -> isWitnessVersionActive vm TaprootWitnessVersion = true;
  vb_program : forall p, vm_witnessProgram vm = Some p -> bytes_ok p
}.

(** What [finishScript] leaves, the program counter at the next script. *)
Record ready (vm : Engine) : Prop := {
  rd_base : vm_base vm;
  rd_cond : vm_condStack vm = [];
  rd_scripts : Forall item_ok (vm_scripts vm);
  rd_idx : 1 <= vm_scriptIdx vm;
  rd_count : vm_scriptIdx vm < len (vm_scripts vm) -> len (vm_scripts vm) = Z.max 2 (vm_scriptIdx vm + 1);
  rd_saved : Forall elem_ok (vm_savedFirstStack vm) /\ len (vm_savedFirstStack vm) <= MaxStackSize;
  rd_sig : vm_scriptIdx vm < len (vm_scripts vm) -> sig_ok crash vm;
  rd_tap : inTaproot vm = false \/ (2 <= vm_scriptIdx vm /\ e_bip16 (vm_env vm) = false);
  rd_p2sh : crash \/
    (e_bip16 (vm_env vm) = true -> vm_scriptIdx vm = 1 -> vm_savedFirstStack vm <> [])
}.

(** What can be executed from the program counter on. *)
Definition remaining (vm : Engine) : Z :=
  total (skipn (Z.to_nat (vm_scriptIdx vm)) (vm_scripts vm)) + pending vm (vm_scriptIdx vm).

(** ** Witness programs *)

Lemma AddOp_eq s o : len s + 1 <= MaxScriptSize -> AddOp (mkBuilder s false) o = mkBuilder (s ++ [o]) false.
Proof. intros H. unfold AddOp. cbn [sb_err sb_script]. decide_cmp. reflexivity. Qed.

Lemma payToPubKeyHashScript_eq p : len p = 20 ->
  payToPubKeyHashScript p = Ok ([OP_DUP; OP_HASH160; OP_DATA_20] ++ p ++ [OP_EQUALVERIFY; OP_CHECKSIG]).
Proof.
  intros Hp. unfold payToPubKeyHashScript.
  assert (E : AddData (AddOp (AddOp NewScriptBuilder OP_DUP) OP_HASH160) p
              = mkBuilder ([OP_DUP; OP_HASH160; OP_DATA_20] ++ p) false).
  { unfold AddData, canonicalDataSize, addData. rewrite Hp. reflexivity. }
  assert (Hl : len ([OP_DUP; OP_HASH160; OP_DATA_20] ++ p) = 23) by (rewrite len_app, Hp; reflexivity).
  rewrite E, AddOp_eq by (rewrite Hl; vm_compute; discriminate).
  rewrite AddOp_eq by (rewrite len_app, Hl; vm_compute; discriminate).
  cbn [sb_err sb_script]. now rewrite <- !app_assoc.
Qed.

Record extended (vm vm' : Engine) : Prop := {
  ex_base : vm_base vm';
  ex_env : vm_env vm' = vm_env vm;
  ex_idx : vm_scriptIdx vm' = vm_scriptIdx vm;
  ex_saved : vm_savedFirstStack vm' = vm_savedFirstStack vm;
  ex_cond : vm_condStack vm' = vm_condStack vm;
  ex_scripts : exists new, vm_scripts vm' = vm_scripts vm ++ new /\ Forall item_ok new /\
    len new <= 1 /\ total new <= total (input_witness (vm_env vm)) + 25 /\ (new <> [] -> sig_ok crash vm');
  ex_tap : inTaproot vm' = false \/ e_bip16 (vm_env vm) = false
}.

Lemma extended_same vm vm' : vm_base vm' -> vm_env vm' = vm_env vm ->
  vm_scriptIdx vm' = vm_scriptIdx vm -> vm_savedFirstStack vm' = vm_savedFirstStack vm ->
  vm_condStack vm' = vm_condStack vm -> vm_scripts vm' = vm_scripts vm ->
  inTaproot vm' = false \/ e_bip16 (vm_env vm) = false -> extended vm vm'.
Proof.
  intros. split; auto. exists []. rewrite app_nil_r. pose proof (total_nonneg (input_witness (vm_env vm))).
  repeat split; auto; [vm_compute; discriminate | cbn; lia | congruence].
Qed.

Lemma dstack_short vm : vm_base vm -> len (stk (vm_dstack vm)) < 2 ^ 31.
Proof. intros H. destruct (vb_dstack _ H) as [_ Hl]. unfold bigDepth in Hl. lia. Qed.

(** The next script on a stack from the witness. *)
Lemma runNext_ok vm vm0 script items :
  vm_base vm -> item_ok script -> Forall item_ok items -> len items <= bigDepth ->
  isWitnessVersionActive vm TaprootWitnessVersion = true \/
    isWitnessVersionActive vm BaseSegwitWitnessVersion = true ->
  vm_env vm = vm_env vm0 -> vm_scriptIdx vm = vm_scriptIdx vm0 ->
  vm_savedFirstStack vm = vm_savedFirstStack vm0 -> vm_condStack vm = vm_condStack vm0 ->
  vm_scripts vm = vm_scripts vm0 -> len script <= total (input_witness (vm_env vm0)) + 25 ->
  sig_ok crash vm -> inTaproot vm = false \/ e_bip16 (vm_env vm0) = false ->
  wp crash (checkWitnessStack (runNext vm script items)) (extended vm0).
Proof.
  intros Hb Hsc Hit Hn Hact He Hi Hsv Hcd Hscr Hlen Hsig Htap.
  assert (Hst : GetStack (runNext vm script items) = items).
  { unfold GetStack, runNext, SetStack. cbn [vm_dstack set_dstack set_scripts].
    rewrite setStack_eq by now apply dstack_short. rewrite getStack_eq; [reflexivity|].
    cbn [stk with_stk]. unfold bigDepth in Hn. lia. }
  unfold checkWitnessStack. rewrite Hst. apply wp_if; intros _; [exact I|].
  apply wp_if; intros Hel; [exact I|]. apply wp_ok.
  assert (Hact' : (isWitnessVersionActive (runNext vm script items) TaprootWitnessVersion ||
                  isWitnessVersionActive (runNext vm script items) BaseSegwitWitnessVersion) = true).
  { apply orb_true_iff. exact Hact. }
  rewrite Hact' in Hel. cbn [andb] in Hel. destruct Hb.
  unfold runNext, SetStack in *. split; cbn [vm_env vm_scriptIdx vm_savedFirstStack vm_condStack vm_scripts
    set_dstack set_scripts]; auto.
  - split; auto. split; cbn [vm_dstack set_dstack set_scripts]; rewrite setStack_eq
      by (unfold bigDepth in *; cbn [vm_dstack set_scripts]; lia); [|exact Hn].
    apply Forall_forall. intros x Hx. rewrite Forall_forall in Hit. destruct (Hit x Hx) as [Hbx _].
    split; [exact Hbx|]. destruct (Z.ltb_spec MaxScriptElementSize (len x)) as [Hgt|]; [|assumption].
    assert (existsb (fun x => MaxScriptElementSize <? len x) items = true); [|congruence].
    apply existsb_exists. exists x. split; [exact Hx | now apply Z.ltb_lt].
  - exists [script]. rewrite Hscr. split; [reflexivity|]. split; [auto|]. split; [vm_compute; discriminate|].
    split; [cbn; lia | intros _; exact Hsig].
Qed.

Lemma input_witness_ok e : env_ok crash e ->
  Forall item_ok (input_witness e) /\ len (input_witness e) < 2 ^ 31 - 16.
Proof.
  intros He. unfold input_witness. destruct (nth_error_in_range _ _ (eo_input _ _ He)) as (ti & E).
  rewrite (get_at_nth _ _ _ (proj1 (eo_input _ _ He)) E). apply nth_error_In in E.
  exact (eo_witness _ _ He ti E).
Qed.

Lemma checkScriptParses_wp v s : wp crash (checkScriptParses v s) (fun _ => True).
Proof. unfold checkScriptParses. destruct (tk_err _); exact I. Qed.

Section Witness.
Context (vm : Engine) (Hb : vm_base vm) (Htap : inTaproot vm = false).
Context (program : list Z) (Hprog : vm_witnessProgram vm = Some program).
Let witness := input_witness (vm_env vm).

Lemma verifyWitnessV0_wp : vm_witnessVersion vm = BaseSegwitWitnessVersion ->
  wp crash (verifyWitnessV0 program witness vm) (extended vm).
Proof.
  intros Hv. destruct (input_witness_ok _ (vb_env _ Hb)) as [Hw Hn]. fold witness in Hw, Hn.
  assert (Hact : isWitnessVersionActive vm BaseSegwitWitnessVersion = true).
  { unfold isWitnessVersionActive. rewrite Hprog, Hv. reflexivity. }
  assert (Hsig : sig_ok crash vm) by (right; right; now left).
  pose proof (total_nonneg witness). unfold bigDepth.
  unfold verifyWitnessV0. apply wp_if; intros E20.
  - apply Z.eqb_eq in E20. apply wp_if; intros _; [exact I|]. rewrite payToPubKeyHashScript_eq by exact E20.
    cbn [obind]. eapply wp_bind; [apply checkScriptParses_wp | intros _ _].
    assert (Hl : len ([OP_DUP; OP_HASH160; OP_DATA_20] ++ program ++ [OP_EQUALVERIFY; OP_CHECKSIG]) = 25)
      by (rewrite !len_app, E20; reflexivity).
    apply runNext_ok; auto; try (fold witness; lia).
    + split; [|lia]. apply bytes_ok_app. split; [bytes_lit|]. apply bytes_ok_app.
      split; [exact (vb_program _ Hb _ Hprog) | bytes_lit].
    + unfold bigDepth. lia.
  - apply wp_if; intros E32; [|exact I]. apply wp_if; intros E0; [exact I|]. apply Z.eqb_neq in E0.
    pose proof (len_nonneg witness).
    eapply wp_bind; [apply wp_get; lia | intros script Hsc]. cbv beta in Hsc.
    repeat (apply wp_if; intros _; [exact I|]). eapply wp_bind; [apply checkScriptParses_wp | intros _ _].
    eapply wp_bind; [apply wp_slice; lia | intros items [Hli Hincl]].
    pose proof (total_In _ _ Hsc).
    apply runNext_ok; auto; try (fold witness; lia).
    + rewrite Forall_forall in Hw. auto.
    + exact (incl_Forall _ _ _ Hincl Hw).
    + unfold bigDepth. lia.
Qed.

Lemma taproot_ctx_ok ctx : hasFlag vm ScriptVerifyTaproot = true ->
  isWitnessVersionActive vm TaprootWitnessVersion = true ->
  vm_base (set_taprootCtx vm (Some ctx)) /\ (crash \/ e_hashCache (vm_env vm) <> None).
Proof.
  intros Hf Hact. assert (Hm : crash \/ e_hashCache (vm_env vm) <> None).
  { apply Z.eqb_eq in Hf. destruct (eo_midstates _ _ (vb_env _ Hb)) as [H|[H|H]]; auto. }
  split; [|exact Hm]. destruct Hb. split; auto. cbn. tauto.
Qed.

Lemma verifyTapscript_wp ctx w : hasFlag vm ScriptVerifyTaproot = true ->
  vm_witnessVersion vm = TaprootWitnessVersion -> e_bip16 (vm_env vm) = false ->
  incl w witness -> 2 <= len w <= len witness ->
  wp crash (verifyTapscript program w ctx (set_taprootCtx vm (Some ctx))) (extended vm).
Proof.
  intros Hf Hv Hnp Hw Hlen. destruct (input_witness_ok _ (vb_env _ Hb)) as [Hall Hn]. fold witness in Hall, Hn.
  assert (Hact : isWitnessVersionActive vm TaprootWitnessVersion = true).
  { unfold isWitnessVersionActive. rewrite Hprog, Hv. reflexivity. }
  assert (Hsucc : forall ctx', extended vm (succeed (set_taprootCtx vm (Some ctx)) ctx')).
  { intros ctx'. unfold succeed. apply extended_same; auto. 
    apply (proj1 (taproot_ctx_ok (mkTapCtx (tc_annex ctx') (tc_codeSepPos ctx') (tc_tapLeafHash ctx')
      (tc_sigOpsBudget ctx') true) Hf Hact)). }
  unfold verifyTapscript. eapply wp_bind; [apply wp_get; lia | intros cb _].
  apply wp_bind with (R := fun _ => True).
  { unfold ParseControlBlock. repeat (apply wp_if; intros _; [exact I|]). cbv zeta.
    destruct (schnorr_ParsePubKey _); exact I. }
  intros c _. eapply wp_bind; [apply wp_get; lia | intros script Hsc]. cbv beta in Hsc.
  apply wp_bind with (R := fun _ => True).
  { unfold VerifyTaprootLeafCommitment, ComputeTaprootOutputKey. cbv zeta.
    destruct (schnorr_reparse (cb_InternalKey c)) as (k & ->). cbn [deref obind].
    repeat (apply wp_if; intros _; [exact I|]). exact I. }
  intros _ _. apply wp_if; intros _; [apply wp_if; intros _; [exact I | apply Hsucc]|].
  apply wp_if; intros _; [apply wp_if; intros _; [exact I | apply Hsucc]|].
  eapply wp_bind; [apply checkScriptParses_wp | intros _ _]. cbv zeta.
  eapply wp_bind; [apply wp_slice; lia | intros items [Hli Hincl]].
  pose proof (total_In _ _ (Hw _ Hsc)). rewrite Forall_forall in Hall.
  set (ctx' := mkTapCtx _ _ _ _ _). change (set_taprootCtx (set_taprootCtx vm (Some ctx)) (Some ctx'))
    with (set_taprootCtx vm (Some ctx')).
  apply runNext_ok; auto.
  - apply (taproot_ctx_ok ctx' Hf Hact).
  - apply Forall_forall. intros x Hx. auto.
  - unfold bigDepth. lia.
  - fold witness. lia.
  - right. right. now right.
Qed.

Lemma verifyTaproot_wp : vm_witnessVersion vm = TaprootWitnessVersion -> e_bip16 (vm_env vm) = false ->
  wp crash (verifyTaproot evict program witness vm) (extended vm).
Proof.
  intros Hv Hnp. assert (Hact : isWitnessVersionActive vm TaprootWitnessVersion = true).
  { unfold isWitnessVersionActive. rewrite Hprog, Hv. reflexivity. }
  unfold verifyTaproot. apply wp_if; intros Hf; [apply extended_same; auto|].
  apply negb_false_iff in Hf. apply wp_if; intros E0; [exact I|]. apply Z.eqb_neq in E0.
  pose proof (len_nonneg witness). cbv zeta. set (ctx := mkTapCtx _ _ _ _ _).
  apply wp_bind with (R := fun w => incl w witness /\ 1 <= len w <= len witness).
  { apply wp_if; intros Ha; [|split; [apply incl_refl | lia]].
    assert (H2 : 2 <= len witness).
    { unfold isAnnexedWitness in Ha. destruct (Z.ltb_spec (len witness) 2); [discriminate | assumption]. }
    eapply wp_weaken; [apply wp_slice; lia | intros w [Hl Hi]]. split; [exact Hi | lia]. }
  intros w [Hincl Hlw]. apply wp_if; intros E1.
  - eapply wp_bind; [apply wp_get; apply Z.eqb_eq in E1; lia | intros rawSig _].
    destruct (taproot_ctx_ok ctx Hf Hact) as [Hb' Hm].
    eapply wp_bind; [apply VerifyTaprootKeySpend_wp; [apply Hb' | exact Hm]|].
    intros vm' [c ->]. apply wp_ok. unfold succeed. apply extended_same; auto.
    set (ctx' := mkTapCtx _ _ _ _ true). destruct (proj1 (taproot_ctx_ok ctx' Hf Hact)). split; auto.
  - apply Z.eqb_neq in E1. apply verifyTapscript_wp; auto; lia.
Qed.
End Witness.

Lemma verifyWitnessProgram_wp vm : vm_base vm -> inTaproot vm = false ->
  wp crash (verifyWitnessProgram evict (input_witness (vm_env vm)) vm) (extended vm).
Proof.
  intros Hb Ht.
  assert (Hnone : wp crash (checkWitnessStack (set_witnessProgram vm None)) (extended vm)).
  { unfold checkWitnessStack. repeat (apply wp_if; intros _; [exact I|]). apply extended_same; auto.
    destruct Hb. split; auto; [|discriminate].
    intros H. change (inTaproot (set_witnessProgram vm None)) with (inTaproot vm) in H. congruence. }
  unfold verifyWitnessProgram. destruct (vm_witnessProgram vm) as [p|] eqn:Ep;
    [|apply wp_if; intros _; [exact I | exact Hnone]].
  apply wp_if; intros Ev; [apply Z.eqb_eq in Ev; now apply verifyWitnessV0_wp|].
  apply wp_if; intros Et; [|apply wp_if; intros _; [exact I | exact Hnone]].
  rewrite !andb_true_iff in Et. destruct Et as [[E1 _] E2]. apply Z.eqb_eq in E1.
  apply negb_true_iff in E2. now apply verifyTaproot_wp.
Qed.

(** ** The end of a script *)

Record finishing (vm : Engine) : Prop := {
  fi_base : vm_base vm;
  fi_cond : vm_condStack vm = [];
  fi_depth : len (stk (vm_dstack vm)) <= MaxStackSize;
  fi_scripts : Forall item_ok (vm_scripts vm);
  fi_idx : 0 <= vm_scriptIdx vm;
  fi_count : len (vm_scripts vm) = Z.max 2 (vm_scriptIdx vm + 1);
  fi_saved : Forall elem_ok (vm_savedFirstStack vm) /\ len (vm_savedFirstStack vm) <= MaxStackSize;
  fi_sig : sig_ok crash vm \/ (vm_scriptIdx vm = 1 /\ e_bip16 (vm_env vm) = false);
  fi_tap : inTaproot vm = false \/ (2 <= vm_scriptIdx vm /\ e_bip16 (vm_env vm) = false);
  fi_p2sh : crash \/ (e_bip16 (vm_env vm) = true ->
    (vm_scriptIdx vm = 0 -> stk (vm_dstack vm) <> []) /\
    (vm_scriptIdx vm = 1 -> vm_savedFirstStack vm <> []))
}.

Definition finished (vm vm' : Engine) : Prop :=
  ready vm' /\ vm_scriptIdx vm' = vm_scriptIdx vm + 1 /\ remaining vm' <= measure vm [].

Lemma pending_nonneg vm i : 0 <= pending vm i.
Proof.
  unfold pending, MaxScriptElementSize. pose proof (total_nonneg (input_witness (vm_env vm))).
  destruct (_ && (i <=? 1)), (isSome _ && _); lia.
Qed.

Lemma pending_next vm i : pending vm (i + 1) <= pending vm i.
Proof.
  unfold pending, MaxScriptElementSize. pose proof (total_nonneg (input_witness (vm_env vm))).
  destruct (e_bip16 (vm_env vm)), (isSome (vm_witnessProgram vm)); cbn [andb];
    destruct (Z.leb_spec (i + 1) 1), (Z.leb_spec i 1), (Z.leb_spec (i + 1) 2), (Z.leb_spec i 2);
    cbn [andb orb]; lia.
Qed.

Lemma CheckErrorCondition_wp fin vm n : limited n (vm_dstack vm) -> n < 2 ^ 31 ->
  wp crash (CheckErrorCondition fin vm) (fun vm' => exists s, vm' = set_dstack vm s /\ limited n s).
Proof.
  intros Hl Hn. unfold CheckErrorCondition.
  destruct (match vm_taprootCtx vm with Some ctx => tc_mustSucceed ctx | None => false end).
  { exists (vm_dstack vm). split; [now destruct vm | exact Hl]. }
  repeat (apply wp_if; intros _; [exact I|]).
  eapply wp_bind; [apply PopBool_wp; eassumption | intros [b s] Hs]. cbn [snd] in Hs.
  destruct b; [|exact I]. exists s. split; [reflexivity | eapply limited_weaken; [exact Hs | lia]].
Qed.

Section Finish.
Context (vm : Engine) (Hf : finishing vm).

Lemma base_next : vm_base (nextScript vm).
Proof. destruct (fi_base _ Hf). split; auto. Qed.

Lemma default_ready : vm_scriptIdx vm <> 0 \/ e_bip16 (vm_env vm) = false -> finished vm (nextScript vm).
Proof.
  intros Hd. pose proof base_next. destruct Hf. split; [|split; [reflexivity|]].
  - split; auto; cbn [nextScript vm_scriptIdx set_scriptIdx vm_scripts].
    + lia.
    + intros Hlt. lia.
    + intros Hlt. destruct fi_sig0 as [Hs|[H1 _]]; [exact Hs | lia].
    + destruct fi_tap0 as [|[]]; [now left | right; split; [lia | assumption]].
    + destruct fi_p2sh0 as [|Hp]; [now left | right]. intros Hb Hi. destruct Hd as [Hd|Hd]; [lia|].
      cbn in Hb. congruence.
  - unfold remaining, measure. change (len (@nil Z)) with 0. cbn [nextScript set_scriptIdx vm_scriptIdx vm_scripts].
    pose proof (pending_next vm (vm_scriptIdx vm)) as Hp.
    change (pending _ (vm_scriptIdx vm + 1)) with (pending vm (vm_scriptIdx vm + 1)). lia.
Qed.

Lemma saved_ready : vm_scriptIdx vm = 0 ->
  finished vm (set_savedFirstStack (nextScript vm) (GetStack (nextScript vm))).
Proof.
  intros Hi. assert (Hg : GetStack (nextScript vm) = stk (vm_dstack vm)).
  { apply getStack_eq, dstack_short, Hf. }
  rewrite Hg. pose proof base_next as [? [? ?] ? ? ? ? ?]. destruct Hf. split; [|split; [reflexivity|]].
  - split; auto; cbn [nextScript vm_scriptIdx set_scriptIdx set_savedFirstStack vm_scripts vm_savedFirstStack].
    + split; auto.
    + lia.
    + intros _. lia.
    + intros _. destruct fi_sig0 as [Hs|[H1 _]]; [exact Hs | lia].
    + destruct fi_tap0 as [|[]]; [now left | right; split; [lia | assumption]].
    + destruct fi_p2sh0 as [|Hp]; [now left | right]. intros Hb _. now apply (Hp Hb).
  - unfold remaining, measure. change (len (@nil Z)) with 0.
    cbn [nextScript set_scriptIdx set_savedFirstStack vm_scriptIdx vm_scripts].
    pose proof (pending_next vm (vm_scriptIdx vm)) as Hp.
    change (pending _ (vm_scriptIdx vm + 1)) with (pending vm (vm_scriptIdx vm + 1)). lia.
Qed.

Lemma skipn_all_app {A} (l l' : list A) n : Z.to_nat n = List.length l -> skipn (Z.to_nat n) (l ++ l') = l'.
Proof. intros ->. now rewrite skipn_app, skipn_all, Nat.sub_diag. Qed.

Lemma wp_get_any {E A} (l : list A) i : crash \/ 0 <= i < len l ->
  wp crash (@get_at E A l i) (fun x => In x l).
Proof.
  intros [Hc|Hi]; [|now apply wp_get]. unfold get_at. destruct (0 <=? i); [|exact Hc].
  destruct (nth_error l (Z.to_nat i)) eqn:En; [|exact Hc]. exact (nth_error_In _ _ En).
Qed.

Lemma redeem_ready s : vm_scriptIdx vm = 1 -> e_bip16 (vm_env vm) = true -> limited bigDepth s ->
  wp crash
    (let* script := get_at (vm_savedFirstStack vm) (len (vm_savedFirstStack vm) - 1) in
     let* _ := checkScriptParses (e_version (vm_env vm)) script in
     let* rest := slice (vm_savedFirstStack vm) 0 (len (vm_savedFirstStack vm) - 1) in
     Ok (SetStack (set_scripts (set_dstack (nextScript vm) s) (vm_scripts vm ++ [script])) rest))
    (finished vm).
Proof.
  intros Hi Hb [Hse Hsl]. pose proof base_next as [? ? ? ? ? ? ?]. destruct Hf.
  destruct fi_saved0 as [Hsv Hsn]. set (saved := vm_savedFirstStack vm) in *.
  eapply wp_bind; [apply wp_get_any | intros script Hsc].
  { destruct fi_p2sh0 as [|Hp]; [now left | right]. destruct (Hp Hb) as [_ H1]. specialize (H1 Hi).
    destruct saved; [congruence|]. rewrite len_cons. pose proof (len_nonneg saved). lia. }
  eapply wp_bind; [apply checkScriptParses_wp | intros _ _].
  assert (1 <= len saved) by (destruct saved; [destruct Hsc | rewrite len_cons; pose proof (len_nonneg saved); lia]).
  eapply wp_bind; [apply wp_slice; lia | intros rest [Hrl Hri]]. apply wp_ok.
  assert (Hso : elem_ok script) by (rewrite Forall_forall in Hsv; auto).
  assert (Hit : item_ok script) by (destruct Hso; split; [assumption | unfold MaxScriptElementSize in *; lia]).
  unfold SetStack. cbn [vm_dstack set_scripts set_dstack].
  rewrite setStack_eq by (unfold bigDepth in Hsl; lia). split; [|split; [reflexivity|]].
  - split; auto.
    + split; auto. cbn. split; [exact (incl_Forall _ _ _ Hri Hsv) | unfold bigDepth, MaxStackSize in *; lia].
    + cbn. apply Forall_app. auto.
    + cbn. lia.
    + cbn. rewrite len_app. intros _. change (len [script]) with 1. lia.
    + intros _. destruct fi_sig0 as [Hs|[_ Hn]]; [exact Hs | congruence].
    + cbn. destruct fi_tap0 as [|[]]; [now left | congruence].
    + right. cbn. intros _ H2. lia.
  - unfold remaining, measure. cbn [vm_scriptIdx vm_scripts set_dstack set_scripts nextScript set_scriptIdx].
    rewrite skipn_all_app by (unfold len in *; lia).
    rewrite skipn_all2 by (unfold len in *; lia).
    change (pending _ (vm_scriptIdx vm + 1)) with (pending vm (vm_scriptIdx vm + 1)).
    destruct Hso as [_ Hl520]. unfold pending. rewrite Hi, Hb.
    change (1 + 1 <=? 1) with false. change (1 <=? 1) with true. change (1 + 1 <=? 2) with true.
    change (1 <=? 2) with true. cbn [andb orb total fold_right]. rewrite !andb_true_r.
    change (len (@nil Z)) with 0. lia.
Qed.

Lemma witness_ready vm' : isSome (vm_witnessProgram vm) = true ->
  (vm_scriptIdx vm = 1 /\ e_bip16 (vm_env vm) = false) \/ (vm_scriptIdx vm = 2 /\ e_bip16 (vm_env vm) = true) ->
  extended (nextScript vm) vm' -> finished vm vm'.
Proof.
  intros Hsome Hcase [He1 He2 He3 He4 He5 (new & Hn1 & Hn2 & Hn3 & Hn4 & Hn5) He7]. destruct Hf.
  cbn [nextScript vm_env vm_scriptIdx vm_savedFirstStack vm_condStack vm_scripts set_scriptIdx] in *.
  assert (Hlen : len (vm_scripts vm) = vm_scriptIdx vm + 1) by (destruct Hcase as [[]|[]]; lia).
  assert (Hlen' : len (vm_scripts vm') = vm_scriptIdx vm + 1 + len new) by (rewrite Hn1, len_app; lia).
  split; [|split; [exact He3|]].
  - split; auto; rewrite ?He2, ?He3, ?He4, ?He5; auto.
    + rewrite Hn1. apply Forall_app. auto.
    + lia.
    + rewrite Hlen'. intros Hlt. destruct Hcase as [[]|[]]; lia.
    + rewrite Hlen'. intros Hlt. apply Hn5. intros ->. change (len (@nil (list Z))) with 0 in Hlt. lia.
    + destruct He7; [now left | right]. split; [|assumption]. destruct Hcase as [[]|[]]; lia.
    + right. intros Hb Hi. destruct Hcase as [[]|[]]; [congruence | lia].
  - unfold remaining, measure. rewrite He3, Hn1. rewrite skipn_all_app by (unfold len in *; lia).
    rewrite skipn_all2 by (unfold len in *; lia). change (len (@nil Z)) with 0.
    change (total (@nil (list Z))) with 0.
    unfold pending. rewrite He2, Hsome. destruct Hcase as [[-> ->]|[-> ->]]; cbn [andb].
    + change (1 + 1 <=? 1) with false. change (1 + 1 <=? 2) with true. change (1 <=? 1) with true.
      cbn [andb orb]. rewrite !andb_false_r. lia.
    + change (2 + 1 <=? 1) with false. change (2 + 1 <=? 2) with false. change (2 <=? 1) with false.
      change (2 <=? 2) with true. cbn [andb orb]. rewrite !andb_false_r. lia.
Qed.

Lemma finishScript_wp : wp crash (finishScript evict vm) (finished vm).
Proof.
  unfold finishScript. cbv zeta. apply wp_if; intros E0.
  { apply andb_true_iff in E0. destruct E0 as [E0 Eb]. apply Z.eqb_eq in E0. now apply saved_ready. }
  apply wp_if; intros E1.
  { apply andb_true_iff in E1. destruct E1 as [E1 Eb]. apply Z.eqb_eq in E1.
    eapply wp_bind.
    - apply (CheckErrorCondition_wp false (nextScript vm) bigDepth); [exact (vb_dstack _ (fi_base _ Hf)) | reflexivity].
    - intros vm1 (s & -> & Hs). exact (redeem_ready s E1 Eb Hs). }
  apply wp_if; intros E2.
  - assert (Hw : isSome (vm_witnessProgram vm) = true /\
      ((vm_scriptIdx vm = 1 /\ e_bip16 (vm_env vm) = false) \/
       (vm_scriptIdx vm = 2 /\ e_bip16 (vm_env vm) = true))).
    { rewrite orb_true_iff, !andb_true_iff, !Z.eqb_eq in E2.
      apply andb_false_iff in E1. rewrite Z.eqb_neq in E1. intuition auto; congruence. }
    destruct Hw as [Hsome Hcase]. pose proof base_next as Hb. destruct (vb_env _ Hb).
    destruct (nth_error_in_range _ _ eo_input) as (ti & Et).
    cbn [nextScript vm_env set_scriptIdx] in *.
    rewrite (get_at_nth _ _ _ (proj1 eo_input) Et). cbn [obind].
    assert (Hwit : wit_items (ti_Witness ti) = input_witness (vm_env (nextScript vm))).
    { unfold input_witness. cbn [nextScript vm_env set_scriptIdx].
      now rewrite (get_at_nth _ _ _ (proj1 eo_input) Et). }
    rewrite Hwit. eapply wp_weaken; [apply verifyWitnessProgram_wp; [exact Hb|] | intros vm'; now apply witness_ready].
    destruct (fi_tap _ Hf) as [|[H2 Hnb]]; [assumption|]. destruct Hcase as [[]|[]]; [lia | congruence].
  - apply default_ready. apply andb_false_iff in E0. rewrite Z.eqb_neq in E0. exact E0.
Qed.
End Finish.

(** ** One step *)

Lemma PushInt_nonempty s v s' : PushInt s v = Ok s' -> stk s' <> [].
Proof.
  unfold PushInt. intros H. apply obind_Ok in H. destruct H as (x & _ & H). injection H as <-.
  cbn [PushByteArray with_stk stk]. intros E. now apply app_eq_nil in E.
Qed.

(** An opcode that pushes leaves something on the stack and no open branch. *)
Lemma push_executed o data vm vm' : 0 <= o <= OP_16 -> vm_condStack vm = [] ->
  executeOpcode evict o data vm = Ok vm' -> vm_condStack vm' = [] /\ stk (vm_dstack vm') <> [].
Proof.
  intros Ho Hc. unfold executeOpcode. destruct (isOpcodeDisabled o); [discriminate|].
  destruct (isOpcodeAlwaysIllegal o); [discriminate|]. unfold OP_16 in Ho. change OP_16 with 96 in *.
  replace (96 <? o) with false by (symmetry; apply Z.ltb_ge; lia). rewrite andb_false_r.
  destruct (_ <? _); cbn [obind]; [discriminate|]. unfold isBranchExecuting at 1. rewrite Hc. cbn [negb andb].
  intros H. apply obind_Ok in H. destruct H as (u & _ & H). revert H.
  assert (Hpush : forall v, dstackOp (fun s => PushInt s v) vm = Ok vm' ->
            vm_condStack vm' = [] /\ stk (vm_dstack vm') <> []).
  { intros v H. apply obind_Ok in H. destruct H as (s & Hs & H). injection H as <-.
    split; [exact Hc | exact (PushInt_nonempty _ _ _ Hs)]. }
  assert (Hbytes : forall x, Ok (set_dstack vm (PushByteArray (vm_dstack vm) x)) = @Ok scriptErr _ vm' ->
            vm_condStack vm' = [] /\ stk (vm_dstack vm') <> []).
  { intros x H. injection H as <-. split; [exact Hc|]. cbn. intros E. now apply app_eq_nil in E. }
  destruct (Z.eq_dec o 0) as [->|H0]; [exact (Hbytes [])|].
  destruct (Z.eq_dec o 79) as [->|H79]; [exact (Hpush (-1))|].
  destruct (Z.eq_dec o 80) as [->|H80]; [discriminate|].
  unfold opfunc. destruct ((OP_DATA_1 <=? o) && (o <=? OP_PUSHDATA4)) eqn:E1; [exact (Hbytes data)|].
  destruct ((OP_1 <=? o) && (o <=? OP_16)) eqn:E2; [exact (Hpush (u8 (o - (OP_1 - 1))))|].
  apply andb_false_iff in E1, E2. rewrite !Z.leb_gt in E1, E2. unfold OP_DATA_1, OP_PUSHDATA4, OP_1, OP_16 in *. lia.
Qed.

(** Hashing the top of an empty stack fails. *)
Lemma hash_empty vm vm' : vm_condStack vm = [] -> stk (vm_dstack vm) = [] ->
  executeOpcode evict OP_HASH160 [] vm <> Ok vm'.
Proof.
  intros Hc Hd. unfold executeOpcode. change (isOpcodeDisabled OP_HASH160) with false.
  change (isOpcodeAlwaysIllegal OP_HASH160) with false. cbv iota.
  assert (Hpop : forall vm1, stk (vm_dstack vm1) = [] -> opfunc evict OP_HASH160 OP_HASH160 [] vm1 <> Ok vm').
  { intros vm1 E. change (opfunc evict OP_HASH160 OP_HASH160 [] vm1) with (opcodeHash160 OP_HASH160 [] vm1).
    unfold opcodeHash160, hashTop, dstackOp. rewrite <- (restack_items (vm_dstack vm1)).
    unfold items. rewrite E. cbn [rev]. rewrite Pop_restack_nil. discriminate. }
  assert (Hrun : forall vm1, vm_condStack vm1 = [] -> stk (vm_dstack vm1) = [] ->
    (if negb (isBranchExecuting vm1) && negb (isOpcodeConditional OP_HASH160) then Ok vm1
     else let* _ := if verifyMinimalData (vm_dstack vm1) && isBranchExecuting vm1 &&
                      (0 <=? OP_HASH160) && (OP_HASH160 <=? OP_PUSHDATA4)
                    then checkMinimalDataPush OP_HASH160 [] else Ok tt in
          opfunc evict OP_HASH160 OP_HASH160 [] vm1) <> Ok vm').
  { intros vm1 E1 E2. unfold isBranchExecuting at 1. rewrite E1. cbn [negb andb].
    change (OP_HASH160 <=? OP_PUSHDATA4) with false. rewrite andb_false_r. cbn [obind]. now apply Hpop. }
  destruct (negb (inTaproot vm) && (OP_16 <? OP_HASH160)).
  - cbv zeta. destruct (_ <? _); cbn [obind]; [discriminate|]. now apply Hrun.
  - change (MaxScriptElementSize <? len (@nil Z)) with false. cbn [obind]. now apply Hrun.
Qed.

(** The engine with the tokenizer behind the next opcode. *)
Lemma next_token vm rest t : running vm rest -> Next (vm_tokenizer vm) = (true, t) ->
  exists k post, token_ok k /\ rest = raw k ++ post /\ tk_op t = tok_op k /\ tk_data t = tok_data k /\
    vm_safe crash bigDepth (set_tokenizer vm t) /\ at_rest (set_tokenizer vm t) post /\
    Done t = (len post =? 0).
Proof.
  intros Hr En. destruct (rn_at _ _ Hr) as (script & pre & pos & o & d & Hs & Hp & Hpos & Ht).
  assert (Hit : item_ok script).
  { pose proof (rn_scripts _ _ Hr) as H. rewrite Forall_forall in H. apply H. eapply nth_error_In; eassumption. }
  destruct Hit as [Hb Hl]. rewrite Ht in En.
  destruct (Next_true_inv script pre rest pos o d t Hb Hl Hp Hpos En) as (k & post & Hk & Hrest & ->).
  exists k, post. split; [exact Hk|]. split; [exact Hrest|]. split; [reflexivity|]. split; [reflexivity|].
  pose proof (len_nonneg pre). pose proof (raw_nonempty k). pose proof (len_nonneg post).
  assert (Hlen : len script = len (pre ++ raw k) + len post) by (rewrite Hp, Hrest, !len_app; lia).
  split; [|split].
  - destruct (rn_safe _ _ Hr). split; auto. destruct vs_script as (script' & Hi & E & Hb' & Hsep & _).
    exists script'. rewrite Hs in E. injection E as <-. cbn. rewrite len_app in *. repeat split; auto; lia.
  - exists script, (pre ++ raw k), (pos + 1), (tok_op k), (tok_data k). split; [exact Hs|].
    split; [now rewrite <- app_assoc, <- Hrest|]. split; [rewrite len_app; lia | reflexivity].
  - unfold Done, tokenizerAt. cbn [tk_err tk_script tk_offset]. rewrite script_i32 by exact Hl. rewrite Hlen.
    destruct (Z.eqb_spec (len post) 0); [apply Z.leb_le; lia | apply Z.leb_gt; lia].
Qed.

Lemma no_data k : token_ok k -> OP_16 < tok_op k -> tok_data k = [].
Proof.
  intros (_ & _ & Hd) Ho. unfold dataLen_ok, OP_DATA_1, OP_DATA_75, OP_PUSHDATA1, OP_PUSHDATA2,
    OP_PUSHDATA4, OP_16 in *. revert Hd. decide_cmp. rewrite andb_false_r. intros Hd.
  destruct (tok_data k) as [|x l]; [reflexivity|]. rewrite len_cons in Hd. pose proof (len_nonneg l). lia.
Qed.

(** Executing one opcode. *)
Record executed (vm : Engine) (k : token) (post : list Z) (vm' : Engine) : Prop := {
  xc_safe : vm_safe crash MaxStackSize vm';
  xc_frame : same_frame vm vm';
  xc_at : at_rest vm' post;
  xc_p2sh : crash \/ (e_bip16 (vm_env vm') = true ->
    (vm_scriptIdx vm' = 0 -> vm_condStack vm' = [] /\ push_rest post /\ stk (vm_dstack vm') <> []) /\
    (vm_scriptIdx vm' = 1 -> vm_savedFirstStack vm' <> []))
}.

Lemma depth_checked vm : vm_safe crash (bigDepth + 3) vm ->
  (MaxStackSize <? i32 (Depth (vm_dstack vm) + Depth (vm_astack vm))) = false ->
  vm_safe crash MaxStackSize vm.
Proof.
  intros [] H. unfold Depth in H. pose proof (len_nonneg (stk (vm_dstack vm))).
  pose proof (len_nonneg (stk (vm_astack vm))). unfold bigDepth in vs_depth.
  rewrite !i32_id in H by (unfold is_i32; rewrite ?i32_id by (unfold is_i32; lia); lia).
  apply Z.ltb_ge in H. split; auto.
Qed.

Lemma execute_wp vm rest t : running vm rest -> Next (vm_tokenizer vm) = (true, t) ->
  exists k post, token_ok k /\ rest = raw k ++ post /\ Done t = (len post =? 0) /\
    wp crash (executeOpcode evict (tk_op t) (tk_data t) (set_tokenizer vm t)) (fun vm' =>
      (MaxStackSize <? i32 (Depth (vm_dstack vm') + Depth (vm_astack vm'))) = false ->
      executed (set_tokenizer vm t) k post vm').
Proof.
  intros Hr En. destruct (next_token vm rest t Hr En) as (k & post & Hk & Hrest & Eo & Ed & Hs & Ha & Hdone).
  exists k, post. split; [exact Hk|]. split; [exact Hrest|]. split; [exact Hdone|]. rewrite Eo, Ed.
  assert (Hsig : sig_ok crash (set_tokenizer vm t) \/ tok_op k <= OP_16).
  { destruct (rn_sig _ _ Hr) as [H|(_ & _ & H)]; [now left | right]. rewrite Hrest in H.
    now apply push_rest_next in H. }
  pose proof (executeOpcode_wp evict crash (tok_op k) (tok_data k) (set_tokenizer vm t) bigDepth Hs
    ltac:(reflexivity) (proj1 (proj2 Hk)) (no_data k Hk) Hsig) as Hwp.
  destruct (executeOpcode _ _ _ _) as [vm'|e|] eqn:Ex; cbn [wp] in *; auto.
  intros Hdepth. destruct Hwp as [Hs' Hf]. split; [now apply depth_checked | exact Hf | |].
  - destruct Ha as (script & pre & pos & o & d & H1 & H2 & H3 & H4).
    exists script, pre, pos, o, d. rewrite (sf_scripts _ _ Hf), (sf_scriptIdx _ _ Hf), (sf_tokenizer _ _ Hf). auto.
  - destruct (rn_p2sh _ _ Hr) as [Hc|Hp]; [now left | right]. rewrite (sf_env _ _ Hf), (sf_scriptIdx _ _ Hf), (sf_saved _ _ Hf).
    intros Hb. destruct (Hp Hb) as [H0 H1]. split.
    + intros Hi. destruct (H0 Hi) as (Hc & Hpush & _). rewrite Hrest in Hpush.
      destruct (push_rest_next k post Hk Hpush) as [Hle Hpost].
      assert (0 <= tok_op k) by (destruct Hk as [Ho _]; unfold is_byte in Ho; lia).
      destruct (push_executed (tok_op k) (tok_data k) (set_tokenizer vm t) vm') as [Hc' Hd']; auto.
    + intros Hi. destruct (H1 Hi) as [Hsv|(Hc & Hd & r & Hr')]; [exact Hsv|]. exfalso.
      rewrite Hrest in Hr'. unfold raw in Hr'. cbn [app] in Hr'. injection Hr' as Hop _.
      rewrite (no_data k Hk) in Ex by (rewrite Hop; reflexivity). rewrite Hop in Ex.
      exact (hash_empty (set_tokenizer vm t) vm' Hc Hd Ex).
Qed.

(** The engine when the last opcode of a script has been executed. *)
Lemma executed_finishing vm rest t k vm' : running vm rest -> executed (set_tokenizer vm t) k [] vm' ->
  vm_condStack vm' = [] ->
  finishing (set_opcodeIdx (set_numOps (set_astack (set_opcodeIdx vm' (vm_opcodeIdx vm' + 1))
    (with_stk (vm_astack vm') [])) 0) 0).
Proof.
  intros Hr [Hs Hf Ha Hp] Hc. destruct Hs, Hf. cbn [vm_env vm_scripts vm_scriptIdx vm_savedFirstStack
    vm_witnessVersion vm_witnessProgram set_tokenizer] in *.
  pose proof (len_nonneg (stk (vm_astack vm'))). pose proof (len_nonneg (stk (vm_dstack vm'))).
  destruct Hr. destruct vs_script as (script & Hidx & _).
  split; cbn [vm_env vm_scripts vm_scriptIdx vm_savedFirstStack vm_condStack vm_dstack
    set_opcodeIdx set_numOps set_astack]; rewrite ?sf_env, ?sf_scripts, ?sf_scriptIdx, ?sf_saved; auto.
  - split; auto.
    + split; [exact vs_dstack | unfold bigDepth, MaxStackSize in *; cbn; lia].
    + cbn. rewrite sf_program. exact rn_program0.
  - lia.
  - rewrite sf_scriptIdx in Hidx. exact Hidx.
  - destruct rn_sig0 as [H1|(H1 & H2 & _)]; [left | right; auto]. unfold sig_ok in *. cbn.
    rewrite sf_program, sf_version. 
    change (inTaproot (set_opcodeIdx (set_numOps (set_astack (set_opcodeIdx vm' (vm_opcodeIdx vm' + 1))
      (with_stk (vm_astack vm') [])) 0) 0)) with (inTaproot vm'). rewrite sf_tap. exact H1.
  - change (inTaproot (set_opcodeIdx _ _)) with (inTaproot vm'). rewrite sf_tap. exact rn_tap0.
  - destruct Hp as [|Hp]; [now left | right]. rewrite sf_env in Hp. intros Hb.
    destruct (Hp Hb) as [H1 H2]. rewrite sf_scriptIdx in *. rewrite sf_saved in H2.
    split; [intros Hi; now apply H1 | exact H2].
Qed.

Lemma ready_skip vm : ready vm -> vm_scriptIdx vm < len (vm_scripts vm) ->
  ready (nextScript vm) /\ remaining (nextScript vm) <= remaining vm.
Proof.
  intros [] Hlt. specialize (rd_count0 Hlt). split.
  - assert (vm_base (nextScript vm)) by (destruct rd_base0; split; auto).
    split; auto; cbn [nextScript vm_scriptIdx vm_scripts set_scriptIdx]; try lia.
    + destruct rd_tap0 as [|[]]; [now left | right; split; [lia | assumption]].
  - unfold remaining. cbn [nextScript vm_scriptIdx vm_scripts set_scriptIdx].
    change (pending _ (vm_scriptIdx vm + 1)) with (pending vm (vm_scriptIdx vm + 1)).
    pose proof (pending_next vm (vm_scriptIdx vm)).
    rewrite (skipn_all2 (vm_scripts vm)) by (unfold len in *; lia).
    pose proof (total_nonneg (skipn (Z.to_nat (vm_scriptIdx vm)) (vm_scripts vm))). cbn [total fold_right]. lia.
Qed.

Lemma start_script vm script : ready vm ->
  nth_error (vm_scripts vm) (Z.to_nat (vm_scriptIdx vm)) = Some script ->
  let vm' := set_tokenizer (set_lastCodeSep vm 0) (MakeScriptTokenizer 0 script) in
  running vm' script /\ measure vm' script = remaining vm.
Proof.
  intros [] Hn vm'. assert (Hlt : vm_scriptIdx vm < len (vm_scripts vm)).
  { pose proof (nth_error_Some (vm_scripts vm) (Z.to_nat (vm_scriptIdx vm))) as H. rewrite Hn in H.
    unfold len. assert (Z.to_nat (vm_scriptIdx vm) < List.length (vm_scripts vm))%nat by (apply H; discriminate). lia. }
  assert (Hit : item_ok script).
  { rewrite Forall_forall in rd_scripts0. apply rd_scripts0. eapply nth_error_In; eassumption. }
  destruct rd_base0, vb_dstack0 as [Hd Hdl]. pose proof (len_nonneg script). split.
  - split; auto.
    + split; auto; cbn.
      * rewrite vb_astack0. constructor.
      * rewrite vb_astack0. change (len (@nil (list Z))) with 0. lia.
      * rewrite vb_numOps0. unfold MaxOpsPerScript. lia.
      * exists script. destruct Hit. repeat split; auto; lia.
    + exists script, [], (-1), OP_INVALIDOPCODE, []. cbn. repeat split; auto; lia.
    + destruct rd_p2sh0 as [|Hp]; [now left | right]. intros Hb. cbn in *.
      split; [intros Hi; lia | intros Hi; left; now apply Hp].
  - unfold measure, remaining. cbn [vm_scriptIdx vm_scripts vm' set_tokenizer set_lastCodeSep].
    change (pending vm' (vm_scriptIdx vm)) with (pending vm (vm_scriptIdx vm)).
    rewrite (skipn_cons_nth_error _ _ _ Hn). cbn [total fold_right].
    replace (S (Z.to_nat (vm_scriptIdx vm))) with (Z.to_nat (vm_scriptIdx vm + 1)) by lia.
    fold (total (skipn (Z.to_nat (vm_scriptIdx vm + 1)) (vm_scripts vm))). lia.
Qed.

(** What a step does: it ends the execution, or leaves less to execute. *)
Definition progress (vm : Engine) (rest : list Z) (p : bool * Engine) : Prop :=
  if fst p then limited bigDepth (vm_dstack (snd p))
  else exists rest', running (snd p) rest' /\ measure (snd p) rest' < measure vm rest /\
         (vm_scriptIdx (snd p) = vm_scriptIdx vm -> vm_safe crash MaxStackSize (snd p)).

(** The part of [Step] behind [finishScript]. *)
Lemma step_next vm0 rest vm : ready vm -> vm_scriptIdx vm0 < vm_scriptIdx vm ->
  remaining vm < measure vm0 rest -> e_version (vm_env vm) = 0 ->
  let vm' := if (vm_scriptIdx vm <? len (vm_scripts vm)) &&
                (len (nth (Z.to_nat (vm_scriptIdx vm)) (vm_scripts vm) []) =? 0)
             then nextScript vm else vm in
  let vm' := set_lastCodeSep vm' 0 in
  wp crash
    (if len (vm_scripts vm') <=? vm_scriptIdx vm' then Ok (true, vm')
     else
       let* script := get_at (vm_scripts vm') (vm_scriptIdx vm') in
       @Ok scriptErr _ (false, set_tokenizer vm' (MakeScriptTokenizer (e_version (vm_env vm')) script)))
    (progress vm0 rest).
Proof.
  intros Hr Hi Hm Hv.
  assert (Hgen : forall vm1, ready vm1 -> vm_scriptIdx vm0 < vm_scriptIdx vm1 ->
    remaining vm1 < measure vm0 rest -> e_version (vm_env vm1) = 0 ->
    wp crash (let vm' := set_lastCodeSep vm1 0 in
     if len (vm_scripts vm') <=? vm_scriptIdx vm' then Ok (true, vm')
     else
       let* script := get_at (vm_scripts vm') (vm_scriptIdx vm') in
       @Ok scriptErr _ (false, set_tokenizer vm' (MakeScriptTokenizer (e_version (vm_env vm')) script)))
    (progress vm0 rest)).
  { clear. intros vm Hr Hi Hm Hv. cbn [vm_scripts vm_scriptIdx set_lastCodeSep vm_env].
    apply wp_if; intros E; [exact (vb_dstack _ (rd_base _ Hr))|]. apply Z.leb_gt in E.
    pose proof (rd_idx _ Hr).
    destruct (nth_error_in_range (vm_scripts vm) (vm_scriptIdx vm) ltac:(lia)) as (script & Es).
    rewrite (get_at_nth (vm_scripts vm) (vm_scriptIdx vm) script ltac:(lia) Es).
    cbn [obind]. rewrite Hv. cbn [wp fst snd].
    destruct (start_script vm script Hr Es) as [H1 H2].
    exists script. cbv zeta in H1, H2. cbn [snd]. split; [exact H1|].
    split; [rewrite H2; exact Hm | intros H3; cbn in H3; lia]. }
  cbv zeta. destruct (_ && _) eqn:E; [|now apply Hgen].
  apply andb_true_iff in E. destruct E as [E _]. apply Z.ltb_lt in E.
  destruct (ready_skip vm Hr E) as [Hr' Hle]. apply (Hgen _ Hr'); [cbn; lia | lia | exact Hv].
Qed.

Lemma step_measure vm t vm' rest k post : same_frame (set_tokenizer vm t) vm' -> rest = raw k ++ post ->
  measure vm' post < measure vm rest.
Proof.
  intros [He Hsc Hi _ _ _ Hpr _] Hrest. cbn [set_tokenizer vm_env vm_scripts vm_scriptIdx vm_witnessProgram] in *.
  unfold measure, pending. rewrite He, Hsc, Hi, Hpr, Hrest, len_app. pose proof (raw_nonempty k). lia.
Qed.

(** An opcode that is not the last one of its script. *)
Lemma step_within vm rest t k post vm' i : running vm rest -> token_ok k -> rest = raw k ++ post ->
  executed (set_tokenizer vm t) k post vm' ->
  progress vm rest (false, set_opcodeIdx vm' i).
Proof.
  intros Hr Hk Hrest Hx. pose proof (step_measure vm t vm' rest k post (xc_frame _ _ _ _ Hx) Hrest) as Hm.
  destruct Hx as [Hs Hf Ha Hp]. assert (Hs' : vm_safe crash MaxStackSize (set_opcodeIdx vm' i)) by (destruct Hs; split; auto).
  destruct Hf as [He Hsc Hi Ht Hsv Hver Hpr Htap], Hr.
  cbn [set_tokenizer vm_env vm_scripts vm_scriptIdx vm_savedFirstStack vm_witnessVersion vm_witnessProgram vm_tokenizer] in *.
  exists post. split; [|split; [exact Hm | intros _; exact Hs']].
  split; cbn [snd vm_env vm_scripts vm_scriptIdx vm_savedFirstStack vm_witnessProgram set_opcodeIdx];
    rewrite ?He, ?Hsc, ?Hi, ?Hsv, ?Hpr; auto.
  - eapply vm_safe_weaken; [exact Hs' | vm_compute; discriminate].
  - destruct rn_sig0 as [H|(H1 & H2 & H3)].
    + left. unfold sig_ok in *. cbn. rewrite Hver, Hpr.
      change (inTaproot (set_opcodeIdx vm' i)) with (inTaproot vm'). rewrite Htap. exact H.
    + right. rewrite Hrest in H3. repeat split; auto. exact (proj2 (push_rest_next k post Hk H3)).
  - change (inTaproot (set_opcodeIdx vm' i)) with (inTaproot vm'). now rewrite Htap.
  - destruct Hp as [|Hp]; [now left | right]. intros Hb. cbn in Hb. rewrite He, Hi, Hsv in Hp.
    rewrite He in Hb. destruct (Hp Hb) as [H0 H1]. cbn. rewrite Hi, Hsv. split.
    + intros H. destruct (H0 H) as (H2 & H3 & H4). auto.
    + intros H. left. exact (H1 H).
Qed.

(** The last opcode of a script. *)
Lemma step_last vm rest t k vm' : running vm rest -> rest = raw k ++ [] ->
  executed (set_tokenizer vm t) k [] vm' -> vm_condStack vm' = [] ->
  let vmf := set_opcodeIdx (set_numOps (set_astack (set_opcodeIdx vm' (vm_opcodeIdx vm' + 1))
    (with_stk (vm_astack vm') [])) 0) 0 in
  wp crash (finishScript evict vmf) (fun vm2 => ready vm2 /\ vm_scriptIdx vm < vm_scriptIdx vm2 /\
    remaining vm2 < measure vm rest /\ e_version (vm_env vm2) = 0).
Proof.
  intros Hr Hrest Hx Hc vmf. pose proof (step_measure vm t vm' rest k [] (xc_frame _ _ _ _ Hx) Hrest) as Hm.
  pose proof (sf_scriptIdx _ _ (xc_frame _ _ _ _ Hx)) as Hi. cbn [vm_scriptIdx set_tokenizer] in Hi.
  eapply wp_weaken; [exact (finishScript_wp vmf (executed_finishing vm rest t k vm' Hr Hx Hc))|].
  intros vm2 (Hready & Hidx & Hrem). split; [exact Hready|].
  change (vm_scriptIdx vmf) with (vm_scriptIdx vm') in Hidx. split; [lia|].
  change (measure vmf []) with (measure vm' []) in Hrem. split; [lia|].
  exact (eo_version _ _ (vb_env _ (rd_base _ Hready))).
Qed.

Lemma nil_of_len {A} (l : list A) : (len l =? 0) = true -> l = [].
Proof.
  intros H. apply Z.eqb_eq in H. destruct l; [reflexivity|]. rewrite len_cons in H.
  pose proof (len_nonneg l). lia.
Qed.

Lemma Step_wp vm rest : running vm rest -> wp crash (Step evict vm) (progress vm rest).
Proof.
  intros Hr. unfold Step. apply wp_bind with (R := fun _ => True).
  { unfold checkValidPC. apply wp_if; intros _; exact I. }
  intros _ _. destruct (Next (vm_tokenizer vm)) as [[|] t] eqn:En; cbn [negb]; [|destruct (tk_err t); exact I].
  destruct (execute_wp vm rest t Hr En) as (k & post & Hk & Hrest & Hdone & Hx).
  eapply wp_bind; [exact Hx | intros vm' Hx']. clear Hx. cbv beta in Hx'.
  destruct (MaxStackSize <? _) eqn:Ed; [exact I|]. specialize (Hx' eq_refl). cbv zeta.
  cbn [vm_tokenizer set_opcodeIdx]. rewrite (sf_tokenizer _ _ (xc_frame _ _ _ _ Hx')).
  cbn [vm_tokenizer set_tokenizer]. rewrite Hdone. apply wp_if; intros Epost;
    [|exact (step_within vm rest t k post vm' _ Hr Hk Hrest Hx')].
  apply wp_if; intros Ec; [exact I|]. apply negb_false_iff, nil_of_len in Ec. apply nil_of_len in Epost. subst post.
  assert (Hal : len (stk (vm_astack vm')) < 2 ^ 31).
  { pose proof (vs_depth _ _ _ (xc_safe _ _ _ _ Hx')). pose proof (len_nonneg (stk (vm_dstack vm'))).
    unfold MaxStackSize in *. lia. }
  cbn [vm_astack set_opcodeIdx]. rewrite (drop_all (vm_astack vm') Hal).
  eapply wp_bind; [exact (step_last vm rest t k vm' Hr Hrest Hx' Ec)|].
  intros vm2 (Hready & Hidx & Hrem & Hver). now apply step_next.
Qed.

(** ** Execution *)

Lemma run_wp fuel : forall vm rest, running vm rest -> measure vm rest < Z.of_nat fuel ->
  exists r, run evict fuel vm = Some r /\ wp crash r (fun _ => True).
Proof.
  induction fuel as [|fuel IH]; intros vm rest Hr Hm.
  - assert (0 <= measure vm rest); [|lia]. unfold measure. pose proof (len_nonneg rest).
    pose proof (total_nonneg (skipn (Z.to_nat (vm_scriptIdx vm + 1)) (vm_scripts vm))).
    pose proof (pending_nonneg vm (vm_scriptIdx vm)). lia.
  - cbn [run]. pose proof (Step_wp vm rest Hr) as Hs. destruct (Step evict vm) as [[[|] vm']|e|]; cbn [wp] in Hs.
    + eexists. split; [reflexivity|]. eapply wp_weaken; [|intros; exact I].
      apply (CheckErrorCondition_wp true vm' bigDepth Hs). reflexivity.
    + destruct Hs as (rest' & Hr' & Hlt & _). cbn [snd] in *. apply (IH vm' rest' Hr'). lia.
    + exists (Err e). split; [reflexivity | exact I].
    + exists Panic. split; [reflexivity | exact Hs].
Qed.

(** ** A new engine *)

(** Scripts and witnesses are bytes and fit in memory. *)
Definition tx_bytes (tx : MsgTx) : Prop := forall ti, In ti (tx_TxIn tx) ->
  bytes_ok (ti_SignatureScript ti) /\ Forall item_ok (wit_items (ti_Witness ti)) /\
  len (wit_items (ti_Witness ti)) < 2 ^ 31 - 16.

Lemma checkScript_item s : bytes_ok s -> checkScript s = Ok tt -> item_ok s.
Proof.
  intros Hb H. unfold checkScript in H. destruct (Z.ltb_spec MaxScriptSize (len s)); [discriminate|].
  split; [exact Hb | unfold MaxScriptSize in *; lia].
Qed.

Lemma scriptHash_shape s : isScriptHashScript s = true -> exists r, s = OP_HASH160 :: r.
Proof.
  unfold isScriptHashScript, extractScriptHash. destruct s as [|x r]; [discriminate|].
  destruct (_ && _) eqn:E; [|discriminate]. intros _. exists r. f_equal.
  rewrite !andb_true_iff in E. destruct E as [[[_ E] _] _]. apply Z.eqb_eq in E. exact E.
Qed.

(** What [setupWitness] finds. *)
Lemma setupWitness_ok flags sigScript pkScript witness bip16 v p :
  bytes_ok sigScript -> bytes_ok pkScript ->
  setupWitness flags sigScript pkScript witness bip16 = Ok (v, p) ->
  (forall q, p = Some q -> bytes_ok q) /\
  (p = None \/ bip16 = true \/ (len sigScript = 0 /\ push_rest pkScript)).
Proof.
  intros Hs Hp H. unfold setupWitness in H. destruct (_ =? _); [|injection H as <- <-; split; [discriminate | now left]].
  destruct (negb _); [discriminate|]. apply obind_Ok in H. destruct H as ([q|] & Hin & H).
  - apply obind_Ok in H. destruct H as ([version program] & Hx & H). injection H as <- <-.
    unfold ExtractWitnessProgramInfo in Hx. destruct (extractWitnessProgramInfo q) as [[v0 p0] ok] eqn:Eq.
    destruct ok; [|discriminate]. injection Hx as <- <-.
    assert (Hq : bytes_ok q /\ (bip16 = true \/ (len sigScript = 0 /\ q = pkScript))).
    { unfold inputProgram in Hin. destruct (IsWitnessProgram pkScript).
      - destruct (Z.eqb_spec (len sigScript) 0); [|discriminate]. injection Hin as <-. auto.
      - destruct (negb (len witness =? 0) && bip16) eqn:Eb; [|discriminate].
        apply andb_true_iff in Eb. destruct Eb as [_ Eb]. destruct (_ && _); [|discriminate].
        assert (E : q = skipn 1 sigScript) by congruence. rewrite E.
        split; [now apply Forall_skipn | now left]. }
    destruct Hq as [Hq Hcase]. split.
    + intros q' [= <-]. destruct (witness_program_shape q v0 p0 Hq Eq) as (op & _ & _ & _ & ->).
      apply Forall_cons_iff in Hq. destruct Hq as [_ Hq]. now apply Forall_cons_iff in Hq.
    + right. destruct Hcase as [|[H0 ->]]; [now left | right]. split; [exact H0|].
      exact (witness_program_push _ _ _ Hp Eq).
  - destruct (negb _); [discriminate|]. injection H as <- <-. split; [discriminate | now left].
Qed.

(** The engine [NewEngine] returns. *)
Definition startEngine (env : EngineEnv) (sc : option SharedCache) (sigScript pkScript : list Z)
    (minimal : bool) (v : Z) (p : option (list Z)) : Engine :=
  mkEngine env sc [sigScript; pkScript] (if len sigScript =? 0 then 1 else 0) 0 0
    (MakeScriptTokenizer 0 (if len sigScript =? 0 then pkScript else sigScript)) []
    (mkStack [] minimal) (mkStack [] minimal) [] 0 v p None.

Lemma NewEngine_inv pkScript tx idx flags sc hc amt fetch vm :
  NewEngine pkScript tx idx flags sc hc amt fetch = Ok vm ->
  exists ti bip16 v p,
    0 <= idx < len (tx_TxIn tx) /\ get_at (E := scriptErr) (tx_TxIn tx) idx = Ok ti /\
    bip16 = (Z.land flags ScriptBip16 =? ScriptBip16) && isScriptHashScript pkScript /\
    (bip16 = true -> IsPushOnlyScript (ti_SignatureScript ti) = true) /\
    checkScript (ti_SignatureScript ti) = Ok tt /\ checkScript pkScript = Ok tt /\
    setupWitness flags (ti_SignatureScript ti) pkScript (wit_items (ti_Witness ti)) bip16 = Ok (v, p) /\
    vm = startEngine (mkEnv flags tx idx 0 bip16 hc fetch amt) sc (ti_SignatureScript ti) pkScript
           (Z.land flags ScriptVerifyMinimalData =? ScriptVerifyMinimalData) v p.
Proof.
  intros H. unfold NewEngine in H. cbv zeta in H.
  destruct ((idx <? 0) || (len (tx_TxIn tx) <=? idx)) eqn:Ei; [discriminate|].
  apply orb_false_iff in Ei. rewrite Z.ltb_ge, Z.leb_gt in Ei.
  apply obind_Ok in H. destruct H as (ti & Eti & H).
  destruct ((len (ti_SignatureScript ti) =? 0) && (len pkScript =? 0)); [discriminate|].
  destruct ((Z.land flags ScriptVerifyCleanStack =? ScriptVerifyCleanStack) && _); [discriminate|].
  destruct (_ && negb (IsPushOnlyScript _)) eqn:Ep1; [discriminate|].
  set (bip16 := (Z.land flags ScriptBip16 =? ScriptBip16) && isScriptHashScript pkScript) in *.
  destruct (bip16 && _ && _) eqn:Ep2; [discriminate|].
  apply obind_Ok in H. destruct H as ([] & Hc1 & H). apply obind_Ok in H. destruct H as ([] & Hc2 & H).
  apply obind_Ok in H. destruct H as ([v p] & Hw & H). apply obind_Ok in H. destruct H as (script & Hs & H).
  exists ti, bip16, v, p. split; [lia|]. split; [exact Eti|]. split; [reflexivity|].
  split; [|split; [exact Hc1|split; [exact Hc2|split; [exact Hw|]]]].
  - intros Hb. rewrite Hb in Ep2. cbn [andb] in Ep2.
    destruct (IsPushOnlyScript _); [reflexivity|]. cbn [negb] in *. rewrite andb_true_r in *.
    rewrite Ep1 in Ep2. discriminate.
  - assert (script = if len (ti_SignatureScript ti) =? 0 then pkScript else ti_SignatureScript ti) as ->
      by (destruct (_ =? 0); now injection Hs).
    unfold startEngine. now injection H as <-.
Qed.

Lemma start_safe env sc sig pk minimal v p : env_ok crash env -> item_ok sig -> item_ok pk ->
  vm_safe crash bigDepth (startEngine env sc sig pk minimal v p).
Proof.
  intros He [Hs Hsl] [Hp Hpl]. pose proof (len_nonneg sig). pose proof (len_nonneg pk).
  split; cbn [startEngine vm_env vm_dstack vm_astack vm_numOps stk vm_scriptIdx vm_scripts vm_lastCodeSep].
  - exact He.
  - apply Forall_nil.
  - apply Forall_nil.
  - vm_compute. discriminate.
  - unfold MaxOpsPerScript. lia.
  - exists (if len sig =? 0 then pk else sig). destruct (len sig =? 0); cbn; repeat split; auto; lia.
  - right. now left.
  - discriminate.
Qed.

Lemma start_p2sh env sc sig pk minimal v p : item_ok sig ->
  (e_bip16 env = true -> isScriptHashScript pk = true /\ IsPushOnlyScript sig = true) ->
  p2sh_ok (startEngine env sc sig pk minimal v p) (if len sig =? 0 then pk else sig).
Proof.
  intros [Hb Hl] Hpush Hbip. cbn in Hbip. destruct (Hpush Hbip) as [Hsh Hp].
  cbn [startEngine vm_scriptIdx vm_condStack vm_dstack stk vm_savedFirstStack].
  destruct (Z.eqb_spec (len sig) 0) as [H0|H0]; split; intros Hx; try discriminate.
  - right. split; [reflexivity|]. split; [reflexivity|]. exact (scriptHash_shape pk Hsh).
  - split; [reflexivity|]. split; [apply push_only_rest; auto; lia|]. right. intros ->. now apply H0.
Qed.

Lemma start_measure env sc sig pk minimal v p :
  let vm := startEngine env sc sig pk minimal v p in
  measure vm (if len sig =? 0 then pk else sig) < Z.of_nat (executeFuel vm).
Proof.
  cbv zeta. unfold measure, executeFuel.
  cbn [startEngine vm_scripts vm_env vm_scriptIdx].
  set (vm := startEngine env sc sig pk minimal v p). fold (total [sig; pk]). fold (total (input_witness env)).
  pose proof (total_nonneg (input_witness env)). pose proof (len_nonneg sig). pose proof (len_nonneg pk).
  assert (Hp : forall i, pending vm i <= MaxScriptElementSize + total (input_witness env) + 25).
  { intros i. unfold pending. change (vm_env vm) with env. unfold MaxScriptElementSize.
    destruct (_ && _); destruct (_ && _); lia. }
  assert (Hm : match get_at (E := scriptErr) (tx_TxIn (e_tx env)) (e_txIdx env) with
               | Ok ti => fold_right (fun w n => len w + n) 0 (wit_items (ti_Witness ti))
               | _ => 0 end = total (input_witness env))
    by (unfold input_witness; now destruct (get_at _ _)).
  rewrite Hm. unfold MaxScriptElementSize in *. rewrite Z2Nat.id by (cbn [total fold_right]; lia).
  specialize (Hp (if len sig =? 0 then 1 else 0)). revert Hp.
  destruct (len sig =? 0); intros Hp; generalize dependent (pending vm 1); generalize dependent (pending vm 0).
  1: change (skipn (Z.to_nat (1 + 1)) [sig; pk]) with (@nil (list Z)).
  2: change (skipn (Z.to_nat (0 + 1)) [sig; pk]) with [pk].
  all: clear Hm; generalize dependent (total (input_witness env)); intros; cbn - [len]; lia.
Qed.

Lemma NewEngine_running pkScript tx idx flags sc hc amt fetch vm :
  bytes_ok pkScript -> tx_bytes tx ->
  crash \/ (forall ti, In ti (tx_TxIn tx) -> fetch (ti_PreviousOutPoint ti) <> None) ->
  crash \/ Z.land flags ScriptVerifyTaproot <> ScriptVerifyTaproot \/ hc <> None ->
  NewEngine pkScript tx idx flags sc hc amt fetch = Ok vm ->
  crash \/ (e_bip16 (vm_env vm) = true ->
            vm_witnessProgram vm = None \/ vm_witnessVersion vm = BaseSegwitWitnessVersion) ->
  exists rest, running vm rest /\ measure vm rest < Z.of_nat (executeFuel vm).
Proof.
  intros Hpk Htx Hfetch Hmid H Hnest. apply NewEngine_inv in H.
  destruct H as (ti & bip16 & v & p & Hidx & Eti & Ebip & Hpush & Hc1 & Hc2 & Hw & ->).
  assert (Hin : In ti (tx_TxIn tx)).
  { unfold get_at in Eti. destruct (0 <=? idx); [|discriminate].
    destruct (nth_error _ _) eqn:En; [|discriminate]. injection Eti as <-. exact (nth_error_In _ _ En). }
  destruct (Htx ti Hin) as (Hsb & Hwit & Hwl).
  pose proof (checkScript_item _ Hsb Hc1) as Hi1. pose proof (checkScript_item _ Hpk Hc2) as Hi2.
  destruct (setupWitness_ok _ _ _ _ _ _ _ Hsb Hpk Hw) as [Hprog Hcase].
  set (sig := ti_SignatureScript ti) in *. cbn [startEngine vm_env vm_witnessProgram vm_witnessVersion e_bip16] in Hnest.
  exists (if len sig =? 0 then pkScript else sig). split; [|apply start_measure].
  split.
  - apply start_safe; auto. split; cbn; auto. intros ti' Hti'. destruct (Htx ti' Hti') as (_ & ? & ?). auto.
  - cbn. auto.
  - cbn [startEngine vm_scripts vm_scriptIdx]. destruct (len sig =? 0); reflexivity.
  - split; [apply Forall_nil | vm_compute; discriminate].
  - exists (if len sig =? 0 then pkScript else sig), [], (-1), OP_INVALIDOPCODE, [].
    cbn [startEngine vm_scripts vm_scriptIdx vm_tokenizer]. destruct (len sig =? 0); repeat split; lia.
  - unfold sig_ok. cbn [startEngine vm_env vm_witnessProgram vm_witnessVersion e_bip16 vm_scriptIdx].
    destruct Hnest as [|Hnest]; [now left; left|].
    destruct Hcase as [->|Hcase]; [left; right; now left|].
    destruct bip16; [destruct (Hnest eq_refl) as [->| ->]; left; right; auto|].
    destruct Hcase as [|[H0 Hp]]; [discriminate|]. right. rewrite H0. auto.
  - now left.
  - exact Hprog.
  - right. apply start_p2sh; [exact Hi1|]. cbn [e_bip16]. intros Hb. split; [|auto].
    rewrite Ebip in Hb. now apply andb_true_iff in Hb.
Qed.

End Run.
