(* ===== verification/EngineTheorems.v ===== *)
(** * The script engine: what an execution guarantees

    The theorems about [NewEngine] and [Execute] taken together: execution
    terminates, it never panics for the inputs the node builds, and every state
    on the way respects the limits of the script language.  The file also has
    the input for which it does panic. *)

From Stdlib Require Import ZArith List Lia Bool.
From S2P Require Import Prelude Opcodes GoSlice GoIO WireCommon WireTx Script ScriptNum ScriptStack SigHash Taproot Engine EngineSafe EngineRun.
Import ListNotations.
Local Open Scope Z_scope.
Local Open Scope go_scope.

(** ** Sample inputs *)

(** Cut or filled up to [n] bytes. *)
Definition fit (n : nat) (l : list Z) : list Z := firstn n (map u8 l ++ repeat 0 n).

Lemma In_firstn_In {A} n (l : list A) x : In x (firstn n l) -> In x l.
Proof. intros H. rewrite <- (firstn_skipn n l). apply in_or_app. now left. Qed.

Lemma fit_ok n l : len (fit n l) = Z.of_nat n /\ bytes_ok (fit n l).
Proof.
  unfold fit, len. rewrite length_firstn, length_app, repeat_length. split; [lia|].
  apply Forall_forall. intros x Hx. apply (In_firstn_In n) in Hx. apply in_app_or in Hx.
  destruct Hx as [Hx|Hx].
  - apply in_map_iff in Hx. destruct Hx as (y & <- & _). apply u8_range.
  - apply repeat_spec in Hx. subst x. unfold is_byte. lia.
Qed.

(** Primitives to evaluate the definitions with: a key is its serialization and
    signs a message with the message itself. *)
#[local] Instance toyCrypto : Crypto := {
  sha256 := fit 32;
  sha1 := fit 20;
  ripemd160 := fit 20;
  PublicKey := list Z;
  ParsePubKey b := if len b =? 33 then Some b else None;
  IsCompressedPubKey b := len b =? 33;
  halfOrder := 2 ^ 255;
  Signature := list Z;
  ParseSignature b := Some b;
  ParseDERSignature b := Some b;
  sig_Verify s h _ := bytes_eqb s h;
  SchnorrSignature := list Z;
  schnorr_ParsePubKey b := if len b =? 32 then Some b else None;
  schnorr_SerializePubKey := fit 32;
  schnorr_ParseSignature b := if len b =? 64 then Some b else None;
  schnorr_Verify s h _ := bytes_eqb (firstn 32 s) h;
  addTweak k _ := k;
  yIsOdd _ := false
}.

#[local] Instance toyLaws : CryptoLaws toyCrypto.
Proof.
  split; cbn [sha256 sha1 ripemd160 toyCrypto]; try (intros l; apply fit_ok).
  intros k. exists (fit 32 k). cbn [schnorr_ParsePubKey schnorr_SerializePubKey toyCrypto].
  destruct (fit_ok 32 k) as [-> _]. reflexivity.
Qed.

(** A pay-to-script-hash input: the redeem script [OP_1ADD OP_2 OP_EQUAL] and
    the number it accepts. *)
Definition sampleRedeem : list Z := [OP_1ADD; OP_2; OP_EQUAL].
Definition sampleSigScript : list Z := [OP_1; 3] ++ sampleRedeem.
Definition samplePkScript : list Z :=
  [OP_HASH160; OP_DATA_20] ++ ripemd160 (sha256 sampleRedeem) ++ [OP_EQUAL].
Definition sampleTx : MsgTx :=
  mkMsgTx 1 [mkTxIn (mkOutPoint (repeat 0 32) 0) sampleSigScript None 0xffffffff]
    [mkTxOut 1000 samplePkScript] 0.
Definition sampleFetch : PrevOutputFetcher := fun _ => Some (mkTxOut 1000 samplePkScript).
Definition sampleFlags : Z := Z.lor ScriptBip16 ScriptVerifyWitness.
Definition sampleEvict : list (list Z * sigCacheEntry) -> nat := fun _ => O.
Definition sampleEngine : outcome scriptErr Engine :=
  NewEngine samplePkScript sampleTx 0 sampleFlags None None 1000 sampleFetch.

Definition sampleVM : Engine :=
  match sampleEngine with Ok vm => vm | _ => startEngine (mkEnv 0 sampleTx 0 0 false None sampleFetch 0) None [] [] false 0 None end.

Lemma sample_ok : NewEngine samplePkScript sampleTx 0 sampleFlags None None 1000 sampleFetch = Ok sampleVM.
Proof. vm_compute. reflexivity. Qed.

Lemma sample_bytes : bytes_ok samplePkScript.
Proof. repeat constructor; vm_compute; try discriminate; reflexivity. Qed.

Lemma sample_tx : tx_bytes sampleTx.
Proof.
  intros ti [<-|[]]. split; [repeat constructor; vm_compute; try discriminate; reflexivity|].
  split; [constructor | reflexivity].
Qed.

(** A signature script of three pushes whose last two look like a witness
    program of version 2, with a redeem script that checks a signature. *)
Definition nestedRedeem : list Z := [OP_1; OP_1; OP_CHECKSIG].
Definition nestedSigScript : list Z := [OP_1NEGATE; OP_2; 3] ++ nestedRedeem.
Definition nestedTx : MsgTx :=
  mkMsgTx 1 [mkTxIn (mkOutPoint (repeat 0 32) 0) nestedSigScript (Some [[0]]) 0xffffffff]
    [mkTxOut 1000 []] 0.
Definition nestedPkScript `{C : Crypto} : list Z :=
  [OP_HASH160; OP_DATA_20] ++ ripemd160 (sha256 nestedRedeem) ++ [OP_EQUAL].

(** ** Executions *)

Inductive reaches `{C : Crypto} (evict : list (list Z * sigCacheEntry) -> nat) (vm : Engine) : Engine -> Prop :=
| reaches_refl : reaches evict vm vm
| reaches_step vm1 vm2 : reaches evict vm vm1 -> Step evict vm1 = Ok (false, vm2) -> reaches evict vm vm2.

Section Executions.
Context `{C : Crypto} {L : CryptoLaws C}.
Variable evict : list (list Z * sigCacheEntry) -> nat.

Lemma run_more fuel fuel' vm r : (fuel <= fuel')%nat -> run evict fuel vm = Some r ->
  run evict fuel' vm = Some r.
Proof.
  revert fuel' vm. induction fuel as [|fuel IH]; intros fuel' vm Hle H; [discriminate|].
  destruct fuel' as [|fuel']; [lia|]. cbn [run] in *.
  destruct (Step evict vm) as [[[|] vm']|e|]; auto. apply IH; [lia | exact H].
Qed.

Lemma NewEngine_version pkScript tx idx flags sc hc amt fetch vm :
  NewEngine pkScript tx idx flags sc hc amt fetch = Ok vm -> e_version (vm_env vm) = 0.
Proof. intros H. apply NewEngine_inv in H. destruct H as (ti & b & v & p & H). decompose [and] H. now subst vm. Qed.

Lemma reaches_running crash vm0 rest0 vm : running crash vm0 rest0 -> reaches evict vm0 vm ->
  exists rest, running crash vm rest.
Proof.
  intros H0 H. induction H as [|vm1 vm2 _ (rest & IH) Hs]; [now exists rest0|].
  pose proof (Step_wp evict crash vm1 rest IH) as Hp. rewrite Hs in Hp. cbn [wp] in Hp.
  destruct Hp as (rest' & Hr & _). now exists rest'.
Qed.

(** C4: executing an engine that NewEngine returned ends: the fuel of Execute, the
    bytes of the two scripts, of the witness and of the scripts that can be
    appended, is enough, and more fuel gives the same result. *)
Theorem Execute_terminates pkScript tx idx flags sc hc amt fetch vm :
  bytes_ok pkScript -> tx_bytes tx -> NewEngine pkScript tx idx flags sc hc amt fetch = Ok vm ->
  exists r, Execute evict vm = Some r /\
    forall fuel, (executeFuel vm <= fuel)%nat -> run evict fuel vm = Some r.
Proof.
  intros Hpk Htx H.
  destruct (NewEngine_running True pkScript tx idx flags sc hc amt fetch vm Hpk Htx
    (or_introl I) (or_introl I) H (or_introl I)) as (rest & Hr & Hm).
  destruct (run_wp evict True (executeFuel vm) vm rest Hr Hm) as (r & Hrun & _).
  exists r. unfold Execute. rewrite (NewEngine_version _ _ _ _ _ _ _ _ _ H). split; [exact Hrun|].
  intros fuel Hf. exact (run_more _ _ _ _ Hf Hrun).
Qed.

(** C3: for every input of a transaction the node builds (bytes, witnesses that fit
    in memory, spent outputs known, midstates given when taproot is verified, and a
    nested witness program, if any, of version 0), executing the engine NewEngine
    returned ends without a panic: no stack access, slice or signature verifier is
    used out of its range. *)
Theorem Execute_safe pkScript tx idx flags sc hc amt fetch vm :
  bytes_ok pkScript -> tx_bytes tx ->
  (forall ti, In ti (tx_TxIn tx) -> fetch (ti_PreviousOutPoint ti) <> None) ->
  Z.land flags ScriptVerifyTaproot <> ScriptVerifyTaproot \/ hc <> None ->
  NewEngine pkScript tx idx flags sc hc amt fetch = Ok vm ->
  (e_bip16 (vm_env vm) = true ->
   vm_witnessProgram vm = None \/ vm_witnessVersion vm = BaseSegwitWitnessVersion) ->
  Execute evict vm <> Some Panic.
Proof.
  intros Hpk Htx Hf Hm H Hn.
  destruct (NewEngine_running False pkScript tx idx flags sc hc amt fetch vm Hpk Htx
    (or_intror Hf) (or_intror Hm) H (or_intror Hn)) as (rest & Hr & Hmeas).
  destruct (run_wp evict False (executeFuel vm) vm rest Hr Hmeas) as (r & Hrun & Hw).
  unfold Execute. rewrite (NewEngine_version _ _ _ _ _ _ _ _ _ H). cbn [Z.eqb negb].
  rewrite Hrun. destruct r; [discriminate | discriminate | destruct Hw].
Qed.

(** C17: in every state that execution reaches from an engine NewEngine returned, no
    stack element is longer than 520 bytes and at most 201 operations have been
    counted, and after a step within a script both stacks together have at most 1000
    elements. *)
Theorem Execute_limits pkScript tx idx flags sc hc amt fetch vm0 vm :
  bytes_ok pkScript -> tx_bytes tx -> NewEngine pkScript tx idx flags sc hc amt fetch = Ok vm0 ->
  reaches evict vm0 vm ->
  Forall (fun x => len x <= MaxScriptElementSize) (stk (vm_dstack vm) ++ stk (vm_astack vm)) /\
  vm_numOps vm <= MaxOpsPerScript /\
  forall vm', Step evict vm = Ok (false, vm') -> vm_scriptIdx vm' = vm_scriptIdx vm ->
    len (stk (vm_dstack vm')) + len (stk (vm_astack vm')) <= MaxStackSize.
Proof.
  intros Hpk Htx H Hreach.
  destruct (NewEngine_running True pkScript tx idx flags sc hc amt fetch vm0 Hpk Htx
    (or_introl I) (or_introl I) H (or_introl I)) as (rest0 & Hr0 & _).
  destruct (reaches_running True vm0 rest0 vm Hr0 Hreach) as (rest & Hr).
  destruct (rn_safe _ _ _ Hr). split; [|split; [lia|]].
  - apply Forall_app. split; (apply Forall_impl with (P := elem_ok); [intros x Hx; exact (proj2 Hx) | assumption]).
  - intros vm' Hs Hi. pose proof (Step_wp evict True vm rest Hr) as Hp. rewrite Hs in Hp.
    destruct Hp as (rest' & _ & _ & Hp). exact (EngineSafe.vs_depth _ _ _ (Hp Hi)).
Qed.

Lemma run_next n vm : run evict (S n) vm =
  match Step evict vm with
  | Ok (false, vm) => run evict n vm
  | Ok (true, vm) => Some (CheckErrorCondition true vm)
  | Err e => Some (Err e)
  | Panic => Some Panic
  end.
Proof. reflexivity. Qed.

(** Replace a term of the goal by its value. *)
Ltac evaluate x := let r := eval vm_compute in x in
  let E := fresh in assert (E : x = r) by (vm_compute; reflexivity); rewrite E; clear E.

Ltac run_step := lazymatch goal with |- context [run _ (S ?n) ?v] =>
  rewrite (run_next n v); evaluate (Step evict v); cbv iota beta end.

(** C39: for every hash function there is a pay-to-script-hash input, with a
    signature script of three pushes and a witness, that NewEngine accepts under the
    standard flags and whose execution panics, because no signature verifier is made
    for a nested program of version 2. *)
Theorem nested_program_panics sc hc amt fetch :
  exists vm, NewEngine nestedPkScript nestedTx 0 StandardVerifyFlags sc hc amt fetch = Ok vm /\
             Execute evict vm = Some Panic.
Proof.
  destruct (ripemd160_size (sha256 nestedRedeem)) as [Hl _].
  remember (ripemd160 (sha256 nestedRedeem)) as h eqn:Hh.
  do 20 (destruct h as [|? h]; [discriminate|]).
  destruct h; [|rewrite !len_cons in Hl; pose proof (len_nonneg h); lia].
  unfold nestedPkScript. rewrite <- Hh. cbn [app].
  eexists. split; [vm_compute; reflexivity|]. unfold Execute. cbn [vm_env e_version Z.eqb negb].
  lazymatch goal with |- context [executeFuel ?v] => evaluate (executeFuel v) end.
  do 5 run_step.
  lazymatch goal with |- context [match C with {| ripemd160 := _ |} => _ end ?x] =>
    change (match C with {| ripemd160 := r |} => r end x) with (ripemd160 (sha256 nestedRedeem)) end.
  rewrite <- Hh, run_next. unfold Step at 1.
  lazymatch goal with |- context [Next ?x] => evaluate (Next x) end.
  lazymatch goal with |- context [checkValidPC ?x] => evaluate (checkValidPC x) end.
  cbn [obind negb tk_op tk_data].
  lazymatch goal with |- context [executeOpcode ?e ?o ?d ?x] =>
    let r := eval lazy - [bytes_eqb] in (executeOpcode e o d x) in
    assert (E : executeOpcode e o d x = r) by (lazy - [bytes_eqb]; reflexivity) end.
  rewrite E, bytes_eqb_refl. vm_compute. reflexivity.
Qed.
End Executions.

Lemma Execute_terminates_witness :
  exists r, Execute sampleEvict sampleVM = Some r /\
    forall fuel, (executeFuel sampleVM <= fuel)%nat -> run sampleEvict fuel sampleVM = Some r.
Proof. exact (Execute_terminates sampleEvict _ _ _ _ _ _ _ _ _ sample_bytes sample_tx sample_ok). Defined.

Lemma Execute_safe_witness :
  Execute sampleEvict sampleVM <> Some Panic /\
  (exists vm, Execute sampleEvict sampleVM = Some (Ok vm)).
Proof.
  split; [|eexists; vm_compute; reflexivity].
  apply (Execute_safe sampleEvict samplePkScript sampleTx 0 sampleFlags None None 1000 sampleFetch sampleVM
    sample_bytes sample_tx); [| | exact sample_ok |].
  - discriminate.
  - left. vm_compute. discriminate.
  - intros _. left. vm_compute. reflexivity.
Defined.

Lemma Execute_limits_witness :
  Forall (fun x => len x <= MaxScriptElementSize) (stk (vm_dstack sampleVM) ++ stk (vm_astack sampleVM)) /\
  vm_numOps sampleVM <= MaxOpsPerScript /\
  forall vm', Step sampleEvict sampleVM = Ok (false, vm') -> vm_scriptIdx vm' = vm_scriptIdx sampleVM ->
    len (stk (vm_dstack vm')) + len (stk (vm_astack vm')) <= MaxStackSize.
Proof.
  apply (Execute_limits sampleEvict _ _ _ _ _ _ _ _ _ _ sample_bytes sample_tx sample_ok). apply reaches_refl.
Defined.

Lemma nested_program_panics_witness :
  exists vm, NewEngine nestedPkScript nestedTx 0 StandardVerifyFlags None None 1000 sampleFetch = Ok vm /\
             Execute sampleEvict vm = Some Panic.
Proof. exact (nested_program_panics sampleEvict None None 1000 sampleFetch). Defined.
