(* ===== verification/EngineCache.v ===== *)
(** * The signature cache changes no verdict

    Engines of different goroutines share a cache of verified signatures, and
    others can add to it between any two accesses (the type [SharedCache] of
    SigHash.v).  An engine with such a cache and the same engine without one run
    in lockstep, as long as what is in the cache has been verified; and an engine
    adds nothing else. *)

From Stdlib Require Import ZArith List Lia Bool.
From S2P Require Import Prelude Opcodes GoSlice GoIO WireCommon WireTx Script ScriptNum ScriptStack SigHash Taproot Engine EngineSafe EngineRun EngineTheorems.
Import ListNotations.
Local Open Scope Z_scope.
Local Open Scope go_scope.

(** What the code relies on of the curve library: what parses as a strict
    signature parses to the same one without the strictness, and the keys of the two
    kinds of signatures have different sizes. *)
Class SignatureForms (C : Crypto) : Prop := {
  strict_parses : forall b s, ParseDERSignature b = Some s -> ParseSignature b = Some s;
  pubKey_size : forall b k, ParsePubKey b = Some k -> len b = 33 \/ len b = 65;
  schnorr_size : forall b k, schnorr_ParsePubKey b = Some k -> len b = 32
}.

(** ** Two runs *)

Definition sim {A B} (R : A -> B -> Prop) (m : outcome scriptErr A) (m' : outcome scriptErr B) : Prop :=
  match m, m' with
  | Ok a, Ok b => R a b
  | Err e, Err e' => e = e'
  | Panic, Panic => True
  | _, _ => False
  end.

Lemma sim_bind {A B A' B'} (R : A -> A' -> Prop) (S : B -> B' -> Prop) m m' k k' :
  sim R m m' -> (forall a a', R a a' -> sim S (k a) (k' a')) -> sim S (obind m k) (obind m' k').
Proof. intros Hm Hk. destruct m, m'; cbn in *; try contradiction; auto. Qed.

Lemma sim_same {A B B'} (S : B -> B' -> Prop) (m : outcome scriptErr A) k k' :
  (forall a, m = Ok a -> sim S (k a) (k' a)) -> sim S (obind m k) (obind m k').
Proof. intros Hk. destruct m; cbn in *; auto. Qed.

Lemma sim_if {A B} (R : A -> B -> Prop) (b : bool) x y x' y' :
  (b = true -> sim R x x') -> (b = false -> sim R y y') -> sim R (if b then x else y) (if b then x' else y').
Proof. destruct b; auto. Qed.

(** An engine without its cache. *)
Definition strip (vm : Engine) : Engine := set_sigCache vm None.

Section Cache.
Context `{C : Crypto} {L : CryptoLaws C} {F : SignatureForms C}.
Context (evict : list (list Z * sigCacheEntry) -> nat).

(** The two places where a signature is added to the cache: a parsed signature of
    either kind that verifies for a hash. *)
Inductive verified : list Z -> list Z -> list Z -> Prop :=
| verified_ecdsa (strict : bool) h sig pk s k :
    len h = 32 -> (if strict then ParseDERSignature sig else ParseSignature sig) = Some s -> ParsePubKey pk = Some k ->
    sig_Verify s h k = true -> verified h sig pk
| verified_schnorr h sig pk k s t :
    len h = 32 -> parseTaprootSigAndPubKey pk sig = Ok (k, s, t) -> schnorr_Verify s h k = true -> verified h sig pk.

Definition sound (vm : Engine) : Prop :=
  match vm_sigCache vm with Some sh => shared_all verified sh | None => True end.

Definition twin (vm vm' : Engine) : Prop := vm' = strip vm /\ sound vm.
Definition twin2 {A} (p p' : A * Engine) : Prop := fst p' = fst p /\ twin (snd p) (snd p').

Lemma twin_refl vm : sound vm -> twin vm (strip vm).
Proof. now split. Qed.

(** ** Hits *)

Lemma schnorr_key pk sig k s t : parseTaprootSigAndPubKey pk sig = Ok (k, s, t) -> schnorr_ParsePubKey pk = Some k.
Proof.
  unfold parseTaprootSigAndPubKey, ofOption. destruct (schnorr_ParsePubKey pk) as [k'|]; [|discriminate]. cbn [obind].
  destruct (len sig =? 64); [|destruct (_ && _); [|discriminate]]; destruct (schnorr_ParseSignature _); cbn [obind]; congruence.
Qed.

(** A hit of an ECDSA signature that parses is right. *)
Lemma verified_base (strict : bool) h sig pk s k :
  (if strict then ParseDERSignature sig else ParseSignature sig) = Some s -> ParsePubKey pk = Some k ->
  verified h sig pk -> sig_Verify s h k = true.
Proof.
  intros Hs Hk Hver. revert Hs Hk. destruct Hver as [strict' h sig' pk s' k' _ Hs' Hk' Hv|h sig' pk k' s' t _ Hp _]; intros Hs Hk.
  - assert (Hb : forall (b : bool) x, (if b then ParseDERSignature sig' else ParseSignature sig') = Some x -> ParseSignature sig' = Some x)
      by (intros [|] x H; [now apply strict_parses | exact H]).
    apply Hb in Hs, Hs'. congruence.
  - apply schnorr_key, schnorr_size in Hp. apply pubKey_size in Hk. lia.
Qed.

Lemma verified_taproot h sig pk k s t : parseTaprootSigAndPubKey pk sig = Ok (k, s, t) -> verified h sig pk -> schnorr_Verify s h k = true.
Proof.
  intros Hp Hver. revert Hp. destruct Hver as [strict' h sig pk s' k' _ Hs' Hk' Hv|h sig pk k' s' t' _ Hp' Hv]; intros Hp.
  - apply schnorr_key, schnorr_size in Hp. apply pubKey_size in Hk'. lia.
  - congruence.
Qed.

Lemma verifyCached_twin vm h sig pk b : sound vm -> (verified h sig pk -> b = true) -> (b = true -> verified h sig pk) ->
  twin2 (verifyCached evict vm h sig pk b) (verifyCached evict (strip vm) h sig pk b).
Proof.
  intros Hs H1 H2. unfold sound in Hs. unfold twin2, twin, verifyCached. cbn [vm_sigCache strip set_sigCache].
  destruct (vm_sigCache vm) as [sh|] eqn:Ec; [|cbn [fst snd]; split; [reflexivity|]; split; [reflexivity | unfold sound; now rewrite Ec]].
  apply access_all in Hs. destruct (Exists _ _ _ _) eqn:Ee.
  - pose proof (H1 (Exists_all _ _ _ _ _ (proj1 Hs) Ee)) as ->. split; [reflexivity|]. split; [reflexivity | exact Hs].
  - destruct b; (split; [reflexivity|]; split; [reflexivity|]); [|exact Hs]. apply access_all in Hs. split; [|apply Hs].
    apply Add_all; [apply Hs | now apply H2].
Qed.

Lemma hashKey_id h : len h = 32 -> hashKey h = h.
Proof.
  intros H. unfold hashKey. assert (E : Datatypes.length h = 32%nat) by (unfold len in H; lia). rewrite firstn_app, E, Nat.sub_diag, firstn_O, app_nil_r.
  rewrite <- E. apply firstn_all.
Qed.

Lemma calcSignatureHash_len script t tx idx h : calcSignatureHash sha256 script t tx idx = Ok h -> len h = 32.
Proof.
  unfold calcSignatureHash. destruct (_ && _); [intros [= <-]; reflexivity|]. intros H. apply obind_Ok in H.
  destruct H as (msg & _ & [= <-]). apply sha256_size.
Qed.

Lemma calcWitness_len script m t tx idx amt h : calcWitnessSignatureHashRaw sha256 script m t tx idx amt = Ok h -> len h = 32.
Proof. intros H. apply obind_Ok in H. destruct H as (msg & _ & [= <-]). apply sha256_size. Qed.

Lemma calcTaproot_len m t tx idx fetch opts h : calcTaprootSignatureHashRaw sha256 m t tx idx fetch opts = Ok h -> len h = 32.
Proof. intros H. apply obind_Ok in H. destruct H as (msg & _ & [= <-]). apply sha256_size. Qed.

(** An ECDSA check through the cache. *)
Lemma ecdsa_twin (strict : bool) vm h sig pk s k : sound vm -> len h = 32 ->
  (if strict then ParseDERSignature sig else ParseSignature sig) = Some s -> ParsePubKey pk = Some k ->
  twin2 (verifyCached evict vm (hashKey h) sig pk (sig_Verify s h k)) (verifyCached evict (strip vm) (hashKey h) sig pk (sig_Verify s h k)).
Proof.
  intros Hs Hl Hp Hk. rewrite (hashKey_id h Hl). apply verifyCached_twin; [exact Hs | |].
  - now apply (verified_base strict).
  - now apply (verified_ecdsa strict h sig pk s k).
Qed.

(** ** Verifiers *)

Lemma newBase_twin pk sig vm : newBaseSigVerifier pk sig (strip vm) = newBaseSigVerifier pk sig vm.
Proof. reflexivity. Qed.

(** What a verifier knows of its bytes. *)
Definition base_made (b : baseSigVerifier) : Prop :=
  exists strict : bool, (if strict then ParseDERSignature (bv_sigBytes b) else ParseSignature (bv_sigBytes b)) = Some (bv_sig b) /\
    ParsePubKey (bv_pkBytes b) = Some (bv_pubKey b).

Lemma newBase_made pk sig vm b : newBaseSigVerifier pk sig vm = Ok b -> base_made b.
Proof.
  intros H. apply obind_Ok in H. destruct H as ([[k s] t] & Hp & H). apply obind_Ok in H. destruct H as (script & _ & H).
  apply obind_Ok in H. destruct H as (sigBytes & Hsb & [= <-]). unfold parseBaseSigAndPubkey in Hp.
  apply obind_Ok in Hp. destruct Hp as (ht & _ & Hp). rewrite Hsb in Hp. cbn [obind] in Hp.
  apply obind_Ok in Hp. destruct Hp as (_ & _ & Hp). apply obind_Ok in Hp. destruct Hp as (_ & _ & Hp).
  apply obind_Ok in Hp. destruct Hp as (_ & _ & Hp). apply obind_Ok in Hp. destruct Hp as (k' & Hk & Hp).
  apply obind_Ok in Hp. destruct Hp as (s' & Hs & [= <- <- <-]). unfold ofOption in *.
  exists (hasFlag vm ScriptVerifyStrictEncoding || hasFlag vm ScriptVerifyDERSignatures). cbn [bv_sigBytes bv_sig bv_pkBytes bv_pubKey].
  destruct (ParsePubKey pk); [|discriminate]. injection Hk as ->.
  destruct (if hasFlag vm ScriptVerifyStrictEncoding || _ then ParseDERSignature sigBytes else _); [|discriminate]. now injection Hs as ->.
Qed.

Lemma base_verifySig_twin b vm h : sound vm -> base_made b -> len h = 32 ->
  twin2 (base_verifySig evict b vm h) (base_verifySig evict b (strip vm) h).
Proof. intros Hs (strict & Hp & Hk) Hl. now apply (ecdsa_twin strict). Qed.

Lemma base_Verify_twin b vm : sound vm -> base_made b -> sim twin2 (base_Verify evict b vm) (base_Verify evict b (strip vm)).
Proof.
  intros Hs Hb. unfold base_Verify. apply sim_same. intros h Hh. cbn [sim]. apply base_verifySig_twin; auto.
  exact (calcSignatureHash_len _ _ _ _ _ Hh).
Qed.

Lemma segwit_Verify_twin b vm : sound vm -> base_made b -> sim twin2 (segwit_Verify evict b vm) (segwit_Verify evict b (strip vm)).
Proof.
  intros Hs Hb. unfold segwit_Verify. apply sim_same. intros m _. change (vm_env (strip vm)) with (vm_env vm).
  destruct (calcWitnessSignatureHashRaw _ _ _ _ _ _ _) as [h|e|] eqn:Eh; cbn [sim]; [|split; [reflexivity | now apply twin_refl]|exact I].
  apply base_verifySig_twin; auto. exact (calcWitness_len _ _ _ _ _ _ _ Eh).
Qed.

(** A taproot verifier comes from its bytes. *)
Definition tap_made (t : taprootSigVerifier) : Prop :=
  parseTaprootSigAndPubKey (tv_pkBytes t) (tv_fullSigBytes t) = Ok (tv_pubKey t, tv_sig t, tv_hashType t).

Lemma newTaproot_made pk sig annex t : newTaprootSigVerifier pk sig annex = Ok t -> tap_made t.
Proof. intros H. apply obind_Ok in H. destruct H as ([[k s] ht] & Hp & [= <-]). exact Hp. Qed.

Lemma taproot_verifyWith_twin t opts vm : sound vm -> tap_made t ->
  sim twin2 (taproot_verifyWith evict t opts vm) (taproot_verifyWith evict t opts (strip vm)).
Proof.
  intros Hs Ht. unfold taproot_verifyWith. change (vm_env (strip vm)) with (vm_env vm).
  destruct (calcTaprootSignatureHashRaw _ _ _ _ _ _ _) as [h|e|] eqn:Eh; cbn [sim]; [|split; [reflexivity | now apply twin_refl]|exact I].
  apply calcTaproot_len in Eh. unfold taproot_verifySig. cbn [vm_sigCache strip set_sigCache].
  destruct (vm_sigCache vm) as [sh|] eqn:Ec; [|cbn [sim]; split; [reflexivity | now apply twin_refl]].
  rewrite (proj2 (Z.eqb_eq _ _) Eh). cbn [deref obind sim].
  pose proof (verifyCached_twin vm h (tv_fullSigBytes t) (tv_pkBytes t) (schnorr_Verify (tv_sig t) h (tv_pubKey t)) Hs) as H.
  apply H.
  - exact (verified_taproot _ _ _ _ _ _ Ht).
  - intros Hv. exact (verified_schnorr _ _ _ _ _ _ Eh Ht Hv).
Qed.

Definition sv_made (v : signatureVerifier) : Prop :=
  match v with
  | BaseVerifier b | SegwitVerifier b => base_made b
  | TapscriptVerifier (Some t) _ => tap_made t
  | _ => True
  end.

Lemma sv_Verify_twin v vm : sound vm -> sv_made v -> sim twin2 (sv_Verify evict v vm) (sv_Verify evict v (strip vm)).
Proof.
  intros Hs Hv. destruct v as [b|b|[t|] ctx|]; cbn [sv_Verify tapscript_Verify].
  - now apply base_Verify_twin.
  - now apply segwit_Verify_twin.
  - now apply taproot_verifyWith_twin.
  - split; [reflexivity | now apply twin_refl].
  - exact I.
Qed.

Lemma newTapscript_made pk sig vm ctx b : newBaseTapscriptSigVerifier pk sig vm ctx = Ok b -> sv_made (TapscriptVerifier b ctx).
Proof.
  unfold newBaseTapscriptSigVerifier. destruct (len pk =? 0); [discriminate|]. destruct (len pk =? 32).
  - intros H. apply obind_Ok in H. destruct H as (t & Ht & [= <-]). exact (newTaproot_made _ _ _ _ Ht).
  - destruct (hasFlag _ _); [discriminate|]. intros [= <-]. exact I.
Qed.

(** ** Handlers *)

Definition lockstep (h : handler) : Prop := forall op data vm, sound vm -> sim twin (h op data vm) (h op data (strip vm)).

(** The steps of a proof for code that does not look at the cache. *)
Ltac in_step :=
  repeat (cbv beta zeta;
    lazymatch goal with
    | |- sim _ (Ok _) (Ok _) => cbn [sim]; split; [reflexivity | assumption]
    | |- sim _ (Err _) (Err _) => reflexivity
    | |- sim _ Panic Panic => exact I
    | |- sim _ (obind ?m _) (obind _ _) => apply (sim_same _ m); intros ? _
    | |- sim _ (match ?x with _ => _ end) (match ?y with _ => _ end) => change y with x; destruct x
    end).

Lemma dstackOp_twin f vm : sound vm -> sim twin (dstackOp f vm) (dstackOp f (strip vm)).
Proof. intros Hs. unfold dstackOp. in_step. Qed.

Lemma abstractVerify_twin c vm : sound vm -> sim twin (abstractVerify vm c) (abstractVerify (strip vm) c).
Proof. intros Hs. unfold abstractVerify. in_step. Qed.

Lemma popIfBool_twin vm : sound vm -> sim twin2 (popIfBool vm) (popIfBool (strip vm)).
Proof. intros Hs. unfold popIfBool. in_step; (split; [reflexivity | now apply twin_refl]). Qed.

Lemma opcodeIf_twin : lockstep opcodeIf.
Proof.
  intros op data vm Hs. unfold opcodeIf. apply (sim_if _ (isBranchExecuting vm)); intros _; [|in_step].
  eapply sim_bind; [now apply popIfBool_twin|]. intros [b vm1] [b' vm2] [E [E2 H2]]. cbn [fst snd] in *. subst. in_step.
Qed.

Lemma opcodeNotIf_twin : lockstep opcodeNotIf.
Proof.
  intros op data vm Hs. unfold opcodeNotIf. apply (sim_if _ (isBranchExecuting vm)); intros _; [|in_step].
  eapply sim_bind; [now apply popIfBool_twin|]. intros [b vm1] [b' vm2] [E [E2 H2]]. cbn [fst snd] in *. subst. in_step.
Qed.

(** A handler followed by a check that the top is true. *)
Lemma then_verify (h : handler) c : lockstep h -> lockstep (fun op data vm => let* vm := h op data vm in abstractVerify vm c).
Proof.
  intros Hh op data vm Hs. eapply sim_bind; [now apply Hh|]. intros vm1 vm2 [-> H]. now apply abstractVerify_twin.
Qed.

Lemma checkSig_verify_twin sig v vm : sound vm -> sv_made v -> sim twin (checkSig_verify evict sig v vm) (checkSig_verify evict sig v (strip vm)).
Proof.
  intros Hs Hv. unfold checkSig_verify. eapply sim_bind; [now apply sv_Verify_twin|]. intros [b vm1] [b' vm2] [E [E2 H2]].
  cbn [fst snd] in *. subst. in_step.
Qed.

Lemma orFalse_twin {A} (m : outcome scriptErr A) vm k k' : sound vm -> (forall a, m = Ok a -> sim twin (k a) (k' a)) ->
  sim twin (orFalse m vm k) (orFalse m (strip vm) k').
Proof. intros Hs Hk. destruct m as [a|[c|]|]; cbn [orFalse]; [now apply Hk | in_step..]. Qed.

Lemma opcodeCheckSig_twin : lockstep (opcodeCheckSig evict).
Proof.
  intros op data vm Hs. unfold opcodeCheckSig. apply sim_same. intros [pk s1] _. apply sim_same. intros [sig s] _. cbv zeta.
  change (set_dstack (strip vm) s) with (strip (set_dstack vm s)). set (vm1 := set_dstack vm s). assert (Hs1 : sound vm1) by exact Hs.
  apply (sim_if _ (negb (inTaproot vm1) && (len sig <? 1))); intros _; [in_step|].
  apply (sim_if _ (negb (isSome (vm_witnessProgram vm1)))); intros _.
  { apply orFalse_twin; [exact Hs1|]. intros b Hb. apply checkSig_verify_twin; [exact Hs1 | exact (newBase_made _ _ _ _ Hb)]. }
  apply (sim_if _ (isWitnessVersionActive vm1 BaseSegwitWitnessVersion)); intros _.
  { apply orFalse_twin; [exact Hs1|]. intros b Hb. apply checkSig_verify_twin; [exact Hs1 | exact (newBase_made _ _ _ _ Hb)]. }
  change (vm_taprootCtx (strip vm1)) with (vm_taprootCtx vm1). destruct (vm_taprootCtx vm1) as [ctx|]; [|now apply checkSig_verify_twin].
  apply (sim_same _ (if 0 <? len sig then tallysigOp ctx else Ok ctx)). intros ctx' _.
  change (set_taprootCtx (strip vm1) (Some ctx')) with (strip (set_taprootCtx vm1 (Some ctx'))). set (vm2 := set_taprootCtx vm1 (Some ctx')).
  apply sim_if; intros _; [reflexivity|]. apply sim_if; intros _; [in_step|].
  apply (sim_same _ (newBaseTapscriptSigVerifier pk sig vm2 ctx')). intros b Hb.
  apply checkSig_verify_twin; [exact Hs | exact (newTapscript_made _ _ _ _ _ Hb)].
Qed.

Lemma opcodeCheckSigAdd_twin : lockstep (opcodeCheckSigAdd evict).
Proof.
  intros op data vm Hs. unfold opcodeCheckSigAdd. change (vm_taprootCtx (strip vm)) with (vm_taprootCtx vm).
  destruct (vm_taprootCtx vm) as [ctx|]; [|reflexivity]. apply sim_same. intros [pk s1] _. apply sim_same. intros [acc s2] _.
  apply sim_same. intros [sig s] _. cbv zeta. apply (sim_same _ (if negb (len sig =? 0) then tallysigOp ctx else Ok ctx)). intros ctx' _.
  change (set_taprootCtx (set_dstack (strip vm) s) (Some ctx')) with (strip (set_taprootCtx (set_dstack vm s) (Some ctx'))).
  set (vm2 := set_taprootCtx (set_dstack vm s) (Some ctx')). assert (Hs2 : sound vm2) by exact Hs.
  apply sim_if; intros _; [reflexivity|]. apply sim_if; intros _; [now apply dstackOp_twin|].
  apply (sim_same _ (newBaseTapscriptSigVerifier pk sig vm2 ctx')). intros b Hb.
  eapply sim_bind; [apply (sv_Verify_twin (TapscriptVerifier b ctx') vm2 Hs2); exact (newTapscript_made _ _ _ _ _ Hb)|].
  intros [v vm3] [v' vm4] [E [E2 H3]]. cbn [fst snd] in *. subst. apply sim_if; intros _; [reflexivity | now apply dstackOp_twin].
Qed.

(** ** Many signatures *)

(** What is recorded of a signature is its parsing. *)
Definition info_made (info : parsedSigInfo) : Prop := forall s, si_parsed info = true -> si_parsedSignature info = Some s ->
  exists (strict : bool) sig, slice (E := scriptErr) (si_signature info) 0 (len (si_signature info) - 1) = Ok sig /\
    (if strict then ParseDERSignature sig else ParseSignature sig) = Some s.

Lemma multisig_verify_twin (strict : bool) script sig pk ht s vm : sound vm ->
  (if strict then ParseDERSignature sig else ParseSignature sig) = Some s ->
  sim twin2 (multisig_verify evict script sig pk ht s vm) (multisig_verify evict script sig pk ht s (strip vm)).
Proof.
  intros Hs Hp. unfold multisig_verify. apply sim_same. intros _ _. destruct (ParsePubKey pk) as [k|] eqn:Ek; [|split; [reflexivity | now apply twin_refl]].
  apply (sim_same _ (if isWitnessVersionActive vm 0 then _ else _)). intros h Hh. cbn [sim]. apply (ecdsa_twin strict); auto.
  destruct (isWitnessVersionActive vm 0); [|exact (calcSignatureHash_len _ _ _ _ _ Hh)].
  apply obind_Ok in Hh. destruct Hh as (m & _ & Hh). exact (calcWitness_len _ _ _ _ _ _ _ Hh).
Qed.

Definition twin3 (p p' : parsedSigInfo * bool * Engine) : Prop := fst p' = fst p /\ twin (snd p) (snd p') /\ info_made (fst (fst p)).

Lemma multisig_try_twin script info pk vm : sound vm -> info_made info ->
  sim twin3 (multisig_try evict script info pk vm) (multisig_try evict script info pk (strip vm)).
Proof.
  intros Hs Hi. unfold multisig_try. apply sim_if; intros _; [split; [reflexivity | split; [now apply twin_refl | exact Hi]]|].
  apply sim_same. intros ht _. apply sim_same. intros sig Hsig.
  apply (sim_same _ (if negb (si_parsed info) then _ else Ok info)). intros info' Hinfo.
  assert (Hi' : info_made info' /\ si_signature info' = si_signature info).
  { destruct (si_parsed info) eqn:Ep; cbn [negb] in Hinfo; [injection Hinfo as <-; now split|].
    apply obind_Ok in Hinfo. destruct Hinfo as (_ & _ & Hinfo). apply obind_Ok in Hinfo. destruct Hinfo as (_ & _ & [= <-]).
    split; [|reflexivity]. intros s _ Hp. cbn [si_parsedSignature si_signature] in *. eexists _, sig. split; [exact Hsig | exact Hp]. }
  destruct Hi' as [Hi' Esig]. destruct (si_parsedSignature info') as [s|] eqn:Es.
  2: { split; [reflexivity | split; [now apply twin_refl | exact Hi']]. }
  assert (Hparsed : si_parsed info' = true).
  { destruct (si_parsed info) eqn:Ep; cbn [negb] in Hinfo; [now injection Hinfo as <-|].
    apply obind_Ok in Hinfo. destruct Hinfo as (_ & _ & Hinfo). apply obind_Ok in Hinfo. now destruct Hinfo as (_ & _ & [= <-]). }
  destruct (Hi' s Hparsed Es) as (strict & sig' & Hsig' & Hp). rewrite Esig, Hsig in Hsig'. injection Hsig' as <-.
  eapply sim_bind; [now apply (multisig_verify_twin strict)|]. intros [b vm1] [b' vm2] [E H]. cbn [fst snd] in *. subst b'.
  split; [reflexivity | split; [exact H | exact Hi']].
Qed.

Lemma multisig_loop_twin script pks : forall infos vm, sound vm -> Forall info_made infos ->
  sim twin2 (multisig_loop evict script infos pks vm) (multisig_loop evict script infos pks (strip vm)).
Proof.
  induction pks as [|pk pks IH]; intros [|info infos] vm Hs Hi; cbn [multisig_loop]; try (split; [reflexivity | now apply twin_refl]).
  apply sim_if; intros _; [split; [reflexivity | now apply twin_refl]|].
  apply Forall_cons_iff in Hi. destruct Hi as [Hi Hr]. eapply sim_bind; [now apply multisig_try_twin|].
  intros [[i1 b1] vm1] [[i2 b2] vm2] (E & [E2 H2] & Hi1). cbn [fst snd] in *. injection E as -> ->. subst vm2.
  apply IH; [exact H2|]. destruct b1; [exact Hr | now constructor].
Qed.

Lemma opcodeCheckMultiSig_twin : lockstep (opcodeCheckMultiSig evict).
Proof.
  intros op data vm Hs. unfold opcodeCheckMultiSig. apply (sim_if _ (inTaproot vm)); intros _; [reflexivity|].
  apply sim_same. intros [nk s1] _. cbv zeta. apply sim_if; intros _; [reflexivity|]. apply sim_if; intros _; [reflexivity|].
  change (vm_numOps (strip vm)) with (vm_numOps vm). set (vm1 := set_numOps vm (vm_numOps vm + Int32 nk)).
  change (set_numOps (strip vm) (vm_numOps vm + Int32 nk)) with (strip vm1). apply (sim_if _ (MaxOpsPerScript <? vm_numOps vm1)); intros _; [reflexivity|].
  apply sim_same. intros [pks s2] _. apply sim_same. intros [ns s3] _. apply sim_if; intros _; [reflexivity|]. apply sim_if; intros _; [reflexivity|].
  apply sim_same. intros [sigs s4] _. apply sim_same. intros [dummy s] _.
  change (set_dstack (strip vm1) s) with (strip (set_dstack vm1 s)). set (vm2 := set_dstack vm1 s). assert (Hs2 : sound vm2) by exact Hs.
  apply (sim_if _ (hasFlag vm2 ScriptStrictMultiSig && negb (len dummy =? 0))); intros _; [reflexivity|].
  apply (sim_same _ (subScript vm2)). intros script _.
  eapply sim_bind; [apply multisig_loop_twin; [exact Hs2|]|].
  { apply Forall_forall. intros i Hin. apply in_map_iff in Hin. destruct Hin as (x & <- & _). intros s' H. discriminate. }
  intros [b vm3] [b' vm4] [E [E2 H3]]. cbn [fst snd] in *. subst. in_step.
Qed.

(** ** The table *)

(** A handler by its name: most are one operation of the stack. *)
Ltac handler_twin :=
  lazymatch goal with
  | |- lockstep opcodeIf => exact opcodeIf_twin
  | |- lockstep opcodeNotIf => exact opcodeNotIf_twin
  | |- lockstep (opcodeCheckSig _) => exact opcodeCheckSig_twin
  | |- lockstep (opcodeCheckSigVerify _) => exact (then_verify _ _ opcodeCheckSig_twin)
  | |- lockstep (opcodeCheckMultiSig _) => exact opcodeCheckMultiSig_twin
  | |- lockstep (opcodeCheckMultiSigVerify _) => exact (then_verify _ _ opcodeCheckMultiSig_twin)
  | |- lockstep (opcodeCheckSigAdd _) => exact opcodeCheckSigAdd_twin
  | |- lockstep opcodeEqualVerify => apply (then_verify opcodeEqual); handler_twin
  | |- lockstep opcodeNumEqualVerify => apply (then_verify opcodeNumEqual); handler_twin
  | |- lockstep opcodeVerify => intros ? ? ? ?; now apply abstractVerify_twin
  | |- lockstep ?f => intros ? ? ? ?; (let h := lazymatch f with ?g _ => g | _ => f end in unfold h);
      lazymatch goal with
      | |- sim _ (dstackOp _ _) _ => now apply dstackOp_twin
      | |- sim _ (unaryNum _ _) _ => now apply dstackOp_twin
      | |- sim _ (binaryNum _ _) _ => now apply dstackOp_twin
      | |- sim _ (hashTop _ _) _ => now apply dstackOp_twin
      | _ => in_step
      end
  end.

Lemma table_twin : Forall (fun e => lockstep (snd e)) (opcodeTable evict).
Proof. unfold opcodeTable. repeat apply Forall_cons; cbn [snd]; try apply Forall_nil; handler_twin. Qed.

Lemma opfunc_twin op : lockstep (opfunc evict op).
Proof.
  unfold opfunc. destruct (_ && _); [handler_twin|]. destruct (_ && _); [handler_twin|].
  destruct (find _ _) as [[k h]|] eqn:E; [|handler_twin].
  apply find_some in E. exact (proj1 (Forall_forall _ _) table_twin _ (proj1 E)).
Qed.

(** ** Steps *)

Lemma executeOpcode_twin op data vm : sound vm -> sim twin (executeOpcode evict op data vm) (executeOpcode evict op data (strip vm)).
Proof.
  intros Hs. unfold executeOpcode. apply sim_if; intros _; [reflexivity|]. apply sim_if; intros _; [reflexivity|].
  eapply (sim_bind twin); [in_step|]. intros vm1 vm2 [-> H1].
  apply (sim_if _ (negb (isBranchExecuting vm1) && negb (isOpcodeConditional op))); intros _; [in_step|].
  apply (sim_same _ (if verifyMinimalData (vm_dstack vm1) && isBranchExecuting vm1 && (0 <=? op) && (op <=? OP_PUSHDATA4) then _ else _)).
  intros _ _. now apply opfunc_twin.
Qed.

Lemma checkWitnessStack_twin vm : sound vm -> sim twin (checkWitnessStack vm) (checkWitnessStack (strip vm)).
Proof. intros Hs. unfold checkWitnessStack. in_step. Qed.

Lemma verifyWitnessV0_twin program witness vm : sound vm -> sim twin (verifyWitnessV0 program witness vm) (verifyWitnessV0 program witness (strip vm)).
Proof. intros Hs. unfold verifyWitnessV0. in_step; now apply checkWitnessStack_twin. Qed.

Lemma verifyTapscript_twin program witness ctx vm : sound vm ->
  sim twin (verifyTapscript program witness ctx vm) (verifyTapscript program witness ctx (strip vm)).
Proof. intros Hs. unfold verifyTapscript. in_step. now apply checkWitnessStack_twin. Qed.

Lemma VerifyTaprootKeySpend_twin program sig vm : sound vm ->
  sim twin (VerifyTaprootKeySpend evict program sig vm) (VerifyTaprootKeySpend evict program sig (strip vm)).
Proof.
  intros Hs. unfold VerifyTaprootKeySpend. apply sim_same. intros ti _. apply sim_same. intros t Ht.
  eapply sim_bind; [apply taproot_verifyWith_twin; [exact Hs | exact (newTaproot_made _ _ _ _ Ht)]|].
  intros [b vm1] [b' vm2] [E [E2 H]]. cbn [fst snd] in *. subst. in_step.
Qed.

Lemma verifyTaproot_twin program witness vm : sound vm -> sim twin (verifyTaproot evict program witness vm) (verifyTaproot evict program witness (strip vm)).
Proof.
  intros Hs. unfold verifyTaproot. apply (sim_if _ (negb (hasFlag vm ScriptVerifyTaproot))); intros _; [in_step|].
  apply sim_if; intros _; [reflexivity|]. cbv zeta. apply sim_same. intros w _. apply sim_if; intros _.
  - apply sim_same. intros sig _. eapply sim_bind; [now apply (VerifyTaprootKeySpend_twin program sig (set_taprootCtx vm _))|].
    intros vm1 vm2 [-> H]. in_step.
  - now apply (verifyTapscript_twin program w _ (set_taprootCtx vm _)).
Qed.

Lemma verifyWitnessProgram_twin witness vm : sound vm ->
  sim twin (verifyWitnessProgram evict witness vm) (verifyWitnessProgram evict witness (strip vm)).
Proof.
  intros Hs. unfold verifyWitnessProgram. change (vm_witnessProgram (strip vm)) with (vm_witnessProgram vm).
  destruct (vm_witnessProgram vm) as [program|]; [|in_step; now apply checkWitnessStack_twin].
  apply (sim_if _ (vm_witnessVersion vm =? BaseSegwitWitnessVersion)); intros _; [now apply verifyWitnessV0_twin|].
  apply (sim_if _ ((vm_witnessVersion vm =? TaprootWitnessVersion) && (len program =? payToTaprootDataSize) && negb (e_bip16 (vm_env vm))));
    intros _; [now apply verifyTaproot_twin|]. in_step. now apply checkWitnessStack_twin.
Qed.

Lemma CheckErrorCondition_twin final vm : sound vm -> sim twin (CheckErrorCondition final vm) (CheckErrorCondition final (strip vm)).
Proof.
  intros Hs. unfold CheckErrorCondition.
  apply (sim_if _ (match vm_taprootCtx vm with Some ctx => tc_mustSucceed ctx | None => false end)); intros _; [in_step|]. in_step.
Qed.

Lemma finishScript_twin vm : sound vm -> sim twin (finishScript evict vm) (finishScript evict (strip vm)).
Proof.
  intros Hs. unfold finishScript. cbv zeta. apply (sim_if _ ((vm_scriptIdx vm =? 0) && e_bip16 (vm_env vm))); intros _; [in_step|].
  apply (sim_if _ ((vm_scriptIdx vm =? 1) && e_bip16 (vm_env vm))); intros _.
  - eapply sim_bind; [now apply (CheckErrorCondition_twin false (nextScript vm))|]. intros vm1 vm2 [-> H]. in_step.
  - apply (sim_if _ (((vm_scriptIdx vm =? 1) && isSome (vm_witnessProgram vm)) || ((vm_scriptIdx vm =? 2) && isSome (vm_witnessProgram vm) && e_bip16 (vm_env vm))));
      intros _; [|in_step]. apply sim_same. intros ti _. now apply (verifyWitnessProgram_twin (wit_items (ti_Witness ti)) (nextScript vm)).
Qed.

(** The end of a step, after the opcode. *)
Lemma Step_twin vm : sound vm -> sim twin2 (Step evict vm) (Step evict (strip vm)).
Proof.
  intros Hs. unfold Step. apply sim_same. intros _ _. change (vm_tokenizer (strip vm)) with (vm_tokenizer vm). destruct (Next (vm_tokenizer vm)) as [more t].
  cbv zeta. apply sim_if; intros _; [destruct (tk_err t); reflexivity|].
  eapply sim_bind; [now apply (executeOpcode_twin (tk_op t) (tk_data t) (set_tokenizer vm t))|]. intros vm1 vm1' [-> H1].
  apply (sim_if _ (MaxStackSize <? i32 (Depth (vm_dstack vm1) + Depth (vm_astack vm1)))); intros _; [reflexivity|].
  apply (sim_if _ (Done (vm_tokenizer vm1))); intros _; [|split; [reflexivity | now split]].
  apply (sim_if _ (negb (len (vm_condStack vm1) =? 0))); intros _; [reflexivity|].
  eapply sim_bind; [now apply (finishScript_twin (set_opcodeIdx (set_numOps (set_astack (set_opcodeIdx vm1 (vm_opcodeIdx vm1 + 1)) _) 0) 0))|].
  intros vm2 vm2' [-> H2].
  set (skip := (vm_scriptIdx vm2 <? len (vm_scripts vm2)) && (len (nth (Z.to_nat (vm_scriptIdx vm2)) (vm_scripts vm2) []) =? 0)).
  change ((vm_scriptIdx (strip vm2) <? _) && _) with skip.
  set (vm3 := set_lastCodeSep (if skip then nextScript vm2 else vm2) 0).
  replace (set_lastCodeSep (if skip then nextScript (strip vm2) else strip vm2) 0) with (strip vm3) by (unfold vm3; now destruct skip).
  assert (H3 : sound vm3) by (unfold vm3; now destruct skip).
  apply (sim_if _ (len (vm_scripts vm3) <=? vm_scriptIdx vm3)); intros _; [split; [reflexivity | now split]|].
  apply (sim_same _ (get_at (vm_scripts vm3) (vm_scriptIdx vm3))). intros script _. split; [reflexivity | now split].
Qed.

(** ** Executions *)

Definition sim_option (r r' : option (outcome scriptErr Engine)) : Prop :=
  match r, r' with Some m, Some m' => sim twin m m' | None, None => True | _, _ => False end.

Lemma run_twin fuel : forall vm, sound vm -> sim_option (run evict fuel vm) (run evict fuel (strip vm)).
Proof.
  induction fuel as [|fuel IH]; intros vm Hs; [exact I|]. cbn [run]. pose proof (Step_twin vm Hs) as H.
  destruct (Step evict vm) as [[d vm1]|e|], (Step evict (strip vm)) as [[d' vm1']|e'|]; cbn [sim] in H; try contradiction; [|now subst|exact I].
  destruct H as [E [E2 H]]. cbn [fst snd] in *. subst. destruct d; [now apply CheckErrorCondition_twin | now apply IH].
Qed.

Lemma Execute_twin vm : sound vm -> sim_option (Execute evict vm) (Execute evict (strip vm)).
Proof.
  intros Hs. unfold Execute. change (vm_env (strip vm)) with (vm_env vm). destruct (negb _); [now split|]. now apply run_twin.
Qed.

Lemma NewEngine_twin pkScript tx idx flags sc hc amt fetch : match sc with Some sh => shared_all verified sh | None => True end ->
  sim twin (NewEngine pkScript tx idx flags sc hc amt fetch) (NewEngine pkScript tx idx flags None hc amt fetch).
Proof. intros Hs. unfold NewEngine. in_step. Qed.
End Cache.

(** ** Properties *)

Definition verdict (r : option (outcome scriptErr Engine)) : option (outcome scriptErr unit) :=
  match r with
  | Some (Ok _) => Some (Ok tt)
  | Some (Err e) => Some (Err e)
  | Some Panic => Some Panic
  | None => None
  end.

Lemma sim_verdict `{C : Crypto} r r' : sim_option r r' -> verdict r = verdict r'.
Proof. destruct r as [[v|e|]|], r' as [[v'|e'|]|]; cbn; intros H; congruence || contradiction. Qed.

(** C36: for every script, transaction, input and flags, an engine with a signature
    cache that holds verified signatures only, and to which other goroutines add
    verified signatures between any two accesses, whatever entries are evicted, is
    created and executes exactly as an engine without a cache: the same success, the
    same error, or a panic; and after success the cache still holds verified
    signatures only. A signature is verified if one of the two ways in which the
    engine checks signatures accepts it for the hash and the key. Assumed of the
    elliptic curve library: a signature that parses under the strict rules parses to
    the same under the others, and what parses as a public key has 33 or 65 bytes,
    as a Schnorr public key 32. *)
Theorem signature_cache_transparent `{C : Crypto} {L : CryptoLaws C} {F : SignatureForms C} evict pkScript tx idx flags sh hc amt fetch :
  shared_all verified sh ->
  match NewEngine pkScript tx idx flags (Some sh) hc amt fetch, NewEngine pkScript tx idx flags None hc amt fetch with
  | Ok vm, Ok vm' => verdict (Execute evict vm) = verdict (Execute evict vm') /\
      forall done sh', Execute evict vm = Some (Ok done) -> vm_sigCache done = Some sh' -> shared_all verified sh'
  | Err e, Err e' => e = e'
  | Panic, Panic => True
  | _, _ => False
  end.
Proof.
  intros Hs. pose proof (NewEngine_twin pkScript tx idx flags (Some sh) hc amt fetch Hs) as H.
  destruct (NewEngine _ _ _ _ (Some sh) _ _ _) as [vm|e|], (NewEngine _ _ _ _ None _ _ _) as [vm'|e'|]; try exact H.
  destruct H as [-> H]. pose proof (Execute_twin evict vm H) as Hx. split; [now apply sim_verdict|].
  intros done sh' Ed Esh. rewrite Ed in Hx. destruct (Execute evict (strip vm)) as [[v|e|]|]; cbn in Hx; try contradiction.
  destruct Hx as [_ Hd]. unfold sound in Hd. now rewrite Esh in Hd.
Qed.

(** A key and a signature that the stand-in for the curve accepts. *)
#[local] Instance toyForms : SignatureForms toyCrypto.
Proof.
  split; cbn [ParseDERSignature ParseSignature ParsePubKey schnorr_ParsePubKey toyCrypto]; intros b k; [auto | |];
    match goal with |- context [len b =? ?n] => destruct (Z.eqb_spec (len b) n) end; congruence || auto.
Qed.

Definition keyBytes : list Z := 2 :: repeat 7 32.
Definition keyScript : list Z := [OP_DATA_33] ++ keyBytes ++ [OP_CHECKSIG].
Definition keyTx (sig : list Z) : MsgTx :=
  mkMsgTx 1 [mkTxIn (mkOutPoint (repeat 0 32) 0) (len sig :: sig) None 0xffffffff] [mkTxOut 1000 []] 0.
Definition keyHash : list Z := match calcSignatureHash (@sha256 toyCrypto) keyScript SigHashAll (keyTx []) 0 with Ok h => h | _ => [] end.
Definition keySig : list Z := keyHash ++ [SigHashAll].
Definition keyCache : SharedCache := mkShared (mkSigCache [] 2) [[mkCacheAdd 0 keyHash keyHash keyBytes]; []; []].

Definition keyAnswer (sc : option SharedCache) : option (outcome scriptErr unit) :=
  match NewEngine keyScript (keyTx keySig) 0 0 sc None 1000 sampleFetch with
  | Ok vm => verdict (Execute (C := toyCrypto) sampleEvict vm)
  | _ => None
  end.

Lemma signature_cache_transparent_witness : keyAnswer (Some keyCache) = Some (Ok tt) /\ keyAnswer (Some keyCache) = keyAnswer None.
Proof.
  assert (Hv : shared_all (verified (C := toyCrypto)) keyCache).
  { split; [constructor|]. repeat constructor. apply (verified_ecdsa (C := toyCrypto) false _ _ _ keyHash keyBytes); vm_compute; reflexivity. }
  pose proof (signature_cache_transparent (C := toyCrypto) (L := toyLaws) (F := toyForms) sampleEvict keyScript (keyTx keySig) 0 0 keyCache None 1000 sampleFetch Hv) as H.
  split; [vm_compute; reflexivity|]. unfold keyAnswer.
  destruct (NewEngine _ _ _ _ (Some keyCache) _ _ _), (NewEngine _ _ _ _ None _ _ _); try contradiction; [exact (proj1 H) | reflexivity..].
Defined.
