(* ===== verification/Treap.v ===== *)
(** * Treaps (database/internal/treap)

    The ordered key/value store behind the pending updates of a database
    transaction: the mutable treap (mutable.go), the immutable one
    (immutable.go) and the stack of parents both use (common.go).

    A tree of nodes that is not shared is a value of [treapNode]; a position in
    it is the node and the stack of its parents, each with the side the path
    took ([frame]), which is what the comparisons of pointers in the source
    decide.  The random priority of a new node is an argument. *)

From Stdlib Require Import String ZArith List Lia Bool Sorting.Sorted.
From S2P Require Import Prelude GoSlice.
Import ListNotations.
Local Open Scope list_scope.
Local Open Scope Z_scope.
Local Open Scope go_scope.

(** ** Nodes *)

Inductive treapNode : Type :=
| nilNode
| Node (key value : list Z) (priority : Z) (left right : treapNode).

Definition nodeFieldsSize : Z := 72.
Definition nodeSize (key value : list Z) : Z := u64 (nodeFieldsSize + (len key + len value)).

(** ** The stack of parents

    A static array of [staticDepth] items and an overflow slice that grows by
    one; a nil item is [None]. *)

Section ParentStack.
Context {A : Type}.

Definition staticDepth : Z := 128.

Record parentStack : Type := mkParentStack {
  ps_index : Z;
  ps_items : list (option A);
  ps_overflow : list (option A)
}.

Definition emptyStack : parentStack := mkParentStack 0 (repeat None (Z.to_nat staticDepth)) [].

Definition ps_Len (s : parentStack) : Z := ps_index s.

Definition ps_At (s : parentStack) (n : Z) : outcome unit (option A) :=
  let index := ps_index s - n - 1 in
  if index <? 0 then Ok None
  else if index <? staticDepth then get_at (ps_items s) index
  else get_at (ps_overflow s) (index - staticDepth).

Definition ps_Pop (s : parentStack) : outcome unit (option A * parentStack) :=
  if ps_index s =? 0 then Ok (None, s)
  else
    let index := ps_index s - 1 in
    if index <? staticDepth then
      let* node := get_at (ps_items s) index in
      let* items := set_at (ps_items s) index None in
      Ok (node, mkParentStack index items (ps_overflow s))
    else
      let* node := get_at (ps_overflow s) (index - staticDepth) in
      let* overflow := set_at (ps_overflow s) (index - staticDepth) None in
      Ok (node, mkParentStack index (ps_items s) overflow).

Definition ps_Push (s : parentStack) (node : A) : outcome unit parentStack :=
  if ps_index s <? staticDepth then
    let* items := set_at (ps_items s) (ps_index s) (Some node) in
    Ok (mkParentStack (ps_index s + 1) items (ps_overflow s))
  else
    let index := ps_index s - staticDepth in
    let* overflow :=
      if len (ps_overflow s) <? index + 1
      then copy_at (repeat None (Z.to_nat (index + 1))) 0 (ps_overflow s)
      else Ok (ps_overflow s) in
    let* overflow := set_at overflow index (Some node) in
    Ok (mkParentStack (ps_index s + 1) (ps_items s) overflow).
End ParentStack.
Arguments parentStack : clear implicits.

(** ** Paths *)

Inductive side : Type := L | R.

(** A parent whose child on side [fr_side] is the rest of the path. *)
Record frame : Type := mkFrame {
  fr_side : side;
  fr_key : list Z;
  fr_value : list Z;
  fr_priority : Z;
  fr_other : treapNode
}.

(** The parent with [child] linked in. *)
Definition link (f : frame) (child : treapNode) : treapNode :=
  match fr_side f with
  | L => Node (fr_key f) (fr_value f) (fr_priority f) child (fr_other f)
  | R => Node (fr_key f) (fr_value f) (fr_priority f) (fr_other f) child
  end.

(** The root reached from a node through its parents, innermost first. *)
Fixpoint zip (node : treapNode) (parents : list frame) : treapNode :=
  match parents with
  | [] => node
  | f :: parents' => zip (link f node) parents'
  end.

(** The search of the insertion point: where it stops, the node there (nil when
    the key does not exist) and its parents. *)
Fixpoint find_path (key : list Z) (node : treapNode) (parents : list frame)
    : treapNode * list frame :=
  match node with
  | nilNode => (nilNode, parents)
  | Node k v p l r =>
      match Compare key k with
      | Lt => find_path key l (mkFrame L k v p r :: parents)
      | Gt => find_path key r (mkFrame R k v p l :: parents)
      | Eq => (node, parents)
      end
  end.

(** The rotations that restore the min-heap above a new node. *)
Fixpoint rotate_up (node : treapNode) (parents : list frame) : treapNode :=
  match node, parents with
  | Node k v p l r, f :: parents' =>
      if fr_priority f <=? p then zip node parents
      else
        match fr_side f with
        | L => rotate_up (Node k v p l (Node (fr_key f) (fr_value f) (fr_priority f) r (fr_other f)))
                 parents'
        | R => rotate_up (Node k v p (Node (fr_key f) (fr_value f) (fr_priority f) (fr_other f) l) r)
                 parents'
        end
  | _, _ => zip node parents
  end.

Fixpoint tree_size (t : treapNode) : nat :=
  match t with
  | nilNode => O
  | Node _ _ _ l r => S (tree_size l + tree_size r)
  end.

(** The rotations that move the node to delete, whose children are [l] and [r],
    down to a leaf and the removal of that leaf; what takes the place of the
    node.  The child with the larger priority is rotated up. *)
Fixpoint rotate_down (fuel : nat) (l r : treapNode) : treapNode :=
  match fuel with
  | O => nilNode
  | S fuel' =>
      match l, r with
      | nilNode, nilNode => nilNode
      | nilNode, Node rk rv rp rl rr => Node rk rv rp (rotate_down fuel' nilNode rl) rr
      | Node lk lv lp ll lr, nilNode => Node lk lv lp ll (rotate_down fuel' lr nilNode)
      | Node lk lv lp ll lr, Node rk rv rp rl rr =>
          if rp <=? lp then Node lk lv lp ll (rotate_down fuel' lr r)
          else Node rk rv rp (rotate_down fuel' l rl) rr
      end
  end.

(** The first loop of ForEach: a node and all children to the left of it. *)
Fixpoint push_lefts (node : treapNode) (parents : list treapNode) : list treapNode :=
  match node with
  | nilNode => parents
  | Node _ _ _ l _ => push_lefts l (node :: parents)
  end.

(** The main loop; [fn] returns its new state and whether to go on. *)
Fixpoint foreach_loop {S} (fuel : nat) (fn : S -> list Z -> list Z -> S * bool)
    (parents : list treapNode) (s : S) : S :=
  match fuel with
  | O => s
  | Datatypes.S fuel' =>
      match parents with
      | Node k v _ _ r :: parents' =>
          let (s, go_on) := fn s k v in
          if go_on then foreach_loop fuel' fn (push_lefts r parents') s else s
      | _ => s
      end
  end.

Definition tree_forEach {S} (root : treapNode) (fn : S -> list Z -> list Z -> S * bool) (s : S) : S :=
  foreach_loop (Datatypes.S (tree_size root)) fn (push_lefts root []) s.

(** ** Mutable treaps *)

Record Mutable : Type := mkMutable { m_root : treapNode; m_count : Z; m_totalSize : Z }.

Definition NewMutable : Mutable := mkMutable nilNode 0 0.
Definition m_Len (t : Mutable) : Z := m_count t.
Definition m_Size (t : Mutable) : Z := m_totalSize t.
Definition m_Reset (t : Mutable) : Mutable := mkMutable nilNode 0 0.

Definition m_get (t : Mutable) (key : list Z) : treapNode * list frame :=
  find_path key (m_root t) [].

Definition m_Has (t : Mutable) (key : list Z) : bool :=
  match m_get t key with (Node _ _ _ _ _, _) => true | _ => false end.

Definition m_Get (t : Mutable) (key : list Z) : option (list Z) :=
  match m_get t key with (Node _ v _ _ _, _) => Some v | _ => None end.

(** A nil value is stored as the empty slice. *)
Definition or_empty (value : option (list Z)) : list Z :=
  match value with Some v => v | None => [] end.

Definition m_Put (rand : Z) (t : Mutable) (key : list Z) (value : option (list Z)) : Mutable :=
  let value := or_empty value in
  match m_root t with
  | nilNode => mkMutable (Node key value rand nilNode nilNode) 1 (nodeSize key value)
  | root =>
      match find_path key root [] with
      | (Node k v p l r, parents) =>
          mkMutable (zip (Node k value p l r) parents) (m_count t)
            (u64 (u64 (m_totalSize t - len v) + len value))
      | (nilNode, parents) =>
          mkMutable (rotate_up (Node key value rand nilNode nilNode) parents)
            (i64 (m_count t + 1)) (u64 (m_totalSize t + nodeSize key value))
      end
  end.

Definition m_Delete (t : Mutable) (key : list Z) : Mutable :=
  match find_path key (m_root t) [] with
  | (nilNode, _) => t
  | (Node _ _ _ nilNode nilNode, []) => mkMutable nilNode 0 0
  | (Node k v _ l r, parents) =>
      mkMutable (zip (rotate_down (S (tree_size l + tree_size r)) l r) parents)
        (i64 (m_count t - 1)) (u64 (m_totalSize t - nodeSize k v))
  end.

Definition m_ForEach {S} (t : Mutable) (fn : S -> list Z -> list Z -> S * bool) (s : S) : S :=
  tree_forEach (m_root t) fn s.

(** ** Immutable treaps

    The operations copy the nodes on the path and return a new treap; the nodes
    they do not copy are shared with the old one. *)

Record Immutable : Type := mkImmutable { i_root : treapNode; i_count : Z; i_totalSize : Z }.

Definition NewImmutable : Immutable := mkImmutable nilNode 0 0.
Definition i_Len (t : Immutable) : Z := i_count t.
Definition i_Size (t : Immutable) : Z := i_totalSize t.

Fixpoint i_get (node : treapNode) (key : list Z) : treapNode :=
  match node with
  | nilNode => nilNode
  | Node k _ _ l r =>
      match Compare key k with Lt => i_get l key | Gt => i_get r key | Eq => node end
  end.

Definition i_Has (t : Immutable) (key : list Z) : bool :=
  match i_get (i_root t) key with Node _ _ _ _ _ => true | nilNode => false end.

Definition i_Get (t : Immutable) (key : list Z) : option (list Z) :=
  match i_get (i_root t) key with Node _ v _ _ _ => Some v | nilNode => None end.

Definition i_put (rand : Z) (t : Immutable) (key : list Z) (value : option (list Z)) : Immutable :=
  let value := or_empty value in
  match i_root t with
  | nilNode => mkImmutable (Node key value rand nilNode nilNode) 1 (nodeSize key value)
  | root =>
      match find_path key root [] with
      | (Node k v p l r, parents) =>
          mkImmutable (zip (Node k value p l r) parents) (i_count t)
            (u64 (u64 (i_totalSize t - len v) + len value))
      | (nilNode, parents) =>
          mkImmutable (rotate_up (Node key value rand nilNode nilNode) parents)
            (i64 (i_count t + 1)) (u64 (i_totalSize t + nodeSize key value))
      end
  end.

(** Put takes the pairs in order, each with its random priority. *)
Fixpoint i_Put (t : Immutable) (kvPairs : list (Z * (list Z * option (list Z)))) : Immutable :=
  match kvPairs with
  | [] => t
  | (rand, (key, value)) :: rest => i_Put (i_put rand t key value) rest
  end.

Definition i_Delete (t : Immutable) (key : list Z) : Immutable :=
  match find_path key (i_root t) [] with
  | (nilNode, _) => t
  | (Node _ _ _ nilNode nilNode, []) => mkImmutable nilNode 0 0
  | (Node k v _ l r, parents) =>
      mkImmutable (zip (rotate_down (S (tree_size l + tree_size r)) l r) parents)
        (i64 (i_count t - 1)) (u64 (i_totalSize t - nodeSize k v))
  end.

Definition i_ForEach {S} (t : Immutable) (fn : S -> list Z -> list Z -> S * bool) (s : S) : S :=
  tree_forEach (i_root t) fn s.

(** ** Lemmas: the order of keys *)

Definition klt (a b : list Z) : Prop := Compare a b = Lt.

Lemma Compare_Gt a b : Compare a b = Gt <-> klt b a.
Proof. unfold klt. rewrite (Compare_antisym a b). destruct (Compare a b); simpl; split; congruence. Qed.

Lemma klt_trans a : forall b c, klt a b -> klt b c -> klt a c.
Proof.
  unfold klt. induction a as [|x a IH]; intros [|y b] [|z c]; simpl; try congruence.
  destruct (Z.compare_spec x y), (Z.compare_spec y z), (Z.compare_spec x z);
    try congruence; try lia; subst; eauto.
Qed.

Lemma klt_irrefl a : ~ klt a a.
Proof. intros H. unfold klt in H. rewrite (proj2 (Compare_Eq a a) eq_refl) in H. discriminate. Qed.

#[export] Instance klt_transitive : RelationClasses.Transitive klt.
Proof. intros a b c. apply klt_trans. Qed.

(** ** Sorted association lists: the abstract store *)

Definition entry_lt (x y : list Z * list Z) : Prop := klt (fst x) (fst y).
Definition sorted (l : list (list Z * list Z)) : Prop := StronglySorted entry_lt l.

Definition below (k : list Z) (l : list (list Z * list Z)) : Prop := Forall (fun e => klt (fst e) k) l.
Definition above (k : list Z) (l : list (list Z * list Z)) : Prop := Forall (fun e => klt k (fst e)) l.

(** Lookup, insertion and removal of a key. *)
Fixpoint al_get (k : list Z) (l : list (list Z * list Z)) : option (list Z) :=
  match l with
  | [] => None
  | (k', v) :: l' => match Compare k k' with Eq => Some v | _ => al_get k l' end
  end.
Fixpoint al_put (k v : list Z) (l : list (list Z * list Z)) : list (list Z * list Z) :=
  match l with
  | [] => [(k, v)]
  | (k', v') :: l' =>
      match Compare k k' with
      | Lt => (k, v) :: l
      | Eq => (k, v) :: l'
      | Gt => (k', v') :: al_put k v l'
      end
  end.
Definition al_del (k : list Z) (l : list (list Z * list Z)) : list (list Z * list Z) :=
  filter (fun e => match Compare k (fst e) with Eq => false | _ => true end) l.

Lemma sorted_app l1 l2 :
  sorted (l1 ++ l2) <->
  sorted l1 /\ sorted l2 /\ Forall (fun x => Forall (entry_lt x) l2) l1.
Proof.
  unfold sorted. induction l1 as [|x l1 IH]; simpl.
  - split; [intros H; repeat split; auto; constructor | tauto].
  - split.
    + intros H. inversion_clear H as [|? ? H1 H2]. apply IH in H1. destruct H1 as (A & B & C).
      apply Forall_app in H2. destruct H2 as [H2 H3]. repeat split; [constructor; auto | auto | constructor; auto].
    + intros (H1 & H2 & H3). inversion_clear H1 as [|? ? A B]. inversion_clear H3 as [|? ? C D].
      constructor; [apply IH; auto | apply Forall_app; auto].
Qed.

Lemma sorted_mid l1 e l2 :
  sorted (l1 ++ e :: l2) <->
  sorted l1 /\ sorted l2 /\ below (fst e) l1 /\ above (fst e) l2.
Proof.
  unfold below, above. rewrite sorted_app. split.
  - intros (H1 & H2 & H3). inversion_clear H2 as [|? ? A B]. repeat split; auto.
    eapply Forall_impl; [|exact H3]. intros x Hx. now inversion_clear Hx.
  - intros (H1 & H2 & H3 & H4). repeat split; auto; [constructor; auto|].
    eapply Forall_impl; [|exact H3]. intros x Hx. simpl in Hx. constructor; [exact Hx|].
    eapply Forall_impl; [|exact H4]. intros y Hy. unfold entry_lt. eapply klt_trans; eauto.
Qed.

(** What the three operations do around a position. *)
Lemma al_get_app k l1 l2 : below k l1 -> al_get k (l1 ++ l2) = al_get k l2.
Proof.
  induction 1 as [|[k' v'] l1 H Hl IH]; simpl; [reflexivity|].
  simpl in H. apply Compare_Gt in H. now rewrite H.
Qed.
Lemma al_get_above k l : above k l -> al_get k l = None.
Proof. induction 1 as [|[k' v'] l H Hl IH]; simpl; [reflexivity|]. unfold klt in H. simpl in H. now rewrite H. Qed.
Lemma al_put_app k v l1 l2 : below k l1 -> al_put k v (l1 ++ l2) = l1 ++ al_put k v l2.
Proof.
  induction 1 as [|[k' v'] l1 H Hl IH]; simpl; [reflexivity|].
  simpl in H. apply Compare_Gt in H. now rewrite H, IH.
Qed.
Lemma al_put_above k v l : above k l -> al_put k v l = (k, v) :: l.
Proof. destruct 1 as [|[k' v'] l H Hl]; simpl; [reflexivity|]. unfold klt in H. simpl in H. now rewrite H. Qed.
Lemma al_del_app k l1 l2 : al_del k (l1 ++ l2) = al_del k l1 ++ al_del k l2.
Proof. apply filter_app. Qed.
Lemma al_del_below k l : below k l -> al_del k l = l.
Proof.
  unfold al_del. induction 1 as [|e l H Hl IH]; simpl; [reflexivity|].
  apply Compare_Gt in H. now rewrite H, IH.
Qed.
Lemma al_del_above k l : above k l -> al_del k l = l.
Proof.
  unfold al_del. induction 1 as [|e l H Hl IH]; simpl; [reflexivity|].
  unfold klt in H. now rewrite H, IH.
Qed.

Lemma al_put_lower k v k0 l : klt k0 k -> above k0 l -> above k0 (al_put k v l).
Proof.
  intros Hk. induction 1 as [|[k' v'] l H Hl IH]; simpl; [repeat constructor; auto|].
  destruct (Compare k k'); constructor; auto; constructor; auto.
Qed.

Lemma al_put_sorted k v l : sorted l -> sorted (al_put k v l).
Proof.
  unfold sorted. induction 1 as [|[k' v'] l H IH Hl]; simpl; [repeat constructor|].
  destruct (Compare k k') eqn:E.
  - apply Compare_Eq in E as ->. now constructor.
  - constructor; [now constructor|]. constructor; [exact E|].
    eapply Forall_impl; [|exact Hl]. intros e He. simpl in He. eapply klt_trans; eauto.
  - constructor; [exact IH|]. apply al_put_lower; [now apply Compare_Gt | exact Hl].
Qed.

Lemma al_del_sorted k l : sorted l -> sorted (al_del k l).
Proof.
  unfold sorted, al_del. induction 1 as [|e l H IH Hl]; simpl; [constructor|].
  destruct (Compare k (fst e)); try assumption; constructor; try assumption;
    apply Forall_forall; intros x Hx; apply filter_In in Hx; rewrite Forall_forall in Hl; now apply Hl.
Qed.

Lemma al_get_put k k' v l :
  al_get k' (al_put k v l) = match Compare k' k with Eq => Some v | _ => al_get k' l end.
Proof.
  induction l as [|[k0 v0] l IH]; simpl; [now destruct (Compare k' k)|].
  destruct (Compare k k0) eqn:E; simpl.
  - apply Compare_Eq in E as ->. now destruct (Compare k' k0).
  - now destruct (Compare k' k).
  - rewrite IH. destruct (Compare k' k0) eqn:E0; try reflexivity.
    apply Compare_Eq in E0 as ->. rewrite Compare_antisym, E. reflexivity.
Qed.

Lemma al_get_del k k' l :
  al_get k' (al_del k l) = match Compare k' k with Eq => None | _ => al_get k' l end.
Proof.
  unfold al_del. induction l as [|[k0 v0] l IH]; simpl; [now destruct (Compare k' k)|].
  destruct (Compare k k0) eqn:E; simpl; rewrite IH.
  - apply Compare_Eq in E as ->. now destruct (Compare k' k0).
  - destruct (Compare k' k0) eqn:E0; try reflexivity.
    apply Compare_Eq in E0 as ->. now rewrite Compare_antisym, E.
  - destruct (Compare k' k0) eqn:E0; try reflexivity.
    apply Compare_Eq in E0 as ->. now rewrite Compare_antisym, E.
Qed.

Lemma al_get_In k v l : sorted l -> In (k, v) l <-> al_get k l = Some v.
Proof.
  unfold sorted. induction 1 as [|[k0 v0] l H IH Hl]; simpl; [split; [tauto | discriminate]|].
  destruct (Compare k k0) eqn:E.
  - apply Compare_Eq in E as ->. split; [|intros [= ->]; auto].
    intros [[= ->]|Hin]; [reflexivity|]. rewrite Forall_forall in Hl.
    exfalso. exact (klt_irrefl k0 (Hl _ Hin)).
  - rewrite <- IH. split; [|auto]. intros [[= -> ->]|Hin]; [|exact Hin].
    rewrite (proj2 (Compare_Eq k k) eq_refl) in E. discriminate.
  - rewrite <- IH. split; [|auto]. intros [[= -> ->]|Hin]; [|exact Hin].
    rewrite (proj2 (Compare_Eq k k) eq_refl) in E. discriminate.
Qed.

(** ** Lemmas: trees and paths *)

Fixpoint elements (t : treapNode) : list (list Z * list Z) :=
  match t with
  | nilNode => []
  | Node k v _ l r => elements l ++ (k, v) :: elements r
  end.

(** The entries to the left and to the right of a path. *)
Fixpoint lefts (parents : list frame) : list (list Z * list Z) :=
  match parents with
  | [] => []
  | f :: ps =>
      match fr_side f with
      | L => lefts ps
      | R => lefts ps ++ elements (fr_other f) ++ [(fr_key f, fr_value f)]
      end
  end.
Fixpoint rights (parents : list frame) : list (list Z * list Z) :=
  match parents with
  | [] => []
  | f :: ps =>
      match fr_side f with
      | L => (fr_key f, fr_value f) :: elements (fr_other f) ++ rights ps
      | R => rights ps
      end
  end.

Lemma elements_zip ps : forall t, elements (zip t ps) = lefts ps ++ elements t ++ rights ps.
Proof.
  induction ps as [|[s k v p o] ps IH]; intros t; simpl; [now rewrite app_nil_r|].
  rewrite IH. destruct s; simpl; rewrite <- ?app_assoc; simpl; now rewrite <- ?app_assoc.
Qed.

Lemma elements_zip_node k v p l r ps :
  elements (zip (Node k v p l r) ps) =
  (lefts ps ++ elements l) ++ (k, v) :: (elements r ++ rights ps).
Proof. rewrite elements_zip. cbn [elements]. now rewrite <- !app_assoc. Qed.

Lemma elements_rotate_up ps : forall t, elements (rotate_up t ps) = elements (zip t ps).
Proof.
  induction ps as [|[s k v p o] ps IH]; intros [|k0 v0 p0 l r]; try reflexivity.
  cbn [rotate_up fr_priority fr_side fr_key fr_value fr_other].
  destruct (p <=? p0); [reflexivity|].
  destruct s; rewrite IH, !elements_zip; simpl; rewrite <- ?app_assoc; simpl; now rewrite <- ?app_assoc.
Qed.

Lemma elements_rotate_down fuel : forall l r,
  (tree_size l + tree_size r < fuel)%nat -> elements (rotate_down fuel l r) = elements l ++ elements r.
Proof.
  induction fuel as [|fuel IH]; intros l r H; [lia|].
  destruct l as [|lk lv lp ll lr], r as [|rk rv rp rl rr]; cbn [rotate_down]; simpl in H.
  - reflexivity.
  - cbn [elements]. rewrite IH by (simpl; lia). reflexivity.
  - cbn [elements]. rewrite IH by (simpl; lia). simpl. now rewrite !app_nil_r.
  - destruct (rp <=? lp); cbn [elements]; rewrite IH by (simpl; lia); cbn [elements];
      rewrite <- ?app_assoc; reflexivity.
Qed.

Lemma tree_size_elements t : tree_size t = List.length (elements t).
Proof. induction t; simpl; [reflexivity|]. rewrite length_app. simpl. lia. Qed.

(** The search splits the entries around the key. *)
Lemma find_path_spec key node : forall parents,
  sorted (elements (zip node parents)) -> below key (lefts parents) -> above key (rights parents) ->
  let (n, ps) := find_path key node parents in
  zip n ps = zip node parents /\
  match n with
  | nilNode => below key (lefts ps) /\ above key (rights ps)
  | Node k v p l r =>
      k = key /\ below key (lefts ps ++ elements l) /\ above key (elements r ++ rights ps)
  end.
Proof.
  induction node as [|k v p l IHl r IHr]; intros parents Hs Hb Ha; cbn [find_path];
    [repeat split; assumption|].
  pose proof Hs as Hs'. rewrite elements_zip in Hs'. cbn [elements] in Hs'.
  rewrite <- app_assoc, app_assoc in Hs'. cbn [app] in Hs'. apply sorted_mid in Hs'.
  destruct Hs' as (_ & _ & H1 & H2). simpl in H1, H2.
  destruct (Compare key k) eqn:E.
  - apply Compare_Eq in E as ->. repeat split; assumption.
  - apply (IHl (mkFrame L k v p r :: parents)); [exact Hs | exact Hb |].
    simpl. constructor; [exact E|]. eapply Forall_impl; [|exact H2]. intros e He. simpl in He. eapply klt_trans; eauto.
  - apply Compare_Gt in E. apply (IHr (mkFrame R k v p l :: parents)); [exact Hs | | exact Ha].
    simpl. rewrite app_assoc. apply Forall_app. split; [|repeat constructor; exact E].
    eapply Forall_impl; [|exact H1]. intros e He. simpl in He. eapply klt_trans; eauto.
Qed.

Lemma find_root key t :
  sorted (elements t) ->
  let (n, ps) := find_path key t [] in
  zip n ps = t /\
  match n with
  | nilNode => below key (lefts ps) /\ above key (rights ps)
  | Node k v p l r =>
      k = key /\ below key (lefts ps ++ elements l) /\ above key (elements r ++ rights ps)
  end.
Proof. intros H. apply (find_path_spec key t []); [exact H | constructor | constructor]. Qed.

(** The three operations on the entries. *)
Lemma elements_get key t :
  sorted (elements t) ->
  match fst (find_path key t []) with Node _ v _ _ _ => Some v | nilNode => None end =
  al_get key (elements t).
Proof.
  intros Hs. pose proof (find_root key t Hs) as H. destruct (find_path key t []) as [n ps].
  destruct H as [Hz H]. rewrite <- Hz, elements_zip. simpl.
  destruct n as [|k v p l r].
  - destruct H as [Hb Ha]. simpl. now rewrite al_get_app, al_get_above.
  - destruct H as (-> & Hb & Ha). rewrite <- elements_zip, elements_zip_node, al_get_app by exact Hb.
    simpl. now rewrite (proj2 (Compare_Eq key key) eq_refl).
Qed.

Lemma elements_update key value t k v p l r ps :
  sorted (elements t) -> find_path key t [] = (Node k v p l r, ps) ->
  elements (zip (Node k value p l r) ps) = al_put key value (elements t).
Proof.
  intros Hs E. pose proof (find_root key t Hs) as H. rewrite E in H.
  destruct H as (Hz & -> & Hb & Ha). rewrite <- Hz, !elements_zip_node, al_put_app by exact Hb.
  cbn [al_put].
  now rewrite (proj2 (Compare_Eq key key) eq_refl).
Qed.

Lemma elements_insert key value prio t ps :
  sorted (elements t) -> find_path key t [] = (nilNode, ps) ->
  elements (rotate_up (Node key value prio nilNode nilNode) ps) = al_put key value (elements t).
Proof.
  intros Hs E. pose proof (find_root key t Hs) as H. rewrite E in H.
  destruct H as (Hz & Hb & Ha). rewrite <- Hz, elements_rotate_up, !elements_zip. simpl.
  now rewrite al_put_app, al_put_above.
Qed.

Lemma elements_remove key t k v p l r ps :
  sorted (elements t) -> find_path key t [] = (Node k v p l r, ps) ->
  elements (zip (rotate_down (S (tree_size l + tree_size r)) l r) ps) = al_del key (elements t).
Proof.
  intros Hs E. pose proof (find_root key t Hs) as H. rewrite E in H.
  destruct H as (Hz & -> & Hb & Ha).
  rewrite <- Hz, elements_zip_node, elements_zip, elements_rotate_down by lia.
  change ((key, v) :: elements r ++ rights ps) with ([(key, v)] ++ elements r ++ rights ps).
  rewrite (al_del_app key (lefts ps ++ elements l)), (al_del_app key [_]), (al_del_below _ _ Hb),
    (al_del_above _ _ Ha).
  unfold al_del. simpl. rewrite (proj2 (Compare_Eq key key) eq_refl). now rewrite <- !app_assoc.
Qed.

(** ** Lemmas: counts and sizes *)

Definition entries_size (l : list (list Z * list Z)) : Z :=
  fold_right (fun e n => nodeFieldsSize + (len (fst e) + len (snd e)) + n) 0 l.

Lemma entries_size_app l1 l2 : entries_size (l1 ++ l2) = entries_size l1 + entries_size l2.
Proof. induction l1 as [|e l1 IH]; simpl; [lia|]. rewrite IH. lia. Qed.

(** The well-formed treaps: the keys in order, the count and the size those of
    the entries, modulo the width of the fields. *)
Record treap_wf (root : treapNode) (count totalSize : Z) : Prop := {
  wf_sorted : sorted (elements root);
  wf_count : count = i64 (len (elements root));
  wf_size : totalSize = u64 (entries_size (elements root))
}.

Lemma u64_add a b c : u64 (u64 (u64 a - b) + c) = u64 (a - b + c).
Proof. unfold u64. now rewrite Zminus_mod_idemp_l, Zplus_mod_idemp_l. Qed.
Lemma u64_add1 a b : u64 (u64 a + u64 b) = u64 (a + b).
Proof. unfold u64. now rewrite <- Z.add_mod by lia. Qed.
Lemma u64_sub1 a b : u64 (u64 a - u64 b) = u64 (a - b).
Proof. unfold u64. now rewrite <- Zminus_mod. Qed.
Lemma i64_add a b : i64 (i64 a + b) = i64 (a + b).
Proof.
  unfold i64. replace ((a + 2 ^ 63) mod 2 ^ 64 - 2 ^ 63 + b + 2 ^ 63) with ((a + 2 ^ 63) mod 2 ^ 64 + b) by lia.
  rewrite Z.add_mod_idemp_l by lia. do 2 f_equal. lia.
Qed.

Lemma treap_put_ok t key value rand :
  treap_wf (m_root t) (m_count t) (m_totalSize t) ->
  let t' := m_Put rand t key value in
  treap_wf (m_root t') (m_count t') (m_totalSize t') /\
  elements (m_root t') = al_put key (or_empty value) (elements (m_root t)).
Proof.
  intros [Hs Hc Hz]. cbn zeta. destruct t as [root count total]. unfold m_Put. cbn [m_root m_count m_totalSize] in *.
  set (val := or_empty value). destruct root as [|rk rv rp rl rr].
  { split; [|reflexivity]. split; simpl; [repeat constructor | reflexivity|].
    unfold nodeSize. now rewrite Z.add_0_r. }
  remember (Node rk rv rp rl rr) as root eqn:Er. clear Er.
  pose proof (find_root key root Hs) as Hf. destruct (find_path key root []) as [[|k v p l r] ps] eqn:E;
    cbn [m_root m_count m_totalSize].
  - pose proof (elements_insert key val rand root ps Hs E) as Hel.
    split; [|exact Hel]. pose proof (al_put_sorted key val _ Hs) as Hs'. rewrite <- Hel in Hs'.
    destruct Hf as [Hzip _]. simpl in Hzip.
    assert (Hperm : elements (rotate_up (Node key val rand nilNode nilNode) ps) =
                    lefts ps ++ (key, val) :: rights ps) by now rewrite elements_rotate_up, elements_zip.
    assert (Hroot : elements root = lefts ps ++ rights ps) by now rewrite <- Hzip, elements_zip.
    split; [exact Hs'| |]; rewrite Hperm.
    + rewrite Hc, i64_add, Hroot. f_equal. autorewrite with lens. lia.
    + rewrite Hz, Hroot. unfold nodeSize. rewrite u64_add1. f_equal.
      rewrite !entries_size_app. simpl. lia.
  - pose proof (elements_update key val root k v p l r ps Hs E) as Hel.
    split; [|exact Hel]. pose proof (al_put_sorted key val _ Hs) as Hs'. rewrite <- Hel in Hs'.
    destruct Hf as [Hzip _]. rewrite <- Hzip in Hc, Hz.
    split; [exact Hs'| |]; rewrite elements_zip_node in *.
    + rewrite Hc. f_equal. now autorewrite with lens.
    + rewrite Hz, u64_add. f_equal. rewrite !entries_size_app. simpl. lia.
Qed.

Lemma treap_delete_ok t key :
  treap_wf (m_root t) (m_count t) (m_totalSize t) ->
  let t' := m_Delete t key in
  treap_wf (m_root t') (m_count t') (m_totalSize t') /\
  elements (m_root t') = al_del key (elements (m_root t)).
Proof.
  intros Hwf. pose proof Hwf as [Hs Hc Hz]. cbn zeta. unfold m_Delete.
  pose proof (find_root key (m_root t) Hs) as Hf.
  destruct (find_path key (m_root t) []) as [[|k v p l r] ps] eqn:E.
  - split; [exact Hwf|]. destruct Hf as (Hzip & Hb & Ha).
    rewrite <- Hzip, elements_zip. simpl. now rewrite al_del_app, al_del_below, al_del_above.
  - pose proof (elements_remove key _ k v p l r ps Hs E) as Hel.
    pose proof (al_del_sorted key _ Hs) as Hs'.
    destruct Hf as (Hzip & -> & _ & _). rewrite <- Hzip in Hc, Hz.
    assert (Hcase : (l = nilNode /\ r = nilNode /\ ps = []) \/
      (match l, r, ps with nilNode, nilNode, [] => mkMutable nilNode 0 0 | _, _, _ =>
        mkMutable (zip (rotate_down (S (tree_size l + tree_size r)) l r) ps)
          (i64 (m_count t - 1)) (u64 (m_totalSize t - nodeSize key v)) end) =
        mkMutable (zip (rotate_down (S (tree_size l + tree_size r)) l r) ps)
          (i64 (m_count t - 1)) (u64 (m_totalSize t - nodeSize key v))).
    { destruct l, r, ps; auto. }
    destruct Hcase as [(-> & -> & ->) | ->]; cbn [m_root m_count m_totalSize].
    + simpl in Hel. rewrite <- Hel. split; [|reflexivity]. split; [constructor | reflexivity | reflexivity].
    + split; [|exact Hel]. rewrite <- Hel in Hs'. rewrite elements_zip_node in Hc, Hz.
      split; [exact Hs'| |]; rewrite elements_zip, elements_rotate_down by lia.
      * rewrite Hc, <- Z.add_opp_r, i64_add. f_equal. autorewrite with lens. lia.
      * rewrite Hz. unfold nodeSize. rewrite u64_sub1. f_equal.
        rewrite !entries_size_app. simpl. rewrite !entries_size_app. lia.
Qed.

(** ** Lemmas: the min-heap *)

Definition prio_ge (p : Z) (t : treapNode) : Prop :=
  match t with nilNode => True | Node _ _ q _ _ => p <= q end.
Fixpoint heap (t : treapNode) : Prop :=
  match t with
  | nilNode => True
  | Node _ _ p l r => prio_ge p l /\ prio_ge p r /\ heap l /\ heap r
  end.

(** A path that is a heap from the priority [p] of the hole up. *)
Fixpoint path_heap (p : Z) (parents : list frame) : Prop :=
  match parents with
  | [] => True
  | f :: ps =>
      fr_priority f <= p /\ prio_ge (fr_priority f) (fr_other f) /\ heap (fr_other f) /\
      path_heap (fr_priority f) ps
  end.

Lemma prio_ge_le p q t : p <= q -> prio_ge q t -> prio_ge p t.
Proof. destruct t; simpl; [trivial|lia]. Qed.

Lemma path_heap_le p q ps : p <= q -> path_heap p ps -> path_heap q ps.
Proof. destruct ps; simpl; [trivial|]. intros ? (? & ? & ? & ?). repeat split; auto. lia. Qed.

Lemma heap_zip ps : forall t p,
  heap t -> prio_ge p t -> path_heap p ps -> heap (zip t ps).
Proof.
  induction ps as [|[s k v q o] ps IH]; intros t p Ht Hp Hps; [exact Ht|].
  simpl in Hps. destruct Hps as (H1 & H2 & H3 & H4). simpl.
  apply (IH _ q); [|destruct s; simpl; lia|exact H4].
  pose proof (prio_ge_le q p t H1 Hp). destruct s; simpl; auto.
Qed.

(** A heap splits at any position. *)
Lemma heap_unzip ps : forall t,
  heap (zip t ps) -> heap t /\
  match ps with [] => True | f :: _ => prio_ge (fr_priority f) t /\ path_heap (fr_priority f) ps end.
Proof.
  induction ps as [|[s k v q o] ps IH]; intros t H; [auto|].
  simpl in H. apply IH in H. destruct H as [H1 H2]. cbn [fr_priority path_heap fr_other].
  assert (Hps : path_heap q ps).
  { destruct ps as [|f ps]; [exact I|]. destruct H2 as [H2 H3].
    destruct s; simpl in H2; eapply path_heap_le; eauto. }
  destruct s; simpl in H1; destruct H1 as (? & ? & ? & ?); repeat split; auto; lia.
Qed.

(** The rotations above a node whose children already respect the path. *)
Lemma heap_rotate_up ps : forall k v p l r,
  heap (Node k v p l r) ->
  match ps with
  | [] => True
  | f :: _ => prio_ge (fr_priority f) l /\ prio_ge (fr_priority f) r /\ path_heap (fr_priority f) ps
  end ->
  heap (rotate_up (Node k v p l r) ps).
Proof.
  induction ps as [|[s k0 v0 q o] ps IH]; intros k v p l r Hn Hps; [exact Hn|].
  destruct Hps as (Hl & Hr & Hp). cbn [rotate_up fr_priority fr_side fr_key fr_value fr_other] in *.
  destruct (Z.leb_spec q p) as [Hle|Hgt].
  { apply (heap_zip _ _ p); [exact Hn | simpl; lia | eapply path_heap_le; eauto]. }
  simpl in Hp, Hn. destruct Hp as (_ & Ho & Hho & Hps). destruct Hn as (H1 & H2 & H3 & H4).
  assert (Hnext : match ps with [] => True | f :: _ => fr_priority f <= q /\ path_heap (fr_priority f) ps end).
  { destruct ps as [|f ps]; [exact I|]. simpl in Hps. split; [apply Hps|]. simpl. intuition lia. }
  destruct s; apply IH; simpl; try (repeat split; auto; lia);
    destruct ps as [|f ps]; auto; destruct Hnext as [Hf Hpf]; (split; [|split; [|exact Hpf]]);
    simpl; solve [exact Hf | apply (prio_ge_le _ q); assumption].
Qed.

Lemma heap_find key t n ps :
  find_path key t [] = (n, ps) -> sorted (elements t) -> heap t -> heap (zip n ps).
Proof.
  intros E Hs Hh. pose proof (find_root key t Hs) as H. rewrite E in H. destruct H as [-> _]. exact Hh.
Qed.

Lemma heap_put rand t key value :
  sorted (elements (m_root t)) -> heap (m_root t) -> heap (m_root (m_Put rand t key value)).
Proof.
  intros Hs Hh. destruct t as [root count total]. unfold m_Put. cbn [m_root m_count m_totalSize] in *.
  destruct root as [|rk rv rp rl rr]; [simpl; auto|].
  remember (Node rk rv rp rl rr) as root eqn:Er. clear Er.
  destruct (find_path key root []) as [[|k v p l r] ps] eqn:E; cbn [m_root];
    apply heap_find in E; auto; apply heap_unzip in E; destruct E as [E1 E2].
  - apply heap_rotate_up; [simpl; auto|]. destruct ps; [exact I|]. simpl in *. tauto.
  - destruct ps as [|f ps]; [exact E1|]. destruct E2 as [E2 E3].
    apply (heap_zip _ _ (fr_priority f)); [exact E1 | exact E2 | exact E3].
Qed.

(** Moving a node with two children of different priorities down never gives a
    heap: the child with the larger priority ends above the other one. *)
Lemma rotate_down_not_heap fuel : forall lk lv lp ll lr rk rv rp rl rr,
  let l := Node lk lv lp ll lr in let r := Node rk rv rp rl rr in
  (tree_size l + tree_size r < fuel)%nat -> heap l -> heap r -> lp <> rp ->
  ~ heap (rotate_down fuel l r).
Proof.
  induction fuel as [|fuel IH]; intros lk lv lp ll lr rk rv rp rl rr l r Hf Hl Hr Hne; [lia|].
  subst l r. cbn [rotate_down]. cbn [tree_size] in Hf.
  destruct (Z.leb_spec rp lp) as [Hle|Hgt]; intros Hh; simpl in Hh; destruct Hh as (G1 & G2 & G3 & G4).
  - destruct lr as [|lrk lrv lrp lrl lrr].
    + destruct fuel; [lia|]. simpl in G2. lia.
    + revert G4. simpl in Hl. apply IH; [simpl in *; lia | apply Hl | exact Hr | lia].
  - destruct rl as [|rlk rlv rlp rll rlr].
    + destruct fuel; [lia|]. simpl in G1. lia.
    + revert G3. simpl in Hr. apply IH; [simpl in *; lia | exact Hl | apply Hr | lia].
Qed.

(** ** Lemmas: traversal *)

(** The fold of [fn] over the entries that stops when [fn] says so. *)
Fixpoint fold_until {S} (fn : S -> list Z -> list Z -> S * bool) (l : list (list Z * list Z)) (s : S) : S :=
  match l with
  | [] => s
  | (k, v) :: l' => let (s, go_on) := fn s k v in if go_on then fold_until fn l' s else s
  end.

(** What a stack of parents has still to visit. *)
Definition pending (parents : list treapNode) : list (list Z * list Z) :=
  flat_map (fun n => match n with nilNode => [] | Node k v _ _ r => (k, v) :: elements r end) parents.
Definition real (n : treapNode) : Prop := n <> nilNode.

Lemma push_lefts_spec n : forall ps,
  Forall real ps ->
  pending (push_lefts n ps) = elements n ++ pending ps /\ Forall real (push_lefts n ps).
Proof.
  induction n as [|k v p l IHl r _]; intros ps Hps; [auto|]. cbn [push_lefts].
  destruct (IHl (Node k v p l r :: ps)) as [H1 H2]; [constructor; [discriminate|exact Hps]|].
  split; [|exact H2]. rewrite H1. cbn [elements]. rewrite <- app_assoc. reflexivity.
Qed.

Lemma foreach_loop_spec {S} (fn : S -> list Z -> list Z -> S * bool) fuel : forall ps s,
  Forall real ps -> (List.length (pending ps) < fuel)%nat ->
  foreach_loop fuel fn ps s = fold_until fn (pending ps) s.
Proof.
  induction fuel as [|fuel IH]; intros ps s Hps Hf; [lia|].
  destruct ps as [|[|k v p l r] ps]; [reflexivity|inversion Hps; now destruct H1|].
  inversion_clear Hps as [|? ? _ Hps']. cbn [foreach_loop].
  change (pending (Node k v p l r :: ps)) with (((k, v) :: elements r) ++ pending ps) in *.
  cbn [app fold_until List.length] in *. destruct (fn s k v) as [s' go_on].
  destruct go_on; [|reflexivity].
  destruct (push_lefts_spec r ps Hps') as [H1 H2]. rewrite IH; rewrite ?H1; auto. lia.
Qed.

Lemma tree_forEach_spec {S} root (fn : S -> list Z -> list Z -> S * bool) s :
  tree_forEach root fn s = fold_until fn (elements root) s.
Proof.
  unfold tree_forEach. destruct (push_lefts_spec root [] (Forall_nil _)) as [H1 H2].
  simpl in H1. rewrite app_nil_r in H1. rewrite foreach_loop_spec, H1; auto.
  rewrite H1, tree_size_elements. lia.
Qed.

(** ** Lemmas: the stack of parents *)

Section StackLemmas.
Context {A : Type}.

(** [s] holds the items of [l], topmost first: the first [staticDepth] of the
    reversed list in the array, the others in the overflow slice. *)
Definition stack_of (s : parentStack A) (l : list A) : Prop :=
  exists a b j,
    rev l = a ++ b /\ len a <= staticDepth /\ (b <> [] -> len a = staticDepth) /\
    ps_items s = map Some a ++ repeat None (Z.to_nat (staticDepth - len a)) /\
    ps_overflow s = map Some b ++ repeat None j /\ ps_index s = len l.

Lemma rev_len (l : list A) : len (rev l) = len l.
Proof. unfold len. now rewrite length_rev. Qed.
Lemma map_len {B} (f : A -> B) l : len (map f l) = len l.
Proof. unfold len. now rewrite length_map. Qed.

Lemma repeat_none_S n : 0 < n -> repeat (@None A) (Z.to_nat n) = None :: repeat None (Z.to_nat (n - 1)).
Proof. intros H. replace (Z.to_nat n) with (S (Z.to_nat (n - 1))) by lia. reflexivity. Qed.

Lemma stack_push s l x :
  stack_of s l -> exists s', ps_Push s x = Ok s' /\ stack_of s' (x :: l).
Proof.
  intros (a & b & j & Hl & Ha & Hb & Hi & Ho & Hx). unfold ps_Push.
  assert (Hlen : len l = len a + len b) by now rewrite <- rev_len, Hl, len_app.
  pose proof (len_nonneg b). pose proof (len_nonneg a).
  destruct (Z.ltb_spec (ps_index s) staticDepth) as [Hlt|Hge].
  - destruct b as [|y b]; [|rewrite len_cons in Hlen; specialize (Hb ltac:(discriminate));
      pose proof (len_nonneg b); lia].
    rewrite len_nil in *. rewrite Hi, repeat_none_S by lia.
    rewrite Hx, Hlen, Z.add_0_r, set_at_eq by now rewrite map_len. cbn [obind].
    eexists. split; [reflexivity|]. exists (a ++ [x]), [], j. simpl.
    rewrite Hl, !app_nil_r, len_app, map_app, <- app_assoc.
    repeat split; auto; try (change (len [x]) with 1; lia); try congruence.
    + change (len [x]) with 1. simpl. do 3 f_equal. lia.
    + rewrite len_cons. lia.
  - assert (Hfull : len a = staticDepth).
    { destruct b; [rewrite len_nil in *; lia | apply Hb; discriminate]. }
    replace (ps_index s - staticDepth) with (len b) by lia. rewrite Ho.
    assert (Hov : exists j', (if len (map Some b ++ repeat None j) <? len b + 1
        then copy_at (repeat None (Z.to_nat (len b + 1))) 0 (map Some b ++ repeat None j)
        else Ok (map Some b ++ repeat None j)) = @Ok unit _ (map Some b ++ None :: repeat None j')).
    { rewrite len_app, map_len. unfold len at 2. rewrite repeat_length. destruct j as [|j].
      - decide_cmp. simpl repeat. rewrite app_nil_r. exists O.
        pose proof (@copy_at_mid unit (option A) [] (repeat None (List.length b)) [None] (map Some b)) as E.
        cbn [app] in E. change (len []) with 0 in E. rewrite <- (repeat_cons (List.length b) None) in E.
        replace (Z.to_nat (len b + 1)) with (S (List.length b)) by (unfold len; lia).
        apply E. unfold len. now rewrite repeat_length, length_map.
      - decide_cmp. exists j. reflexivity. }
    destruct Hov as (j' & ->). cbn [obind]. rewrite set_at_eq by now rewrite map_len. cbn [obind].
    eexists. split; [reflexivity|]. exists a, (b ++ [x]), j'. simpl.
    rewrite Hl, map_app, <- !app_assoc. repeat split; auto. rewrite len_cons. lia.
Qed.

Lemma stack_pop s l :
  stack_of s l ->
  exists s', ps_Pop s = Ok (match l with [] => None | x :: _ => Some x end, s') /\ stack_of s' (tl l).
Proof.
  intros (a & b & j & Hl & Ha & Hb & Hi & Ho & Hx). unfold ps_Pop. rewrite Hx.
  assert (Hlen : len l = len a + len b) by now rewrite <- rev_len, Hl, len_app.
  destruct l as [|x l].
  { change (len [] =? 0) with true. cbn match. eexists. split; [reflexivity|].
    exists a, b, j. repeat split; auto. }
  rewrite len_cons in *. pose proof (len_nonneg l). decide_cmp.
  replace (1 + len l - 1) with (len l) by lia. simpl in Hl.
  destruct b as [|y b _] using rev_ind.
  - rewrite app_nil_r in Hl. subst a. rewrite len_app, rev_len in *. change (len [x]) with 1 in *.
    rewrite (proj2 (Z.ltb_lt _ _)) by lia. rewrite Hi, map_app, <- app_assoc. cbn [map app].
    rewrite get_at_eq, set_at_eq by now rewrite map_len, rev_len. cbn [obind].
    eexists. split; [reflexivity|]. exists (rev l), [], j. simpl. rewrite app_nil_r, ?rev_len.
    repeat split; auto; try lia; try congruence. f_equal. rewrite (repeat_none_S (staticDepth - len l)) by lia.
    do 2 f_equal. lia.
  - rewrite app_assoc in Hl. apply app_inj_tail in Hl. destruct Hl as [Hl ->].
    specialize (Hb ltac:(destruct b; discriminate)). rewrite len_app in Hlen. change (len [y]) with 1 in Hlen.
    pose proof (len_nonneg b). rewrite (proj2 (Z.ltb_ge _ _)) by lia.
    replace (len l - staticDepth) with (len b) by lia.
    rewrite Ho, map_app, <- app_assoc. cbn [map app].
    rewrite get_at_eq, set_at_eq by now rewrite map_len. cbn [obind].
    eexists. split; [reflexivity|]. exists a, b, (S j). simpl.
    repeat split; auto.
Qed.

Lemma stack_at s l n :
  stack_of s l -> 0 <= n -> ps_At s n = Ok (nth_error l (Z.to_nat n)).
Proof.
  intros (a & b & j & Hl & Ha & Hb & Hi & Ho & Hx) Hn. unfold ps_At. rewrite Hx.
  destruct (Z.ltb_spec (len l - n - 1) 0) as [Hlt|Hge].
  { symmetry. f_equal. apply nth_error_None. unfold len in Hlt. lia. }
  assert (Hn' : (Z.to_nat n < List.length l)%nat) by (unfold len in Hge; lia).
  assert (Hget : nth_error (a ++ b) (Z.to_nat (len l - n - 1)) = nth_error l (Z.to_nat n)).
  { rewrite <- Hl, nth_error_rev. unfold len in *.
    rewrite (proj2 (Nat.ltb_lt _ _)) by lia. f_equal. lia. }
  destruct (nth_error l (Z.to_nat n)) as [x|] eqn:En; [|apply nth_error_None in En; lia].
  unfold get_at. destruct (Z.ltb_spec (len l - n - 1) staticDepth) as [H1|H1].
  - rewrite (proj2 (Z.leb_le _ _)) by lia. rewrite Hi, nth_error_app1.
    + rewrite nth_error_map. destruct (Z.ltb_spec (len l - n - 1) (len a)).
      * rewrite nth_error_app1 in Hget by (unfold len in *; lia). now rewrite Hget.
      * destruct b; [rewrite app_nil_r in Hget|specialize (Hb ltac:(discriminate)); lia].
        now rewrite Hget.
    + rewrite length_map. destruct b; [rewrite app_nil_r in Hget|].
      * apply nth_error_Some. now rewrite Hget.
      * specialize (Hb ltac:(discriminate)). unfold len in *. lia.
  - assert (len a = staticDepth).
    { destruct b; [|apply Hb; discriminate]. rewrite app_nil_r in Hget.
      assert (Z.to_nat (len l - n - 1) < List.length a)%nat by (apply nth_error_Some; now rewrite Hget).
      unfold len in *. lia. }
    rewrite (proj2 (Z.leb_le _ _)) by lia.
    rewrite nth_error_app2 in Hget by (unfold len in *; lia).
    assert (Hb' : nth_error b (Z.to_nat (len l - n - 1 - staticDepth)) = Some x).
    { rewrite <- Hget. f_equal. unfold len in *. lia. }
    rewrite Ho, nth_error_app1.
    + now rewrite nth_error_map, Hb'.
    + rewrite length_map. apply nth_error_Some. now rewrite Hb'.
Qed.
End StackLemmas.

(** ** The store a treap implements *)

Class OrderedStore (T : Type) : Type := {
  st_get : T -> list Z -> option (list Z);
  st_put : Z -> T -> list Z -> option (list Z) -> T;
  st_delete : T -> list Z -> T;
  st_entries : T -> list (list Z * list Z);
  st_len : T -> Z;
  st_size : T -> Z
}.

Class OrderedStoreLaws (T : Type) `{OrderedStore T} (st_wf : T -> Prop) : Prop := {
  st_sorted : forall t, st_wf t -> sorted (st_entries t);
  st_len_ok : forall t, st_wf t -> st_len t = i64 (len (st_entries t));
  st_size_ok : forall t, st_wf t -> st_size t = u64 (entries_size (st_entries t));
  st_get_ok : forall t k, st_wf t -> st_get t k = al_get k (st_entries t);
  st_put_ok : forall rand t k v, st_wf t ->
    st_wf (st_put rand t k v) /\
    st_entries (st_put rand t k v) = al_put k (or_empty v) (st_entries t);
  st_delete_ok : forall t k, st_wf t ->
    st_wf (st_delete t k) /\ st_entries (st_delete t k) = al_del k (st_entries t)
}.

#[export] Instance Mutable_store : OrderedStore Mutable := {|
  st_get := m_Get; st_put := m_Put; st_delete := m_Delete;
  st_entries := fun t => elements (m_root t); st_len := m_Len; st_size := m_Size |}.

#[export] Instance Immutable_store : OrderedStore Immutable := {|
  st_get := i_Get; st_put := i_put; st_delete := i_Delete;
  st_entries := fun t => elements (i_root t); st_len := i_Len; st_size := i_Size |}.

Definition m_wf (t : Mutable) : Prop := treap_wf (m_root t) (m_count t) (m_totalSize t).
Definition i_wf (t : Immutable) : Prop := treap_wf (i_root t) (i_count t) (i_totalSize t).

#[export] Instance Mutable_laws : OrderedStoreLaws Mutable m_wf.
Proof.
  split.
  - intros t. apply wf_sorted.
  - intros t. apply wf_count.
  - intros t. apply wf_size.
  - intros t k Hwf. simpl. rewrite <- elements_get by apply Hwf. unfold m_Get, m_get.
    now destruct (find_path k (m_root t) []) as [[|] ps].
  - intros rand t k v. apply treap_put_ok.
  - intros t k. apply treap_delete_ok.
Qed.

(** The mutable treap with the same tree. *)
Definition to_mutable (t : Immutable) : Mutable := mkMutable (i_root t) (i_count t) (i_totalSize t).

Lemma i_get_find key t : forall ps, i_get t key = fst (find_path key t ps).
Proof.
  induction t as [|k v p l IHl r IHr]; intros ps; [reflexivity|]. simpl.
  destruct (Compare key k); auto.
Qed.

Lemma to_mutable_put rand t k v : to_mutable (i_put rand t k v) = m_Put rand (to_mutable t) k v.
Proof.
  unfold i_put, m_Put, to_mutable. cbn [m_root m_count m_totalSize].
  destruct (i_root t) as [|rk rv rp rl rr]; [reflexivity|].
  now destruct (find_path k (Node rk rv rp rl rr) []) as [[|] ps].
Qed.

Lemma to_mutable_delete t k : to_mutable (i_Delete t k) = m_Delete (to_mutable t) k.
Proof.
  unfold i_Delete, m_Delete, to_mutable. cbn [m_root m_count m_totalSize].
  destruct (find_path k (i_root t) []) as [[|k0 v p [|] [|]] [|]]; destruct t; reflexivity.
Qed.

#[export] Instance Immutable_laws : OrderedStoreLaws Immutable i_wf.
Proof.
  split.
  - intros t. apply wf_sorted.
  - intros t. apply wf_count.
  - intros t. apply wf_size.
  - intros t k Hwf. simpl. rewrite <- elements_get by apply Hwf. unfold i_Get.
    now rewrite (i_get_find k (i_root t) []).
  - intros rand t k v Hwf. pose proof (treap_put_ok (to_mutable t) k v rand Hwf) as H.
    cbn zeta in H. now rewrite <- to_mutable_put in H.
  - intros t k Hwf. pose proof (treap_delete_ok (to_mutable t) k Hwf) as H.
    cbn zeta in H. now rewrite <- to_mutable_delete in H.
Qed.

(** Clients of a store: the value of a key after a history of updates. *)
Inductive update : Type :=
| UPut (rand : Z) (key : list Z) (value : option (list Z))
| UDelete (key : list Z).

Section Clients.
Context {T : Type} {st_wf : T -> Prop} `{OrderedStoreLaws T st_wf}.

Definition apply_update (t : T) (u : update) : T :=
  match u with UPut rand k v => st_put rand t k v | UDelete k => st_delete t k end.
Definition run (us : list update) (t : T) : T := fold_left apply_update us t.

(** The last update of a key decides. *)
Fixpoint history (us : list update) (old : option (list Z)) (k : list Z) : option (list Z) :=
  match us with
  | [] => old
  | UPut _ k' v :: us' => history us' (match Compare k k' with Eq => Some (or_empty v) | _ => old end) k
  | UDelete k' :: us' => history us' (match Compare k k' with Eq => None | _ => old end) k
  end.

Lemma run_spec us : forall t, st_wf t ->
  st_wf (run us t) /\ forall k, st_get (run us t) k = history us (st_get t k) k.
Proof.
  induction us as [|u us IH]; intros t Ht; [auto|]. cbn [run fold_left].
  destruct u as [rand k' v|k']; cbn [apply_update].
  - destruct (st_put_ok rand t k' v Ht) as [Hwf He]. destruct (IH _ Hwf) as [I1 I2].
    split; [exact I1|]. intros k. unfold run in I2. rewrite I2. cbn [history].
    now rewrite !st_get_ok, He, al_get_put by assumption.
  - destruct (st_delete_ok t k' Ht) as [Hwf He]. destruct (IH _ Hwf) as [I1 I2].
    split; [exact I1|]. intros k. unfold run in I2. rewrite I2. cbn [history].
    now rewrite !st_get_ok, He, al_get_del by assumption.
Qed.
End Clients.

Lemma empty_wf : treap_wf nilNode 0 0.
Proof. split; [constructor | reflexivity | reflexivity]. Qed.

Lemma i_Put_run kvs : forall t,
  i_Put t kvs = run (map (fun p => UPut (fst p) (fst (snd p)) (snd (snd p))) kvs) t.
Proof. induction kvs as [|[rand [k v]] kvs IH]; intros t; simpl; auto. Qed.

(** ** Properties *)

(** C23: after any sequence of puts and deletes, with any priorities, the mutable
    and the immutable treap both answer a lookup as the history of the operations
    says, and both are well formed. *)
Theorem treap_history us k :
  m_Get (run us NewMutable) k = history us None k /\
  i_Get (run us NewImmutable) k = history us None k /\
  m_wf (run us NewMutable) /\ i_wf (run us NewImmutable).
Proof.
  destruct (run_spec us NewMutable empty_wf) as [W1 G1].
  destruct (run_spec us NewImmutable empty_wf) as [W2 G2].
  split; [exact (G1 k)|]. split; [exact (G2 k)|]. split; [exact W1 | exact W2].
Qed.

(** The entries of a treap are sorted by key without duplicates, are counted
    and measured by Len and Size, are visited by ForEach in this order until the
    function stops it, and are exactly those Get finds. *)
Theorem treap_contents_ordered us {S} (fn : S -> list Z -> list Z -> S * bool) (s : S) :
  let t := run us NewMutable in
  let entries := elements (m_root t) in
  StronglySorted entry_lt entries /\ m_Len t = i64 (len entries) /\
  m_Size t = u64 (entries_size entries) /\ m_ForEach t fn s = fold_until fn entries s /\
  forall k v, In (k, v) entries <-> m_Get t k = Some v.
Proof.
  destruct (run_spec us NewMutable empty_wf) as [Wf _]. cbn zeta.
  split; [exact (st_sorted _ Wf)|]. split; [exact (st_len_ok _ Wf)|].
  split; [exact (st_size_ok _ Wf)|]. split; [apply tree_forEach_spec|]. intros k v.
  change (m_Get (run us NewMutable) k) with (st_get (run us NewMutable) k).
  rewrite (st_get_ok _ k Wf). apply al_get_In, (st_sorted _ Wf).
Qed.

(** Put keeps the priorities of the mutable treap a min-heap. *)
Theorem treap_put_keeps_heap rand t key value :
  m_wf t -> heap (m_root t) ->
  heap (m_root (m_Put rand t key value)).
Proof. intros Hwf. apply heap_put, Hwf. Qed.

(** Delete rotates up the child with the larger priority: deleting a node with two
    children of different priorities leaves a tree that is not a min-heap. *)
Theorem treap_delete_breaks_heap lk lv lp ll lr rk rv rp rl rr k v p t parents :
  m_wf t -> heap (m_root t) -> lp <> rp ->
  find_path k (m_root t) [] = (Node k v p (Node lk lv lp ll lr) (Node rk rv rp rl rr), parents) ->
  ~ heap (m_root (m_Delete t k)).
Proof.
  intros Hwf Hh Hne E. unfold m_Delete. rewrite E. cbn [m_root]. intros H.
  apply heap_find in E; [|apply Hwf|exact Hh]. apply heap_unzip in E, H.
  destruct E as [(_ & _ & E1 & E2) _]. destruct H as [H _]. revert H.
  apply rotate_down_not_heap; [lia | exact E1 | exact E2 | exact Hne].
Qed.

(** A small treap: keys 1, 2, 3 and the priorities 2, 1, 3. *)
Definition sample_treap : Mutable :=
  run [UPut 1 [2] (Some [20]); UPut 2 [1] (Some [10]); UPut 3 [3] None] NewMutable.

Lemma sample_treap_wf : m_wf sample_treap.
Proof. exact (proj1 (run_spec (st_wf := m_wf) _ NewMutable empty_wf)). Qed.

Lemma treap_put_keeps_heap_witness :
  heap (m_root sample_treap) /\ heap (m_root (m_Put 0 sample_treap [4] (Some [7]))).
Proof.
  assert (H : heap (m_root sample_treap)) by (vm_compute; repeat split; congruence).
  split; [exact H|]. apply (treap_put_keeps_heap 0 sample_treap [4] (Some [7])); [|exact H].
  exact sample_treap_wf.
Defined.

Lemma treap_delete_breaks_heap_witness :
  heap (m_root sample_treap) /\ ~ heap (m_root (m_Delete sample_treap [2])).
Proof.
  assert (H : heap (m_root sample_treap)) by (vm_compute; repeat split; congruence).
  split; [exact H|].
  apply (treap_delete_breaks_heap [1] [10] 2 nilNode nilNode [3] [] 3 nilNode nilNode [2] [20] 1
           sample_treap []); [exact sample_treap_wf | exact H | lia | reflexivity].
Defined.

(** The parent stack with its static array and overflow slice is a stack of any
    depth: Push, Pop, At and Len agree with the list of its items. *)
Theorem parentStack_is_stack {A} (s : parentStack A) (l : list A) (x : A) (n : Z) :
  stack_of s l -> 0 <= n ->
  ps_Len s = len l /\ ps_At s n = Ok (nth_error l (Z.to_nat n)) /\
  (exists s', ps_Push s x = Ok s' /\ stack_of s' (x :: l)) /\
  (exists s', ps_Pop s = Ok (match l with [] => None | y :: _ => Some y end, s') /\
              stack_of s' (tl l)).
Proof.
  intros Hs Hn. split; [now destruct Hs as (? & ? & ? & ? & ? & ? & ? & ? & ?)|].
  split; [now apply stack_at|]. split; [now apply stack_push | now apply stack_pop].
Qed.

Lemma emptyStack_is_empty {A} : stack_of (@emptyStack A) [].
Proof. exists [], [], O. repeat split; try congruence. unfold staticDepth, len. simpl. lia. Qed.

Lemma parentStack_is_stack_witness :
  exists s', ps_Push (@emptyStack Z) 7 = Ok s' /\ stack_of s' [7].
Proof.
  destruct (parentStack_is_stack emptyStack [] 7 0 emptyStack_is_empty) as (_ & _ & H & _);
    [lia | exact H].
Defined.
