(* ===== verification/Difficulty.v ===== *)
(** * Difficulty targets and work (blockchain/difficulty.go)

    The compact representation of targets and the work of a block; the retarget
    rules, which follow the chain of block nodes, are in Retarget.v.  A
    [*big.Int] is a [Z]. *)

From Stdlib Require Import ZArith List Lia Bool.
From S2P Require Import Prelude GoSlice GoIO.
Import ListNotations.
Local Open Scope Z_scope.
Local Open Scope go_scope.

Definition bigOne : Z := 1.
Definition oneLsh256 : Z := Z.shiftl bigOne 256.

(** HashToBig reverses a hash and reads it big endian; [be_get] is SetBytes. *)
Definition be_get (bytes : list Z) : Z := fold_left (fun n b => n * 256 + b) bytes 0.
Definition HashToBig (hash : list Z) : Z := be_get (rev hash).

Definition CompactToBig (compact : Z) : Z :=
  let mantissa := Z.land compact 0x007fffff in
  let isNegative := negb (Z.land compact 0x00800000 =? 0) in
  let exponent := Z.shiftr compact 24 in
  let bn :=
    if exponent <=? 3 then Z.shiftr mantissa (8 * (3 - exponent))
    else Z.shiftl mantissa (8 * (exponent - 3)) in
  if isNegative then - bn else bn.

(** [len(n.Bytes())] and [n.Bits()[0]], the lowest word of the absolute value. *)
Definition byteLen (n : Z) : Z := if n =? 0 then 0 else Z.log2 (Z.abs n) / 8 + 1.
Definition lowWord (n : Z) : Z := u64 (Z.abs n).

Definition BigToCompact (n : Z) : Z :=
  if n =? 0 then 0
  else
    let exponent := byteLen n in
    let mantissa :=
      if exponent <=? 3 then u32 (Z.shiftl (u32 (lowWord n)) (8 * (3 - exponent)))
      else u32 (lowWord (Z.shiftr n (8 * (exponent - 3)))) in
    let big := negb (Z.land mantissa 0x00800000 =? 0) in
    let mantissa := if big then Z.shiftr mantissa 8 else mantissa in
    let exponent := if big then exponent + 1 else exponent in
    let compact := Z.lor (u32 (Z.shiftl exponent 24)) mantissa in
    if n <? 0 then Z.lor compact 0x00800000 else compact.

Definition CalcWork (bits : Z) : Z :=
  let difficultyNum := CompactToBig bits in
  if difficultyNum <=? 0 then 0
  else oneLsh256 / (difficultyNum + bigOne).

(** ** Lemmas: the compact form *)

Lemma land_bit23 m : 0 <= m < 2 ^ 24 -> negb (Z.land m 0x00800000 =? 0) = (2 ^ 23 <=? m).
Proof.
  intros Hm. change 0x00800000 with (Z.shiftl 1 23). rewrite land_bit by lia.
  now apply testbit_top.
Qed.

(** The three fields of a compact number. *)
Lemma compact_fields e m :
  0 <= e -> 0 <= m < 2 ^ 23 ->
  let c := Z.lor (Z.shiftl e 24) m in
  c = e * 2 ^ 24 + m /\ Z.land c 0x007fffff = m /\ (Z.land c 0x00800000 =? 0) = true /\
  Z.shiftr c 24 = e.
Proof.
  intros He Hm c. assert (Hc : c = e * 2 ^ 24 + m) by (apply lor_shiftl_add; lia).
  split; [exact Hc|]. split; [|split].
  - change 0x007fffff with (Z.ones 23). rewrite Z.land_ones, Hc by lia.
    replace (e * 2 ^ 24 + m) with (m + (2 * e) * 2 ^ 23) by lia.
    rewrite Z.mod_add, Z.mod_small by lia. reflexivity.
  - pose proof (land_bit c 23 ltac:(lia)) as H. change (Z.shiftl 1 23) with 0x00800000 in H.
    apply negb_false_iff. rewrite H, Hc. rewrite Z.testbit_false by lia.
    replace (e * 2 ^ 24 + m) with (m + (2 * e) * 2 ^ 23) by lia.
    rewrite Z.div_add, Z.div_small, Z.add_0_l, Z.mul_comm, Z.mod_mul by lia. reflexivity.
  - rewrite Z.shiftr_div_pow2, Hc by lia. rewrite Z.add_comm, Z.div_add, Z.div_small by lia. lia.
Qed.

Lemma CompactToBig_fields e m :
  0 <= e -> 0 <= m < 2 ^ 23 ->
  CompactToBig (Z.lor (Z.shiftl e 24) m) =
    if e <=? 3 then Z.shiftr m (8 * (3 - e)) else Z.shiftl m (8 * (e - 3)).
Proof.
  intros He Hm. unfold CompactToBig.
  destruct (compact_fields e m He Hm) as (_ & -> & -> & ->). reflexivity.
Qed.

Lemma byteLen_spec n : 0 < n -> 1 <= byteLen n /\ 2 ^ (8 * (byteLen n - 1)) <= n < 2 ^ (8 * byteLen n).
Proof.
  intros Hn. unfold byteLen. decide_cmp. rewrite Z.abs_eq by lia.
  pose proof (Z.log2_spec n Hn) as [H1 H2]. pose proof (Z.log2_nonneg n).
  split; [Z.to_euclidean_division_equations; lia|]. split.
  - etransitivity; [|exact H1]. apply Z.pow_le_mono_r; [lia|]. Z.to_euclidean_division_equations; lia.
  - eapply Z.lt_le_trans; [exact H2|]. apply Z.pow_le_mono_r; [lia|]. Z.to_euclidean_division_equations; lia.
Qed.

Lemma byteLen_unique n e : 1 <= e -> 2 ^ (8 * (e - 1)) <= n < 2 ^ (8 * e) -> byteLen n = e.
Proof.
  intros He [H1 H2]. assert (0 < 2 ^ (8 * (e - 1))) by (apply Z.pow_pos_nonneg; lia).
  destruct (byteLen_spec n ltac:(lia)) as (B0 & B1 & B2).
  destruct (Z.lt_trichotomy (byteLen n) e) as [Hlt|[Heq|Hgt]]; [|exact Heq|]; exfalso.
  - assert (2 ^ (8 * byteLen n) <= 2 ^ (8 * (e - 1))) by (apply Z.pow_le_mono_r; lia). lia.
  - assert (2 ^ (8 * e) <= 2 ^ (8 * (byteLen n - 1))) by (apply Z.pow_le_mono_r; lia). lia.
Qed.

(** The exponent BigToCompact settles on: the bytes of the number with room for
    a sign bit. *)
Definition compactExp (n : Z) : Z :=
  if n <? 2 ^ (8 * byteLen n - 1) then byteLen n else byteLen n + 1.

(** The leading three bytes of a positive number. *)
Lemma leading_bytes n :
  0 < n ->
  let e := byteLen n in
  let m0 := if e <=? 3 then n * 2 ^ (8 * (3 - e)) else n / 2 ^ (8 * (e - 3)) in
  2 ^ 16 <= m0 < 2 ^ 24 /\ (2 ^ 23 <=? m0) = negb (n <? 2 ^ (8 * e - 1)).
Proof.
  intros Hn e m0. destruct (byteLen_spec n Hn) as (H0 & H1 & H2). fold e in H0, H1, H2.
  assert (Hs : 2 ^ (8 * e) = 2 * 2 ^ (8 * e - 1)).
  { rewrite <- Z.pow_succ_r by lia. f_equal. lia. }
  subst m0. destruct (Z.leb_spec e 3) as [He|He].
  - assert (Hp : 0 < 2 ^ (8 * (3 - e))) by (apply Z.pow_pos_nonneg; lia).
    assert (E24 : 2 ^ (8 * e) * 2 ^ (8 * (3 - e)) = 2 ^ 24).
    { rewrite <- Z.pow_add_r by lia. f_equal. lia. }
    assert (E16 : 2 ^ (8 * (e - 1)) * 2 ^ (8 * (3 - e)) = 2 ^ 16).
    { rewrite <- Z.pow_add_r by lia. f_equal. lia. }
    assert (E23 : 2 ^ (8 * e - 1) * 2 ^ (8 * (3 - e)) = 2 ^ 23).
    { rewrite <- Z.pow_add_r by lia. f_equal. lia. }
    split; [nia|]. rewrite <- E23.
    destruct (Z.ltb_spec n (2 ^ (8 * e - 1))); cbn [negb]; [apply Z.leb_gt | apply Z.leb_le]; nia.
  - assert (Hp : 0 < 2 ^ (8 * (e - 3))) by (apply Z.pow_pos_nonneg; lia).
    assert (E24 : 2 ^ (8 * e) = 2 ^ (8 * (e - 3)) * 2 ^ 24).
    { rewrite <- Z.pow_add_r by lia. f_equal. lia. }
    assert (E16 : 2 ^ (8 * (e - 1)) = 2 ^ (8 * (e - 3)) * 2 ^ 16).
    { rewrite <- Z.pow_add_r by lia. f_equal. lia. }
    assert (E23 : 2 ^ (8 * e - 1) = 2 ^ (8 * (e - 3)) * 2 ^ 23).
    { rewrite <- Z.pow_add_r by lia. f_equal. lia. }
    split.
    + split; [apply Z.div_le_lower_bound | apply Z.div_lt_upper_bound]; lia.
    + rewrite E23. destruct (Z.ltb_spec n (2 ^ (8 * (e - 3)) * 2 ^ 23)); cbn [negb].
      * apply Z.leb_gt, Z.div_lt_upper_bound; lia.
      * apply Z.leb_le, Z.div_le_lower_bound; lia.
Qed.

(** The mantissa for the exponent [e]: the number scaled to three bytes. *)
Definition mantissaAt (n e : Z) : Z :=
  if e <=? 3 then n * 2 ^ (8 * (3 - e)) else n / 2 ^ (8 * (e - 3)).

Lemma mantissaAt_succ n e : 0 <= n -> 1 <= e -> mantissaAt n (e + 1) = mantissaAt n e / 2 ^ 8.
Proof.
  intros Hn He. unfold mantissaAt. destruct (Z.leb_spec e 3), (Z.leb_spec (e + 1) 3); try lia.
  - replace (8 * (3 - e)) with (8 * (3 - (e + 1)) + 8) by lia.
    rewrite Z.pow_add_r, Z.mul_assoc, Z.div_mul by lia. reflexivity.
  - assert (e = 3) as -> by lia. change (2 ^ (8 * (3 - 3))) with 1. rewrite (Z.mul_1_r n). reflexivity.
  - rewrite Z.div_div by (try apply Z.pow_nonzero; lia). rewrite <- Z.pow_add_r by lia.
    do 2 f_equal. lia.
Qed.

Lemma BigToCompact_eq n :
  0 < n -> byteLen n < 255 ->
  let m := mantissaAt n (compactExp n) in
  0 <= m < 2 ^ 23 /\ BigToCompact n = Z.lor (Z.shiftl (compactExp n) 24) m.
Proof.
  intros Hn Hb. destruct (byteLen_spec n Hn) as (H0 & _). destruct (leading_bytes n Hn) as [Hm Hbig].
  fold (mantissaAt n (byteLen n)) in Hm, Hbig. unfold BigToCompact. decide_cmp.
  assert (Hman : (if byteLen n <=? 3 then u32 (Z.shiftl (u32 (lowWord n)) (8 * (3 - byteLen n)))
                  else u32 (lowWord (Z.shiftr n (8 * (byteLen n - 3))))) = mantissaAt n (byteLen n)).
  { clear Hbig. revert Hm. unfold mantissaAt. destruct (Z.leb_spec (byteLen n) 3); intros Hm.
    - assert (n < 2 ^ 24). { assert (1 <= 2 ^ (8 * (3 - byteLen n))) by (apply (Z.pow_le_mono_r 2 0); lia). nia. }
      unfold lowWord. rewrite Z.abs_eq, (u64_id n), (u32_id n), Z.shiftl_mul_pow2, u32_id
        by (unfold is_u64, is_u32; lia). reflexivity.
    - unfold lowWord. rewrite Z.shiftr_div_pow2 by lia.
      rewrite Z.abs_eq, u64_id, u32_id by (unfold is_u64, is_u32; lia). reflexivity. }
  rewrite Hman, land_bit23, Hbig by lia. unfold compactExp.
  destruct (Z.ltb_spec n (2 ^ (8 * byteLen n - 1))) as [Hlt|Hge]; cbn [negb] in *.
  - apply Z.leb_gt in Hbig. split; [lia|].
    rewrite u32_id by (rewrite Z.shiftl_mul_pow2 by lia; unfold is_u32; lia). reflexivity.
  - apply Z.leb_le in Hbig. rewrite mantissaAt_succ, Z.shiftr_div_pow2 by lia.
    split; [Z.to_euclidean_division_equations; lia|].
    rewrite u32_id by (rewrite Z.shiftl_mul_pow2 by lia; unfold is_u32; lia). reflexivity.
Qed.

Lemma compactExp_pos n : 0 < n -> 1 <= compactExp n.
Proof.
  intros Hn. unfold compactExp. destruct (byteLen_spec n Hn). destruct (n <? _); lia.
Qed.

Lemma compact_floor_eq n :
  0 < n -> byteLen n < 255 ->
  CompactToBig (BigToCompact n) = n - n mod 2 ^ (8 * Z.max 0 (compactExp n - 3)).
Proof.
  intros Hn Hb. destruct (BigToCompact_eq n Hn Hb) as [Hm ->].
  pose proof (compactExp_pos n Hn). rewrite CompactToBig_fields by lia.
  unfold mantissaAt. destruct (Z.leb_spec (compactExp n) 3) as [He|He].
  - rewrite Z.max_l, Z.mul_0_r, Z.pow_0_r, Z.mod_1_r, Z.sub_0_r by lia.
    rewrite Z.shiftr_div_pow2, Z.div_mul by (try apply Z.pow_nonzero; lia). reflexivity.
  - rewrite Z.max_r, Z.shiftl_mul_pow2 by lia.
    pose proof (Z.div_mod n (2 ^ (8 * (compactExp n - 3))) ltac:(apply Z.pow_nonzero; lia)). lia.
Qed.

Lemma compactExp_unique n e :
  2 <= e -> 2 ^ (8 * (e - 1) - 1) <= n < 2 ^ (8 * e - 1) -> compactExp n = e /\ byteLen n <= e.
Proof.
  intros He [H1 H2]. assert (0 < 2 ^ (8 * (e - 1) - 1)) by (apply Z.pow_pos_nonneg; lia).
  assert (Hs : 2 ^ (8 * (e - 1)) = 2 * 2 ^ (8 * (e - 1) - 1)).
  { rewrite <- Z.pow_succ_r by lia. f_equal. lia. }
  unfold compactExp. destruct (Z.lt_ge_cases n (2 ^ (8 * (e - 1)))) as [Hlt|Hge].
  - assert (byteLen n = e - 1) as ->.
    { apply byteLen_unique; [lia|]. split; [|lia].
      etransitivity; [|exact H1]. apply Z.pow_le_mono_r; lia. }
    rewrite (proj2 (Z.ltb_ge n _)) by lia. lia.
  - assert (byteLen n = e) as ->.
    { apply byteLen_unique; [lia|]. split; [lia|]. eapply Z.lt_le_trans; [exact H2|].
      apply Z.pow_le_mono_r; lia. }
    rewrite (proj2 (Z.ltb_lt n _)) by lia. lia.
Qed.

Lemma CompactToBig_normal e m :
  3 <= e -> 0 <= m < 2 ^ 23 -> CompactToBig (e * 2 ^ 24 + m) = m * 2 ^ (8 * (e - 3)).
Proof.
  intros He Hm. destruct (compact_fields e m ltac:(lia) Hm) as [<- _].
  rewrite CompactToBig_fields by lia. destruct (Z.leb_spec e 3).
  - assert (e = 3) as -> by lia. change (8 * (3 - 3)) with 0. rewrite Z.shiftr_0_r. lia.
  - apply Z.shiftl_mul_pow2. lia.
Qed.

Lemma HashToBig_le hash : bytes_ok hash -> HashToBig hash = le_get hash.
Proof.
  unfold HashToBig, be_get. intros H.
  rewrite <- (fold_left_rev_right (fun b n => n * 256 + b)), rev_involutive.
  induction H as [|b l Hb Hl IH]; [reflexivity|]. rewrite le_get_cons by assumption.
  cbn [fold_right]. rewrite IH. lia.
Qed.

(** ** Properties *)

(** Converting a positive target to the compact form and back rounds it down to
    a multiple of the unit of its exponent and keeps at least fifteen significant
    bits. *)
Theorem compact_floor n :
  0 < n -> byteLen n < 255 ->
  let e := compactExp n in
  let unit := 2 ^ (8 * Z.max 0 (e - 3)) in
  CompactToBig (BigToCompact n) = n - n mod unit /\
  CompactToBig (BigToCompact n) <= n < CompactToBig (BigToCompact n) + unit /\
  BigToCompact n < 2 ^ 32 /\ 2 ^ 15 * unit <= n * 2 ^ (8 * Z.max 0 (3 - e)).
Proof.
  intros Hn Hb e unit. pose proof (compact_floor_eq n Hn Hb) as Hf. fold e unit in Hf.
  assert (Hu : 0 < unit) by (apply Z.pow_pos_nonneg; lia).
  pose proof (Z.mod_pos_bound n unit Hu). split; [exact Hf|]. split; [lia|].
  destruct (BigToCompact_eq n Hn Hb) as [Hm Hc]. fold e in Hm, Hc. pose proof (compactExp_pos n Hn).
  assert (He : e <= 255) by (subst e; unfold compactExp; destruct (n <? _); lia).
  fold e in H0. split.
  - rewrite Hc. destruct (compact_fields e _ ltac:(lia) Hm) as [-> _]. lia.
  - destruct (byteLen_spec n Hn) as (B0 & B1 & B2).
    assert (Hlow : 2 ^ (8 * (e - 1) - 1) * 2 <= 2 * n).
    { rewrite (Z.mul_comm 2 n). apply Z.mul_le_mono_nonneg_r; [lia|].
      subst e. unfold compactExp. destruct (Z.ltb_spec n (2 ^ (8 * byteLen n - 1))) as [Hl|Hl].
      - etransitivity; [|exact B1]. destruct (Z.eq_dec (byteLen n) 1) as [->|]; [vm_compute; discriminate|].
        apply Z.pow_le_mono_r; lia.
      - replace (8 * (byteLen n + 1 - 1) - 1) with (8 * byteLen n - 1) by lia. exact Hl. }
    destruct (Z.le_gt_cases e 3) as [He3|He3].
    + subst unit. rewrite (Z.max_l 0 (e - 3)), (Z.max_r 0 (3 - e)) by lia. change (2 ^ (8 * 0)) with 1.
      clear - He3 H0 Hlow Hn. assert (Hcase : e = 1 \/ e = 2 \/ e = 3) by lia.
      clearbody e.
      destruct Hcase as [-> | [-> | ->]]; vm_compute (2 ^ _) in Hlow |- *; lia.
    + subst unit. rewrite (Z.max_r 0 (e - 3)), (Z.max_l 0 (3 - e)) by lia.
      change (2 ^ (8 * 0)) with 1. rewrite <- Z.pow_add_r by lia.
      replace (15 + 8 * (e - 3)) with (8 * (e - 1) - 1) by lia. lia.
Qed.

Lemma compact_floor_witness :
  CompactToBig (BigToCompact 0x12345678) = 0x12345600 /\
  CompactToBig (BigToCompact 0x12345678) <= 0x12345678.
Proof.
  destruct (compact_floor 0x12345678 ltac:(lia) ltac:(vm_compute; reflexivity)) as (E & B & _).
  split; [exact E | apply B].
Defined.

(** A normalised compact number is the compact form of its own value. *)
Theorem compact_canonical e m :
  3 <= e <= 254 -> 2 ^ 15 <= m < 2 ^ 23 ->
  BigToCompact (CompactToBig (e * 2 ^ 24 + m)) = e * 2 ^ 24 + m.
Proof.
  intros He Hm. rewrite CompactToBig_normal by lia. set (n := m * 2 ^ (8 * (e - 3))).
  assert (Hp : 0 < 2 ^ (8 * (e - 3))) by (apply Z.pow_pos_nonneg; lia).
  destruct (compactExp_unique n e ltac:(lia)) as [Hexp Hbl].
  { replace (8 * (e - 1) - 1) with (15 + 8 * (e - 3)) by lia.
    replace (8 * e - 1) with (23 + 8 * (e - 3)) by lia. rewrite !Z.pow_add_r by lia. subst n. nia. }
  destruct (BigToCompact_eq n ltac:(nia) ltac:(lia)) as [_ ->]. rewrite Hexp.
  assert (Hman : mantissaAt n e = m).
  { unfold mantissaAt, n. destruct (Z.leb_spec e 3).
    - assert (e = 3) as -> by lia. change (2 ^ (8 * (3 - 3))) with 1. lia.
    - apply Z.div_mul. lia. }
  rewrite Hman. apply lor_shiftl_add; lia.
Qed.

Lemma compact_canonical_witness : BigToCompact (CompactToBig 0x1d00ffff) = 0x1d00ffff.
Proof. apply (compact_canonical 0x1d 0x00ffff); lia. Defined.

(** A larger target never has more work, work is positive below 2^256, and the
    work times the number of the winning hashes does not exceed 2^256. *)
Theorem CalcWork_antitone bits1 bits2 :
  0 < CompactToBig bits1 <= CompactToBig bits2 ->
  0 <= CalcWork bits2 <= CalcWork bits1 /\
  (CompactToBig bits2 < 2 ^ 256 -> 0 < CalcWork bits2) /\
  CalcWork bits1 * (CompactToBig bits1 + 1) <= 2 ^ 256.
Proof.
  intros H. unfold CalcWork. decide_cmp. change oneLsh256 with (2 ^ 256). unfold bigOne.
  repeat split.
  - apply Z.div_pos; lia.
  - apply Z.div_le_compat_l; lia.
  - intros Hlt. apply Z.div_str_pos. lia.
  - rewrite Z.mul_comm. apply Z.mul_div_le. lia.
Qed.

Lemma CalcWork_antitone_witness :
  0 <= CalcWork 0x1d00ffff <= CalcWork 0x1b0404cb.
Proof.
  apply (CalcWork_antitone 0x1b0404cb 0x1d00ffff). vm_compute. split; [reflexivity | discriminate].
Defined.
