(* ===== verification/ChainIO.v ===== *)
(** * Chain state records (blockchain/chainio.go)

    The serialized forms under which the chain state is stored: spend journal
    entries, utxo entries and their keys, and the best chain state; with the
    flags of a utxo entry (blockchain/utxoviewpoint.go). *)

From Stdlib Require Import String ZArith List Lia Bool.
From S2P Require Import Prelude GoSlice GoIO WireCommon WireTx WireMsgs Compress Difficulty.
Import ListNotations.
Local Open Scope string_scope.
Local Open Scope list_scope.
Local Open Scope Z_scope.
Local Open Scope go_scope.

(** ** Errors *)

Inductive chainErr : Type :=
| deserializeErr (e : derr)
| AssertError (str : string)
| ErrCorruption
| errNotInMainChain
| ErrBlockNotFound
| ErrSpendJournalNotFound
| textErr (str : string).

(** An error of a codec as an error of its caller. *)
Definition lift_derr {A} (m : outcome derr A) : outcome chainErr A :=
  match m with Ok a => Ok a | Err e => Err (deserializeErr e) | Panic => Panic end.

(** A nil script is an empty one. *)
Definition opt_bytes (s : option (list Z)) : list Z := match s with Some b => b | None => [] end.

(** [offset += f(target[offset:])] for a function that writes to the slice. *)
Definition put_at (f : list Z -> outcome derr (list Z * Z)) (p : list Z * Z) : outcome derr (list Z * Z) :=
  let (target, offset) := p in
  let* tail := slice target offset (len target) in
  let* (tail, n) := f tail in
  Ok (firstn (Z.to_nat offset) target ++ tail, offset + n).

(** ** Utxo entries *)

Definition tfCoinBase : Z := 1.
Definition tfSpent : Z := 2.
Definition tfModified : Z := 4.
Definition tfFresh : Z := 8.

Record UtxoEntry : Type := mkUtxoEntry {
  ue_amount : Z;
  ue_pkScript : list Z;
  ue_blockHeight : Z;
  ue_packedFlags : Z
}.

Definition isModified (e : UtxoEntry) : bool := Z.land (ue_packedFlags e) tfModified =? tfModified.
Definition isFresh (e : UtxoEntry) : bool := Z.land (ue_packedFlags e) tfFresh =? tfFresh.
Definition ue_IsCoinBase (e : UtxoEntry) : bool := Z.land (ue_packedFlags e) tfCoinBase =? tfCoinBase.
Definition IsSpent (e : UtxoEntry) : bool := Z.land (ue_packedFlags e) tfSpent =? tfSpent.

Definition with_flags (e : UtxoEntry) (flags : Z) : UtxoEntry :=
  mkUtxoEntry (ue_amount e) (ue_pkScript e) (ue_blockHeight e) flags.

Definition Spend (e : UtxoEntry) : UtxoEntry :=
  if IsSpent e then e else with_flags e (Z.lor (ue_packedFlags e) (Z.lor tfSpent tfModified)).

Definition NewUtxoEntry (txOut : TxOut) (blockHeight : Z) (isCoinbase : bool) : UtxoEntry :=
  mkUtxoEntry (to_Value txOut) (to_PkScript txOut) blockHeight (if isCoinbase then tfCoinBase else 0).

Record SpentTxOut : Type := mkSpentTxOut {
  st_Amount : Z;
  st_PkScript : list Z;
  st_Height : Z;
  st_IsCoinBase : bool
}.

(** The header code of both records: the height and the coinbase flag. *)
Definition headerCode (height : Z) (isCoinBase : bool) : Z :=
  let code := u64 (Z.shiftl (u64 height) 1) in
  if isCoinBase then Z.lor code 1 else code.

Definition spentTxOutHeaderCode (stxo : SpentTxOut) : Z := headerCode (st_Height stxo) (st_IsCoinBase stxo).

Definition utxoEntryHeaderCode (entry : UtxoEntry) : outcome chainErr Z :=
  if IsSpent entry then Err (AssertError "attempt to serialize spent utxo header")
  else Ok (headerCode (ue_blockHeight entry) (ue_IsCoinBase entry)).

Section Records.
Context {PubKey : Type} (ParsePubKey : list Z -> option PubKey)
        (SerializeUncompressed : PubKey -> list Z).

(** ** Spend journal *)

Definition spentTxOutSerializeSize (stxo : SpentTxOut) : Z :=
  let size := serializeSizeVLQ (spentTxOutHeaderCode stxo) in
  let size := if 0 <? st_Height stxo then size + serializeSizeVLQ 0 else size in
  size + compressedTxOutSize ParsePubKey (u64 (st_Amount stxo)) (st_PkScript stxo).

Definition putSpentTxOut (target : list Z) (stxo : SpentTxOut) : outcome derr (list Z * Z) :=
  let* p := putVLQ target (spentTxOutHeaderCode stxo) in
  let* p := if 0 <? st_Height stxo then put_at (fun t => putVLQ t 0) p else Ok p in
  put_at (fun t => putCompressedTxOut ParsePubKey t (u64 (st_Amount stxo)) (st_PkScript stxo)) p.

(** The decoded output and the number of bytes read. *)
Definition decodeSpentTxOut (serialized : list Z) : outcome derr (SpentTxOut * Z) :=
  if len serialized =? 0 then Err (errDeserialize "no serialized bytes")
  else
    let (code, offset) := deserializeVLQ serialized in
    if len serialized <=? offset then Err (errDeserialize "unexpected end of data after header code")
    else
      let isCoinBase := negb (Z.land code 1 =? 0) in
      let height := i32 (Z.shiftr code 1) in
      let* offset :=
        if 0 <? height then
          let* tail := slice serialized offset (len serialized) in
          let (_, bytesRead) := deserializeVLQ tail in
          let offset := offset + bytesRead in
          if len serialized <=? offset then Err (errDeserialize "unexpected end of data after reserved")
          else Ok offset
        else Ok offset in
      let* tail := slice serialized offset (len serialized) in
      match decodeCompressedTxOut ParsePubKey SerializeUncompressed tail with
      | Ok (amount, pkScript, bytesRead) =>
          Ok (mkSpentTxOut (i64 amount) (opt_bytes pkScript) height isCoinBase, offset + bytesRead)
      | Err _ => Err (errDeserialize "unable to decode txout")
      | Panic => Panic
      end.

Definition countTxIns (txns : list MsgTx) : Z := fold_left (fun n tx => n + len (tx_TxIn tx)) txns 0.

(** The loops over transactions and inputs read one output after the other and
    fill [stxos] from its end. *)
Fixpoint readStxos (count : nat) (serialized : list Z) (offset : Z) (stxos : list SpentTxOut)
  : outcome chainErr (list SpentTxOut) :=
  match count with
  | O => Ok stxos
  | S count' =>
      let* tail := slice serialized offset (len serialized) in
      match decodeSpentTxOut tail with
      | Ok (stxo, n) => readStxos count' serialized (offset + n) (stxo :: stxos)
      | Err _ => Err (deserializeErr (errDeserialize "unable to decode stxo"))
      | Panic => Panic
      end
  end.

Definition deserializeSpendJournalEntry (serialized : list Z) (txns : list MsgTx)
  : outcome chainErr (list SpentTxOut) :=
  let numStxos := countTxIns txns in
  if len serialized =? 0 then
    if negb (numStxos =? 0) then Err (AssertError "mismatched spend journal serialization") else Ok []
  else readStxos (Z.to_nat numStxos) serialized 0 [].

Fixpoint putStxos (stxos : list SpentTxOut) (p : list Z * Z) : outcome derr (list Z * Z) :=
  match stxos with
  | [] => Ok p
  | stxo :: stxos' => let* p := put_at (fun t => putSpentTxOut t stxo) p in putStxos stxos' p
  end.

Definition serializeSpendJournalEntry (stxos : list SpentTxOut) : outcome derr (list Z) :=
  if len stxos =? 0 then Ok []
  else
    let size := fold_left (fun n s => n + spentTxOutSerializeSize s) stxos 0 in
    let* _ := go_make 1 size in
    let* (serialized, _) := putStxos (rev stxos) (repeat 0 (Z.to_nat size), 0) in
    Ok serialized.

(** ** Utxo set *)

Definition OutpointKey (outpoint : OutPoint) : outcome derr (list Z) :=
  let idx := u64 (op_Index outpoint) in
  let key := repeat 0 (Z.to_nat (32 + serializeSizeVLQ idx)) in
  let* key := copy_at key 0 (op_Hash outpoint) in
  let* (key, _) := put_at (fun t => putVLQ t idx) (key, 32) in
  Ok key.

Definition serializeUtxoEntry (entry : UtxoEntry) : outcome chainErr (list Z) :=
  if IsSpent entry then Ok []
  else
    let* code := utxoEntryHeaderCode entry in
    let amount := u64 (ue_amount entry) in
    let size := serializeSizeVLQ code + compressedTxOutSize ParsePubKey amount (ue_pkScript entry) in
    let* _ := go_make 1 size in
    let* p := lift_derr (putVLQ (repeat 0 (Z.to_nat size)) code) in
    let* (serialized, _) := lift_derr (put_at (fun t => putCompressedTxOut ParsePubKey t amount (ue_pkScript entry)) p) in
    Ok serialized.

Definition deserializeUtxoEntry (serialized : list Z) : outcome derr UtxoEntry :=
  let (code, offset) := deserializeVLQ serialized in
  if len serialized <=? offset then Err (errDeserialize "unexpected end of data after header")
  else
    let isCoinBase := negb (Z.land code 1 =? 0) in
    let blockHeight := i32 (Z.shiftr code 1) in
    let* tail := slice serialized offset (len serialized) in
    match decodeCompressedTxOut ParsePubKey SerializeUncompressed tail with
    | Ok (amount, pkScript, _) =>
        Ok (mkUtxoEntry (i64 amount) (opt_bytes pkScript) blockHeight (if isCoinBase then tfCoinBase else 0))
    | Err _ => Err (errDeserialize "unable to decode utxo")
    | Panic => Panic
    end.
End Records.

(** ** Best chain state *)

(** [big.Int.Bytes] and [SetBytes]: big endian without leading zeroes. *)
Definition bigBytes (n : Z) : list Z := rev (le_put (Z.to_nat (byteLen n)) n).
Definition bigSetBytes (b : list Z) : Z := le_get (rev b).

Record bestChainState : Type := mkBestChainState {
  bs_hash : list Z;
  bs_height : Z;
  bs_totalTxns : Z;
  bs_workSum : Z
}.

Definition serializeBestChainState (state : bestChainState) : outcome chainErr (list Z) :=
  let workSumBytes := bigBytes (bs_workSum state) in
  let workSumBytesLen := u32 (len workSumBytes) in
  let serializedData := repeat 0 (Z.to_nat (u32 (32 + 4 + 8 + 4 + workSumBytesLen))) in
  let* d := copy_into serializedData 0 32 (bs_hash state) in
  let offset := 32 in
  let* d := copy_into d offset (offset + 4) (le_put 4 (bs_height state)) in
  let offset := offset + 4 in
  let* d := copy_into d offset (offset + 8) (le_put 8 (bs_totalTxns state)) in
  let offset := offset + 8 in
  let* d := copy_into d offset (offset + 4) (le_put 4 workSumBytesLen) in
  let offset := offset + 4 in
  copy_at d offset workSumBytes.

Definition deserializeBestChainState (serializedData : list Z) : outcome chainErr bestChainState :=
  if len serializedData <? 32 + 16 then Err ErrCorruption
  else
    let* hash := slice serializedData 0 32 in
    let offset := 32 in
    let* h := slice serializedData offset (offset + 4) in
    let offset := offset + 4 in
    let* t := slice serializedData offset (offset + 8) in
    let offset := offset + 8 in
    let* w := slice serializedData offset (offset + 4) in
    let workSumBytesLen := le_get w in
    let offset := offset + 4 in
    let* rest := slice serializedData offset (len serializedData) in
    if u32 (len rest) <? workSumBytesLen then Err ErrCorruption
    else
      let* workSumBytes := slice serializedData offset (u32 (offset + workSumBytesLen)) in
      Ok (mkBestChainState hash (le_get h) (le_get t) (bigSetBytes workSumBytes)).

(** ** Rows of the block index *)

(** The value dbStoreBlockNode writes, and the status byte read back. *)
Definition blockRow (header : BlockHeader) (status : Z) : written :=
  writeBlockHeader header >> write [u8 status].

Definition deserializeBlockRow : reader (BlockHeader * Z) :=
  let! header := readBlockHeader in
  let! b := ReadFull 1 in
  rret (header, at_ b 0).

(** The height in big endian in front of the hash. *)
Definition blockIndexKey (blockHash : list Z) (blockHeight : Z) : list Z :=
  rev (le_put 4 blockHeight) ++ blockHash.

(** ** Lemmas *)

(** [f] writes [enc] over a slice of at least its size. *)
Definition writes (f : list Z -> outcome derr (list Z * Z)) (enc : list Z) : Prop :=
  forall old post, len old = len enc -> f (old ++ post) = Ok (enc ++ post, len enc).

Lemma slice_from (pre post : list Z) n : n = len (pre ++ post) ->
  slice (pre ++ post) (len pre) n = @Ok derr _ post.
Proof. intros ->. apply slice_tail. Qed.

Lemma put_at_writes f enc done old post : writes f enc -> len old = len enc ->
  put_at f (done ++ old ++ post, len done) = Ok ((done ++ enc) ++ post, len done + len enc).
Proof.
  intros Hf Hl. unfold put_at. rewrite slice_from by reflexivity. cbn [obind].
  rewrite (Hf old post Hl). cbn [obind]. rewrite firstn_len_app. now rewrite app_assoc.
Qed.

Lemma split_len {A} (l : list A) n : 0 <= n <= len l -> exists a b, l = a ++ b /\ len a = n.
Proof.
  intros H. exists (firstn (Z.to_nat n) l), (skipn (Z.to_nat n) l).
  split; [symmetry; apply firstn_skipn | now apply len_firstn].
Qed.

(** Two writes one after the other. *)
Lemma writes_seq f g a b : writes f a -> writes g b ->
  writes (fun t => let* p := f t in put_at g p) (a ++ b).
Proof.
  intros Hf Hg old post Hl. rewrite len_app in Hl. pose proof (len_nonneg a). pose proof (len_nonneg b).
  destruct (split_len old (len a)) as (o1 & o2 & -> & H1); [lia|]. rewrite len_app in Hl.
  rewrite <- app_assoc, (Hf o1 (o2 ++ post) H1). cbn [obind].
  rewrite (put_at_writes g b a o2 post Hg) by lia. now rewrite len_app.
Qed.

Lemma writes_nil : writes (fun t => Ok (t, 0)) [].
Proof. intros old post H. destruct old; [reflexivity|]. rewrite len_cons in H. pose proof (len_nonneg old). change (len []) with 0 in H. lia. Qed.

Lemma writes_VLQ n : is_u64 n -> writes (fun t => putVLQ t n) (vlq n).
Proof. intros Hn old post Hl. now apply putVLQ_spec. Qed.

Lemma entryHeaderCode_range h cb : is_u64 (headerCode h cb).
Proof.
  unfold headerCode. pose proof (u64_range (Z.shiftl (u64 h) 1)) as H. destruct cb; [|exact H].
  unfold is_u64 in *. split; [apply Z.lor_nonneg; lia|].
  destruct (Z.eq_dec (Z.lor (u64 (Z.shiftl (u64 h) 1)) 1) 0) as [->|Hz]; [lia|].
  apply Z.log2_lt_pow2; [pose proof (Z.lor_nonneg (u64 (Z.shiftl (u64 h) 1)) 1); lia|].
  rewrite Z.log2_lor by lia. apply Z.max_lub_lt; [|reflexivity].
  destruct (Z.eq_dec (u64 (Z.shiftl (u64 h) 1)) 0) as [->|]; [reflexivity|]. apply Z.log2_lt_pow2; lia.
Qed.

(** The fields of a header code. *)
Lemma headerCode_fields h cb : 0 <= h < 2 ^ 31 ->
  negb (Z.land (headerCode h cb) 1 =? 0) = cb /\ i32 (Z.shiftr (headerCode h cb) 1) = h.
Proof.
  intros Hh. unfold headerCode. rewrite (u64_id h) by (unfold is_u64; lia).
  rewrite u64_id by (unfold is_u64; rewrite Z.shiftl_mul_pow2 by lia; lia).
  assert (Hb : forall c, negb (Z.land c 1 =? 0) = Z.testbit c 0) by (intros c; exact (land_bit c 0 ltac:(lia))).
  rewrite Hb.
  assert (Hs : Z.testbit (Z.shiftl h 1) 0 = false) by (rewrite Z.shiftl_spec_low; reflexivity).
  destruct cb.
  - rewrite Z.lor_spec, Hs. split; [reflexivity|].
    rewrite Z.shiftr_lor, Z.shiftr_shiftl_l by lia. change (Z.shiftr 1 1) with 0.
    rewrite Z.lor_0_r, Z.shiftl_0_r. apply i32_id. unfold is_i32. lia.
  - rewrite Hs. split; [reflexivity|]. rewrite Z.shiftr_shiftl_l, Z.shiftl_0_r by lia.
    apply i32_id. unfold is_i32. lia.
Qed.

Section RecordLemmas.
Context {PubKey : Type} (ParsePubKey : list Z -> option PubKey)
        (SerializeUncompressed : PubKey -> list Z).
Hypothesis forms : pubkey_forms ParsePubKey SerializeUncompressed.

(** The bytes of a compressed output. *)
Definition txOutBytes (amount : Z) (script : list Z) : list Z :=
  vlq (compressTxOutAmount amount) ++ compressScript ParsePubKey script.

Definition out_ok (amount : Z) (script : list Z) : Prop := 0 <= amount <= maxAmount /\ len script <= maxScript.

Lemma writes_TxOut a s : out_ok a s ->
  writes (fun t => putCompressedTxOut ParsePubKey t a s) (txOutBytes a s).
Proof.
  intros [_ Hs]. apply (writes_seq (fun t => putVLQ t (compressTxOutAmount a))
    (fun t => putCompressedScript ParsePubKey t s)).
  - apply writes_VLQ, compressTxOutAmount_u64.
  - intros old post Hl. exact (proj1 (putCompressedScript_spec ParsePubKey old post s Hs Hl)).
Qed.

Lemma TxOutSize a s : out_ok a s -> compressedTxOutSize ParsePubKey a s = len (txOutBytes a s).
Proof.
  intros [_ Hs]. unfold compressedTxOutSize, txOutBytes. rewrite len_app.
  rewrite serializeSizeVLQ_len by apply compressTxOutAmount_u64. f_equal.
  exact (proj2 (putCompressedScript_spec ParsePubKey _ [] s Hs eq_refl)).
Qed.

Lemma decode_TxOut a s rest : out_ok a s ->
  decodeCompressedTxOut ParsePubKey SerializeUncompressed (txOutBytes a s ++ rest) =
  Ok (a, Some s, len (txOutBytes a s)).
Proof.
  intros [Ha Hs]. unfold txOutBytes. rewrite <- app_assoc, len_app.
  now apply decodeCompressedTxOut_spec.
Qed.

(** *** Spent outputs *)

Definition stxo_ok (s : SpentTxOut) : Prop :=
  out_ok (st_Amount s) (st_PkScript s) /\ 0 <= st_Height s < 2 ^ 31.

Definition stxoBytes (s : SpentTxOut) : list Z :=
  (vlq (spentTxOutHeaderCode s) ++ (if 0 <? st_Height s then vlq 0 else [])) ++
  txOutBytes (st_Amount s) (st_PkScript s).

Lemma amount_u64 a s : out_ok a s -> u64 a = a /\ i64 a = a.
Proof. intros [Ha _]. unfold maxAmount in Ha. split; [apply u64_id | apply i64_id]; unfold is_u64, is_i64; lia. Qed.

Lemma writes_stxo s : stxo_ok s -> writes (fun t => putSpentTxOut ParsePubKey t s) (stxoBytes s).
Proof.
  intros [Ho Hh]. unfold stxoBytes, putSpentTxOut. destruct (amount_u64 _ _ Ho) as [-> _].
  assert (H1 : writes (fun t => let* p := putVLQ t (spentTxOutHeaderCode s) in
    if 0 <? st_Height s then put_at (fun t => putVLQ t 0) p else Ok p)
    (vlq (spentTxOutHeaderCode s) ++ (if 0 <? st_Height s then vlq 0 else []))).
  { pose proof (writes_VLQ _ (entryHeaderCode_range (st_Height s) (st_IsCoinBase s))) as Hc.
    destruct (0 <? st_Height s).
    - apply writes_seq; [exact Hc | apply writes_VLQ; unfold is_u64; lia].
    - intros old post Hl. rewrite app_nil_r in *. unfold spentTxOutHeaderCode in *.
      rewrite (Hc old post Hl). reflexivity. }
  intros old post Hl. rewrite <- (writes_seq _ _ _ _ H1 (writes_TxOut _ _ Ho) old post Hl).
  destruct (putVLQ _ _); reflexivity.
Qed.

Lemma stxoSize s : stxo_ok s -> spentTxOutSerializeSize ParsePubKey s = len (stxoBytes s).
Proof.
  intros [Ho Hh]. unfold spentTxOutSerializeSize, stxoBytes. destruct (amount_u64 _ _ Ho) as [-> _].
  rewrite !len_app, TxOutSize by exact Ho. rewrite serializeSizeVLQ_len by apply entryHeaderCode_range.
  destruct (0 <? st_Height s); [|change (len []) with 0; lia]. reflexivity.
Qed.

Lemma txOutBytes_nonempty a s : 1 <= len (txOutBytes a s).
Proof.
  unfold txOutBytes. rewrite len_app. pose proof (vlq_size_bound (compressTxOutAmount a)).
  pose proof (len_nonneg (compressScript ParsePubKey s)). lia.
Qed.

Lemma decode_stxo s rest : stxo_ok s ->
  decodeSpentTxOut ParsePubKey SerializeUncompressed (stxoBytes s ++ rest) = Ok (s, len (stxoBytes s)).
Proof.
  intros [Ho Hh]. destruct (amount_u64 _ _ Ho) as [_ Hi].
  unfold decodeSpentTxOut, stxoBytes. rewrite <- !app_assoc. set (out := txOutBytes _ _ ++ rest).
  assert (Hout : 1 <= len out) by (unfold out; rewrite len_app; pose proof (txOutBytes_nonempty (st_Amount s) (st_PkScript s)); pose proof (len_nonneg rest); lia).
  pose proof (vlq_size_bound (spentTxOutHeaderCode s)) as Hv.
  set (mid := if 0 <? st_Height s then vlq 0 else []). pose proof (len_nonneg mid).
  rewrite deserializeVLQ_vlq by apply entryHeaderCode_range. rewrite !len_app. decide_cmp.
  unfold spentTxOutHeaderCode. destruct (headerCode_fields (st_Height s) (st_IsCoinBase s) Hh) as [-> ->].
  fold (spentTxOutHeaderCode s). set (v := vlq (spentTxOutHeaderCode s)) in *.
  assert (Hoff : (if 0 <? st_Height s then
      let* tail := slice (v ++ mid ++ out) (len v) (len v + (len mid + len out)) in
      let (_, bytesRead) := deserializeVLQ tail in
      if len v + (len mid + len out) <=? len v + bytesRead
      then Err (errDeserialize "unexpected end of data after reserved") else Ok (len v + bytesRead)
    else Ok (len v)) = Ok (len (v ++ mid))).
  { rewrite len_app. unfold mid in *. destruct (0 <? st_Height s); [|change (len []) with 0; f_equal; lia].
    rewrite slice_from by (rewrite !len_app; lia). cbn [obind].
    rewrite deserializeVLQ_vlq by (unfold is_u64; lia). decide_cmp. reflexivity. }
  rewrite Hoff. cbn [obind]. rewrite app_assoc, slice_from by (rewrite !len_app; lia). cbn [obind].
  unfold out. rewrite decode_TxOut by exact Ho. cbn [opt_bytes]. rewrite Hi. do 2 f_equal; [now destruct s|].
  rewrite !len_app. lia.
Qed.

(** *** The journal *)

Definition journalBytes (stxos : list SpentTxOut) : list Z := List.concat (map stxoBytes stxos).

Lemma writes_journal stxos : Forall stxo_ok stxos ->
  forall done old post, len old = len (journalBytes stxos) ->
  putStxos ParsePubKey stxos (done ++ old ++ post, len done) =
  Ok ((done ++ journalBytes stxos) ++ post, len done + len (journalBytes stxos)).
Proof.
  induction 1 as [|s stxos Hs _ IH]; intros done old post Hl; cbn [journalBytes map List.concat] in *.
  - destruct old as [|x old]; [|rewrite len_cons in Hl; pose proof (len_nonneg old); change (len []) with 0 in Hl; lia].
    cbn. now rewrite app_nil_r, Z.add_0_r.
  - fold (journalBytes stxos) in *. rewrite len_app in Hl. pose proof (len_nonneg (stxoBytes s)).
    pose proof (len_nonneg (journalBytes stxos)).
    destruct (split_len old (len (stxoBytes s))) as (o1 & o2 & -> & H1); [lia|]. rewrite len_app in Hl.
    cbn [putStxos]. rewrite <- app_assoc, (put_at_writes _ _ _ o1 _ (writes_stxo s Hs) H1). cbn [obind].
    rewrite <- len_app, IH by lia. rewrite !len_app, <- !app_assoc. do 2 f_equal. lia.
Qed.

Lemma journalSize stxos : Forall stxo_ok stxos -> forall n,
  fold_left (fun n s => n + spentTxOutSerializeSize ParsePubKey s) stxos n = n + len (journalBytes stxos).
Proof.
  induction 1 as [|s stxos Hs _ IH]; intros n; cbn [fold_left journalBytes map List.concat];
    [change (len []) with 0; lia|].
  rewrite IH, stxoSize by exact Hs. fold (journalBytes stxos). rewrite len_app. lia.
Qed.

Lemma journalBytes_app a b : journalBytes (a ++ b) = journalBytes a ++ journalBytes b.
Proof. unfold journalBytes. now rewrite map_app, concat_app. Qed.

Lemma journalBytes_rev stxos : len (journalBytes (rev stxos)) = len (journalBytes stxos).
Proof.
  induction stxos as [|s stxos IH]; [reflexivity|]. cbn [rev]. rewrite journalBytes_app, len_app, IH.
  change (journalBytes (s :: stxos)) with (stxoBytes s ++ journalBytes stxos). rewrite len_app.
  unfold journalBytes at 2. cbn [map List.concat]. rewrite app_nil_r. lia.
Qed.

Lemma readStxos_journal stxos : Forall stxo_ok stxos -> forall pre acc,
  readStxos ParsePubKey SerializeUncompressed (List.length stxos) (pre ++ journalBytes stxos) (len pre) acc =
  Ok (rev stxos ++ acc).
Proof.
  induction 1 as [|s stxos Hs _ IH]; intros pre acc; [reflexivity|].
  cbn [List.length readStxos]. change (journalBytes (s :: stxos)) with (stxoBytes s ++ journalBytes stxos).
  unfold slice. rewrite !len_app. pose proof (len_nonneg pre). pose proof (len_nonneg (stxoBytes s)).
  pose proof (len_nonneg (journalBytes stxos)). decide_cmp. cbn [andb obind].
  rewrite skipn_len_app, firstn_all2 by (rewrite length_app; unfold len; lia).
  rewrite decode_stxo by exact Hs. rewrite app_assoc, <- len_app, IH. cbn [rev]. now rewrite <- app_assoc.
Qed.

(** *** Utxo entries *)

Definition entry_ok (e : UtxoEntry) : Prop :=
  out_ok (ue_amount e) (ue_pkScript e) /\ 0 <= ue_blockHeight e < 2 ^ 31.

Definition entryBytes (e : UtxoEntry) : list Z :=
  vlq (headerCode (ue_blockHeight e) (ue_IsCoinBase e)) ++ txOutBytes (ue_amount e) (ue_pkScript e).

(** What the database keeps of an entry: of the flags, the coinbase bit. *)
Definition stored (e : UtxoEntry) : UtxoEntry := with_flags e (if ue_IsCoinBase e then tfCoinBase else 0).

Lemma txOutBytes_size a s : len (txOutBytes a s) <= len s + 60.
Proof.
  unfold txOutBytes. rewrite len_app. pose proof (vlq_size_bound (compressTxOutAmount a)). pose proof (len_nonneg s).
  pose proof (vlq_size_bound (len s + numSpecialScripts)).
  destruct (compressScript_cases ParsePubKey s) as [(t & b & -> & _ & Hb)|[(t & b & -> & _ & Hb)| ->]];
    rewrite ?len_cons, ?len_app; lia.
Qed.

Lemma serialize_entry e : entry_ok e -> IsSpent e = false ->
  serializeUtxoEntry ParsePubKey e = Ok (entryBytes e).
Proof.
  intros [Ho Hh] Hs. unfold serializeUtxoEntry, utxoEntryHeaderCode. rewrite Hs. cbn [obind].
  destruct (amount_u64 _ _ Ho) as [-> _]. set (code := headerCode _ _).
  rewrite TxOutSize, serializeSizeVLQ_len by (exact Ho || apply entryHeaderCode_range).
  rewrite <- len_app. change (vlq code ++ txOutBytes (ue_amount e) (ue_pkScript e)) with (entryBytes e).
  pose proof (txOutBytes_size (ue_amount e) (ue_pkScript e)) as Hsz. pose proof (proj2 Ho) as Hms. unfold maxScript in Hms. pose proof (vlq_size_bound code).
  rewrite go_make_ok by (unfold entryBytes, maxAlloc; fold code; rewrite ?len_app; pose proof (len_nonneg (txOutBytes (ue_amount e) (ue_pkScript e))); lia).
  cbn [obind]. set (buf := repeat 0 _).
  assert (Hl : len buf = len (entryBytes e)) by (unfold buf, len; rewrite repeat_length; lia).
  pose proof (writes_seq _ _ _ _ (writes_VLQ code (entryHeaderCode_range _ _)) (writes_TxOut _ _ Ho) buf [] Hl) as Hw.
  rewrite !app_nil_r in Hw. destruct (putVLQ buf code) as [q| |]; cbn [lift_derr obind] in *; try discriminate.
  rewrite Hw. reflexivity.
Qed.

Lemma deserialize_entry e : entry_ok e ->
  deserializeUtxoEntry ParsePubKey SerializeUncompressed (entryBytes e) = Ok (stored e).
Proof.
  intros [Ho Hh]. unfold deserializeUtxoEntry, entryBytes. destruct (amount_u64 _ _ Ho) as [_ Hi].
  rewrite deserializeVLQ_vlq by apply entryHeaderCode_range. rewrite len_app.
  pose proof (txOutBytes_nonempty (ue_amount e) (ue_pkScript e)). decide_cmp.
  rewrite slice_from by (now rewrite len_app). cbn [obind].
  rewrite <- (app_nil_r (txOutBytes _ _)), decode_TxOut by exact Ho.
  destruct (headerCode_fields (ue_blockHeight e) (ue_IsCoinBase e) Hh) as [-> ->].
  unfold stored, with_flags. cbn [opt_bytes]. now rewrite Hi.
Qed.
End RecordLemmas.

(** *** Keys *)

Lemma OutpointKey_eq op : len (op_Hash op) = 32 -> is_u32 (op_Index op) ->
  OutpointKey op = Ok (op_Hash op ++ vlq (op_Index op)).
Proof.
  intros Hh Hi. unfold OutpointKey. assert (Hu : is_u64 (op_Index op)) by (unfold is_u64, is_u32 in *; lia).
  rewrite u64_id, serializeSizeVLQ_len by exact Hu. pose proof (vlq_size_bound (op_Index op)) as Hv.
  set (v := vlq (op_Index op)) in *.
  replace (Z.to_nat (32 + len v)) with (List.length (op_Hash op) + List.length v)%nat by (unfold len in *; lia).
  pose proof (@copy_at_fresh derr [] (op_Hash op) (List.length v)) as Hc. cbn [app] in Hc.
  change (len []) with 0 in Hc. rewrite Hc. cbn [obind]. rewrite <- Hh, <- (app_nil_r (repeat 0 _)).
  rewrite (put_at_writes _ _ _ _ _ (writes_VLQ _ Hu)) by (unfold v, len; now rewrite repeat_length).
  cbn [obind]. fold v. now rewrite app_nil_r.
Qed.

Definition outpoint_ok (op : OutPoint) : Prop := len (op_Hash op) = 32 /\ is_u32 (op_Index op).

Lemma OutpointKey_inj op op' k : outpoint_ok op -> outpoint_ok op' ->
  OutpointKey op = Ok k -> OutpointKey op' = Ok k -> op = op'.
Proof.
  intros [H1 H2] [H1' H2'] E E'. rewrite OutpointKey_eq in E, E' by assumption.
  injection E as <-. injection E' as E'. destruct op as [h i], op' as [h' i']. cbn [op_Hash op_Index] in *.
  assert (Hh : h' = h).
  { apply (f_equal (firstn 32)) in E'. replace 32%nat with (Z.to_nat (len h')) in E' at 1 by (rewrite H1'; reflexivity).
    replace 32%nat with (Z.to_nat (len h)) in E' by (rewrite H1; reflexivity). now rewrite !firstn_len_app in E'. }
  subst h'. apply app_inv_head in E'. f_equal.
  assert (Hd : forall n, is_u32 n -> fst (deserializeVLQ (vlq n ++ [])) = n).
  { intros n Hn. rewrite deserializeVLQ_vlq by (unfold is_u64, is_u32 in *; lia). reflexivity. }
  rewrite <- (Hd i H2), <- (Hd i' H2'). now rewrite E'.
Qed.

(** *** Best chain state *)

Lemma bigBytes_roundtrip n : 0 <= n -> bigSetBytes (bigBytes n) = n.
Proof.
  intros Hn. unfold bigSetBytes, bigBytes. rewrite rev_involutive. apply le_get_put. split; [exact Hn|].
  destruct (Z.eq_dec n 0) as [->|Hz]; [reflexivity|].
  destruct (byteLen_spec n ltac:(lia)) as (H1 & _ & H2).
  rewrite Z2Nat.id by lia. replace (256 ^ byteLen n) with (2 ^ (8 * byteLen n)); [exact H2|].
  rewrite Z.pow_mul_r by lia. reflexivity.
Qed.

Lemma bigBytes_len n : len (bigBytes n) = Z.max 0 (byteLen n).
Proof. unfold bigBytes, len. rewrite length_rev, le_put_length. lia. Qed.

Definition bestState_ok (s : bestChainState) : Prop :=
  len (bs_hash s) = 32 /\ is_u32 (bs_height s) /\ is_u64 (bs_totalTxns s) /\
  0 <= bs_workSum s /\ byteLen (bs_workSum s) < 2 ^ 32 - 48.

Definition bestStateBytes (s : bestChainState) : list Z :=
  bs_hash s ++ le_put 4 (bs_height s) ++ le_put 8 (bs_totalTxns s) ++
  le_put 4 (len (bigBytes (bs_workSum s))) ++ bigBytes (bs_workSum s).

Lemma le_put_len n z : len (le_put n z) = Z.of_nat n.
Proof. unfold len. now rewrite le_put_length. Qed.

(** Filling the next field of a zeroed buffer. *)
Lemma copy_into_fresh {E} done s m a b : a = len done -> b = len done + len s ->
  @copy_into E Z (done ++ repeat 0 (List.length s + m)) a b s = Ok ((done ++ s) ++ repeat 0 m).
Proof.
  intros -> ->. rewrite repeat_app.
  replace (len done + len s) with (len done + len (repeat 0 (List.length s)))
    by (unfold len; now rewrite repeat_length).
  rewrite copy_into_mid by (unfold len; now rewrite repeat_length). now rewrite <- app_assoc.
Qed.

Lemma serializeBestChainState_eq s : bestState_ok s -> serializeBestChainState s = Ok (bestStateBytes s).
Proof.
  intros (Hh & H1 & H2 & H3 & H4). unfold serializeBestChainState, bestStateBytes.
  pose proof (bigBytes_len (bs_workSum s)) as Hl. set (w := bigBytes (bs_workSum s)) in *.
  rewrite (u32_id (len w)) by (unfold is_u32; lia). rewrite u32_id by (unfold is_u32; lia).
  set (f1 := le_put 4 (bs_height s)). set (f2 := le_put 8 (bs_totalTxns s)). set (f3 := le_put 4 (len w)).
  assert (L1 : len f1 = 4) by apply le_put_len. assert (L2 : len f2 = 8) by apply le_put_len.
  assert (L3 : len f3 = 4) by apply le_put_len.
  replace (Z.to_nat (32 + 4 + 8 + 4 + len w))
    with (List.length (bs_hash s) + (List.length f1 + (List.length f2 + (List.length f3 + (List.length w + 0)))))%nat
    by (unfold len in *; lia).
  pose proof (@copy_into_fresh chainErr [] (bs_hash s) (List.length f1 + (List.length f2 + (List.length f3 + (List.length w + 0)))) 0 32) as C.
  cbn [app] in C. rewrite C by (rewrite ?Hh; reflexivity). clear C. cbn [obind].
  do 3 (rewrite copy_into_fresh by (rewrite ?len_app; lia); cbn [obind]).
  pose proof (@copy_at_fresh chainErr (((bs_hash s ++ f1) ++ f2) ++ f3) w 0) as C.
  rewrite !len_app, L1, L2, L3, Hh in C. rewrite <- !app_assoc in *. cbn [repeat app] in C.
  rewrite app_nil_r in C. exact C.
Qed.

(** A field of a record of fixed size fields. *)
Lemma slice_field {E} (pre s post : list Z) a b : a = len pre -> b = len pre + len s ->
  slice (pre ++ s ++ post) a b = @Ok E _ s.
Proof. intros -> ->. apply slice_mid. Qed.

Lemma deserializeBestChainState_eq s : bestState_ok s ->
  deserializeBestChainState (bestStateBytes s) = Ok s.
Proof.
  intros (Hh & H1 & H2 & H3 & H4). unfold deserializeBestChainState.
  pose proof (bigBytes_len (bs_workSum s)) as Hl. pose proof (bigBytes_roundtrip _ H3) as Hrt.
  unfold bestStateBytes. set (w := bigBytes (bs_workSum s)) in *. set (h := bs_hash s) in *.
  set (f1 := le_put 4 (bs_height s)). set (f2 := le_put 8 (bs_totalTxns s)). set (f3 := le_put 4 (len w)).
  assert (L1 : len f1 = 4) by apply le_put_len. assert (L2 : len f2 = 8) by apply le_put_len.
  assert (L3 : len f3 = 4) by apply le_put_len.
  rewrite !len_app, L1, L2, L3, Hh. decide_cmp.
  pose proof (@slice_field chainErr [] h (f1 ++ f2 ++ f3 ++ w) 0 32 eq_refl) as S0. cbn [app] in S0.
  rewrite S0 by (change (len []) with 0; lia). cbn [obind].
  rewrite (slice_field h f1) by lia. cbn [obind].
  rewrite (app_assoc h), (slice_field (h ++ f1) f2) by (rewrite len_app; lia). cbn [obind].
  rewrite (app_assoc (h ++ f1)), (slice_field ((h ++ f1) ++ f2) f3) by (rewrite !len_app; lia). cbn [obind].
  rewrite (app_assoc ((h ++ f1) ++ f2)). set (pre := (((h ++ f1) ++ f2) ++ f3)).
  assert (Lp : len pre = 48) by (unfold pre; rewrite !len_app; lia).
  rewrite <- (app_nil_r w) at 1. rewrite (slice_field pre w []) by lia. cbn [obind].
  unfold f3. rewrite le_get_put by (change (256 ^ Z.of_nat 4) with (2 ^ 32); lia).
  rewrite u32_id by (unfold is_u32; lia). decide_cmp.
  rewrite <- (app_nil_r w) at 1. rewrite (slice_field pre w []) by (rewrite ?u32_id by (unfold is_u32; lia); lia).
  cbn [obind]. rewrite Hrt. unfold f1, f2. rewrite !le_get_put.
  - now destruct s.
  - exact H2.
  - exact H1.
Qed.

(** ** Properties *)

Section Properties.
Context {PubKey : Type} (ParsePubKey : list Z -> option PubKey)
        (SerializeUncompressed : PubKey -> list Z).

Lemma journal_decodes stxos txns :
  pubkey_forms ParsePubKey SerializeUncompressed -> Forall stxo_ok stxos ->
  countTxIns txns = len stxos ->
  fold_left (fun n s => n + spentTxOutSerializeSize ParsePubKey s) stxos 0 <= maxAlloc ->
  exists serialized, serializeSpendJournalEntry ParsePubKey stxos = Ok serialized /\
    deserializeSpendJournalEntry ParsePubKey SerializeUncompressed serialized txns = Ok stxos.
Proof.
  intros Hf Hs Hc Hm. pose proof (journalSize ParsePubKey stxos Hs 0) as Hz.
  unfold serializeSpendJournalEntry. destruct (Z.eqb_spec (len stxos) 0) as [H0|H0].
  - exists []. split; [reflexivity|]. unfold deserializeSpendJournalEntry. rewrite Hc, H0.
    destruct stxos; [reflexivity|]. rewrite len_cons in H0. pose proof (len_nonneg stxos). lia.
  - rewrite Hz in *. set (J := journalBytes ParsePubKey (rev stxos)).
    assert (HJ : len J = len (journalBytes ParsePubKey stxos)) by apply journalBytes_rev.
    rewrite Z.add_0_l, <- HJ in *. rewrite go_make_ok by (pose proof (len_nonneg J); lia). cbn [obind].
    set (buf := repeat 0 _). assert (Hb : len buf = len J) by (unfold buf, len; rewrite repeat_length; lia).
    pose proof (writes_journal ParsePubKey (rev stxos) (Forall_rev Hs) [] buf [] Hb) as W.
    cbn [app] in W. rewrite !app_nil_r in W. change (len []) with 0 in W. rewrite W. cbn [obind].
    exists J. split; [reflexivity|]. unfold deserializeSpendJournalEntry.
    destruct stxos as [|s stxos]; [now contradict H0|].
    assert (1 <= len J).
    { rewrite HJ. change (journalBytes ParsePubKey (s :: stxos)) with (stxoBytes ParsePubKey s ++ journalBytes ParsePubKey stxos).
      unfold stxoBytes. rewrite !len_app. pose proof (txOutBytes_nonempty ParsePubKey (st_Amount s) (st_PkScript s)).
      pose proof (vlq_size_bound (spentTxOutHeaderCode s)). pose proof (len_nonneg (journalBytes ParsePubKey stxos)).
      pose proof (len_nonneg (if 0 <? st_Height s then vlq 0 else [])). lia. }
    decide_cmp. rewrite Hc. replace (Z.to_nat (len (s :: stxos))) with (List.length (rev (s :: stxos)))
      by (rewrite length_rev; unfold len; lia).
    pose proof (readStxos_journal ParsePubKey SerializeUncompressed Hf (rev (s :: stxos)) (Forall_rev Hs) [] []) as R.
    cbn [app] in R. change (len []) with 0 in R. fold J in R. rewrite R, app_nil_r, rev_involutive. reflexivity.
Qed.

(** C38: the spent outputs of a block, each with an amount from 0 to 2^60, a height
    that fits in 31 bits and a script of at most 2^47 bytes, serialize without an
    error when the record fits in memory, and deserializing the bytes with
    transactions of the block that have as many inputs gives the same outputs. *)
Theorem spend_journal_roundtrip stxos txns :
  pubkey_forms ParsePubKey SerializeUncompressed -> Forall stxo_ok stxos ->
  countTxIns txns = len stxos ->
  fold_left (fun n s => n + spentTxOutSerializeSize ParsePubKey s) stxos 0 <= maxAlloc ->
  exists serialized, serializeSpendJournalEntry ParsePubKey stxos = Ok serialized /\
    deserializeSpendJournalEntry ParsePubKey SerializeUncompressed serialized txns = Ok stxos.
Proof. apply journal_decodes. Qed.

(** The keys of two outpoints are equal exactly when the outpoints are, and the record of an entry
    that is not spent decodes to the entry. *)
Theorem utxo_record_roundtrip op op' e :
  pubkey_forms ParsePubKey SerializeUncompressed -> outpoint_ok op -> outpoint_ok op' -> entry_ok e ->
  (exists k k', OutpointKey op = Ok k /\ OutpointKey op' = Ok k' /\ (k = k' <-> op = op')) /\
  (IsSpent e = false -> exists b, serializeUtxoEntry ParsePubKey e = Ok b /\
     deserializeUtxoEntry ParsePubKey SerializeUncompressed b = Ok (stored e)) /\
  (IsSpent e = true -> serializeUtxoEntry ParsePubKey e = Ok []).
Proof.
  intros Hf Ho Ho' He. split; [|split].
  - exists (op_Hash op ++ vlq (op_Index op)), (op_Hash op' ++ vlq (op_Index op')).
    rewrite !OutpointKey_eq by (apply Ho || apply Ho'). split; [reflexivity|]. split; [reflexivity|].
    split; [|now intros ->]. intros E. apply (OutpointKey_inj op op' (op_Hash op ++ vlq (op_Index op))); auto.
    + apply OutpointKey_eq; apply Ho.
    + rewrite E. apply OutpointKey_eq; apply Ho'.
  - intros Hs. exists (entryBytes ParsePubKey e). split; [now apply serialize_entry | now apply deserialize_entry].
  - intros Hs. unfold serializeUtxoEntry. now rewrite Hs.
Qed.
End Properties.

Definition sampleStxo : SpentTxOut := mkSpentTxOut 5000000000 [0x51] 170 true.
Definition sampleEntry : UtxoEntry := mkUtxoEntry 5000000000 [0x51] 170 (Z.lor tfCoinBase tfModified).
Definition sampleSpend : MsgTx :=
  mkMsgTx 1 [mkTxIn (mkOutPoint (repeat 0 32) 0) [] None 0; mkTxIn (mkOutPoint (repeat 0 32) 1) [] None 0] [] 0.

Lemma spend_journal_roundtrip_witness :
  exists serialized,
    serializeSpendJournalEntry toy_parse [sampleStxo; mkSpentTxOut 7 [] 0 false] = Ok serialized /\
    deserializeSpendJournalEntry toy_parse (fun k => k) serialized [sampleSpend] =
      Ok [sampleStxo; mkSpentTxOut 7 [] 0 false].
Proof.
  apply (spend_journal_roundtrip toy_parse (fun k => k)).
  - apply toy_forms.
  - repeat constructor; vm_compute; discriminate.
  - reflexivity.
  - vm_compute. discriminate.
Defined.

Lemma utxo_record_roundtrip_witness :
  exists b, serializeUtxoEntry toy_parse sampleEntry = Ok b /\
    deserializeUtxoEntry toy_parse (fun k => k) b = Ok (stored sampleEntry).
Proof.
  apply (utxo_record_roundtrip toy_parse (fun k => k) (mkOutPoint (repeat 0 32) 0) (mkOutPoint (repeat 0 32) 1) sampleEntry).
  - apply toy_forms.
  - repeat split; vm_compute; discriminate.
  - repeat split; vm_compute; discriminate.
  - repeat split; vm_compute; discriminate.
  - reflexivity.
Defined.

(** Byte-wise comparison does not order the keys of a transaction by the index:
    the key of output 16511 comes after that of output 16512. *)
Lemma OutpointKey_order h : len h = 32 ->
  OutpointKey (mkOutPoint h 16511) = Ok (h ++ [0xff; 0x7f]) /\
  OutpointKey (mkOutPoint h 16512) = Ok (h ++ [0x80; 0x80; 0x00]).
Proof. intros Hh. rewrite !OutpointKey_eq by (exact Hh || (unfold is_u32; cbn; lia)). split; reflexivity. Qed.

(** The best chain state is read back as it was written. *)
Lemma bestState_roundtrip s : bestState_ok s ->
  exists b, serializeBestChainState s = Ok b /\ deserializeBestChainState b = Ok s.
Proof.
  intros H. exists (bestStateBytes s).
  split; [now apply serializeBestChainState_eq | now apply deserializeBestChainState_eq].
Qed.

(** So is a row of the block index. *)
Lemma blockRow_roundtrip hdr status : header_ok hdr -> is_byte status ->
  exists b, blockRow hdr status = (b, None) /\ deserializeBlockRow b = Ok (hdr, status, []).
Proof.
  intros Hh Hs. destruct (codec_BlockHeader hdr [u8 status] Hh) as (o & E & D).
  exists (o ++ [u8 status]). split; [unfold blockRow; rewrite E; reflexivity|].
  unfold deserializeBlockRow, rbind. rewrite D. cbn [obind]. rewrite u8_id by exact Hs. reflexivity.
Qed.
