(* ===== verification/BlockIndex.v ===== *)
(** * Block nodes (blockchain/blockindex.go)

    The tree of block nodes: creation, the skip list to the ancestors, the
    median time, the status flags.  The nodes live in an arena, in the order of
    their creation; a [*blockNode] is an index of the arena, so that two
    pointers are equal when the indexes are. *)

From Stdlib Require Import ZArith List Lia Bool Permutation Sorting.Sorted.
From S2P Require Import Prelude GoSlice GoIO WireCommon WireMsgs Difficulty.
Import ListNotations.
Local Open Scope list_scope.
Local Open Scope Z_scope.
Local Open Scope go_scope.

(** ** Status flags *)

Definition statusNone : Z := 0.
Definition statusDataStored : Z := 1.
Definition statusValid : Z := 2.
Definition statusValidateFailed : Z := 4.
Definition statusInvalidAncestor : Z := 8.

Definition HaveData (status : Z) : bool := negb (Z.land status statusDataStored =? 0).
Definition KnownValid (status : Z) : bool := negb (Z.land status statusValid =? 0).
Definition KnownInvalid (status : Z) : bool :=
  negb (Z.land status (Z.lor statusValidateFailed statusInvalidAncestor) =? 0).
Definition KnownInvalidAncestor (status : Z) : bool :=
  negb (Z.land status statusInvalidAncestor =? 0).
Definition KnownValidateFailed (status : Z) : bool :=
  negb (Z.land status statusValidateFailed =? 0).

(** ** Nodes *)

Record blockNode : Type := mkBlockNode {
  bn_parent : option nat;
  bn_ancestor : option nat;
  bn_hash : list Z;
  bn_workSum : Z;
  bn_height : Z;
  bn_version : Z;
  bn_bits : Z;
  bn_nonce : Z;
  bn_timestamp : Z;
  bn_merkleRoot : list Z;
  bn_status : Z
}.

Definition arena : Type := list blockNode.
Definition noNode : blockNode := mkBlockNode None None zeroHash 0 0 0 0 0 0 zeroHash 0.

(** The node a pointer refers to. *)
Definition deref (a : arena) (id : nat) : blockNode := nth id a noNode.
Definition height_of (a : arena) (id : nat) : Z := bn_height (deref a id).

Definition invertLowestOne (n : Z) : Z := Z.land n (i32 (n - 1)).
Definition getAncestorHeight (height : Z) : Z := invertLowestOne (invertLowestOne height).

(** The loop of Ancestor; every round goes down the chain, so that the height of
    the node is enough fuel. *)
Fixpoint ancestor_loop (fuel : nat) (a : arena) (n : option nat) (height : Z) : option nat :=
  match n with
  | None => None
  | Some id =>
      if height_of a id =? height then Some id
      else
        match fuel with
        | O => None
        | S fuel' =>
            match bn_ancestor (deref a id) with
            | Some anc =>
                if height <=? getAncestorHeight (height_of a id)
                then ancestor_loop fuel' a (Some anc) height
                else ancestor_loop fuel' a (bn_parent (deref a id)) height
            | None => ancestor_loop fuel' a (bn_parent (deref a id)) height
            end
        end
  end.

Definition Ancestor (a : arena) (node : nat) (height : Z) : option nat :=
  if (height <? 0) || (height_of a node <? height) then None
  else ancestor_loop (Z.to_nat (height_of a node)) a (Some node) height.

Definition opt_nat_eqb (x y : option nat) : bool :=
  match x, y with
  | Some i, Some j => Nat.eqb i j
  | None, None => true
  | _, _ => false
  end.

Definition IsAncestor (a : arena) (node otherNode : nat) : bool :=
  let ancestor := Ancestor a node (height_of a otherNode) in
  if opt_nat_eqb ancestor (Some node) then false else opt_nat_eqb ancestor (Some otherNode).

Definition RelativeAncestor (a : arena) (node : nat) (distance : Z) : option nat :=
  Ancestor a node (i32 (height_of a node - distance)).

Section Nodes.
(** chainhash.DoubleHashH. *)
Context (DoubleHash : list Z -> list Z).

(** newBlockNode: the new node is the last one of the arena. *)
Definition initBlockNode (a : arena) (hdr : BlockHeader) (parent : option nat) : blockNode :=
  let work := CalcWork (bh_Bits hdr) in
  match parent with
  | None =>
      mkBlockNode None None (BlockHash DoubleHash hdr) work 0 (bh_Version hdr) (bh_Bits hdr)
        (bh_Nonce hdr) (bh_Timestamp hdr) (bh_MerkleRoot hdr) statusNone
  | Some p =>
      let height := i32 (height_of a p + 1) in
      mkBlockNode (Some p) (Ancestor a p (getAncestorHeight height)) (BlockHash DoubleHash hdr)
        (bn_workSum (deref a p) + work) height (bh_Version hdr) (bh_Bits hdr)
        (bh_Nonce hdr) (bh_Timestamp hdr) (bh_MerkleRoot hdr) statusNone
  end.

Definition newBlockNode (a : arena) (hdr : BlockHeader) (parent : option nat) : arena * nat :=
  (a ++ [initBlockNode a hdr parent], List.length a).
End Nodes.

Definition Header (a : arena) (node : nat) : BlockHeader :=
  let n := deref a node in
  let prevHash := match bn_parent n with Some p => bn_hash (deref a p) | None => zeroHash end in
  mkBlockHeader (bn_version n) prevHash (bn_merkleRoot n) (bn_timestamp n) (bn_bits n) (bn_nonce n).

(** ** Median time *)

Definition medianTimeBlocks : nat := 11.

(** The timestamps of the node and the blocks before it. *)
Fixpoint timestamps (count : nat) (a : arena) (n : option nat) : list Z :=
  match count, n with
  | S count', Some id => bn_timestamp (deref a id) :: timestamps count' a (bn_parent (deref a id))
  | _, _ => []
  end.

(** sort.Sort on integers. *)
Fixpoint insert_sorted (x : Z) (l : list Z) : list Z :=
  match l with
  | [] => [x]
  | y :: l' => if x <=? y then x :: l else y :: insert_sorted x l'
  end.
Definition sort_ints (l : list Z) : list Z := fold_right insert_sorted [] l.

Definition CalcPastMedianTime (a : arena) (node : nat) : outcome unit Z :=
  let ts := timestamps medianTimeBlocks a (Some node) in
  let sorted := sort_ints ts in
  get_at sorted (len sorted / 2).

(** ** Well-formed arenas *)

(** The reference: [k] steps to the parent. *)
Fixpoint walk (a : arena) (id : nat) (k : nat) : option nat :=
  match k with
  | O => Some id
  | S k' =>
      match bn_parent (deref a id) with
      | Some p => walk a p k'
      | None => None
      end
  end.

(** The ancestor at a height, by the parents. *)
Definition ancestorAt (a : arena) (id : nat) (height : Z) : option nat :=
  walk a id (Z.to_nat (height_of a id - height)).

Definition node_wf (a : arena) (id : nat) : Prop :=
  match bn_parent (deref a id) with
  | None =>
      height_of a id = 0 /\ bn_ancestor (deref a id) = None /\
      bn_workSum (deref a id) = CalcWork (bn_bits (deref a id))
  | Some p =>
      (p < id)%nat /\ height_of a id = height_of a p + 1 /\
      bn_ancestor (deref a id) = ancestorAt a p (getAncestorHeight (height_of a id)) /\
      bn_workSum (deref a id) = bn_workSum (deref a p) + CalcWork (bn_bits (deref a id))
  end.

Definition maxHeight : Z := 2 ^ 31 - 1.

Record arena_wf (a : arena) : Prop := {
  aw_nodes : forall id, (id < List.length a)%nat -> node_wf a id;
  aw_height : forall id, (id < List.length a)%nat -> 0 <= height_of a id <= maxHeight
}.

(** ** Lemmas: walking the parents *)

Lemma walk_add a k1 : forall id k2,
  walk a id (k1 + k2) = match walk a id k1 with Some x => walk a x k2 | None => None end.
Proof.
  induction k1 as [|k1 IH]; intros id k2; simpl; [reflexivity|].
  destruct (bn_parent (deref a id)); auto.
Qed.

Lemma height_parent a id p :
  arena_wf a -> (id < List.length a)%nat -> bn_parent (deref a id) = Some p ->
  (p < id)%nat /\ (p < List.length a)%nat /\ height_of a id = height_of a p + 1.
Proof.
  intros Hw Hid Hp. pose proof (aw_nodes a Hw id Hid) as H. unfold node_wf in H. rewrite Hp in H.
  destruct H as (H1 & H2 & _). lia.
Qed.

Lemma height_root a id :
  arena_wf a -> (id < List.length a)%nat -> bn_parent (deref a id) = None -> height_of a id = 0.
Proof.
  intros Hw Hid Hp. pose proof (aw_nodes a Hw id Hid) as H. unfold node_wf in H. rewrite Hp in H.
  apply H.
Qed.

Lemma walk_spec a k : forall id,
  arena_wf a -> (id < List.length a)%nat -> Z.of_nat k <= height_of a id ->
  exists x, walk a id k = Some x /\ (x < List.length a)%nat /\ (x <= id)%nat /\
            height_of a x = height_of a id - Z.of_nat k.
Proof.
  induction k as [|k IH]; intros id Hw Hid Hk; cbn [walk].
  - exists id. repeat split; auto; lia.
  - destruct (bn_parent (deref a id)) as [p|] eqn:Ep.
    + destruct (height_parent a id p Hw Hid Ep) as (H1 & H2 & H3).
      destruct (IH p Hw H2 ltac:(lia)) as (x & E & Hx & Hle & Hh). exists x. repeat split; auto; lia.
    + rewrite (height_root a id Hw Hid Ep) in Hk. lia.
Qed.

Lemma ancestorAt_spec a id h :
  arena_wf a -> (id < List.length a)%nat -> 0 <= h <= height_of a id ->
  exists x, ancestorAt a id h = Some x /\ (x < List.length a)%nat /\ (x <= id)%nat /\
            height_of a x = h.
Proof.
  intros Hw Hid Hh. unfold ancestorAt.
  destruct (walk_spec a (Z.to_nat (height_of a id - h)) id Hw Hid ltac:(lia)) as (x & E & Hx & Hle & Hxh).
  exists x. repeat split; auto. lia.
Qed.

(** The ancestor of an ancestor. *)
Lemma ancestorAt_trans a id g h x :
  arena_wf a -> (id < List.length a)%nat -> h <= g -> 0 <= g <= height_of a id ->
  ancestorAt a id g = Some x -> ancestorAt a id h = ancestorAt a x h.
Proof.
  intros Hw Hid Hhg Hg E. destruct (ancestorAt_spec a id g Hw Hid Hg) as (x' & E' & _ & _ & Hx).
  rewrite E in E'. injection E' as <-. unfold ancestorAt in *. rewrite Hx.
  replace (Z.to_nat (height_of a id - h)) with
    (Z.to_nat (height_of a id - g) + Z.to_nat (g - h))%nat by lia.
  now rewrite walk_add, E.
Qed.

Lemma ancestorAt_parent a id p h :
  arena_wf a -> (id < List.length a)%nat -> bn_parent (deref a id) = Some p ->
  h < height_of a id -> ancestorAt a id h = ancestorAt a p h.
Proof.
  intros Hw Hid Hp Hh. destruct (height_parent a id p Hw Hid Hp) as (_ & _ & H).
  unfold ancestorAt. replace (Z.to_nat (height_of a id - h)) with (S (Z.to_nat (height_of a p - h))) by lia.
  cbn [walk]. now rewrite Hp.
Qed.

Lemma land_le_r x y : 0 <= x -> 0 <= y -> Z.land x y <= y.
Proof.
  intros Hx Hy. destruct x as [|x|x], y as [|y|y]; try lia; try (rewrite ?Z.land_0_l, ?Z.land_0_r; lia).
  change (Z.land (Z.pos x) (Z.pos y)) with (Z.of_N (N.land (N.pos x) (N.pos y))).
  pose proof (N.land_le_r (N.pos x) (N.pos y)). lia.
Qed.

Lemma invertLowestOne_bound n : 0 <= n <= maxHeight -> 0 <= invertLowestOne n <= Z.max 0 (n - 1).
Proof.
  unfold maxHeight, invertLowestOne. intros Hn. rewrite i32_id by (unfold is_i32; lia).
  destruct (Z.eq_dec n 0) as [->|Hne]; [vm_compute; split; congruence|].
  rewrite Z.max_r by lia. split; [apply Z.land_nonneg; lia|]. apply land_le_r; lia.
Qed.

Lemma getAncestorHeight_bound h :
  0 < h <= maxHeight -> 0 <= getAncestorHeight h < h.
Proof.
  intros Hh. unfold getAncestorHeight.
  pose proof (invertLowestOne_bound h ltac:(lia)) as H1.
  pose proof (invertLowestOne_bound (invertLowestOne h) ltac:(lia)) as H2. lia.
Qed.

(** ** Lemmas: the skip list *)

Lemma ancestor_loop_spec a fuel : forall id h,
  arena_wf a -> (id < List.length a)%nat -> 0 <= h <= height_of a id ->
  height_of a id - h <= Z.of_nat fuel ->
  ancestor_loop fuel a (Some id) h = ancestorAt a id h.
Proof.
  induction fuel as [|fuel IH]; intros id h Hw Hid Hh Hf; cbn [ancestor_loop].
  - assert (height_of a id = h) as E by lia. rewrite E, Z.eqb_refl.
    unfold ancestorAt. now rewrite E, Z.sub_diag.
  - destruct (Z.eqb_spec (height_of a id) h) as [E|Hne].
    { unfold ancestorAt. now rewrite E, Z.sub_diag. }
    pose proof (aw_nodes a Hw id Hid) as Hn. unfold node_wf in Hn.
    pose proof (aw_height a Hw id Hid) as Hmax.
    destruct (bn_parent (deref a id)) as [p|] eqn:Ep; [|lia].
    destruct (height_parent a id p Hw Hid Ep) as (H1 & H2 & H3).
    assert (Hpar : ancestor_loop fuel a (Some p) h = ancestorAt a id h).
    { rewrite (ancestorAt_parent a id p h Hw Hid Ep) by lia. apply IH; auto; lia. }
    destruct Hn as (_ & _ & Ha & _). rewrite Ha.
    pose proof (getAncestorHeight_bound (height_of a id) ltac:(lia)) as Hg.
    destruct (ancestorAt_spec a p (getAncestorHeight (height_of a id)) Hw H2 ltac:(lia))
      as (x & Ex & Hx & _ & Hxh).
    rewrite Ex. destruct (Z.leb_spec h (getAncestorHeight (height_of a id))); [|exact Hpar].
    rewrite IH by (auto; lia). rewrite (ancestorAt_parent a id p h Hw Hid Ep) by lia.
    symmetry. apply (ancestorAt_trans a p (getAncestorHeight (height_of a id))); auto; lia.
Qed.

Lemma Ancestor_eq a id h :
  arena_wf a -> (id < List.length a)%nat ->
  Ancestor a id h = if (h <? 0) || (height_of a id <? h) then None else ancestorAt a id h.
Proof.
  intros Hw Hid. unfold Ancestor. destruct (Z.ltb_spec h 0), (Z.ltb_spec (height_of a id) h);
    cbn [orb]; try reflexivity. apply ancestor_loop_spec; auto; lia.
Qed.

(** ** Lemmas: growing the arena *)

Lemma deref_app a b id : (id < List.length a)%nat -> deref (a ++ b) id = deref a id.
Proof. intros H. unfold deref. now apply app_nth1. Qed.
Lemma height_app a b id : (id < List.length a)%nat -> height_of (a ++ b) id = height_of a id.
Proof. intros H. unfold height_of. now rewrite deref_app. Qed.

Lemma walk_app a b k : forall id,
  arena_wf a -> (id < List.length a)%nat -> walk (a ++ b) id k = walk a id k.
Proof.
  induction k as [|k IH]; intros id Hw Hid; cbn [walk]; [reflexivity|].
  rewrite deref_app by assumption. destruct (bn_parent (deref a id)) as [p|] eqn:Ep; [|reflexivity].
  apply IH; auto. now destruct (height_parent a id p Hw Hid Ep) as (_ & ? & _).
Qed.

Lemma node_wf_app a b id : arena_wf a -> (id < List.length a)%nat -> node_wf (a ++ b) id.
Proof.
  intros Hw Hid. pose proof (aw_nodes a Hw id Hid) as H. unfold node_wf in *.
  rewrite deref_app, height_app by assumption.
  destruct (bn_parent (deref a id)) as [p|] eqn:Ep; [|exact H].
  destruct (height_parent a id p Hw Hid Ep) as (_ & Hp & _).
  unfold ancestorAt in *. now rewrite !deref_app, !height_app, walk_app by assumption.
Qed.

Lemma arena_wf_nil : arena_wf [].
Proof. split; intros id H; simpl in H; lia. Qed.

Lemma newBlockNode_ok DH a hdr parent :
  arena_wf a ->
  match parent with None => True | Some p => (p < List.length a)%nat /\ height_of a p < maxHeight end ->
  let (a', id) := newBlockNode DH a hdr parent in
  arena_wf a' /\ (id < List.length a')%nat /\ bn_parent (deref a' id) = parent /\
  (forall i, (i < List.length a)%nat -> deref a' i = deref a i).
Proof.
  intros Hw Hp. unfold newBlockNode. set (n := initBlockNode DH a hdr parent).
  assert (Hd : deref (a ++ [n]) (List.length a) = n).
  { unfold deref. rewrite app_nth2, Nat.sub_diag by lia. reflexivity. }
  assert (Hpar : bn_parent n = parent) by (subst n; destruct parent; reflexivity).
  assert (Hnew : node_wf (a ++ [n]) (List.length a) /\
  0 <= height_of (a ++ [n]) (List.length a) <= maxHeight).
  { unfold node_wf, height_of. rewrite Hd, Hpar.
    destruct parent as [p|]; [|subst n; simpl; unfold maxHeight; repeat split; lia].
    destruct Hp as [Hp1 Hp2]. pose proof (aw_height a Hw p Hp1) as Hh. unfold maxHeight in *.
    subst n. simpl. rewrite i32_id by (unfold is_i32; lia).
    rewrite deref_app by assumption. fold (height_of a p).
    pose proof (getAncestorHeight_bound (height_of a p + 1) ltac:(unfold maxHeight; lia)) as Hg.
    repeat split; try lia. rewrite Ancestor_eq by assumption.
    replace ((getAncestorHeight (height_of a p + 1) <? 0) ||
             (height_of a p <? getAncestorHeight (height_of a p + 1))) with false.
    - unfold ancestorAt. now rewrite height_app, walk_app by assumption.
    - symmetry. apply orb_false_iff. rewrite !Z.ltb_ge. lia. }
  rewrite length_app. cbn [List.length]. split; [|split; [lia|]].
  - split; intros id Hid; rewrite length_app in Hid; cbn [List.length] in Hid;
      (destruct (Nat.eq_dec id (List.length a)) as [->|Hne]; [apply Hnew|]).
    + apply node_wf_app; auto. lia.
    + rewrite height_app by lia. apply (aw_height a Hw). lia.
  - split; [now rewrite Hd|]. intros i Hi. now apply deref_app.
Qed.

(** ** Lemmas: median time *)

Definition cnt_ge (x : Z) (l : list Z) : nat := List.length (filter (fun y => x <=? y) l).

Lemma insert_sorted_perm x l : Permutation (insert_sorted x l) (x :: l).
Proof.
  induction l as [|y l IH]; simpl; [auto|]. destruct (x <=? y); [auto|].
  rewrite IH. apply perm_swap.
Qed.

Lemma sort_ints_perm l : Permutation (sort_ints l) l.
Proof. induction l as [|x l IH]; simpl; [auto|]. rewrite insert_sorted_perm. now constructor. Qed.

Lemma insert_sorted_sorted x l : StronglySorted Z.le l -> StronglySorted Z.le (insert_sorted x l).
Proof.
  induction 1 as [|y l H IH Hl]; simpl; [repeat constructor|].
  destruct (Z.leb_spec x y) as [Hle|Hgt].
  - constructor; [now constructor|]. constructor; [exact Hle|].
    eapply Forall_impl; [|exact Hl]. intros z Hz. simpl in Hz. lia.
  - constructor; [exact IH|]. rewrite Forall_forall in *. intros z Hz.
    apply (Permutation_in _ (insert_sorted_perm x l)) in Hz. destruct Hz as [<-|Hz]; [lia | auto].
Qed.

Lemma sort_ints_sorted l : StronglySorted Z.le (sort_ints l).
Proof. induction l as [|x l IH]; simpl; [constructor | now apply insert_sorted_sorted]. Qed.

Lemma cnt_ge_perm x l l' : Permutation l l' -> cnt_ge x l = cnt_ge x l'.
Proof.
  unfold cnt_ge. induction 1; simpl; auto; try congruence; repeat destruct (x <=? _); simpl; auto.
Qed.

Lemma cnt_ge_app x l l' : cnt_ge x (l ++ l') = (cnt_ge x l + cnt_ge x l')%nat.
Proof. unfold cnt_ge. now rewrite filter_app, length_app. Qed.

Lemma cnt_ge_le x l : (cnt_ge x l <= List.length l)%nat.
Proof. apply filter_length_le. Qed.

Lemma cnt_ge_all x l : Forall (fun y => x <= y) l -> cnt_ge x l = List.length l.
Proof.
  unfold cnt_ge. induction 1 as [|y l Hy Hl IH]; simpl; [reflexivity|].
  apply Z.leb_le in Hy. rewrite Hy. simpl. now rewrite IH.
Qed.

Lemma cnt_ge_none x l : Forall (fun y => y < x) l -> cnt_ge x l = O.
Proof.
  unfold cnt_ge. induction 1 as [|y l Hy Hl IH]; simpl; [reflexivity|].
  apply Z.leb_gt in Hy. now rewrite Hy.
Qed.

(** The element at index [i] of a sorted list, by counting. *)
Lemma sorted_nth_count s i x y :
  StronglySorted Z.le s -> nth_error s i = Some y ->
  (x <= y <-> (List.length s - i <= cnt_ge x s)%nat).
Proof.
  intros Hs Hi. destruct (nth_error_split s i Hi) as (l1 & l2 & -> & <-).
  rewrite length_app, cnt_ge_app. cbn [List.length].
  assert (H1 : Forall (fun z => z <= y) l1 /\ Forall (fun z => y <= z) l2).
  { clear Hi. induction l1 as [|z l1 IH]; simpl in Hs; inversion_clear Hs as [|? ? H1 H2]; [auto|].
    destruct (IH H1) as [I1 I2]. split; [|exact I2]. constructor; [|exact I1].
    rewrite Forall_forall in H2. apply H2, in_elt. }
  destruct H1 as [H1 H2]. split; intros H.
  - rewrite (cnt_ge_all x (y :: l2)); [simpl; lia|]. constructor; [exact H|].
    eapply Forall_impl; [|exact H2]. intros z Hz. simpl in Hz. lia.
  - destruct (Z.le_gt_cases x y) as [|Hlt]; [assumption|exfalso].
    rewrite (cnt_ge_none x l1) in H.
    + change (y :: l2) with ([y] ++ l2) in H. rewrite cnt_ge_app, (cnt_ge_none x [y]) in H by now repeat constructor.
      pose proof (cnt_ge_le x l2). lia.
    + eapply Forall_impl; [|exact H1]. intros z Hz. simpl in Hz. lia.
Qed.

Lemma sort_ints_length l : List.length (sort_ints l) = List.length l.
Proof. apply Permutation_length, sort_ints_perm. Qed.

(** The median of a window: where it is found and what it bounds. *)
Definition medianOf (l : list Z) : outcome unit Z :=
  get_at (sort_ints l) (len (sort_ints l) / 2).

Lemma medianOf_ok l :
  l <> [] -> exists m, medianOf l = Ok m /\ In m l /\
    forall x, x <= m <-> (List.length l - Nat.div (List.length l) 2 <= cnt_ge x l)%nat.
Proof.
  intros Hne. unfold medianOf, get_at, len. rewrite sort_ints_length.
  change 2 with (Z.of_nat 2). rewrite <- Nat2Z.inj_div, Nat2Z.id, (proj2 (Z.leb_le _ _)) by lia.
  assert (Hlt : (Nat.div (List.length l) 2 < List.length (sort_ints l))%nat).
  { rewrite sort_ints_length. destruct l; [congruence|]. apply Nat.div_lt; simpl; lia. }
  destruct (nth_error (sort_ints l) (Nat.div (List.length l) 2)) as [m|] eqn:E;
    [|apply nth_error_None in E; lia].
  exists m. split; [reflexivity|]. split.
  - apply (Permutation_in m (sort_ints_perm l)). now apply nth_error_In in E.
  - intros x. rewrite (sorted_nth_count _ _ x m (sort_ints_sorted l) E).
    now rewrite sort_ints_length, (cnt_ge_perm x _ _ (sort_ints_perm l)).
Qed.

Lemma timestamps_firstn a k : forall n j,
  (k <= j)%nat -> timestamps k a n = firstn k (timestamps j a n).
Proof.
  induction k as [|k IH]; intros [id|] [|j] H; simpl; try reflexivity; try lia.
  f_equal. apply IH. lia.
Qed.

Lemma timestamps_length a k n : (List.length (timestamps k a n) <= k)%nat.
Proof. revert n; induction k as [|k IH]; intros [id|]; simpl; try lia. specialize (IH (bn_parent (deref a id))). lia. Qed.

Lemma half_grow n : (S n - Nat.div (S n) 2 <= n - Nat.div n 2 + 1)%nat /\ (n - Nat.div n 2 <= S n - Nat.div (S n) 2)%nat.
Proof.
  pose proof (Nat.div_mod n 2 ltac:(lia)). pose proof (Nat.mod_upper_bound n 2 ltac:(lia)).
  pose proof (Nat.div_mod (S n) 2 ltac:(lia)). pose proof (Nat.mod_upper_bound (S n) 2 ltac:(lia)). lia.
Qed.

Lemma timestamps_S k a id :
  timestamps (S k) a (Some id) =
  bn_timestamp (deref a id) :: timestamps k a (bn_parent (deref a id)).
Proof. reflexivity. Qed.

Lemma timestamps_app a b k : forall id,
  arena_wf a -> (id < List.length a)%nat ->
  timestamps k (a ++ b) (Some id) = timestamps k a (Some id).
Proof.
  induction k as [|k IH]; intros id Hw Hid; cbn [timestamps]; [reflexivity|].
  rewrite deref_app by assumption. f_equal.
  destruct (bn_parent (deref a id)) as [p|] eqn:Ep; [|now destruct k].
  apply IH; auto. now destruct (height_parent a id p Hw Hid Ep) as (_ & ? & _).
Qed.

(** A window that moves by one timestamp later than the median keeps enough
    timestamps not below it. *)
Lemma window_shift old m t :
  (List.length old <= 11)%nat ->
  (List.length old - Nat.div (List.length old) 2 <= cnt_ge m old)%nat -> m <= t ->
  let w := t :: firstn 10 old in
  (List.length w - Nat.div (List.length w) 2 <= cnt_ge m w)%nat.
Proof.
  intros Hl Hc Ht. cbn zeta. assert (Hw : cnt_ge m (t :: firstn 10 old) = S (cnt_ge m (firstn 10 old))).
  { unfold cnt_ge. simpl. apply Z.leb_le in Ht. now rewrite Ht. }
  rewrite Hw. cbn [List.length]. pose proof (half_grow (List.length (firstn 10 old))) as [G1 G2].
  destruct (Nat.eq_dec (List.length old) 11) as [E|Hne].
  - rewrite <- (firstn_skipn 10 old), cnt_ge_app in Hc. pose proof (cnt_ge_le m (skipn 10 old)).
    rewrite length_skipn in H. rewrite firstn_skipn, E in Hc. rewrite length_firstn, E in *.
    change (Nat.div 11 2) with 5%nat in Hc. change (Nat.min 10 11) with 10%nat in *.
    change (Nat.div 11 2) with 5%nat. lia.
  - rewrite (firstn_all2 old) in * by lia. lia.
Qed.

(** The median time does not decrease when a timestamp is not before it. *)
Lemma median_step a id p m : bn_parent (deref a id) = Some p -> CalcPastMedianTime a p = Ok m ->
  m <= bn_timestamp (deref a id) -> exists m', CalcPastMedianTime a id = Ok m' /\ m <= m'.
Proof.
  intros Hp Hm Ht. set (old := timestamps medianTimeBlocks a (Some p)).
  assert (Hts : timestamps medianTimeBlocks a (Some id) = bn_timestamp (deref a id) :: firstn 10 old).
  { unfold medianTimeBlocks. rewrite timestamps_S. f_equal. rewrite Hp. unfold old, medianTimeBlocks.
    apply (timestamps_firstn a 10 (Some p) 11). lia. }
  change (CalcPastMedianTime a p) with (medianOf old) in Hm. unfold CalcPastMedianTime. rewrite Hts.
  destruct (medianOf_ok old) as (m0 & E0 & _ & Hc0); [discriminate|]. rewrite Hm in E0. injection E0 as <-.
  destruct (medianOf_ok (bn_timestamp (deref a id) :: firstn 10 old)) as (m' & E' & _ & Hc'); [discriminate|].
  exists m'. split; [exact E'|]. apply Hc'. specialize (proj1 (Hc0 m) ltac:(lia)) as Hge.
  apply window_shift; [apply timestamps_length | exact Hge | exact Ht].
Qed.

Lemma median_total a id : exists m, CalcPastMedianTime a id = Ok m.
Proof. destruct (medianOf_ok (timestamps medianTimeBlocks a (Some id))) as (m & E & _); [discriminate|]. now exists m. Qed.

(** ** The arenas the code builds *)

Definition parent_ok (a : arena) (parent : option nat) : Prop :=
  match parent with None => True | Some p => (p < List.length a)%nat /\ height_of a p < maxHeight end.

Inductive built (DH : list Z -> list Z) : arena -> Prop :=
| built_nil : built DH []
| built_new a hdr parent :
    built DH a -> parent_ok a parent -> built DH (fst (newBlockNode DH a hdr parent)).

Lemma built_wf DH a : built DH a -> arena_wf a.
Proof.
  induction 1 as [|a hdr parent Hb IH Hp]; [apply arena_wf_nil|].
  exact (proj1 (newBlockNode_ok DH a hdr parent IH Hp)).
Qed.

(** The nodes from a node down to the root of its tree. *)
Fixpoint branch (fuel : nat) (a : arena) (id : nat) : list nat :=
  match fuel with
  | O => [id]
  | S fuel' =>
      match bn_parent (deref a id) with
      | Some p => id :: branch fuel' a p
      | None => [id]
      end
  end.
Definition branch_of (a : arena) (id : nat) : list nat := branch (Z.to_nat (height_of a id)) a id.

Definition total_work (a : arena) (ids : list nat) : Z :=
  fold_right (fun id n => CalcWork (bn_bits (deref a id)) + n) 0 ids.

Lemma branch_of_parent a id p :
  arena_wf a -> (id < List.length a)%nat -> bn_parent (deref a id) = Some p ->
  branch_of a id = id :: branch_of a p.
Proof.
  intros Hw Hid Hp. destruct (height_parent a id p Hw Hid Hp) as (_ & Hp2 & H).
  pose proof (aw_height a Hw p Hp2).
  unfold branch_of. replace (Z.to_nat (height_of a id)) with (S (Z.to_nat (height_of a p))) by lia.
  cbn [branch]. now rewrite Hp.
Qed.

Lemma branch_of_root a id :
  arena_wf a -> (id < List.length a)%nat -> bn_parent (deref a id) = None -> branch_of a id = [id].
Proof. intros Hw Hid Hp. unfold branch_of. now rewrite (height_root a id Hw Hid Hp). Qed.

(** ** Properties *)

(** C24: in every tree of block nodes built by newBlockNode, Ancestor, which follows
    the skip pointers, returns the node that walking the parents reaches, and nil
    outside of the heights of the branch. *)
Theorem Ancestor_correct DH a id h :
  built DH a -> (id < List.length a)%nat ->
  (0 <= h <= height_of a id ->
     exists x, Ancestor a id h = Some x /\ walk a id (Z.to_nat (height_of a id - h)) = Some x /\
               height_of a x = h) /\
  (h < 0 \/ height_of a id < h -> Ancestor a id h = None).
Proof.
  intros Hb Hid. apply built_wf in Hb. rewrite Ancestor_eq by assumption. split; intros H.
  - destruct (ancestorAt_spec a id h Hb Hid H) as (x & E & _ & _ & Hx).
    exists x. rewrite (proj2 (orb_false_iff _ _)); [auto|]. rewrite !Z.ltb_ge. lia.
  - rewrite (proj2 (orb_true_iff _ _)); [reflexivity|]. rewrite !Z.ltb_lt. exact H.
Qed.

(** The header reconstructed from a new node is the header it was created from,
    its hash is the hash of the header, and no header of an older node changes. *)
Theorem node_header_roundtrip DH a hdr parent :
  built DH a -> parent_ok a parent ->
  bh_PrevBlock hdr = match parent with Some p => bn_hash (deref a p) | None => zeroHash end ->
  let (a', id) := newBlockNode DH a hdr parent in
  Header a' id = hdr /\ bn_hash (deref a' id) = BlockHash DH hdr /\
  (forall i, (i < List.length a)%nat -> Header a' i = Header a i).
Proof.
  intros Hb Hp Hprev. pose proof (built_wf DH a Hb) as Hw.
  pose proof (newBlockNode_ok DH a hdr parent Hw Hp) as H.
  unfold newBlockNode in *. destruct H as (Hw' & Hid & Hpar & Hold).
  set (n := initBlockNode DH a hdr parent) in *.
  assert (Hd : deref (a ++ [n]) (List.length a) = n).
  { unfold deref. rewrite app_nth2, Nat.sub_diag by lia. reflexivity. }
  rewrite Hd in Hpar. split; [|split].
  - unfold Header. rewrite Hd, Hpar. destruct parent as [p|].
    + rewrite Hold by apply Hp. rewrite <- Hprev. now destruct hdr.
    + rewrite <- Hprev. now destruct hdr.
  - rewrite Hd. now destruct parent.
  - intros i Hi. unfold Header. rewrite (Hold i Hi).
    destruct (bn_parent (deref a i)) as [p|] eqn:Ep; [|reflexivity].
    destruct (height_parent a i p Hw Hi Ep) as (_ & Hpl & _). now rewrite (Hold p Hpl).
Qed.

(** In every tree built by newBlockNode, the work sum of a node is the total of
    the work of its branch. *)
Theorem workSum_total DH a id :
  built DH a -> (id < List.length a)%nat ->
  bn_workSum (deref a id) = total_work a (branch_of a id) /\
  List.length (branch_of a id) = S (Z.to_nat (height_of a id)).
Proof.
  intros Hb. apply built_wf in Hb. induction id as [id IH] using lt_wf_ind. intros Hid.
  pose proof (aw_nodes a Hb id Hid) as Hn. unfold node_wf in Hn.
  destruct (bn_parent (deref a id)) as [p|] eqn:Ep.
  - destruct (height_parent a id p Hb Hid Ep) as (H1 & H2 & H3).
    destruct (IH p H1 H2) as [I1 I2]. destruct Hn as (_ & _ & _ & ->).
    pose proof (aw_height a Hb p H2).
    rewrite (branch_of_parent a id p Hb Hid Ep), I1. simpl. split; [lia|]. rewrite I2, H3. lia.
  - destruct Hn as (H0 & _ & ->). rewrite (branch_of_root a id Hb Hid Ep), H0. simpl. lia.
Qed.

(** When the time of a block is after the median time of its parent, the median
    time of the block is not before that of the parent. *)
Theorem median_time_monotone DH a hdr p m :
  built DH a -> parent_ok a (Some p) ->
  CalcPastMedianTime a p = Ok m -> m < bh_Timestamp hdr ->
  let (a', id) := newBlockNode DH a hdr (Some p) in
  exists m', CalcPastMedianTime a' id = Ok m' /\ m <= m'.
Proof.
  intros Hb Hp Hm Ht. unfold newBlockNode. set (n := initBlockNode DH a hdr (Some p)).
  assert (Hd : deref (a ++ [n]) (List.length a) = n).
  { unfold deref. rewrite app_nth2, Nat.sub_diag by lia. reflexivity. }
  apply (median_step (a ++ [n]) (List.length a) p); [now rewrite Hd | | rewrite Hd; cbn; lia].
  unfold CalcPastMedianTime. now rewrite timestamps_app by (apply (built_wf DH a Hb) || apply Hp).
Qed.

(** ** A small tree

    0 <- 1 <- 2 <- 3 and a side block 4 on top of 1; the header of a block is
    its own hash. *)

Definition sampleHash (l : list Z) : list Z := firstn 32 (skipn 36 l).
Definition sampleHeader (k : Z) : BlockHeader :=
  mkBlockHeader 1 zeroHash (repeat k 32) (1000 + k) 0x1d00ffff k.
Definition extend (a : arena) (k : Z) (parent : option nat) : arena :=
  fst (newBlockNode sampleHash a (sampleHeader k) parent).
Definition sample_arena : arena :=
  extend (extend (extend (extend (extend [] 0 None) 1 (Some 0%nat)) 2 (Some 1%nat)) 3 (Some 2%nat))
    4 (Some 1%nat).

Lemma sample_built : built sampleHash sample_arena.
Proof.
  repeat (apply built_new; [|exact I || (split; [vm_compute; lia | vm_compute; reflexivity])]).
  apply built_nil.
Qed.

Lemma Ancestor_correct_witness :
  exists x, Ancestor sample_arena 3 1 = Some x /\ walk sample_arena 3 2 = Some x.
Proof.
  destruct (Ancestor_correct sampleHash sample_arena 3 1 sample_built) as [H _];
    [vm_compute; lia|].
  destruct H as (x & E & W & _); [vm_compute; split; congruence|].
  exists x. split; [exact E | exact W].
Defined.

Lemma node_header_roundtrip_witness :
  Header (extend [] 7 None) 0 = sampleHeader 7.
Proof.
  exact (proj1 (node_header_roundtrip sampleHash [] (sampleHeader 7) None
    (built_nil _) I eq_refl)).
Defined.

Lemma workSum_total_witness :
  bn_workSum (deref sample_arena 4) = total_work sample_arena [4%nat; 1%nat; 0%nat].
Proof.
  exact (proj1 (workSum_total sampleHash sample_arena 4 sample_built ltac:(vm_compute; lia))).
Defined.

Lemma median_time_monotone_witness :
  exists m m', CalcPastMedianTime sample_arena 3 = Ok m /\
    CalcPastMedianTime (extend sample_arena 9 (Some 3%nat)) 5 = Ok m' /\ m <= m'.
Proof.
  exists 1002.
  destruct (median_time_monotone sampleHash sample_arena (sampleHeader 9) 3 1002 sample_built)
    as (m' & E & H); [split; [vm_compute; lia | vm_compute; reflexivity] | reflexivity | vm_compute; reflexivity |].
  exists m'. split; [reflexivity|]. split; [exact E | exact H].
Defined.
