(* ===== verification/ChainView.v ===== *)
(** * Chain views (blockchain/chainview.go)

    The flat view of a branch of the tree of block nodes: a slice indexed by
    height.  The mutex of the view is not modelled: the locked and the unlocked
    variants of an operation are one definition. *)

From Stdlib Require Import ZArith List Lia Bool.
From S2P Require Import Prelude GoSlice GoIO WireCommon WireMsgs Difficulty BlockIndex.
Import ListNotations.
Local Open Scope list_scope.
Local Open Scope Z_scope.
Local Open Scope go_scope.

Definition approxNodesPerWeek : Z := 6 * 24 * 7.

(** ** fastLog2Floor *)

Definition log2FloorMasks : list Z := [0xffff0000; 0xff00; 0xf0; 0xc; 0x2].

Fixpoint log2_loop (masks : list Z) (n rv exponent : Z) : Z :=
  match masks with
  | [] => rv
  | mask :: masks' =>
      if negb (Z.land n mask =? 0)
      then log2_loop masks' (Z.shiftr n exponent) (u8 (rv + exponent)) (Z.shiftr exponent 1)
      else log2_loop masks' n rv (Z.shiftr exponent 1)
  end.
Definition fastLog2Floor (n : Z) : Z := log2_loop log2FloorMasks n 0 16.

(** ** Views

    [cv_backing] is the array behind the slice [nodes], which has length
    [cv_len]. *)
Record chainView : Type := mkChainView {
  cv_backing : list (option nat);
  cv_len : Z
}.

Definition nodes (c : chainView) : list (option nat) := firstn (Z.to_nat (cv_len c)) (cv_backing c).
Definition emptyView : chainView := mkChainView [] 0.

(** The walk of setTip from the new tip down to the first node in place. *)
Fixpoint setTip_loop (fuel : nat) (a : arena) (ns : list (option nat)) (node : option nat)
    : outcome unit (list (option nat)) :=
  match node with
  | None => Ok ns
  | Some id =>
      let* cur := get_at ns (height_of a id) in
      if opt_nat_eqb cur (Some id) then Ok ns
      else
        match fuel with
        | O => Panic
        | S fuel' =>
            let* ns := set_at ns (height_of a id) (Some id) in
            setTip_loop fuel' a ns (bn_parent (deref a id))
        end
  end.

(** The slice grown or cut to [needed] entries; the new ones are nil.  [make]
    panics when the capacity is below the length. *)
Definition resize (c : chainView) (needed : Z) : outcome unit chainView :=
  let ns := nodes c in
  if i32 (len (cv_backing c)) <? needed then
    let cap := i32 (needed + approxNodesPerWeek) in
    if cap <? needed then Panic
    else Ok (mkChainView (ns ++ repeat None (Z.to_nat cap - List.length ns)%nat) needed)
  else
    let prevLen := Z.to_nat (cv_len c) in
    let cleared := (Z.to_nat needed - prevLen)%nat in
    Ok (mkChainView (firstn prevLen (cv_backing c) ++ repeat None cleared ++
                     skipn (prevLen + cleared) (cv_backing c)) needed).

Definition setTip (a : arena) (c : chainView) (node : option nat) : outcome unit chainView :=
  match node with
  | None => Ok (mkChainView (cv_backing c) 0)
  | Some id =>
      let needed := i32 (height_of a id + 1) in
      let* c := resize c needed in
      let* ns := setTip_loop (S (Z.to_nat (height_of a id))) a (nodes c) node in
      Ok (mkChainView (ns ++ skipn (Z.to_nat needed) (cv_backing c)) needed)
  end.

Definition newChainView (a : arena) (tip : option nat) : outcome unit chainView :=
  setTip a emptyView tip.

Definition genesis (c : chainView) : option nat :=
  match nodes c with [] => None | n :: _ => n end.
Definition tip (c : chainView) : option nat :=
  match nodes c with [] => None | _ => last (nodes c) None end.
Definition cv_height (c : chainView) : Z := i32 (len (nodes c) - 1).

Definition nodeByHeight (c : chainView) (height : Z) : option nat :=
  if (height <? 0) || (i32 (len (nodes c)) <=? height) then None
  else nth (Z.to_nat height) (nodes c) None.

Definition Equals (c other : chainView) : bool :=
  (len (nodes c) =? len (nodes other)) && opt_nat_eqb (tip c) (tip other).

Definition contains (a : arena) (c : chainView) (node : nat) : bool :=
  opt_nat_eqb (nodeByHeight c (height_of a node)) (Some node).

Definition next (a : arena) (c : chainView) (node : option nat) : option nat :=
  match node with
  | None => None
  | Some id => if contains a c id then nodeByHeight c (i32 (height_of a id + 1)) else None
  end.

(** The walk of findFork to the first node of the view. *)
Fixpoint fork_loop (fuel : nat) (a : arena) (c : chainView) (node : option nat) : option nat :=
  match node with
  | None => None
  | Some id =>
      if contains a c id then Some id
      else match fuel with O => None | S fuel' => fork_loop fuel' a c (bn_parent (deref a id)) end
  end.

Definition findFork (a : arena) (c : chainView) (node : option nat) : option nat :=
  match node with
  | None => None
  | Some id =>
      let chainHeight := cv_height c in
      let node := if chainHeight <? height_of a id then Ancestor a id chainHeight else node in
      fork_loop (Z.to_nat (height_of a id)) a c node
  end.

(** ** Block locators *)

Definition maxEntries (height : Z) : Z :=
  if height <=? 12 then u8 (u8 height + 1)
  else u8 (12 + fastLog2Floor (u32 (u32 height - 10))).

Fixpoint locator_loop (fuel : nat) (a : arena) (c : chainView) (node : option nat) (step : Z)
    (locator : list nat) : list nat :=
  match node with
  | None => locator
  | Some id =>
      let locator := locator ++ [id] in
      if height_of a id =? 0 then locator
      else
        match fuel with
        | O => locator
        | S fuel' =>
            let height := i32 (height_of a id - step) in
            let height := if height <? 0 then 0 else height in
            let node :=
              if contains a c id then nth (Z.to_nat height) (nodes c) None
              else Ancestor a id height in
            let step := if 10 <? len locator then i32 (step * 2) else step in
            locator_loop fuel' a c node step locator
        end
  end.

(** The locator holds pointers to the hashes of the nodes; here the nodes
    themselves.  The index into [nodes] above is in range, since the view
    contains a node of a larger height. *)
Definition blockLocator (a : arena) (c : chainView) (node : option nat) : list nat :=
  let node := match node with None => tip c | _ => node end in
  match node with
  | None => []
  | Some id => locator_loop (Z.to_nat (height_of a id)) a c node 1 []
  end.

(** ** Lemmas: fastLog2Floor *)

Lemma mask_test n e :
  0 <= e -> 0 <= n < 2 ^ (2 * e) ->
  negb (Z.land n (Z.shiftl (Z.ones e) e) =? 0) = (2 ^ e <=? n).
Proof.
  intros He Hn. assert (Hp : 0 < 2 ^ e) by (apply Z.pow_pos_nonneg; lia).
  assert (Hl : Z.land n (Z.shiftl (Z.ones e) e) = Z.shiftl (n / 2 ^ e) e).
  { rewrite <- Z.shiftr_div_pow2 by lia. apply Z.bits_inj'. intros i Hi.
    rewrite Z.land_spec, !Z.shiftl_spec by lia. destruct (Z.ltb_spec i e).
    - rewrite !(Z.testbit_neg_r _ (i - e)) by lia. apply andb_false_r.
    - rewrite Z.shiftr_spec, Z.sub_add by lia. destruct (Z.ltb_spec (i - e) e).
      + now rewrite Z.ones_spec_low, andb_true_r by lia.
      + rewrite Z.ones_spec_high, andb_false_r by lia. symmetry.
        destruct (Z.eq_dec n 0) as [->|]; [apply Z.bits_0|].
        apply Z.bits_above_log2; [lia|]. apply Z.log2_lt_pow2; [lia|].
        eapply Z.lt_le_trans; [apply Hn|]. apply Z.pow_le_mono_r; lia. }
  rewrite Hl, Z.shiftl_mul_pow2 by lia. apply Bool.eq_true_iff_eq.
  rewrite negb_true_iff, Z.eqb_neq, Z.leb_le. split; intros H.
  - destruct (Z.lt_ge_cases n (2 ^ e)); [|assumption]. rewrite Z.div_small in H by lia. lia.
  - assert (1 <= n / 2 ^ e) by (apply Z.div_le_lower_bound; lia). nia.
Qed.

(** One round: the value loses [e] bits when it has them. *)
Lemma log2_round masks n rv e :
  1 <= e <= 16 -> 0 < n < 2 ^ (2 * e) -> 0 <= rv <= 32 ->
  exists n' rv', log2_loop (Z.shiftl (Z.ones e) e :: masks) n rv e =
      log2_loop masks n' rv' (Z.shiftr e 1) /\
    0 < n' < 2 ^ e /\ rv' + Z.log2 n' = rv + Z.log2 n /\ rv <= rv' <= rv + e.
Proof.
  intros He Hn Hrv. cbn [log2_loop]. rewrite mask_test by lia.
  assert (Hp : 0 < 2 ^ e) by (apply Z.pow_pos_nonneg; lia).
  assert (Hpp : 2 ^ (2 * e) = 2 ^ e * 2 ^ e).
  { rewrite <- Z.pow_add_r by lia. f_equal. lia. }
  destruct (Z.leb_spec (2 ^ e) n) as [Hle|Hgt].
  - exists (Z.shiftr n e), (u8 (rv + e)). split; [reflexivity|].
    rewrite u8_id by (unfold is_byte; lia). rewrite Z.log2_shiftr by lia.
    assert (e <= Z.log2 n) by (apply Z.log2_le_pow2; lia). rewrite Z.max_r by lia.
    rewrite Z.shiftr_div_pow2 by lia. split; [|lia]. split.
    + assert (1 <= n / 2 ^ e) by (apply Z.div_le_lower_bound; lia). lia.
    + apply Z.div_lt_upper_bound; lia.
  - exists n, rv. split; [reflexivity|]. lia.
Qed.

Lemma fastLog2Floor_log2 n : 0 < n < 2 ^ 32 -> fastLog2Floor n = Z.log2 n.
Proof.
  intros Hn. unfold fastLog2Floor, log2FloorMasks.
  destruct (log2_round [0xff00; 0xf0; 0xc; 0x2] n 0 16) as (n1 & r1 & E1 & B1 & L1 & R1); [lia..|].
  destruct (log2_round [0xf0; 0xc; 0x2] n1 r1 8) as (n2 & r2 & E2 & B2 & L2 & R2); [lia..|].
  destruct (log2_round [0xc; 0x2] n2 r2 4) as (n3 & r3 & E3 & B3 & L3 & R3); [lia..|].
  destruct (log2_round [0x2] n3 r3 2) as (n4 & r4 & E4 & B4 & L4 & R4); [lia..|].
  destruct (log2_round [] n4 r4 1) as (n5 & r5 & E5 & B5 & L5 & R5); [lia..|].
  change (Z.shiftl (Z.ones 16) 16) with 0xffff0000 in E1. change (Z.shiftr 16 1) with 8 in E1.
  change (Z.shiftl (Z.ones 8) 8) with 0xff00 in E2. change (Z.shiftr 8 1) with 4 in E2.
  change (Z.shiftl (Z.ones 4) 4) with 0xf0 in E3. change (Z.shiftr 4 1) with 2 in E3.
  change (Z.shiftl (Z.ones 2) 2) with 0xc in E4. change (Z.shiftr 2 1) with 1 in E4.
  change (Z.shiftl (Z.ones 1) 1) with 0x2 in E5.
  rewrite E1, E2, E3, E4, E5. cbn [log2_loop].
  assert (n5 = 1) as -> by (change (2 ^ 1) with 2 in B5; lia). rewrite Z.log2_1 in L5. lia.
Qed.

(** ** Lemmas: the view of a tip *)

(** The reference: at each height the ancestor of the tip. *)
Definition view_of (a : arena) (t : nat) : list (option nat) :=
  map (fun i => ancestorAt a t (Z.of_nat i)) (seq 0 (S (Z.to_nat (height_of a t)))).

Lemma view_length a t : List.length (view_of a t) = S (Z.to_nat (height_of a t)).
Proof. unfold view_of. now rewrite length_map, length_seq. Qed.

Lemma view_nth a t i :
  (i <= Z.to_nat (height_of a t))%nat ->
  nth_error (view_of a t) i = Some (ancestorAt a t (Z.of_nat i)).
Proof.
  intros H. unfold view_of. rewrite nth_error_map, nth_error_seq.
  now rewrite (proj2 (Nat.ltb_lt i _)) by lia.
Qed.

Lemma view_ext a t ns :
  List.length ns = S (Z.to_nat (height_of a t)) ->
  (forall i, (i <= Z.to_nat (height_of a t))%nat -> nth_error ns i = Some (ancestorAt a t (Z.of_nat i))) ->
  ns = view_of a t.
Proof.
  intros Hl H. apply nth_error_ext. intros i.
  destruct (Nat.le_gt_cases i (Z.to_nat (height_of a t))) as [Hle|Hgt].
  - now rewrite (H i Hle), view_nth.
  - rewrite (proj2 (nth_error_None ns i)), (proj2 (nth_error_None (view_of a t) i));
      rewrite ?view_length; auto; lia.
Qed.

Lemma ancestorAt_self a id : ancestorAt a id (height_of a id) = Some id.
Proof. unfold ancestorAt. now rewrite Z.sub_diag. Qed.

(** Below an entry the slice holds its ancestors. *)
Definition coherent_below (a : arena) (ns : list (option nat)) (bound : Z) : Prop :=
  forall i y, Z.of_nat i <= bound -> nth_error ns i = Some (Some y) ->
    forall j, (j <= i)%nat -> nth_error ns j = Some (ancestorAt a y (Z.of_nat j)).

Lemma set_at_nth {E A} (l : list A) i v :
  0 <= i < len l ->
  exists l', @set_at E A l i v = Ok l' /\ List.length l' = List.length l /\
    nth_error l' (Z.to_nat i) = Some v /\
    forall j, j <> Z.to_nat i -> nth_error l' j = nth_error l j.
Proof.
  intros Hi. assert (Hn : (Z.to_nat i < List.length l)%nat) by (unfold len in Hi; lia).
  destruct (nth_error l (Z.to_nat i)) as [x|] eqn:Ex; [|apply nth_error_None in Ex; lia].
  destruct (nth_error_split l _ Ex) as (l1 & l2 & -> & Hl1).
  exists (l1 ++ v :: l2). split; [apply set_at_eq; unfold len; lia|].
  split; [now rewrite !length_app|]. rewrite <- Hl1. split.
  - now rewrite nth_error_app2, Nat.sub_diag by lia.
  - intros j Hj. destruct (Nat.lt_ge_cases j (List.length l1)).
    + now rewrite !nth_error_app1 by assumption.
    + rewrite !nth_error_app2 by assumption. now destruct (j - List.length l1)%nat eqn:Ej; [lia|].
Qed.

Lemma opt_nat_eqb_eq x y : opt_nat_eqb x y = true <-> x = y.
Proof.
  destruct x as [i|], y as [j|]; simpl; try (split; congruence).
  rewrite Nat.eqb_eq. split; congruence.
Qed.

Lemma setTip_loop_spec a n fuel : forall x ns,
  arena_wf a -> (n < List.length a)%nat -> (x < List.length a)%nat ->
  height_of a x <= height_of a n -> ancestorAt a n (height_of a x) = Some x ->
  List.length ns = S (Z.to_nat (height_of a n)) -> height_of a x < Z.of_nat fuel ->
  (forall i, height_of a x < Z.of_nat i <= height_of a n ->
     nth_error ns i = Some (ancestorAt a n (Z.of_nat i))) ->
  coherent_below a ns (height_of a x) ->
  setTip_loop fuel a ns (Some x) = Ok (view_of a n).
Proof.
  induction fuel as [|fuel IH]; intros x ns Hw Hn Hx Hle Hanc Hlen Hf Habove Hcoh;
    pose proof (aw_height a Hw x Hx) as Hhx; [lia|].
  assert (Hcur : exists cur, nth_error ns (Z.to_nat (height_of a x)) = Some cur).
  { destruct (nth_error ns (Z.to_nat (height_of a x))) eqn:E; [eauto|].
    apply nth_error_None in E. lia. }
  destruct Hcur as [cur Hcur]. cbn [setTip_loop]. unfold get_at at 1.
  rewrite (proj2 (Z.leb_le 0 (height_of a x))), Hcur by lia. cbn [obind].
  destruct (opt_nat_eqb cur (Some x)) eqn:Eq.
  - apply opt_nat_eqb_eq in Eq. subst cur. f_equal. apply view_ext; [exact Hlen|]. intros i Hi.
    destruct (Z.le_gt_cases (Z.of_nat i) (height_of a x)) as [Hix|Hix]; [|apply Habove; lia].
    rewrite (Hcoh (Z.to_nat (height_of a x)) x ltac:(lia) Hcur i ltac:(lia)). f_equal. symmetry.
    apply (ancestorAt_trans a n (height_of a x)); auto; lia.
  - destruct (@set_at_nth unit _ ns (height_of a x) (Some x)) as (ns' & E & L & N1 & N2);
      [unfold len; lia|].
    rewrite E. cbn [obind].
    assert (Hab' : forall i, height_of a x <= Z.of_nat i <= height_of a n ->
      nth_error ns' i = Some (ancestorAt a n (Z.of_nat i))).
    { intros i Hi. destruct (Nat.eq_dec i (Z.to_nat (height_of a x))) as [->|Hne].
      - rewrite N1, Z2Nat.id by lia. now rewrite Hanc.
      - rewrite N2 by assumption. apply Habove. lia. }
    destruct (bn_parent (deref a x)) as [p|] eqn:Ep.
    + destruct (height_parent a x p Hw Hx Ep) as (_ & Hp & Hph). apply IH; auto; try lia.
      * rewrite (ancestorAt_trans a n (height_of a x) (height_of a p) x) by (auto; lia).
        rewrite (ancestorAt_parent a x p) by (auto; lia). apply ancestorAt_self.
      * intros i Hi. apply Hab'. lia.
      * intros i y Hi Hy j Hj. rewrite N2 by lia. rewrite N2 in Hy by lia.
        apply (Hcoh i y); auto; lia.
    + pose proof (height_root a x Hw Hx Ep) as H0.
      assert (Hdone : ns' = view_of a n).
      { apply view_ext; [lia|]. intros i Hi. apply Hab'. lia. }
      destruct fuel; cbn [setTip_loop]; now rewrite Hdone.
Qed.

(** ** Lemmas: setTip *)

(** Heights that leave room for the spare capacity. *)
Definition maxViewHeight : Z := 2 ^ 31 - 2000.

Record view_ok (a : arena) (c : chainView) (t : option nat) : Prop := {
  vo_len : 0 <= cv_len c <= len (cv_backing c);
  vo_cap : len (cv_backing c) < 2 ^ 31;
  vo_nodes : match t with
             | None => cv_len c = 0
             | Some t => (t < List.length a)%nat /\ height_of a t <= maxViewHeight /\
                         nodes c = view_of a t
             end
}.

Lemma nodes_length c : 0 <= cv_len c <= len (cv_backing c) -> len (nodes c) = cv_len c.
Proof. intros H. unfold nodes. apply len_firstn. lia. Qed.

Lemma view_ok_len a c t : arena_wf a -> view_ok a c (Some t) -> cv_len c = height_of a t + 1.
Proof.
  intros Hw [H1 H2 (Ht & Hh & Hn)]. pose proof (nodes_length c H1) as Hl.
  pose proof (aw_height a Hw t Ht). rewrite Hn in Hl. unfold len in Hl. rewrite view_length in Hl. lia.
Qed.

Lemma nth_error_firstn_lt {A} (l : list A) i n : (i < n)%nat -> nth_error (firstn n l) i = nth_error l i.
Proof.
  revert i n. induction l as [|x l IH]; intros [|i] [|n] H; simpl; try reflexivity; try lia.
  apply IH. lia.
Qed.

Lemma nth_error_repeat_none {A} n i y : nth_error (repeat (@None A) n) i <> Some (Some y).
Proof. revert i. induction n as [|n IH]; intros [|i]; simpl; try discriminate. apply IH. Qed.

(** What resize leaves of the old entries. *)
Lemma resize_spec c needed :
  0 <= cv_len c <= len (cv_backing c) -> len (cv_backing c) < 2 ^ 31 ->
  0 < needed <= maxViewHeight + 1 ->
  exists c', resize c needed = Ok c' /\ cv_len c' = needed /\
    needed <= len (cv_backing c') < 2 ^ 31 /\ List.length (nodes c') = Z.to_nat needed /\
    (forall i y, nth_error (nodes c') i = Some (Some y) ->
       nth_error (nodes c) i = Some (Some y)) /\
    (forall i, (i < Z.to_nat needed)%nat -> (i < List.length (nodes c))%nat ->
       nth_error (nodes c') i = nth_error (nodes c) i).
Proof.
  unfold maxViewHeight. intros Hl Hc Hn. unfold resize.
  pose proof (nodes_length c Hl) as Hnl.
  assert (Hnl' : List.length (nodes c) = Z.to_nat (cv_len c)) by (unfold len in Hnl; lia).
  rewrite (i32_id (len (cv_backing c))) by (unfold is_i32; pose proof (len_nonneg (cv_backing c)); lia).
  assert (Hgen : forall c' k tail, cv_len c' = needed -> cv_backing c' = nodes c ++ repeat None k ++ tail ->
    (Z.to_nat needed <= Z.to_nat (cv_len c) + k)%nat ->
    List.length (nodes c') = Z.to_nat needed /\
    (forall i y, nth_error (nodes c') i = Some (Some y) -> nth_error (nodes c) i = Some (Some y)) /\
    (forall i, (i < Z.to_nat needed)%nat -> (i < List.length (nodes c))%nat ->
       nth_error (nodes c') i = nth_error (nodes c) i)).
  { intros c' k tail E1 E2 Hk.
    assert (Hnc : nodes c' = firstn (Z.to_nat needed) (nodes c ++ repeat None k ++ tail))
      by (unfold nodes at 1; now rewrite E1, E2).
    rewrite Hnc. split; [|split].
    - rewrite length_firstn, !length_app, repeat_length. lia.
    - intros i y H. destruct (Nat.lt_ge_cases i (Z.to_nat needed)) as [Hi|Hi].
      2:{ rewrite (proj2 (nth_error_None _ _)) in H; [discriminate|].
          rewrite length_firstn. lia. }
      rewrite nth_error_firstn_lt in H by assumption.
      destruct (Nat.lt_ge_cases i (List.length (nodes c))) as [Hi2|Hi2];
        [now rewrite nth_error_app1 in H by assumption|].
      rewrite nth_error_app2, nth_error_app1 in H by (rewrite ?repeat_length; lia).
      now apply nth_error_repeat_none in H.
    - intros i Hi Hi2. now rewrite nth_error_firstn_lt, nth_error_app1 by assumption. }
  destruct (Z.ltb_spec (len (cv_backing c)) needed) as [Hlt|Hge].
  - unfold approxNodesPerWeek. change (6 * 24 * 7) with 1008.
    rewrite i32_id, (proj2 (Z.ltb_ge _ _)) by (unfold is_i32; lia).
    eexists. split; [reflexivity|]. split; [reflexivity|]. cbn [cv_backing cv_len].
    split; [rewrite len_app; unfold len; rewrite repeat_length; lia|].
    apply (Hgen _ (Z.to_nat (needed + 1008) - List.length (nodes c))%nat []);
      [reflexivity | cbn [cv_backing]; now rewrite app_nil_r | lia].
  - eexists. split; [reflexivity|]. split; [reflexivity|]. cbn [cv_backing cv_len].
    set (k := (Z.to_nat needed - Z.to_nat (cv_len c))%nat).
    split.
    + rewrite !len_app. unfold len in *. rewrite repeat_length, length_firstn, length_skipn. lia.
    + apply (Hgen _ k (skipn (Z.to_nat (cv_len c) + k) (cv_backing c))); [reflexivity | reflexivity | lia].
Qed.

Lemma setTip_ok a c t id :
  arena_wf a -> view_ok a c t -> (id < List.length a)%nat -> height_of a id <= maxViewHeight ->
  exists c', setTip a c (Some id) = Ok c' /\ view_ok a c' (Some id).
Proof.
  intros Hw Hv Hid Hh. pose proof Hv as [V1 V2 V3]. pose proof (aw_height a Hw id Hid) as Hid0.
  unfold setTip. rewrite i32_id by (unfold maxViewHeight in Hh; unfold is_i32; lia).
  destruct (resize_spec c (height_of a id + 1) V1 V2 ltac:(lia))
    as (c' & -> & L & Cap & Hlen & Hold & Hkeep). cbn [obind].
  assert (Hcoh : coherent_below a (nodes c') (height_of a id)).
  { intros i y Hi Hy j Hj. pose proof (Hold i y Hy) as Hcy. destruct t as [t|].
    2:{ unfold nodes in Hcy. rewrite V3 in Hcy. now destruct i. }
    destruct V3 as (Ht & _ & Hn). rewrite Hn in *.
    assert (Hil : (i < List.length (view_of a t))%nat) by (apply nth_error_Some; congruence).
    rewrite view_length in *.
    rewrite view_nth in Hcy by lia. injection Hcy as Hcy. pose proof (aw_height a Hw t Ht).
    rewrite Hkeep by (rewrite ?view_length; lia). rewrite view_nth by lia. f_equal.
    apply (ancestorAt_trans a t (Z.of_nat i)); auto; lia. }
  rewrite (setTip_loop_spec a id); auto; try lia; [|apply ancestorAt_self].
  cbn [obind]. eexists. split; [reflexivity|].
  assert (Hvl : len (view_of a id) = height_of a id + 1).
  { unfold len. rewrite view_length. lia. }
  assert (Hskip : len (view_of a id ++ skipn (Z.to_nat (height_of a id + 1)) (cv_backing c')) =
                  len (cv_backing c')).
  { rewrite len_app, Hvl. unfold len in *. rewrite length_skipn. lia. }
  split; cbn [cv_len cv_backing]; rewrite ?Hskip; try lia.
  split; [exact Hid|]. split; [exact Hh|]. unfold nodes. cbn [cv_len cv_backing].
  rewrite <- Hvl. apply firstn_len_app.
Qed.

(** ** Lemmas: membership and forks *)

(** [x] is [t] or one of its ancestors. *)
Definition on_branch (a : arena) (t x : nat) : Prop :=
  height_of a x <= height_of a t /\ ancestorAt a t (height_of a x) = Some x.

Lemma nodeByHeight_view a c t h :
  arena_wf a -> view_ok a c (Some t) ->
  nodeByHeight c h =
    if (h <? 0) || (height_of a t <? h) then None else ancestorAt a t h.
Proof.
  intros Hw Hv. pose proof (view_ok_len a c t Hw Hv) as Hl. destruct Hv as [V1 V2 (Ht & Hh & Hn)].
  unfold nodeByHeight. rewrite nodes_length, Hl by assumption. unfold maxViewHeight in Hh.
  pose proof (aw_height a Hw t Ht). rewrite i32_id by (unfold is_i32; lia).
  destruct (Z.ltb_spec h 0), (Z.leb_spec (height_of a t + 1) h), (Z.ltb_spec (height_of a t) h);
    cbn [orb]; try reflexivity; try lia.
  apply nth_error_nth. rewrite Hn, view_nth, Z2Nat.id by lia. reflexivity.
Qed.

Lemma contains_spec a c t x :
  arena_wf a -> view_ok a c (Some t) -> (x < List.length a)%nat ->
  contains a c x = true <-> on_branch a t x.
Proof.
  intros Hw Hv Hx. unfold contains, on_branch. rewrite (nodeByHeight_view a c t) by assumption.
  rewrite opt_nat_eqb_eq. pose proof (aw_height a Hw x Hx).
  destruct (Z.ltb_spec (height_of a x) 0), (Z.ltb_spec (height_of a t) (height_of a x)); cbn [orb]; try lia.
  - split; [discriminate|]. lia.
  - split; [intros E; split; [lia | exact E] | tauto].
Qed.

Lemma on_branch_trans a t x y :
  arena_wf a -> (t < List.length a)%nat -> (x < List.length a)%nat -> (y < List.length a)%nat ->
  on_branch a t x -> on_branch a x y -> on_branch a t y.
Proof.
  intros Hw Ht Hx Hy [H1 H2] [H3 H4]. split; [lia|].
  pose proof (aw_height a Hw x Hx). pose proof (aw_height a Hw y Hy).
  rewrite (ancestorAt_trans a t (height_of a x) _ x) by (auto; lia). exact H4.
Qed.

(** Two nodes of a branch are comparable. *)
Lemma on_branch_below a t x y :
  arena_wf a -> (t < List.length a)%nat -> (x < List.length a)%nat -> (y < List.length a)%nat ->
  on_branch a t x -> on_branch a t y -> height_of a y <= height_of a x -> on_branch a x y.
Proof.
  intros Hw Ht Hx Hy [H1 H2] [H3 H4] Hle. split; [exact Hle|].
  pose proof (aw_height a Hw x Hx).
  rewrite <- (ancestorAt_trans a t (height_of a x) _ x) by (auto; lia). exact H4.
Qed.

Lemma on_branch_parent a x p y :
  arena_wf a -> (x < List.length a)%nat -> bn_parent (deref a x) = Some p ->
  on_branch a x y <-> y = x \/ on_branch a p y.
Proof.
  intros Hw Hx Hp. destruct (height_parent a x p Hw Hx Hp) as (_ & Hpl & Hh). unfold on_branch. split.
  - intros [H1 H2]. destruct (Z.eq_dec (height_of a y) (height_of a x)) as [E|Hne].
    + left. rewrite E, ancestorAt_self in H2. congruence.
    + right. split; [lia|]. rewrite <- (ancestorAt_parent a x p) by (auto; lia). exact H2.
  - intros [->|[H1 H2]]; [split; [lia | apply ancestorAt_self]|].
    split; [lia|]. rewrite (ancestorAt_parent a x p) by (auto; lia). exact H2.
Qed.

Lemma on_branch_root a x y :
  arena_wf a -> (x < List.length a)%nat -> (y < List.length a)%nat ->
  bn_parent (deref a x) = None -> on_branch a x y -> y = x.
Proof.
  intros Hw Hx Hy Hp [H1 H2]. pose proof (height_root a x Hw Hx Hp). pose proof (aw_height a Hw y Hy).
  replace (height_of a y) with (height_of a x) in H2 by lia. rewrite ancestorAt_self in H2. congruence.
Qed.

(** What a fork point is. *)
Definition is_fork (a : arena) (t x : nat) (f : option nat) : Prop :=
  match f with
  | Some f =>
      (f < List.length a)%nat /\ on_branch a x f /\ on_branch a t f /\
      forall g, (g < List.length a)%nat -> on_branch a x g -> on_branch a t g ->
        height_of a g <= height_of a f
  | None => forall g, (g < List.length a)%nat -> on_branch a x g -> ~ on_branch a t g
  end.

Lemma fork_loop_spec a c t fuel : forall x,
  arena_wf a -> view_ok a c (Some t) -> (x < List.length a)%nat ->
  height_of a x <= Z.of_nat fuel -> is_fork a t x (fork_loop fuel a c (Some x)).
Proof.
  induction fuel as [|fuel IH]; intros x Hw Hv Hx Hf; cbn [fork_loop];
    (destruct (contains a c x) eqn:Ec;
      [apply (contains_spec a c t x Hw Hv Hx) in Ec; cbn [is_fork];
       split; [exact Hx|]; split; [split; [lia | apply ancestorAt_self]|];
       split; [exact Ec|]; now intros g _ [? _] _|]);
    assert (Hnx : ~ on_branch a t x)
      by (rewrite <- (contains_spec a c t x Hw Hv Hx); congruence).
  - cbn [is_fork]. intros g Hg Hxg Htg. pose proof (aw_height a Hw x Hx).
    destruct (bn_parent (deref a x)) as [p|] eqn:Ep.
    + destruct (height_parent a x p Hw Hx Ep) as (_ & Hp & Hh). pose proof (aw_height a Hw p Hp). lia.
    + apply (on_branch_root a x g Hw Hx Hg Ep) in Hxg. congruence.
  - destruct (bn_parent (deref a x)) as [p|] eqn:Ep.
    + destruct (height_parent a x p Hw Hx Ep) as (_ & Hp & Hh).
      specialize (IH p Hw Hv Hp ltac:(lia)).
      destruct (fork_loop fuel a c (Some p)) as [f|]; cbn [is_fork] in *.
      * destruct IH as (I1 & I2 & I3 & I4). split; [exact I1|].
        split; [apply (on_branch_parent a x p f Hw Hx Ep); auto|]. split; [exact I3|].
        intros g Hg Hxg Htg. apply (on_branch_parent a x p g Hw Hx Ep) in Hxg.
        destruct Hxg as [->|Hxg]; [contradiction | auto].
      * intros g Hg Hxg. apply (on_branch_parent a x p g Hw Hx Ep) in Hxg.
        destruct Hxg as [->|Hxg]; [exact Hnx | auto].
    + assert (Hnil : fork_loop fuel a c None = None) by (destruct fuel; reflexivity).
      rewrite Hnil. intros g Hg Hxg. apply (on_branch_root a x g Hw Hx Hg Ep) in Hxg. now subst.
Qed.

Lemma findFork_spec a c t x :
  arena_wf a -> view_ok a c (Some t) -> (x < List.length a)%nat ->
  is_fork a t x (findFork a c (Some x)).
Proof.
  intros Hw Hv Hx. pose proof (view_ok_len a c t Hw Hv) as Hl. pose proof Hv as [V1 V2 (Ht & Hh & Hn)].
  unfold findFork, cv_height. rewrite nodes_length, Hl by assumption.
  pose proof (aw_height a Hw t Ht). pose proof (aw_height a Hw x Hx). unfold maxViewHeight in Hh.
  replace (height_of a t + 1 - 1) with (height_of a t) by lia. rewrite i32_id by (unfold is_i32; lia).
  destruct (Z.ltb_spec (height_of a t) (height_of a x)) as [Hlt|Hge].
  - rewrite Ancestor_eq, (proj2 (orb_false_iff _ _)) by (auto; rewrite !Z.ltb_ge; lia).
    destruct (ancestorAt_spec a x (height_of a t) Hw Hx ltac:(lia)) as (y & Ey & Hy & _ & Hyh).
    rewrite Ey. pose proof (fork_loop_spec a c t (Z.to_nat (height_of a x)) y Hw Hv Hy ltac:(lia)) as H1.
    assert (Hxy : on_branch a x y) by (split; [lia | now rewrite Hyh]).
    assert (Hdown : forall g, (g < List.length a)%nat -> on_branch a x g -> on_branch a t g -> on_branch a y g).
    { intros g Hg Hxg Htg. apply (on_branch_below a x y g); auto. destruct Htg. lia. }
    destruct (fork_loop _ a c (Some y)) as [f|]; cbn [is_fork] in *.
    + destruct H1 as (I1 & I2 & I3 & I4). split; [exact I1|].
      split; [now apply (on_branch_trans a x y f)|]. split; [exact I3|]. intros g Hg Hxg Htg. auto.
    + intros g Hg Hxg Htg. exact (H1 g Hg (Hdown g Hg Hxg Htg) Htg).
  - apply fork_loop_spec; auto. lia.
Qed.

(** ** Lemmas: locators

    The heights a locator visits: [n] entries are already in it. *)
Fixpoint locator_heights (fuel : nat) (h step n : Z) : list Z :=
  h :: (if h =? 0 then []
        else match fuel with
             | O => []
             | S fuel' =>
                 locator_heights fuel' (Z.max 0 (h - step)) (if 10 <? n + 1 then step * 2 else step) (n + 1)
             end).

Lemma nodes_at a c t h :
  arena_wf a -> view_ok a c (Some t) -> 0 <= h <= height_of a t ->
  nth (Z.to_nat h) (nodes c) None = ancestorAt a t h.
Proof.
  intros Hw [V1 V2 (Ht & Hh & Hn)] Hr. apply nth_error_nth. rewrite Hn, view_nth, Z2Nat.id by lia.
  reflexivity.
Qed.

(** Looking an ancestor up in the view or walking to it is the same. *)
Lemma ancestor_lookup a c t x h :
  arena_wf a -> view_ok a c (Some t) -> (x < List.length a)%nat -> 0 <= h <= height_of a x ->
  (if contains a c x then nth (Z.to_nat h) (nodes c) None else Ancestor a x h) = ancestorAt a x h.
Proof.
  intros Hw Hv Hx Hh. destruct (contains a c x) eqn:Ec.
  - apply (contains_spec a c t x Hw Hv Hx) in Ec. destruct Ec as [E1 E2]. pose proof Hv as [_ _ (Ht & _)].
    rewrite (nodes_at a c t) by (auto; lia). apply (ancestorAt_trans a t (height_of a x)); auto; lia.
  - rewrite Ancestor_eq by assumption. destruct (Z.ltb_spec h 0), (Z.ltb_spec (height_of a x) h); try lia.
    reflexivity.
Qed.

Lemma locator_heights_range fuel : forall h step n g,
  0 < step -> 0 <= h -> In g (locator_heights fuel h step n) -> 0 <= g <= h.
Proof.
  induction fuel as [|fuel IH]; intros h step n g Hs Hh; cbn [locator_heights];
    destruct (h =? 0); intros [<-|Hin]; try lia; try easy.
  apply IH in Hin; [lia | destruct (10 <? n + 1); lia | lia].
Qed.

(** Once the steps double: with [h + step - 1 = k], one entry for each power
    of two from [step] up to [k], and the genesis. *)
Lemma locator_heights_doubling fuel : forall h j n,
  0 < h <= Z.of_nat fuel -> 0 <= j -> 10 <= n ->
  len (locator_heights fuel h (2 ^ j) n) = Z.log2 (h + 2 ^ j - 1) - j + 2.
Proof.
  induction fuel as [|fuel IH]; intros h j n Hh Hj Hn; [lia|].
  cbn [locator_heights]. destruct (Z.eqb_spec h 0) as [|_]; [lia|].
  destruct (Z.ltb_spec 10 (n + 1)) as [_|]; [|lia].
  assert (Hp : 0 < 2 ^ j) by (apply Z.pow_pos_nonneg; lia).
  assert (E2 : 2 ^ j * 2 = 2 ^ (j + 1)) by (rewrite Z.pow_add_r by lia; lia).
  rewrite len_cons, E2. destruct (Z.le_gt_cases h (2 ^ j)) as [Hle|Hgt].
  - rewrite Z.max_l by lia.
    assert (El : Z.log2 (h + 2 ^ j - 1) = j) by (apply Z.log2_unique; [lia|]; rewrite <- Z.add_1_r, <- E2; lia).
    rewrite El. destruct fuel; cbn [locator_heights]; change (0 =? 0) with true; cbn [map];
      rewrite len_cons, len_nil; lia.
  - rewrite Z.max_r, IH by lia.
    replace (h - 2 ^ j + 2 ^ (j + 1) - 1) with (h + 2 ^ j - 1) by lia. lia.
Qed.

Lemma locator_heights_linear k : forall fuel h n,
  Z.of_nat k < h <= Z.of_nat fuel -> 0 <= n -> n + Z.of_nat k <= 10 ->
  len (locator_heights fuel h 1 n) =
    Z.of_nat k + len (locator_heights (fuel - k) (h - Z.of_nat k) 1 (n + Z.of_nat k)).
Proof.
  induction k as [|k IH]; intros fuel h n Hh Hn Hk.
  - rewrite Nat.sub_0_r, Z.sub_0_r, Z.add_0_r. reflexivity.
  - destruct fuel as [|fuel]; [lia|]. cbn [locator_heights].
    destruct (Z.eqb_spec h 0) as [|_]; [lia|]. destruct (Z.ltb_spec 10 (n + 1)) as [|_]; [lia|].
    rewrite len_cons, Z.max_r, IH by lia. replace (S fuel - S k)%nat with (fuel - k)%nat by lia.
    replace (h - 1 - Z.of_nat k) with (h - Z.of_nat (S k)) by lia.
    replace (n + 1 + Z.of_nat k) with (n + Z.of_nat (S k)) by lia. lia.
Qed.

Lemma maxEntries_eq h :
  0 <= h <= 2 ^ 31 - 2 -> maxEntries h = if h <=? 12 then h + 1 else 12 + Z.log2 (h - 10).
Proof.
  intros Hh. unfold maxEntries. destruct (Z.leb_spec h 12).
  - rewrite (u8_id h), u8_id by (unfold is_byte; lia). reflexivity.
  - rewrite (u32_id h), u32_id by (unfold is_u32; lia).
    rewrite fastLog2Floor_log2 by (unfold is_u32; lia).
    pose proof (Z.log2_nonneg (h - 10)).
    assert (Z.log2 (h - 10) < 32) by (apply Z.log2_lt_pow2; lia).
    apply u8_id. unfold is_byte. lia.
Qed.

Lemma locator_heights_length h :
  0 <= h <= 2 ^ 31 - 2 -> len (locator_heights (Z.to_nat h) h 1 0) = maxEntries h.
Proof.
  intros Hh. rewrite maxEntries_eq by assumption. destruct (Z.leb_spec h 12).
  - assert (Hc : In h (map Z.of_nat (seq 0 13))).
    { apply in_map_iff. exists (Z.to_nat h). split; [lia|]. apply in_seq. lia. }
    cbn in Hc. repeat destruct Hc as [<-|Hc]; try reflexivity. contradiction.
  - rewrite (locator_heights_linear 10) by lia. change (Z.of_nat 10) with 10. change 1 with (2 ^ 0) at 1.
    rewrite locator_heights_doubling by lia. change (2 ^ 0) with 1.
    replace (h - 10 + 1 - 1) with (h - 10) by lia. lia.
Qed.

Lemma locator_heights_last fuel : forall h step n,
  0 < step -> 0 <= h <= Z.of_nat fuel -> last (locator_heights fuel h step n) (-1) = 0.
Proof.
  induction fuel as [|fuel IH]; intros h step n Hs Hh; cbn [locator_heights].
  - replace h with 0 by lia. reflexivity.
  - destruct (Z.eqb_spec h 0) as [->|Hne]; [reflexivity|].
    specialize (IH (Z.max 0 (h - step)) (if 10 <? n + 1 then step * 2 else step) (n + 1)).
    destruct (locator_heights fuel (Z.max 0 (h - step)) _ _) as [|g l] eqn:E;
      [destruct fuel; discriminate E|].
    apply IH; [destruct (10 <? n + 1); lia | lia].
Qed.

Lemma locator_loop_spec a c t fuel : forall x istep step loc,
  arena_wf a -> view_ok a c (Some t) -> (x < List.length a)%nat ->
  height_of a x <= Z.of_nat fuel ->
  (0 < height_of a x -> istep = step /\ 0 < step /\ height_of a x + step <= 2 ^ 31) ->
  exists l, locator_loop fuel a c (Some x) istep loc = loc ++ l /\
    map Some l = map (ancestorAt a x) (locator_heights fuel (height_of a x) step (len loc)).
Proof.
  induction fuel as [|fuel IH]; intros x istep step loc Hw Hv Hx Hf Hs; pose proof (aw_height a Hw x Hx);
    cbn [locator_loop locator_heights].
  - destruct (Z.eqb_spec (height_of a x) 0) as [E0|]; [|lia].
    exists [x]. cbn [map]. now rewrite ancestorAt_self.
  - destruct (Z.eqb_spec (height_of a x) 0) as [E0|Hne].
    + exists [x]. cbn [map]. now rewrite ancestorAt_self.
    + destruct (Hs ltac:(lia)) as (-> & Hs1 & Hs2).
      rewrite i32_id by (unfold is_i32; lia).
      assert (Em : (if height_of a x - step <? 0 then 0 else height_of a x - step)
                   = Z.max 0 (height_of a x - step)) by (destruct (Z.ltb_spec (height_of a x - step) 0); lia).
      rewrite Em, (ancestor_lookup a c t) by (auto; lia).
      destruct (ancestorAt_spec a x (Z.max 0 (height_of a x - step)) Hw Hx ltac:(lia)) as (y & Ey & Hy & _ & Hyh).
      rewrite Ey, len_app, len_cons, len_nil.
      replace (len loc + (1 + 0)) with (len loc + 1) by lia.
      destruct (IH y (if 10 <? len loc + 1 then i32 (step * 2) else step)
                  (if 10 <? len loc + 1 then step * 2 else step) (loc ++ [x]) Hw Hv Hy ltac:(lia))
        as (l & E1 & E2).
      { intros Hpos. destruct (10 <? len loc + 1); [|lia].
        rewrite i32_id by (unfold is_i32; lia). lia. }
      exists (x :: l). rewrite E1, <- app_assoc. split; [reflexivity|]. cbn [map].
      rewrite ancestorAt_self, E2, len_app, len_cons, len_nil, Hyh.
      replace (len loc + (1 + 0)) with (len loc + 1) by lia. f_equal.
      apply map_ext_in. intros h Hin. symmetry.
      apply (ancestorAt_trans a x (Z.max 0 (height_of a x - step))); auto; try lia.
      refine (proj2 (locator_heights_range _ _ _ _ _ _ _ Hin)); [destruct (10 <? len loc + 1)|]; lia.
Qed.

(** ** Reachable views

    What a view goes through: nodes are added to the tree, and the tip is set
    to nodes of the tree or cleared. *)
Inductive reached (DH : list Z -> list Z) : arena -> chainView -> option nat -> Prop :=
| reached_start : reached DH [] emptyView None
| reached_node a c t hdr parent :
    reached DH a c t -> parent_ok a parent -> reached DH (fst (newBlockNode DH a hdr parent)) c t
| reached_tip a c t id c' :
    reached DH a c t -> (id < List.length a)%nat -> height_of a id <= maxViewHeight ->
    setTip a c (Some id) = Ok c' -> reached DH a c' (Some id)
| reached_cleared a c t c' :
    reached DH a c t -> setTip a c None = Ok c' -> reached DH a c' None.

Lemma view_of_app a b id :
  arena_wf a -> (id < List.length a)%nat -> view_of (a ++ b) id = view_of a id.
Proof.
  intros Hw Hid. unfold view_of. rewrite height_app by assumption. apply map_ext. intros h.
  unfold ancestorAt. now rewrite height_app, walk_app by assumption.
Qed.

Lemma reached_ok DH a c t : reached DH a c t -> built DH a /\ view_ok a c t.
Proof.
  induction 1 as [|a c t hdr parent Hr [IHb IHv] Hp|a c t id c' Hr [IHb IHv] Hid Hh E|a c t c' Hr [IHb IHv] E].
  - split; [constructor|]. split; unfold emptyView; cbn [cv_len cv_backing]; change (len []) with 0; try reflexivity; lia.
  - split; [now constructor|]. destruct IHv as [V1 V2 V3]. split; auto.
    destruct t as [t|]; [|exact V3]. destruct V3 as (Ht & Hh & Hn). pose proof (built_wf _ _ IHb) as Hw.
    unfold newBlockNode. cbn [fst]. rewrite height_app, view_of_app, length_app by assumption.
    split; [lia | auto].
  - split; [exact IHb|].
    destruct (setTip_ok a c t id (built_wf _ _ IHb) IHv Hid Hh) as (c2 & E2 & Hv). congruence.
  - split; [exact IHb|]. injection E as <-. destruct IHv as [V1 V2 V3].
    split; cbn [cv_len cv_backing]; try reflexivity; lia.
Qed.

Lemma tip_spec a c t : arena_wf a -> view_ok a c (Some t) -> tip c = Some t.
Proof.
  intros Hw Hv. pose proof (view_ok_len a c t Hw Hv) as Hl. pose proof Hv as [V1 V2 (Ht & Hh & Hn)].
  pose proof (aw_height a Hw t Ht). pose proof (nodes_length c V1) as Hc. unfold tip.
  destruct (nodes c) as [|x l] eqn:E; [rewrite len_nil in Hc; lia|].
  transitivity (nth (Z.to_nat (height_of a t)) (nodes c) None).
  - rewrite E, last_nth. f_equal. unfold len in Hc. lia.
  - rewrite (nodes_at a c t), ancestorAt_self by (auto; lia). reflexivity.
Qed.

Lemma nodeByHeight_spec a c t h :
  arena_wf a -> view_ok a c (Some t) -> nodeByHeight c h = Ancestor a t h.
Proof.
  intros Hw Hv. rewrite (nodeByHeight_view a c t h Hw Hv). destruct Hv as [_ _ (Ht & _)].
  now rewrite Ancestor_eq by assumption.
Qed.

(** ** Properties *)

(** C25: for every view reached by adding nodes and moving the tip, setTip to a node
    of the tree succeeds, and the resulting view holds at every height the ancestor
    of that node, whatever branch the view was on. *)
Theorem setTip_correct DH a c t id :
  reached DH a c t -> (id < List.length a)%nat -> height_of a id <= maxViewHeight ->
  exists c', setTip a c (Some id) = Ok c' /\ tip c' = Some id /\ cv_height c' = height_of a id /\
    genesis c' = Ancestor a id 0 /\ forall h, nodeByHeight c' h = Ancestor a id h.
Proof.
  intros Hr Hid Hh. destruct (reached_ok DH a c t Hr) as [Hb Hv]. apply built_wf in Hb as Hw.
  destruct (setTip_ok a c t id Hw Hv Hid Hh) as (c' & E & Hv'). exists c'.
  pose proof (view_ok_len a c' id Hw Hv') as Hl. pose proof Hv' as [V1 _ _].
  pose proof (aw_height a Hw id Hid). unfold maxViewHeight in Hh.
  split; [exact E|]. split; [now apply (tip_spec a)|].
  split; [unfold cv_height; rewrite nodes_length, Hl, Z.add_simpl_r by assumption; apply i32_id; unfold is_i32; lia|].
  split; [|intros h; now apply nodeByHeight_spec].
  rewrite <- (nodeByHeight_spec a c' id 0 Hw Hv'), (nodeByHeight_view a c' id 0 Hw Hv').
  rewrite !(proj2 (Z.ltb_ge _ _)) by lia. cbn [orb].
  rewrite <- (nodes_at a c' id 0) by (auto; lia). unfold genesis. now destruct (nodes c').
Qed.

(** A view contains a node exactly if the node is the ancestor of the tip at
    its height, and next returns the child of the node on the way to the tip, or
    nil. *)
Theorem contains_next_correct DH a c t x :
  reached DH a c (Some t) -> (x < List.length a)%nat ->
  (contains a c x = true <-> Ancestor a t (height_of a x) = Some x) /\
  (forall y, next a c (Some x) = Some y <->
     Ancestor a t (height_of a y) = Some y /\ (y < List.length a)%nat /\ bn_parent (deref a y) = Some x).
Proof.
  intros Hr Hx. destruct (reached_ok DH a c _ Hr) as [Hb Hv]. apply built_wf in Hb as Hw.
  pose proof Hv as [_ _ (Ht & Hh & _)]. pose proof (aw_height a Hw x Hx).
  assert (Hc : contains a c x = true <-> Ancestor a t (height_of a x) = Some x).
  { unfold contains. rewrite (nodeByHeight_spec a c t) by assumption. apply opt_nat_eqb_eq. }
  split; [exact Hc|]. intros y. cbn [next]. destruct (contains a c x) eqn:Ec.
  - destruct (proj1 (contains_spec a c t x Hw Hv Hx) Ec) as [H1 H2]. unfold maxViewHeight in Hh.
    rewrite (nodeByHeight_spec a c t), i32_id by (auto; unfold is_i32; lia). split.
    + intros E. rewrite Ancestor_eq in E by assumption.
      destruct (Z.ltb_spec (height_of a x + 1) 0), (Z.ltb_spec (height_of a t) (height_of a x + 1));
        try discriminate. cbn [orb] in E.
      destruct (ancestorAt_spec a t (height_of a x + 1) Hw Ht ltac:(lia)) as (y' & E' & Hy & _ & Hyh).
      assert (y' = y) by congruence. subst y'. rewrite Hyh, Ancestor_eq by assumption.
      rewrite !(proj2 (Z.ltb_ge _ _)) by lia. cbn [orb]. split; [exact E|]. split; [exact Hy|].
      pose proof (ancestorAt_trans a t (height_of a x + 1) (height_of a x) y Hw Ht ltac:(lia) ltac:(lia) E) as Hp.
      rewrite H2 in Hp. destruct (bn_parent (deref a y)) as [p|] eqn:Ep.
      * destruct (height_parent a y p Hw Hy Ep) as (_ & _ & Hph).
        rewrite (ancestorAt_parent a y p) in Hp by (auto; lia).
        replace (height_of a x) with (height_of a p) in Hp by lia. rewrite ancestorAt_self in Hp. congruence.
      * pose proof (height_root a y Hw Hy Ep). lia.
    + intros (E & Hy & Hp). destruct (height_parent a y x Hw Hy Hp) as (_ & _ & Hyh). now rewrite <- Hyh.
  - split; [discriminate|]. intros (E & Hy & Hp). exfalso.
    destruct (height_parent a y x Hw Hy Hp) as (_ & _ & Hyh).
    assert (Hxt : on_branch a t x); [|apply (contains_spec a c t x Hw Hv Hx) in Hxt; congruence].
    rewrite Ancestor_eq in E by assumption.
    destruct (Z.ltb_spec (height_of a y) 0), (Z.ltb_spec (height_of a t) (height_of a y)); try discriminate.
    split; [lia|]. cbn [orb] in E.
    rewrite (ancestorAt_trans a t (height_of a y) (height_of a x) y) by (auto; lia).
    rewrite (ancestorAt_parent a y x), ancestorAt_self by (auto; lia). reflexivity.
Qed.

(** FindFork returns a node that is on the branch of the view and on the branch
    of the given node, and none of their common nodes is higher; it returns nil only
    when there is no common node. *)
Theorem findFork_correct DH a c t x :
  reached DH a c (Some t) -> (x < List.length a)%nat -> is_fork a t x (findFork a c (Some x)).
Proof.
  intros Hr Hx. destruct (reached_ok DH a c _ Hr) as [Hb Hv].
  apply findFork_spec; auto. now apply (built_wf DH).
Qed.

(** A block locator holds the ancestors of the node at the heights that go down
    by one eleven times and then by doubling steps, starts at the node, ends at the
    genesis block, and has exactly the number of entries that was reserved for it. *)
Theorem blockLocator_correct DH a c t x :
  reached DH a c (Some t) -> (x < List.length a)%nat -> height_of a x <= maxViewHeight ->
  let heights := locator_heights (Z.to_nat (height_of a x)) (height_of a x) 1 0 in
  map Some (blockLocator a c (Some x)) = map (Ancestor a x) heights /\
  len (blockLocator a c (Some x)) = maxEntries (height_of a x) /\
  hd (-1) heights = height_of a x /\ last heights (-1) = 0 /\
  blockLocator a c None = blockLocator a c (Some t).
Proof.
  intros Hr Hx Hh heights. destruct (reached_ok DH a c _ Hr) as [Hb Hv]. apply built_wf in Hb as Hw.
  pose proof (aw_height a Hw x Hx). unfold maxViewHeight in Hh.
  destruct (locator_loop_spec a c t (Z.to_nat (height_of a x)) x 1 1 [] Hw Hv Hx ltac:(lia) ltac:(lia))
    as (l & E1 & E2). change (len []) with 0 in E2. fold heights in E2.
  assert (Hloc : blockLocator a c (Some x) = l) by exact E1.
  rewrite Hloc. split; [|split; [|split; [|split]]].
  - rewrite E2. apply map_ext_in. intros h Hin. rewrite Ancestor_eq by assumption.
    apply (locator_heights_range _ _ 1 0) in Hin; try lia.
    rewrite !(proj2 (Z.ltb_ge _ _)) by lia. reflexivity.
  - rewrite <- locator_heights_length by lia. fold heights. apply (f_equal len) in E2.
    unfold len in *. now rewrite !length_map in E2.
  - subst heights. now destruct (Z.to_nat (height_of a x)).
  - apply locator_heights_last; lia.
  - unfold blockLocator. now rewrite (tip_spec a c t Hw Hv).
Qed.

(** ** Witnesses *)

Definition sample_view : chainView :=
  match setTip sample_arena emptyView (Some 3%nat) with Ok c => c | _ => emptyView end.

Lemma sample_reached_empty : reached sampleHash sample_arena emptyView None.
Proof.
  repeat (apply reached_node; [|exact I || (split; [vm_compute; lia | vm_compute; reflexivity])]).
  apply reached_start.
Qed.

Lemma sample_reached : reached sampleHash sample_arena sample_view (Some 3%nat).
Proof.
  apply (reached_tip _ _ emptyView None);
    [apply sample_reached_empty | vm_compute; lia | vm_compute; discriminate | vm_compute; reflexivity].
Qed.

Lemma setTip_correct_witness :
  exists c', setTip sample_arena sample_view (Some 4%nat) = Ok c' /\ tip c' = Some 4%nat.
Proof.
  destruct (setTip_correct sampleHash sample_arena sample_view (Some 3%nat) 4 sample_reached)
    as (c' & E & H & _); [vm_compute; lia | vm_compute; discriminate |].
  exists c'. split; [exact E | exact H].
Defined.

Lemma contains_next_correct_witness :
  contains sample_arena sample_view 1 = true /\ next sample_arena sample_view (Some 1%nat) = Some 2%nat.
Proof.
  destruct (contains_next_correct sampleHash sample_arena sample_view 3 1 sample_reached)
    as [H1 H2]; [vm_compute; lia|].
  split; [apply H1; vm_compute; reflexivity|]. apply H2.
  split; [vm_compute; reflexivity|]. split; [vm_compute; lia | reflexivity].
Defined.

Lemma findFork_correct_witness :
  findFork sample_arena sample_view (Some 4%nat) = Some 1%nat /\ is_fork sample_arena 3 4 (Some 1%nat).
Proof.
  assert (E : findFork sample_arena sample_view (Some 4%nat) = Some 1%nat) by (vm_compute; reflexivity).
  split; [exact E|]. rewrite <- E.
  apply (findFork_correct sampleHash sample_arena sample_view 3 4 sample_reached). vm_compute. lia.
Defined.

Lemma blockLocator_correct_witness :
  map Some (blockLocator sample_arena sample_view (Some 4%nat)) = [Some 4%nat; Some 1%nat; Some 0%nat].
Proof.
  destruct (blockLocator_correct sampleHash sample_arena sample_view 3 4 sample_reached)
    as [H _]; [vm_compute; lia | vm_compute; discriminate |].
  rewrite H. vm_compute. reflexivity.
Defined.
