(* ===== verification/Retarget.v ===== *)
(** * Difficulty retargets (blockchain/difficulty.go, chaincfg/params.go)

    The difficulty the block after a node has to meet, for the parameters of
    the networks.  A [*big.Int] is a [Z], a [time.Duration] its nanoseconds, a
    [time.Time] its Unix seconds. *)

From Stdlib Require Import String ZArith List Lia Bool.
From S2P Require Import Prelude GoSlice GoIO WireCommon WireMsgs Difficulty BlockIndex.
Import ListNotations.
Local Open Scope list_scope.
Local Open Scope Z_scope.
Local Open Scope go_scope.

(** ** Parameters *)

Definition Second : Z := 10 ^ 9.
Definition Minute : Z := 60 * Second.
Definition Hour : Z := 60 * Minute.

(** The fields of chaincfg.Params the retarget rules use. *)
Record Params : Type := mkParams {
  PowLimit : Z;
  PowLimitBits : Z;
  TargetTimespan : Z;
  TargetTimePerBlock : Z;
  RetargetAdjustmentFactor : Z;
  ReduceMinDifficulty : bool;
  MinDiffReductionTime : Z
}.

Definition mainPowLimit : Z := Z.shiftl 1 224 - 1.
Definition regressionPowLimit : Z := Z.shiftl 1 255 - 1.
Definition testNet3PowLimit : Z := Z.shiftl 1 224 - 1.
Definition simNetPowLimit : Z := Z.shiftl 1 255 - 1.
Definition sigNetPowLimit : Z := Z.shiftl 0x0377ae 216.

Definition MainNetParams : Params :=
  mkParams mainPowLimit 0x1d00ffff (Hour * 24 * 14) (Minute * 10) 4 false 0.
Definition RegressionNetParams : Params :=
  mkParams regressionPowLimit 0x207fffff (Hour * 24 * 14) (Minute * 10) 4 true (Minute * 20).
Definition TestNet3Params : Params :=
  mkParams testNet3PowLimit 0x1d00ffff (Hour * 24 * 14) (Minute * 10) 4 true (Minute * 20).
Definition SimNetParams : Params :=
  mkParams simNetPowLimit 0x207fffff (Hour * 24 * 14) (Minute * 10) 4 true (Minute * 20).
Definition SigNetParams : Params :=
  mkParams sigNetPowLimit 0x1e0377ae (Hour * 24 * 14) (Minute * 10) 4 false (Minute * 20).

(** The fields New derives from them. *)
Record BlockChain : Type := mkBlockChain {
  chainParams : Params;
  minRetargetTimespan : Z;
  maxRetargetTimespan : Z;
  blocksPerRetarget : Z
}.

Definition seconds (d : Z) : Z := Z.quot d Second.

Definition newRetarget (params : Params) : outcome string BlockChain :=
  let targetTimespan := seconds (TargetTimespan params) in
  let targetTimePerBlock := seconds (TargetTimePerBlock params) in
  let adjustmentFactor := RetargetAdjustmentFactor params in
  if (adjustmentFactor =? 0) || (targetTimePerBlock =? 0) then Panic
  else Ok (mkBlockChain params (i64 (Z.quot targetTimespan adjustmentFactor))
             (i64 (targetTimespan * adjustmentFactor)) (i32 (i64 (Z.quot targetTimespan targetTimePerBlock)))).

(** ** The easiest difficulty *)

Fixpoint easiest_loop (fuel : nat) (b : BlockChain) (newTarget durationVal : Z) : Z :=
  match fuel with
  | O => newTarget
  | S fuel' =>
      if (0 <? durationVal) && (newTarget <? PowLimit (chainParams b))
      then easiest_loop fuel' b (newTarget * RetargetAdjustmentFactor (chainParams b))
             (i64 (durationVal - maxRetargetTimespan b))
      else newTarget
  end.

(** The number of rounds that bring the duration to zero. *)
Definition retargets (b : BlockChain) (durationVal : Z) : Z :=
  if durationVal <=? 0 then 0 else (durationVal - 1) / maxRetargetTimespan b + 1.

Definition calcEasiestDifficulty (b : BlockChain) (bits duration : Z) : Z :=
  let durationVal := seconds duration in
  let params := chainParams b in
  if ReduceMinDifficulty params && (seconds (MinDiffReductionTime params) <? durationVal)
  then PowLimitBits params
  else
    let newTarget := easiest_loop (Z.to_nat (retargets b durationVal)) b (CompactToBig bits) durationVal in
    let newTarget := if PowLimit params <? newTarget then PowLimit params else newTarget in
    BigToCompact newTarget.

(** ** The next difficulty *)

(** The walk of findPrevTestNetDifficulty. *)
Fixpoint testnet_loop (fuel : nat) (b : BlockChain) (a : arena) (iterNode : option nat) : option nat :=
  match iterNode with
  | None => None
  | Some id =>
      if negb (Z.rem (height_of a id) (blocksPerRetarget b) =? 0) &&
         (bn_bits (deref a id) =? PowLimitBits (chainParams b))
      then match fuel with
           | O => None
           | S fuel' => testnet_loop fuel' b a (bn_parent (deref a id))
           end
      else iterNode
  end.

Definition findPrevTestNetDifficulty (b : BlockChain) (a : arena) (startNode : nat) : Z :=
  match testnet_loop (Z.to_nat (height_of a startNode)) b a (Some startNode) with
  | Some id => bn_bits (deref a id)
  | None => PowLimitBits (chainParams b)
  end.

(** Div of math/big: Euclidean division. *)
Definition big_div (x y : Z) : Z := if 0 <? y then x / y else - (x / - y).

Definition adjustTimespan (b : BlockChain) (actualTimespan : Z) : Z :=
  if actualTimespan <? minRetargetTimespan b then minRetargetTimespan b
  else if maxRetargetTimespan b <? actualTimespan then maxRetargetTimespan b
  else actualTimespan.

(** The new bits at a retarget, from the old ones and the time the blocks took. *)
Definition retargetBits (b : BlockChain) (bits actualTimespan : Z) : outcome string Z :=
  let adjustedTimespan := adjustTimespan b actualTimespan in
  let oldTarget := CompactToBig bits in
  let newTarget := oldTarget * adjustedTimespan in
  let targetTimeSpan := seconds (TargetTimespan (chainParams b)) in
  if targetTimeSpan =? 0 then Panic
  else
    let newTarget := big_div newTarget targetTimeSpan in
    let newTarget := if PowLimit (chainParams b) <? newTarget then PowLimit (chainParams b) else newTarget in
    Ok (BigToCompact newTarget).

Definition calcNextRequiredDifficulty (b : BlockChain) (a : arena) (lastNode : option nat) (newBlockTime : Z)
    : outcome string Z :=
  let params := chainParams b in
  match lastNode with
  | None => Ok (PowLimitBits params)
  | Some id =>
      let last := deref a id in
      if blocksPerRetarget b =? 0 then Panic
      else if negb (Z.rem (i32 (bn_height last + 1)) (blocksPerRetarget b) =? 0) then
        if ReduceMinDifficulty params then
          let allowMinTime := i64 (bn_timestamp last + seconds (MinDiffReductionTime params)) in
          if allowMinTime <? newBlockTime then Ok (PowLimitBits params)
          else Ok (findPrevTestNetDifficulty b a id)
        else Ok (bn_bits last)
      else
        match RelativeAncestor a id (i32 (blocksPerRetarget b - 1)) with
        | None => Err "unable to obtain previous retarget block"%string
        | Some first => retargetBits b (bn_bits last) (i64 (bn_timestamp last - bn_timestamp (deref a first)))
        end
  end.

(** ** What the networks' parameters satisfy *)

Class RetargetParams (b : BlockChain) : Prop := {
  rp_limit : 0 < PowLimit (chainParams b) < 2 ^ 256;
  rp_bits : PowLimitBits (chainParams b) = BigToCompact (PowLimit (chainParams b));
  rp_factor : 1 <= RetargetAdjustmentFactor (chainParams b);
  rp_span : 0 < seconds (TargetTimespan (chainParams b));
  rp_min : minRetargetTimespan b = seconds (TargetTimespan (chainParams b)) / RetargetAdjustmentFactor (chainParams b);
  rp_max : maxRetargetTimespan b = seconds (TargetTimespan (chainParams b)) * RetargetAdjustmentFactor (chainParams b);
  rp_range : maxRetargetTimespan b < 2 ^ 62;
  rp_blocks : 0 < blocksPerRetarget b < 2 ^ 31
}.

Definition chainFor (p : Params) : BlockChain :=
  match newRetarget p with Ok b => b | _ => mkBlockChain p 0 0 0 end.

#[export] Instance main_params : RetargetParams (chainFor MainNetParams).
Proof. split; vm_compute; repeat split; congruence. Qed.
#[export] Instance regression_params : RetargetParams (chainFor RegressionNetParams).
Proof. split; vm_compute; repeat split; congruence. Qed.
#[export] Instance testnet3_params : RetargetParams (chainFor TestNet3Params).
Proof. split; vm_compute; repeat split; congruence. Qed.
#[export] Instance simnet_params : RetargetParams (chainFor SimNetParams).
Proof. split; vm_compute; repeat split; congruence. Qed.
#[export] Instance signet_params : RetargetParams (chainFor SigNetParams).
Proof. split; vm_compute; repeat split; congruence. Qed.

(** ** Lemmas *)

Section Retarget.
Context (b : BlockChain) {rp : RetargetParams b}.

Abbreviation limit := (PowLimit (chainParams b)).
Abbreviation factor := (RetargetAdjustmentFactor (chainParams b)).
Abbreviation span := (seconds (TargetTimespan (chainParams b))).

Lemma byteLen_256 n : 0 < n < 2 ^ 256 -> byteLen n < 255.
Proof.
  intros Hn. destruct (byteLen_spec n ltac:(lia)) as (H1 & H2 & _).
  assert (8 * (byteLen n - 1) < 256); [|lia]. apply (Z.pow_lt_mono_r_iff 2); lia.
Qed.

(** Rounding to the compact form does not leave the range of the targets. *)
Lemma compact_range n : 0 <= n <= limit -> 0 <= CompactToBig (BigToCompact n) <= n.
Proof.
  intros Hn. destruct (Z.eq_dec n 0) as [->|Hne]; [vm_compute; split; congruence|].
  pose proof rp_limit. rewrite compact_floor_eq by (try apply byteLen_256; lia).
  set (unit := 2 ^ _). assert (0 < unit) by (apply Z.pow_pos_nonneg; lia).
  pose proof (Z.mod_pos_bound n unit ltac:(lia)). pose proof (Z.mod_le n unit ltac:(lia) ltac:(lia)). lia.
Qed.

Lemma limit_bits : 0 <= CompactToBig (PowLimitBits (chainParams b)) <= limit.
Proof. rewrite rp_bits. pose proof rp_limit. apply compact_range. lia. Qed.

Lemma adjustTimespan_bounds actual :
  minRetargetTimespan b <= adjustTimespan b actual <= maxRetargetTimespan b.
Proof.
  pose proof rp_min. pose proof rp_max. pose proof rp_factor. pose proof rp_span.
  assert (span / factor <= span * factor).
  { transitivity (1 * span); [apply Z.div_le_upper_bound; nia | nia]. }
  unfold adjustTimespan. destruct (Z.ltb_spec actual (minRetargetTimespan b)); [lia|].
  destruct (Z.ltb_spec (maxRetargetTimespan b) actual); lia.
Qed.

(** The new target: the old one scaled by the time, at most the limit. *)
Definition scaledTarget (old timespan : Z) : Z := Z.min limit (old * timespan / span).

Lemma retargetBits_eq bits actual :
  retargetBits b bits actual = Ok (BigToCompact (scaledTarget (CompactToBig bits) (adjustTimespan b actual))).
Proof.
  pose proof rp_span. unfold retargetBits, big_div, scaledTarget. decide_cmp. repeat f_equal.
  match goal with |- (if ?x <? ?y then _ else _) = _ => destruct (Z.ltb_spec x y) end; lia.
Qed.

Lemma scaledTarget_range old actual :
  0 <= old -> 0 <= scaledTarget old (adjustTimespan b actual) <= Z.min limit (old * factor).
Proof.
  intros Ho. pose proof (adjustTimespan_bounds actual) as Ha. pose proof rp_limit. pose proof rp_span.
  rewrite rp_min, rp_max in Ha. pose proof rp_factor.
  assert (0 <= span / factor) by (apply Z.div_pos; lia). unfold scaledTarget.
  assert (0 <= old * adjustTimespan b actual / span) by (apply Z.div_pos; nia).
  assert (old * adjustTimespan b actual / span <= old * factor) by (apply Z.div_le_upper_bound; nia).
  lia.
Qed.

(** The walk for the testnet rule ends at the first node that stops it. *)
Definition stops (a : arena) (id : nat) : Prop :=
  height_of a id mod blocksPerRetarget b = 0 \/ bn_bits (deref a id) <> PowLimitBits (chainParams b).

Lemma testnet_loop_spec a fuel : forall id,
  arena_wf a -> (id < List.length a)%nat -> height_of a id <= Z.of_nat fuel ->
  exists k x, testnet_loop fuel b a (Some id) = Some x /\ walk a id k = Some x /\
    (x < List.length a)%nat /\ stops a x /\
    forall j y, (j < k)%nat -> walk a id j = Some y -> ~ stops a y.
Proof.
  pose proof rp_blocks. induction fuel as [|fuel IH]; intros id Hw Hid Hf; pose proof (aw_height a Hw id Hid);
    cbn [testnet_loop];
    rewrite Z.rem_mod_nonneg by lia;
    (destruct (Z.eqb_spec (height_of a id mod blocksPerRetarget b) 0) as [E|E];
      [exists O, id; repeat split; auto; [now left | lia]|]);
    (destruct (Z.eqb_spec (bn_bits (deref a id)) (PowLimitBits (chainParams b))) as [Eb|Eb];
      [|exists O, id; repeat split; auto; [now right | lia]]); cbn [negb andb].
  - exfalso. apply E. replace (height_of a id) with 0 by lia. apply Z.mod_0_l. lia.
  - destruct (bn_parent (deref a id)) as [p|] eqn:Ep.
    + destruct (height_parent a id p Hw Hid Ep) as (_ & Hp & Hh).
      destruct (IH p Hw Hp ltac:(lia)) as (k & x & E1 & E2 & Hx & Hs & Hm).
      exists (S k), x. cbn [walk]. rewrite Ep. split; [exact E1|]. split; [exact E2|].
      split; [exact Hx|]. split; [exact Hs|]. intros [|j] y Hj; cbn [walk].
      * intros Hy. injection Hy as <-. unfold stops. tauto.
      * rewrite Ep. intros Hy. apply (Hm j); auto. lia.
    + exfalso. apply E. rewrite (height_root a id Hw Hid Ep). apply Z.mod_0_l. lia.
Qed.

Lemma easiest_loop_spec k : forall t d,
  d < 2 ^ 63 -> Z.of_nat k = retargets b d ->
  Z.min limit (easiest_loop k b t d) = Z.min limit (t * factor ^ Z.of_nat k).
Proof.
  pose proof rp_limit. pose proof rp_factor. pose proof rp_max. pose proof rp_span. pose proof rp_range.
  assert (0 < maxRetargetTimespan b) by nia.
  induction k as [|k IH]; intros t d Hd Hk; cbn [easiest_loop].
  - change (factor ^ Z.of_nat 0) with 1. now rewrite Z.mul_1_r.
  - assert (Hpos : 0 < d) by (unfold retargets in Hk; destruct (Z.leb_spec d 0); lia).
    rewrite (proj2 (Z.ltb_lt 0 d)) by lia. cbn [andb].
    assert (Hpow : 1 <= factor ^ Z.of_nat k) by (apply Z.lt_pred_le, Z.pow_pos_nonneg; lia).
    rewrite Nat2Z.inj_succ, Z.pow_succ_r by lia. destruct (Z.ltb_spec t limit) as [Ht|Ht].
    + rewrite i64_id by (unfold is_i64; lia). rewrite IH; [f_equal; lia | lia |].
      unfold retargets in *. rewrite (proj2 (Z.leb_gt _ _)) in Hk by lia.
      destruct (Z.leb_spec (d - maxRetargetTimespan b) 0).
      * rewrite Z.div_small in Hk by lia. lia.
      * replace (d - 1) with (d - maxRetargetTimespan b - 1 + 1 * maxRetargetTimespan b) in Hk by lia.
        rewrite Z.div_add in Hk by lia. lia.
    + assert (t * 1 <= t * (factor * factor ^ Z.of_nat k)) by (apply Z.mul_le_mono_nonneg_l; nia). lia.
Qed.
End Retarget.

(** Trees whose blocks carry the difficulty the rules ask for. *)
Inductive mined (DH : list Z -> list Z) (b : BlockChain) : arena -> Prop :=
| mined_nil : mined DH b []
| mined_new a hdr parent :
    mined DH b a -> parent_ok a parent ->
    calcNextRequiredDifficulty b a parent (bh_Timestamp hdr) = Ok (bh_Bits hdr) ->
    mined DH b (fst (newBlockNode DH a hdr parent)).

Lemma mined_built DH b a : mined DH b a -> built DH a.
Proof. induction 1; now constructor. Qed.

(** The first block of the period exists at every retarget. *)
Lemma first_of_period b a id :
  RetargetParams b -> arena_wf a -> (id < List.length a)%nat ->
  (height_of a id + 1) mod blocksPerRetarget b = 0 ->
  exists first, RelativeAncestor a id (i32 (blocksPerRetarget b - 1)) = Some first /\
    ancestorAt a id (height_of a id - (blocksPerRetarget b - 1)) = Some first.
Proof.
  intros rp Hw Hid Hm. pose proof (aw_height a Hw id Hid) as Hh. unfold maxHeight in Hh.
  pose proof (rp_blocks (b := b)) as Hb. apply Z.div_exact in Hm; [|lia].
  assert (Hge : blocksPerRetarget b <= height_of a id + 1).
  { revert Hm. generalize ((height_of a id + 1) / blocksPerRetarget b). intros q Hm.
    assert (1 <= q) by nia. nia. }
  destruct (ancestorAt_spec a id (height_of a id - (blocksPerRetarget b - 1)) Hw Hid ltac:(lia))
    as (x & Ex & _). exists x. split; [|exact Ex].
  unfold RelativeAncestor. rewrite (i32_id (blocksPerRetarget b - 1)), i32_id by (unfold is_i32; lia).
  rewrite Ancestor_eq, !(proj2 (Z.ltb_ge _ _)) by (auto; lia). exact Ex.
Qed.

(** The rule on each of its branches, in terms of the mathematical heights. *)
Lemma calcNext_eq b a id now :
  RetargetParams b -> arena_wf a -> (id < List.length a)%nat -> height_of a id < maxHeight ->
  calcNextRequiredDifficulty b a (Some id) now =
    if (height_of a id + 1) mod blocksPerRetarget b =? 0 then
      match ancestorAt a id (height_of a id - (blocksPerRetarget b - 1)) with
      | Some first =>
          Ok (BigToCompact (scaledTarget b (CompactToBig (bn_bits (deref a id)))
                (adjustTimespan b (i64 (bn_timestamp (deref a id) - bn_timestamp (deref a first))))))
      | None => Err "unable to obtain previous retarget block"%string
      end
    else if ReduceMinDifficulty (chainParams b) then
      if i64 (bn_timestamp (deref a id) + seconds (MinDiffReductionTime (chainParams b))) <? now
      then Ok (PowLimitBits (chainParams b)) else Ok (findPrevTestNetDifficulty b a id)
    else Ok (bn_bits (deref a id)).
Proof.
  intros rp Hw Hid Hh. pose proof (aw_height a Hw id Hid). pose proof (rp_blocks (b := b)).
  unfold maxHeight, calcNextRequiredDifficulty in *. fold (height_of a id).
  rewrite (proj2 (Z.eqb_neq (blocksPerRetarget b) 0)) by lia.
  rewrite (i32_id (height_of a id + 1)) by (unfold is_i32; lia).
  rewrite Z.rem_mod_nonneg by lia.
  destruct (Z.eqb_spec ((height_of a id + 1) mod blocksPerRetarget b) 0) as [E|E]; cbn [negb]; [|reflexivity].
  destruct (first_of_period b a id rp Hw Hid E) as (first & -> & ->). apply retargetBits_eq; assumption.
Qed.

Lemma findPrev_bits b a id :
  RetargetParams b -> arena_wf a -> (id < List.length a)%nat ->
  exists x, (x < List.length a)%nat /\ findPrevTestNetDifficulty b a id = bn_bits (deref a x).
Proof.
  intros rp Hw Hid. pose proof (aw_height a Hw id Hid).
  destruct (testnet_loop_spec b a (Z.to_nat (height_of a id)) id Hw Hid ltac:(lia)) as (k & x & E & _ & Hx & _).
  exists x. unfold findPrevTestNetDifficulty. now rewrite E.
Qed.

Lemma calcNext_range b a parent now bits :
  RetargetParams b -> arena_wf a -> parent_ok a parent ->
  (forall i, (i < List.length a)%nat -> 0 <= CompactToBig (bn_bits (deref a i)) <= PowLimit (chainParams b)) ->
  calcNextRequiredDifficulty b a parent now = Ok bits ->
  0 <= CompactToBig bits <= PowLimit (chainParams b).
Proof.
  intros rp Hw Hp Hall E. destruct parent as [id|]; [|injection E as <-; now apply limit_bits].
  destruct Hp as [Hid Hh]. rewrite calcNext_eq in E by assumption.
  destruct (_ =? 0).
  - destruct (ancestorAt a id _) as [first|]; [|discriminate]. injection E as <-.
    match goal with |- context [scaledTarget b ?o (adjustTimespan b ?t)] =>
      pose proof (scaledTarget_range b o t (proj1 (Hall id Hid))) as Hs;
      pose proof (compact_range b (scaledTarget b o (adjustTimespan b t)) ltac:(lia)) end. lia.
  - destruct (ReduceMinDifficulty (chainParams b)); [|injection E as <-; auto].
    destruct (_ <? now); injection E as <-; [now apply limit_bits|].
    destruct (findPrev_bits b a id rp Hw Hid) as (x & Hx & ->). auto.
Qed.

(** ** Properties *)

(** C26: in every tree whose blocks carry the difficulty calcNextRequiredDifficulty
    asks for, every target is between zero and the proof of work limit, and the
    calculation neither fails nor panics and stays within the limit for the next
    block. *)
Theorem mined_within_limit DH b a :
  RetargetParams b -> mined DH b a ->
  (forall id, (id < List.length a)%nat ->
     0 <= CompactToBig (bn_bits (deref a id)) <= PowLimit (chainParams b)) /\
  (forall parent now, parent_ok a parent ->
     exists bits, calcNextRequiredDifficulty b a parent now = Ok bits /\
       0 <= CompactToBig bits <= PowLimit (chainParams b)).
Proof.
  intros rp Hm. pose proof (built_wf DH a (mined_built DH b a Hm)) as Hw.
  assert (Hall : forall id, (id < List.length a)%nat ->
    0 <= CompactToBig (bn_bits (deref a id)) <= PowLimit (chainParams b)).
  { clear Hw. induction Hm as [|a hdr parent Hm IH Hp E]; intros id Hid; [simpl in Hid; lia|].
    pose proof (built_wf DH a (mined_built DH b a Hm)) as Hw. unfold newBlockNode in *. cbn [fst] in *.
    rewrite length_app in Hid. cbn [List.length] in Hid.
    destruct (Nat.eq_dec id (List.length a)) as [->|Hne]; [|rewrite deref_app by lia; apply IH; lia].
    unfold deref. rewrite app_nth2, Nat.sub_diag by lia. cbn [nth].
    replace (bn_bits (initBlockNode DH a hdr parent)) with (bh_Bits hdr) by (destruct parent; reflexivity).
    exact (calcNext_range b a parent _ _ rp Hw Hp IH E). }
  split; [exact Hall|]. intros parent now Hp.
  assert (Hok : exists bits, calcNextRequiredDifficulty b a parent now = Ok bits).
  { destruct parent as [id|]; [|eexists; reflexivity]. destruct Hp as [Hid Hh].
    rewrite calcNext_eq by assumption.
    destruct (Z.eqb_spec ((height_of a id + 1) mod blocksPerRetarget b) 0) as [E|E].
    - destruct (first_of_period b a id rp Hw Hid E) as (first & _ & ->). eexists. reflexivity.
    - repeat match goal with |- context [if ?c then _ else _] => destruct c end; eexists; reflexivity. }
  destruct Hok as (bits & E). exists bits. split; [exact E|].
  exact (calcNext_range b a parent now bits rp Hw Hp Hall E).
Qed.

(** At a retarget height the new bits are the compact form of the old target
    times the time the period took, limited to a factor in both directions, over the
    target timespan, at most the limit; the period starts at the block
    blocksPerRetarget - 1 before. *)
Theorem retarget_correct DH b a id now :
  RetargetParams b -> built DH a -> parent_ok a (Some id) ->
  0 <= CompactToBig (bn_bits (deref a id)) ->
  (height_of a id + 1) mod blocksPerRetarget b = 0 ->
  let old := CompactToBig (bn_bits (deref a id)) in
  let T := seconds (TargetTimespan (chainParams b)) in
  let f := RetargetAdjustmentFactor (chainParams b) in
  exists first bits,
    walk a id (Z.to_nat (blocksPerRetarget b - 1)) = Some first /\
    calcNextRequiredDifficulty b a (Some id) now = Ok bits /\
    let elapsed := i64 (bn_timestamp (deref a id) - bn_timestamp (deref a first)) in
    bits = BigToCompact (Z.min (PowLimit (chainParams b)) (old * Z.max (T / f) (Z.min (T * f) elapsed) / T)) /\
    0 <= CompactToBig bits <= Z.min (PowLimit (chainParams b)) (old * f).
Proof.
  intros rp Hb [Hid Hh] Hold Hm old T f. apply built_wf in Hb as Hw.
  destruct (first_of_period b a id rp Hw Hid Hm) as (first & _ & Ef). exists first.
  rewrite calcNext_eq, Hm, Ef, Z.eqb_refl by assumption. eexists.
  split; [|split; [reflexivity|]].
  - unfold ancestorAt in Ef. rewrite <- Ef. f_equal. lia.
  - intros elapsed. fold elapsed old. pose proof (adjustTimespan_bounds b elapsed) as Ha.
    split.
    + unfold scaledTarget. do 4 f_equal. unfold adjustTimespan. fold T. subst f T.
      rewrite <- rp_min, <- rp_max.
      destruct (Z.ltb_spec elapsed (minRetargetTimespan b)); [lia|].
      destruct (Z.ltb_spec (maxRetargetTimespan b) elapsed); lia.
    + pose proof (scaledTarget_range b old elapsed Hold) as Hs.
      pose proof (compact_range b (scaledTarget b old (adjustTimespan b elapsed)) ltac:(lia)). subst f. lia.
Qed.

(** The difficulty the testnet rule falls back to is that of the nearest block,
    the start included, that is at a retarget height or does not have the minimum
    difficulty. *)
Theorem findPrevTestNetDifficulty_correct DH b a id :
  RetargetParams b -> built DH a -> (id < List.length a)%nat ->
  exists k x, walk a id k = Some x /\ stops b a x /\
    (forall j y, (j < k)%nat -> walk a id j = Some y -> ~ stops b a y) /\
    findPrevTestNetDifficulty b a id = bn_bits (deref a x).
Proof.
  intros rp Hb Hid. apply built_wf in Hb as Hw. pose proof (aw_height a Hw id Hid).
  destruct (testnet_loop_spec b a (Z.to_nat (height_of a id)) id Hw Hid ltac:(lia))
    as (k & x & E & Ew & _ & Hs & Hm).
  exists k, x. repeat split; auto. unfold findPrevTestNetDifficulty. now rewrite E.
Qed.

(** The loop of calcEasiestDifficulty computes the starting target times the
    adjustment factor to the number of the periods begun in the duration, at most
    the limit. *)
Theorem calcEasiestDifficulty_correct b bits duration :
  RetargetParams b -> seconds duration < 2 ^ 63 ->
  calcEasiestDifficulty b bits duration =
    if ReduceMinDifficulty (chainParams b) &&
       (seconds (MinDiffReductionTime (chainParams b)) <? seconds duration)
    then PowLimitBits (chainParams b)
    else BigToCompact (Z.min (PowLimit (chainParams b))
           (CompactToBig bits * RetargetAdjustmentFactor (chainParams b) ^ retargets b (seconds duration))).
Proof.
  intros rp Hd. unfold calcEasiestDifficulty. destruct (_ && _); [reflexivity|].
  assert (Hr : 0 <= retargets b (seconds duration)).
  { unfold retargets. destruct (Z.leb_spec (seconds duration) 0); [lia|].
    pose proof (rp_max (b := b)). pose proof (rp_span (b := b)). pose proof (rp_factor (b := b)).
    assert (0 <= (seconds duration - 1) / maxRetargetTimespan b) by (apply Z.div_pos; nia). lia. }
  pose proof (easiest_loop_spec b (Z.to_nat (retargets b (seconds duration))) (CompactToBig bits)
                (seconds duration) Hd ltac:(lia)) as H.
  rewrite Z2Nat.id in H by assumption. rewrite <- H. f_equal.
  match goal with |- (if ?x <? ?y then _ else _) = _ => destruct (Z.ltb_spec x y) end; lia.
Qed.

(** calcEasiestDifficulty is not an upper bound of what the retarget rule can reach:
    four periods of three times the target timespan ease the difficulty 81 times,
    the function allows 64 times for the same duration. *)
Theorem calcEasiestDifficulty_not_easiest :
  let b := chainFor MainNetParams in
  let T := seconds (TargetTimespan MainNetParams) in
  let period bits := match retargetBits b bits (3 * T) with Ok bits => bits | _ => 0 end in
  CompactToBig (calcEasiestDifficulty b 0x1b04864c (4 * (3 * T) * Second)) <
  CompactToBig (period (period (period (period 0x1b04864c)))).
Proof. vm_compute. reflexivity. Qed.

(** ** Witnesses *)

(** A network with two blocks to a retarget. *)
Definition toyParams : Params :=
  mkParams mainPowLimit 0x1d00ffff (Minute * 20) (Minute * 10) 4 true (Minute * 20).

#[export] Instance toy_params : RetargetParams (chainFor toyParams).
Proof. split; vm_compute; repeat split; congruence. Qed.

Definition minedHeader (time bits : Z) : BlockHeader := mkBlockHeader 1 zeroHash zeroHash time bits 7.
Definition mined_arena : arena :=
  fst (newBlockNode sampleHash (fst (newBlockNode sampleHash [] (minedHeader 1000 0x1d00ffff) None))
         (minedHeader 1100 0x1d00ffff) (Some 0%nat)).

Lemma mined_arena_mined : mined sampleHash (chainFor toyParams) mined_arena.
Proof.
  apply mined_new; [|split; vm_compute; [lia | reflexivity] | vm_compute; reflexivity].
  apply mined_new; [apply mined_nil | exact I | reflexivity].
Qed.

Lemma mined_within_limit_witness :
  exists bits, calcNextRequiredDifficulty (chainFor toyParams) mined_arena (Some 1%nat) 1200 = Ok bits /\
    0 <= CompactToBig bits <= mainPowLimit.
Proof.
  apply (proj2 (mined_within_limit sampleHash (chainFor toyParams) mined_arena toy_params mined_arena_mined)
           (Some 1%nat) 1200).
  split; vm_compute; [lia | reflexivity].
Defined.

Lemma retarget_correct_witness :
  exists first bits, walk mined_arena 1 1 = Some first /\
    calcNextRequiredDifficulty (chainFor toyParams) mined_arena (Some 1%nat) 1200 = Ok bits.
Proof.
  destruct (retarget_correct sampleHash (chainFor toyParams) mined_arena 1 1200 toy_params
              (mined_built _ _ _ mined_arena_mined)) as (first & bits & W & E & _);
    [split; vm_compute; [lia | reflexivity] | vm_compute; discriminate | vm_compute; reflexivity |].
  exists first, bits. split; [exact W | exact E].
Defined.

Lemma findPrevTestNetDifficulty_correct_witness :
  exists x, stops (chainFor toyParams) mined_arena x /\
    findPrevTestNetDifficulty (chainFor toyParams) mined_arena 1 = bn_bits (deref mined_arena x).
Proof.
  destruct (findPrevTestNetDifficulty_correct sampleHash (chainFor toyParams) mined_arena 1 toy_params
              (mined_built _ _ _ mined_arena_mined)) as (k & x & _ & Hs & _ & E); [vm_compute; lia|].
  exists x. split; [exact Hs | exact E].
Defined.

Lemma calcEasiestDifficulty_correct_witness :
  calcEasiestDifficulty (chainFor MainNetParams) 0x1b04864c (Hour * 24 * 60) =
    BigToCompact (CompactToBig 0x1b04864c * 4 ^ 2).
Proof.
  rewrite (calcEasiestDifficulty_correct (chainFor MainNetParams) 0x1b04864c (Hour * 24 * 60) main_params
             ltac:(vm_compute; reflexivity)).
  vm_compute. reflexivity.
Defined.
