(* ===== verification/Index.v ===== *)
(** * The block index and the checkpoints (blockchain/blockindex.go,
      blockchain/checkpoints.go)

    The map from hashes to block nodes with the set of nodes to be written
    out, the tips of the side chains, and the search for the checkpoint the
    chain has passed. *)

From Stdlib Require Import ZArith List Lia Bool String.
From stdpp Require Import gmap.
From S2P Require Import Prelude GoSlice GoIO WireCommon WireMsgs Difficulty BlockIndex ChainView ChainIO.
Import ListNotations.
Local Open Scope string_scope.
Local Open Scope list_scope.
Local Open Scope Z_scope.
Local Open Scope go_scope.

(** ** The index *)

Record blockIndex : Type := mkIndex {
  bi_nodes : arena;
  bi_index : gmap (list Z) nat;
  bi_dirty : gset nat
}.

Definition newBlockIndex (nodes : arena) : blockIndex := mkIndex nodes ∅ ∅.

Definition LookupNode (bi : blockIndex) (hash : list Z) : option nat := bi_index bi !! hash.

Definition HaveBlock (bi : blockIndex) (hash : list Z) : bool :=
  match bi_index bi !! hash with Some id => HaveData (bn_status (deref (bi_nodes bi) id)) | None => false end.

Definition addNode (bi : blockIndex) (id : nat) : blockIndex :=
  mkIndex (bi_nodes bi) (<[bn_hash (deref (bi_nodes bi) id) := id]> (bi_index bi)) (bi_dirty bi).
Definition AddNode (bi : blockIndex) (id : nat) : blockIndex :=
  let bi := addNode bi id in mkIndex (bi_nodes bi) (bi_index bi) ({[id]} ∪ bi_dirty bi).

Definition NodeStatus (bi : blockIndex) (id : nat) : Z := bn_status (deref (bi_nodes bi) id).

Definition with_status (n : blockNode) (status : Z) : blockNode :=
  mkBlockNode (bn_parent n) (bn_ancestor n) (bn_hash n) (bn_workSum n) (bn_height n) (bn_version n) (bn_bits n)
    (bn_nonce n) (bn_timestamp n) (bn_merkleRoot n) status.

(** A change of the status through the pointer. *)
Definition set_status (bi : blockIndex) (id : nat) (f : Z -> Z) : blockIndex :=
  let n := deref (bi_nodes bi) id in
  mkIndex (<[id := with_status n (f (bn_status n))]> (bi_nodes bi)) (bi_index bi) ({[id]} ∪ bi_dirty bi).
Definition SetStatusFlags (bi : blockIndex) (id : nat) (flags : Z) : blockIndex :=
  set_status bi id (fun status => Z.lor status flags).
Definition UnsetStatusFlags (bi : blockIndex) (id : nat) (flags : Z) : blockIndex :=
  set_status bi id (fun status => Z.ldiff status flags).

(** ** Side chains *)

(** The nodes outside of the best chain, and their parents, by hash. *)
Fixpoint collectOrphans (a : arena) (bestChain : chainView) (entries : list (list Z * nat))
    (orphans orphanParent : gmap (list Z) nat) : outcome chainErr (gmap (list Z) nat * gmap (list Z) nat) :=
  match entries with
  | [] => Ok (orphans, orphanParent)
  | (hash, node) :: entries' =>
      if contains a bestChain node then collectOrphans a bestChain entries' orphans orphanParent
      else
        match bn_parent (deref a node) with
        | None => Panic
        | Some p => collectOrphans a bestChain entries' (<[hash := node]> orphans) (<[bn_hash (deref a p) := p]> orphanParent)
        end
  end.

Fixpoint collectTips (entries : list (list Z * nat)) (orphanParent : gmap (list Z) nat) : list nat :=
  match entries with
  | [] => []
  | (hash, orphan) :: entries' =>
      (match orphanParent !! hash with None => [orphan] | Some _ => [] end) ++ collectTips entries' (delete hash orphanParent)
  end.

(** [iter] is the unspecified order in which Go ranges over a map. *)
Definition InactiveTips (iter : gmap (list Z) nat -> list (list Z * nat)) (bi : blockIndex) (bestChain : chainView)
  : outcome chainErr (list nat) :=
  let* (orphans, orphanParent) := collectOrphans (bi_nodes bi) bestChain (iter (bi_index bi)) ∅ ∅ in
  Ok (collectTips (iter orphans) orphanParent).

(** ** Checkpoints *)

Record Checkpoint : Type := mkCheckpoint { cp_Height : Z; cp_Hash : list Z }.

(** [checkpointsByHeight] holds, for a height, the last checkpoint of it. *)
Definition checkpointsByHeight (checkpoints : list Checkpoint) (height : Z) : option Checkpoint :=
  find (fun c => cp_Height c =? height) (rev checkpoints).

Definition LatestCheckpoint (checkpoints : list Checkpoint) : option Checkpoint :=
  match checkpoints with [] => None | c :: _ => Some (List.last checkpoints c) end.

Definition verifyCheckpoint (checkpoints : list Checkpoint) (height : Z) (hash : list Z) : bool :=
  match checkpoints with
  | [] => true
  | _ => match checkpointsByHeight checkpoints height with
         | None => true
         | Some c => bytes_eqb (cp_Hash c) hash
         end
  end.

(** What the chain remembers of its last search: the node, and the position of
    the next checkpoint. *)
Record checkpointState : Type := mkCheckpointState { cs_node : option nat; cs_next : option nat }.

(** The first search, from checkpoint [i - 1] down. *)
Fixpoint searchCheckpoint (bi : blockIndex) (bestChain : chainView) (checkpoints : list Checkpoint) (i : nat)
  : checkpointState :=
  match i with
  | O => mkCheckpointState None (Some 0%nat)
  | S i' =>
      match nth_error checkpoints i' with
      | None => mkCheckpointState None (Some 0%nat)
      | Some c =>
          match LookupNode bi (cp_Hash c) with
          | Some node =>
              if contains (bi_nodes bi) bestChain node
              then mkCheckpointState (Some node) (if (S i' <? List.length checkpoints)%nat then Some (S i') else None)
              else searchCheckpoint bi bestChain checkpoints i'
          | None => searchCheckpoint bi bestChain checkpoints i'
          end
      end
  end.

(** The last position of a checkpoint with a hash, below [i]. *)
Fixpoint indexOfHash (checkpoints : list Checkpoint) (hash : list Z) (i : nat) : option nat :=
  match i with
  | O => None
  | S i' =>
      match nth_error checkpoints i' with
      | Some c => if bytes_eqb (cp_Hash c) hash then Some i' else indexOfHash checkpoints hash i'
      | None => None
      end
  end.

Definition findPreviousCheckpoint (bi : blockIndex) (bestChain : chainView) (checkpoints : list Checkpoint)
    (cs : checkpointState) : outcome chainErr (option nat * checkpointState) :=
  match checkpoints with
  | [] => Ok (None, cs)
  | _ =>
      match cs_node cs, cs_next cs with
      | None, None => let cs := searchCheckpoint bi bestChain checkpoints (List.length checkpoints) in Ok (cs_node cs, cs)
      | _, None => Ok (cs_node cs, cs)
      | _, Some next =>
          match nth_error checkpoints next, tip bestChain with
          | Some c, Some t =>
              if height_of (bi_nodes bi) t <? cp_Height c then Ok (cs_node cs, cs)
              else
                match LookupNode bi (cp_Hash c) with
                | None => Err (AssertError "findPreviousCheckpoint failed lookup of known good block node")
                | Some node =>
                    let next := match indexOfHash checkpoints (cp_Hash c) (List.length checkpoints) with
                                | Some i => if (S i <? List.length checkpoints)%nat then Some (S i) else None
                                | None => None
                                end in
                    Ok (Some node, mkCheckpointState (Some node) next)
                end
          | _, _ => Panic
          end
      end
  end.

(** ** Indexes of whole trees *)

(** Every node of the tree is found under its hash, and nothing else is. *)
Record index_ok (bi : blockIndex) : Prop := {
  io_complete : forall id, (id < List.length (bi_nodes bi))%nat -> LookupNode bi (bn_hash (deref (bi_nodes bi) id)) = Some id;
  io_sound : forall hash id, LookupNode bi hash = Some id ->
    (id < List.length (bi_nodes bi))%nat /\ bn_hash (deref (bi_nodes bi) id) = hash
}.

Lemma hash_inj bi id id' : index_ok bi -> (id < List.length (bi_nodes bi))%nat -> (id' < List.length (bi_nodes bi))%nat ->
  bn_hash (deref (bi_nodes bi) id) = bn_hash (deref (bi_nodes bi) id') -> id = id'.
Proof.
  intros Hi H H' E. pose proof (io_complete bi Hi id H) as H1. rewrite E, (io_complete bi Hi id' H') in H1. congruence.
Qed.

(** Adding a new node keeps the index complete. *)
Lemma index_ok_add bi n : index_ok bi -> LookupNode bi (bn_hash n) = None ->
  index_ok (AddNode (mkIndex (bi_nodes bi ++ [n]) (bi_index bi) (bi_dirty bi)) (List.length (bi_nodes bi))).
Proof.
  intros Hi Hn. assert (Hd : deref (bi_nodes bi ++ [n]) (List.length (bi_nodes bi)) = n).
  { unfold deref. now rewrite app_nth2, Nat.sub_diag by lia. }
  split; unfold AddNode, addNode, LookupNode; cbn [bi_nodes bi_index]; rewrite ?Hd.
  - intros id Hid. rewrite length_app in Hid. cbn [List.length] in Hid.
    destruct (Nat.eq_dec id (List.length (bi_nodes bi))) as [->|Hne]; [rewrite Hd; apply lookup_insert_eq|].
    rewrite deref_app by lia. pose proof (io_complete bi Hi id ltac:(lia)) as Hc.
    rewrite lookup_insert_ne; [exact Hc|]. intros E. rewrite E in Hn. unfold LookupNode in *. congruence.
  - intros hash id H. rewrite length_app. cbn [List.length]. apply lookup_insert_Some in H. destruct H as [[<- <-]|[_ H]].
    + split; [lia | now rewrite Hd].
    + destruct (io_sound bi Hi hash id H) as [H1 H2]. rewrite deref_app by exact H1. split; [lia | exact H2].
Qed.

Section Tips.
Context (bi : blockIndex) (c : chainView) (t : nat).
Context (iter : gmap (list Z) nat -> list (list Z * nat)).
Hypothesis iter_all : forall m, iter m ≡ₚ map_to_list m.
Hypothesis Hw : arena_wf (bi_nodes bi).
Hypothesis Hv : view_ok (bi_nodes bi) c (Some t).
Hypothesis Hi : index_ok bi.
(** One genesis block. *)
Hypothesis Hg : forall id, (id < List.length (bi_nodes bi))%nat -> bn_parent (deref (bi_nodes bi) id) = None ->
  contains (bi_nodes bi) c id = true.

Abbreviation a := (bi_nodes bi).
Definition node_hash (id : nat) : list Z := bn_hash (deref a id).
Definition side (id : nat) : Prop := (id < List.length a)%nat /\ contains a c id = false.

Lemma collectOrphans_spec entries : forall os ps,
  Forall (fun p => LookupNode bi (fst p) = Some (snd p)) entries ->
  exists os' ps', collectOrphans a c entries os ps = Ok (os', ps') /\
    (forall h id, os' !! h = Some id -> os !! h = Some id \/ ((h, id) ∈ entries /\ contains a c id = false)) /\
    (forall h id, (h, id) ∈ entries -> contains a c id = false -> is_Some (os' !! h)) /\
    (forall h, is_Some (os !! h) -> is_Some (os' !! h)) /\
    (forall h, is_Some (ps' !! h) <-> is_Some (ps !! h) \/
       exists h' id p, (h', id) ∈ entries /\ contains a c id = false /\ bn_parent (deref a id) = Some p /\ node_hash p = h).
Proof.
  induction entries as [|[h id] entries IH]; intros os ps Hl; cbn [collectOrphans].
  - exists os, ps. split; [reflexivity|]. split; [auto|]. split; [intros ? ? H; inversion H|]. split; [auto|].
    intros h. split; [auto|]. intros [H|(h' & id & p & H & _)]; [exact H | inversion H].
  - apply Forall_cons in Hl. destruct Hl as [Hid Hl]. cbn [fst snd] in Hid. destruct (contains a c id) eqn:Ec.
    + destruct (IH os ps Hl) as (os' & ps' & E & H1 & H2 & H3 & H4). exists os', ps'. split; [exact E|].
      split; [intros h0 id0 H; destruct (H1 h0 id0 H) as [?|[? ?]]; [auto | right; split; [now apply list_elem_of_further | auto]]|].
      split. { intros h0 id0 H Hc. apply elem_of_cons in H. destruct H as [[= -> ->]|H]; [congruence | eauto]. }
      split; [exact H3|]. intros h0. rewrite H4. split; intros [H|(h' & x & p & H & Hc & Hp & Hh)]; try (now left).
      * right. exists h', x, p. split; [now apply list_elem_of_further | auto].
      * apply elem_of_cons in H. destruct H as [[= -> ->]|H]; [congruence|]. right. now exists h', x, p.
    + destruct (io_sound bi Hi h id Hid) as [Hlt _].
      destruct (bn_parent (deref a id)) as [p|] eqn:Ep; [|rewrite (Hg id Hlt Ep) in Ec; discriminate].
      destruct (IH (<[h := id]> os) (<[bn_hash (deref a p) := p]> ps) Hl) as (os' & ps' & E & H1 & H2 & H3 & H4).
      exists os', ps'. split; [exact E|]. split; [|split; [|split]].
      * intros h0 id0 H. destruct (H1 h0 id0 H) as [H'|[? ?]]; [|right; split; [now apply list_elem_of_further | auto]].
        apply lookup_insert_Some in H'. destruct H' as [[<- <-]|[_ H']]; [right; split; [apply list_elem_of_here | exact Ec] | auto].
      * intros h0 id0 H Hc. apply elem_of_cons in H. destruct H as [[= -> ->]|H]; [|eauto].
        apply H3. rewrite lookup_insert_eq. eauto.
      * intros h0 H. apply H3. destruct (decide (h = h0)) as [<-|Hne]; [rewrite lookup_insert_eq; eauto | now rewrite lookup_insert_ne].
      * intros h0. rewrite H4. split.
        -- intros [H|(h' & x & q & H & Hc & Hp & Hh)].
           ++ destruct (decide (bn_hash (deref a p) = h0)) as [<-|Hne].
              ** right. exists h, id, p. split; [apply list_elem_of_here | auto].
              ** rewrite lookup_insert_ne in H by exact Hne. now left.
           ++ right. exists h', x, q. split; [now apply list_elem_of_further | auto].
        -- intros [H|(h' & x & q & H & Hc & Hp & Hh)].
           ++ left. destruct (decide (bn_hash (deref a p) = h0)) as [<-|Hne]; [rewrite lookup_insert_eq; eauto | now rewrite lookup_insert_ne].
           ++ apply elem_of_cons in H. destruct H as [[= -> ->]|H]; [|right; now exists h', x, q].
              left. rewrite Ep in Hp. injection Hp as <-. unfold node_hash in Hh. rewrite <- Hh, lookup_insert_eq. eauto.
Qed.

Lemma collectTips_spec entries : forall ps, NoDup (map fst entries) ->
  forall id, id ∈ collectTips entries ps <-> exists h, (h, id) ∈ entries /\ ps !! h = None.
Proof.
  induction entries as [|[h x] entries IH]; intros ps Hd id; cbn [collectTips].
  - split; [intros H; inversion H | intros (h & H & _); inversion H].
  - cbn [map fst] in Hd. apply NoDup_cons in Hd. destruct Hd as [Hn Hd]. rewrite elem_of_app, (IH _ Hd). split.
    + intros [H|(h' & H & Hp)].
      * destruct (ps !! h) eqn:E; [inversion H|]. apply list_elem_of_singleton in H. subst. exists h. split; [apply list_elem_of_here | exact E].
      * exists h'. split; [now apply list_elem_of_further|]. rewrite lookup_delete_ne in Hp; [exact Hp|].
        intros <-. apply Hn, list_elem_of_In, in_map_iff. exists (h, id). split; [reflexivity | now apply list_elem_of_In].
    + intros (h' & H & Hp). apply elem_of_cons in H. destruct H as [[= -> ->]|H].
      * left. rewrite Hp. apply list_elem_of_here.
      * right. exists h'. split; [exact H|]. rewrite lookup_delete_ne; [exact Hp|].
        intros <-. apply Hn, list_elem_of_In, in_map_iff. exists (h, id). split; [reflexivity | now apply list_elem_of_In].
Qed.

(** The children of a side block are side blocks. *)
Lemma side_child id p : side p -> (id < List.length a)%nat -> bn_parent (deref a id) = Some p -> side id.
Proof.
  intros [Hp Hc] Hid Hpar. split; [exact Hid|]. destruct (contains a c id) eqn:Ec; [|reflexivity].
  pose proof Hv as [_ _ (Ht & _)].
  apply (contains_spec a c t id Hw Hv Hid) in Ec. rewrite <- Hc. symmetry.
  apply (contains_spec a c t p Hw Hv Hp). apply (on_branch_trans a t id p); auto.
  apply (on_branch_parent a id p p Hw Hid Hpar). right. split; [lia | apply ancestorAt_self].
Qed.

(** Whatever the order in which the map is visited, [InactiveTips] returns the
    nodes outside of the best chain that no node has as its parent. *)
Lemma InactiveTips_spec :
  exists tips, InactiveTips iter bi c = Ok tips /\
    forall id, id ∈ tips <-> (id < List.length (bi_nodes bi))%nat /\ contains (bi_nodes bi) c id = false /\
      forall child, (child < List.length (bi_nodes bi))%nat -> bn_parent (deref (bi_nodes bi) child) <> Some id.
Proof.
  unfold InactiveTips. 
  assert (Hent : forall h id, (h, id) ∈ iter (bi_index bi) <-> LookupNode bi h = Some id).
  { intros h id. rewrite (iter_all (bi_index bi)). apply elem_of_map_to_list. }
  destruct (collectOrphans_spec (iter (bi_index bi)) ∅ ∅) as (os & ps & E & H1 & H2 & _ & H4).
  { apply Forall_forall. intros [h id] H. now apply Hent. }
  rewrite E. cbn [obind]. eexists. split; [reflexivity|]. intros id.
  rewrite collectTips_spec by (rewrite (iter_all os); apply NoDup_fst_map_to_list).
  assert (Hos : forall h x, (h, x) ∈ iter os <-> LookupNode bi h = Some x /\ contains a c x = false).
  { intros h x. rewrite (iter_all os), elem_of_map_to_list. split.
    - intros H. destruct (H1 h x H) as [H'|[H' Hc]]; [now rewrite lookup_empty in H'|]. split; [now apply Hent | exact Hc].
    - intros [H Hc]. destruct (H2 h x (proj2 (Hent h x) H) Hc) as [y Hy]. rewrite Hy. f_equal.
      destruct (H1 h y Hy) as [H'|[H' _]]; [now rewrite lookup_empty in H'|]. apply Hent in H'. congruence. }
  split.
  - intros (h & Hh & Hp). apply Hos in Hh. destruct Hh as [Hh Hc]. destruct (io_sound bi Hi h id Hh) as [Hlt Eh].
    split; [exact Hlt|]. split; [exact Hc|]. intros child Hch Hpar.
    destruct (side_child child id (conj Hlt Hc) Hch Hpar) as [_ Hcc].
    assert (Hs : is_Some (ps !! h)).
    { apply H4. right. exists (node_hash child), child, id. split; [apply Hent; now apply (io_complete bi Hi)|].
      split; [exact Hcc|]. split; [exact Hpar | exact Eh]. }
    rewrite Hp in Hs. destruct Hs; discriminate.
  - intros (Hlt & Hc & Hch). exists (node_hash id). split; [apply Hos; split; [now apply (io_complete bi Hi) | exact Hc]|].
    apply eq_None_not_Some. intros Hs. apply H4 in Hs. destruct Hs as [Hs|(h' & x & p & Hx & Hcx & Hp & Hh)].
    + rewrite lookup_empty in Hs. destruct Hs; discriminate.
    + apply Hent in Hx. destruct (io_sound bi Hi h' x Hx) as [Hltx _]. apply (Hch x Hltx). refine (eq_trans Hp _). f_equal.
      destruct (height_parent a x p Hw Hltx Hp) as (_ & Hpl & _). exact (hash_inj bi p id Hi Hpl Hlt Hh).
Qed.
End Tips.

(** ** Properties *)

(** For every index of a reached tree and every order in which the map is
    visited, InactiveTips returns exactly the nodes outside of the best chain that
    no node has as its parent. *)
Theorem InactiveTips_correct DH iter bi c t : (forall m, iter m ≡ₚ map_to_list m) ->
  reached DH (bi_nodes bi) c (Some t) -> index_ok bi ->
  (forall id, (id < List.length (bi_nodes bi))%nat -> bn_parent (deref (bi_nodes bi) id) = None ->
     contains (bi_nodes bi) c id = true) ->
  exists tips, InactiveTips iter bi c = Ok tips /\
    forall id, id ∈ tips <-> (id < List.length (bi_nodes bi))%nat /\ contains (bi_nodes bi) c id = false /\
      forall child, (child < List.length (bi_nodes bi))%nat -> bn_parent (deref (bi_nodes bi) child) <> Some id.
Proof.
  intros Hiter Hr Hi Hg. destruct (reached_ok DH _ c _ Hr) as [Hb Hv].
  exact (InactiveTips_spec bi c t iter Hiter (built_wf DH _ Hb) Hv Hi Hg).
Qed.

(** *** The tips of the small tree

    The best chain is 0 <- 1 <- 2 <- 3, and block 4 is on top of 1. *)

Definition sample_index : blockIndex :=
  fold_left AddNode [0; 1; 2; 3; 4]%nat (newBlockIndex sample_arena).

Lemma sample_index_ok : index_ok sample_index.
Proof.
  split.
  - intros id Hid. change (List.length (bi_nodes sample_index)) with 5%nat in Hid.
    do 5 (destruct id as [|id]; [vm_compute; reflexivity|]). lia.
  - intros hash id H. change (LookupNode sample_index hash) with
      ((<[bn_hash (deref sample_arena 4) := 4%nat]> (<[bn_hash (deref sample_arena 3) := 3%nat]>
        (<[bn_hash (deref sample_arena 2) := 2%nat]> (<[bn_hash (deref sample_arena 1) := 1%nat]>
        (<[bn_hash (deref sample_arena 0) := 0%nat]> ∅)))) : gmap (list Z) nat) !! hash) in H.
    repeat (apply lookup_insert_Some in H; destruct H as [[<- <-]|[_ H]]; [split; [vm_compute; lia | reflexivity]|]).
    now rewrite lookup_empty in H.
Qed.

Lemma InactiveTips_correct_witness :
  exists tips, InactiveTips map_to_list sample_index sample_view = Ok tips /\ 4%nat ∈ tips /\ 1%nat ∉ tips.
Proof.
  destruct (InactiveTips_correct sampleHash map_to_list sample_index sample_view 3%nat) as (tips & E & H).
  - reflexivity.
  - exact sample_reached.
  - exact sample_index_ok.
  - intros id Hid Hp. change (List.length (bi_nodes sample_index)) with 5%nat in Hid.
    do 5 (destruct id as [|id]; [vm_compute in Hp |- *; congruence|]). lia.
  - exists tips. split; [exact E|]. split.
    + apply H. split; [vm_compute; lia|]. split; [reflexivity|]. intros child Hc.
      change (List.length (bi_nodes sample_index)) with 5%nat in Hc.
      do 5 (destruct child as [|child]; [vm_compute; congruence|]). lia.
    + intros H1. apply H in H1. destruct H1 as (_ & Hc & _). vm_compute in Hc. discriminate.
Defined.
