(* ===== verification/Threshold.v ===== *)
(** * Version bits (blockchain/thresholdstate.go, blockchain/versionbits.go,
      chaincfg/deployment_time_frame.go, chaincfg/params.go)

    The states of the deployments of rule changes: the votes of a window, the
    transitions at its end, and the cache that keeps the states of the windows.
    The condition checkers are one record, as the code has one interface; the
    votes for unknown rules change the caches of the known deployments, so that
    a condition passes a state along. *)

From Stdlib Require Import ZArith List Lia Bool String.
From stdpp Require Import gmap.
From S2P Require Import Prelude GoSlice GoIO WireCommon WireMsgs Difficulty BlockIndex ChainView ChainIO Index.
Import ListNotations.
Local Open Scope string_scope.
Local Open Scope list_scope.
Local Open Scope Z_scope.
Local Open Scope go_scope.

(** ** Deployments *)

Inductive ThresholdState : Type :=
| ThresholdDefined | ThresholdStarted | ThresholdLockedIn | ThresholdActive | ThresholdFailed.

(** The times of the starter and the ender; [None] is the zero time. *)
Record ConsensusDeployment : Type := mkDeployment {
  BitNumber : Z;
  MinActivationHeight : Z;
  CustomActivationThreshold : Z;
  StartTime : option Z;
  EndTime : option Z
}.

(** The fields of chaincfg.Params for the votes. *)
Record VoteParams : Type := mkVoteParams {
  RuleChangeActivationThreshold : Z;
  MinerConfirmationWindow : Z;
  Deployments : list ConsensusDeployment
}.

Definition DeploymentTestDummy : Z := 0.
Definition DeploymentTestDummyMinActivation : Z := 1.
Definition DeploymentCSV : Z := 2.
Definition DeploymentSegwit : Z := 3.
Definition DeploymentTaproot : Z := 4.

Definition mainNetVotes : VoteParams := mkVoteParams 1916 2016
  [mkDeployment 28 0 0 (Some 11991456010) (Some 1230767999);
   mkDeployment 22 100000 1815 None None;
   mkDeployment 0 0 0 (Some 1462060800) (Some 1493596800);
   mkDeployment 1 0 0 (Some 1479168000) (Some 1510704000);
   mkDeployment 2 709632 1815 (Some 1619222400) (Some 1628640000)].
Definition regressionNetVotes : VoteParams := mkVoteParams 108 144
  [mkDeployment 28 0 0 None None;
   mkDeployment 22 600 72 None None;
   mkDeployment 0 0 0 None None;
   mkDeployment 1 0 0 None None;
   mkDeployment 2 0 1512 None None].
Definition testNet3Votes : VoteParams := mkVoteParams 1512 2016
  [mkDeployment 28 0 0 (Some 1199145601) (Some 1230767999);
   mkDeployment 22 100000 1815 None None;
   mkDeployment 0 0 0 (Some 1456790400) (Some 1493596800);
   mkDeployment 1 0 0 (Some 1462060800) (Some 1493596800);
   mkDeployment 2 0 1512 (Some 1619222400) (Some 1628640000)].
Definition simNetVotes : VoteParams := mkVoteParams 75 100
  [mkDeployment 28 0 0 None None;
   mkDeployment 22 600 50 None None;
   mkDeployment 0 0 0 None None;
   mkDeployment 1 0 0 None None;
   mkDeployment 2 0 1815 None None].

(** ** Condition checkers *)

Record thresholdConditionChecker (St : Type) : Type := mkChecker {
  HasStarted : nat -> bool;
  HasEnded : nat -> bool;
  ck_Threshold : Z;
  ck_Window : Z;
  EligibleToActivate : nat -> bool;
  IsSpeedy : bool;
  Condition : St -> nat -> outcome chainErr (bool * St)
}.
Arguments HasStarted {St} _ _.
Arguments HasEnded {St} _ _.
Arguments ck_Threshold {St} _.
Arguments ck_Window {St} _.
Arguments EligibleToActivate {St} _ _.
Arguments IsSpeedy {St} _.
Arguments Condition {St} _ _ _.

(** thresholdStateCache. *)
Abbreviation stateCache := (gmap (list Z) ThresholdState).
Definition newThresholdCaches (numCaches : nat) : list stateCache := repeat ∅ numCaches.

Section Transitions.
Context {St : Type} (checker : thresholdConditionChecker St) (a : arena).

(** The loop over the confirmation window. *)
Fixpoint countVotes (n : nat) (s : St) (countNode : option nat) (count : Z) : outcome chainErr (Z * St) :=
  match n with
  | O => Ok (count, s)
  | S n' =>
      match countNode with
      | None => Panic
      | Some id =>
          let* (condition, s) := Condition checker s id in
          countVotes n' s (bn_parent (deref a id)) (if condition then u32 (count + 1) else count)
      end
  end.

Definition thresholdStateTransition (s : St) (state : ThresholdState) (prevNode : nat) (confirmationWindow : Z)
  : outcome chainErr (ThresholdState * St) :=
  match state with
  | ThresholdDefined =>
      if negb (IsSpeedy checker) && HasEnded checker prevNode then Ok (ThresholdFailed, s)
      else if HasStarted checker prevNode then Ok (ThresholdStarted, s)
      else Ok (ThresholdDefined, s)
  | ThresholdStarted =>
      if negb (IsSpeedy checker) && HasEnded checker prevNode then Ok (ThresholdFailed, s)
      else
        let* (count, s) := countVotes (Z.to_nat confirmationWindow) s (Some prevNode) 0 in
        if ck_Threshold checker <=? count then Ok (ThresholdLockedIn, s)
        else if IsSpeedy checker && HasEnded checker prevNode then Ok (ThresholdFailed, s)
        else Ok (ThresholdStarted, s)
  | ThresholdLockedIn =>
      if negb (EligibleToActivate checker prevNode) then Ok (ThresholdLockedIn, s) else Ok (ThresholdActive, s)
  | ThresholdActive => Ok (ThresholdActive, s)
  | ThresholdFailed => Ok (ThresholdFailed, s)
  end.

(** The windows without a cached state, the most recent first, and the node the
    search stops at.  Every round goes down the chain. *)
Fixpoint neededWindows (fuel : nat) (confirmationWindow : Z) (prevNode : option nat) (cache : stateCache)
  : list nat * option nat * stateCache :=
  match prevNode with
  | None => ([], None, cache)
  | Some id =>
      match cache !! bn_hash (deref a id) with
      | Some _ => ([], Some id, cache)
      | None =>
          if negb (HasStarted checker id) then ([], Some id, <[bn_hash (deref a id) := ThresholdDefined]> cache)
          else
            match fuel with
            | O => ([], None, cache)
            | S fuel' =>
                let '(needed, stop, cache) :=
                  neededWindows fuel' confirmationWindow (RelativeAncestor a id confirmationWindow) cache in
                (id :: needed, stop, cache)
            end
      end
  end.

(** The transitions of the windows, the oldest first. *)
Fixpoint applyWindows (confirmationWindow : Z) (nodes : list nat) (state : ThresholdState) (cache : stateCache) (s : St)
  : outcome chainErr (ThresholdState * stateCache * St) :=
  match nodes with
  | [] => Ok (state, cache, s)
  | id :: nodes' =>
      let* (state, s) := thresholdStateTransition s state id confirmationWindow in
      applyWindows confirmationWindow nodes' state (<[bn_hash (deref a id) := state]> cache) s
  end.

Definition thresholdState (prevNode : option nat) (cache : stateCache) (s : St)
  : outcome chainErr (ThresholdState * stateCache * St) :=
  let confirmationWindow := i32 (ck_Window checker) in
  match prevNode with
  | None => Ok (ThresholdDefined, cache, s)
  | Some id =>
      if i32 (height_of a id + 1) <? confirmationWindow then Ok (ThresholdDefined, cache, s)
      else if confirmationWindow =? 0 then Panic
      else
        let prevNode := Ancestor a id (i32 (height_of a id - Z.rem (i32 (height_of a id + 1)) confirmationWindow)) in
        let '(needed, stop, cache) := neededWindows (S (Z.to_nat (height_of a id))) confirmationWindow prevNode cache in
        let* state :=
          match stop with
          | None => Ok ThresholdDefined
          | Some id =>
              match cache !! bn_hash (deref a id) with
              | Some state => Ok state
              | None => Err (AssertError "thresholdState: cache lookup failed")
              end
          end in
        applyWindows confirmationWindow (rev needed) state cache s
  end.
End Transitions.

(** ** Deployments as checkers *)

Definition vbTopBits : Z := 0x20000000.
Definition vbTopMask : Z := 0xe0000000.
Definition vbNumBits : nat := 29.

(** A vote for a bit in a version. *)
Definition votesFor (version bit : Z) : bool :=
  let version := u32 version in
  (Z.land version vbTopMask =? vbTopBits) && negb (Z.land version (u32 (Z.shiftl 1 bit)) =? 0).

Section Votes.
Context (DoubleHash : list Z -> list Z) (bi : blockIndex) (vp : VoteParams).
Abbreviation a := (bi_nodes bi).

Definition PastMedianTime (blockHeader : BlockHeader) : outcome chainErr Z :=
  match LookupNode bi (bh_PrevBlock blockHeader) with
  | None => Err (AssertError "blockHeader has no previous node")
  | Some prevNode =>
      let (a', id) := newBlockNode DoubleHash a blockHeader (Some prevNode) in
      match CalcPastMedianTime a' id with Ok m => Ok m | _ => Panic end
  end.

(** MedianTimeDeploymentStarter.HasStarted, its error dropped. *)
Definition starter_HasStarted (startTime : option Z) (header : BlockHeader) : bool :=
  match startTime with
  | None => true
  | Some t => match PastMedianTime header with Ok m => t <=? m | _ => false end
  end.
Definition ender_HasEnded (endTime : option Z) (header : BlockHeader) : bool :=
  match endTime with
  | None => false
  | Some t => match PastMedianTime header with Ok m => t <=? m | _ => false end
  end.

Definition deploymentChecker (d : ConsensusDeployment) : thresholdConditionChecker unit :=
  mkChecker unit
    (fun id => starter_HasStarted (StartTime d) (Header a id))
    (fun id => ender_HasEnded (EndTime d) (Header a id))
    (if negb (CustomActivationThreshold d =? 0) then CustomActivationThreshold d else RuleChangeActivationThreshold vp)
    (MinerConfirmationWindow vp)
    (fun id => if MinActivationHeight d =? 0 then true
               else MinActivationHeight d <=? u32 (u32 (height_of a id) + 1))
    (negb (MinActivationHeight d =? 0) || negb (CustomActivationThreshold d =? 0))
    (fun s id => Ok (votesFor (bn_version (deref a id)) (BitNumber d), s)).

(** The state of one deployment, in its cache. *)
Definition stateOf (d : ConsensusDeployment) (cache : stateCache) (prevNode : option nat)
  : outcome chainErr (ThresholdState * stateCache) :=
  let* (r, _) := thresholdState (deploymentChecker d) a prevNode cache tt in Ok r.

Definition deploymentState (caches : list stateCache) (prevNode : option nat) (deploymentID : Z)
  : outcome chainErr (ThresholdState * list stateCache) :=
  if u32 (len (Deployments vp)) <? deploymentID then Err (AssertError "deployment ID does not exist")
  else
    let* d := get_at (Deployments vp) deploymentID in
    let* cache := get_at caches deploymentID in
    let* (state, cache) := stateOf d cache prevNode in
    let* caches := set_at caches deploymentID cache in
    Ok (state, caches).

Fixpoint nextVersion_loop (ds : list ConsensusDeployment) (caches : list stateCache) (prevNode : option nat) (version : Z)
  : outcome chainErr (Z * list stateCache) :=
  match ds with
  | [] => Ok (version, caches)
  | d :: ds' =>
      match caches with
      | [] => Panic
      | cache :: caches' =>
          let* (state, cache) := stateOf d cache prevNode in
          let version :=
            match state with
            | ThresholdStarted | ThresholdLockedIn => Z.lor version (u32 (Z.shiftl 1 (BitNumber d)))
            | _ => version
            end in
          let* (version, caches') := nextVersion_loop ds' caches' prevNode version in
          Ok (version, cache :: caches')
      end
  end.

Definition calcNextBlockVersion (caches : list stateCache) (prevNode : option nat) : outcome chainErr (Z * list stateCache) :=
  let* (version, caches) := nextVersion_loop (Deployments vp) caches prevNode vbTopBits in
  Ok (i32 version, caches).

(** Votes for a bit that no deployment asked for; the expected version is
    computed on the way. *)
Definition bitConditionChecker (bit : Z) : thresholdConditionChecker (list stateCache) :=
  mkChecker (list stateCache) (fun _ => true) (fun _ => false)
    (RuleChangeActivationThreshold vp) (MinerConfirmationWindow vp) (fun _ => true) false
    (fun caches id =>
       let conditionMask := u32 (Z.shiftl 1 bit) in
       let version := u32 (bn_version (deref a id)) in
       if negb (Z.land version vbTopMask =? vbTopBits) then Ok (false, caches)
       else if Z.land version conditionMask =? 0 then Ok (false, caches)
       else
         let* (expectedVersion, caches) := calcNextBlockVersion caches (bn_parent (deref a id)) in
         Ok (Z.land (u32 expectedVersion) conditionMask =? 0, caches)).

(** The loops over the bits: the states of the warning caches from bit [bit] on. *)
Fixpoint warningStates (warnings : list stateCache) (bit : Z) (prevNode : option nat) (caches : list stateCache)
  : outcome chainErr (list ThresholdState * list stateCache * list stateCache) :=
  match warnings with
  | [] => Ok ([], [], caches)
  | cache :: warnings' =>
      let* (r, caches) := thresholdState (bitConditionChecker bit) a prevNode cache caches in
      let (state, cache) := r in
      let* (r, caches) := warningStates warnings' (bit + 1) prevNode caches in
      let (states, warnings') := r in
      Ok (state :: states, cache :: warnings', caches)
  end.

(** Whether unknown rules are reported active, with the caches. *)
Definition warnUnknownRuleActivations (warned : bool) (warnings caches : list stateCache) (node : nat)
  : outcome chainErr (bool * list stateCache * list stateCache) :=
  let* (r, caches) := warningStates warnings 0 (bn_parent (deref a node)) caches in
  let (states, warnings) := r in
  Ok (warned || existsb (fun st => match st with ThresholdActive => true | _ => false end) states, warnings, caches).

Fixpoint fillDeployments (ds : list ConsensusDeployment) (caches : list stateCache) (prevNode : option nat)
  : outcome chainErr (list stateCache) :=
  match ds, caches with
  | d :: ds', cache :: caches' =>
      let* (_, cache) := stateOf d cache prevNode in
      let* caches' := fillDeployments ds' caches' prevNode in
      Ok (cache :: caches')
  | [], _ => Ok caches
  | _ :: _, [] => Panic
  end.

Definition initThresholdCaches (isCurrent warned : bool) (warnings caches : list stateCache) (tip : nat)
  : outcome chainErr (bool * list stateCache * list stateCache) :=
  let prevNode := bn_parent (deref a tip) in
  let* (r, caches) := warningStates warnings 0 prevNode caches in
  let* caches := fillDeployments (Deployments vp) caches prevNode in
  if isCurrent then warnUnknownRuleActivations warned (snd r) caches tip else Ok (warned, snd r, caches).
End Votes.

(** ** The reference: BIP 9

    The state after a window is the transition of the state after the window
    before, with no cache.  Before its start time a deployment is defined.  The
    text of BIP 9 looks at the end time first, which differs only for a start
    time after the end time, as the test dummy of the main network has it: the
    code leaves such a deployment defined. *)

(** The last block of the window before the one that ends with [id]. *)
Definition prevWindow (a : arena) (w : Z) (id : nat) : option nat :=
  if height_of a id <? w then None else ancestorAt a id (height_of a id - w).

(** The votes of the window that ends with [id]. *)
Definition tally (a : arena) (votes : nat -> bool) (w : Z) (id : nat) : Z :=
  len (List.filter votes (firstn (Z.to_nat w) (branch_of a id))).

(** How a state may change from one window to a later one. *)
Definition advances (st st' : ThresholdState) : Prop :=
  match st with
  | ThresholdDefined => True
  | ThresholdStarted => st' <> ThresholdDefined
  | ThresholdLockedIn => st' = ThresholdLockedIn \/ st' = ThresholdActive
  | _ => st' = st
  end.

Definition resolved (st : ThresholdState) : Prop :=
  st = ThresholdLockedIn \/ st = ThresholdActive \/ st = ThresholdFailed.

Lemma advances_refl st : advances st st.
Proof. destruct st; cbn; auto; discriminate. Qed.

Lemma advances_trans st1 st2 st3 : advances st1 st2 -> advances st2 st3 -> advances st1 st3.
Proof. destruct st1, st2, st3; cbn; intuition congruence. Qed.
Section Reference.
Context {St : Type} (checker : thresholdConditionChecker St) (a : arena) (votes : nat -> bool).
Abbreviation w := (ck_Window checker).

Definition bip9Step (st : ThresholdState) (id : nat) : ThresholdState :=
  match st with
  | ThresholdDefined =>
      if negb (HasStarted checker id) then ThresholdDefined
      else if negb (IsSpeedy checker) && HasEnded checker id then ThresholdFailed else ThresholdStarted
  | ThresholdStarted =>
      if negb (IsSpeedy checker) && HasEnded checker id then ThresholdFailed
      else if ck_Threshold checker <=? tally a votes w id then ThresholdLockedIn
      else if IsSpeedy checker && HasEnded checker id then ThresholdFailed else ThresholdStarted
  | ThresholdLockedIn => if EligibleToActivate checker id then ThresholdActive else ThresholdLockedIn
  | st => st
  end.

Fixpoint bip9_rec (fuel : nat) (id : nat) : ThresholdState :=
  match fuel with
  | O => ThresholdDefined
  | S fuel' =>
      bip9Step (match prevWindow a w id with None => ThresholdDefined | Some q => bip9_rec fuel' q end) id
  end.

(** The state after the window that ends with [id]. *)
Definition bip9 (id : nat) : ThresholdState := bip9_rec (S (Z.to_nat (height_of a id))) id.

(** The last block of a complete window up to [id]. *)
Definition windowEnd (id : nat) : option nat :=
  if height_of a id + 1 <? w then None
  else ancestorAt a id (height_of a id - (height_of a id + 1) mod w).

(** The state of the block after [id]. *)
Definition bip9After (id : nat) : ThresholdState :=
  match windowEnd id with None => ThresholdDefined | Some e => bip9 e end.

(** What the transitions rely on: a condition is a vote, and the start time is
    not undone by later blocks. *)
Class CheckerLaws (Inv : St -> Prop) : Prop := {
  cl_window : 0 < w < 2 ^ 31;
  cl_condition : forall s id, Inv s -> (id < List.length a)%nat ->
    exists s', Condition checker s id = Ok (votes id, s') /\ Inv s';
  cl_started : forall id anc, (id < List.length a)%nat -> (anc < List.length a)%nat -> on_branch a id anc ->
    HasStarted checker anc = true -> HasStarted checker id = true
}.

Context (Inv : St -> Prop) {laws : CheckerLaws Inv}.
Hypothesis Hw : arena_wf a.
(** Hashes identify nodes. *)
Hypothesis Hinj : forall id id', (id < List.length a)%nat -> (id' < List.length a)%nat ->
  bn_hash (deref a id) = bn_hash (deref a id') -> id = id'.

Lemma prevWindow_spec id q : (id < List.length a)%nat -> prevWindow a w id = Some q ->
  (q < List.length a)%nat /\ height_of a q = height_of a id - w /\ on_branch a id q.
Proof.
  intros Hid H. unfold prevWindow in H. pose proof cl_window as Hwin. destruct (Z.ltb_spec (height_of a id) w); [discriminate|].
  destruct (ancestorAt_spec a id (height_of a id - w) Hw Hid ltac:(lia)) as (x & E & Hx & _ & Hh). rewrite E in H. injection H as <-.
  split; [exact Hx|]. split; [exact Hh|]. split; [lia | now rewrite Hh].
Qed.

Lemma bip9_rec_fuel f1 : forall f2 id, (id < List.length a)%nat ->
  (Z.to_nat (height_of a id) < f1)%nat -> (Z.to_nat (height_of a id) < f2)%nat -> bip9_rec f1 id = bip9_rec f2 id.
Proof.
  pose proof cl_window as Hwin. induction f1 as [|f1 IH]; intros [|f2] id Hid H1 H2; try lia. cbn [bip9_rec].
  destruct (prevWindow a w id) as [q|] eqn:E; [|reflexivity]. destruct (prevWindow_spec id q Hid E) as (Hq & Hh & _).
  pose proof (aw_height a Hw q Hq). f_equal. apply IH; [exact Hq | lia | lia].
Qed.

Lemma bip9_eq id : (id < List.length a)%nat ->
  bip9 id = bip9Step (match prevWindow a w id with None => ThresholdDefined | Some q => bip9 q end) id.
Proof.
  pose proof cl_window as Hwin. intros Hid. unfold bip9 at 1. cbn [bip9_rec].
  destruct (prevWindow a w id) as [q|] eqn:E; [|reflexivity]. destruct (prevWindow_spec id q Hid E) as (Hq & Hh & _).
  pose proof (aw_height a Hw q Hq). f_equal. apply bip9_rec_fuel; [exact Hq | lia | lia].
Qed.

(** Before the start time the state is defined. *)
Lemma bip9_not_started id : (id < List.length a)%nat -> HasStarted checker id = false -> bip9 id = ThresholdDefined.
Proof.
  pose proof cl_window as Hwin. remember (Z.to_nat (height_of a id)) as n eqn:En. revert id En.
  induction (lt_wf n) as [n _ IH]. intros id En Hid Hs. rewrite (bip9_eq id Hid).
  assert (Hp : match prevWindow a w id with None => ThresholdDefined | Some q => bip9 q end = ThresholdDefined).
  { destruct (prevWindow a w id) as [q|] eqn:E; [|reflexivity]. destruct (prevWindow_spec id q Hid E) as (Hq & Hh & Hb).
    pose proof (aw_height a Hw q Hq). apply (IH (Z.to_nat (height_of a q))); [lia | reflexivity | exact Hq|].
    destruct (HasStarted checker q) eqn:Eq; [|reflexivity]. rewrite (cl_started id q Hid Hq Hb Eq) in Hs. discriminate. }
  rewrite Hp. cbn [bip9Step]. now rewrite Hs.
Qed.

(** Counting follows the parents. *)
Lemma countVotes_spec n : forall s id count, Inv s -> (id < List.length a)%nat -> (Z.of_nat n <= height_of a id + 1) ->
  0 <= count -> count + Z.of_nat n < 2 ^ 32 ->
  exists s', countVotes checker a n s (Some id) count =
    Ok (count + len (List.filter votes (firstn n (branch_of a id))), s') /\ Inv s'.
Proof.
  induction n as [|n IH]; intros s id count Hs Hid Hn Hc Hb.
  - exists s. cbn. now rewrite Z.add_0_r.
  - cbn [countVotes]. destruct (cl_condition s id Hs Hid) as (s1 & -> & Hs1). cbn [obind].
    assert (Hc' : (if votes id then u32 (count + 1) else count) = count + (if votes id then 1 else 0)).
    { destruct (votes id); [apply u32_id; unfold is_u32; lia | lia]. }
    rewrite Hc'. destruct (bn_parent (deref a id)) as [p|] eqn:Ep.
    + rewrite (branch_of_parent a id p Hw Hid Ep). destruct (height_parent a id p Hw Hid Ep) as (_ & Hp & Hh).
      destruct (IH s1 p (count + (if votes id then 1 else 0)) Hs1 Hp) as (s2 & E & Hs2); [lia | destruct (votes id); lia.. |].
      exists s2. rewrite E. split; [|exact Hs2]. f_equal. f_equal. cbn [firstn List.filter].
      destruct (votes id); rewrite ?len_cons; lia.
    + rewrite (branch_of_root a id Hw Hid Ep). pose proof (height_root a id Hw Hid Ep). assert (n = O) as -> by lia.
      exists s1. cbn [countVotes firstn List.filter]. split; [|exact Hs1]. f_equal. f_equal.
      now destruct (votes id).
Qed.

Lemma transition_spec s st id : Inv s -> (id < List.length a)%nat -> w <= height_of a id + 1 -> HasStarted checker id = true ->
  exists s', thresholdStateTransition checker a s st id w = Ok (bip9Step st id, s') /\ Inv s'.
Proof.
  intros Hs Hid Hh Hst. pose proof cl_window as Hwin. destruct st; cbn [thresholdStateTransition bip9Step].
  - rewrite Hst. cbn [negb]. destruct (negb (IsSpeedy checker) && HasEnded checker id); eauto.
  - destruct (negb (IsSpeedy checker) && HasEnded checker id); [eauto|].
    destruct (countVotes_spec (Z.to_nat w) s id 0 Hs Hid) as (s' & -> & Hs'); try lia. cbn [obind].
    fold (tally a votes w id). rewrite Z.add_0_l. destruct (_ <=? _); [eauto|]. destruct (_ && _); eauto.
  - destruct (EligibleToActivate checker id); cbn [negb]; eauto.
  - eauto.
  - eauto.
Qed.

(** A cache holds states of the reference. *)
Definition cache_ok (cache : stateCache) : Prop :=
  forall hash st, cache !! hash = Some st -> exists id, (id < List.length a)%nat /\ bn_hash (deref a id) = hash /\ st = bip9 id.

Lemma cache_ok_lookup cache id st : cache_ok cache -> (id < List.length a)%nat ->
  cache !! bn_hash (deref a id) = Some st -> st = bip9 id.
Proof. intros Hc Hid H. destruct (Hc _ _ H) as (id' & Hid' & E & ->). now rewrite (Hinj id' id Hid' Hid E). Qed.

Lemma cache_ok_insert cache id : cache_ok cache -> (id < List.length a)%nat ->
  cache_ok (<[bn_hash (deref a id) := bip9 id]> cache).
Proof.
  intros Hc Hid hash st H. apply lookup_insert_Some in H. destruct H as [[<- <-]|[_ H]]; [now exists id | now apply Hc].
Qed.

Lemma cache_ok_empty : cache_ok ∅.
Proof. intros hash st H. now rewrite lookup_empty in H. Qed.

Lemma applyWindows_app l1 : forall l2 st cache s,
  applyWindows checker a w (l1 ++ l2) st cache s =
  (let* (r, s) := applyWindows checker a w l1 st cache s in let (st, cache) := r in applyWindows checker a w l2 st cache s).
Proof.
  induction l1 as [|id l1 IH]; intros l2 st cache s; [reflexivity|]. cbn [app applyWindows].
  destruct (thresholdStateTransition checker a s st id w) as [[st1 s1]| |]; cbn [obind]; [apply IH | reflexivity | reflexivity].
Qed.

Lemma neededWindows_None fuel cache : neededWindows checker a fuel w None cache = ([], None, cache).
Proof. now destruct fuel. Qed.

(** The search and the transitions together compute the reference. *)
Lemma windows_spec s fuel : forall id cache, Inv s -> (id < List.length a)%nat -> w <= height_of a id + 1 ->
  (height_of a id + 1) mod w = 0 -> (Z.to_nat (height_of a id) < fuel)%nat -> cache_ok cache ->
  let '(needed, stop, cache1) := neededWindows checker a fuel w (Some id) cache in
  exists st0 cache2 s2,
    match stop with None => st0 = ThresholdDefined | Some q => cache1 !! bn_hash (deref a q) = Some st0 end /\
    applyWindows checker a w (rev needed) st0 cache1 s = Ok (bip9 id, cache2, s2) /\ cache_ok cache2 /\ Inv s2.
Proof.
  pose proof cl_window as Hwin. induction fuel as [|fuel IH]; intros id cache Hs Hid Hh Hm Hf Hc; [lia|].
  cbn [neededWindows]. destruct (cache !! bn_hash (deref a id)) as [st|] eqn:Ec.
  { exists st, cache, s. rewrite <- (cache_ok_lookup cache id st Hc Hid Ec). auto. }
  destruct (HasStarted checker id) eqn:Es; cbn [negb].
  2: { exists ThresholdDefined, (<[bn_hash (deref a id) := ThresholdDefined]> cache), s. rewrite lookup_insert_eq.
       rewrite <- (bip9_not_started id Hid Es). split; [reflexivity|]. split; [reflexivity|]. split; [|exact Hs].
       now apply cache_ok_insert. }
  pose proof (aw_height a Hw id Hid) as Hhid. unfold maxHeight in Hhid.
  assert (Hra : RelativeAncestor a id w = prevWindow a w id).
  { unfold RelativeAncestor, prevWindow. rewrite i32_id by (unfold is_i32; lia).
    destruct (Z.ltb_spec (height_of a id) w).
    - unfold Ancestor. now decide_cmp.
    - rewrite Ancestor_eq by assumption. now decide_cmp. }
  rewrite Hra. assert (Hlast : forall st0 c s', Inv s' -> cache_ok c -> bip9Step st0 id = bip9 id ->
    exists cache2 s2, applyWindows checker a w [id] st0 c s' = Ok (bip9 id, cache2, s2) /\ cache_ok cache2 /\ Inv s2).
  { intros st0 c s' Hs' Hc' Hst. cbn [applyWindows]. destruct (transition_spec s' st0 id Hs' Hid Hh Es) as (s2 & -> & Hs2).
    cbn [obind]. rewrite Hst. eexists _, s2. split; [reflexivity|]. split; [now apply cache_ok_insert | exact Hs2]. }
  destruct (prevWindow a w id) as [q|] eqn:Ep.
  - destruct (prevWindow_spec id q Hid Ep) as (Hq & Hhq & _).
    assert (Hm' : (height_of a q + 1) mod w = 0).
    { rewrite Hhq, <- (Z.mod_add _ 1 w) by lia. rewrite <- Hm. f_equal. lia. }
    assert (Hhq' : w <= height_of a q + 1).
    { apply Z.mod_divide in Hm'; [|lia]. destruct Hm' as [k Hk]. pose proof (aw_height a Hw q Hq).
      assert (1 <= k) by nia. nia. }
    specialize (IH q cache Hs Hq Hhq' Hm' ltac:(lia) Hc).
    destruct (neededWindows checker a fuel w (Some q) cache) as [[needed stop] cache1].
    destruct IH as (st0 & cache2 & s2 & Hst & E & Hc2 & Hs2). exists st0. cbn [rev].
    destruct (Hlast (bip9 q) cache2 s2 Hs2 Hc2) as (c3 & s3 & E3 & Hc3 & Hs3); [now rewrite (bip9_eq id Hid), Ep|].
    exists c3, s3. split; [exact Hst|]. rewrite applyWindows_app, E. cbn [obind]. auto.
  - rewrite neededWindows_None. cbn [rev app]. destruct (Hlast ThresholdDefined cache s Hs Hc) as (c3 & s3 & E3 & Hc3 & Hs3);
      [now rewrite (bip9_eq id Hid), Ep|]. exists ThresholdDefined, c3, s3. auto.
Qed.

(** The end of a window is found in it. *)
Lemma windowEnd_spec id : (id < List.length a)%nat ->
  match windowEnd id with
  | None => height_of a id + 1 < w
  | Some e => (e < List.length a)%nat /\ on_branch a id e /\ w <= height_of a e + 1 /\ (height_of a e + 1) mod w = 0 /\
      height_of a e = height_of a id - (height_of a id + 1) mod w
  end.
Proof.
  intros Hid. pose proof cl_window as Hwin. unfold windowEnd. destruct (Z.ltb_spec (height_of a id + 1) w) as [H|H]; [exact H|].
  pose proof (Z.mod_pos_bound (height_of a id + 1) w ltac:(lia)) as Hm.
  pose proof (Z.div_mod (height_of a id + 1) w ltac:(lia)) as Hd. set (m := (height_of a id + 1) mod w) in *.
  set (q := (height_of a id + 1) / w) in *. assert (1 <= q) by nia.
  destruct (ancestorAt_spec a id (height_of a id - m) Hw Hid ltac:(nia)) as (e & E & He & _ & Hh). rewrite E.
  assert (Hwq : height_of a e + 1 = q * w) by lia.
  split; [exact He|]. split; [split; [lia | now rewrite Hh]|]. split; [nia|]. split; [|exact Hh].
  rewrite Hwq. apply Z.mod_mul. lia.
Qed.

(** The cached computation is the reference, and keeps the cache right. *)
Lemma thresholdState_spec s id cache : Inv s -> (id < List.length a)%nat -> height_of a id < maxHeight -> cache_ok cache ->
  exists cache' s', thresholdState checker a (Some id) cache s = Ok (bip9After id, cache', s') /\ cache_ok cache' /\ Inv s'.
Proof.
  intros Hs Hid Hmax Hc. pose proof cl_window as Hwin. pose proof (aw_height a Hw id Hid) as Hh. unfold maxHeight in *.
  pose proof (windowEnd_spec id Hid) as He. unfold thresholdState, bip9After. rewrite (i32_id w), (i32_id (height_of a id + 1)) by (unfold is_i32; lia).
  unfold windowEnd in *. destruct (Z.ltb_spec (height_of a id + 1) w) as [H|H]; [eauto|].
  decide_cmp. rewrite Z.rem_mod_nonneg by lia. pose proof (Z.mod_pos_bound (height_of a id + 1) w ltac:(lia)) as Hm.
  rewrite i32_id by (unfold is_i32; lia). set (m := (height_of a id + 1) mod w) in *.
  destruct (ancestorAt a id (height_of a id - m)) as [e|] eqn:E; [|lia]. destruct He as (He & _ & Hwe & Hme & Hhe).
  pose proof (aw_height a Hw e He).
  assert (HA : Ancestor a id (height_of a id - m) = Some e) by (rewrite Ancestor_eq by assumption; now decide_cmp).
  rewrite HA. pose proof (windows_spec s (S (Z.to_nat (height_of a id))) e cache Hs He Hwe Hme ltac:(lia) Hc) as Hws.
  destruct (neededWindows checker a _ w (Some e) cache) as [[needed stop] cache1].
  destruct Hws as (st0 & cache2 & s2 & Hst & Ea & Hc2 & Hs2). exists cache2, s2.
  destruct stop as [q|]; [rewrite Hst|subst st0]; cbn [obind]; auto.
Qed.

(** *** The life of a deployment *)

Lemma bip9Step_advances st id : advances st (bip9Step st id).
Proof.
  destruct st; cbn [bip9Step advances]; auto; [|destruct (EligibleToActivate checker id); auto].
  destruct (negb _ && _); [discriminate|]. destruct (_ <=? _); [discriminate|]. destruct (_ && _); discriminate.
Qed.

Lemma bip9_advances n : forall id e, Z.to_nat (height_of a id) = n -> (id < List.length a)%nat -> (e < List.length a)%nat ->
  (height_of a id + 1) mod w = 0 -> (height_of a e + 1) mod w = 0 -> on_branch a id e -> advances (bip9 e) (bip9 id).
Proof.
  pose proof cl_window as Hwin. induction (lt_wf n) as [n _ IH]. intros id e Hn Hid He Hmi Hme [Hle Hb].
  destruct (Z.eq_dec (height_of a e) (height_of a id)) as [E|Hne].
  { rewrite E, ancestorAt_self in Hb. injection Hb as <-. apply advances_refl. }
  pose proof (aw_height a Hw e He) as Hhe.
  assert (Hw1 : height_of a e <= height_of a id - w).
  { apply Z.mod_divide in Hmi, Hme; try lia. destruct Hmi as [k Hk], Hme as [j Hj]. assert (j < k) by nia. nia. }
  assert (Hp : exists q, prevWindow a w id = Some q).
  { unfold prevWindow. decide_cmp. destruct (ancestorAt_spec a id (height_of a id - w) Hw Hid ltac:(lia)) as (q & E & _). eauto. }
  destruct Hp as [q Eq]. destruct (prevWindow_spec id q Hid Eq) as (Hq & Hhq & Hbq).
  apply (advances_trans _ (bip9 q)); [|rewrite (bip9_eq id Hid), Eq; apply bip9Step_advances].
  apply (IH (Z.to_nat (height_of a q))); [lia | reflexivity | exact Hq | exact He | | exact Hme|].
  - rewrite Hhq, <- (Z.mod_add _ 1 w), <- Hmi by lia. f_equal. lia.
  - apply (on_branch_below a id q e Hw Hid Hq He Hbq (conj Hle Hb)). lia.
Qed.

(** Along a branch the state only moves forward. *)
Lemma bip9After_advances id anc : (id < List.length a)%nat -> (anc < List.length a)%nat -> on_branch a id anc ->
  advances (bip9After anc) (bip9After id).
Proof.
  intros Hid Hanc Hb. pose proof cl_window as Hwin. pose proof (windowEnd_spec id Hid) as Hi. pose proof (windowEnd_spec anc Hanc) as Ha.
  pose proof Hb as [Hle _]. unfold bip9After. destruct (windowEnd anc) as [e|]; [|exact I].
  destruct Ha as (He & Hbe & Hwe & Hme & Hhe). pose proof (Z.mod_pos_bound (height_of a anc + 1) w ltac:(lia)).
  destruct (windowEnd id) as [e'|]; [|lia]. destruct Hi as (He' & Hbe' & _ & Hme' & Hhe').
  apply (bip9_advances _ e' e eq_refl He' He Hme' Hme).
  apply (on_branch_below a id e' e Hw Hid He' He Hbe' (on_branch_trans a id anc e Hw Hid Hanc He Hb Hbe)).
  rewrite Hhe, Hhe'. pose proof (Z.mod_pos_bound (height_of a id + 1) w ltac:(lia)).
  pose proof (Z.div_mod (height_of a id + 1) w ltac:(lia)). pose proof (Z.div_mod (height_of a anc + 1) w ltac:(lia)).
  pose proof (Z.div_le_mono (height_of a anc + 1) (height_of a id + 1) w ltac:(lia) ltac:(lia)). nia.
Qed.

(** A deployment whose end time has passed for a whole window is decided. *)
Lemma bip9_resolved id q : (id < List.length a)%nat -> prevWindow a w id = Some q ->
  HasStarted checker q = true -> HasEnded checker q = true -> HasEnded checker id = true -> resolved (bip9 id).
Proof.
  intros Hid Eq Hs Hq He. destruct (prevWindow_spec id q Hid Eq) as (Hql & _ & _). rewrite (bip9_eq id Hid), Eq.
  rewrite (bip9_eq q Hql).
  set (st := match prevWindow a w q with None => ThresholdDefined | Some r => bip9 r end). unfold resolved.
  assert (Hcases : forall st', st' = ThresholdStarted \/ resolved st' -> resolved (bip9Step st' id)).
  { intros st' [->|[->|[->| ->]]]; cbn [bip9Step]; unfold resolved; auto; [|destruct (EligibleToActivate checker id); auto].
    rewrite He, !andb_true_r. destruct (IsSpeedy checker); cbn [negb]; [|auto]. destruct (_ <=? _); auto. }
  apply Hcases. unfold resolved. destruct st; cbn [bip9Step]; auto; [| |destruct (EligibleToActivate checker q); auto].
  - rewrite Hq, Hs, andb_true_r. cbn [negb]. destruct (IsSpeedy checker); auto.
  - destruct (negb _ && _); [auto|]. destruct (_ <=? _); [auto|]. destruct (_ && _); auto.
Qed.

(** Votes cannot exceed the window. *)
Lemma tally_le id : tally a votes w id <= w.
Proof.
  pose proof cl_window. unfold tally, len. pose proof (List.filter_length_le votes (firstn (Z.to_nat w) (branch_of a id))).
  rewrite length_firstn in H0. lia.
Qed.

(** With a threshold above the window nothing is ever locked in. *)
Lemma bip9_unreachable n : w < ck_Threshold checker -> forall id, Z.to_nat (height_of a id) = n -> (id < List.length a)%nat ->
  bip9 id <> ThresholdLockedIn /\ bip9 id <> ThresholdActive.
Proof.
  intros Ht. pose proof cl_window as Hwin. induction (lt_wf n) as [n _ IH]. intros id Hn Hid. rewrite (bip9_eq id Hid).
  set (st := match prevWindow a w id with None => ThresholdDefined | Some q => bip9 q end).
  assert (Hst : st <> ThresholdLockedIn /\ st <> ThresholdActive).
  { unfold st. destruct (prevWindow a w id) as [q|] eqn:Eq; [|split; discriminate].
    destruct (prevWindow_spec id q Hid Eq) as (Hq & Hh & _). pose proof (aw_height a Hw q Hq).
    apply (IH (Z.to_nat (height_of a q))); [lia | reflexivity | exact Hq]. }
  pose proof (tally_le id). destruct st; cbn [bip9Step]; try (now destruct Hst); try (split; discriminate).
  - destruct (negb (HasStarted checker id)); [split; discriminate|]. destruct (negb _ && _); split; discriminate.
  - destruct (negb _ && _); [split; discriminate|]. decide_cmp. destruct (_ && _); split; discriminate.
Qed.
End Reference.

(** ** Deployments satisfy the laws *)

(** The time rule of blocks: a block is later than the median time before it. *)
Definition timely (a : arena) : Prop :=
  forall id p m, (id < List.length a)%nat -> bn_parent (deref a id) = Some p ->
    CalcPastMedianTime a p = Ok m -> m < bn_timestamp (deref a id).

(** A start time is not after the end time. *)
Definition deployment_ok (d : ConsensusDeployment) : Prop :=
  match StartTime d, EndTime d with Some s, Some e => s <= e | _, _ => True end.

Record votes_ok (vp : VoteParams) : Prop := {
  vo_window : 0 < MinerConfirmationWindow vp < 2 ^ 31;
  vo_count : len (Deployments vp) < 2 ^ 32
}.

Record tree_ok (bi : blockIndex) : Prop := {
  to_wf : arena_wf (bi_nodes bi);
  to_index : index_ok bi;
  to_zero : LookupNode bi zeroHash = None;
  to_timely : timely (bi_nodes bi)
}.

Section DeploymentLaws.
Context (DH : list Z -> list Z) (bi : blockIndex) (vp : VoteParams).
Hypothesis Htree : tree_ok bi.
Hypothesis Hvp : votes_ok vp.
Abbreviation a := (bi_nodes bi).

Lemma tree_wf : arena_wf a.
Proof. exact (to_wf bi Htree). Qed.

Lemma tree_inj id id' : (id < List.length a)%nat -> (id' < List.length a)%nat ->
  bn_hash (deref a id) = bn_hash (deref a id') -> id = id'.
Proof. apply hash_inj, (to_index bi Htree). Qed.

(** The median time of a header is that of its node. *)
Lemma PastMedianTime_node id : (id < List.length a)%nat ->
  match bn_parent (deref a id) with
  | None => PastMedianTime DH bi (Header a id) = Err (AssertError "blockHeader has no previous node")
  | Some _ => exists m, PastMedianTime DH bi (Header a id) = Ok m /\ CalcPastMedianTime a id = Ok m
  end.
Proof.
  intros Hid. unfold PastMedianTime, Header. cbn [bh_PrevBlock]. destruct (bn_parent (deref a id)) as [p|] eqn:Ep.
  - destruct (height_parent a id p tree_wf Hid Ep) as (_ & Hp & _). rewrite (io_complete bi (to_index bi Htree) p Hp).
    unfold newBlockNode. set (n := initBlockNode _ _ _ _). destruct (median_total a id) as [m Hm]. exists m. split; [|exact Hm].
    assert (Hd : deref (a ++ [n]) (List.length a) = n) by (unfold deref; now rewrite app_nth2, Nat.sub_diag by lia).
    assert (E : timestamps medianTimeBlocks (a ++ [n]) (Some (List.length a)) = timestamps medianTimeBlocks a (Some id)).
    { unfold medianTimeBlocks. rewrite !timestamps_S, Hd, Ep. f_equal. apply (timestamps_app a [n] 10 p tree_wf Hp). }
    unfold CalcPastMedianTime in *. now rewrite E, Hm.
  - now rewrite (to_zero bi Htree).
Qed.

(** The median time grows along a branch. *)
Lemma median_branch n : forall id anc m, Z.to_nat (height_of a id - height_of a anc) = n ->
  (id < List.length a)%nat -> (anc < List.length a)%nat -> on_branch a id anc -> CalcPastMedianTime a anc = Ok m ->
  exists m', CalcPastMedianTime a id = Ok m' /\ m <= m'.
Proof.
  pose proof tree_wf as Hw. induction n as [|n IH]; intros id anc m Hn Hid Hanc [Hle Hb] Hm.
  - assert (E : height_of a anc = height_of a id) by lia. rewrite E, ancestorAt_self in Hb. injection Hb as ->.
    exists m. split; [exact Hm | lia].
  - destruct (bn_parent (deref a id)) as [p|] eqn:Ep.
    + destruct (height_parent a id p Hw Hid Ep) as (_ & Hp & Hh).
      destruct (IH p anc m ltac:(lia) Hp Hanc) as (m1 & Hm1 & Hle1); [|exact Hm|].
      * destruct (proj1 (on_branch_parent a id p anc Hw Hid Ep) (conj Hle Hb)) as [->|H]; [lia | exact H].
      * destruct (median_step a id p m1 Ep Hm1) as (m2 & Hm2 & Hle2);
          [pose proof (to_timely bi Htree id p m1 Hid Ep Hm1); lia|].
        exists m2. split; [exact Hm2 | lia].
    + pose proof (height_root a id Hw Hid Ep). pose proof (aw_height a Hw anc Hanc). lia.
Qed.

(** A time that the median time has reached stays reached. *)
Lemma reached_time t id anc : (id < List.length a)%nat -> (anc < List.length a)%nat -> on_branch a id anc ->
  match PastMedianTime DH bi (Header a anc) with Ok m => t <=? m | _ => false end = true ->
  match PastMedianTime DH bi (Header a id) with Ok m => t <=? m | _ => false end = true.
Proof.
  intros Hid Hanc Hb H. pose proof tree_wf as Hw. pose proof (PastMedianTime_node anc Hanc) as Ha.
  destruct (bn_parent (deref a anc)) as [p|] eqn:Ep; [|rewrite Ha in H; discriminate].
  destruct Ha as (m & E & Hm). rewrite E in H. destruct (median_branch _ id anc m eq_refl Hid Hanc Hb Hm) as (m' & Hm' & Hle).
  pose proof (PastMedianTime_node id Hid) as Hi. destruct (bn_parent (deref a id)) as [q|] eqn:Eq.
  - destruct Hi as (m2 & E2 & Hm2). rewrite E2. rewrite Hm' in Hm2. injection Hm2 as <-. apply Z.leb_le in H. apply Z.leb_le. lia.
  - pose proof (height_root a id Hw Hid Eq). destruct (height_parent a anc p Hw Hanc Ep) as (_ & Hp & Hh).
    pose proof (aw_height a Hw p Hp). destruct Hb as [Hle' _]. lia.
Qed.

Definition votesOf (d : ConsensusDeployment) (id : nat) : bool := votesFor (bn_version (deref a id)) (BitNumber d).

Abbreviation checkerOf := (deploymentChecker DH bi vp).

Instance deployment_laws d : CheckerLaws (checkerOf d) a (votesOf d) (fun _ => True).
Proof.
  split.
  - exact (vo_window vp Hvp).
  - intros s id _ _. now exists s.
  - intros id anc Hid Hanc Hb. cbn [deploymentChecker HasStarted]. unfold starter_HasStarted.
    destruct (StartTime d) as [t|]; [now apply reached_time | reflexivity].
Qed.

(** Where a start time is not after the end time, what has ended has started. *)
Lemma ended_started d id : deployment_ok d -> HasEnded (checkerOf d) id = true -> HasStarted (checkerOf d) id = true.
Proof.
  intros Hd. cbn [deploymentChecker HasStarted HasEnded]. unfold starter_HasStarted, ender_HasEnded. unfold deployment_ok in Hd.
  destruct (StartTime d) as [t|]; [|reflexivity]. destruct (EndTime d) as [e|]; [|discriminate].
  destruct (PastMedianTime DH bi (Header a id)) as [m| |]; try discriminate.
  intros He. apply Z.leb_le in He. apply Z.leb_le. lia.
Qed.

Lemma ended_stays d id anc : (id < List.length a)%nat -> (anc < List.length a)%nat -> on_branch a id anc ->
  HasEnded (checkerOf d) anc = true -> HasEnded (checkerOf d) id = true.
Proof.
  intros Hid Hanc Hb. cbn [deploymentChecker HasEnded]. unfold ender_HasEnded.
  destruct (EndTime d) as [t|]; [now apply reached_time | discriminate].
Qed.

Lemma skipn_nth {A} (l : list A) i x : nth_error l i = Some x -> skipn i l = x :: skipn (S i) l.
Proof. revert i. induction l as [|y l IH]; intros [|i] H; try discriminate; cbn in *; [now injection H as -> | now apply IH]. Qed.

Lemma Forall2_nth {A B} (P : A -> B -> Prop) l l' i x y : Forall2 P l l' ->
  nth_error l i = Some x -> nth_error l' i = Some y -> P x y.
Proof.
  intros H. revert i. induction H as [|u v l l' Huv _ IH]; intros [|i] Hx Hy; try discriminate; cbn in *.
  - now injection Hx as <-; injection Hy as <-.
  - exact (IH i Hx Hy).
Qed.

(** The reference states of a deployment. *)
Definition deploymentBip9 (d : ConsensusDeployment) (prevNode : option nat) : ThresholdState :=
  match prevNode with None => ThresholdDefined | Some id => bip9After (checkerOf d) a (votesOf d) id end.

Definition node_ok (prevNode : option nat) : Prop :=
  match prevNode with None => True | Some id => (id < List.length a)%nat /\ height_of a id < maxHeight end.

Definition dcache_ok (d : ConsensusDeployment) : stateCache -> Prop := cache_ok (checkerOf d) a (votesOf d).

Lemma stateOf_spec d cache prevNode : node_ok prevNode -> dcache_ok d cache ->
  exists cache', stateOf DH bi vp d cache prevNode = Ok (deploymentBip9 d prevNode, cache') /\ dcache_ok d cache'.
Proof.
  intros Hn Hc. unfold stateOf. destruct prevNode as [id|]; [|now exists cache]. destruct Hn as [Hid Hh].
  destruct (thresholdState_spec (checkerOf d) a (votesOf d) (fun _ => True) tree_wf tree_inj tt id cache I Hid Hh Hc)
    as (cache' & s' & -> & Hc' & _). now exists cache'.
Qed.

Definition caches_ok (ds : list ConsensusDeployment) (caches : list stateCache) : Prop := Forall2 dcache_ok ds caches.

Lemma newThresholdCaches_ok ds : caches_ok ds (newThresholdCaches (List.length ds)).
Proof.
  unfold caches_ok, newThresholdCaches. induction ds as [|d ds IH]; constructor; [apply cache_ok_empty | exact IH].
Qed.

Lemma deploymentState_spec caches prevNode k d : node_ok prevNode -> caches_ok (Deployments vp) caches ->
  0 <= k -> nth_error (Deployments vp) (Z.to_nat k) = Some d ->
  exists caches', deploymentState DH bi vp caches prevNode k = Ok (deploymentBip9 d prevNode, caches') /\
    caches_ok (Deployments vp) caches'.
Proof.
  intros Hn Hc Hk Hd. unfold deploymentState. pose proof (vo_count vp Hvp) as Hlen.
  assert (Hlt : (Z.to_nat k < List.length (Deployments vp))%nat) by (apply nth_error_Some; congruence).
  rewrite u32_id by (unfold is_u32; pose proof (len_nonneg (Deployments vp)); lia). unfold len in *. decide_cmp.
  pose proof (Forall2_length _ _ _ Hc) as Hl.
  destruct (nth_error caches (Z.to_nat k)) as [cache|] eqn:Ec; [|apply nth_error_None in Ec; lia].
  unfold get_at. decide_cmp. rewrite Hd, Ec. cbn [obind].
  destruct (stateOf_spec d cache prevNode Hn (Forall2_nth _ _ _ _ _ _ Hc Hd Ec)) as (cache' & -> & Hc'). cbn [obind].
  assert (Hi : Z.to_nat (k + 1) = S (Z.to_nat k)) by lia. unfold set_at, len. decide_cmp. rewrite Hi.
  eexists. split; [reflexivity|]. unfold caches_ok.
  rewrite <- (firstn_skipn (Z.to_nat k) (Deployments vp)), (skipn_nth _ _ _ Hd). apply Forall2_app.
  - apply Forall2_take, Hc.
  - constructor; [exact Hc'|]. apply Forall2_drop, Hc.
Qed.

(** ** Versions and unknown rules *)

(** The version of the block after a node: a bit for every deployment that is
    being voted on or locked in. *)
Definition votingBits (ds : list ConsensusDeployment) (prevNode : option nat) (version : Z) : Z :=
  fold_left (fun v d => match deploymentBip9 d prevNode with
                        | ThresholdStarted | ThresholdLockedIn => Z.lor v (u32 (Z.shiftl 1 (BitNumber d)))
                        | _ => v
                        end) ds version.
Definition versionAfter (prevNode : option nat) : Z := i32 (votingBits (Deployments vp) prevNode vbTopBits).

Lemma nextVersion_spec prevNode ds : node_ok prevNode -> forall caches version, caches_ok ds caches ->
  exists caches', nextVersion_loop DH bi vp ds caches prevNode version = Ok (votingBits ds prevNode version, caches') /\
    caches_ok ds caches'.
Proof.
  intros Hn. induction ds as [|d ds IH]; intros caches version Hc; cbn [nextVersion_loop].
  - exists caches. split; [reflexivity | exact Hc].
  - apply Forall2_cons_inv_l in Hc. destruct Hc as (c & caches' & Hc1 & Hc & ->).
    destruct (stateOf_spec d c prevNode Hn Hc1) as (c' & -> & Hc'). cbn [obind].
    destruct (IH caches' (match deploymentBip9 d prevNode with
      | ThresholdStarted | ThresholdLockedIn => Z.lor version (u32 (Z.shiftl 1 (BitNumber d))) | _ => version end) Hc)
      as (caches2 & -> & Hc2). cbn [obind]. exists (c' :: caches2). split; [reflexivity | now constructor].
Qed.

Lemma calcNextBlockVersion_spec caches prevNode : node_ok prevNode -> caches_ok (Deployments vp) caches ->
  exists caches', calcNextBlockVersion DH bi vp caches prevNode = Ok (versionAfter prevNode, caches') /\
    caches_ok (Deployments vp) caches'.
Proof.
  intros Hn Hc. unfold calcNextBlockVersion.
  destruct (nextVersion_spec prevNode _ Hn caches vbTopBits Hc) as (caches' & -> & Hc'). now exists caches'.
Qed.

Lemma parent_node_ok id : (id < List.length a)%nat -> node_ok (bn_parent (deref a id)).
Proof.
  intros Hid. pose proof tree_wf as Hw. destruct (bn_parent (deref a id)) as [p|] eqn:Ep; [|exact I].
  destruct (height_parent a id p Hw Hid Ep) as (_ & Hp & Hh). pose proof (aw_height a Hw id Hid). split; [exact Hp | lia].
Qed.

(** A vote for a bit that the version the block should have does not set. *)
Definition unknownVote (bit : Z) (id : nat) : bool :=
  votesFor (bn_version (deref a id)) bit &&
  (Z.land (u32 (versionAfter (bn_parent (deref a id)))) (u32 (Z.shiftl 1 bit)) =? 0).

Instance bit_laws bit : CheckerLaws (bitConditionChecker DH bi vp bit) a (unknownVote bit) (caches_ok (Deployments vp)).
Proof.
  split.
  - exact (vo_window vp Hvp).
  - intros caches id Hc Hid. cbn [bitConditionChecker Condition]. unfold unknownVote, votesFor.
    destruct (Z.land (u32 (bn_version (deref a id))) vbTopMask =? vbTopBits); cbn [negb andb]; [|eauto].
    destruct (Z.land (u32 (bn_version (deref a id))) (u32 (Z.shiftl 1 bit)) =? 0); cbn [negb andb]; [eauto|].
    destruct (calcNextBlockVersion_spec caches _ (parent_node_ok id Hid) Hc) as (caches' & -> & Hc'). cbn [obind]. eauto.
  - reflexivity.
Qed.

Definition unknownBip9 (bit : Z) (prevNode : option nat) : ThresholdState :=
  match prevNode with None => ThresholdDefined | Some id => bip9After (bitConditionChecker DH bi vp bit) a (unknownVote bit) id end.

Fixpoint warnings_ok (bit : Z) (warnings : list stateCache) : Prop :=
  match warnings with
  | [] => True
  | c :: warnings' => cache_ok (bitConditionChecker DH bi vp bit) a (unknownVote bit) c /\ warnings_ok (bit + 1) warnings'
  end.

Fixpoint unknownStates (n : nat) (bit : Z) (prevNode : option nat) : list ThresholdState :=
  match n with O => [] | S n' => unknownBip9 bit prevNode :: unknownStates n' (bit + 1) prevNode end.

Lemma warningStates_spec prevNode warnings : forall bit caches, node_ok prevNode -> warnings_ok bit warnings ->
  caches_ok (Deployments vp) caches ->
  exists warnings' caches', warningStates DH bi vp warnings bit prevNode caches =
      Ok (unknownStates (List.length warnings) bit prevNode, warnings', caches') /\
    warnings_ok bit warnings' /\ List.length warnings' = List.length warnings /\ caches_ok (Deployments vp) caches'.
Proof.
  induction warnings as [|c warnings IH]; intros bit caches Hn Hw Hc; cbn [warningStates].
  { exists [], caches. auto. }
  destruct Hw as [Hc0 Hw].
  assert (H1 : exists c' caches1, thresholdState (bitConditionChecker DH bi vp bit) a prevNode c caches =
      Ok (unknownBip9 bit prevNode, c', caches1) /\ cache_ok (bitConditionChecker DH bi vp bit) a (unknownVote bit) c' /\
      caches_ok (Deployments vp) caches1).
  { destruct prevNode as [id|]; [|now exists c, caches]. destruct Hn as [Hid Hh].
    exact (thresholdState_spec _ a (unknownVote bit) (caches_ok (Deployments vp)) tree_wf tree_inj caches id c Hc Hid Hh Hc0). }
  destruct H1 as (c' & caches1 & -> & Hc' & Hc1). cbn [obind].
  destruct (IH (bit + 1) caches1 Hn Hw Hc1) as (w' & caches2 & -> & Hw' & Hl & Hc2). cbn [obind].
  exists (c' :: w'), caches2. split; [reflexivity|]. split; [now split|]. split; [cbn; now rewrite Hl | exact Hc2].
Qed.

(** ** What the rest of the node asks *)

Inductive query : Type :=
| QState (prevNode : nat) (deploymentID : Z)
| QVersion (prevNode : nat)
| QUnknown (node : nat).

Inductive answer : Type :=
| AState (state : ThresholdState)
| AVersion (version : Z)
| AUnknown (active : bool).

Definition ask (warnings caches : list stateCache) (q : query) : outcome chainErr (answer * list stateCache * list stateCache) :=
  match q with
  | QState id k => let* (st, caches) := deploymentState DH bi vp caches (Some id) k in Ok (AState st, warnings, caches)
  | QVersion id => let* (v, caches) := calcNextBlockVersion DH bi vp caches (Some id) in Ok (AVersion v, warnings, caches)
  | QUnknown id =>
      let* (r, caches) := warnUnknownRuleActivations DH bi vp false warnings caches id in
      Ok (AUnknown (fst r), snd r, caches)
  end.

Fixpoint askAll (warnings caches : list stateCache) (qs : list query) : outcome chainErr (list answer) :=
  match qs with
  | [] => Ok []
  | q :: qs' =>
      let* (r, caches) := ask warnings caches q in
      let* answers := askAll (snd r) caches qs' in
      Ok (fst r :: answers)
  end.

Definition isActive (st : ThresholdState) : bool := match st with ThresholdActive => true | _ => false end.

(** The answers of BIP 9. *)
Definition bip9Answer (q : query) : answer :=
  match q with
  | QState id k =>
      AState (match nth_error (Deployments vp) (Z.to_nat k) with Some d => deploymentBip9 d (Some id) | None => ThresholdFailed end)
  | QVersion id => AVersion (versionAfter (Some id))
  | QUnknown id => AUnknown (existsb isActive (unknownStates vbNumBits 0 (bn_parent (deref a id))))
  end.

Definition query_ok (q : query) : Prop :=
  match q with
  | QState id k => node_ok (Some id) /\ 0 <= k < len (Deployments vp)
  | QVersion id => node_ok (Some id)
  | QUnknown id => (id < List.length a)%nat
  end.

Definition all_ok (warnings caches : list stateCache) : Prop :=
  warnings_ok 0 warnings /\ List.length warnings = vbNumBits /\ caches_ok (Deployments vp) caches.

Lemma ask_spec warnings caches q : all_ok warnings caches -> query_ok q ->
  exists warnings' caches', ask warnings caches q = Ok (bip9Answer q, warnings', caches') /\ all_ok warnings' caches'.
Proof.
  intros (Hw & Hl & Hc) Hq. destruct q as [id k|id|id]; cbn [ask bip9Answer query_ok] in *.
  - destruct Hq as [Hn Hk]. unfold len in Hk. destruct (nth_error (Deployments vp) (Z.to_nat k)) as [d|] eqn:Ed;
      [|apply nth_error_None in Ed; lia].
    destruct (deploymentState_spec caches (Some id) k d Hn Hc ltac:(lia) Ed) as (caches' & -> & Hc').
    exists warnings, caches'. split; [reflexivity | now split].
  - destruct (calcNextBlockVersion_spec caches (Some id) Hq Hc) as (caches' & -> & Hc').
    exists warnings, caches'. split; [reflexivity | now split].
  - unfold warnUnknownRuleActivations.
    destruct (warningStates_spec _ warnings 0 caches (parent_node_ok id Hq) Hw Hc) as (w' & caches' & -> & Hw' & Hl' & Hc').
    cbn [obind]. rewrite Hl. exists w', caches'. split; [reflexivity|]. split; [exact Hw'|]. split; [congruence | exact Hc'].
Qed.

Lemma askAll_spec qs : forall warnings caches, all_ok warnings caches -> Forall query_ok qs ->
  askAll warnings caches qs = Ok (map bip9Answer qs).
Proof.
  induction qs as [|q qs IH]; intros warnings caches Hok Hq; [reflexivity|]. apply Forall_cons in Hq. destruct Hq as [Hq1 Hq].
  cbn [askAll map]. destruct (ask_spec warnings caches q Hok Hq1) as (w' & c' & -> & Hok'). cbn [obind fst snd].
  now rewrite (IH w' c' Hok' Hq).
Qed.

Lemma fresh_caches_ok : all_ok (newThresholdCaches vbNumBits) (newThresholdCaches (List.length (Deployments vp))).
Proof.
  split; [|split; [reflexivity | apply newThresholdCaches_ok]]. unfold newThresholdCaches. generalize 0. generalize vbNumBits.
  intros n. induction n as [|n IH]; intros bit; cbn [repeat warnings_ok]; [exact I|]. split; [apply cache_ok_empty | apply IH].
Qed.

End DeploymentLaws.

(** ** Properties *)

(** C10: any sequence of questions about deployments, block versions and unknown
    rules, asked at any nodes and with the caches that earlier questions left, is
    answered as the state machine of BIP 9 without a cache says, where a deployment
    that ends before it starts stays defined. *)
Theorem deployment_answers_bip9 DH bi vp qs :
  tree_ok bi -> votes_ok vp -> Forall (query_ok bi vp) qs ->
  askAll DH bi vp (newThresholdCaches vbNumBits) (newThresholdCaches (List.length (Deployments vp))) qs =
    Ok (map (bip9Answer DH bi vp) qs).
Proof. intros Ht Hv Hq. apply askAll_spec; auto. now apply fresh_caches_ok. Qed.

Lemma windowEnd_self DH bi vp d e : tree_ok bi -> votes_ok vp -> (e < List.length (bi_nodes bi))%nat ->
  (height_of (bi_nodes bi) e + 1) mod MinerConfirmationWindow vp = 0 ->
  windowEnd (deploymentChecker DH bi vp d) (bi_nodes bi) e = Some e.
Proof.
  intros Ht Hv He Hm. pose proof (vo_window vp Hv). unfold windowEnd. cbn [deploymentChecker ck_Window].
  pose proof (aw_height _ (tree_wf bi Ht) e He). apply Z.mod_divide in Hm as Hd; [|lia]. destruct Hd as [k Hk].
  assert (1 <= k) by nia. destruct (Z.ltb_spec (height_of (bi_nodes bi) e + 1) (MinerConfirmationWindow vp)); [nia|].
  rewrite Hm, Z.sub_0_r. apply ancestorAt_self.
Qed.

(** C29: once a window has ended after the end time of a deployment, which does not
    start after its end, the deployment has failed, is locked in or is active at
    every later block of the branch. *)
Theorem deployment_resolves DH bi vp k d q e id :
  tree_ok bi -> votes_ok vp -> 0 <= k -> nth_error (Deployments vp) (Z.to_nat k) = Some d -> deployment_ok d ->
  (e < List.length (bi_nodes bi))%nat -> (height_of (bi_nodes bi) e + 1) mod MinerConfirmationWindow vp = 0 ->
  prevWindow (bi_nodes bi) (MinerConfirmationWindow vp) e = Some q -> HasEnded (deploymentChecker DH bi vp d) q = true ->
  (id < List.length (bi_nodes bi))%nat -> height_of (bi_nodes bi) id < maxHeight -> on_branch (bi_nodes bi) id e ->
  exists st caches, resolved st /\
    deploymentState DH bi vp (newThresholdCaches (List.length (Deployments vp))) (Some id) k = Ok (st, caches).
Proof.
  intros Ht Hv Hk Hd Hok He Hm Hq Hend Hid Hh Hb. pose proof (tree_wf bi Ht) as Hw.
  pose proof (deployment_laws DH bi vp Ht Hv d) as laws.
  destruct (deploymentState_spec DH bi vp Ht Hv _ (Some id) k d (conj Hid Hh)
    (newThresholdCaches_ok DH bi vp (Deployments vp)) Hk Hd) as (caches & E & _).
  eexists _, caches. split; [|exact E].
  destruct (prevWindow_spec (deploymentChecker DH bi vp d) _ _ _ Hw e q He Hq) as (Hql & _ & Hbq).
  pose proof (bip9_resolved (deploymentChecker DH bi vp d) _ _ _ Hw e q He Hq (ended_started DH bi vp d q Hok Hend) Hend
    (ended_stays DH bi vp Ht d e q He Hql Hbq Hend)) as Hr.
  pose proof (bip9After_advances (deploymentChecker DH bi vp d) _ (votesOf bi d) _ Hw id e Hid He Hb) as Ha.
  unfold bip9After in Ha at 1. rewrite (windowEnd_self DH bi vp d e Ht Hv He Hm) in Ha. cbn [deploymentBip9]. revert Hr Ha.
  unfold resolved. intros [->|[->| ->]]; cbn [advances]; intuition.
Qed.

(** Along a branch the state of a deployment only moves forward: from defined
    over started and locked in to active, or to failed, and an active or failed
    deployment stays so. *)
Theorem deployment_advances DH bi vp d anc id :
  tree_ok bi -> votes_ok vp -> (anc < List.length (bi_nodes bi))%nat ->
  (id < List.length (bi_nodes bi))%nat -> on_branch (bi_nodes bi) id anc ->
  advances (deploymentBip9 DH bi vp d (Some anc)) (deploymentBip9 DH bi vp d (Some id)).
Proof.
  intros Ht Hv Ha Hid Hb. pose proof (deployment_laws DH bi vp Ht Hv d) as laws.
  exact (bip9After_advances (deploymentChecker DH bi vp d) _ (votesOf bi d) _ (tree_wf bi Ht) id anc Hid Ha Hb).
Qed.

Lemma network_votes_ok : votes_ok mainNetVotes /\ votes_ok testNet3Votes /\ votes_ok regressionNetVotes /\ votes_ok simNetVotes.
Proof. repeat constructor. Qed.

(** C40: with the parameters of the regression test network and of the simulation
    network, taproot never locks in or becomes active at any block: the activation
    threshold is larger than the window. *)
Theorem taproot_never_active DH bi vp id :
  vp = regressionNetVotes \/ vp = simNetVotes -> tree_ok bi ->
  (id < List.length (bi_nodes bi))%nat -> height_of (bi_nodes bi) id < maxHeight ->
  exists st caches, st <> ThresholdLockedIn /\ st <> ThresholdActive /\
    deploymentState DH bi vp (newThresholdCaches (List.length (Deployments vp))) (Some id) DeploymentTaproot = Ok (st, caches).
Proof.
  intros Hvp Ht Hid Hh. pose proof (tree_wf bi Ht) as Hw. destruct network_votes_ok as (_ & _ & Hr & Hs).
  assert (Hv : votes_ok vp) by (now destruct Hvp as [-> | ->]).
  assert (Hd : exists d, nth_error (Deployments vp) (Z.to_nat DeploymentTaproot) = Some d /\
    MinerConfirmationWindow vp < ck_Threshold (deploymentChecker DH bi vp d)).
  { destruct Hvp as [-> | ->]; eexists; (split; reflexivity). }
  destruct Hd as (d & Hd & Hlt). pose proof (deployment_laws DH bi vp Ht Hv d) as laws.
  destruct (deploymentState_spec DH bi vp Ht Hv _ (Some id) DeploymentTaproot d (conj Hid Hh)
    (newThresholdCaches_ok DH bi vp (Deployments vp)) ltac:(discriminate) Hd) as (caches & E & _).
  eexists _, caches. refine ((fun H => conj (proj1 H) (conj (proj2 H) E)) _). cbn [deploymentBip9]. unfold bip9After.
  pose proof (windowEnd_spec (deploymentChecker DH bi vp d) _ _ _ Hw id Hid) as He.
  destruct (windowEnd _ _ id) as [e|]; [|split; discriminate]. destruct He as (He & _).
  exact (bip9_unreachable (deploymentChecker DH bi vp d) _ (votesOf bi d) _ Hw _ Hlt e eq_refl He).
Qed.

(** ** Corner cases *)

(** The first deployment of the main network would start long after its end. *)
Lemma main_dummy_never_starts : Exists (fun d => ~ deployment_ok d) (Deployments mainNetVotes).
Proof. constructor. vm_compute. congruence. Qed.

(** The number of the deployments passes the check of the deployment ID. *)
Lemma deploymentState_unknown DH bi vp caches prevNode : len (Deployments vp) < 2 ^ 32 ->
  deploymentState DH bi vp caches prevNode (len (Deployments vp)) = Panic.
Proof.
  intros Hl. unfold deploymentState. pose proof (len_nonneg (Deployments vp)). rewrite u32_id by (unfold is_u32; lia).
  rewrite Z.ltb_irrefl. unfold get_at, len. decide_cmp. rewrite Nat2Z.id, (proj2 (nth_error_None _ _)) by lia. reflexivity.
Qed.

(** ** A vote

    Seven blocks in windows of two; the last six vote for bit 1. *)

Definition votingHeader (k : Z) : BlockHeader := mkBlockHeader 0x20000002 zeroHash (repeat k 32) (1000 + k) 0x1d00ffff k.
Definition voting_arena : arena :=
  fold_left (fun a k => fst (newBlockNode sampleHash a (votingHeader k)
               (match a with [] => None | _ => Some (List.length a - 1)%nat end))) [1; 2; 3; 4; 5; 6; 7] [].
Definition voting_index : blockIndex := fold_left AddNode (seq 0 7) (newBlockIndex voting_arena).
Definition sampleVotes : VoteParams :=
  mkVoteParams 2 2 [mkDeployment 1 0 0 (Some 1000) (Some 1100); mkDeployment 2 0 0 (Some 0) (Some 1003)].

Lemma sampleVotes_ok : votes_ok sampleVotes.
Proof. split; [vm_compute; split; reflexivity | reflexivity]. Qed.

Ltac each_node id Hid := change (List.length (bi_nodes voting_index)) with 7%nat in Hid;
  destruct id as [|[|[|[|[|[|[|?]]]]]]]; [..|exfalso; clear - Hid; lia].

Lemma voting_built : built sampleHash voting_arena.
Proof.
  unfold voting_arena. cbn [fold_left]. repeat apply built_new; try apply built_nil; try exact I;
    (split; [vm_compute; lia | vm_compute; reflexivity]).
Qed.

Lemma voting_tree_ok : tree_ok voting_index.
Proof.
  split.
  - exact (built_wf _ _ voting_built).
  - split.
    + intros id Hid. each_node id Hid; vm_compute; reflexivity.
    + intros hash id H. unfold LookupNode, voting_index in H. cbn [seq fold_left AddNode addNode bi_index newBlockIndex bi_nodes] in H.
      repeat (apply lookup_insert_Some in H; destruct H as [[<- <-]|[_ H]]; [split; [vm_compute; lia | reflexivity]|]).
      now rewrite lookup_empty in H.
  - reflexivity.
  - intros id p m Hid Hp Hm. each_node id Hid; vm_compute in Hp; try discriminate; injection Hp as <-;
      vm_compute in Hm; injection Hm as <-; vm_compute; reflexivity.
Qed.

Lemma deployment_answers_bip9_witness :
  askAll sampleHash voting_index sampleVotes (newThresholdCaches vbNumBits) (newThresholdCaches 2)
    [QState 6 0; QState 2 0; QVersion 4; QUnknown 6] =
    Ok (map (bip9Answer sampleHash voting_index sampleVotes) [QState 6 0; QState 2 0; QVersion 4; QUnknown 6]).
Proof.
  apply (deployment_answers_bip9 sampleHash voting_index sampleVotes).
  - exact voting_tree_ok.
  - exact sampleVotes_ok.
  - repeat constructor; vm_compute; try lia; discriminate.
Defined.

Lemma deployment_resolves_witness :
  exists st caches, resolved st /\
    deploymentState sampleHash voting_index sampleVotes (newThresholdCaches 2) (Some 6%nat) 1 = Ok (st, caches).
Proof.
  apply (deployment_resolves sampleHash voting_index sampleVotes 1 (mkDeployment 2 0 0 (Some 0) (Some 1003)) 3 5 6).
  - exact voting_tree_ok.
  - exact sampleVotes_ok.
  - discriminate.
  - reflexivity.
  - vm_compute. discriminate.
  - vm_compute. lia.
  - reflexivity.
  - reflexivity.
  - vm_compute. reflexivity.
  - vm_compute. lia.
  - vm_compute. reflexivity.
  - split; [vm_compute; discriminate | reflexivity].
Defined.

Lemma deployment_advances_witness :
  advances (deploymentBip9 sampleHash voting_index sampleVotes (mkDeployment 1 0 0 (Some 1000) (Some 1100)) (Some 2%nat))
    (deploymentBip9 sampleHash voting_index sampleVotes (mkDeployment 1 0 0 (Some 1000) (Some 1100)) (Some 6%nat)).
Proof.
  apply (deployment_advances sampleHash voting_index sampleVotes).
  - exact voting_tree_ok.
  - exact sampleVotes_ok.
  - vm_compute. lia.
  - vm_compute. lia.
  - split; [vm_compute; discriminate | reflexivity].
Defined.

Lemma taproot_never_active_witness :
  exists st caches, st <> ThresholdLockedIn /\ st <> ThresholdActive /\
    deploymentState sampleHash voting_index regressionNetVotes (newThresholdCaches 5) (Some 6%nat) DeploymentTaproot = Ok (st, caches).
Proof.
  apply (taproot_never_active sampleHash voting_index regressionNetVotes 6).
  - now left.
  - exact voting_tree_ok.
  - vm_compute. lia.
  - vm_compute. reflexivity.
Defined.
