(* ===== verification/Growth.v ===== *)
(** * Trees that grow

    Blocks are added to the index and the status of nodes changes while views,
    caches and branches refer to them.  What a node of the old tree says about
    its branch, and what the caches of the deployments hold, stays right. *)

From Stdlib Require Import ZArith List Lia Bool String.
From stdpp Require Import gmap.
From S2P Require Import Prelude GoSlice GoIO WireCommon WireMsgs Difficulty BlockIndex ChainView ChainIO Index Threshold.
Import ListNotations.
Local Open Scope list_scope.
Local Open Scope Z_scope.
Local Open Scope go_scope.

(** Every node of [a] is in [a'], with the same fields but its status. *)
Record extends (a a' : arena) : Prop := {
  ex_length : (List.length a <= List.length a')%nat;
  ex_node : forall id, (id < List.length a)%nat -> with_status (deref a' id) 0 = with_status (deref a id) 0
}.

Lemma extends_refl a : extends a a.
Proof. now split. Qed.

Lemma extends_trans a b c : extends a b -> extends b c -> extends a c.
Proof.
  intros H1 H2. pose proof (ex_length _ _ H1). pose proof (ex_length _ _ H2). split; [lia|].
  intros id Hid. rewrite (ex_node _ _ H2), (ex_node _ _ H1) by lia. reflexivity.
Qed.

Lemma extends_app a b : extends a (a ++ b).
Proof. split; [rewrite length_app; lia|]. intros id Hid. now rewrite deref_app. Qed.

Lemma deref_insert a id n id' : (id < List.length a)%nat -> deref (<[id := n]> a) id' = if decide (id = id') then n else deref a id'.
Proof.
  intros Hid. unfold deref. rewrite !nth_lookup. case_decide as H; [subst id'|].
  - now rewrite list_lookup_insert_eq.
  - now rewrite list_lookup_insert_ne.
Qed.

Lemma extends_status a id st : (id < List.length a)%nat -> extends a (<[id := with_status (deref a id) st]> a).
Proof.
  intros Hid. split; [now rewrite length_insert|]. intros id' _. rewrite deref_insert by exact Hid. case_decide; [now subst | reflexivity].
Qed.

Section Fields.
Context (a a' : arena) (He : extends a a') (id : nat) (Hid : (id < List.length a)%nat).

Lemma ex_parent : bn_parent (deref a' id) = bn_parent (deref a id).
Proof. exact (f_equal bn_parent (ex_node _ _ He id Hid)). Qed.
Lemma ex_ancestor : bn_ancestor (deref a' id) = bn_ancestor (deref a id).
Proof. exact (f_equal bn_ancestor (ex_node _ _ He id Hid)). Qed.
Lemma ex_hash : bn_hash (deref a' id) = bn_hash (deref a id).
Proof. exact (f_equal bn_hash (ex_node _ _ He id Hid)). Qed.
Lemma ex_work : bn_workSum (deref a' id) = bn_workSum (deref a id).
Proof. exact (f_equal bn_workSum (ex_node _ _ He id Hid)). Qed.
Lemma ex_height : height_of a' id = height_of a id.
Proof. exact (f_equal bn_height (ex_node _ _ He id Hid)). Qed.
Lemma ex_version : bn_version (deref a' id) = bn_version (deref a id).
Proof. exact (f_equal bn_version (ex_node _ _ He id Hid)). Qed.
Lemma ex_bits : bn_bits (deref a' id) = bn_bits (deref a id).
Proof. exact (f_equal bn_bits (ex_node _ _ He id Hid)). Qed.
Lemma ex_nonce : bn_nonce (deref a' id) = bn_nonce (deref a id).
Proof. exact (f_equal bn_nonce (ex_node _ _ He id Hid)). Qed.
Lemma ex_timestamp : bn_timestamp (deref a' id) = bn_timestamp (deref a id).
Proof. exact (f_equal bn_timestamp (ex_node _ _ He id Hid)). Qed.
Lemma ex_merkleRoot : bn_merkleRoot (deref a' id) = bn_merkleRoot (deref a id).
Proof. exact (f_equal bn_merkleRoot (ex_node _ _ He id Hid)). Qed.
End Fields.

(** ** Branches *)

Section Branches.
Context (a a' : arena).
Hypothesis Hw : arena_wf a.
Hypothesis He : extends a a'.

Lemma walk_extends k : forall id, (id < List.length a)%nat -> walk a' id k = walk a id k.
Proof.
  induction k as [|k IH]; intros id Hid; [reflexivity|]. cbn [walk]. rewrite (ex_parent a a' He id Hid).
  destruct (bn_parent (deref a id)) as [p|] eqn:Ep; [|reflexivity]. apply IH. apply (height_parent a id p Hw Hid Ep).
Qed.

Lemma ancestorAt_extends id h : (id < List.length a)%nat -> ancestorAt a' id h = ancestorAt a id h.
Proof. intros Hid. unfold ancestorAt. now rewrite (ex_height a a' He id Hid), walk_extends. Qed.

Lemma on_branch_extends t x : (t < List.length a)%nat -> (x < List.length a)%nat -> on_branch a' t x <-> on_branch a t x.
Proof.
  intros Ht Hx. unfold on_branch. now rewrite !(ex_height a a' He), ancestorAt_extends by assumption.
Qed.

(** An ancestor of an old node is an old node. *)
Lemma on_branch_old t x : (t < List.length a)%nat -> on_branch a' t x -> 0 <= height_of a' x -> (x < List.length a)%nat.
Proof.
  intros Ht [H1 H2] H0. rewrite (ex_height a a' He t Ht) in H1. rewrite ancestorAt_extends in H2 by exact Ht.
  destruct (ancestorAt_spec a t (height_of a' x) Hw Ht ltac:(lia)) as (y & E & Hy & _). congruence.
Qed.

Lemma branch_extends fuel : forall id, (id < List.length a)%nat -> branch fuel a' id = branch fuel a id.
Proof.
  induction fuel as [|fuel IH]; intros id Hid; [reflexivity|]. cbn [branch]. rewrite (ex_parent a a' He id Hid).
  destruct (bn_parent (deref a id)) as [p|] eqn:Ep; [|reflexivity]. f_equal. apply IH. apply (height_parent a id p Hw Hid Ep).
Qed.

Lemma branch_of_extends id : (id < List.length a)%nat -> branch_of a' id = branch_of a id.
Proof. intros Hid. unfold branch_of. now rewrite (ex_height a a' He id Hid), branch_extends. Qed.

Lemma branch_old fuel : forall id x, (id < List.length a)%nat -> In x (branch fuel a id) -> (x < List.length a)%nat.
Proof.
  induction fuel as [|fuel IH]; intros id x Hid H; cbn [branch] in H; [destruct H as [<-|[]]; exact Hid|].
  destruct (bn_parent (deref a id)) as [p|] eqn:Ep.
  - destruct (height_parent a id p Hw Hid Ep) as (_ & Hp & _). destruct H as [<-|H]; [assumption|]. exact (IH p x Hp H).
  - destruct H as [<-|[]]. assumption.
Qed.

Lemma timestamps_extends k : forall id, (id < List.length a)%nat -> timestamps k a' (Some id) = timestamps k a (Some id).
Proof.
  induction k as [|k IH]; intros id Hid; [reflexivity|]. cbn [timestamps].
  rewrite (ex_timestamp a a' He id Hid), (ex_parent a a' He id Hid). f_equal.
  destruct (bn_parent (deref a id)) as [p|] eqn:Ep; [|now destruct k]. apply IH. apply (height_parent a id p Hw Hid Ep).
Qed.

Lemma CalcPastMedianTime_extends id : (id < List.length a)%nat -> CalcPastMedianTime a' id = CalcPastMedianTime a id.
Proof. intros Hid. unfold CalcPastMedianTime. now rewrite timestamps_extends. Qed.

Lemma view_ok_extends c t : view_ok a c t -> view_ok a' c t.
Proof.
  intros [V1 V2 V3]. split; auto. destruct t as [t|]; [|exact V3]. destruct V3 as (Ht & Hh & Hn).
  pose proof (ex_length a a' He). split; [lia|]. rewrite (ex_height a a' He t Ht). split; [exact Hh|]. rewrite Hn.
  unfold view_of. rewrite (ex_height a a' He t Ht). apply map_ext. intros h. now rewrite ancestorAt_extends.
Qed.
End Branches.

Lemma node_wf_extends a a' id : arena_wf a -> extends a a' -> (id < List.length a)%nat -> node_wf a' id.
Proof.
  intros Hw He Hid. pose proof (aw_nodes a Hw id Hid) as H. unfold node_wf in *.
  rewrite (ex_parent a a' He), (ex_ancestor a a' He), (ex_work a a' He), (ex_bits a a' He), (ex_height a a' He) by exact Hid.
  destruct (bn_parent (deref a id)) as [p|] eqn:Ep; [|exact H]. destruct (height_parent a id p Hw Hid Ep) as (_ & Hp & _).
  now rewrite (ex_height a a' He), (ex_work a a' He), (ancestorAt_extends a a' Hw He) by exact Hp.
Qed.

(** A change of statuses keeps the tree well formed. *)
Lemma arena_wf_extends a a' : arena_wf a -> extends a a' -> List.length a' = List.length a -> arena_wf a'.
Proof.
  intros Hw He Hl. split; intros id Hid; rewrite Hl in Hid.
  - now apply (node_wf_extends a).
  - rewrite (ex_height a a' He id Hid). now apply (aw_height a Hw).
Qed.

(** ** Deployments *)

(** Two checkers that agree on the nodes of [a]. *)
Record same_checker {St St'} (n : nat) (ck : thresholdConditionChecker St) (ck' : thresholdConditionChecker St') : Prop := {
  sc_window : ck_Window ck' = ck_Window ck;
  sc_threshold : ck_Threshold ck' = ck_Threshold ck;
  sc_speedy : IsSpeedy ck' = IsSpeedy ck;
  sc_started : forall id, (id < n)%nat -> HasStarted ck' id = HasStarted ck id;
  sc_ended : forall id, (id < n)%nat -> HasEnded ck' id = HasEnded ck id;
  sc_eligible : forall id, (id < n)%nat -> EligibleToActivate ck' id = EligibleToActivate ck id
}.

Section Reference.
Context {St St' : Type} (ck : thresholdConditionChecker St) (ck' : thresholdConditionChecker St').
Context (a a' : arena) (votes votes' : nat -> bool).
Hypothesis Hw : arena_wf a.
Hypothesis He : extends a a'.
Hypothesis Hc : same_checker (List.length a) ck ck'.
Hypothesis Hwin : 0 <= ck_Window ck.
Hypothesis Hv : forall id, (id < List.length a)%nat -> votes' id = votes id.

Lemma filter_agree (f g : nat -> bool) l : (forall x, In x l -> f x = g x) -> List.filter f l = List.filter g l.
Proof.
  induction l as [|x l IH]; intros H; [reflexivity|]. cbn [List.filter]. rewrite (H x) by now left.
  rewrite IH; [reflexivity|]. intros y Hy. apply H. now right.
Qed.

Lemma tally_extends id : (id < List.length a)%nat -> tally a' votes' (ck_Window ck) id = tally a votes (ck_Window ck) id.
Proof.
  intros Hid. unfold tally. rewrite (branch_of_extends a a' Hw He id Hid). f_equal. apply filter_agree. intros x Hx.
  apply Hv, (branch_old a Hw (Z.to_nat (height_of a id)) id x Hid).
  rewrite <- (firstn_skipn (Z.to_nat (ck_Window ck))). apply in_or_app. now left.
Qed.

Lemma bip9Step_extends st id : (id < List.length a)%nat -> bip9Step ck' a' votes' st id = bip9Step ck a votes st id.
Proof.
  intros Hid. unfold bip9Step.
  now rewrite (sc_window _ _ _ Hc), (sc_threshold _ _ _ Hc), (sc_speedy _ _ _ Hc), (sc_started _ _ _ Hc), (sc_ended _ _ _ Hc),
    (sc_eligible _ _ _ Hc), tally_extends by exact Hid.
Qed.

Lemma bip9_rec_extends fuel : forall id, (id < List.length a)%nat -> bip9_rec ck' a' votes' fuel id = bip9_rec ck a votes fuel id.
Proof.
  induction fuel as [|fuel IH]; intros id Hid; [reflexivity|]. cbn [bip9_rec].
  assert (Hp : prevWindow a' (ck_Window ck') id = prevWindow a (ck_Window ck) id).
  { unfold prevWindow. now rewrite (sc_window _ _ _ Hc), (ex_height a a' He id Hid), (ancestorAt_extends a a' Hw He). }
  rewrite Hp, bip9Step_extends by exact Hid. f_equal. destruct (prevWindow a (ck_Window ck) id) as [q|] eqn:Eq; [|reflexivity].
  apply IH. unfold prevWindow in Eq. destruct (Z.ltb_spec (height_of a id) (ck_Window ck)); [discriminate|].
  destruct (ancestorAt_spec a id (height_of a id - ck_Window ck) Hw Hid ltac:(lia)) as (x & E & Hx & _). congruence.
Qed.

Lemma bip9_extends id : (id < List.length a)%nat -> bip9 ck' a' votes' id = bip9 ck a votes id.
Proof. intros Hid. unfold bip9. now rewrite (ex_height a a' He id Hid), bip9_rec_extends. Qed.

Lemma cache_ok_extends cache : cache_ok ck a votes cache -> cache_ok ck' a' votes' cache.
Proof.
  intros H hash st E. destruct (H hash st E) as (id & Hid & Hh & ->). exists id. pose proof (ex_length a a' He).
  split; [lia|]. now rewrite (ex_hash a a' He), bip9_extends.
Qed.

Lemma bip9After_extends id : (id < List.length a)%nat -> 0 < ck_Window ck -> bip9After ck' a' votes' id = bip9After ck a votes id.
Proof.
  intros Hid Hpos. unfold bip9After.
  assert (Hwe : windowEnd ck' a' id = windowEnd ck a id).
  { unfold windowEnd. now rewrite (sc_window _ _ _ Hc), (ex_height a a' He id Hid), (ancestorAt_extends a a' Hw He). }
  rewrite Hwe. destruct (windowEnd ck a id) as [e|] eqn:E; [|reflexivity]. apply bip9_extends.
  unfold windowEnd in E. destruct (Z.ltb_spec (height_of a id + 1) (ck_Window ck)); [discriminate|].
  pose proof (Z.mod_pos_bound (height_of a id + 1) (ck_Window ck) Hpos).
  destruct (ancestorAt_spec a id (height_of a id - (height_of a id + 1) mod ck_Window ck) Hw Hid) as (x & Ex & Hx & _); [|congruence].
  pose proof (Z.div_mod (height_of a id + 1) (ck_Window ck) ltac:(lia)).
  assert (1 <= (height_of a id + 1) / ck_Window ck) by (apply Z.div_le_lower_bound; lia). nia.
Qed.
End Reference.

Section Votes.
Context (DH : list Z -> list Z) (bi bi' : blockIndex) (vp : VoteParams).
Hypothesis Ht : tree_ok bi.
Hypothesis Ht' : tree_ok bi'.
Hypothesis Hvp : votes_ok vp.
Hypothesis He : extends (bi_nodes bi) (bi_nodes bi').
Abbreviation a := (bi_nodes bi).
Abbreviation a' := (bi_nodes bi').

Lemma median_check_extends (f : Z -> bool) id : (id < List.length a)%nat ->
  match PastMedianTime DH bi' (Header a' id) with Ok m => f m | _ => false end =
  match PastMedianTime DH bi (Header a id) with Ok m => f m | _ => false end.
Proof.
  intros Hid. pose proof (ex_length a a' He). pose proof (PastMedianTime_node DH bi Ht id Hid) as H1.
  pose proof (PastMedianTime_node DH bi' Ht' id ltac:(lia)) as H2. rewrite (ex_parent a a' He id Hid) in H2.
  destruct (bn_parent (deref a id)); [|now rewrite H1, H2].
  destruct H1 as (m & -> & Hm), H2 as (m' & -> & Hm'). rewrite (CalcPastMedianTime_extends a a' (tree_wf bi Ht) He id Hid) in Hm'.
  congruence.
Qed.

Lemma deploymentChecker_extends d : same_checker (List.length a) (deploymentChecker DH bi vp d) (deploymentChecker DH bi' vp d).
Proof.
  split; try reflexivity; intros id Hid; cbn [deploymentChecker HasStarted HasEnded EligibleToActivate].
  - unfold starter_HasStarted. destruct (StartTime d); [now apply median_check_extends | reflexivity].
  - unfold ender_HasEnded. destruct (EndTime d); [now apply median_check_extends | reflexivity].
  - now rewrite (ex_height a a' He id Hid).
Qed.

Lemma votesOf_extends d id : (id < List.length a)%nat -> votesOf bi' d id = votesOf bi d id.
Proof. intros Hid. unfold votesOf. now rewrite (ex_version a a' He id Hid). Qed.

Lemma window_pos : 0 < MinerConfirmationWindow vp.
Proof. apply (vo_window vp Hvp). Qed.

Lemma caches_ok_extends ds caches : caches_ok DH bi vp ds caches -> caches_ok DH bi' vp ds caches.
Proof.
  pose proof window_pos. intros Hc. eapply Forall2_impl; [exact Hc|]. intros d c. unfold dcache_ok. apply cache_ok_extends.
  - exact (tree_wf bi Ht).
  - exact He.
  - apply deploymentChecker_extends.
  - cbn. lia.
  - apply votesOf_extends.
Qed.

Lemma deploymentBip9_extends d p : match p with Some id => (id < List.length a)%nat | None => True end ->
  deploymentBip9 DH bi' vp d p = deploymentBip9 DH bi vp d p.
Proof.
  pose proof window_pos. destruct p as [id|]; [|reflexivity]. intros Hid. cbn [deploymentBip9].
  apply bip9After_extends; auto; [exact (tree_wf bi Ht) | apply deploymentChecker_extends | cbn; lia | apply votesOf_extends].
Qed.

Lemma versionAfter_extends p : match p with Some id => (id < List.length a)%nat | None => True end ->
  versionAfter DH bi' vp p = versionAfter DH bi vp p.
Proof.
  intros Hp. unfold versionAfter, votingBits. f_equal. generalize vbTopBits. induction (Deployments vp) as [|d ds IH]; intros v; [reflexivity|].
  cbn [fold_left]. now rewrite (deploymentBip9_extends d p Hp), IH.
Qed.

Lemma unknownVote_extends bit id : (id < List.length a)%nat -> unknownVote DH bi' vp bit id = unknownVote DH bi vp bit id.
Proof.
  intros Hid. unfold unknownVote. rewrite (ex_version a a' He id Hid), (ex_parent a a' He id Hid). rewrite versionAfter_extends; [reflexivity|].
  destruct (bn_parent (deref a id)) as [p|] eqn:Ep; [|exact I]. apply (height_parent a id p (tree_wf bi Ht) Hid Ep).
Qed.

Lemma bitChecker_extends bit : same_checker (List.length a) (bitConditionChecker DH bi vp bit) (bitConditionChecker DH bi' vp bit).
Proof. now split. Qed.

Lemma warnings_ok_extends warnings : forall bit, warnings_ok DH bi vp bit warnings -> warnings_ok DH bi' vp bit warnings.
Proof.
  pose proof window_pos. induction warnings as [|c warnings IH]; intros bit H0; [exact I|]. destruct H0 as [H1 H2]. split; [|now apply IH].
  revert H1. apply cache_ok_extends; auto; [exact (tree_wf bi Ht) | apply bitChecker_extends | cbn; lia | apply unknownVote_extends].
Qed.

(** The caches stay right when the tree grows. *)
Lemma all_ok_extends warnings caches : all_ok DH bi vp warnings caches -> all_ok DH bi' vp warnings caches.
Proof.
  intros (H1 & H2 & H3). split; [now apply warnings_ok_extends|]. split; [exact H2 | now apply caches_ok_extends].
Qed.
End Votes.
