(* ===== verification/UtxoView.v ===== *)
(** * Views of the utxo set (blockchain/utxoviewpoint.go)

    A view maps outpoints to entries, nil where an output is known not to
    exist; it lies over the set of unspent outputs at the end of the chain.
    The set a view stands for is a finite map of coins; connecting a
    transaction moves it as the rules of a ledger say, and disconnecting a
    block takes that back. *)

From Stdlib Require Import ZArith List Lia Bool String.
From stdpp Require Import gmap.
From S2P Require Import Prelude GoSlice GoIO WireCommon WireTx WireMsgs Merkle Compress Script ChainIO.
Import ListNotations.
Local Open Scope string_scope.
Local Open Scope list_scope.
Local Open Scope Z_scope.
Local Open Scope go_scope.

#[global] Instance OutPoint_eq_dec : EqDecision OutPoint.
Proof. solve_decision. Defined.

#[global] Instance OutPoint_countable : Countable OutPoint.
Proof.
  apply (inj_countable' (fun op => (op_Hash op, op_Index op)) (fun p => mkOutPoint p.1 p.2)).
  now intros [].
Defined.

(** ** Views *)

Record UtxoViewpoint : Type := mkView {
  uv_entries : gmap OutPoint (option UtxoEntry);
  uv_bestHash : list Z
}.

Definition NewUtxoViewpoint : UtxoViewpoint := mkView ∅ (repeat 0 32).
Definition SetBestHash (v : UtxoViewpoint) (hash : list Z) : UtxoViewpoint := mkView (uv_entries v) hash.
Definition set_entries (v : UtxoViewpoint) (m : gmap OutPoint (option UtxoEntry)) : UtxoViewpoint :=
  mkView m (uv_bestHash v).

(** [view.entries[outpoint]]: nil when there is none. *)
Definition LookupEntry (v : UtxoViewpoint) (op : OutPoint) : option UtxoEntry :=
  match uv_entries v !! op with Some e => e | None => None end.

Definition put_entry (v : UtxoViewpoint) (op : OutPoint) (e : UtxoEntry) : UtxoViewpoint :=
  set_entries v (<[op := Some e]> (uv_entries v)).

Definition FetchPrevOutput (v : UtxoViewpoint) (op : OutPoint) : option TxOut :=
  match LookupEntry v op with
  | None => None
  | Some prevOut => Some (mkTxOut (ue_amount prevOut) (ue_pkScript prevOut))
  end.

Definition RemoveEntry (v : UtxoViewpoint) (op : OutPoint) : UtxoViewpoint :=
  set_entries v (delete op (uv_entries v)).

(** The entry of a new output. *)
Definition freshEntry (txOut : TxOut) (isCoinBase : bool) (blockHeight : Z) : UtxoEntry :=
  let flags := Z.lor tfFresh tfModified in
  mkUtxoEntry (to_Value txOut) (to_PkScript txOut) blockHeight (if isCoinBase then Z.lor flags tfCoinBase else flags).

Definition addTxOut (v : UtxoViewpoint) (op : OutPoint) (txOut : TxOut) (isCoinBase : bool) (blockHeight : Z)
  : UtxoViewpoint :=
  if IsUnspendable (to_PkScript txOut) then v
  else put_entry v op (freshEntry txOut isCoinBase blockHeight).

(** [commit]: spent entries are dropped, the modified bit of the others is
    flipped. *)
Definition commit (v : UtxoViewpoint) : UtxoViewpoint :=
  set_entries v (omap (fun e =>
    match e with
    | None => None
    | Some e =>
        if isModified e && IsSpent e then None
        else Some (Some (with_flags e (Z.lxor (ue_packedFlags e) tfModified)))
    end) (uv_entries v)).

(** A block with its height (btcutil.Block). *)
Record Block : Type := mkBlock { blk_msg : MsgBlock; blk_height : Z }.
Definition Transactions (b : Block) : list MsgTx := mb_Transactions (blk_msg b).

(** [transactions[1:]]. *)
Definition countSpentOutputs (b : Block) : outcome chainErr Z :=
  let* rest := slice (Transactions b) 1 (len (Transactions b)) in
  Ok (fold_left (fun n tx => n + len (tx_TxIn tx)) rest 0).

Section Views.
Context (DoubleHash : list Z -> list Z).
Definition txHash (tx : MsgTx) : list Z := TxHash DoubleHash tx.
Definition outpointOf (tx : MsgTx) (i : nat) : OutPoint := mkOutPoint (txHash tx) (u32 (Z.of_nat i)).

Definition AddTxOut (v : UtxoViewpoint) (tx : MsgTx) (txOutIdx blockHeight : Z) : UtxoViewpoint :=
  if u32 (len (tx_TxOut tx)) <=? txOutIdx then v
  else
    match nth_error (tx_TxOut tx) (Z.to_nat txOutIdx) with
    | Some txOut => addTxOut v (mkOutPoint (txHash tx) txOutIdx) txOut (IsCoinBaseTx tx) blockHeight
    | None => v
    end.

Fixpoint addTxOuts_loop (v : UtxoViewpoint) (tx : MsgTx) (i : nat) (outs : list TxOut) (isCoinBase : bool)
    (blockHeight : Z) : UtxoViewpoint :=
  match outs with
  | [] => v
  | txOut :: outs' =>
      addTxOuts_loop (addTxOut v (outpointOf tx i) txOut isCoinBase blockHeight) tx (S i) outs' isCoinBase blockHeight
  end.

Definition AddTxOuts (v : UtxoViewpoint) (tx : MsgTx) (blockHeight : Z) : UtxoViewpoint :=
  addTxOuts_loop v tx 0 (tx_TxOut tx) (IsCoinBaseTx tx) blockHeight.

(** [stxos] is nil or the outputs spent so far. *)
Definition stxoOf (entry : UtxoEntry) : SpentTxOut :=
  mkSpentTxOut (ue_amount entry) (ue_pkScript entry) (ue_blockHeight entry) (ue_IsCoinBase entry).
Definition append_stxo (stxos : option (list SpentTxOut)) (entry : UtxoEntry) : option (list SpentTxOut) :=
  match stxos with None => None | Some l => Some (l ++ [stxoOf entry]) end.

Fixpoint spendInputs (v : UtxoViewpoint) (ins : list TxIn) (stxos : option (list SpentTxOut))
  : outcome chainErr (UtxoViewpoint * option (list SpentTxOut)) :=
  match ins with
  | [] => Ok (v, stxos)
  | txIn :: ins' =>
      match LookupEntry v (ti_PreviousOutPoint txIn) with
      | None => Err (AssertError "view missing input")
      | Some entry =>
          spendInputs (put_entry v (ti_PreviousOutPoint txIn) (Spend entry)) ins' (append_stxo stxos entry)
      end
  end.

Definition connectTransaction (v : UtxoViewpoint) (tx : MsgTx) (blockHeight : Z) (stxos : option (list SpentTxOut))
  : outcome chainErr (UtxoViewpoint * option (list SpentTxOut)) :=
  if IsCoinBaseTx tx then Ok (AddTxOuts v tx blockHeight, stxos)
  else
    let* (v, stxos) := spendInputs v (tx_TxIn tx) stxos in
    Ok (AddTxOuts v tx blockHeight, stxos).

Fixpoint connect_loop (v : UtxoViewpoint) (txs : list MsgTx) (blockHeight : Z) (stxos : option (list SpentTxOut))
  : outcome chainErr (UtxoViewpoint * option (list SpentTxOut)) :=
  match txs with
  | [] => Ok (v, stxos)
  | tx :: txs' =>
      let* (v, stxos) := connectTransaction v tx blockHeight stxos in
      connect_loop v txs' blockHeight stxos
  end.

Definition connectTransactions (v : UtxoViewpoint) (b : Block) (stxos : option (list SpentTxOut))
  : outcome chainErr (UtxoViewpoint * option (list SpentTxOut)) :=
  let* (v, stxos) := connect_loop v (Transactions b) (blk_height b) stxos in
  Ok (SetBestHash v (BlockHash DoubleHash (mb_Header (blk_msg b))), stxos).

(** ** Disconnecting *)

Definition MaxOutputsPerBlock : Z := 4000000 / (4 * 9).

(** The search through the view for any output of a transaction. *)
Fixpoint findByHash (fuel : nat) (v : UtxoViewpoint) (hash : list Z) (idx : Z) : option UtxoEntry :=
  match fuel with
  | O => None
  | S fuel' =>
      match LookupEntry v (mkOutPoint hash idx) with
      | Some e => Some e
      | None => findByHash fuel' v hash (idx + 1)
      end
  end.

(** [dbByHash] is dbFetchUtxoEntryByHash on the database. *)
Definition fetchEntryByHash (dbByHash : list Z -> outcome chainErr (option UtxoEntry)) (v : UtxoViewpoint)
    (hash : list Z) : outcome chainErr (option UtxoEntry) :=
  match findByHash (Z.to_nat MaxOutputsPerBlock) v hash 0 with
  | Some e => Ok (Some e)
  | None => dbByHash hash
  end.

(** The outputs of a disconnected transaction are marked as spent. *)
Fixpoint unaddOuts (v : UtxoViewpoint) (tx : MsgTx) (i : nat) (outs : list TxOut) (packedFlags blockHeight : Z)
  : UtxoViewpoint :=
  match outs with
  | [] => v
  | txOut :: outs' =>
      let v :=
        if IsUnspendable (to_PkScript txOut) then v
        else
          let prevOut := outpointOf tx i in
          let entry :=
            match LookupEntry v prevOut with
            | Some e => e
            | None => mkUtxoEntry (to_Value txOut) (to_PkScript txOut) blockHeight packedFlags
            end in
          put_entry v prevOut (Spend entry) in
      unaddOuts v tx (S i) outs' packedFlags blockHeight
  end.

(** The entry of a restored output. *)
Definition restoredEntry (stxo : SpentTxOut) : UtxoEntry :=
  mkUtxoEntry (st_Amount stxo) (st_PkScript stxo) (st_Height stxo)
    (if st_IsCoinBase stxo then Z.lor tfModified tfCoinBase else tfModified).

(** The inputs from the last to the first, with the spent outputs from the
    last to the first.  The entry of a legacy record is looked up under the
    hash of the spending transaction. *)
Fixpoint unspendIns (dbByHash : list Z -> outcome chainErr (option UtxoEntry)) (v : UtxoViewpoint) (hash : list Z)
    (ins : list TxIn) (stxos : list SpentTxOut) : outcome chainErr (UtxoViewpoint * list SpentTxOut) :=
  match ins with
  | [] => Ok (v, stxos)
  | txIn :: ins' =>
      match stxos with
      | [] => Panic
      | stxo :: stxos' =>
          let originOut := ti_PreviousOutPoint txIn in
          let v := match LookupEntry v originOut with
                   | Some _ => v
                   | None => put_entry v originOut (mkUtxoEntry 0 [] 0 0)
                   end in
          let* stxo :=
            if st_Height stxo =? 0 then
              let* utxo := fetchEntryByHash dbByHash v hash in
              match utxo with
              | None => Err (AssertError "unable to resurrect legacy stxo")
              | Some utxo =>
                  Ok (mkSpentTxOut (st_Amount stxo) (st_PkScript stxo) (ue_blockHeight utxo) (ue_IsCoinBase utxo))
              end
            else Ok stxo in
          unspendIns dbByHash (put_entry v originOut (restoredEntry stxo)) hash ins' stxos'
      end
  end.

(** The transactions from the last to the first; [isCoinBase] is [txIdx == 0]. *)
Fixpoint disconnect_loop (dbByHash : list Z -> outcome chainErr (option UtxoEntry)) (v : UtxoViewpoint)
    (rtxs : list MsgTx) (blockHeight : Z) (rstxos : list SpentTxOut) : outcome chainErr UtxoViewpoint :=
  match rtxs with
  | [] => Ok v
  | tx :: rtxs' =>
      let isCoinBase := match rtxs' with [] => true | _ => false end in
      let v := unaddOuts v tx 0 (tx_TxOut tx) (if isCoinBase then tfCoinBase else 0) blockHeight in
      if isCoinBase then disconnect_loop dbByHash v rtxs' blockHeight rstxos
      else
        let* (v, rstxos) := unspendIns dbByHash v (txHash tx) (rev (tx_TxIn tx)) rstxos in
        disconnect_loop dbByHash v rtxs' blockHeight rstxos
  end.

Definition disconnectTransactions (dbByHash : list Z -> outcome chainErr (option UtxoEntry)) (v : UtxoViewpoint)
    (b : Block) (stxos : list SpentTxOut) : outcome chainErr UtxoViewpoint :=
  let* n := countSpentOutputs b in
  if negb (len stxos =? n) then Err (AssertError "disconnectTransactions called with bad spent transaction out information")
  else
    let* v := disconnect_loop dbByHash v (rev (Transactions b)) (blk_height b) (rev stxos) in
    Ok (SetBestHash v (bh_PrevBlock (mb_Header (blk_msg b)))).
End Views.

(** ** Flags *)

Lemma flag_test x k : 0 <= k -> (Z.land x (2 ^ k) =? 2 ^ k) = Z.testbit x k.
Proof.
  intros Hk. rewrite <- (land_bit x k Hk), Z.shiftl_1_l.
  assert (H : Z.land x (2 ^ k) = if Z.testbit x k then 2 ^ k else 0).
  { apply Z.bits_inj'. intros n Hn. rewrite Z.land_spec, Z.pow2_bits_eqb by lia.
    destruct (Z.eqb_spec k n) as [->|Hne].
    - rewrite andb_true_r. destruct (Z.testbit x n); [now rewrite Z.pow2_bits_true | now rewrite Z.bits_0].
    - rewrite andb_false_r. destruct (Z.testbit x k); [now rewrite Z.pow2_bits_false | now rewrite Z.bits_0]. }
  assert (0 < 2 ^ k) by (apply Z.pow_pos_nonneg; lia). rewrite H.
  destruct (Z.testbit x k); [rewrite Z.eqb_refl | ]; decide_cmp; reflexivity.
Qed.

Lemma IsSpent_bit e : IsSpent e = Z.testbit (ue_packedFlags e) 1.
Proof. exact (flag_test _ 1 ltac:(lia)). Qed.
Lemma IsCoinBase_bit e : ue_IsCoinBase e = Z.testbit (ue_packedFlags e) 0.
Proof. exact (flag_test _ 0 ltac:(lia)). Qed.
Lemma isModified_bit e : isModified e = Z.testbit (ue_packedFlags e) 2.
Proof. exact (flag_test _ 2 ltac:(lia)). Qed.
Lemma isFresh_bit e : isFresh e = Z.testbit (ue_packedFlags e) 3.
Proof. exact (flag_test _ 3 ltac:(lia)). Qed.

Lemma IsSpent_Spend e : IsSpent (Spend e) = true.
Proof.
  unfold Spend. destruct (IsSpent e) eqn:E; [exact E|]. rewrite IsSpent_bit. cbn [with_flags ue_packedFlags].
  rewrite Z.lor_spec. apply orb_true_r.
Qed.

(** ** The set a view stands for *)

Record coin : Type := mkCoin { c_amount : Z; c_script : list Z; c_height : Z; c_coinbase : bool }.

Definition coinOf (e : UtxoEntry) : coin :=
  mkCoin (ue_amount e) (ue_pkScript e) (ue_blockHeight e) (ue_IsCoinBase e).
Definition coinOfStxo (s : SpentTxOut) : coin :=
  mkCoin (st_Amount s) (st_PkScript s) (st_Height s) (st_IsCoinBase s).
Definition coinOfOut (o : TxOut) (height : Z) (isCoinBase : bool) : coin :=
  mkCoin (to_Value o) (to_PkScript o) height isCoinBase.

Abbreviation utxoSet := (gmap OutPoint coin).

Definition live (e : option UtxoEntry) : option coin :=
  match e with Some e => if IsSpent e then None else Some (coinOf e) | None => None end.

(** [base] is the set at the end of the chain. *)
Definition abs (base : utxoSet) (v : UtxoViewpoint) : utxoSet :=
  merge (fun e c => match e with Some e => live e | None => c end) (uv_entries v) base.

Lemma lookup_abs base v op :
  abs base v !! op = match uv_entries v !! op with Some e => live e | None => base !! op end.
Proof. unfold abs. rewrite lookup_merge. now destruct (uv_entries v !! op), (base !! op). Qed.

Lemma abs_put base v op e :
  abs base (put_entry v op e) = if IsSpent e then delete op (abs base v) else <[op := coinOf e]> (abs base v).
Proof.
  apply map_eq. intros op'. rewrite lookup_abs. cbn [put_entry set_entries uv_entries].
  destruct (decide (op = op')) as [<-|Hne].
  - rewrite lookup_insert_eq. cbn [live]. destruct (IsSpent e); now simplify_map_eq.
  - rewrite lookup_insert_ne by exact Hne. destruct (IsSpent e); simplify_map_eq; now rewrite lookup_abs.
Qed.

Lemma abs_best base v h : abs base (SetBestHash v h) = abs base v.
Proof. reflexivity. Qed.

Lemma abs_spend base v op e : abs base (put_entry v op (Spend e)) = delete op (abs base v).
Proof. now rewrite abs_put, IsSpent_Spend. Qed.

Lemma abs_fresh base v op o cb h :
  abs base (put_entry v op (freshEntry o cb h)) = <[op := coinOfOut o h cb]> (abs base v).
Proof.
  rewrite abs_put, IsSpent_bit. unfold coinOf. rewrite IsCoinBase_bit. now destruct cb.
Qed.

Lemma abs_restored base v op s :
  abs base (put_entry v op (restoredEntry s)) = <[op := coinOfStxo s]> (abs base v).
Proof.
  rewrite abs_put, IsSpent_bit. unfold coinOf. rewrite IsCoinBase_bit. unfold restoredEntry, coinOfStxo.
  now destruct (st_IsCoinBase s).
Qed.

(** ** The ledger *)

(** The coins a list of outputs creates, from index [i] on. *)
Fixpoint newCoins (hash : list Z) (i : nat) (outs : list TxOut) (h : Z) (cb : bool) : list (OutPoint * coin) :=
  match outs with
  | [] => []
  | o :: outs' =>
      (if IsUnspendable (to_PkScript o) then [] else [(mkOutPoint hash (u32 (Z.of_nat i)), coinOfOut o h cb)]) ++
      newCoins hash (S i) outs' h cb
  end.

Definition addCoins (U : utxoSet) (l : list (OutPoint * coin)) : utxoSet :=
  fold_left (fun U p => <[p.1 := p.2]> U) l U.
Definition delCoins (U : utxoSet) (l : list OutPoint) : utxoSet := fold_left (fun U k => delete k U) l U.

Definition spentBy (tx : MsgTx) : list OutPoint := map ti_PreviousOutPoint (tx_TxIn tx).

Section Ledger.
Context (DoubleHash : list Z -> list Z).

Definition createdBy (h : Z) (tx : MsgTx) : list (OutPoint * coin) :=
  newCoins (txHash DoubleHash tx) 0 (tx_TxOut tx) h (IsCoinBaseTx tx).

(** The effect of a transaction: its inputs leave the set, its outputs enter. *)
Definition applyTx (h : Z) (U : utxoSet) (tx : MsgTx) : utxoSet :=
  addCoins (if IsCoinBaseTx tx then U else delCoins U (spentBy tx)) (createdBy h tx).

Definition applyBlock (U : utxoSet) (b : Block) : utxoSet :=
  fold_left (applyTx (blk_height b)) (Transactions b) U.

Lemma addTxOuts_abs base tx cb h outs : forall v i,
  abs base (addTxOuts_loop DoubleHash v tx i outs cb h) =
  addCoins (abs base v) (newCoins (txHash DoubleHash tx) i outs h cb).
Proof.
  induction outs as [|o outs IH]; intros v i; [reflexivity|]. cbn [addTxOuts_loop newCoins].
  rewrite IH. unfold addTxOut. destruct (IsUnspendable (to_PkScript o)); [reflexivity|].
  rewrite abs_fresh. reflexivity.
Qed.

Lemma AddTxOuts_abs base v tx h :
  abs base (AddTxOuts DoubleHash v tx h) = addCoins (abs base v) (createdBy h tx).
Proof. apply addTxOuts_abs. Qed.

Lemma spendInputs_abs base ins : forall v stxos v' stxos',
  spendInputs v ins stxos = Ok (v', stxos') ->
  abs base v' = delCoins (abs base v) (map ti_PreviousOutPoint ins).
Proof.
  induction ins as [|ti ins IH]; intros v stxos v' stxos' H; cbn [spendInputs] in H;
    [now injection H as <- _|].
  destruct (LookupEntry v _) as [e|]; [|discriminate]. apply IH in H. rewrite H, abs_spend. reflexivity.
Qed.

(** Connecting a transaction has the effect of the ledger. *)
Lemma connectTransaction_abs base v tx h stxos v' stxos' :
  connectTransaction DoubleHash v tx h stxos = Ok (v', stxos') ->
  abs base v' = applyTx h (abs base v) tx.
Proof.
  unfold connectTransaction, applyTx. destruct (IsCoinBaseTx tx).
  - intros H. injection H as <- _. apply AddTxOuts_abs.
  - intros H. apply obind_Ok in H. destruct H as ([v1 s1] & H1 & H). injection H as <- _.
    rewrite AddTxOuts_abs, (spendInputs_abs base _ _ _ _ _ H1). reflexivity.
Qed.

Lemma connect_loop_abs base h txs : forall v stxos v' stxos',
  connect_loop DoubleHash v txs h stxos = Ok (v', stxos') ->
  abs base v' = fold_left (applyTx h) txs (abs base v).
Proof.
  induction txs as [|tx txs IH]; intros v stxos v' stxos' H; cbn [connect_loop] in H; [now injection H as <- _|].
  apply obind_Ok in H. destruct H as ([v1 s1] & H1 & H). rewrite (IH _ _ _ _ H).
  now rewrite (connectTransaction_abs _ _ _ _ _ _ _ H1).
Qed.
End Ledger.

(** ** Undoing *)

Lemma lookup_delCoins l : forall U k, delCoins U l !! k = if decide (k ∈ l) then None else U !! k.
Proof.
  induction l as [|x l IH]; intros U k; [reflexivity|]. change (delCoins U (x :: l)) with (delCoins (delete x U) l).
  rewrite IH, lookup_delete. repeat case_decide; try reflexivity; exfalso; set_solver.
Qed.

Lemma lookup_addCoins_ne l : forall U k, k ∉ map fst l -> addCoins U l !! k = U !! k.
Proof.
  induction l as [|[x c] l IH]; intros U k Hk; [reflexivity|].
  change (addCoins U ((x, c) :: l)) with (addCoins (<[x := c]> U) l). cbn [map fst] in Hk.
  rewrite IH by set_solver. apply lookup_insert_ne. set_solver.
Qed.

Lemma lookup_addCoins_agree l : forall U U' k, U !! k = U' !! k -> addCoins U l !! k = addCoins U' l !! k.
Proof.
  induction l as [|[x c] l IH]; intros U U' k H; [exact H|].
  change (addCoins U ((x, c) :: l)) with (addCoins (<[x := c]> U) l).
  change (addCoins U' ((x, c) :: l)) with (addCoins (<[x := c]> U') l). apply IH.
  destruct (decide (x = k)) as [<-|Hne]; [now rewrite !lookup_insert_eq | now rewrite !lookup_insert_ne].
Qed.

Lemma f_equal_lookup (U U' : utxoSet) (P : OutPoint -> Prop) : U = U' -> forall k, P k -> U !! k = U' !! k.
Proof. now intros ->. Qed.

Lemma lookup_addCoins_in l : forall U k c, NoDup (map fst l) -> (k, c) ∈ l -> addCoins U l !! k = Some c.
Proof.
  induction l as [|[x d] l IH]; intros U k c Hd Hk; [set_solver|].
  change (addCoins U ((x, d) :: l)) with (addCoins (<[x := d]> U) l). cbn [map fst] in Hd.
  apply NoDup_cons in Hd. destruct Hd as [Hx Hd]. apply elem_of_cons in Hk. destruct Hk as [E|Hk].
  - injection E as -> ->. rewrite lookup_addCoins_ne by exact Hx. apply lookup_insert_eq.
  - now apply IH.
Qed.

Lemma del_addCoins U l : (forall k, k ∈ map fst l -> U !! k = None) -> delCoins (addCoins U l) (map fst l) = U.
Proof.
  intros Hf. apply map_eq. intros k. rewrite lookup_delCoins. case_decide as Hk.
  - symmetry. now apply Hf.
  - now apply lookup_addCoins_ne.
Qed.

(** Putting back what was deleted. *)
Lemma add_delCoins U ks l : NoDup (map fst l) -> (forall k, k ∈ ks <-> k ∈ map fst l) ->
  (forall k c, (k, c) ∈ l -> U !! k = Some c) -> addCoins (delCoins U ks) l = U.
Proof.
  intros Hd Hks Hl. apply map_eq. intros k. destruct (decide (k ∈ map fst l)) as [Hk|Hk].
  - apply list_elem_of_In, in_map_iff in Hk. destruct Hk as ([k' c] & E & Hin). cbn in E. subst k'.
    apply list_elem_of_In in Hin. rewrite (lookup_addCoins_in l _ k c Hd Hin). symmetry. now apply Hl.
  - rewrite lookup_addCoins_ne, lookup_delCoins by exact Hk. rewrite decide_False by (now rewrite Hks). reflexivity.
Qed.

Section Undo.
Context (DoubleHash : list Z -> list Z) (dbByHash : list Z -> outcome chainErr (option UtxoEntry)).

Lemma unaddOuts_abs base tx fl h cb outs : forall v i,
  abs base (unaddOuts DoubleHash v tx i outs fl h) =
  delCoins (abs base v) (map fst (newCoins (txHash DoubleHash tx) i outs h cb)).
Proof.
  induction outs as [|o outs IH]; intros v i; [reflexivity|]. cbn [unaddOuts newCoins].
  rewrite IH. destruct (IsUnspendable (to_PkScript o)); [reflexivity|]. rewrite abs_spend. reflexivity.
Qed.

Lemma unspendIns_abs base hash ins : forall v ss rest,
  List.length ss = List.length ins -> Forall (fun s => st_Height s <> 0) ss ->
  exists v', unspendIns dbByHash v hash ins (ss ++ rest) = Ok (v', rest) /\
    abs base v' = addCoins (abs base v) (combine (map ti_PreviousOutPoint ins) (map coinOfStxo ss)).
Proof.
  induction ins as [|ti ins IH]; intros v ss rest Hl Hh.
  - destruct ss; [|discriminate]. exists v. split; reflexivity.
  - destruct ss as [|s ss]; [discriminate|]. injection Hl as Hl. apply Forall_cons in Hh. destruct Hh as [Hs Hh].
    cbn [unspendIns app]. decide_cmp. cbn [obind].
    set (op := ti_PreviousOutPoint ti). set (v0 := match LookupEntry v op with Some _ => v | None => _ end).
    destruct (IH (put_entry v0 op (restoredEntry s)) ss rest Hl Hh) as (v' & E & Ha).
    exists v'. split; [exact E|]. rewrite Ha, abs_restored. cbn [map combine]. fold op.
    change (addCoins (abs base v) ((op, coinOfStxo s) :: ?l)) with (addCoins (<[op := coinOfStxo s]> (abs base v)) l).
    f_equal. unfold v0. destruct (LookupEntry v op); [reflexivity|]. rewrite abs_put.
    destruct (IsSpent _); [apply insert_delete_eq | apply insert_insert_eq].
Qed.

Lemma spendInputs_none ins : forall v v' l, spendInputs v ins None = Ok (v', Some l) -> False.
Proof.
  induction ins as [|ti ins IH]; intros v v' l H; cbn [spendInputs] in H; [discriminate|].
  destruct (LookupEntry v _); [|discriminate]. exact (IH _ _ _ H).
Qed.

(** The outputs a transaction spends, as the journal records them. *)
Lemma spendInputs_stxos base ins : forall v l v' l',
  spendInputs v ins (Some l) = Ok (v', Some l') -> NoDup (map ti_PreviousOutPoint ins) ->
  Forall (fun op => is_Some (abs base v !! op)) (map ti_PreviousOutPoint ins) ->
  exists ss, l' = l ++ ss /\ List.length ss = List.length ins /\
    Forall2 (fun op s => abs base v !! op = Some (coinOfStxo s)) (map ti_PreviousOutPoint ins) ss.
Proof.
  induction ins as [|ti ins IH]; intros v l v' l' H Hd Hf; cbn [spendInputs] in H.
  - injection H as _ <-. exists []. rewrite app_nil_r. repeat split; constructor.
  - cbn [map] in *. apply NoDup_cons in Hd. destruct Hd as [Hn Hd]. apply Forall_cons in Hf. destruct Hf as [[c Hc] Hf].
    destruct (LookupEntry v _) as [e|] eqn:El; [|discriminate].
    assert (He : abs base v !! ti_PreviousOutPoint ti = Some (coinOfStxo (stxoOf e))).
    { rewrite lookup_abs in Hc |- *. unfold LookupEntry in El.
      destruct (uv_entries v !! _) as [o|]; [|discriminate]. subst o. cbn [live] in *.
      destruct (IsSpent e); [discriminate|]. reflexivity. }
    assert (Hlook : forall op, op ∈ map ti_PreviousOutPoint ins ->
      abs base (put_entry v (ti_PreviousOutPoint ti) (Spend e)) !! op = abs base v !! op).
    { intros op Hop. rewrite abs_spend. apply lookup_delete_ne. intros <-. contradiction. }
    destruct (IH _ _ _ _ H Hd) as (ss & E & Hl & H2).
    { apply Forall_forall. intros op Hop. rewrite Hlook by exact Hop.
      rewrite Forall_forall in Hf. auto. }
    exists (stxoOf e :: ss). rewrite E, <- app_assoc. split; [reflexivity|]. split; [cbn; lia|].
    constructor; [exact He|]. eapply Forall2_impl; [exact H2|]. cbv beta.
    intros op s Hs. rewrite abs_spend in Hs. destruct (decide (ti_PreviousOutPoint ti = op)) as [<-|Hne].
    + now rewrite lookup_delete_eq in Hs.
    + now rewrite lookup_delete_ne in Hs.
Qed.

(** What a valid transaction needs: distinct inputs that exist, with a recorded
    height, and outputs that do not exist yet. *)
Definition spends_ok (U : utxoSet) (tx : MsgTx) : Prop :=
  NoDup (spentBy tx) /\ Forall (fun op => exists c, U !! op = Some c /\ c_height c <> 0) (spentBy tx).
Definition fresh_in (h : Z) (U : utxoSet) (tx : MsgTx) : Prop :=
  forall k, k ∈ map fst (createdBy DoubleHash h tx) -> U !! k = None.
Definition tx_fits (h : Z) (U : utxoSet) (tx : MsgTx) : Prop :=
  if IsCoinBaseTx tx then fresh_in h U tx
  else spends_ok U tx /\ fresh_in h (delCoins U (spentBy tx)) tx.
Fixpoint fits (h : Z) (U : utxoSet) (txs : list MsgTx) : Prop :=
  match txs with
  | [] => True
  | tx :: txs' => tx_fits h U tx /\ fits h (applyTx DoubleHash h U tx) txs'
  end.

Lemma fits_app h txs1 : forall U txs2,
  fits h U (txs1 ++ txs2) <-> fits h U txs1 /\ fits h (fold_left (applyTx DoubleHash h) txs1 U) txs2.
Proof. induction txs1 as [|tx txs1 IH]; intros U txs2; cbn [app fits fold_left]; [tauto|]. rewrite IH. tauto. Qed.

Lemma connect_loop_app h txs1 : forall v txs2 stxos,
  connect_loop DoubleHash v (txs1 ++ txs2) h stxos =
  (let* (v, stxos) := connect_loop DoubleHash v txs1 h stxos in connect_loop DoubleHash v txs2 h stxos).
Proof.
  induction txs1 as [|tx txs1 IH]; intros v txs2 stxos; [reflexivity|]. cbn [app connect_loop].
  destruct (connectTransaction DoubleHash v tx h stxos) as [[v1 s1]| |]; [apply IH | reflexivity | reflexivity].
Qed.

Lemma combine_snoc {A B} (l : list A) (x : A) (y : B) : forall l', List.length l = List.length l' ->
  combine (l ++ [x]) (l' ++ [y]) = combine l l' ++ [(x, y)].
Proof. induction l as [|a l IH]; intros [|b l'] Hl; try discriminate; [reflexivity|]. injection Hl as Hl. cbn. now rewrite IH. Qed.

Lemma in_combine_rev {A B} (l : list A) (l' : list B) x y : List.length l = List.length l' ->
  In (x, y) (combine (rev l) (rev l')) -> In (x, y) (combine l l').
Proof.
  revert l'. induction l as [|a l IH]; intros [|b l'] Hl H; try discriminate; [destruct H|].
  injection Hl as Hl. cbn [rev] in H. rewrite combine_snoc in H by (now rewrite !length_rev).
  apply in_app_or in H. destruct H as [H|[H|[]]]; [right; now apply IH | now left].
Qed.

Lemma undo_tx base v tx h l v' l' fl :
  IsCoinBaseTx tx = false -> tx_fits h (abs base v) tx ->
  connectTransaction DoubleHash v tx h (Some l) = Ok (v', Some l') ->
  exists ss, l' = l ++ ss /\ List.length ss = List.length (tx_TxIn tx) /\
    forall base2 v2 rest (P : OutPoint -> Prop),
    (forall k, P k -> k ∉ map fst (createdBy DoubleHash h tx) -> abs base2 v2 !! k = abs base v' !! k) ->
    exists v3, unspendIns dbByHash (unaddOuts DoubleHash v2 tx 0 (tx_TxOut tx) fl h) (txHash DoubleHash tx)
                 (rev (tx_TxIn tx)) (rev ss ++ rest) = Ok (v3, rest) /\
      forall k, P k -> abs base2 v3 !! k = abs base v !! k.
Proof.
  unfold tx_fits. intros Hcb Hfit Hc. rewrite Hcb in Hfit. destruct Hfit as [[Hd Hin] Hfresh].
  pose proof (connectTransaction_abs DoubleHash base _ _ _ _ _ _ Hc) as Ha.
  unfold applyTx in Ha. rewrite Hcb in Ha.
  unfold connectTransaction in Hc. rewrite Hcb in Hc. apply obind_Ok in Hc. destruct Hc as ([v1 s1] & Hs & Hc).
  injection Hc as _ ->.
  destruct (spendInputs_stxos base _ _ _ _ _ Hs Hd) as (ss & -> & Hl & H2).
  { eapply Forall_impl; [exact Hin|]. intros op (c & Hop & _). now exists c. }
  exists ss. split; [reflexivity|]. split; [exact Hl|]. intros base2 v2 rest P Hv2.
  destruct (unspendIns_abs base2 (txHash DoubleHash tx) (rev (tx_TxIn tx))
    (unaddOuts DoubleHash v2 tx 0 (tx_TxOut tx) fl h) (rev ss) rest) as (v3 & E & Hv3).
  { now rewrite !length_rev. }
  { apply Forall_rev. rewrite Forall_lookup. intros i s Hi.
    destruct (Forall2_lookup_r _ _ _ _ _ H2 Hi) as (op & Hop & Hc).
    rewrite Forall_lookup in Hin. destruct (Hin i op Hop) as (c & Hc' & Hne). rewrite Hc in Hc'. now injection Hc' as <-. }
  exists v3. split; [exact E|]. intros k Pk. rewrite Hv3, (unaddOuts_abs base2 tx fl h (IsCoinBaseTx tx)).
  fold (createdBy DoubleHash h tx).
  rewrite (lookup_addCoins_agree _ _ (delCoins (abs base v') (map fst (createdBy DoubleHash h tx))))
    by (rewrite !lookup_delCoins; case_decide as Hk; [reflexivity | exact (Hv2 k Pk Hk)]).
  revert k Pk. apply (f_equal_lookup _ _). rewrite Ha, del_addCoins by exact Hfresh. rewrite !map_rev. fold (spentBy tx).
  assert (Hlen : List.length (spentBy tx) = List.length (map coinOfStxo ss)) by (unfold spentBy; now rewrite !length_map).
  apply add_delCoins.
  - rewrite map_fst_combine by (now rewrite !length_rev). now apply NoDup_ListNoDup, List.NoDup_rev, NoDup_ListNoDup.
  - intros k. rewrite map_fst_combine by (now rewrite !length_rev). rewrite !list_elem_of_In, <- in_rev. reflexivity.
  - intros k c Hk. apply list_elem_of_In, in_combine_rev in Hk; [|exact Hlen].
    clear -H2 Hk. unfold spentBy in *. induction H2 as [|op s ops ss' Hs _ IH]; [destruct Hk|].
    destruct Hk as [Hk|Hk]; [now injection Hk as <- <- | now apply IH].
Qed.

Lemma undo_block base v cb rest h l : IsCoinBaseTx cb = true -> Forall (fun tx => IsCoinBaseTx tx = false) rest ->
  fits h (abs base v) (cb :: rest) -> forall v' l',
  connect_loop DoubleHash v (cb :: rest) h (Some l) = Ok (v', Some l') ->
  exists ss, l' = l ++ ss /\ len ss = fold_left (fun n tx => n + len (tx_TxIn tx)) rest 0 /\
    forall base2 v2, (forall k, Forall (fun tx => k ∉ map fst (createdBy DoubleHash h tx)) (cb :: rest) ->
      abs base2 v2 !! k = abs base v' !! k) ->
    forall tail, exists v3, disconnect_loop DoubleHash dbByHash v2 (rev (cb :: rest)) h (rev ss ++ tail) = Ok v3 /\
      abs base2 v3 = abs base v.
Proof.
  intros Hcb. induction rest as [|tx rest IH] using rev_ind; intros Hrest Hfit v' l' Hc.
  - cbn [connect_loop] in Hc. apply obind_Ok in Hc. destruct Hc as ([v1 s1] & Hc & E). injection E as -> ->.
    cbn [fits] in Hfit. destruct Hfit as [Hfit _]. unfold tx_fits in Hfit. rewrite Hcb in Hfit.
    pose proof (connectTransaction_abs DoubleHash base _ _ _ _ _ _ Hc) as Ha. unfold applyTx in Ha. rewrite Hcb in Ha.
    unfold connectTransaction in Hc. rewrite Hcb in Hc. injection Hc as _ <-.
    exists []. rewrite app_nil_r. split; [reflexivity|]. split; [reflexivity|]. intros base2 v2 Hv2 tail.
    eexists. split; [reflexivity|]. rewrite (unaddOuts_abs base2 cb _ h (IsCoinBaseTx cb)).
    fold (createdBy DoubleHash h cb). rewrite <- (del_addCoins (abs base v) (createdBy DoubleHash h cb) Hfit), <- Ha.
    apply map_eq. intros k. rewrite !lookup_delCoins. case_decide as Hk; [reflexivity|]. apply Hv2. now repeat constructor.
  - apply Forall_app in Hrest. destruct Hrest as [Hrest Htx]. apply Forall_cons in Htx. destruct Htx as [Htx _].
    rewrite app_comm_cons in *. apply fits_app in Hfit. destruct Hfit as [Hfit Hfit'].
    rewrite connect_loop_app in Hc. apply obind_Ok in Hc. destruct Hc as ([v1 s1] & Hc1 & Hc).
    rewrite <- (connect_loop_abs DoubleHash base h _ _ _ _ _ Hc1) in Hfit'. cbn [fits] in Hfit'. destruct Hfit' as [Hfit' _].
    cbn [connect_loop] in Hc. apply obind_Ok in Hc. destruct Hc as ([v1' s1'] & Hc & E). injection E as -> ->.
    destruct s1 as [l1|]; [|exfalso; revert Hc; unfold connectTransaction; rewrite Htx; intros Hc;
      apply obind_Ok in Hc; destruct Hc as ([? ?] & Hs & Hc); injection Hc as _ ->; exact (spendInputs_none _ _ _ _ Hs)].
    destruct (IH Hrest Hfit _ _ Hc1) as (ss & -> & Hn & Hundo). clear IH.
    destruct (undo_tx base v1 tx h (l ++ ss) v' l' 0 Htx Hfit' Hc) as (st & -> & Hl & Hu).
    exists (ss ++ st). rewrite app_assoc. split; [reflexivity|]. split.
    { rewrite len_app, fold_left_app, Hn. cbn [fold_left]. unfold len. lia. }
    intros base2 v2 Hv2 tail. rewrite rev_app_distr. cbn [rev app disconnect_loop].
    destruct (rev rest ++ [cb]) as [|t ts] eqn:Er; [destruct (rev rest); discriminate|].
    destruct (Hu base2 v2 (rev ss ++ tail) (fun k => Forall (fun tx => k ∉ map fst (createdBy DoubleHash h tx)) (cb :: rest)))
      as (v3 & E3 & Ha3).
    { intros k Hk Hn'. apply Hv2. change (cb :: rest ++ [tx]) with ((cb :: rest) ++ [tx]). apply Forall_app. split; [exact Hk | now repeat constructor]. }
    rewrite rev_app_distr, <- app_assoc, E3. cbn [obind].
    destruct (Hundo base2 v3 Ha3 tail) as (v4 & E4 & Ha4).
    exists v4. cbn [rev] in E4. rewrite Er in E4. split; [exact E4 | exact Ha4].
Qed.
End Undo.

(** ** Properties *)

(** The effect of connecting a block to a view is that of the ledger. *)
Lemma connectTransactions_abs DH base v b stxos v' stxos' :
  connectTransactions DH v b stxos = Ok (v', stxos') -> abs base v' = applyBlock DH (abs base v) b.
Proof.
  unfold connectTransactions. intros H. apply obind_Ok in H. destruct H as ([v1 s1] & H & E).
  injection E as <- _. rewrite abs_best. exact (connect_loop_abs DH base _ _ _ _ _ _ H).
Qed.


(** *** A block that spends an output of its own *)

Definition toyId (l : list Z) : list Z := firstn 32 (l ++ repeat 0 32).

Lemma toyId_len l : len (toyId l) = 32.
Proof.
  unfold toyId, len. rewrite firstn_length_le; [reflexivity|]. rewrite length_app, repeat_length. lia.
Qed.

Definition cbTx : MsgTx :=
  mkMsgTx 1 [mkTxIn (mkOutPoint zeroHash 0xffffffff) [1; 2] None 0xffffffff] [mkTxOut 50 [0x51]; mkTxOut 1 [0x6a]] 0.
Definition payTx : MsgTx :=
  mkMsgTx 2 [mkTxIn (outpointOf toyId cbTx 0) [] None 0; mkTxIn (mkOutPoint (repeat 7 32) 3) [] None 0]
    [mkTxOut 30 [0x51]] 0.
Definition sampleBlock : Block :=
  mkBlock (mkMsgBlock (mkBlockHeader 1 (repeat 5 32) zeroHash 0 0 0) [cbTx; payTx]) 9.
Definition sampleBase : utxoSet := {[ mkOutPoint (repeat 7 32) 3 := mkCoin 5 [0x51] 4 true ]}.
Definition sampleView : UtxoViewpoint :=
  mkView {[ mkOutPoint (repeat 7 32) 3 := Some (mkUtxoEntry 5 [0x51] 4 tfCoinBase) ]} zeroHash.
Definition sampleConnected : UtxoViewpoint * option (list SpentTxOut) :=
  match connectTransactions toyId sampleView sampleBlock (Some []) with Ok p => p | _ => (sampleView, None) end.


(** [commit] sets the modified bit of an entry that did not have it. *)
Lemma commit_marks_modified v op e : uv_entries v !! op = Some (Some e) -> isModified e = false ->
  exists e', uv_entries (commit v) !! op = Some (Some e') /\ isModified e' = true.
Proof.
  intros He Hm. exists (with_flags e (Z.lxor (ue_packedFlags e) tfModified)). split.
  - cbn [commit set_entries uv_entries]. rewrite lookup_omap, He. cbn [mbind option_bind]. now rewrite Hm.
  - rewrite isModified_bit in *. cbn [with_flags ue_packedFlags]. rewrite Z.lxor_spec, Hm. reflexivity.
Qed.

(** A legacy record of an output from another block is restored with the height
    of the block that spent it: the lookup uses the spending transaction. *)
Lemma legacy_height_wrong :
  let legacy := [mkSpentTxOut 50 [0x51] 9 true; mkSpentTxOut 5 [0x51] 0 false] in
  exists v3, disconnectTransactions toyId (fun _ => Ok None) (fst sampleConnected) sampleBlock legacy = Ok v3 /\
    abs sampleBase v3 !! mkOutPoint (repeat 7 32) 3 = Some (mkCoin 5 [0x51] 9 false).
Proof. eexists. split; vm_compute; reflexivity. Qed.
