(* ===== verification/UtxoCache.v ===== *)
(** * The utxo cache (blockchain/utxocache.go)

    The set of unspent outputs at the end of the chain: entries in memory,
    spread over a slice of maps, over a database of serialized records
    (blockchain/chainio.go).  Connecting transactions changes the entries in
    memory, a flush writes them out; together they stand for one finite map,
    which moves as the ledger of UtxoView.v says. *)

From Stdlib Require Import ZArith List Lia Bool String.
From stdpp Require Import gmap.
From S2P Require Import Prelude GoSlice GoIO WireCommon WireTx WireMsgs Merkle Compress Script ChainIO UtxoView.
Import ListNotations.
Local Open Scope string_scope.
Local Open Scope list_scope.
Local Open Scope Z_scope.
Local Open Scope go_scope.

(** ** The database *)

(** The utxo bucket, keyed by the bytes of outpoints, and the hash up to which
    it is consistent. *)
Record utxoDB : Type := mkUtxoDB {
  db_utxos : gmap (list Z) (list Z);
  db_consistency : option (list Z)
}.
Definition set_utxos (db : utxoDB) (m : gmap (list Z) (list Z)) : utxoDB := mkUtxoDB m (db_consistency db).

Definition dbPutUtxoStateConsistency (db : utxoDB) (hash : list Z) : utxoDB := mkUtxoDB (db_utxos db) (Some hash).
Definition dbFetchUtxoStateConsistency (db : utxoDB) : option (list Z) := db_consistency db.

Section Records.
Context {PubKey : Type} (ParsePubKey : list Z -> option PubKey)
        (SerializeUncompressed : PubKey -> list Z).

Definition dbFetchUtxoEntry (db : utxoDB) (outpoint : OutPoint) : outcome chainErr (option UtxoEntry) :=
  let* key := lift_derr (OutpointKey outpoint) in
  match db_utxos db !! key with
  | None => Ok None
  | Some serializedUtxo =>
      if len serializedUtxo =? 0 then Err (AssertError "database contains entry for spent tx output")
      else
        match deserializeUtxoEntry ParsePubKey SerializeUncompressed serializedUtxo with
        | Ok e => Ok (Some e)
        | Err _ => Err ErrCorruption
        | Panic => Panic
        end
  end.

Definition dbDeleteUtxoEntry (db : utxoDB) (outpoint : OutPoint) : outcome chainErr utxoDB :=
  let* key := lift_derr (OutpointKey outpoint) in
  Ok (set_utxos db (delete key (db_utxos db))).

Definition dbPutUtxoEntry (db : utxoDB) (outpoint : OutPoint) (entry : option UtxoEntry) : outcome chainErr utxoDB :=
  match entry with
  | None => Err (AssertError "trying to store nil or spent entry")
  | Some e =>
      if IsSpent e then Err (AssertError "trying to store nil or spent entry")
      else
        let* serialized := serializeUtxoEntry ParsePubKey e in
        let* key := lift_derr (OutpointKey outpoint) in
        Ok (set_utxos db (<[key := serialized]> (db_utxos db)))
  end.

(** One entry of dbPutUtxoView. *)
Definition putViewEntry (db : utxoDB) (p : OutPoint * option UtxoEntry) : outcome chainErr utxoDB :=
  match snd p with
  | None => Ok db
  | Some e =>
      if negb (isModified e) then Ok db
      else if IsSpent e then dbDeleteUtxoEntry db (fst p)
      else dbPutUtxoEntry db (fst p) (Some e)
  end.

Fixpoint fold_ok {A B E} (f : A -> B -> outcome E A) (a : A) (l : list B) : outcome E A :=
  match l with [] => Ok a | x :: l' => let* a := f a x in fold_ok f a l' end.

(** [iter] is the unspecified order in which Go ranges over a map. *)
Definition dbPutUtxoView (iter : gmap OutPoint (option UtxoEntry) -> list (OutPoint * option UtxoEntry))
    (db : utxoDB) (v : option UtxoViewpoint) : outcome chainErr utxoDB :=
  match v with
  | None => Ok db
  | Some v => fold_ok putViewEntry db (iter (uv_entries v))
  end.
End Records.

(** ** The slice of maps *)

Abbreviation entryMap := (gmap OutPoint (option UtxoEntry)).

Record mapSlice : Type := mkMapSlice {
  ms_maps : list entryMap;
  ms_maxEntries : list Z;
  ms_maxTotalMemoryUsage : Z
}.

Definition ms_length (ms : mapSlice) : Z := fold_left (fun l m => l + Z.of_nat (base.size m)) (ms_maps ms) 0.

(** The first map that has the key; the outer option is the second result. *)
Fixpoint get_maps (maps : list entryMap) (op : OutPoint) : option (option UtxoEntry) :=
  match maps with
  | [] => None
  | m :: maps' => match m !! op with Some e => Some e | None => get_maps maps' op end
  end.
Definition ms_get (ms : mapSlice) (op : OutPoint) : option (option UtxoEntry) := get_maps (ms_maps ms) op.

(** The first loop of put: overwrite where the key is. *)
Fixpoint put_existing (maps : list entryMap) (op : OutPoint) (e : option UtxoEntry) : option (list entryMap) :=
  match maps with
  | [] => None
  | m :: maps' =>
      match m !! op with
      | Some _ => Some (<[op := e]> m :: maps')
      | None => match put_existing maps' op e with Some r => Some (m :: r) | None => None end
      end
  end.

(** The second loop: the first map that is not full. *)
Fixpoint put_room (maps : list entryMap) (maxs : list Z) (op : OutPoint) (e : option UtxoEntry)
  : option (list entryMap) :=
  match maps, maxs with
  | m :: maps', maxNum :: maxs' =>
      if maxNum <=? Z.of_nat (base.size m)
      then match put_room maps' maxs' op e with Some r => Some (m :: r) | None => None end
      else Some (<[op := e]> m :: maps')
  | _, _ => None
  end.

Definition ms_delete (ms : mapSlice) (op : OutPoint) : mapSlice :=
  mkMapSlice (map (delete op) (ms_maps ms)) (ms_maxEntries ms) (ms_maxTotalMemoryUsage ms).

Definition deleteMaps (ms : mapSlice) : outcome chainErr mapSlice :=
  let* size := get_at (ms_maxEntries ms) 0 in
  let* maps := slice (ms_maps ms) 0 1 in
  Ok (mkMapSlice maps [size] (ms_maxTotalMemoryUsage ms)).

(** An entry is changed through the pointer a lookup returned. *)
Fixpoint alter_maps (maps : list entryMap) (op : OutPoint) (f : UtxoEntry -> UtxoEntry) : list entryMap :=
  match maps with
  | [] => []
  | m :: maps' =>
      match m !! op with
      | Some e => <[op := match e with Some e => Some (f e) | None => None end]> m :: maps'
      | None => m :: alter_maps maps' op f
      end
  end.
Definition ms_alter (ms : mapSlice) (op : OutPoint) (f : UtxoEntry -> UtxoEntry) : mapSlice :=
  mkMapSlice (alter_maps (ms_maps ms) op f) (ms_maxEntries ms) (ms_maxTotalMemoryUsage ms).

(** Sizes of blockchain/internal/sizehelper. *)
Definition UtxoCacheBucketSize : Z := 16 + 8 * 36 + 8 * 8.
Definition BaseEntrySize : Z := 40.
Definition AvgEntrySize : Z := BaseEntrySize + (25 + 7).

Definition memoryUsage (e : option UtxoEntry) : Z :=
  match e with None => 0 | Some e => u64 (BaseEntrySize + len (ue_pkScript e)) end.

(** ** The cache *)

Record utxoCache : Type := mkUtxoCache {
  uc_maxTotalMemoryUsage : Z;
  uc_cachedEntries : mapSlice;
  uc_totalEntryMemory : Z;
  uc_lastFlushHash : list Z;
  uc_lastFlushTime : Z
}.

Definition with_cached (s : utxoCache) (ms : mapSlice) (mem : Z) : utxoCache :=
  mkUtxoCache (uc_maxTotalMemoryUsage s) ms mem (uc_lastFlushHash s) (uc_lastFlushTime s).

Inductive FlushMode : Type := FlushRequired | FlushPeriodic | FlushIfNeeded.
Definition UtxoFlushPeriodicInterval : Z := 5 * 60 * 10 ^ 9.

Section Cache.
Context {PubKey : Type} (ParsePubKey : list Z -> option PubKey)
        (SerializeUncompressed : PubKey -> list Z).
(** sizehelper.CalculateRoughMapSize and CalculateMinEntries: estimates of the
    memory a map takes, on which only the number of maps depends. *)
Context (CalculateRoughMapSize : Z -> Z -> Z) (CalculateMinEntries : Z -> Z -> Z).
(** The unspecified order in which Go ranges over a map. *)
Context (iter : entryMap -> list (OutPoint * option UtxoEntry)).
Context (DoubleHash : list Z -> list Z).

Definition ms_size (ms : mapSlice) : Z :=
  fold_left (fun size num => i64 (size + CalculateRoughMapSize num UtxoCacheBucketSize)) (ms_maxEntries ms) 0.

(** The capacity of a new map. *)
Definition newMapSize (ms : mapSlice) (totalEntryMemory : Z) : Z :=
  let memSize := u64 (ms_maxTotalMemoryUsage ms - totalEntryMemory) in
  let memSize := fold_left (fun mem maxNum => u64 (mem - u64 (CalculateRoughMapSize maxNum UtxoCacheBucketSize)))
                   (ms_maxEntries ms) memSize in
  CalculateMinEntries (i64 memSize) (UtxoCacheBucketSize + AvgEntrySize) - 1.

Definition ms_put (ms : mapSlice) (op : OutPoint) (e : option UtxoEntry) (totalEntryMemory : Z) : mapSlice :=
  match put_existing (ms_maps ms) op e with
  | Some maps => mkMapSlice maps (ms_maxEntries ms) (ms_maxTotalMemoryUsage ms)
  | None =>
      match put_room (ms_maps ms) (ms_maxEntries ms) op e with
      | Some maps => mkMapSlice maps (ms_maxEntries ms) (ms_maxTotalMemoryUsage ms)
      | None =>
          mkMapSlice (ms_maps ms ++ [{[op := e]}])
            (ms_maxEntries ms ++ [newMapSize ms totalEntryMemory]) (ms_maxTotalMemoryUsage ms)
      end
  end.

Definition newUtxoCache (maxTotalMemoryUsage : Z) : utxoCache :=
  let n := CalculateMinEntries (i64 maxTotalMemoryUsage) (UtxoCacheBucketSize + AvgEntrySize) - 1 in
  mkUtxoCache maxTotalMemoryUsage (mkMapSlice [∅] [n] maxTotalMemoryUsage) 0 (repeat 0 32) 0.

Definition totalMemoryUsage (s : utxoCache) : Z :=
  u64 (u64 (ms_size (uc_cachedEntries s)) + uc_totalEntryMemory s).

(** [cachedEntries.put] with the accounting of the entry. *)
Definition cachePut (s : utxoCache) (p : OutPoint * option UtxoEntry) : utxoCache :=
  with_cached s (ms_put (uc_cachedEntries s) (fst p) (snd p) (uc_totalEntryMemory s))
    (u64 (uc_totalEntryMemory s + memoryUsage (snd p))).

Fixpoint dbFetchAll (db : utxoDB) (ops : list OutPoint) : outcome chainErr (list (option UtxoEntry)) :=
  match ops with
  | [] => Ok []
  | op :: ops' =>
      let* e := dbFetchUtxoEntry ParsePubKey SerializeUncompressed db op in
      let* es := dbFetchAll db ops' in
      Ok (e :: es)
  end.

(** The results in the order of the request: what the cache had, and the
    fetched entries in the places of the misses. *)
Fixpoint fill (found : list (option (option UtxoEntry))) (fetched : list (option UtxoEntry))
  : list (option UtxoEntry) :=
  match found with
  | [] => []
  | Some e :: found' => e :: fill found' fetched
  | None :: found' =>
      match fetched with
      | e :: fetched' => e :: fill found' fetched'
      | [] => []
      end
  end.

Definition fetchEntries (s : utxoCache) (db : utxoDB) (outpoints : list OutPoint)
  : outcome chainErr (list (option UtxoEntry) * utxoCache) :=
  let found := map (ms_get (uc_cachedEntries s)) outpoints in
  let missingOps := List.filter (fun op => match ms_get (uc_cachedEntries s) op with None => true | Some _ => false end) outpoints in
  let* dbEntries := dbFetchAll db missingOps in
  Ok (fill found dbEntries, fold_left cachePut (combine missingOps dbEntries) s).

Definition cache_addTxOut (s : utxoCache) (op : OutPoint) (txOut : TxOut) (isCoinBase : bool) (blockHeight : Z)
  : utxoCache :=
  if IsUnspendable (to_PkScript txOut) then s
  else cachePut s (op, Some (freshEntry txOut isCoinBase blockHeight)).

Fixpoint cache_addTxOuts_loop (s : utxoCache) (tx : MsgTx) (i : nat) (outs : list TxOut) (isCoinBase : bool)
    (blockHeight : Z) : utxoCache :=
  match outs with
  | [] => s
  | txOut :: outs' =>
      cache_addTxOuts_loop (cache_addTxOut s (outpointOf DoubleHash tx i) txOut isCoinBase blockHeight)
        tx (S i) outs' isCoinBase blockHeight
  end.
Definition cache_addTxOuts (s : utxoCache) (tx : MsgTx) (blockHeight : Z) : utxoCache :=
  cache_addTxOuts_loop s tx 0 (tx_TxOut tx) (IsCoinBaseTx tx) blockHeight.

Definition addTxIn (s : utxoCache) (db : utxoDB) (txIn : TxIn) (stxos : option (list SpentTxOut))
  : outcome chainErr (utxoCache * option (list SpentTxOut)) :=
  let op := ti_PreviousOutPoint txIn in
  let* (entries, s) := fetchEntries s db [op] in
  match entries with
  | Some entry :: _ =>
      let stxos := append_stxo stxos entry in
      let entry := Spend entry in
      let ms := ms_alter (uc_cachedEntries s) op (fun _ => entry) in
      if isFresh entry then
        Ok (with_cached s (ms_delete ms op) (u64 (uc_totalEntryMemory s - memoryUsage (Some entry))), stxos)
      else Ok (with_cached s ms (u64 (uc_totalEntryMemory s - memoryUsage None)), stxos)
  | _ => Err (AssertError "missing input")
  end.

Fixpoint addTxIns_loop (s : utxoCache) (db : utxoDB) (ins : list TxIn) (stxos : option (list SpentTxOut))
  : outcome chainErr (utxoCache * option (list SpentTxOut)) :=
  match ins with
  | [] => Ok (s, stxos)
  | txIn :: ins' => let* (s, stxos) := addTxIn s db txIn stxos in addTxIns_loop s db ins' stxos
  end.
Definition addTxIns (s : utxoCache) (db : utxoDB) (tx : MsgTx) (stxos : option (list SpentTxOut))
  : outcome chainErr (utxoCache * option (list SpentTxOut)) :=
  if IsCoinBaseTx tx then Ok (s, stxos) else addTxIns_loop s db (tx_TxIn tx) stxos.

Definition cache_connectTransaction (db : utxoDB) (s : utxoCache) (tx : MsgTx) (blockHeight : Z)
    (stxos : option (list SpentTxOut)) : outcome chainErr (utxoCache * option (list SpentTxOut)) :=
  let* (s, stxos) := addTxIns s db tx stxos in
  Ok (cache_addTxOuts s tx blockHeight, stxos).

Fixpoint cache_connect_loop (db : utxoDB) (s : utxoCache) (txs : list MsgTx) (blockHeight : Z)
    (stxos : option (list SpentTxOut)) : outcome chainErr (utxoCache * option (list SpentTxOut)) :=
  match txs with
  | [] => Ok (s, stxos)
  | tx :: txs' =>
      let* (s, stxos) := cache_connectTransaction db s tx blockHeight stxos in
      cache_connect_loop db s txs' blockHeight stxos
  end.
Definition cache_connectTransactions (db : utxoDB) (s : utxoCache) (b : Block) (stxos : option (list SpentTxOut))
  : outcome chainErr (utxoCache * option (list SpentTxOut)) :=
  cache_connect_loop db s (Transactions b) (blk_height b) stxos.

(** The cache is changed in place.  Connecting that stops with an error leaves
    what was done before: the transactions and inputs up to the one that failed, and
    what was fetched for that one. *)
Fixpoint spendUntil (db : utxoDB) (s : utxoCache) (ins : list TxIn) : utxoCache :=
  match ins with
  | [] => s
  | txIn :: ins' =>
      match addTxIn s db txIn None with
      | Ok (s, _) => spendUntil db s ins'
      | _ => match fetchEntries s db [ti_PreviousOutPoint txIn] with Ok (_, s) => s | _ => s end
      end
  end.
Fixpoint connectUntil (db : utxoDB) (s : utxoCache) (txs : list MsgTx) (blockHeight : Z) : utxoCache :=
  match txs with
  | [] => s
  | tx :: txs' =>
      match cache_connectTransaction db s tx blockHeight None with
      | Ok (s, _) => connectUntil db s txs' blockHeight
      | _ => if IsCoinBaseTx tx then s else spendUntil db s (tx_TxIn tx)
      end
  end.

(** ** Flushing *)

(** What one cached entry does to the database. *)
Definition writeEntry (db : utxoDB) (p : OutPoint * option UtxoEntry) : outcome chainErr utxoDB :=
  match snd p with
  | None => dbDeleteUtxoEntry db (fst p)
  | Some e =>
      if IsSpent e then dbDeleteUtxoEntry db (fst p)
      else if negb (isModified e) then Ok db
      else dbPutUtxoEntry ParsePubKey db (fst p) (Some e)
  end.

(** Every entry is deleted from its map once it is written. *)
Definition writeCache (s : utxoCache) (db : utxoDB) (bestHash : list Z) (now : Z)
  : outcome chainErr (utxoCache * utxoDB) :=
  let ms := uc_cachedEntries s in
  let* db := fold_ok (fun db m => fold_ok writeEntry db (iter m)) db (ms_maps ms) in
  let* ms := deleteMaps (mkMapSlice (map (fun _ => ∅) (ms_maps ms)) (ms_maxEntries ms) (ms_maxTotalMemoryUsage ms)) in
  Ok (mkUtxoCache (uc_maxTotalMemoryUsage s) ms 0 bestHash now, dbPutUtxoStateConsistency db bestHash).

Definition flush (s : utxoCache) (db : utxoDB) (mode : FlushMode) (bestHash : list Z) (now : Z)
  : outcome chainErr (utxoCache * utxoDB) :=
  let go threshold :=
    if threshold <=? totalMemoryUsage s then writeCache s db bestHash now else Ok (s, db) in
  match mode with
  | FlushRequired => go 0
  | FlushIfNeeded =>
      if bytes_eqb bestHash (uc_lastFlushHash s) then Ok (s, db) else go (uc_maxTotalMemoryUsage s)
  | FlushPeriodic =>
      go (if UtxoFlushPeriodicInterval <? now - uc_lastFlushTime s then 0 else uc_maxTotalMemoryUsage s)
  end.

(** ** Views over the cache (blockchain/utxoviewpoint.go) *)

Fixpoint insertAll (m : entryMap) (l : list (OutPoint * option UtxoEntry)) : entryMap :=
  match l with [] => m | p :: l' => insertAll (<[fst p := snd p]> m) l' end.

Definition fetchUtxosFromCache (v : UtxoViewpoint) (s : utxoCache) (db : utxoDB) (outpoints : list OutPoint)
  : outcome chainErr (UtxoViewpoint * utxoCache) :=
  if len outpoints =? 0 then Ok (v, s)
  else
    let* (entries, s) := fetchEntries s db outpoints in
    Ok (set_entries v (insertAll (uv_entries v) (combine outpoints entries)), s).

Definition fetchUtxos (v : UtxoViewpoint) (s : utxoCache) (db : utxoDB) (outpoints : list OutPoint)
  : outcome chainErr (UtxoViewpoint * utxoCache) :=
  if len outpoints =? 0 then Ok (v, s)
  else
    let needed := List.filter (fun op => match uv_entries v !! op with Some _ => false | None => true end) outpoints in
    fetchUtxosFromCache v s db needed.

(** [txInFlight]: the last transaction of the block with a hash. *)
Fixpoint inFlight (txs : list MsgTx) (i : nat) (hash : list Z) : option nat :=
  match txs with
  | [] => None
  | tx :: txs' =>
      match inFlight txs' (S i) hash with
      | Some j => Some j
      | None => if bytes_eqb (txHash DoubleHash tx) hash then Some i else None
      end
  end.

(** The inputs of the transaction at position [i + 1]. *)
Fixpoint findInputs (v : UtxoViewpoint) (txs : list MsgTx) (h : Z) (i : nat) (ins : list TxIn)
  : UtxoViewpoint * list OutPoint :=
  match ins with
  | [] => (v, [])
  | txIn :: ins' =>
      let op := ti_PreviousOutPoint txIn in
      let skip := match inFlight txs 0 (op_Hash op) with
                  | Some j => if (j <=? i)%nat then nth_error txs j else None
                  | None => None
                  end in
      match skip with
      | Some originTx => findInputs (AddTxOuts DoubleHash v originTx h) txs h i ins'
      | None =>
          match uv_entries v !! op with
          | Some _ => findInputs v txs h i ins'
          | None => let (v, needed) := findInputs v txs h i ins' in (v, op :: needed)
          end
      end
  end.

Fixpoint findInputs_loop (v : UtxoViewpoint) (txs : list MsgTx) (h : Z) (i : nat) (rest : list MsgTx)
  : UtxoViewpoint * list OutPoint :=
  match rest with
  | [] => (v, [])
  | tx :: rest' =>
      let (v, needed) := findInputs v txs h i (tx_TxIn tx) in
      let (v, needed') := findInputs_loop v txs h (S i) rest' in
      (v, needed ++ needed')
  end.

Definition findInputsToFetch (v : UtxoViewpoint) (b : Block) : outcome chainErr (UtxoViewpoint * list OutPoint) :=
  let* rest := slice (Transactions b) 1 (len (Transactions b)) in
  Ok (findInputs_loop v (Transactions b) (blk_height b) 0 rest).

Definition fetchInputUtxos (v : UtxoViewpoint) (s : utxoCache) (db : utxoDB) (b : Block)
  : outcome chainErr (UtxoViewpoint * utxoCache) :=
  let* (v, needed) := findInputsToFetch v b in
  fetchUtxosFromCache v s db needed.
End Cache.

(** ** The slice of maps as one map *)

(** No key is in two maps. *)
Fixpoint disj (maps : list entryMap) : Prop :=
  match maps with
  | [] => True
  | m :: maps' => (forall op, is_Some (m !! op) -> get_maps maps' op = None) /\ disj maps'
  end.

Definition ms_wf (ms : mapSlice) : Prop :=
  disj (ms_maps ms) /\ List.length (ms_maps ms) = List.length (ms_maxEntries ms) /\ ms_maps ms <> [].

Lemma put_existing_None maps op e : put_existing maps op e = None <-> get_maps maps op = None.
Proof.
  induction maps as [|m maps IH]; cbn [put_existing get_maps]; [tauto|].
  destruct (m !! op); [split; discriminate|]. destruct (put_existing maps op e); rewrite <- IH; split; congruence.
Qed.

Lemma put_existing_spec maps op e : forall maps', put_existing maps op e = Some maps' ->
  List.length maps' = List.length maps /\
  forall op', get_maps maps' op' = if decide (op = op') then Some e else get_maps maps op'.
Proof.
  induction maps as [|m maps IH]; intros maps' H; cbn [put_existing] in H; [discriminate|].
  destruct (m !! op) eqn:Em.
  - injection H as <-. split; [reflexivity|]. intros op'. cbn [get_maps]. case_decide as Hd.
    + subst op'. now rewrite lookup_insert_eq.
    + now rewrite lookup_insert_ne.
  - destruct (put_existing maps op e) as [r|]; [|discriminate]. injection H as <-.
    destruct (IH r eq_refl) as [Hl Hg]. split; [cbn; now rewrite Hl|]. intros op'. cbn [get_maps]. rewrite Hg.
    case_decide as Hd; [subst op'; now rewrite Em | reflexivity].
Qed.

Lemma put_room_spec op e maps : forall maxs maps', put_room maps maxs op e = Some maps' ->
  get_maps maps op = None -> List.length maps' = List.length maps /\
  forall op', get_maps maps' op' = if decide (op = op') then Some e else get_maps maps op'.
Proof.
  induction maps as [|m maps IH]; intros [|n maxs] maps' H Hn; cbn [put_room] in H; try discriminate.
  cbn [get_maps] in Hn. destruct (m !! op) eqn:Em; [discriminate|]. destruct (n <=? _).
  - destruct (put_room maps maxs op e) as [r|] eqn:Er; [|discriminate]. injection H as <-.
    destruct (IH _ _ Er Hn) as [Hl Hg]. split; [cbn; now rewrite Hl|]. intros op'. cbn [get_maps]. rewrite Hg.
    case_decide as Hd; [subst op'; now rewrite Em | reflexivity].
  - injection H as <-. split; [reflexivity|]. intros op'. cbn [get_maps]. case_decide as Hd.
    + subst op'. now rewrite lookup_insert_eq.
    + now rewrite lookup_insert_ne.
Qed.

Lemma get_maps_snoc maps m op :
  get_maps (maps ++ [m]) op = match get_maps maps op with Some e => Some e | None => m !! op end.
Proof.
  induction maps as [|m' maps IH]; cbn [get_maps app]; [now destruct (m !! op)|]. rewrite IH. now destruct (m' !! op).
Qed.

Lemma get_maps_delete maps op op' :
  get_maps (map (delete op) maps) op' = if decide (op = op') then None else get_maps maps op'.
Proof.
  induction maps as [|m maps IH]; cbn [map get_maps]; [now case_decide|]. rewrite IH. case_decide as Hd.
  - subst op'. now rewrite lookup_delete_eq.
  - now rewrite lookup_delete_ne.
Qed.

Lemma get_maps_alter f op e maps : get_maps maps op = Some (Some e) -> forall op',
  get_maps (alter_maps maps op f) op' = if decide (op = op') then Some (Some (f e)) else get_maps maps op'.
Proof.
  induction maps as [|m maps IH]; cbn [get_maps alter_maps]; [discriminate|]. destruct (m !! op) as [x|] eqn:Em.
  - intros [= ->] op'. cbn [get_maps]. case_decide as Hd.
    + subst op'. now rewrite lookup_insert_eq.
    + now rewrite lookup_insert_ne.
  - intros H op'. cbn [get_maps]. rewrite (IH H). case_decide as Hd; [subst op'; now rewrite Em | reflexivity].
Qed.

Lemma disj_existing op e maps : forall maps', put_existing maps op e = Some maps' -> disj maps -> disj maps'.
Proof.
  induction maps as [|m maps IH]; intros maps' H Hd; cbn [put_existing] in H; [discriminate|].
  destruct Hd as [Hm Hd].
  destruct (m !! op) eqn:Em.
  - injection H as <-. split; [|exact Hd]. intros op' Hop. apply Hm. destruct (decide (op = op')) as [<-|Hne].
    + now rewrite Em.
    + now rewrite lookup_insert_ne in Hop.
  - destruct (put_existing maps op e) as [r|] eqn:Er; [|discriminate]. injection H as <-.
    split; [|now apply IH]. intros op' Hop. destruct (put_existing_spec _ _ _ _ Er) as [_ Hg]. rewrite Hg.
    case_decide as He; [subst op'; rewrite Em in Hop; destruct Hop; discriminate | now apply Hm].
Qed.

Lemma disj_room op e maps : forall maxs maps', put_room maps maxs op e = Some maps' ->
  get_maps maps op = None -> disj maps -> disj maps'.
Proof.
  induction maps as [|m maps IH]; intros [|n maxs] maps' H Hn Hd; cbn [put_room] in H; try discriminate.
  destruct Hd as [Hm Hd].
  cbn [get_maps] in Hn. destruct (m !! op) eqn:Em; [discriminate|]. destruct (n <=? _).
  - destruct (put_room maps maxs op e) as [r|] eqn:Er; [|discriminate]. injection H as <-.
    split; [|exact (IH _ _ Er Hn Hd)]. intros op' Hop. destruct (put_room_spec _ _ _ _ _ Er Hn) as [_ Hg]. rewrite Hg.
    case_decide as He; [subst op'; rewrite Em in Hop; destruct Hop; discriminate | now apply Hm].
  - injection H as <-. split; [|exact Hd]. intros op' Hop. destruct (decide (op = op')) as [<-|Hne]; [exact Hn|].
    apply Hm. now rewrite lookup_insert_ne in Hop.
Qed.

Lemma disj_snoc op e maps : get_maps maps op = None -> disj maps -> disj (maps ++ [{[op := e]}]).
Proof.
  induction maps as [|m maps IH]; intros Hn Hd; [split; [reflexivity | exact I]|]. cbn [app disj]. destruct Hd as [Hm Hd].
  cbn [get_maps] in Hn. destruct (m !! op) eqn:Em; [discriminate|]. split; [|now apply IH].
  intros op' Hop. rewrite get_maps_snoc, (Hm op' Hop). destruct (decide (op = op')) as [<-|Hne].
  - rewrite Em in Hop. destruct Hop; discriminate.
  - now rewrite lookup_singleton_ne.
Qed.

Lemma disj_delete op maps : disj maps -> disj (map (delete op) maps).
Proof.
  induction maps as [|m maps IH]; intros Hd; [exact I|]. destruct Hd as [Hm Hd]. split; [|now apply IH].
  intros op' Hop. rewrite get_maps_delete. case_decide as He; [reflexivity|].
  apply Hm. now rewrite lookup_delete_ne in Hop.
Qed.

Lemma disj_alter f op maps : disj maps -> disj (alter_maps maps op f).
Proof.
  induction maps as [|m maps IH]; intros Hd; [exact I|]. destruct Hd as [Hm Hd]. cbn [alter_maps].
  destruct (m !! op) as [x|] eqn:Em.
  - split; [|exact Hd]. intros op' Hop. apply Hm. destruct (decide (op = op')) as [<-|Hne]; [now rewrite Em|].
    now rewrite lookup_insert_ne in Hop.
  - split; [|now apply IH]. intros op' Hop. specialize (Hm op' Hop).
    assert (Hne : op <> op') by (intros <-; rewrite Em in Hop; destruct Hop; discriminate).
    clear -Hm Hne. revert Hm. induction maps as [|m' maps IH]; cbn [get_maps alter_maps]; [auto|].
    intros H. destruct (m' !! op') eqn:E'; [discriminate|]. destruct (m' !! op); cbn [get_maps].
    + now rewrite lookup_insert_ne, E'.
    + rewrite E'. auto.
Qed.

Lemma length_alter f op maps : List.length (alter_maps maps op f) = List.length maps.
Proof. induction maps as [|m maps IH]; cbn [alter_maps]; [reflexivity|]. destruct (m !! op); cbn; auto. Qed.

Section SliceLemmas.
Context (CalculateRoughMapSize : Z -> Z -> Z) (CalculateMinEntries : Z -> Z -> Z).

(** Putting is a map update, wherever the entry goes. *)
Lemma ms_put_spec ms op e n : ms_wf ms ->
  ms_wf (ms_put CalculateRoughMapSize CalculateMinEntries ms op e n) /\
  forall op', ms_get (ms_put CalculateRoughMapSize CalculateMinEntries ms op e n) op' =
    if decide (op = op') then Some e else ms_get ms op'.
Proof.
  intros (Hd & Hl & Hne). unfold ms_put, ms_get, ms_wf. destruct (put_existing (ms_maps ms) op e) as [r|] eqn:Er.
  - destruct (put_existing_spec _ _ _ _ Er) as [Hr Hg]. cbn [ms_maps ms_maxEntries]. split; [|exact Hg].
    split; [exact (disj_existing _ _ _ _ Er Hd)|]. split; [congruence|].
    intros ->. apply Hne. now apply nil_length_inv.
  - apply put_existing_None in Er. destruct (put_room (ms_maps ms) (ms_maxEntries ms) op e) as [r|] eqn:Er'.
    + destruct (put_room_spec _ _ _ _ _ Er' Er) as [Hr Hg]. cbn [ms_maps ms_maxEntries]. split; [|exact Hg].
      split; [exact (disj_room _ _ _ _ _ Er' Er Hd)|]. split; [congruence|].
      intros ->. apply Hne. now apply nil_length_inv.
    + cbn [ms_maps ms_maxEntries]. split; [split; [now apply disj_snoc|]; split|].
      * rewrite !length_app, Hl. reflexivity.
      * intros E. now apply app_eq_nil in E.
      * intros op'. rewrite get_maps_snoc. case_decide as He.
        -- subst op'. rewrite Er. apply lookup_singleton_eq.
        -- rewrite lookup_singleton_ne by exact He. now destruct (get_maps (ms_maps ms) op').
Qed.
End SliceLemmas.

Lemma ms_delete_spec ms op : ms_wf ms -> ms_wf (ms_delete ms op) /\
  forall op', ms_get (ms_delete ms op) op' = if decide (op = op') then None else ms_get ms op'.
Proof.
  intros (Hd & Hl & Hne). split; [|intros op'; apply get_maps_delete]. split; [now apply disj_delete|].
  split; [cbn; now rewrite length_map | cbn; intros E; now apply map_eq_nil in E].
Qed.

Lemma ms_alter_spec ms op e f : ms_wf ms -> ms_get ms op = Some (Some e) -> ms_wf (ms_alter ms op f) /\
  forall op', ms_get (ms_alter ms op f) op' = if decide (op = op') then Some (Some (f e)) else ms_get ms op'.
Proof.
  intros (Hd & Hl & Hne) He. split; [|now apply get_maps_alter]. split; [now apply disj_alter|].
  split; [cbn; now rewrite length_alter|]. cbn. intros E. apply Hne.
  apply nil_length_inv. rewrite <- (length_alter f op), E. reflexivity.
Qed.

(** ** The set the cache and the database stand for *)

Definition entryOf (c : coin) : UtxoEntry :=
  mkUtxoEntry (c_amount c) (c_script c) (c_height c) (if c_coinbase c then tfCoinBase else 0).
Definition coin_ok (c : coin) : Prop := out_ok (c_amount c) (c_script c) /\ 0 <= c_height c < 2 ^ 31.
Definition keyOf (op : OutPoint) : list Z := op_Hash op ++ vlq (op_Index op).

(** What a cached entry of [op] may be when the database holds [D]. *)
Definition cached (D : utxoSet) (op : OutPoint) (e : option UtxoEntry) : Prop :=
  match e with
  | None => D !! op = None
  | Some e => entry_ok e /\ (isFresh e = true -> D !! op = None /\ IsSpent e = false) /\
      (isModified e = false -> D !! op = Some (coinOf e) /\ IsSpent e = false)
  end.

Definition cabs (D : utxoSet) (s : utxoCache) : utxoSet :=
  merge (fun e c => match e with Some e => live e | None => c end)
    (foldr (fun m r => m ∪ r) ∅ (ms_maps (uc_cachedEntries s))) D.

Lemma lookup_flat maps op : foldr (fun m r => m ∪ r) (∅ : entryMap) maps !! op = get_maps maps op.
Proof.
  induction maps as [|m maps IH]; [reflexivity|]. cbn [foldr get_maps]. rewrite lookup_union, IH.
  now destruct (m !! op), (get_maps maps op).
Qed.

Lemma lookup_cabs D s op :
  cabs D s !! op = match ms_get (uc_cachedEntries s) op with Some e => live e | None => D !! op end.
Proof.
  unfold cabs, ms_get. rewrite lookup_merge, lookup_flat. now destruct (get_maps _ op), (D !! op).
Qed.

Lemma live_entryOf c : live (Some (entryOf c)) = Some c.
Proof.
  destruct c as [a s h cb]. cbn [live]. rewrite IsSpent_bit. unfold coinOf. rewrite IsCoinBase_bit. now destruct cb.
Qed.

Lemma entryOf_flags c : isFresh (entryOf c) = false /\ isModified (entryOf c) = false /\ IsSpent (entryOf c) = false.
Proof. rewrite isFresh_bit, isModified_bit, IsSpent_bit. destruct c as [a s h cb]. now destruct cb. Qed.

Lemma stored_entryOf c : stored (entryOf c) = entryOf c.
Proof.
  destruct c as [a s h cb]. unfold stored. rewrite IsCoinBase_bit. now destruct cb.
Qed.

Lemma coinOf_entryOf c : coinOf (entryOf c) = c.
Proof. pose proof (live_entryOf c) as H. cbn [live] in H. destruct (IsSpent (entryOf c)); congruence. Qed.

Section Refinement.
Context {PubKey : Type} (ParsePubKey : list Z -> option PubKey)
        (SerializeUncompressed : PubKey -> list Z).
Context (CalculateRoughMapSize : Z -> Z -> Z) (CalculateMinEntries : Z -> Z -> Z).
Context (iter : entryMap -> list (OutPoint * option UtxoEntry)).
Context (DoubleHash : list Z -> list Z).
Hypothesis forms : pubkey_forms ParsePubKey SerializeUncompressed.
Hypothesis iter_all : forall m, iter m ≡ₚ map_to_list m.

(** The database holds the records of the coins of [D] and nothing else. *)
Definition db_rep (db : utxoDB) (D : utxoSet) : Prop :=
  (forall op c, D !! op = Some c -> outpoint_ok op /\ coin_ok c) /\
  forall op, outpoint_ok op ->
    db_utxos db !! keyOf op = option_map (fun c => entryBytes ParsePubKey (entryOf c)) (D !! op).

Record cinv (D : utxoSet) (db : utxoDB) (s : utxoCache) : Prop := {
  ci_wf : ms_wf (uc_cachedEntries s);
  ci_db : db_rep db D;
  ci_entries : forall op e, ms_get (uc_cachedEntries s) op = Some e -> outpoint_ok op /\ cached D op e
}.

Definition fetched (D : utxoSet) (op : OutPoint) : option UtxoEntry := option_map entryOf (D !! op).

Lemma keyOf_eq op : outpoint_ok op -> OutpointKey op = Ok (keyOf op).
Proof. intros [Hh Hi]. now apply OutpointKey_eq. Qed.

Lemma keyOf_inj op op' : outpoint_ok op -> outpoint_ok op' -> keyOf op = keyOf op' -> op = op'.
Proof.
  intros H H' E. apply (OutpointKey_inj op op' (keyOf op)); auto; [now apply keyOf_eq|]. rewrite E. now apply keyOf_eq.
Qed.

Lemma dbFetch_spec db D op : db_rep db D -> outpoint_ok op ->
  dbFetchUtxoEntry ParsePubKey SerializeUncompressed db op = Ok (fetched D op).
Proof.
  intros [Hok Hdb] Ho. unfold dbFetchUtxoEntry, fetched. rewrite keyOf_eq by exact Ho. cbn [lift_derr obind].
  rewrite Hdb by exact Ho. destruct (D !! op) as [c|] eqn:Ec; [|reflexivity]. cbn [option_map].
  destruct (Hok _ _ Ec) as [_ [Hc Hh]].
  assert (0 < len (entryBytes ParsePubKey (entryOf c))).
  { unfold entryBytes. rewrite len_app.
    pose proof (txOutBytes_nonempty ParsePubKey (ue_amount (entryOf c)) (ue_pkScript (entryOf c))).
    pose proof (len_nonneg (vlq (headerCode (ue_blockHeight (entryOf c)) (ue_IsCoinBase (entryOf c))))). lia. }
  decide_cmp. rewrite (deserialize_entry ParsePubKey SerializeUncompressed forms) by (split; assumption).
  now rewrite stored_entryOf.
Qed.

Lemma cached_fetched db D op : db_rep db D -> cached D op (fetched D op).
Proof.
  intros [Hok _]. unfold fetched. destruct (D !! op) as [c|] eqn:Ec; [|exact Ec]. cbn [option_map cached].
  destruct (Hok _ _ Ec) as [_ [Hc Hh]]. destruct (entryOf_flags c) as (Hf & Hm & Hs). split; [split; assumption|].
  split; [congruence|]. intros _. now rewrite coinOf_entryOf.
Qed.

Lemma live_fetched D op : live (fetched D op) = D !! op.
Proof. unfold fetched. destruct (D !! op) as [c|]; [apply live_entryOf | reflexivity]. Qed.

(** What a lookup of [op] answers. *)
Definition entryFor (D : utxoSet) (s : utxoCache) (op : OutPoint) : option UtxoEntry :=
  match ms_get (uc_cachedEntries s) op with Some e => e | None => fetched D op end.

Lemma live_entryFor D s op : live (entryFor D s op) = cabs D s !! op.
Proof.
  rewrite lookup_cabs. unfold entryFor. destruct (ms_get _ op); [reflexivity | apply live_fetched].
Qed.

Lemma dbFetchAll_spec db D ops : db_rep db D -> Forall outpoint_ok ops ->
  dbFetchAll ParsePubKey SerializeUncompressed db ops = Ok (map (fetched D) ops).
Proof.
  intros Hdb. induction ops as [|op ops IH]; intros Ho; [reflexivity|]. apply Forall_cons in Ho. destruct Ho as [H1 Ho].
  cbn [dbFetchAll map]. rewrite (dbFetch_spec _ _ _ Hdb H1). cbn [obind]. now rewrite (IH Ho).
Qed.

Lemma fill_spec D s ops :
  fill (map (ms_get (uc_cachedEntries s)) ops)
    (map (fetched D) (List.filter (fun op => match ms_get (uc_cachedEntries s) op with None => true | Some _ => false end) ops)) =
  map (entryFor D s) ops.
Proof.
  induction ops as [|op ops IH]; [reflexivity|]. cbn [map List.filter]. unfold entryFor at 1.
  destruct (ms_get _ op); cbn [fill map]; now rewrite IH.
Qed.

Abbreviation put_cached := (cachePut CalculateRoughMapSize CalculateMinEntries).

Lemma cachePut_spec s op e : ms_wf (uc_cachedEntries s) -> ms_wf (uc_cachedEntries (put_cached s (op, e))) /\
  forall op', ms_get (uc_cachedEntries (put_cached s (op, e))) op' =
    if decide (op = op') then Some e else ms_get (uc_cachedEntries s) op'.
Proof. intros Hw. now apply ms_put_spec. Qed.

(** An entry that may be cached can be put. *)
Lemma cinv_put D db s op e : cinv D db s -> outpoint_ok op -> cached D op e -> cinv D db (put_cached s (op, e)).
Proof.
  intros [Hw Hdb He] Ho Hc. destruct (cachePut_spec s op e Hw) as [Hw' Hg]. split; [exact Hw' | exact Hdb|].
  intros op' e'. rewrite Hg. case_decide as Hd; [|apply He]. subst op'. intros [= <-]. now split.
Qed.

Lemma put_fetched_spec D db ops : forall s, cinv D db s -> Forall outpoint_ok ops ->
  let s' := fold_left put_cached (combine ops (map (fetched D) ops)) s in
  cinv D db s' /\ forall op, ms_get (uc_cachedEntries s') op =
    if decide (op ∈ ops) then Some (fetched D op) else ms_get (uc_cachedEntries s) op.
Proof.
  induction ops as [|op ops IH]; intros s Hi Ho; cbn [map combine fold_left].
  - split; [exact Hi|]. intros op. now rewrite decide_False by apply not_elem_of_nil.
  - apply Forall_cons in Ho. destruct Ho as [H1 Ho].
    destruct (IH _ (cinv_put D db s op _ Hi H1 (cached_fetched db D op (ci_db _ _ _ Hi))) Ho) as [Hi' Hg].
    split; [exact Hi'|]. intros op'. rewrite Hg.
    destruct (cachePut_spec s op (fetched D op) (ci_wf _ _ _ Hi)) as [_ Hg1]. rewrite Hg1.
    repeat case_decide; subst; try reflexivity; exfalso; set_solver.
Qed.

(** A fetch answers for the set, and changes it in nothing. *)
Lemma fetchEntries_spec D db s ops : cinv D db s -> Forall outpoint_ok ops ->
  exists s', fetchEntries ParsePubKey SerializeUncompressed CalculateRoughMapSize CalculateMinEntries s db ops =
      Ok (map (entryFor D s) ops, s') /\ cinv D db s' /\ cabs D s' = cabs D s /\
    forall op, op ∈ ops -> ms_get (uc_cachedEntries s') op = Some (entryFor D s op).
Proof.
  intros Hi Ho. unfold fetchEntries. set (missing := List.filter _ ops).
  assert (Hm : Forall outpoint_ok missing).
  { apply Forall_forall. intros op Hop. apply list_elem_of_In, filter_In in Hop. rewrite Forall_forall in Ho.
    apply Ho, list_elem_of_In, Hop. }
  rewrite (dbFetchAll_spec _ _ _ (ci_db _ _ _ Hi) Hm). cbn [obind]. unfold missing at 1. rewrite fill_spec.
  eexists. split; [reflexivity|]. destruct (put_fetched_spec D db missing s Hi Hm) as [Hi' Hg].
  assert (Hmiss : forall op, op ∈ missing <-> op ∈ ops /\ ms_get (uc_cachedEntries s) op = None).
  { intros op. unfold missing. rewrite !list_elem_of_In, filter_In.
    destruct (ms_get (uc_cachedEntries s) op); intuition congruence. }
  split; [exact Hi'|]. split.
  - apply map_eq. intros op. rewrite !lookup_cabs, Hg. case_decide as Hd; [|reflexivity].
    apply Hmiss in Hd. destruct Hd as [_ ->]. apply live_fetched.
  - intros op Hop. rewrite Hg. unfold entryFor. case_decide as Hd.
    + apply Hmiss in Hd. now destruct Hd as [_ ->].
    + destruct (ms_get (uc_cachedEntries s) op) eqn:E; [reflexivity|]. exfalso. apply Hd, Hmiss. now split.
Qed.

(** ** Connecting *)

Lemma Spend_flags e : IsSpent e = false -> isFresh (Spend e) = isFresh e /\ isModified (Spend e) = true.
Proof.
  intros Hs. unfold Spend. rewrite Hs, !isFresh_bit, isModified_bit. cbn [with_flags ue_packedFlags].
  rewrite !Z.lor_spec. split; [apply orb_false_r | apply orb_true_r].
Qed.

Lemma cached_Spend D op e : entry_ok e -> IsSpent e = false -> isFresh e = false -> cached D op (Some (Spend e)).
Proof.
  intros He Hs Hf. destruct (Spend_flags e Hs) as [Hf' Hm]. cbn [cached]. split; [|split; congruence].
  unfold Spend. rewrite Hs. exact He.
Qed.

Definition stxoOfCoin (c : coin) : SpentTxOut := mkSpentTxOut (c_amount c) (c_script c) (c_height c) (c_coinbase c).
Definition append_coins (stxos : option (list SpentTxOut)) (l : list coin) : option (list SpentTxOut) :=
  option_map (fun s => s ++ map stxoOfCoin l) stxos.

Lemma append_coins_cons stxos c l : append_coins (append_coins stxos [c]) l = append_coins stxos (c :: l).
Proof. destruct stxos as [s|]; cbn [append_coins option_map map]; [|reflexivity]. now rewrite <- app_assoc. Qed.

Abbreviation spend_in := (addTxIn ParsePubKey SerializeUncompressed CalculateRoughMapSize CalculateMinEntries).

(** Spending a coin of the set deletes it, whether the cache had it or not, and
    the journal receives it. *)
Lemma addTxIn_spec D db s ti stxos c : cinv D db s -> outpoint_ok (ti_PreviousOutPoint ti) ->
  cabs D s !! ti_PreviousOutPoint ti = Some c ->
  exists s', spend_in s db ti stxos = Ok (s', append_coins stxos [c]) /\ cinv D db s' /\
    cabs D s' = delete (ti_PreviousOutPoint ti) (cabs D s).
Proof.
  set (op := ti_PreviousOutPoint ti). intros Hi Ho Hc.
  destruct (fetchEntries_spec D db s [op] Hi (Forall_cons_2 _ _ _ Ho (Forall_nil_2 _))) as (s1 & E & Hi1 & Ha & Hg).
  specialize (Hg op (list_elem_of_here _ _)). rewrite <- (live_entryFor D s op) in Hc.
  unfold addTxIn. fold op. rewrite E. cbn [obind map]. set (o := entryFor D s op) in *.
  destruct o as [e|]; [|discriminate]. cbn [live] in Hc. destruct (IsSpent e) eqn:Es; [discriminate|].
  injection Hc as <-. destruct (ci_entries _ _ _ Hi1 _ _ Hg) as [_ (Hok & Hfr & _)].
  destruct (ms_alter_spec _ op e (fun _ => Spend e) (ci_wf _ _ _ Hi1) Hg) as [Hw2 Hg2].
  assert (Hst : append_stxo stxos e = append_coins stxos [coinOf e]) by (now destruct stxos).
  rewrite Hst. destruct (Spend_flags e Es) as [Hf _]. rewrite Hf. destruct (isFresh e) eqn:Ef.
  - destruct (ms_delete_spec _ op Hw2) as [Hw3 Hg3]. eexists. split; [reflexivity|]. split.
    + split; [exact Hw3 | exact (ci_db _ _ _ Hi1)|]. intros op' e'. cbn [with_cached uc_cachedEntries].
      rewrite Hg3, Hg2. case_decide as Hd; [discriminate | apply (ci_entries _ _ _ Hi1)].
    + apply map_eq. intros op'. rewrite lookup_cabs. cbn [with_cached uc_cachedEntries]. rewrite Hg3, Hg2, <- Ha.
      case_decide as Hd; [subst op'; rewrite lookup_delete_eq; now apply Hfr|].
      now rewrite lookup_delete_ne, lookup_cabs.
  - eexists. split; [reflexivity|]. split.
    + split; [exact Hw2 | exact (ci_db _ _ _ Hi1)|]. intros op' e'. cbn [with_cached uc_cachedEntries].
      rewrite Hg2. case_decide as Hd; [|apply (ci_entries _ _ _ Hi1)]. subst op'. intros [= <-].
      split; [exact Ho | now apply cached_Spend].
    + apply map_eq. intros op'. rewrite lookup_cabs. cbn [with_cached uc_cachedEntries]. rewrite Hg2, <- Ha.
      case_decide as Hd; [subst op'; rewrite lookup_delete_eq; cbn [live]; now rewrite IsSpent_Spend|].
      now rewrite lookup_delete_ne, lookup_cabs.
Qed.

Lemma addTxIns_spec D db ins : forall s stxos, cinv D db s -> Forall (fun ti => outpoint_ok (ti_PreviousOutPoint ti)) ins ->
  NoDup (map ti_PreviousOutPoint ins) -> forall cs,
  Forall2 (fun op c => cabs D s !! op = Some c) (map ti_PreviousOutPoint ins) cs ->
  exists s', addTxIns_loop ParsePubKey SerializeUncompressed CalculateRoughMapSize CalculateMinEntries s db ins stxos =
      Ok (s', append_coins stxos cs) /\ cinv D db s' /\
    cabs D s' = delCoins (cabs D s) (map ti_PreviousOutPoint ins).
Proof.
  induction ins as [|ti ins IH]; intros s stxos Hi Ho Hd cs Hc; cbn [map addTxIns_loop] in *.
  - apply Forall2_nil_inv_l in Hc. subst cs. exists s. split; [|split; [exact Hi | reflexivity]].
    destruct stxos; cbn; now rewrite ?app_nil_r.
  - apply Forall2_cons_inv_l in Hc. destruct Hc as (c & cs' & Hc & Hcs & ->).
    apply Forall_cons in Ho. destruct Ho as [Ho1 Ho]. apply NoDup_cons in Hd. destruct Hd as [Hn Hd].
    destruct (addTxIn_spec D db s ti stxos c Hi Ho1 Hc) as (s1 & -> & Hi1 & Ha1). cbn [obind].
    destruct (IH s1 (append_coins stxos [c]) Hi1 Ho Hd cs') as (s2 & E & Hi2 & Ha2).
    { rewrite Ha1. clear -Hcs Hn. induction Hcs as [|op c' l l' H Hl IHl]; constructor.
      - rewrite lookup_delete_ne by set_solver. exact H.
      - apply IHl. set_solver. }
    exists s2. rewrite E, append_coins_cons. split; [reflexivity|]. split; [exact Hi2|]. rewrite Ha2, Ha1. reflexivity.
Qed.

Definition outs_ok (outs : list TxOut) : Prop := Forall (fun o => out_ok (to_Value o) (to_PkScript o)) outs.

Lemma freshEntry_flags o cb h : isFresh (freshEntry o cb h) = true /\ isModified (freshEntry o cb h) = true /\
  IsSpent (freshEntry o cb h) = false /\ coinOf (freshEntry o cb h) = coinOfOut o h cb.
Proof.
  rewrite isFresh_bit, isModified_bit, IsSpent_bit. unfold coinOf. rewrite IsCoinBase_bit. now destruct cb.
Qed.

(** Adding outputs the database does not hold adds their coins. *)
Lemma cache_addTxOuts_spec D db tx cb h outs : len (txHash DoubleHash tx) = 32 -> 0 <= h < 2 ^ 31 -> outs_ok outs ->
  forall i s, cinv D db s ->
  (forall k, k ∈ map fst (newCoins (txHash DoubleHash tx) i outs h cb) -> D !! k = None) ->
  let s' := cache_addTxOuts_loop CalculateRoughMapSize CalculateMinEntries DoubleHash s tx i outs cb h in
  cinv D db s' /\ cabs D s' = addCoins (cabs D s) (newCoins (txHash DoubleHash tx) i outs h cb).
Proof.
  intros Hh Hht. induction outs as [|o outs IH]; intros Hok i s Hi Hf; [split; [exact Hi | reflexivity]|].
  apply Forall_cons in Hok. destruct Hok as [Ho Hok]. cbn [cache_addTxOuts_loop newCoins] in *.
  unfold cache_addTxOut. destruct (IsUnspendable (to_PkScript o)); cbn [app] in *; [now apply IH|].
  set (op := outpointOf DoubleHash tx i). change (mkOutPoint (txHash DoubleHash tx) (u32 (Z.of_nat i))) with op in *.
  cbn [map fst] in Hf. assert (HD : D !! op = None) by (apply Hf, list_elem_of_here).
  assert (Hop : outpoint_ok op) by (split; [exact Hh | apply Z.mod_pos_bound; reflexivity]).
  destruct (freshEntry_flags o cb h) as (F1 & F2 & F3 & F4).
  assert (Hi1 : cinv D db (put_cached s (op, Some (freshEntry o cb h)))).
  { apply cinv_put; [exact Hi | exact Hop|]. cbn [cached]. split; [split; [exact Ho | exact Hht]|]. split; [auto | congruence]. }
  destruct (IH Hok (S i) _ Hi1) as [Hi2 Ha2]; [intros k Hk; apply Hf; now apply list_elem_of_further|].
  split; [exact Hi2|]. rewrite Ha2.
  change (addCoins (cabs D s) ((op, coinOfOut o h cb) :: ?l)) with (addCoins (<[op := coinOfOut o h cb]> (cabs D s)) l).
  f_equal. apply map_eq. intros op'. rewrite lookup_cabs.
  destruct (cachePut_spec s op (Some (freshEntry o cb h)) (ci_wf _ _ _ Hi)) as [_ Hg]. rewrite Hg.
  case_decide as Hd.
  - subst op'. rewrite lookup_insert_eq. cbn [live]. now rewrite F3, F4.
  - now rewrite lookup_insert_ne, lookup_cabs.
Qed.

(** What connecting a transaction needs: well-formed outputs and outpoints,
    distinct inputs that exist, and outputs that have never existed ([K] holds
    every outpoint that has). *)
Definition tx_sound (h : Z) (K : gset OutPoint) (U : utxoSet) (tx : MsgTx) : Prop :=
  len (txHash DoubleHash tx) = 32 /\ 0 <= h < 2 ^ 31 /\ outs_ok (tx_TxOut tx) /\
  (IsCoinBaseTx tx = false ->
     Forall outpoint_ok (spentBy tx) /\ NoDup (spentBy tx) /\ Forall (fun op => is_Some (U !! op)) (spentBy tx)) /\
  forall k, k ∈ map fst (createdBy DoubleHash h tx) -> k ∉ K.

(** The coins a transaction spends. *)
Definition spentCoins (U : utxoSet) (tx : MsgTx) : list coin :=
  if IsCoinBaseTx tx then [] else omap (fun op => U !! op) (spentBy tx).

Lemma connectTx_spec D db s tx h K stxos : cinv D db s -> dom D ⊆ K -> tx_sound h K (cabs D s) tx ->
  exists s', cache_connectTransaction ParsePubKey SerializeUncompressed CalculateRoughMapSize CalculateMinEntries DoubleHash
      db s tx h stxos = Ok (s', append_coins stxos (spentCoins (cabs D s) tx)) /\ cinv D db s' /\
    cabs D s' = applyTx DoubleHash h (cabs D s) tx.
Proof.
  intros Hi HK (Hh & Hht & Hout & Hin & Hnew). unfold cache_connectTransaction, addTxIns, cache_addTxOuts, applyTx, spentCoins.
  assert (HD : forall k, k ∈ map fst (createdBy DoubleHash h tx) -> D !! k = None).
  { intros k Hk. apply not_elem_of_dom. intros H. exact (Hnew k Hk (HK k H)). }
  destruct (IsCoinBaseTx tx) eqn:Ec.
  - cbn [obind]. destruct (cache_addTxOuts_spec D db tx true h (tx_TxOut tx) Hh Hht Hout 0%nat s Hi) as [Hi' Ha'].
    { unfold createdBy in HD. now rewrite Ec in HD. }
    eexists. split; [destruct stxos; cbn; now rewrite ?app_nil_r|]. split; [exact Hi'|]. rewrite Ha'. unfold createdBy. now rewrite Ec.
  - destruct (Hin eq_refl) as (Hok & Hd & Hs).
    assert (H2 : exists cs, Forall2 (fun op c => cabs D s !! op = Some c) (spentBy tx) cs /\
        omap (fun op => cabs D s !! op) (spentBy tx) = cs).
    { clear -Hs. induction Hs as [|op l [c Hc] _ (cs & H & E)]; [exists []; split; [constructor | reflexivity]|].
      exists (c :: cs). split; [now constructor|]. cbn. now rewrite Hc, <- E. }
    destruct H2 as (cs & H2 & ->).
    destruct (addTxIns_spec D db (tx_TxIn tx) s stxos Hi) with (cs := cs) as (s1 & -> & Hi1 & Ha1);
      [unfold spentBy in Hok; now rewrite Forall_map in Hok | exact Hd | exact H2|].
    cbn [obind]. destruct (cache_addTxOuts_spec D db tx false h (tx_TxOut tx) Hh Hht Hout 0%nat s1 Hi1) as [Hi' Ha'].
    { unfold createdBy in HD. now rewrite Ec in HD. }
    eexists. split; [reflexivity|]. split; [exact Hi'|]. rewrite Ha', Ha1. unfold createdBy. now rewrite Ec.
Qed.

(** ** Flushing *)

Definition writeCoin (D : utxoSet) (p : OutPoint * option UtxoEntry) : utxoSet :=
  partial_alter (fun _ => live (snd p)) (fst p) D.

Lemma db_rep_delete db D op : db_rep db D -> outpoint_ok op ->
  db_rep (set_utxos db (delete (keyOf op) (db_utxos db))) (delete op D).
Proof.
  intros [Hok Hdb] Ho. split.
  - intros op' c Hc. apply lookup_delete_Some in Hc. now apply Hok.
  - intros op' Ho'. cbn [set_utxos db_utxos]. destruct (decide (op = op')) as [<-|Hne].
    + now rewrite !lookup_delete_eq.
    + rewrite !lookup_delete_ne; [now apply Hdb | exact Hne|]. intros E. apply Hne. now apply keyOf_inj.
Qed.

Lemma db_rep_insert db D op c : db_rep db D -> outpoint_ok op -> coin_ok c ->
  db_rep (set_utxos db (<[keyOf op := entryBytes ParsePubKey (entryOf c)]> (db_utxos db))) (<[op := c]> D).
Proof.
  intros [Hok Hdb] Ho Hc. split.
  - intros op' c' Hc'. apply lookup_insert_Some in Hc'. destruct Hc' as [[<- <-]|[_ Hc']]; [now split | now apply Hok].
  - intros op' Ho'. cbn [set_utxos db_utxos]. destruct (decide (op = op')) as [<-|Hne].
    + now rewrite !lookup_insert_eq.
    + rewrite !lookup_insert_ne; [now apply Hdb | exact Hne|]. intros E. apply Hne. now apply keyOf_inj.
Qed.

Lemma entryBytes_coinOf e : entryBytes ParsePubKey e = entryBytes ParsePubKey (entryOf (coinOf e)).
Proof.
  unfold entryBytes. f_equal. f_equal. f_equal. transitivity (c_coinbase (coinOf e)); [reflexivity|].
  now rewrite <- (coinOf_entryOf (coinOf e)) at 1.
Qed.

Lemma writeEntry_spec db D op e : db_rep db D -> outpoint_ok op -> cached D op e ->
  exists db', writeEntry ParsePubKey db (op, e) = Ok db' /\ db_rep db' (writeCoin D (op, e)).
Proof.
  intros Hdb Ho Hc. unfold writeEntry, writeCoin, dbDeleteUtxoEntry, dbPutUtxoEntry. cbn [fst snd].
  rewrite (keyOf_eq op Ho). cbn [lift_derr obind]. destruct e as [e|]; [|eexists; split; [reflexivity|]; now apply db_rep_delete].
  destruct Hc as (He & _ & Hm). cbn [live]. destruct (IsSpent e) eqn:Es; [eexists; split; [reflexivity|]; now apply db_rep_delete|].
  destruct (isModified e); cbn [negb].
  - rewrite (serialize_entry ParsePubKey) by assumption. cbn [obind]. eexists. split; [reflexivity|].
    rewrite entryBytes_coinOf. apply (db_rep_insert db D op (coinOf e) Hdb Ho He).
  - exists db. split; [reflexivity|]. destruct (Hm eq_refl) as [HD _].
    replace (partial_alter _ op D) with D; [exact Hdb|]. apply map_eq. intros op'.
    destruct (decide (op = op')) as [<-|Hne]; [now rewrite lookup_partial_alter_eq | now rewrite lookup_partial_alter_ne].
Qed.

Lemma lookup_writeCoin_ne D p op : fst p <> op -> writeCoin D p !! op = D !! op.
Proof. intros H. unfold writeCoin. now rewrite lookup_partial_alter_ne. Qed.

Lemma cached_ext D D' op e : D !! op = D' !! op -> cached D op e -> cached D' op e.
Proof. unfold cached. now intros ->. Qed.

Lemma write_all l : forall db D, db_rep db D -> NoDup (map fst l) ->
  Forall (fun p => outpoint_ok (fst p) /\ cached D (fst p) (snd p)) l ->
  exists db', fold_ok (writeEntry ParsePubKey) db l = Ok db' /\ db_rep db' (fold_left writeCoin l D).
Proof.
  induction l as [|[op e] l IH]; intros db D Hdb Hd Hl; cbn [fold_ok fold_left]; [now exists db|].
  cbn [map fst] in Hd. apply NoDup_cons in Hd. destruct Hd as [Hn Hd].
  apply Forall_cons in Hl. destruct Hl as [[Ho Hc] Hl]. cbn [fst snd] in *.
  destruct (writeEntry_spec db D op e Hdb Ho Hc) as (db1 & -> & Hdb1). cbn [obind]. apply (IH _ _ Hdb1 Hd).
  rewrite Forall_forall in Hl |- *. intros p Hp. destruct (Hl p Hp) as [Hop Hcp]. split; [exact Hop|].
  apply (cached_ext D); [|exact Hcp]. symmetry. apply lookup_writeCoin_ne. cbn [fst]. intros E. apply Hn. rewrite E.
  apply list_elem_of_In, in_map, list_elem_of_In, Hp.
Qed.

Lemma lookup_write_all l : forall D op, NoDup (map fst l) ->
  (forall e, (op, e) ∈ l -> fold_left writeCoin l D !! op = live e) /\
  (op ∉ map fst l -> fold_left writeCoin l D !! op = D !! op).
Proof.
  clear forms iter_all. induction l as [|[op' e'] l IH]; intros D op Hd; cbn [fold_left map fst]; [split; [set_solver | reflexivity]|].
  cbn [map fst] in Hd. apply NoDup_cons in Hd. destruct Hd as [Hn Hd]. destruct (IH (writeCoin D (op', e')) op Hd) as [H1 H2].
  split.
  - intros e He. apply elem_of_cons in He. destruct He as [[= -> ->]|He]; [|now apply H1].
    rewrite H2 by exact Hn. apply lookup_partial_alter_eq.
  - intros Hop. rewrite H2 by set_solver. apply lookup_writeCoin_ne. cbn [fst]. set_solver.
Qed.

Lemma fold_ok_app {A B E} (f : A -> B -> outcome E A) l1 : forall l2 a,
  fold_ok f a (l1 ++ l2) = (let* a := fold_ok f a l1 in fold_ok f a l2).
Proof.
  induction l1 as [|x l1 IH]; intros l2 a; [reflexivity|]. cbn [app fold_ok].
  destruct (f a x); cbn [obind]; [apply IH | reflexivity | reflexivity].
Qed.

Lemma fold_ok_concat maps : forall db,
  fold_ok (fun db m => fold_ok (writeEntry ParsePubKey) db (iter m)) db maps =
  fold_ok (writeEntry ParsePubKey) db (concat (map iter maps)).
Proof.
  induction maps as [|m maps IH]; intros db; [reflexivity|]. cbn [fold_ok map concat]. rewrite fold_ok_app.
  destruct (fold_ok _ db (iter m)); cbn [obind]; [apply IH | reflexivity | reflexivity].
Qed.

(** The entries a flush ranges over are those a lookup finds, each once. *)
Lemma entries_all maps : disj maps ->
  NoDup (map fst (concat (map iter maps))) /\
  forall op e, (op, e) ∈ concat (map iter maps) <-> get_maps maps op = Some e.
Proof.
  induction maps as [|m maps IH]; intros Hd; cbn [map concat get_maps].
  { split; [constructor|]. intros op e. split; [intros H; inversion H | discriminate]. }
  destruct Hd as [Hm Hd]. destruct (IH Hd) as [Hnd Hin].
  assert (Hi : forall op e, (op, e) ∈ iter m <-> m !! op = Some e).
  { intros op e. rewrite (iter_all m). apply elem_of_map_to_list. }
  split.
  - rewrite map_app. apply NoDup_app. split; [|split; [|exact Hnd]].
    + rewrite (iter_all m). apply NoDup_fst_map_to_list.
    + intros op Hop Hop'. apply list_elem_of_In, in_map_iff in Hop, Hop'.
      destruct Hop as ([k e] & <- & He). destruct Hop' as ([k' e'] & E & He'). cbn [fst] in *. subst k'.
      apply list_elem_of_In, Hi in He. apply list_elem_of_In, Hin in He'. rewrite Hm in He' by (now exists e). discriminate.
  - intros op e. rewrite elem_of_app, Hi, Hin. destruct (m !! op) as [x|] eqn:Em; [|intuition congruence].
    rewrite Hm by (now exists x). intuition congruence.
Qed.

(** A flush leaves the set as it is, and leaves all of it in the database. *)
Lemma writeCache_spec D db s h now : cinv D db s ->
  exists s' db', writeCache ParsePubKey iter s db h now = Ok (s', db') /\ cinv (cabs D s) db' s' /\
    cabs (cabs D s) s' = cabs D s /\ db_consistency db' = Some h /\ forall op, ms_get (uc_cachedEntries s') op = None.
Proof.
  intros [Hw Hdb He]. destruct Hw as (Hd & Hl & Hne). destruct (entries_all _ Hd) as [Hnd Hin].
  unfold writeCache. rewrite fold_ok_concat. set (all := concat (map iter (ms_maps (uc_cachedEntries s)))) in *.
  destruct (write_all all db D Hdb Hnd) as (db' & -> & Hdb').
  { apply Forall_forall. intros [op e] Hp. apply He, Hin, Hp. }
  cbn [obind]. unfold deleteMaps. cbn [ms_maps ms_maxEntries ms_maxTotalMemoryUsage].
  destruct (ms_maps (uc_cachedEntries s)) as [|m maps] eqn:Em; [congruence|].
  destruct (ms_maxEntries (uc_cachedEntries s)) as [|n ns]; [discriminate|]. cbn [map].
  pose proof (@slice_mid chainErr entryMap [] [∅] (map (fun _ => ∅) maps)) as Hs. cbn [app] in Hs.
  change (len []) with 0 in Hs. change (0 + len [∅]) with 1 in Hs. rewrite Hs.
  eexists _, _. split; [reflexivity|].
  assert (Hg : forall op, get_maps [∅] op = None) by (intros op; cbn [get_maps]; now rewrite lookup_empty).
  assert (HD : fold_left writeCoin all D = cabs D s).
  { apply map_eq. intros op. destruct (lookup_write_all all D op Hnd) as [H1 H2]. rewrite lookup_cabs. unfold ms_get.
    rewrite Em. destruct (get_maps (m :: maps) op) as [e|] eqn:Eg; [apply H1; now apply Hin|]. apply H2.
    intros Hop. apply list_elem_of_In, in_map_iff in Hop. destruct Hop as ([k e] & E & Hk). cbn [fst] in E. subst k.
    apply list_elem_of_In, Hin in Hk. congruence. }
  rewrite HD in Hdb'. split; [|split; [|split; [reflexivity | exact Hg]]].
  - split; [repeat split; discriminate | exact Hdb'|]. intros op e H. unfold ms_get in H. cbn [uc_cachedEntries ms_maps] in H.
    rewrite Hg in H. discriminate.
  - apply map_eq. intros op. rewrite lookup_cabs. unfold ms_get. cbn [uc_cachedEntries ms_maps]. now rewrite Hg.
Qed.

Lemma flush_spec D db s mode h now : cinv D db s ->
  exists s' db', flush ParsePubKey CalculateRoughMapSize iter s db mode h now = Ok (s', db') /\
    ((s' = s /\ db' = db /\ mode <> FlushRequired) \/
     (cinv (cabs D s) db' s' /\ cabs (cabs D s) s' = cabs D s /\ db_consistency db' = Some h /\
      forall op, ms_get (uc_cachedEntries s') op = None)).
Proof.
  intros Hi. unfold flush. destruct (writeCache_spec D db s h now Hi) as (s' & db' & E & H).
  assert (Hm : 0 <= totalMemoryUsage CalculateRoughMapSize s) by (apply Z.mod_pos_bound; reflexivity).
  assert (Hgo : forall t, exists s' db', (if t <=? totalMemoryUsage CalculateRoughMapSize s
      then writeCache ParsePubKey iter s db h now else Ok (s, db)) = Ok (s', db') /\
    ((s' = s /\ db' = db) \/
     (cinv (cabs D s) db' s' /\ cabs (cabs D s) s' = cabs D s /\ db_consistency db' = Some h /\
      forall op, ms_get (uc_cachedEntries s') op = None))).
  { intros t. destruct (t <=? _); [exists s', db' | exists s, db]; tauto. }
  destruct mode.
  - decide_cmp. exists s', db'. tauto.
  - destruct (Hgo (if UtxoFlushPeriodicInterval <? now - uc_lastFlushTime s then 0 else uc_maxTotalMemoryUsage s))
      as (s1 & db1 & E1 & H1). exists s1, db1. split; [exact E1|]. destruct H1 as [[H1 H2]|H1]; [left | right; exact H1].
    repeat split; [exact H1 | exact H2 | discriminate].
  - destruct (bytes_eqb h (uc_lastFlushHash s)); [exists s, db; split; [reflexivity|]; left; repeat split; discriminate|].
    destruct (Hgo (uc_maxTotalMemoryUsage s)) as (s1 & db1 & E1 & H1). exists s1, db1. split; [exact E1|].
    destruct H1 as [[H1 H2]|H1]; [left | right; exact H1]. repeat split; [exact H1 | exact H2 | discriminate].
Qed.

(** ** Histories *)

(** What the chain does to its cache: connect a block, flush, fetch. *)
Inductive cacheStep : Type :=
| CConnect (b : Block)
| CFlush (mode : FlushMode) (bestHash : list Z) (now : Z)
| CFetch (outpoints : list OutPoint).

Definition stepCache (s : utxoCache) (db : utxoDB) (st : cacheStep) : outcome chainErr (utxoCache * utxoDB) :=
  match st with
  | CConnect b =>
      let* (s, _) := cache_connectTransactions ParsePubKey SerializeUncompressed CalculateRoughMapSize CalculateMinEntries
                       DoubleHash db s b (Some []) in Ok (s, db)
  | CFlush mode bestHash now => flush ParsePubKey CalculateRoughMapSize iter s db mode bestHash now
  | CFetch ops =>
      let* (_, s) := fetchEntries ParsePubKey SerializeUncompressed CalculateRoughMapSize CalculateMinEntries s db ops in
      Ok (s, db)
  end.

Fixpoint runCache (s : utxoCache) (db : utxoDB) (steps : list cacheStep) : outcome chainErr (utxoCache * utxoDB) :=
  match steps with
  | [] => Ok (s, db)
  | st :: steps' => let* (s, db) := stepCache s db st in runCache s db steps'
  end.

(** The same on the ledger. *)
Definition ledgerStep (U : utxoSet) (st : cacheStep) : utxoSet :=
  match st with CConnect b => applyBlock DoubleHash U b | _ => U end.
Definition ledger (U : utxoSet) (steps : list cacheStep) : utxoSet := fold_left ledgerStep steps U.

Definition createdKeys (h : Z) (tx : MsgTx) : gset OutPoint := list_to_set (map fst (createdBy DoubleHash h tx)).

Fixpoint txs_sound (h : Z) (K : gset OutPoint) (U : utxoSet) (txs : list MsgTx) : Prop :=
  match txs with
  | [] => True
  | tx :: txs' => tx_sound h K U tx /\ txs_sound h (K ∪ createdKeys h tx) (applyTx DoubleHash h U tx) txs'
  end.

Definition keysAfter (h : Z) (K : gset OutPoint) (txs : list MsgTx) : gset OutPoint :=
  fold_left (fun K tx => K ∪ createdKeys h tx) txs K.

(** A history in which every block spends what exists, and creates only
    outputs that have never existed. *)
Fixpoint sound_history (K : gset OutPoint) (U : utxoSet) (steps : list cacheStep) : Prop :=
  match steps with
  | [] => True
  | CConnect b :: steps' =>
      txs_sound (blk_height b) K U (Transactions b) /\
      sound_history (keysAfter (blk_height b) K (Transactions b)) (applyBlock DoubleHash U b) steps'
  | CFlush _ _ _ :: steps' => sound_history K U steps'
  | CFetch ops :: steps' => Forall outpoint_ok ops /\ sound_history K U steps'
  end.

Lemma dom_addCoins l : forall (U : utxoSet), dom (addCoins U l) ⊆ dom U ∪ list_to_set (map fst l).
Proof.
  clear forms iter_all. induction l as [|[k c] l IH]; intros U; [set_solver|].
  change (addCoins U ((k, c) :: l)) with (addCoins (<[k := c]> U) l). rewrite IH, dom_insert. cbn [map fst list_to_set]. set_solver.
Qed.

Lemma dom_applyTx h U tx : dom (applyTx DoubleHash h U tx) ⊆ dom U ∪ createdKeys h tx.
Proof.
  clear forms iter_all. unfold applyTx, createdKeys. rewrite dom_addCoins. apply union_mono_r. destruct (IsCoinBaseTx tx); [reflexivity|].
  intros k Hk. apply elem_of_dom in Hk. destruct Hk as [c Hc]. rewrite lookup_delCoins in Hc.
  case_decide; [discriminate|]. apply elem_of_dom. now exists c.
Qed.

(** The coins the transactions of a block spend, in order. *)
Fixpoint blockSpent (h : Z) (U : utxoSet) (txs : list MsgTx) : list coin :=
  match txs with
  | [] => []
  | tx :: txs' => spentCoins U tx ++ blockSpent h (applyTx DoubleHash h U tx) txs'
  end.

Lemma append_coins_app stxos l1 l2 : append_coins (append_coins stxos l1) l2 = append_coins stxos (l1 ++ l2).
Proof. destruct stxos; cbn [append_coins option_map]; [|reflexivity]. now rewrite map_app, app_assoc. Qed.

(** A block moves the cache as the ledger, and journals what it spends. *)
Lemma cache_connect_spec D db h txs : forall K s stxos, cinv D db s -> dom D ∪ dom (cabs D s) ⊆ K ->
  txs_sound h K (cabs D s) txs ->
  exists s', cache_connect_loop ParsePubKey SerializeUncompressed CalculateRoughMapSize CalculateMinEntries DoubleHash
      db s txs h stxos = Ok (s', append_coins stxos (blockSpent h (cabs D s) txs)) /\ cinv D db s' /\
    cabs D s' = fold_left (applyTx DoubleHash h) txs (cabs D s) /\ dom D ∪ dom (cabs D s') ⊆ keysAfter h K txs.
Proof.
  induction txs as [|tx txs IH]; intros K s stxos Hi HK Hs; cbn [cache_connect_loop fold_left blockSpent].
  - exists s. split; [destruct stxos; cbn; now rewrite ?app_nil_r|]. split; [exact Hi|]. split; [reflexivity | exact HK].
  - destruct Hs as [Hs Hs']. destruct (connectTx_spec D db s tx h K stxos Hi ltac:(set_solver) Hs) as (s1 & -> & Hi1 & Ha1).
    cbn [obind]. rewrite <- Ha1 in Hs' |- *. rewrite <- append_coins_app. apply IH; [exact Hi1 | | exact Hs'].
    pose proof (dom_applyTx h (cabs D s) tx) as Hdom. rewrite Ha1. set_solver.
Qed.

(** Through any sound history, the cache over its database is the ledger, and
    the database alone is the ledger at an earlier point. *)
Lemma runCache_spec D db K s steps : cinv D db s -> dom D ∪ dom (cabs D s) ⊆ K -> sound_history K (cabs D s) steps ->
  exists s' db' D', runCache s db steps = Ok (s', db') /\ cinv D' db' s' /\ cabs D' s' = ledger (cabs D s) steps /\
    (D' = D \/ exists k, (k <= List.length steps)%nat /\ D' = ledger (cabs D s) (firstn k steps)).
Proof.
  revert D db K s. induction steps as [|st steps IH]; intros D db K s Hi HK Hs; cbn [runCache].
  { exists s, db, D. split; [reflexivity|]. split; [exact Hi|]. split; [reflexivity | now left]. }
  assert (Hstep : exists s1 db1 D1 K1, stepCache s db st = Ok (s1, db1) /\ cinv D1 db1 s1 /\
      cabs D1 s1 = ledgerStep (cabs D s) st /\ (D1 = D \/ (D1 = cabs D s /\ cabs D1 s1 = cabs D s)) /\
      dom D1 ∪ dom (cabs D1 s1) ⊆ K1 /\ sound_history K1 (cabs D1 s1) steps).
  { destruct st as [b|mode h now|ops]; cbn [sound_history stepCache ledgerStep] in *.
    - destruct Hs as [Hb Hs]. destruct (cache_connect_spec D db _ _ K s (Some []) Hi HK Hb) as (s1 & E & Hi1 & Ha & HK1).
      unfold cache_connectTransactions. rewrite E. cbn [obind]. exists s1, db, D, (keysAfter (blk_height b) K (Transactions b)).
      split; [reflexivity|]. split; [exact Hi1|]. split; [exact Ha|]. split; [now left|]. split; [exact HK1|]. rewrite Ha. exact Hs.
    - destruct (flush_spec D db s mode h now Hi) as (s1 & db1 & -> & [(-> & -> & _)|(Hi1 & Ha & _)]).
      + exists s, db, D, K. split; [reflexivity|]. split; [exact Hi|]. auto.
      + exists s1, db1, (cabs D s), K. split; [reflexivity|]. split; [exact Hi1|]. rewrite Ha. split; [reflexivity|].
        split; [now right|]. split; [set_solver | exact Hs].
    - destruct Hs as [Ho Hs]. destruct (fetchEntries_spec D db s ops Hi Ho) as (s1 & -> & Hi1 & Ha & _). cbn [obind].
      exists s1, db, D, K. split; [reflexivity|]. split; [exact Hi1|]. rewrite Ha. auto. }
  destruct Hstep as (s1 & db1 & D1 & K1 & -> & Hi1 & Ha1 & HD1 & HK1 & Hs1). cbn [obind].
  destruct (IH D1 db1 K1 s1 Hi1 HK1 Hs1) as (s2 & db2 & D2 & -> & Hi2 & Ha2 & HD2).
  exists s2, db2, D2. split; [reflexivity|]. split; [exact Hi2|]. split; [now rewrite Ha2, Ha1|].
  destruct HD2 as [->|(k & Hk & ->)].
  - destruct HD1 as [->|[-> _]]; [now left|]. right. exists 0%nat. split; [lia | reflexivity].
  - right. exists (S k). split; [cbn; lia|]. cbn [firstn]. now rewrite Ha1.
Qed.

Lemma newUtxoCache_inv db U max : db_rep db U -> cinv U db (newUtxoCache CalculateMinEntries max) /\
  cabs U (newUtxoCache CalculateMinEntries max) = U.
Proof.
  intros Hdb. assert (Hg : forall op, ms_get (uc_cachedEntries (newUtxoCache CalculateMinEntries max)) op = None).
  { intros op. unfold ms_get. cbn. now rewrite lookup_empty. }
  split.
  - split; [repeat split; discriminate | exact Hdb|]. intros op e H. rewrite Hg in H. discriminate.
  - apply map_eq. intros op. now rewrite lookup_cabs, Hg.
Qed.
End Refinement.

(** ** Properties *)

(** C5: through any history of blocks, flushes and fetches in which blocks spend
    what exists and create outputs that never existed, no operation fails, the cache
    over the database answers every fetch as the ledger does, the database alone
    holds the ledger at an earlier point of the history, and a required flush brings
    it to the current one and records the hash. *)
Theorem cache_refines_ledger {PubKey} ParsePubKey (SerializeUncompressed : PubKey -> list Z)
    CalculateRoughMapSize CalculateMinEntries iter DoubleHash max db U K steps :
  pubkey_forms ParsePubKey SerializeUncompressed -> (forall m, iter m ≡ₚ map_to_list m) ->
  db_rep ParsePubKey db U -> dom U ⊆ K -> sound_history DoubleHash K U steps ->
  let now := ledger DoubleHash U steps in
  exists s' db',
    runCache ParsePubKey SerializeUncompressed CalculateRoughMapSize CalculateMinEntries iter DoubleHash
      (newUtxoCache CalculateMinEntries max) db steps = Ok (s', db') /\
    (forall ops, Forall outpoint_ok ops -> exists es s'',
       fetchEntries ParsePubKey SerializeUncompressed CalculateRoughMapSize CalculateMinEntries s' db' ops = Ok (es, s'') /\
       map live es = map (fun op => now !! op) ops) /\
    (exists k, (k <= List.length steps)%nat /\ db_rep ParsePubKey db' (ledger DoubleHash U (firstn k steps))) /\
    (forall h t, exists s'' db'', flush ParsePubKey CalculateRoughMapSize iter s' db' FlushRequired h t = Ok (s'', db'') /\
       db_rep ParsePubKey db'' now /\ dbFetchUtxoStateConsistency db'' = Some h).
Proof.
  intros Hf Hiter Hdb HK Hs now. destruct (newUtxoCache_inv ParsePubKey CalculateMinEntries db U max Hdb) as [Hi Ha].
  rewrite <- Ha in Hs at 1.
  destruct (runCache_spec ParsePubKey SerializeUncompressed CalculateRoughMapSize CalculateMinEntries iter DoubleHash
    Hf Hiter U db K _ steps Hi ltac:(rewrite Ha; set_solver) Hs) as (s' & db' & D' & E & Hi' & Ha' & HD).
  rewrite Ha in Ha', HD. exists s', db'. split; [exact E|]. split; [|split].
  - intros ops Ho. destruct (fetchEntries_spec ParsePubKey SerializeUncompressed CalculateRoughMapSize CalculateMinEntries
      iter Hf Hiter D' db' s' ops Hi' Ho) as (s'' & -> & _). eexists _, _. split; [reflexivity|].
    rewrite map_map. apply map_ext. intros op. rewrite live_entryFor, Ha'. reflexivity.
  - destruct HD as [->|(k & Hk & ->)]; [exists 0%nat; split; [lia|] | exists k; split; [exact Hk|]]; apply Hi'.
  - intros h t. destruct (flush_spec ParsePubKey CalculateRoughMapSize CalculateMinEntries iter DoubleHash Hiter D' db' s' FlushRequired h t Hi')
      as (s'' & db'' & -> & [(_ & _ & H)|(Hi'' & _ & Hh & _)]); [congruence|].
    exists s'', db''. split; [reflexivity|]. split; [|exact Hh]. unfold now. rewrite <- Ha'. apply Hi''.
Qed.

(** *** A history of the sample block *)

Definition sampleDB : utxoDB :=
  mkUtxoDB {[ keyOf (mkOutPoint (repeat 7 32) 3) := entryBytes toy_parse (entryOf (mkCoin 5 [0x51] 4 true)) ]} None.
Definition sampleSteps : list cacheStep :=
  [CFetch [mkOutPoint (repeat 7 32) 3; mkOutPoint (repeat 8 32) 0]; CConnect sampleBlock; CFlush FlushIfNeeded (repeat 6 32) 1].

Lemma sampleDB_rep : db_rep toy_parse sampleDB sampleBase.
Proof.
  split.
  - intros op c H. unfold sampleBase in H. apply lookup_singleton_Some in H. destruct H as [<- <-].
    repeat split; vm_compute; congruence.
  - intros op Ho. unfold sampleDB, sampleBase. cbn [db_utxos].
    destruct (decide (mkOutPoint (repeat 7 32) 3 = op)) as [<-|Hne].
    + now rewrite !lookup_singleton_eq.
    + rewrite !lookup_singleton_ne; [reflexivity | exact Hne|]. intros E. apply Hne, keyOf_inj; [|exact Ho | exact E].
      repeat split; vm_compute; congruence.
Qed.

Lemma cache_refines_ledger_witness :
  let now := ledger toyId sampleBase sampleSteps in
  exists s' db',
    runCache toy_parse (fun k => k) (fun _ _ => 1000) (fun _ _ => 2) map_to_list toyId
      (newUtxoCache (fun _ _ => 2) 100) sampleDB sampleSteps = Ok (s', db') /\
    (forall h t, exists s'' db'', flush toy_parse (fun _ _ => 1000) map_to_list s' db' FlushRequired h t = Ok (s'', db'') /\
       db_rep toy_parse db'' now /\ dbFetchUtxoStateConsistency db'' = Some h).
Proof.
  destruct (cache_refines_ledger toy_parse (fun k => k) (fun _ _ => 1000) (fun _ _ => 2) map_to_list toyId 100 sampleDB
    sampleBase (dom sampleBase) sampleSteps) as (s' & db' & E & _ & _ & H).
  - apply toy_forms.
  - reflexivity.
  - exact sampleDB_rep.
  - reflexivity.
  - cbn [sound_history sampleSteps]. split; [repeat constructor; vm_compute; congruence|]. split; [|exact I].
    split; [|split; [|exact I]].
    + split; [vm_compute; reflexivity|]. split; [vm_compute; split; congruence|].
      split; [repeat constructor; vm_compute; congruence|]. split; [intros H; vm_compute in H; discriminate|].
      intros k Hk. change (map fst _) with [outpointOf toyId cbTx 0] in Hk. apply list_elem_of_singleton in Hk. subst k.
      apply not_elem_of_dom. vm_compute. reflexivity.
    + split; [vm_compute; reflexivity|]. split; [vm_compute; split; congruence|].
      split; [repeat constructor; vm_compute; congruence|]. split.
      * intros _. change (spentBy payTx) with [outpointOf toyId cbTx 0; mkOutPoint (repeat 7 32) 3].
        split; [repeat constructor; vm_compute; congruence|]. split.
        -- apply NoDup_cons. split; [|apply NoDup_singleton]. rewrite list_elem_of_singleton. vm_compute. congruence.
        -- repeat constructor; eexists; vm_compute; reflexivity.
      * intros k Hk. change (map fst _) with [outpointOf toyId payTx 0] in Hk. apply list_elem_of_singleton in Hk. subst k.
        apply not_elem_of_union. split; [apply not_elem_of_dom; vm_compute; reflexivity|].
        unfold createdKeys. change (map fst _) with [outpointOf toyId cbTx 0]. rewrite elem_of_list_to_set, list_elem_of_singleton.
        vm_compute. congruence.
  - exists s', db'. split; [exact E | exact H].
Defined.

(** ** An output that comes back *)

(** A coin of the database is spent, an output with the same outpoint is
    created, and spent again, with no flush between: the entry is marked fresh
    although the database has a record of it, so that the second spend forgets
    it, and the stale coin of the database is unspent again. *)
Definition respent : outcome chainErr (list (option UtxoEntry)) :=
  let op := mkOutPoint (repeat 7 32) 3 in
  let ti := mkTxIn op [] None 0 in
  let spend s := addTxIn toy_parse (fun k => k) (fun _ _ => 1000) (fun _ _ => 2) s sampleDB ti None in
  let* (s, _) := spend (newUtxoCache (fun _ _ => 2) 100) in
  let s := cache_addTxOut (fun _ _ => 1000) (fun _ _ => 2) s op (mkTxOut 6 [0x51]) true 9 in
  let* (s, _) := spend s in
  let* (es, _) := fetchEntries toy_parse (fun k => k) (fun _ _ => 1000) (fun _ _ => 2) s sampleDB [op] in
  Ok es.

Lemma stale_coin_unspent :
  respent = Ok [Some (entryOf (mkCoin 5 [0x51] 4 true))] /\ IsSpent (entryOf (mkCoin 5 [0x51] 4 true)) = false.
Proof. vm_compute. split; reflexivity. Qed.
