(* ===== verification/Rules.v ===== *)
(** * The rules for transactions and headers (blockchain/validate.go,
      blockchain/weight.go)

    The checks that need no set of unspent outputs: sanity of transactions and
    blocks, proof of work, lock times, the subsidy, the height in the coinbase,
    and the rules that depend on the place of a block in the chain. *)

From Stdlib Require Import ZArith List Lia Bool String.
From stdpp Require Import gmap.
From S2P Require Import Prelude Opcodes GoSlice GoIO WireCommon WireTx WireMsgs Merkle Script Taproot Engine Difficulty ChainIO BlockIndex ChainView Retarget Index Threshold UtxoView.
Import ListNotations.
Local Open Scope string_scope.
Local Open Scope list_scope.
Local Open Scope Z_scope.
Local Open Scope go_scope.

(** ** Errors and constants *)

(** A rule violation, or an error of the chain that is none. *)
Inductive ruleErr : Type := Rule (code : RuleError) | Chain (e : chainErr).
Definition verdict : Type := outcome ruleErr unit.

Definition lift_chain {A} (o : outcome chainErr A) : outcome ruleErr A :=
  match o with Ok x => Ok x | Err e => Err (Chain e) | Panic => Panic end.

Definition MaxTimeOffsetSeconds : Z := 2 * 60 * 60.
Definition MinCoinbaseScriptLen : Z := 2.
Definition MaxCoinbaseScriptLen : Z := 100.
Definition serializedHeightVersion : Z := 2.
Definition SatoshiPerBitcoin : Z := 10 ^ 8.
Definition MaxSatoshi : Z := 21 * 10 ^ 6 * SatoshiPerBitcoin.
Definition baseSubsidy : Z := 50 * SatoshiPerBitcoin.
Definition MaxBlockWeight : Z := 4000000.
Definition MaxBlockBaseSize : Z := 1000000.
Definition MaxBlockSigOpsCost : Z := 80000.
Definition WitnessScaleFactor : Z := 4.

Definition BFFastAdd : Z := 1.
Definition BFNoPoWCheck : Z := 2.
Definition BFNone : Z := 0.
Definition has_flag (flags flag : Z) : bool := Z.land flags flag =? flag.

(** The parameters of a network the rules use. *)
Record RuleParams : Type := mkRuleParams {
  rp_retarget : BlockChain;
  rp_votes : VoteParams;
  BIP0034Height : Z;
  BIP0065Height : Z;
  BIP0066Height : Z;
  CoinbaseMaturity : Z;
  SubsidyReductionInterval : Z;
  GenesisHash : list Z;
  rp_checkpoints : list Checkpoint
}.

(** The networks without checkpoints. *)
Definition regTestGenesisHash : list Z :=
  [0x06; 0x22; 0x6e; 0x46; 0x11; 0x1a; 0x0b; 0x59; 0xca; 0xaf; 0x12; 0x60; 0x43; 0xeb; 0x5b; 0xbf;
   0x28; 0xc3; 0x4f; 0x3a; 0x5e; 0x33; 0x2a; 0x1f; 0xc7; 0xb2; 0xb7; 0x3c; 0xf1; 0x88; 0x91; 0x0f].
Definition simNetGenesisHash : list Z :=
  [0xf6; 0x7a; 0xd7; 0x69; 0x5d; 0x9b; 0x66; 0x2a; 0x72; 0xff; 0x3d; 0x8e; 0xdb; 0xbb; 0x2d; 0xe0;
   0xbf; 0xa6; 0x7b; 0x13; 0x97; 0x4b; 0xb9; 0x91; 0x0d; 0x11; 0x6d; 0x5c; 0xbd; 0x86; 0x3e; 0x68].
Definition RegressionNetRules : RuleParams :=
  mkRuleParams (chainFor RegressionNetParams) regressionNetVotes 100000000 1351 1251 100 150 regTestGenesisHash [].
Definition SimNetRules : RuleParams :=
  mkRuleParams (chainFor SimNetParams) simNetVotes 0 0 0 100 210000 simNetGenesisHash [].

(** ** Transactions *)

Definition isNullOutpoint (outpoint : OutPoint) : bool :=
  (op_Index outpoint =? MaxUint32) && bytes_eqb (op_Hash outpoint) zeroHash.

Definition ShouldHaveSerializedBlockHeight (header : BlockHeader) : bool := serializedHeightVersion <=? bh_Version header.

Record SequenceLock : Type := mkSequenceLock { sl_Seconds : Z; sl_BlockHeight : Z }.

Definition SequenceLockActive (sequenceLock : SequenceLock) (blockHeight medianTimePast : Z) : bool :=
  negb ((medianTimePast <=? sl_Seconds sequenceLock) || (blockHeight <=? sl_BlockHeight sequenceLock)).

Definition IsFinalizedTransaction (tx : MsgTx) (blockHeight blockTime : Z) : bool :=
  let lockTime := tx_LockTime tx in
  if lockTime =? 0 then true
  else
    let blockTimeOrHeight := if lockTime <? LockTimeThreshold then blockHeight else blockTime in
    if lockTime <? blockTimeOrHeight then true
    else forallb (fun txIn => ti_Sequence txIn =? MaxUint32) (tx_TxIn tx).

(** [baseSubsidy >> uint(n)]: a negative count is a huge one. *)
Definition CalcBlockSubsidy (height : Z) (params : RuleParams) : Z :=
  if SubsidyReductionInterval params =? 0 then baseSubsidy
  else Z.shiftr baseSubsidy (u64 (Z.quot height (SubsidyReductionInterval params))).

(** The amounts of the outputs and their running total. *)
Fixpoint checkAmounts (outs : list TxOut) (totalSatoshi : Z) : verdict :=
  match outs with
  | [] => Ok tt
  | txOut :: outs' =>
      let satoshi := to_Value txOut in
      if satoshi <? 0 then Err (Rule ErrBadTxOutValue)
      else if MaxSatoshi <? satoshi then Err (Rule ErrBadTxOutValue)
      else
        let totalSatoshi := i64 (totalSatoshi + satoshi) in
        if totalSatoshi <? 0 then Err (Rule ErrBadTxOutValue)
        else if MaxSatoshi <? totalSatoshi then Err (Rule ErrBadTxOutValue)
        else checkAmounts outs' totalSatoshi
  end.

Fixpoint checkDuplicateInputs (ins : list TxIn) (existingTxOut : gset OutPoint) : verdict :=
  match ins with
  | [] => Ok tt
  | txIn :: ins' =>
      if decide (ti_PreviousOutPoint txIn ∈ existingTxOut) then Err (Rule ErrDuplicateTxInputs)
      else checkDuplicateInputs ins' ({[ti_PreviousOutPoint txIn]} ∪ existingTxOut)
  end.

Definition CheckTransactionSanity (tx : MsgTx) : verdict :=
  if len (tx_TxIn tx) =? 0 then Err (Rule ErrNoTxInputs)
  else if len (tx_TxOut tx) =? 0 then Err (Rule ErrNoTxOutputs)
  else if MaxBlockBaseSize <? SerializeSizeStripped tx then Err (Rule ErrTxTooBig)
  else
    let* _ := checkAmounts (tx_TxOut tx) 0 in
    let* _ := checkDuplicateInputs (tx_TxIn tx) ∅ in
    if IsCoinBaseTx tx then
      let* ti := get_at (tx_TxIn tx) 0 in
      let slen := len (ti_SignatureScript ti) in
      if (slen <? MinCoinbaseScriptLen) || (MaxCoinbaseScriptLen <? slen) then Err (Rule ErrBadCoinbaseScriptLen) else Ok tt
    else if existsb (fun txIn => isNullOutpoint (ti_PreviousOutPoint txIn)) (tx_TxIn tx) then Err (Rule ErrBadTxInput)
    else Ok tt.

(** ** Signature operations and weight *)

Definition CountSigOps (tx : MsgTx) : Z :=
  fold_left (fun n txOut => n + GetSigOpCount (to_PkScript txOut)) (tx_TxOut tx)
    (fold_left (fun n txIn => n + GetSigOpCount (ti_SignatureScript txIn)) (tx_TxIn tx) 0).

Fixpoint p2shSigOps_loop (utxoView : UtxoViewpoint) (ins : list TxIn) (totalSigOps : Z) : outcome ruleErr Z :=
  match ins with
  | [] => Ok totalSigOps
  | txIn :: ins' =>
      match LookupEntry utxoView (ti_PreviousOutPoint txIn) with
      | None => Err (Rule ErrMissingTxOut)
      | Some utxo =>
          if IsSpent utxo then Err (Rule ErrMissingTxOut)
          else
            let pkScript := ue_pkScript utxo in
            if negb (isScriptHashScript pkScript) then p2shSigOps_loop utxoView ins' totalSigOps
            else
              let numSigOps := GetPreciseSigOpCount (ti_SignatureScript txIn) pkScript in
              let lastSigOps := totalSigOps in
              let totalSigOps := i64 (totalSigOps + numSigOps) in
              if totalSigOps <? lastSigOps then Err (Rule ErrTooManySigOps)
              else p2shSigOps_loop utxoView ins' totalSigOps
      end
  end.
Definition CountP2SHSigOps (tx : MsgTx) (isCoinBaseTx : bool) (utxoView : UtxoViewpoint) : outcome ruleErr Z :=
  if isCoinBaseTx then Ok 0 else p2shSigOps_loop utxoView (tx_TxIn tx) 0.

Fixpoint witnessSigOps_loop (utxoView : UtxoViewpoint) (ins : list TxIn) (numSigOps : Z) : outcome ruleErr Z :=
  match ins with
  | [] => Ok numSigOps
  | txIn :: ins' =>
      match LookupEntry utxoView (ti_PreviousOutPoint txIn) with
      | None => Err (Rule ErrMissingTxOut)
      | Some utxo =>
          if IsSpent utxo then Err (Rule ErrMissingTxOut)
          else witnessSigOps_loop utxoView ins'
                 (numSigOps + GetWitnessSigOpCount (ti_SignatureScript txIn) (ue_pkScript utxo) (wit_items (ti_Witness txIn)))
      end
  end.

Definition GetSigOpCost (tx : MsgTx) (isCoinBaseTx : bool) (utxoView : UtxoViewpoint) (bip16 segWit : bool)
  : outcome ruleErr Z :=
  let numSigOps := CountSigOps tx * WitnessScaleFactor in
  let witness numSigOps :=
    if segWit && negb isCoinBaseTx then witnessSigOps_loop utxoView (tx_TxIn tx) numSigOps else Ok numSigOps in
  if bip16 then
    match CountP2SHSigOps tx isCoinBaseTx utxoView with
    | Ok numP2SHSigOps => witness (numSigOps + numP2SHSigOps * WitnessScaleFactor)
    | Err _ => Ok 0
    | Panic => Panic
    end
  else witness numSigOps.

Definition GetBlockWeight (blk : Block) : Z :=
  mb_SerializeSizeStripped (blk_msg blk) * (WitnessScaleFactor - 1) + mb_SerializeSize (blk_msg blk).
Definition GetTransactionWeight (tx : MsgTx) : Z :=
  SerializeSizeStripped tx * (WitnessScaleFactor - 1) + SerializeSize tx.

(** ** Headers and blocks *)

Section Checks.
Context (DoubleHash : list Z -> list Z).

Definition checkProofOfWork (header : BlockHeader) (powLimit flags : Z) : verdict :=
  let target := CompactToBig (bh_Bits header) in
  if target <=? 0 then Err (Rule ErrUnexpectedDifficulty)
  else if powLimit <? target then Err (Rule ErrUnexpectedDifficulty)
  else if negb (has_flag flags BFNoPoWCheck) && (target <? HashToBig (BlockHash DoubleHash header))
  then Err (Rule ErrHighHash) else Ok tt.
Definition CheckProofOfWork (block : Block) (powLimit : Z) : verdict :=
  checkProofOfWork (mb_Header (blk_msg block)) powLimit BFNone.

(** Timestamps are whole seconds already; [adjustedTime] is the clock. *)
Definition checkBlockHeaderSanity (header : BlockHeader) (powLimit adjustedTime flags : Z) : verdict :=
  let* _ := checkProofOfWork header powLimit flags in
  if adjustedTime + MaxTimeOffsetSeconds <? bh_Timestamp header then Err (Rule ErrTimeTooNew) else Ok tt.

Fixpoint checkAll {A} (f : A -> verdict) (l : list A) : verdict :=
  match l with [] => Ok tt | x :: l' => let* _ := f x in checkAll f l' end.

Fixpoint checkDuplicateTxs (txs : list MsgTx) (existingTxHashes : gset (list Z)) : verdict :=
  match txs with
  | [] => Ok tt
  | tx :: txs' =>
      if decide (txHash DoubleHash tx ∈ existingTxHashes) then Err (Rule ErrDuplicateTx)
      else checkDuplicateTxs txs' ({[txHash DoubleHash tx]} ∪ existingTxHashes)
  end.

Fixpoint checkSigOps_loop (txs : list MsgTx) (totalSigOps : Z) : verdict :=
  match txs with
  | [] => Ok tt
  | tx :: txs' =>
      let lastSigOps := totalSigOps in
      let totalSigOps := i64 (totalSigOps + i64 (CountSigOps tx * WitnessScaleFactor)) in
      if (totalSigOps <? lastSigOps) || (MaxBlockSigOpsCost <? totalSigOps) then Err (Rule ErrTooManySigOps)
      else checkSigOps_loop txs' totalSigOps
  end.

Definition checkBlockSanity (block : Block) (powLimit adjustedTime flags : Z) : verdict :=
  let msgBlock := blk_msg block in
  let header := mb_Header msgBlock in
  let* _ := checkBlockHeaderSanity header powLimit adjustedTime flags in
  let transactions := Transactions block in
  let numTx := len transactions in
  if numTx =? 0 then Err (Rule ErrNoTransactions)
  else if MaxBlockBaseSize <? numTx then Err (Rule ErrBlockTooBig)
  else if MaxBlockBaseSize <? mb_SerializeSizeStripped msgBlock then Err (Rule ErrBlockTooBig)
  else
    let* first := get_at transactions 0 in
    if negb (IsCoinBaseTx first) then Err (Rule ErrFirstTxNotCoinbase)
    else
      let* rest := slice transactions 1 numTx in
      if existsb IsCoinBaseTx rest then Err (Rule ErrMultipleCoinbases)
      else
        let* _ := checkAll CheckTransactionSanity transactions in
        match CalcMerkleRoot DoubleHash transactions false with
        | Ok calcMerkleRoot =>
            if negb (bytes_eqb (bh_MerkleRoot header) calcMerkleRoot) then Err (Rule ErrBadMerkleRoot)
            else
              let* _ := checkDuplicateTxs transactions ∅ in
              checkSigOps_loop transactions 0
        | _ => Panic
        end.
Definition CheckBlockSanity (block : Block) (powLimit adjustedTime : Z) : verdict :=
  checkBlockSanity block powLimit adjustedTime BFNone.

(** ** The height in the coinbase *)

Definition ExtractCoinbaseHeight (coinbaseTx : MsgTx) : outcome ruleErr Z :=
  let* ti := get_at (tx_TxIn coinbaseTx) 0 in
  let sigScript := ti_SignatureScript ti in
  if len sigScript <? 1 then Err (Rule ErrMissingCoinbaseHeight)
  else
    let* opcode := get_at sigScript 0 in
    if opcode =? OP_0 then Ok 0
    else if (OP_1 <=? opcode) && (opcode <=? OP_16) then Ok (i32 (opcode - (OP_1 - 1)))
    else
      let serializedLen := opcode in
      let* rest := slice sigScript 1 (len sigScript) in
      if len rest <? serializedLen then Err (Rule ErrMissingCoinbaseHeight)
      else
        let* serialized := slice sigScript 1 (serializedLen + 1) in
        let serializedHeightBytes := firstn 8 (serialized ++ repeat 0 8) in
        Ok (i32 (le_get serializedHeightBytes)).

Definition checkSerializedHeight (coinbaseTx : MsgTx) (wantHeight : Z) : verdict :=
  let* serializedHeight := ExtractCoinbaseHeight coinbaseTx in
  if negb (serializedHeight =? wantHeight) then Err (Rule ErrBadCoinbaseHeight) else Ok tt.

(** ** The place in the chain *)

Section Context_.
Context (params : RuleParams) (bi : blockIndex) (bestChain : chainView).
Abbreviation a := (bi_nodes bi).

(** The checks of a header, with the search for the checkpoint the chain has
    passed. *)
Definition checkBlockHeaderContext (header : BlockHeader) (prevNode : nat) (flags : Z) (cs : checkpointState)
  : outcome ruleErr checkpointState :=
  let fastAdd := has_flag flags BFFastAdd in
  let* _ :=
    if fastAdd then Ok tt
    else
      match calcNextRequiredDifficulty (rp_retarget params) a (Some prevNode) (bh_Timestamp header) with
      | Ok expectedDifficulty =>
          if negb (bh_Bits header =? expectedDifficulty) then Err (Rule ErrUnexpectedDifficulty)
          else
            match CalcPastMedianTime a prevNode with
            | Ok medianTime => if negb (medianTime <? bh_Timestamp header) then Err (Rule ErrTimeTooOld) else Ok tt
            | _ => Panic
            end
      | Err msg => Err (Chain (AssertError msg))
      | Panic => Panic
      end in
  let blockHeight := i32 (height_of a prevNode + 1) in
  if negb (verifyCheckpoint (rp_checkpoints params) blockHeight (BlockHash DoubleHash header)) then Err (Rule ErrBadCheckpoint)
  else
    let* (checkpointNode, cs) := lift_chain (findPreviousCheckpoint bi bestChain (rp_checkpoints params) cs) in
    if match checkpointNode with Some c => blockHeight <? height_of a c | None => false end then Err (Rule ErrForkTooOld)
    else if ((bh_Version header <? 2) && (BIP0034Height params <=? blockHeight)) ||
            ((bh_Version header <? 3) && (BIP0066Height params <=? blockHeight)) ||
            ((bh_Version header <? 4) && (BIP0065Height params <=? blockHeight))
    then Err (Rule ErrBlockVersionTooOld)
    else Ok cs.

Definition isActiveState (st : ThresholdState) : bool := match st with ThresholdActive => true | _ => false end.

Definition checkBlockContext (block : Block) (prevNode : nat) (flags : Z) (cs : checkpointState) (caches : list stateCache)
  : outcome ruleErr (checkpointState * list stateCache) :=
  let header := mb_Header (blk_msg block) in
  let* cs := checkBlockHeaderContext header prevNode flags cs in
  if has_flag flags BFFastAdd then Ok (cs, caches)
  else
    let* (csvState, caches) := lift_chain (deploymentState DoubleHash bi (rp_votes params) caches (Some prevNode) DeploymentCSV) in
    let* blockTime :=
      if isActiveState csvState
      then match CalcPastMedianTime a prevNode with Ok m => Ok m | _ => Panic end
      else Ok (bh_Timestamp header) in
    let blockHeight := i32 (height_of a prevNode + 1) in
    if negb (forallb (fun tx => IsFinalizedTransaction tx blockHeight blockTime) (Transactions block))
    then Err (Rule ErrUnfinalizedTx)
    else
      let* _ :=
        if ShouldHaveSerializedBlockHeight header && (BIP0034Height params <=? blockHeight) then
          let* coinbaseTx := get_at (Transactions block) 0 in
          checkSerializedHeight coinbaseTx blockHeight
        else Ok tt in
      let* (segwitState, caches) := lift_chain (deploymentState DoubleHash bi (rp_votes params) caches (Some prevNode) DeploymentSegwit) in
      let* _ :=
        if isActiveState segwitState then
          let* _ := match ValidateWitnessCommitment DoubleHash (Transactions block) with
                    | Ok u => Ok u | Err e => Err (Rule e) | Panic => Panic end in
          if MaxBlockWeight <? GetBlockWeight block then Err (Rule ErrBlockWeightTooHigh) else Ok tt
        else Ok tt in
      Ok (cs, caches).
End Context_.
End Checks.

(** ** What the checks mean *)

(** The amounts a transaction creates, as integers. *)
Definition totalOut (outs : list TxOut) : Z := fold_right (fun o n => to_Value o + n) 0 outs.

Definition amounts_ok (outs : list TxOut) : Prop :=
  Forall (fun o => 0 <= to_Value o) outs /\ totalOut outs <= MaxSatoshi.

Lemma totalOut_nonneg outs : Forall (fun o => 0 <= to_Value o) outs -> 0 <= totalOut outs.
Proof. induction 1; cbn [totalOut fold_right] in *; [lia|]. unfold totalOut in *. lia. Qed.

(** The running total never wraps, so that the check is on the real sum. *)
Lemma checkAmounts_spec outs : forall t, 0 <= t <= MaxSatoshi ->
  checkAmounts outs t = Ok tt <-> Forall (fun o => 0 <= to_Value o) outs /\ t + totalOut outs <= MaxSatoshi.
Proof.
  assert (HM : MaxSatoshi < 2 ^ 60) by reflexivity.
  induction outs as [|o outs IH]; intros t Ht; cbn [checkAmounts totalOut fold_right].
  { split; [intros _; split; [constructor | lia] | reflexivity]. }
  fold (totalOut outs). destruct (Z.ltb_spec (to_Value o) 0) as [H1|H1].
  { split; [discriminate|]. intros [Hf _]. apply Forall_cons in Hf. lia. }
  destruct (Z.ltb_spec MaxSatoshi (to_Value o)) as [H2|H2].
  { split; [discriminate|]. intros [Hf Hs]. apply Forall_cons in Hf. pose proof (totalOut_nonneg outs (proj2 Hf)). lia. }
  rewrite i64_id by (unfold is_i64; lia). decide_cmp. destruct (Z.ltb_spec MaxSatoshi (t + to_Value o)) as [H3|H3].
  - split; [discriminate|]. intros [Hf Hs]. apply Forall_cons in Hf. pose proof (totalOut_nonneg outs (proj2 Hf)). lia.
  - rewrite IH by lia. rewrite Forall_cons. intuition lia.
Qed.

Lemma checkDuplicateInputs_spec ins : forall seen,
  checkDuplicateInputs ins seen = Ok tt <->
  NoDup (map ti_PreviousOutPoint ins) /\ forall op, op ∈ map ti_PreviousOutPoint ins -> op ∉ seen.
Proof.
  induction ins as [|ti ins IH]; intros seen; cbn [checkDuplicateInputs map].
  { split; [intros _; split; [constructor | intros op H; inversion H] | reflexivity]. }
  destruct (decide (ti_PreviousOutPoint ti ∈ seen)) as [Hin|Hin].
  { split; [discriminate|]. intros [_ H]. exfalso. apply (H (ti_PreviousOutPoint ti)); [apply list_elem_of_here | exact Hin]. }
  rewrite IH, NoDup_cons. split.
  - intros [Hd Hs]. split.
    + split; [|exact Hd]. intros H. apply (Hs _ H). set_solver.
    + intros op H. apply elem_of_cons in H. destruct H as [->|H]; [exact Hin|]. specialize (Hs op H). set_solver.
  - intros [[Hn Hd] Hs]. split; [exact Hd|]. intros op H. apply not_elem_of_union. split.
    + rewrite elem_of_singleton. intros ->. contradiction.
    + apply Hs. now apply list_elem_of_further.
Qed.

(** A sane transaction. *)
Record tx_sane (tx : MsgTx) : Prop := {
  ts_inputs : tx_TxIn tx <> [];
  ts_outputs : tx_TxOut tx <> [];
  ts_size : SerializeSizeStripped tx <= MaxBlockBaseSize;
  ts_amounts : amounts_ok (tx_TxOut tx);
  ts_distinct : NoDup (spentBy tx);
  ts_null : if IsCoinBaseTx tx
            then exists ti, tx_TxIn tx = [ti] /\ MinCoinbaseScriptLen <= len (ti_SignatureScript ti) <= MaxCoinbaseScriptLen
            else Forall (fun op => isNullOutpoint op = false) (spentBy tx)
}.

Lemma coinbase_input tx : IsCoinBaseTx tx = true -> exists ti, tx_TxIn tx = [ti].
Proof. unfold IsCoinBaseTx. destruct (tx_TxIn tx) as [|ti [|? ?]]; try discriminate. now exists ti. Qed.

Lemma len_zero {A} (l : list A) : (len l =? 0) = true <-> l = [].
Proof. rewrite Z.eqb_eq. unfold len. destruct l; [tauto|]. cbn [List.length]. split; [lia | discriminate]. Qed.

Lemma slice_from_one {E A} (x : A) l : slice (x :: l) 1 (len (x :: l)) = @Ok E _ l.
Proof.
  unfold slice. pose proof (len_nonneg l). rewrite len_cons. decide_cmp. cbn [andb Z.to_nat skipn].
  change (Z.to_nat 1) with 1%nat. cbn [skipn]. unfold len. f_equal. apply firstn_all2. lia.
Qed.

Lemma existsb_Forall {A} (f : A -> bool) l : existsb f l = false <-> Forall (fun x => f x = false) l.
Proof.
  induction l as [|x l IH]; cbn [existsb]; [split; [constructor | reflexivity]|].
  rewrite orb_false_iff, Forall_cons, IH. tauto.
Qed.

Lemma CheckTransactionSanity_spec tx : CheckTransactionSanity tx = Ok tt <-> tx_sane tx.
Proof.
  unfold CheckTransactionSanity. destruct (len (tx_TxIn tx) =? 0) eqn:E1.
  { apply len_zero in E1. split; [discriminate|]. intros H. now destruct (ts_inputs tx H). }
  destruct (len (tx_TxOut tx) =? 0) eqn:E2.
  { apply len_zero in E2. split; [discriminate|]. intros H. now destruct (ts_outputs tx H). }
  assert (N1 : tx_TxIn tx <> []) by (intros E; apply len_zero in E; congruence).
  assert (N2 : tx_TxOut tx <> []) by (intros E; apply len_zero in E; congruence).
  destruct (Z.ltb_spec MaxBlockBaseSize (SerializeSizeStripped tx)) as [H3|H3].
  { split; [discriminate|]. intros H. pose proof (ts_size tx H). lia. }
  pose proof (checkAmounts_spec (tx_TxOut tx) 0 ltac:(vm_compute; split; discriminate)) as Ha.
  destruct (checkAmounts (tx_TxOut tx) 0) as [[]|e|]; cbn [obind].
  2,3: split; [discriminate|]; intros H; destruct (ts_amounts tx H) as [F S]; discriminate (proj2 Ha (conj F S)).
  pose proof (checkDuplicateInputs_spec (tx_TxIn tx) ∅) as Hd. fold (spentBy tx) in Hd.
  destruct (checkDuplicateInputs (tx_TxIn tx) ∅) as [[]|e|]; cbn [obind].
  2,3: split; [discriminate|]; intros H; discriminate (proj2 Hd (conj (ts_distinct tx H) (fun op _ => not_elem_of_empty op))).
  destruct (proj1 Ha eq_refl) as [F S]. destruct (proj1 Hd eq_refl) as [D _].
  assert (Hrest : forall P : Prop, (P <-> (if IsCoinBaseTx tx
      then exists ti, tx_TxIn tx = [ti] /\ MinCoinbaseScriptLen <= len (ti_SignatureScript ti) <= MaxCoinbaseScriptLen
      else Forall (fun op => isNullOutpoint op = false) (spentBy tx))) -> (P <-> tx_sane tx)).
  { intros P HP. rewrite HP. split; [intros H; split; auto; split; [exact F | lia] | intros H; exact (ts_null tx H)]. }
  apply Hrest. clear Hrest. destruct (IsCoinBaseTx tx) eqn:Ec.
  - destruct (coinbase_input tx Ec) as [ti Ei]. rewrite Ei. cbn [get_at Z.leb Z.to_nat nth_error obind].
    change (get_at [ti] 0) with (@Ok ruleErr _ ti). cbn [obind].
    destruct (Z.ltb_spec (len (ti_SignatureScript ti)) MinCoinbaseScriptLen), (Z.ltb_spec MaxCoinbaseScriptLen (len (ti_SignatureScript ti)));
      cbn [orb]; split; try discriminate; try (intros (t & [= <-] & ?); lia); [intros _; now exists ti | reflexivity].
  - unfold spentBy. rewrite Forall_map. rewrite <- existsb_Forall.
    destruct (existsb _ (tx_TxIn tx)); split; intros; try discriminate; reflexivity.
Qed.

(** C19: CheckTransactionSanity accepts exactly the transactions with inputs and
    outputs, a size within the limit, amounts that are not negative and whose sum,
    as an integer, is at most 21 million bitcoins, distinct inputs, and a coinbase
    script of the allowed length or no null input. *)
Theorem CheckTransactionSanity_correct tx : CheckTransactionSanity tx = Ok tt <-> tx_sane tx.
Proof. apply CheckTransactionSanity_spec. Qed.

(** ** Signature operations cannot overflow *)

Lemma next_loop_bound (body : Z * Z -> ScriptTokenizer -> control (Z * Z)) c : 0 <= c ->
  (forall s t, exists s', body s t = Continue s' /\ fst s <= fst s' <= fst s + c) ->
  forall fuel t s, fst s <= fst (fst (next_loop fuel body t s)) <= fst s + c * Z.of_nat fuel.
Proof.
  intros Hc Hb. induction fuel as [|fuel IH]; intros t s; cbn [next_loop]; [cbn [fst]; lia|].
  destruct (Next t) as [[|] t']; cbn [fst]; [|lia]. destruct (Hb s t') as (s' & -> & Hs). specialize (IH t' s'). lia.
Qed.

Lemma GetSigOpCount_bounds script : 0 <= GetSigOpCount script <= 20 * (len script + 1).
Proof.
  unfold GetSigOpCount, countSigOpsV0, forNext. set (t := MakeScriptTokenizer 0 script).
  pose proof (next_loop_bound (countSigOps_body false) 20 ltac:(lia)) as H.
  specialize (H ltac:(intros [n p] t'; eexists; split; [reflexivity|]; cbn [fst andb];
    repeat match goal with |- context [if ?b then _ else _] => destruct b end; unfold MaxPubKeysPerMultiSig; lia)
    (S (List.length script)) t (0, OP_INVALIDOPCODE)).
  cbn [fst] in H. change (tk_script t) with script. unfold len. lia.
Qed.

Lemma fold_left_sum {A} (f : A -> Z) l : forall n, fold_left (fun n x => n + f x) l n = n + fold_right (fun x n => f x + n) 0 l.
Proof. induction l as [|x l IH]; intros n; cbn [fold_left fold_right]; [lia|]. rewrite IH. lia. Qed.

Lemma fold_right_bounds {A} (f g : A -> Z) c l : (forall x, 0 <= f x <= c * g x) ->
  0 <= fold_right (fun x n => f x + n) 0 l <= c * fold_right (fun x n => g x + n) 0 l.
Proof. intros H. induction l as [|x l IH]; cbn [fold_right]; [lia|]. specialize (H x). lia. Qed.

Lemma VarIntSize_pos n : 1 <= VarIntSerializeSize n.
Proof. unfold VarIntSerializeSize. repeat case_match; lia. Qed.

Lemma CountSigOps_bounds tx : 0 <= CountSigOps tx <= 20 * SerializeSizeStripped tx.
Proof.
  unfold CountSigOps, SerializeSizeStripped, baseSize. rewrite !fold_left_sum.
  pose proof (VarIntSize_pos (len (tx_TxIn tx))). pose proof (VarIntSize_pos (len (tx_TxOut tx))).
  pose proof (fold_right_bounds (fun ti => GetSigOpCount (ti_SignatureScript ti)) txin_SerializeSize 20 (tx_TxIn tx)) as H1.
  pose proof (fold_right_bounds (fun o => GetSigOpCount (to_PkScript o)) txout_SerializeSize 20 (tx_TxOut tx)) as H2.
  specialize (H1 ltac:(intros ti; pose proof (GetSigOpCount_bounds (ti_SignatureScript ti));
    pose proof (VarIntSize_pos (len (ti_SignatureScript ti))); unfold txin_SerializeSize; lia)).
  specialize (H2 ltac:(intros o; pose proof (GetSigOpCount_bounds (to_PkScript o));
    pose proof (VarIntSize_pos (len (to_PkScript o))); unfold txout_SerializeSize; lia)). lia.
Qed.

Definition blockSigOps (txs : list MsgTx) : Z := fold_right (fun tx n => CountSigOps tx + n) 0 txs.

Lemma checkSigOps_spec txs : Forall tx_sane txs -> forall t, 0 <= t <= MaxBlockSigOpsCost ->
  checkSigOps_loop txs t = Ok tt <-> t + blockSigOps txs * WitnessScaleFactor <= MaxBlockSigOpsCost.
Proof.
  induction 1 as [|tx txs Hs _ IH]; intros t Ht; cbn [checkSigOps_loop blockSigOps fold_right].
  { unfold WitnessScaleFactor. split; [lia | reflexivity]. }
  fold (blockSigOps txs). pose proof (CountSigOps_bounds tx) as Hb. pose proof (ts_size tx Hs) as Hz.
  assert (Hpos : 0 <= blockSigOps txs).
  { apply (fold_right_bounds CountSigOps SerializeSizeStripped 20). intros; apply CountSigOps_bounds. }
  unfold MaxBlockBaseSize, WitnessScaleFactor, MaxBlockSigOpsCost in *.
  rewrite (i64_id (CountSigOps tx * 4)), i64_id by (unfold is_i64; lia).
  destruct (Z.ltb_spec (t + CountSigOps tx * 4) t), (Z.ltb_spec 80000 (t + CountSigOps tx * 4)); cbn [orb].
  1-3: split; [discriminate | lia].
  rewrite IH by lia. split; lia.
Qed.

(** ** Sane blocks *)

Lemma checkAll_spec {A} (f : A -> verdict) (P : A -> Prop) l : (forall x, f x = Ok tt <-> P x) ->
  checkAll f l = Ok tt <-> Forall P l.
Proof.
  intros H. induction l as [|x l IH]; cbn [checkAll]; [split; [constructor | reflexivity]|].
  rewrite Forall_cons, <- H, <- IH. destruct (f x) as [[]|e|]; cbn [obind]; intuition discriminate.
Qed.

Section Sane.
Context (DoubleHash : list Z -> list Z).
Abbreviation tid := (txHash DoubleHash).

Lemma checkDuplicateTxs_spec txs : forall seen, checkDuplicateTxs DoubleHash txs seen = Ok tt <->
  NoDup (map tid txs) /\ forall h, h ∈ map tid txs -> h ∉ seen.
Proof.
  induction txs as [|tx txs IH]; intros seen; cbn [checkDuplicateTxs map].
  { split; [intros _; split; [constructor | intros op H; inversion H] | reflexivity]. }
  case_decide as Hin.
  { split; [discriminate|]. intros [_ H]. exfalso. exact (H _ (list_elem_of_here _ _) Hin). }
  rewrite IH, NoDup_cons. split.
  - intros [Hd Hs]. split; [split; [intros H; apply (Hs _ H); set_solver | exact Hd]|].
    intros h H. apply elem_of_cons in H. destruct H as [->|H]; [exact Hin|]. specialize (Hs h H). set_solver.
  - intros [[Hn Hd] Hs]. split; [exact Hd|]. intros h H. apply not_elem_of_union. split.
    + rewrite elem_of_singleton. intros ->. contradiction.
    + apply Hs. now right.
Qed.

Record block_sane (block : Block) (powLimit adjustedTime flags : Z) : Prop := {
  bs_target : 0 < CompactToBig (bh_Bits (mb_Header (blk_msg block))) <= powLimit;
  bs_work : has_flag flags BFNoPoWCheck = false ->
    HashToBig (BlockHash DoubleHash (mb_Header (blk_msg block))) <= CompactToBig (bh_Bits (mb_Header (blk_msg block)));
  bs_time : bh_Timestamp (mb_Header (blk_msg block)) <= adjustedTime + MaxTimeOffsetSeconds;
  bs_size : mb_SerializeSizeStripped (blk_msg block) <= MaxBlockBaseSize;
  bs_shape : exists cb rest, Transactions block = cb :: rest /\ IsCoinBaseTx cb = true /\
    Forall (fun tx => IsCoinBaseTx tx = false) rest;
  bs_txs : Forall tx_sane (Transactions block);
  bs_merkle : bh_MerkleRoot (mb_Header (blk_msg block)) = merkleRoot DoubleHash (leafHashes DoubleHash false 0 (Transactions block));
  bs_distinct : NoDup (map tid (Transactions block));
  bs_sigops : blockSigOps (Transactions block) * WitnessScaleFactor <= MaxBlockSigOpsCost
}.

Lemma block_size_count msg : len (mb_Transactions msg) <= mb_SerializeSizeStripped msg.
Proof.
  unfold mb_SerializeSizeStripped, blockHeaderLen. pose proof (VarIntSize_pos (len (mb_Transactions msg))) as Hn.
  enough (len (mb_Transactions msg) <= fold_right (fun tx n => SerializeSizeStripped tx + n) 0 (mb_Transactions msg)) by lia.
  clear Hn. induction (mb_Transactions msg) as [|tx txs IH]; [reflexivity|]. rewrite len_cons. cbn [fold_right].
  enough (1 <= SerializeSizeStripped tx) by lia. unfold SerializeSizeStripped, baseSize.
  pose proof (VarIntSize_pos (len (tx_TxIn tx))). pose proof (VarIntSize_pos (len (tx_TxOut tx))).
  assert (Hi : forall l, 0 <= fold_right (fun ti n => txin_SerializeSize ti + n) 0 l).
  { induction l as [|ti l IHl]; cbn [fold_right]; [lia|]. unfold txin_SerializeSize at 1.
    pose proof (VarIntSize_pos (len (ti_SignatureScript ti))). pose proof (len_nonneg (ti_SignatureScript ti)). lia. }
  assert (Ho : forall l, 0 <= fold_right (fun o n => txout_SerializeSize o + n) 0 l).
  { induction l as [|o l IHl]; cbn [fold_right]; [lia|]. unfold txout_SerializeSize at 1.
    pose proof (VarIntSize_pos (len (to_PkScript o))). pose proof (len_nonneg (to_PkScript o)). lia. }
  specialize (Hi (tx_TxIn tx)). specialize (Ho (tx_TxOut tx)). lia.
Qed.

Lemma header_sanity_spec header powLimit t flags : checkBlockHeaderSanity DoubleHash header powLimit t flags = Ok tt <->
  0 < CompactToBig (bh_Bits header) <= powLimit /\
  (has_flag flags BFNoPoWCheck = false -> HashToBig (BlockHash DoubleHash header) <= CompactToBig (bh_Bits header)) /\
  bh_Timestamp header <= t + MaxTimeOffsetSeconds.
Proof.
  unfold checkBlockHeaderSanity, checkProofOfWork. set (target := CompactToBig _). set (h := HashToBig _).
  destruct (Z.leb_spec target 0); [split; [discriminate | lia]|].
  destruct (Z.ltb_spec powLimit target); [split; [discriminate | lia]|].
  destruct (has_flag flags BFNoPoWCheck); cbn [negb andb]; [|destruct (Z.ltb_spec target h)]; cbn [obind].
  2: { split; [discriminate|]. intros (_ & Hw & _). specialize (Hw eq_refl). lia. }
  all: destruct (Z.ltb_spec (t + MaxTimeOffsetSeconds) (bh_Timestamp header)); split; try discriminate; intuition lia.
Qed.

(** The checks of a block whose header, sizes and coinbase are right. *)
Lemma sane_tail block powLimit t flags cb rest :
  let header := mb_Header (blk_msg block) in
  0 < CompactToBig (bh_Bits header) <= powLimit ->
  (has_flag flags BFNoPoWCheck = false -> HashToBig (BlockHash DoubleHash header) <= CompactToBig (bh_Bits header)) ->
  bh_Timestamp header <= t + MaxTimeOffsetSeconds -> mb_SerializeSizeStripped (blk_msg block) <= MaxBlockBaseSize ->
  Transactions block = cb :: rest -> IsCoinBaseTx cb = true -> Forall (fun tx => IsCoinBaseTx tx = false) rest ->
  (let* _ := checkAll CheckTransactionSanity (Transactions block) in
   match CalcMerkleRoot DoubleHash (Transactions block) false with
   | Ok root => if negb (bytes_eqb (bh_MerkleRoot header) root) then Err (Rule ErrBadMerkleRoot)
       else let* _ := checkDuplicateTxs DoubleHash (Transactions block) ∅ in checkSigOps_loop (Transactions block) 0
   | _ => Panic
   end) = Ok tt <-> block_sane block powLimit t flags.
Proof.
  intros header H1 H2 H3 H4 E Ec Ee. pose proof (block_size_count (blk_msg block)) as Hl. fold (Transactions block) in Hl.
  unfold MaxBlockBaseSize in H4. rewrite CalcMerkleRoot_eq; [|rewrite E; discriminate | lia].
  pose proof (checkAll_spec CheckTransactionSanity tx_sane (Transactions block) CheckTransactionSanity_spec) as Ha.
  destruct (checkAll _ _) as [[]|e|]; cbn [obind].
  2,3: split; [discriminate|]; intros H; discriminate (proj2 Ha (bs_txs _ _ _ _ H)).
  pose proof (proj1 Ha eq_refl) as Hs. destruct (bytes_eqb (bh_MerkleRoot header) _) eqn:Em; cbn [negb].
  2: { split; [discriminate|]. intros H. pose proof (bs_merkle _ _ _ _ H) as Hm. apply bytes_eqb_eq in Hm. unfold header in Em. congruence. }
  apply bytes_eqb_eq in Em. pose proof (checkDuplicateTxs_spec (Transactions block) ∅) as Hd.
  destruct (checkDuplicateTxs _ _ _) as [[]|e|]; cbn [obind].
  2,3: split; [discriminate|]; intros H; discriminate (proj2 Hd (conj (bs_distinct _ _ _ _ H) (fun h _ => not_elem_of_empty h))).
  destruct (proj1 Hd eq_refl) as [Hn _]. rewrite (checkSigOps_spec _ Hs 0) by (vm_compute; split; discriminate).
  split; [|intros H; exact (bs_sigops _ _ _ _ H)].
  intros Hg. split; auto. now exists cb, rest.
Qed.
End Sane.

Lemma checkBlockSanity_spec DoubleHash block powLimit adjustedTime flags :
  checkBlockSanity DoubleHash block powLimit adjustedTime flags = Ok tt <->
  block_sane DoubleHash block powLimit adjustedTime flags.
Proof.
  unfold checkBlockSanity. set (txs := Transactions block). set (header := mb_Header (blk_msg block)).
  pose proof (header_sanity_spec DoubleHash header powLimit adjustedTime flags) as Hh.
  destruct (checkBlockHeaderSanity _ _ _ _ _) as [[]|e|]; cbn [obind].
  2,3: split; [discriminate|]; intros [H1 H2 H3]; discriminate (proj2 Hh (conj H1 (conj H2 H3))).
  destruct (proj1 Hh eq_refl) as (H1 & H2 & H3). clear Hh.
  destruct (len txs =? 0) eqn:E0.
  { split; [discriminate|]. intros H. destruct (bs_shape _ _ _ _ _ H) as (cb & rest & E & _). apply len_zero in E0. unfold txs in E0. congruence. }
  pose proof (block_size_count (blk_msg block)) as Hcount. fold (Transactions block) in Hcount. fold txs in Hcount.
  destruct (Z.ltb_spec MaxBlockBaseSize (mb_SerializeSizeStripped (blk_msg block))) as [Hz|Hz].
  { replace (if MaxBlockBaseSize <? len txs then _ else _) with (@Err ruleErr unit (Rule ErrBlockTooBig))
      by (now destruct (MaxBlockBaseSize <? len txs)).
    split; [discriminate|]. intros H. pose proof (bs_size _ _ _ _ _ H). lia. }
  rewrite (proj2 (Z.ltb_ge MaxBlockBaseSize (len txs))) by lia.
  assert (Htx : exists cb rest, txs = cb :: rest) by (destruct txs as [|cb rest]; [discriminate | eauto]).
  destruct Htx as (cb & rest & Etx). rewrite Etx.
  rewrite (get_at_eq [] cb rest) by reflexivity. cbn [obind].
  destruct (IsCoinBaseTx cb) eqn:Ec; cbn [negb].
  2: { split; [discriminate|]. intros H. destruct (bs_shape _ _ _ _ _ H) as (cb' & rest' & E & Ec' & _). fold txs in E. congruence. }
  rewrite (slice_from_one cb rest). cbn [obind]. destruct (existsb IsCoinBaseTx rest) eqn:Ee.
  { split; [discriminate|]. intros H. destruct (bs_shape _ _ _ _ _ H) as (cb' & rest' & E & _ & F). fold txs in E.
    apply existsb_Forall in F. congruence. }
  apply existsb_Forall in Ee. rewrite <- Etx.
  apply (sane_tail DoubleHash block powLimit adjustedTime flags cb rest H1 H2 H3 Hz Etx Ec Ee).
Qed.

(** C18: checkBlockSanity accepts exactly the blocks with a target in range that the
    hash meets unless the check is off, a time not too far ahead, a size within the
    limit, the coinbase first and only there, sane transactions with distinct
    hashes, the merkle root of the header and a signature operation cost within the
    limit; no sum overflows. *)
Theorem checkBlockSanity_correct DoubleHash block powLimit adjustedTime flags :
  checkBlockSanity DoubleHash block powLimit adjustedTime flags = Ok tt <->
  block_sane DoubleHash block powLimit adjustedTime flags.
Proof. apply checkBlockSanity_spec. Qed.

(** ** The subsidy of a whole chain *)

(** What the blocks from height 0 below [n] may create. *)
Fixpoint issued (params : RuleParams) (n : nat) : Z :=
  match n with O => 0 | S n' => issued params n' + CalcBlockSubsidy (Z.of_nat n') params end.

Lemma CalcBlockSubsidy_range params h : 0 <= CalcBlockSubsidy h params <= baseSubsidy.
Proof.
  unfold CalcBlockSubsidy. destruct (SubsidyReductionInterval params =? 0); [split; [discriminate | reflexivity]|].
  pose proof (u64_range (Z.quot h (SubsidyReductionInterval params))) as Hu. unfold is_u64 in Hu.
  set (k := u64 _) in *. rewrite Z.shiftr_div_pow2 by lia. assert (Hp : 0 < 2 ^ k) by (apply Z.pow_pos_nonneg; lia).
  assert (Hb : 0 <= baseSubsidy) by discriminate. split; [apply Z.div_pos; lia|].
  apply Z.div_le_upper_bound; [lia|]. nia.
Qed.

Definition subsidyAt (q : Z) : Z := Z.shiftr baseSubsidy q.

Lemma subsidyAt_half q : 0 <= q -> 0 <= subsidyAt q /\ 2 * subsidyAt (q + 1) <= subsidyAt q.
Proof.
  intros Hq. unfold subsidyAt. rewrite !Z.shiftr_div_pow2 by lia. rewrite Z.pow_add_r by lia. change (2 ^ 1) with 2.
  assert (Hp : 0 < 2 ^ q) by (apply Z.pow_pos_nonneg; lia). rewrite <- Z.div_div by lia.
  split; [apply Z.div_pos; [discriminate | lia]|]. apply Z.mul_div_le. lia.
Qed.

Lemma CalcBlockSubsidy_at params h : 0 < SubsidyReductionInterval params -> 0 <= h < 2 ^ 63 ->
  CalcBlockSubsidy h params = subsidyAt (h / SubsidyReductionInterval params).
Proof.
  intros Hi Hh. unfold CalcBlockSubsidy. decide_cmp. rewrite Z.quot_div_nonneg by lia.
  rewrite u64_id; [reflexivity|]. split; [apply Z.div_pos; lia|].
  apply (Z.le_lt_trans _ h); [apply Z.div_le_upper_bound; nia | lia].
Qed.

(** Each interval issues at most half of what is left. *)
Lemma issued_bound params n : 0 < SubsidyReductionInterval params -> Z.of_nat n < 2 ^ 63 ->
  let i := SubsidyReductionInterval params in let q := Z.of_nat n / i in
  issued params n <= i * (2 * baseSubsidy - 2 * subsidyAt q) + (Z.of_nat n mod i) * subsidyAt q.
Proof.
  intros Hi. cbv zeta. set (i := SubsidyReductionInterval params) in *. induction n as [|n IH]; intros Hn; cbn [issued].
  { change (Z.of_nat 0) with 0. rewrite Z.mod_0_l, Z.div_0_l by lia. change (subsidyAt 0) with baseSubsidy. lia. }
  specialize (IH ltac:(lia)). rewrite (CalcBlockSubsidy_at params) by (auto; lia). fold i.
  set (q := Z.of_nat n / i) in *. set (r := Z.of_nat n mod i) in *.
  assert (Hq : 0 <= q) by (apply Z.div_pos; lia). pose proof (subsidyAt_half q Hq) as [H0 Hh].
  pose proof (Z.mod_pos_bound (Z.of_nat n) i Hi) as Hr. fold r in Hr. pose proof (Z.div_mod (Z.of_nat n) i ltac:(lia)) as E. fold q r in E.
  replace (Z.of_nat (S n)) with (Z.of_nat n + 1) by lia. destruct (Z.eq_dec (r + 1) i) as [Er|Er].
  - rewrite <- (Z.div_unique_pos (Z.of_nat n + 1) i (q + 1) 0), <- (Z.mod_unique_pos (Z.of_nat n + 1) i (q + 1) 0) by lia. nia.
  - rewrite <- (Z.div_unique_pos (Z.of_nat n + 1) i q (r + 1)), <- (Z.mod_unique_pos (Z.of_nat n + 1) i q (r + 1)) by lia. lia.
Qed.

(** All the subsidies together stay within the limit of an amount. *)
Lemma subsidy_bounded params n : 0 < SubsidyReductionInterval params <= 210000 -> Z.of_nat n < 2 ^ 63 ->
  issued params n <= MaxSatoshi.
Proof.
  intros Hi Hn. pose proof (issued_bound params n ltac:(lia) Hn) as H. cbv zeta in H.
  set (i := SubsidyReductionInterval params) in *. set (q := Z.of_nat n / i) in *.
  pose proof (Z.mod_pos_bound (Z.of_nat n) i ltac:(lia)) as Hr. pose proof (subsidyAt_half q ltac:(apply Z.div_pos; lia)) as [H0 _].
  assert (E : MaxSatoshi = 210000 * (2 * baseSubsidy)) by reflexivity. assert (0 <= baseSubsidy) by discriminate. nia.
Qed.
