(* ===== verification/Mining.v ===== *)
(** * Coinbases and templates (mining/mining.go)

    The parts of a block template the miner makes itself: the coinbase with the
    height and the extra nonce, the witness commitment, the merkle root after a
    new extra nonce, and the timestamp.  What the miner makes passes the checks
    of blockchain/validate.go.  The choice of transactions from the memory pool
    is not modelled. *)

From Stdlib Require Import ZArith List Lia Bool String.
From stdpp Require Import gmap.
From S2P Require Import Prelude Opcodes GoSlice GoIO WireCommon WireTx WireMsgs Merkle Script ScriptNum Difficulty ChainIO BlockIndex Retarget UtxoView Rules.
Import ListNotations.
Local Open Scope list_scope.
Local Open Scope Z_scope.
Local Open Scope go_scope.

(** ** Coinbases *)

(** The bytes of "/P2SH/btcd/". *)
Definition CoinbaseFlags : list Z := [0x2f; 0x50; 0x32; 0x53; 0x48; 0x2f; 0x62; 0x74; 0x63; 0x64; 0x2f].

(** The errors: of the builder, of a script call, a coinbase script that is too
    long, of the difficulty. *)
Inductive minerErr : Type := ErrScriptNotCanonical | ScriptErr (e : scriptErr) | CoinbaseScriptLen (n : Z) | DifficultyErr (msg : string).

(** [Script]: the bytes, or the first error. *)
Definition sb_Script (b : ScriptBuilder) : outcome minerErr (list Z) :=
  if sb_err b then Err ErrScriptNotCanonical else Ok (sb_script b).

Definition lift_script {A} (o : outcome scriptErr A) : outcome minerErr A :=
  match o with Ok x => Ok x | Err e => Err (ScriptErr e) | Panic => Panic end.

Definition standardCoinbaseScript (nextBlockHeight extraNonce : Z) : outcome minerErr (list Z) :=
  let* b := lift_script (AddInt64 NewScriptBuilder nextBlockHeight) in
  let* b := lift_script (AddInt64 b (i64 extraNonce)) in
  sb_Script (AddData b CoinbaseFlags).

Definition TxVersion : Z := 1.
Definition MaxPrevOutIndex : Z := MaxUint32.

(** [addrScript] is the script PayToAddrScript makes for the address, if there
    is one. *)
Definition createCoinbaseTx (params : RuleParams) (coinbaseScript : list Z) (nextBlockHeight : Z)
    (addrScript : option (outcome minerErr (list Z))) : outcome minerErr MsgTx :=
  let* pkScript :=
    match addrScript with Some r => r | None => sb_Script (AddOp NewScriptBuilder OP_TRUE) end in
  let tx := NewMsgTx TxVersion in
  let tx := AddTxIn tx (mkTxIn (mkOutPoint zeroHash MaxPrevOutIndex) coinbaseScript None MaxTxInSequenceNum) in
  Ok (WireTx.AddTxOut tx (mkTxOut (CalcBlockSubsidy nextBlockHeight params) pkScript)).

(** [spendTransaction]: inputs the view does not know are left alone. *)
Definition spendTransaction (DoubleHash : list Z -> list Z) (v : UtxoViewpoint) (tx : MsgTx) (height : Z) : UtxoViewpoint :=
  AddTxOuts DoubleHash
    (fold_left (fun v ti =>
       match LookupEntry v (ti_PreviousOutPoint ti) with
       | Some entry => put_entry v (ti_PreviousOutPoint ti) (Spend entry)
       | None => v
       end) (tx_TxIn tx) v) tx height.

(** [mergeUtxoView]. *)
Definition mergeUtxoView (viewA viewB : UtxoViewpoint) : UtxoViewpoint :=
  set_entries viewA (merge (fun a b =>
    match b with
    | None => a
    | Some entryB =>
        match a with
        | Some (Some entryA) => if IsSpent entryA then Some entryB else a
        | _ => Some entryB
        end
    end) (uv_entries viewA) (uv_entries viewB)).

(** ** Timestamps *)

Definition MinimumMedianTime (medianTime : Z) : Z := medianTime + 1.
Definition medianAdjustedTime (medianTime adjustedTime : Z) : Z :=
  let newTimestamp := adjustedTime in
  let minTimestamp := MinimumMedianTime medianTime in
  if newTimestamp <? minTimestamp then minTimestamp else newTimestamp.

Definition set_time (h : BlockHeader) (t : Z) : BlockHeader :=
  mkBlockHeader (bh_Version h) (bh_PrevBlock h) (bh_MerkleRoot h) t (bh_Bits h) (bh_Nonce h).
Definition set_bits (h : BlockHeader) (bits : Z) : BlockHeader :=
  mkBlockHeader (bh_Version h) (bh_PrevBlock h) (bh_MerkleRoot h) (bh_Timestamp h) bits (bh_Nonce h).
Definition set_root (h : BlockHeader) (root : list Z) : BlockHeader :=
  mkBlockHeader (bh_Version h) (bh_PrevBlock h) root (bh_Timestamp h) (bh_Bits h) (bh_Nonce h).

(** [tip] is the end of the best chain and [medianTime] its past median time;
    the difficulty is computed again on networks that reduce it. *)
Definition UpdateBlockTime (params : RuleParams) (a : arena) (tip : option nat) (medianTime adjustedTime : Z)
    (msgBlock : MsgBlock) : outcome minerErr MsgBlock :=
  let newTime := medianAdjustedTime medianTime adjustedTime in
  let header := set_time (mb_Header msgBlock) newTime in
  if ReduceMinDifficulty (chainParams (rp_retarget params)) then
    match calcNextRequiredDifficulty (rp_retarget params) a tip newTime with
    | Ok difficulty => Ok (mkMsgBlock (set_bits header difficulty) (mb_Transactions msgBlock))
    | Err msg => Err (DifficultyErr msg)
    | Panic => Panic
    end
  else Ok (mkMsgBlock header (mb_Transactions msgBlock)).

(** ** Commitments *)

Section Hashes.
Context (DoubleHash : list Z -> list Z).

(** The coinbase is the first transaction of the block. *)
Definition AddWitnessCommitment (blockTxns : list MsgTx) : outcome unit (list MsgTx * list Z) :=
  match blockTxns with
  | [] => Panic
  | coinbaseTx :: rest =>
      let witnessNonce := repeat 0 32 in
      match tx_TxIn coinbaseTx with
      | [] => Panic
      | ti :: ins =>
          let coinbaseTx := mkMsgTx (tx_Version coinbaseTx) (set_witness ti (Some [witnessNonce]) :: ins)
                              (tx_TxOut coinbaseTx) (tx_LockTime coinbaseTx) in
          let* witnessMerkleRoot := CalcMerkleRoot DoubleHash (coinbaseTx :: rest) true in
          let witnessCommitment := DoubleHash (witnessMerkleRoot ++ witnessNonce) in
          let witnessScript := WitnessMagicBytes ++ witnessCommitment in
          Ok (WireTx.AddTxOut coinbaseTx (mkTxOut 0 witnessScript) :: rest, witnessCommitment)
      end
  end.

Definition set_script (ti : TxIn) (s : list Z) : TxIn :=
  mkTxIn (ti_PreviousOutPoint ti) s (ti_Witness ti) (ti_Sequence ti).

Definition UpdateExtraNonce (msgBlock : MsgBlock) (blockHeight extraNonce : Z) : outcome minerErr MsgBlock :=
  let* coinbaseScript := standardCoinbaseScript blockHeight extraNonce in
  if MaxCoinbaseScriptLen <? len coinbaseScript then Err (CoinbaseScriptLen (len coinbaseScript))
  else
    match mb_Transactions msgBlock with
    | cb :: rest =>
        match tx_TxIn cb with
        | ti :: ins =>
            let txs := mkMsgTx (tx_Version cb) (set_script ti coinbaseScript :: ins) (tx_TxOut cb) (tx_LockTime cb) :: rest in
            match CalcMerkleRoot DoubleHash txs false with
            | Ok merkleRoot => Ok (mkMsgBlock (set_root (mb_Header msgBlock) merkleRoot) txs)
            | _ => Panic
            end
        | [] => Panic
        end
    | [] => Panic
    end.
End Hashes.

(** ** The scripts the builder makes *)

Lemma canonicalDataSize_small d : len d < OP_PUSHDATA1 -> canonicalDataSize d <= 1 + len d.
Proof.
  intros H. unfold canonicalDataSize. pose proof (len_nonneg d). decide_cmp.
  repeat case_match; lia.
Qed.

Lemma AddData_small b d : sb_err b = false -> len (sb_script b) <= 100 -> bytes_ok d -> len d < OP_PUSHDATA1 ->
  AddData b d = sb_append b (raw (canon d)) /\ 1 <= len (raw (canon d)) <= 1 + len d.
Proof.
  intros He Hs Hb Hd. pose proof (canonicalDataSize_small d Hd) as Hc. unfold OP_PUSHDATA1 in Hd.
  destruct (addData_canon b d Hb) as (E & _ & El & _); [lia|]. rewrite <- El. split; [|split; [|exact Hc]].
  - unfold AddData. rewrite He. unfold MaxScriptSize, MaxScriptElementSize. decide_cmp. exact E.
  - unfold canonicalDataSize. pose proof (len_nonneg d). repeat case_match; lia.
Qed.

Lemma AddInt64_small b n : sb_err b = false -> len (sb_script b) <= 100 -> - 2 ^ 63 < n < 2 ^ 63 ->
  exists l, AddInt64 b n = Ok (sb_append b l) /\ 1 <= len l <= 10.
Proof.
  intros He Hs Hn. unfold AddInt64. rewrite He. unfold MaxScriptSize. decide_cmp.
  destruct (n =? 0); [eexists; split; [reflexivity | change (len [_]) with 1; lia]|].
  destruct (_ || _); [eexists; split; [reflexivity | change (len [_]) with 1; lia]|].
  destruct (Bytes_total n Hn) as (v & -> & Hb & _ & _ & Hl & _). cbn [obind].
  destruct (AddData_small b v He Hs Hb) as [-> Hr]; [unfold OP_PUSHDATA1; lia|].
  eexists. split; [reflexivity | lia].
Qed.

(** The first push of a height above 16: its length and its bytes. *)
Lemma height_push h : 16 < h < 2 ^ 31 ->
  exists v, AddInt64 NewScriptBuilder h = Ok (mkBuilder (len v :: v) false) /\ bytes_ok v /\ 1 <= len v <= 5 /\ le_get v = h.
Proof.
  intros Hh. unfold AddInt64. cbn [NewScriptBuilder sb_err sb_script]. change (MaxScriptSize <? len [] + 1) with false.
  decide_cmp. cbn [orb andb]. destruct (Bytes_total h ltac:(lia)) as (v & -> & Hb & _ & Hv & _ & Hk). cbn [obind].
  specialize (Hk 5 ltac:(lia) ltac:(lia)).
  assert (Hne : v <> []) by (intros ->; change (num_value []) with 0 in Hv; lia).
  assert (Hl1 : 1 <= len v) by (destruct v; [congruence|]; rewrite len_cons; pose proof (len_nonneg v); lia).
  destruct (le_get_last v Hb Hne) as (Eg & Hr & _). pose proof (bytes_ok_last v Hb Hne) as Hlast. unfold is_byte in Hlast.
  assert (Hg : le_get v = h /\ List.last v 0 < 128).
  { unfold num_value in Hv. destruct v as [|x v'] eqn:Ev; [congruence|]. rewrite <- Ev in *.
    pose proof (Z.mod_pos_bound (List.last v 0) 128 eq_refl). assert (0 <= 256 ^ (len v - 1)) by (apply Z.pow_nonneg; lia).
    destruct (Z.leb_spec 128 (List.last v 0)); [nia|]. rewrite Z.mod_small in Hv by lia. split; lia. }
  exists v. destruct (AddData_small NewScriptBuilder v eq_refl ltac:(vm_compute; discriminate) Hb) as [-> _]; [unfold OP_PUSHDATA1; lia|].
  split; [|repeat split; try lia; auto; apply Hg]. unfold canon, OP_PUSHDATA1. decide_cmp. cbn [orb].
  assert (Hone : len v = 1 -> 16 < at_ v 0 < 128).
  { intros E1. pose proof (len1 v E1) as Ed. rewrite Ed in Hg. cbn [List.last] in Hg. rewrite le_get_one in Hg; [lia|].
    rewrite Ed in Hlast. exact Hlast. }
  destruct (Z.eqb_spec (len v) 1) as [E1|]; [specialize (Hone E1)|]; decide_cmp; cbn [andb].
  all: destruct (push_token v Hb ltac:(lia)) as [_ ->]; reflexivity.
Qed.

Lemma le_get_zeros n : le_get (repeat 0 n) = 0.
Proof. induction n as [|n IH]; [reflexivity|]. change (repeat 0 (S n)) with (0 :: repeat 0 n). rewrite le_get_cons, IH by (unfold is_byte; lia). reflexivity. Qed.

(** ** The coinbase of a template *)

Definition with_script (tx : MsgTx) (s : list Z) : Prop := exists ti, tx_TxIn tx = [ti] /\ ti_SignatureScript ti = s.

Lemma extract_small tx op rest : with_script tx (op :: rest) -> op = OP_0 \/ OP_1 <= op <= OP_16 ->
  ExtractCoinbaseHeight tx = Ok (if op =? OP_0 then 0 else op - (OP_1 - 1)).
Proof.
  intros (ti & Ei & Es) Hop. unfold ExtractCoinbaseHeight. rewrite Ei. rewrite (get_at_eq [] ti []) by reflexivity. cbn [obind].
  rewrite Es, len_cons. pose proof (len_nonneg rest). decide_cmp. rewrite (get_at_eq [] op rest) by reflexivity. cbn [obind].
  destruct (Z.eqb_spec op OP_0); [reflexivity|]. destruct Hop as [|Hop]; [contradiction|].
  unfold OP_1, OP_16 in *. decide_cmp. cbn [andb]. f_equal. apply i32_id. unfold is_i32. lia.
Qed.

Lemma extract_push tx v rest h : with_script tx (len v :: v ++ rest) -> bytes_ok v -> 1 <= len v <= 5 ->
  le_get v = h -> is_i32 h -> ExtractCoinbaseHeight tx = Ok h.
Proof.
  intros (ti & Ei & Es) Hb Hl Hg Hh. unfold ExtractCoinbaseHeight. rewrite Ei. rewrite (get_at_eq [] ti []) by reflexivity. cbn [obind].
  rewrite Es. rewrite slice_from_one. rewrite len_cons, len_app. pose proof (len_nonneg rest). decide_cmp.
  rewrite (get_at_eq [] (len v) (v ++ rest)) by reflexivity. cbn [obind].
  unfold OP_0, OP_1, OP_16. decide_cmp. cbn [andb]. rewrite len_app. decide_cmp.
  replace (len v + 1) with (len [len v] + len v) by (change (len [_]) with 1; lia).
  change (len v :: v ++ rest) with ([len v] ++ v ++ rest). change 1 with (len [len v]) at 1. rewrite slice_mid. cbn [obind].
  replace (firstn 8 (v ++ repeat 0 8)) with (v ++ repeat 0 (8 - List.length v)).
  - rewrite le_get_app, le_get_zeros, Hg by exact Hb. f_equal. rewrite Z.mul_0_r, Z.add_0_r. now apply i32_id.
  - rewrite firstn_app, (firstn_all2 v) by (unfold len in Hl; lia). f_equal. unfold len in Hl.
    destruct (List.length v) as [|[|[|[|[|[|n]]]]]]; [lia | reflexivity.. | lia].
Qed.

(** The script of every height and nonce: the height comes first. *)
Lemma standardCoinbaseScript_spec h nonce : 0 <= h < 2 ^ 31 -> is_u64 nonce -> nonce <> 2 ^ 63 ->
  exists s, standardCoinbaseScript h nonce = Ok s /\ MinCoinbaseScriptLen <= len s <= MaxCoinbaseScriptLen /\
    forall tx, with_script tx s -> ExtractCoinbaseHeight tx = Ok h.
Proof.
  intros Hh Hn Hne. unfold standardCoinbaseScript.
  assert (H1 : exists l, AddInt64 NewScriptBuilder h = Ok (mkBuilder l false) /\ 1 <= len l <= 10 /\
      forall tx rest, with_script tx (l ++ rest) -> ExtractCoinbaseHeight tx = Ok h).
  { destruct (Z_le_gt_dec h 16) as [Hs|Hs].
    - exists [if h =? 0 then OP_0 else OP_1 - 1 + h]. unfold AddInt64. cbn [NewScriptBuilder sb_err sb_script].
      change (MaxScriptSize <? len [] + 1) with false. change (len [_]) with 1.
      destruct (Z.eqb_spec h 0) as [->|Hz].
      + split; [reflexivity|]. split; [lia|]. intros tx rest Hw. rewrite (extract_small tx _ _ Hw); [reflexivity | now left].
      + decide_cmp. cbn [orb andb]. rewrite u8_id by (unfold is_byte, OP_1; lia). split; [reflexivity|]. split; [lia|].
        intros tx rest Hw. rewrite (extract_small tx _ _ Hw) by (right; unfold OP_1, OP_16; lia).
        unfold OP_0, OP_1. decide_cmp. f_equal. lia.
    - destruct (height_push h ltac:(lia)) as (v & E & Hb & Hl & Hg). exists (len v :: v). split; [exact E|].
      rewrite len_cons. split; [lia|]. intros tx rest Hw. apply (extract_push tx v rest h Hw Hb Hl Hg). unfold is_i32. lia. }
  destruct H1 as (l & -> & Hl & Hx). cbn [lift_script obind].
  destruct (AddInt64_small (mkBuilder l false) (i64 nonce)) as (l2 & -> & Hl2); [reflexivity | cbn [sb_script]; lia| |].
  { pose proof (i64_range nonce) as Hr. unfold is_i64, is_u64 in *. enough (i64 nonce <> - 2 ^ 63) by lia.
    intros E. unfold i64 in E. assert (E2 : (nonce + 2 ^ 63) mod 2 ^ 64 = 0) by lia.
    apply Z.mod_divide in E2; [|lia]. destruct E2 as [q Eq]. lia. }
  cbn [lift_script obind]. change (sb_append (mkBuilder l false) l2) with (mkBuilder (l ++ l2) false).
  destruct (AddData_small (mkBuilder (l ++ l2) false) CoinbaseFlags) as [-> Hl3];
    [reflexivity | cbn [sb_script]; rewrite len_app; lia | bytes_lit | reflexivity|].
  change (sb_Script (sb_append ?b ?x)) with (@Ok minerErr _ (sb_script b ++ x)). cbn [sb_script]. eexists. split; [reflexivity|].
  change (len CoinbaseFlags) with 11 in Hl3. unfold MinCoinbaseScriptLen, MaxCoinbaseScriptLen.
  split; [rewrite !len_app; lia|]. intros tx Hw. apply (Hx tx (l2 ++ raw (canon CoinbaseFlags))). now rewrite app_assoc.
Qed.

(** For every height and every extra nonce but 2^63, standardCoinbaseScript and
    createCoinbaseTx succeed, and the coinbase pays the subsidy, passes
    CheckTransactionSanity, and passes checkSerializedHeight at that height. *)
Theorem mined_coinbase_valid params h nonce addr pkScript :
  0 <= h < 2 ^ 31 -> is_u64 nonce -> nonce <> 2 ^ 63 ->
  match addr with None => pkScript = [OP_TRUE] | Some r => r = Ok pkScript /\ len pkScript <= MaxScriptSize end ->
  exists script tx, standardCoinbaseScript h nonce = Ok script /\ createCoinbaseTx params script h addr = Ok tx /\
    tx_TxOut tx = [mkTxOut (CalcBlockSubsidy h params) pkScript] /\
    IsCoinBaseTx tx = true /\ CheckTransactionSanity tx = Ok tt /\ checkSerializedHeight tx h = Ok tt.
Proof.
  intros Hh Hn Hne Ha. destruct (standardCoinbaseScript_spec h nonce Hh Hn Hne) as (s & Es & Hl & Hx).
  set (ti := mkTxIn (mkOutPoint zeroHash MaxPrevOutIndex) s None MaxTxInSequenceNum).
  set (o := mkTxOut (CalcBlockSubsidy h params) pkScript).
  set (tx := mkMsgTx TxVersion [ti] [o] 0). exists s, tx. split; [exact Es|].
  assert (Hp : len pkScript <= MaxScriptSize) by (destruct addr; [apply Ha | rewrite Ha; vm_compute; discriminate]).
  split; [unfold tx, o; destruct addr; [destruct Ha as [-> _] | rewrite Ha]; reflexivity|].
  split; [reflexivity|]. split; [reflexivity|]. split.
  - apply CheckTransactionSanity_spec. pose proof (CalcBlockSubsidy_range params h) as Hr. split.
    + discriminate.
    + discriminate.
    + unfold SerializeSizeStripped, baseSize, txin_SerializeSize, txout_SerializeSize, VarIntSerializeSize.
      cbn [tx_TxIn tx_TxOut tx fold_right ti o ti_SignatureScript to_PkScript].
      unfold MaxScriptSize, MaxBlockBaseSize, MaxCoinbaseScriptLen in *. change (len [_]) with 1. repeat case_match; lia.
    + split; [repeat constructor; apply Hr|]. cbn [tx_TxOut tx totalOut fold_right o to_Value].
      unfold baseSubsidy, MaxSatoshi, SatoshiPerBitcoin in *. lia.
    + cbn. apply NoDup_singleton.
    + cbn [tx]. change (IsCoinBaseTx tx) with true. exists ti. split; [reflexivity | exact Hl].
  - unfold checkSerializedHeight. rewrite (Hx tx); [|now exists ti]. cbn [obind]. now rewrite Z.eqb_refl.
Qed.


Lemma mined_coinbase_valid_witness :
  exists script tx, standardCoinbaseScript 170000 7 = Ok script /\ createCoinbaseTx SimNetRules script 170000 None = Ok tx /\
    tx_TxOut tx = [mkTxOut (CalcBlockSubsidy 170000 SimNetRules) [OP_TRUE]] /\
    IsCoinBaseTx tx = true /\ CheckTransactionSanity tx = Ok tt /\ checkSerializedHeight tx 170000 = Ok tt.
Proof. apply (mined_coinbase_valid SimNetRules 170000 7 None [OP_TRUE]); [lia | split; lia | lia | reflexivity]. Defined.

(** ** The witness commitment *)

Lemma find_commitment_last outs o : isCommitment (to_PkScript o) = true ->
  find_commitment (rev (outs ++ [o])) = Some (firstn 32 (skipn (List.length WitnessMagicBytes) (to_PkScript o))).
Proof. intros H. rewrite rev_app_distr. cbn [rev app find_commitment]. now rewrite H. Qed.

Lemma leafHashes_witness DoubleHash cb cb' rest :
  leafHashes DoubleHash true 0 (cb :: rest) = leafHashes DoubleHash true 0 (cb' :: rest).
Proof. reflexivity. Qed.

Lemma len_txs_pos (txs : list MsgTx) x : len txs < 2 ^ 62 -> len (x :: txs) < 2 ^ 63.
Proof. rewrite len_cons. lia. Qed.

(** A coinbase whose last output commits to the transactions after it. *)
Lemma commitment_ok DoubleHash cb ti nonce cb1 rest t c :
  (forall l, len (DoubleHash l) = 32) -> IsCoinBaseTx cb = true -> tx_TxIn cb = [ti] -> len rest < 2 ^ 62 -> len nonce = 32 ->
  c = DoubleHash (merkleRoot DoubleHash (leafHashes DoubleHash true 0 (cb1 :: rest)) ++ nonce) ->
  ti_PreviousOutPoint t = ti_PreviousOutPoint ti -> wit_items (ti_Witness t) = [nonce] ->
  ValidateWitnessCommitment DoubleHash
    (mkMsgTx (tx_Version cb) [t] (tx_TxOut cb ++ [mkTxOut 0 (WitnessMagicBytes ++ c)]) (tx_LockTime cb) :: rest) = Ok tt.
Proof.
  intros Hlen Hc Ei Hr Hnl Ec Ht Hw. unfold IsCoinBaseTx in Hc. rewrite Ei in Hc.
  assert (Hlc : len c = 32) by (rewrite Ec; apply Hlen). set (o := mkTxOut 0 (WitnessMagicBytes ++ c)).
  assert (Ho : isCommitment (to_PkScript o) = true).
  { unfold isCommitment, HasPrefix. cbn [o to_PkScript]. rewrite len_app, Hlc. reflexivity. }
  assert (Hf : firstn 32 (skipn (List.length WitnessMagicBytes) (to_PkScript o)) = c).
  { cbn [o to_PkScript]. change (skipn _ _) with c. apply firstn_all2. unfold len in Hlc. lia. }
  unfold ValidateWitnessCommitment, ExtractWitnessCommitment, IsCoinBaseTx. cbn [tx_TxIn tx_TxOut].
  rewrite Ht, Hc, (find_commitment_last _ _ Ho), Hf, Hw, Hnl. change (32 =? CoinbaseWitnessDataLen) with true. cbn [negb].
  rewrite CalcMerkleRoot_eq; [|discriminate | now apply len_txs_pos].
  rewrite (leafHashes_witness DoubleHash _ cb1), <- Ec. now rewrite (proj2 (bytes_eqb_eq c c) eq_refl).
Qed.

(** C28: the commitment AddWitnessCommitment puts into a coinbase passes
    ValidateWitnessCommitment and changes no other transaction, and after
    UpdateExtraNonce the commitment still passes, the header holds the merkle root
    of the new transactions, and the coinbase carries the height. *)
Theorem witness_commitment_valid DoubleHash cb rest :
  (forall l, len (DoubleHash l) = 32) -> IsCoinBaseTx cb = true -> len rest < 2 ^ 62 ->
  exists txs commitment, AddWitnessCommitment DoubleHash (cb :: rest) = Ok (txs, commitment) /\
    ValidateWitnessCommitment DoubleHash txs = Ok tt /\ map (txHash DoubleHash) (tl txs) = map (txHash DoubleHash) rest /\
    forall block h nonce, mb_Transactions block = txs -> 0 <= h < 2 ^ 31 -> is_u64 nonce -> nonce <> 2 ^ 63 ->
      exists block', UpdateExtraNonce DoubleHash block h nonce = Ok block' /\
        ValidateWitnessCommitment DoubleHash (mb_Transactions block') = Ok tt /\
        bh_MerkleRoot (mb_Header block') = merkleRoot DoubleHash (leafHashes DoubleHash false 0 (mb_Transactions block')) /\
        exists cb', nth_error (mb_Transactions block') 0 = Some cb' /\ checkSerializedHeight cb' h = Ok tt.
Proof.
  intros Hlen Hc Hr. destruct (coinbase_input cb Hc) as [ti Ei].
  unfold AddWitnessCommitment. rewrite Ei. set (nonce32 := repeat 0 32).
  set (cb1 := mkMsgTx _ _ _ _). rewrite CalcMerkleRoot_eq; [|discriminate | now apply len_txs_pos]. cbn [obind].
  eexists _, _. split; [reflexivity|].
  pose proof (fun t => commitment_ok DoubleHash cb ti nonce32 cb1 rest t _ Hlen Hc Ei Hr eq_refl eq_refl) as Hv.
  split; [now apply Hv|]. split; [reflexivity|]. intros block h nonce Et Hh Hn Hne.
  destruct (standardCoinbaseScript_spec h nonce Hh Hn Hne) as (s & Es & Hl & Hx).
  unfold UpdateExtraNonce. rewrite Es, Et. cbn [obind]. decide_cmp. cbn [WireTx.AddTxOut cb1 tx_TxIn].
  rewrite CalcMerkleRoot_eq; [|discriminate | now apply len_txs_pos]. eexists. split; [reflexivity|]. cbn [mb_Transactions mb_Header set_root bh_MerkleRoot].
  split; [now apply Hv|]. split; [reflexivity|]. eexists. split; [reflexivity|].
  unfold checkSerializedHeight. rewrite Hx; [|eexists; split; reflexivity]. cbn [obind]. now rewrite Z.eqb_refl.
Qed.

Lemma witness_commitment_valid_witness :
  exists txs commitment, AddWitnessCommitment toyId [cbTx; payTx] = Ok (txs, commitment) /\
    ValidateWitnessCommitment toyId txs = Ok tt /\
    exists block', UpdateExtraNonce toyId (mkMsgBlock sample_header txs) 500 9 = Ok block' /\
      ValidateWitnessCommitment toyId (mb_Transactions block') = Ok tt.
Proof.
  destruct (witness_commitment_valid toyId cbTx [payTx] toyId_len eq_refl eq_refl) as (txs & c & E & Hv & _ & Hu).
  exists txs, c. split; [exact E|]. split; [exact Hv|].
  destruct (Hu (mkMsgBlock sample_header txs) 500 9 eq_refl) as (b & Eb & Hb & _); [lia | split; lia | lia|].
  exists b. split; [exact Eb | exact Hb].
Defined.
