(* ===== verification/Connect.v ===== *)
(** * Connecting blocks (blockchain/validate.go, blockchain/chain.go)

    The checks of a block against the set of unspent outputs, for a node that
    keeps the set ([utreexoView] is nil): duplicates of unspent transactions,
    inputs and fees, signature operations, the coinbase amount, sequence locks,
    scripts.  The running of the scripts, whose first error depends on the
    order of the goroutines, is a parameter; ScriptVal.v models it. *)

From Stdlib Require Import ZArith List Lia Bool String.
From stdpp Require Import gmap.
From S2P Require Import Prelude Opcodes GoSlice GoIO WireCommon WireTx WireMsgs Merkle Compress Script Taproot Engine Difficulty ChainIO BlockIndex ChainView Retarget Index Threshold UtxoView UtxoCache Rules.
Import ListNotations.
Local Open Scope string_scope.
Local Open Scope list_scope.
Local Open Scope Z_scope.
Local Open Scope go_scope.

(** ** Inputs and fees *)

Fixpoint inputs_loop (params : RuleParams) (txHeight : Z) (utxoView : UtxoViewpoint) (ins : list TxIn) (totalSatoshiIn : Z)
  : outcome ruleErr Z :=
  match ins with
  | [] => Ok totalSatoshiIn
  | txIn :: ins' =>
      match LookupEntry utxoView (ti_PreviousOutPoint txIn) with
      | None => Err (Rule ErrMissingTxOut)
      | Some utxo =>
          if IsSpent utxo then Err (Rule ErrMissingTxOut)
          else if ue_IsCoinBase utxo && (i32 (txHeight - ue_blockHeight utxo) <? CoinbaseMaturity params)
          then Err (Rule ErrImmatureSpend)
          else
            let originTxSatoshi := ue_amount utxo in
            if originTxSatoshi <? 0 then Err (Rule ErrBadTxOutValue)
            else if MaxSatoshi <? originTxSatoshi then Err (Rule ErrBadTxOutValue)
            else
              let lastSatoshiIn := totalSatoshiIn in
              let totalSatoshiIn := i64 (totalSatoshiIn + originTxSatoshi) in
              if (totalSatoshiIn <? lastSatoshiIn) || (MaxSatoshi <? totalSatoshiIn) then Err (Rule ErrBadTxOutValue)
              else inputs_loop params txHeight utxoView ins' totalSatoshiIn
      end
  end.

Definition sumOutputs (outs : list TxOut) : Z := fold_left (fun n txOut => i64 (n + to_Value txOut)) outs 0.

Definition CheckTransactionInputs (params : RuleParams) (tx : MsgTx) (txHeight : Z) (utxoView : UtxoViewpoint)
  : outcome ruleErr Z :=
  if IsCoinBaseTx tx then Ok 0
  else
    let* totalSatoshiIn := inputs_loop params txHeight utxoView (tx_TxIn tx) 0 in
    let totalSatoshiOut := sumOutputs (tx_TxOut tx) in
    if totalSatoshiIn <? totalSatoshiOut then Err (Rule ErrSpendTooHigh)
    else Ok (i64 (totalSatoshiIn - totalSatoshiOut)).

(** ** Sequence locks *)

Definition SequenceLockTimeGranularity : Z := 9.

Definition LockTimeToSequence (isSeconds : bool) (locktime : Z) : Z :=
  if negb isSeconds then locktime
  else Z.lor SequenceLockTimeIsSeconds (Z.shiftr locktime SequenceLockTimeGranularity).

Fixpoint sequenceLock_loop (a : arena) (node : nat) (utxoView : UtxoViewpoint) (ins : list TxIn) (lock : SequenceLock)
  : outcome ruleErr SequenceLock :=
  match ins with
  | [] => Ok lock
  | txIn :: ins' =>
      match LookupEntry utxoView (ti_PreviousOutPoint txIn) with
      | None => Err (Rule ErrMissingTxOut)
      | Some utxo =>
          let nextHeight := i32 (height_of a node + 1) in
          let inputHeight := if ue_blockHeight utxo =? 0x7fffffff then nextHeight else ue_blockHeight utxo in
          let sequenceNum := ti_Sequence txIn in
          let relativeLock := Z.land sequenceNum SequenceLockTimeMask in
          if has_flag sequenceNum SequenceLockTimeDisabled then sequenceLock_loop a node utxoView ins' lock
          else if has_flag sequenceNum SequenceLockTimeIsSeconds then
            let prevInputHeight := if i32 (inputHeight - 1) <? 0 then 0 else i32 (inputHeight - 1) in
            match Ancestor a node prevInputHeight with
            | None => Panic
            | Some blockNode =>
                match CalcPastMedianTime a blockNode with
                | Ok medianTime =>
                    let timeLock := i64 (medianTime + (Z.shiftl relativeLock SequenceLockTimeGranularity - 1)) in
                    sequenceLock_loop a node utxoView ins'
                      (if sl_Seconds lock <? timeLock then mkSequenceLock timeLock (sl_BlockHeight lock) else lock)
                | _ => Panic
                end
            end
          else
            let blockHeight := i32 (inputHeight + i32 (relativeLock - 1)) in
            sequenceLock_loop a node utxoView ins'
              (if sl_BlockHeight lock <? blockHeight then mkSequenceLock (sl_Seconds lock) blockHeight else lock)
      end
  end.

(** ** The two exceptions to BIP 30 *)

Definition block91842Hash : list Z := le_put 32 0x00000000000a4d0a398161ffc163c503763b1f4360639393e0e4c8e300e0caec.
Definition block91880Hash : list Z := le_put 32 0x00000000000743f190a18c5577a3c2d2a1f610ae9601ac046a38084ccb7cd721.

Definition isBIP0030Node (node : blockNode) : bool :=
  ((bn_height node =? 91842) && bytes_eqb (bn_hash node) block91842Hash) ||
  ((bn_height node =? 91880) && bytes_eqb (bn_hash node) block91880Hash).

Definition Bip16Activation : Z := 1333238400.

Section Connect.
Context {PubKey : Type} (ParsePubKey : list Z -> option PubKey)
        (SerializeUncompressed : PubKey -> list Z).
Context (CalculateRoughMapSize : Z -> Z -> Z) (CalculateMinEntries : Z -> Z -> Z).
Context (DoubleHash : list Z -> list Z).
Context (params : RuleParams) (bi : blockIndex).
(** What checkBlockScripts answers for a block, a view and flags. *)
Context (checkBlockScripts : Block -> UtxoViewpoint -> Z -> verdict).
Abbreviation a := (bi_nodes bi).
Abbreviation fetch := (fetchUtxos ParsePubKey SerializeUncompressed CalculateRoughMapSize CalculateMinEntries).
Abbreviation fetchInputs :=
  (fetchInputUtxos ParsePubKey SerializeUncompressed CalculateRoughMapSize CalculateMinEntries DoubleHash).

Definition stateAfter (caches : list stateCache) (prevNode : option nat) (deployment : Z)
  : outcome ruleErr (bool * list stateCache) :=
  let* (st, caches) := lift_chain (deploymentState DoubleHash bi (rp_votes params) caches prevNode deployment) in
  Ok (isActiveState st, caches).

Definition calcSequenceLock (node : nat) (tx : MsgTx) (utxoView : UtxoViewpoint) (mempool : bool) (caches : list stateCache)
  : outcome ruleErr (SequenceLock * list stateCache) :=
  let* (csvSoftforkActive, caches) :=
    if mempool then Ok (true, caches) else stateAfter caches (bn_parent (deref a node)) DeploymentCSV in
  let sequenceLockActive := (2 <=? u32 (tx_Version tx)) && csvSoftforkActive in
  if negb sequenceLockActive || IsCoinBaseTx tx then Ok (mkSequenceLock (-1) (-1), caches)
  else
    let* lock := sequenceLock_loop a node utxoView (tx_TxIn tx) (mkSequenceLock (-1) (-1)) in
    Ok (lock, caches).

(** The outpoints of every output of a block. *)
Definition blockOutpoints (b : Block) : list OutPoint :=
  flat_map (fun tx => map (fun i => outpointOf DoubleHash tx i) (seq 0 (List.length (tx_TxOut tx)))) (Transactions b).

Fixpoint checkOverwrites (v : UtxoViewpoint) (ops : list OutPoint) : verdict :=
  match ops with
  | [] => Ok tt
  | op :: ops' =>
      match LookupEntry v op with
      | Some utxo => if negb (IsSpent utxo) then Err (Rule ErrOverwriteTx) else checkOverwrites v ops'
      | None => checkOverwrites v ops'
      end
  end.

Definition checkBIP0030 (b : Block) (v : UtxoViewpoint) (s : utxoCache) (db : utxoDB) : outcome ruleErr (UtxoViewpoint * utxoCache) :=
  let outs := blockOutpoints b in
  let* (v, s) := lift_chain (fetch v s db outs) in
  let* _ := checkOverwrites v outs in
  Ok (v, s).

Fixpoint sigOpCost_loop (v : UtxoViewpoint) (bip16 segWit first : bool) (txs : list MsgTx) (totalSigOpCost : Z) : verdict :=
  match txs with
  | [] => Ok tt
  | tx :: txs' =>
      let* sigOpCost := GetSigOpCost tx first v bip16 segWit in
      let lastSigOpCost := totalSigOpCost in
      let totalSigOpCost := i64 (totalSigOpCost + sigOpCost) in
      if (totalSigOpCost <? lastSigOpCost) || (MaxBlockSigOpsCost <? totalSigOpCost) then Err (Rule ErrTooManySigOps)
      else sigOpCost_loop v bip16 segWit false txs' totalSigOpCost
  end.

(** Fees, and the view after the transactions. *)
Fixpoint connectFees_loop (height : Z) (v : UtxoViewpoint) (stxos : option (list SpentTxOut)) (txs : list MsgTx) (totalFees : Z)
  : outcome ruleErr (UtxoViewpoint * option (list SpentTxOut) * Z) :=
  match txs with
  | [] => Ok (v, stxos, totalFees)
  | tx :: txs' =>
      let* txFee := CheckTransactionInputs params tx height v in
      let lastTotalFees := totalFees in
      let totalFees := i64 (totalFees + txFee) in
      if totalFees <? lastTotalFees then Err (Rule ErrBadFees)
      else
        let* (v, stxos) := lift_chain (connectTransaction DoubleHash v tx height stxos) in
        connectFees_loop height v stxos txs' totalFees
  end.

(** Every transaction's sequence locks, at the height and median time. *)
Fixpoint sequenceLocks_loop (node : nat) (v : UtxoViewpoint) (medianTime : Z) (txs : list MsgTx) (caches : list stateCache)
  : outcome ruleErr (list stateCache) :=
  match txs with
  | [] => Ok caches
  | tx :: txs' =>
      let* (lock, caches) := calcSequenceLock node tx v false caches in
      if negb (SequenceLockActive lock (height_of a node) medianTime) then Err (Rule ErrUnfinalizedTx)
      else sequenceLocks_loop node v medianTime txs' caches
  end.

(** What a block has changed when it is accepted. *)
Record connected : Type := mkConnected {
  co_view : UtxoViewpoint;
  co_stxos : option (list SpentTxOut);
  co_cache : utxoCache;
  co_caches : list stateCache
}.

Definition or_flag (b : bool) (flag flags : Z) : Z := if b then Z.lor flags flag else flags.

Definition checkConnectBlock (node : nat) (block : Block) (v : UtxoViewpoint) (stxos : option (list SpentTxOut))
    (s : utxoCache) (db : utxoDB) (caches : list stateCache) : outcome ruleErr connected :=
  let n := deref a node in
  if bytes_eqb (bn_hash n) (GenesisHash params) then Err (Rule ErrMissingTxOut)
  else
    let* (v, s) :=
      if negb (isBIP0030Node n) && (bn_height n <? BIP0034Height params) then checkBIP0030 block v s db else Ok (v, s) in
    let* (v, s) := lift_chain (fetchInputs v s db block) in
    let enforceBIP0016 := Bip16Activation <=? bn_timestamp n in
    let* (enforceSegWit, caches) := stateAfter caches (bn_parent n) DeploymentSegwit in
    let transactions := Transactions block in
    let* _ := sigOpCost_loop v enforceBIP0016 enforceSegWit true transactions 0 in
    let* (r, totalFees) := connectFees_loop (bn_height n) v stxos transactions 0 in
    let (v, stxos) := r in
    let* coinbase := get_at transactions 0 in
    let totalSatoshiOut := sumOutputs (tx_TxOut coinbase) in
    let expectedSatoshiOut := i64 (CalcBlockSubsidy (bn_height n) params + totalFees) in
    if expectedSatoshiOut <? totalSatoshiOut then Err (Rule ErrBadCoinbaseValue)
    else
      let runScripts :=
        match LatestCheckpoint (rp_checkpoints params) with Some c => negb (bn_height n <=? cp_Height c) | None => true end in
      let version := bh_Version (mb_Header (blk_msg block)) in
      let scriptFlags := or_flag enforceBIP0016 ScriptBip16 0 in
      let scriptFlags := or_flag ((3 <=? version) && (BIP0066Height params <=? bn_height n)) ScriptVerifyDERSignatures scriptFlags in
      let scriptFlags := or_flag ((4 <=? version) && (BIP0065Height params <=? bn_height n)) ScriptVerifyCheckLockTimeVerify scriptFlags in
      let* (csvActive, caches) := stateAfter caches (bn_parent n) DeploymentCSV in
      let* caches :=
        if csvActive then
          match bn_parent n with
          | None => Panic
          | Some p =>
              match CalcPastMedianTime a p with
              | Ok medianTime => sequenceLocks_loop node v medianTime transactions caches
              | _ => Panic
              end
          end
        else Ok caches in
      let scriptFlags := or_flag csvActive ScriptVerifyCheckSequenceVerify scriptFlags in
      let scriptFlags := or_flag enforceSegWit ScriptStrictMultiSig (or_flag enforceSegWit ScriptVerifyWitness scriptFlags) in
      let* (taprootActive, caches) := stateAfter caches (bn_parent n) DeploymentTaproot in
      let scriptFlags := or_flag taprootActive ScriptVerifyTaproot scriptFlags in
      let* _ := if runScripts then checkBlockScripts block v scriptFlags else Ok tt in
      Ok (mkConnected v stxos s caches).
End Connect.
