(* ===== verification/Supply.v ===== *)
(** * What an accepted block does to the ledger (blockchain/validate.go,
      blockchain/utxoviewpoint.go, blockchain/utxocache.go)

    checkConnectBlock works on a view it fills itself, from the cache and from
    the outputs of the block.  For a block that passes, the transactions are a
    sequence of valid ledger steps over the set of the cache, connecting them
    to the cache cannot fail, and no more coins exist than the subsidies
    allow. *)

From Stdlib Require Import ZArith List Lia Bool String.
From stdpp Require Import gmap.
From S2P Require Import Prelude Opcodes GoSlice GoIO WireCommon WireTx WireMsgs Merkle Compress Script Taproot Engine Difficulty ChainIO BlockIndex ChainView Retarget Index Threshold UtxoView UtxoCache Rules Connect.
Import ListNotations.
Local Open Scope string_scope.
Local Open Scope list_scope.
Local Open Scope Z_scope.
Local Open Scope go_scope.

(** ** Valid ledger steps *)

Definition inputSum (U : utxoSet) (ops : list OutPoint) : Z :=
  fold_right (fun op n => match U !! op with Some c => c_amount c | None => 0 end + n) 0 ops.

Definition total (U : utxoSet) : Z := map_fold (fun _ c n => c_amount c + n) 0 U.

(** A transaction that pays [fee] over the set [U] at height [h]. *)
Record tx_pays (params : RuleParams) (h : Z) (U : utxoSet) (tx : MsgTx) (fee : Z) : Prop := {
  tp_distinct : NoDup (spentBy tx);
  tp_exist : Forall (fun op => is_Some (U !! op)) (spentBy tx);
  tp_mature : forall op c, op ∈ spentBy tx -> U !! op = Some c -> c_coinbase c = true ->
    CoinbaseMaturity params <= i32 (h - c_height c);
  tp_amounts : forall op c, op ∈ spentBy tx -> U !! op = Some c -> 0 <= c_amount c <= MaxSatoshi;
  tp_fee : inputSum U (spentBy tx) = totalOut (tx_TxOut tx) + fee;
  tp_range : 0 <= fee <= MaxSatoshi
}.

Section Ledger.
Context (DoubleHash : list Z -> list Z) (params : RuleParams).
Abbreviation tid := (txHash DoubleHash).

(** The transactions after the coinbase, one after the other. *)
Fixpoint txs_pay (h : Z) (U : utxoSet) (txs : list MsgTx) (fees : Z) : Prop :=
  match txs with
  | [] => fees = 0
  | tx :: txs' => exists fee, tx_pays params h U tx fee /\ txs_pay h (applyTx DoubleHash h U tx) txs' (fees - fee)
  end.

(** ** Looking up the effect of a transaction *)

Lemma newCoins_hash h cb hs outs : forall i k, k ∈ map fst (newCoins hs i outs h cb) -> op_Hash k = hs.
Proof.
  induction outs as [|o outs IH]; intros i k H; cbn [newCoins] in H; [inversion H|].
  rewrite map_app, elem_of_app in H. destruct H as [H|H]; [|exact (IH _ _ H)].
  destruct (IsUnspendable _); [inversion H|]. apply list_elem_of_singleton in H. now subst k.
Qed.

Lemma createdBy_hash h tx k : k ∈ map fst (createdBy DoubleHash h tx) -> op_Hash k = tid tx.
Proof. apply newCoins_hash. Qed.

Lemma lookup_addCoins_key l : forall U U' k, k ∈ map fst l -> addCoins U l !! k = addCoins U' l !! k.
Proof.
  induction l as [|[x c] l IH]; intros U U' k Hk; [inversion Hk|].
  change (addCoins (<[x := c]> U) l !! k = addCoins (<[x := c]> U') l !! k).
  destruct (decide (k ∈ map fst l)) as [H|H]; [now apply IH|].
  rewrite !lookup_addCoins_ne by exact H. cbn [map fst] in Hk. assert (k = x) as -> by set_solver. now rewrite !lookup_insert_eq.
Qed.

Lemma lookup_applyTx_other h U tx k : k ∉ map fst (createdBy DoubleHash h tx) ->
  applyTx DoubleHash h U tx !! k = if IsCoinBaseTx tx then U !! k else if decide (k ∈ spentBy tx) then None else U !! k.
Proof.
  intros Hk. unfold applyTx. rewrite lookup_addCoins_ne by exact Hk.
  destruct (IsCoinBaseTx tx); [reflexivity | apply lookup_delCoins].
Qed.

(** Sets that agree on an outpoint agree on it after a transaction. *)
Lemma lookup_applyTx_agree h U U' tx k : U !! k = U' !! k ->
  applyTx DoubleHash h U tx !! k = applyTx DoubleHash h U' tx !! k.
Proof.
  intros E. destruct (decide (k ∈ map fst (createdBy DoubleHash h tx))) as [H|H].
  - unfold applyTx. now apply lookup_addCoins_key.
  - rewrite !lookup_applyTx_other by exact H. now rewrite E.
Qed.

Lemma lookup_applyTx_none h U tx k : k ∉ map fst (createdBy DoubleHash h tx) -> U !! k = None ->
  applyTx DoubleHash h U tx !! k = None.
Proof. intros H E. rewrite lookup_applyTx_other by exact H. rewrite E. destruct (IsCoinBaseTx tx); [|case_decide]; reflexivity. Qed.

(** ** The view of the checks and the ledger *)

(** [A] is what a view says of the outpoints the remaining transactions spend,
    [U] is the ledger.  They agree on the inputs that are not of the block, or
    of its transactions that are through; an input of a transaction that comes
    at its spender or later is unknown to the view. *)
Record view_inv (h : Z) (A U : utxoSet) (rest : list MsgTx) : Prop := {
  vi_inputs : forall pre tx post op, rest = pre ++ tx :: post -> IsCoinBaseTx tx = false -> op ∈ spentBy tx ->
    (op_Hash op ∈ map tid (tx :: post) -> A !! op = None) /\
    (op_Hash op ∉ map tid rest -> A !! op = U !! op);
  vi_uncreated : forall tx op, tx ∈ rest -> op_Hash op = tid tx -> op ∉ map fst (createdBy DoubleHash h tx) -> A !! op = None;
  vi_fresh : forall op, op_Hash op ∈ map tid rest -> U !! op = None
}.

(** A transaction whose inputs the view knows finds them in the ledger. *)
Lemma view_inv_inputs h A U tx rest op : view_inv h A U (tx :: rest) -> IsCoinBaseTx tx = false -> op ∈ spentBy tx ->
  is_Some (A !! op) -> A !! op = U !! op.
Proof.
  intros Hv Hc Hop [c Hs]. destruct (vi_inputs _ _ _ _ Hv [] tx rest op eq_refl Hc Hop) as [H1 H2].
  destruct (decide (op_Hash op ∈ map tid (tx :: rest))) as [H|H]; [specialize (H1 H); congruence | auto].
Qed.

(** Connecting a transaction to both keeps them together. *)
Lemma view_inv_step h A U tx rest : NoDup (map tid (tx :: rest)) -> view_inv h A U (tx :: rest) ->
  view_inv h (applyTx DoubleHash h A tx) (applyTx DoubleHash h U tx) rest.
Proof.
  intros Hd Hv. cbn [map] in Hd. apply NoDup_cons in Hd. destruct Hd as [Hn Hd].
  assert (Hnew : forall op, op_Hash op ∈ map tid rest -> op ∉ map fst (createdBy DoubleHash h tx)).
  { intros op Ho Hc. apply createdBy_hash in Hc. rewrite Hc in Ho. contradiction. }
  split.
  - intros pre tx' post op -> Hc Hop.
    destruct (vi_inputs _ _ _ _ Hv (tx :: pre) tx' post op eq_refl Hc Hop) as [H1 H2]. split.
    + intros Ho. apply lookup_applyTx_none; [|now apply H1]. apply Hnew. rewrite map_app, elem_of_app. now right.
    + intros Ho. destruct (decide (op_Hash op = tid tx)) as [E|E].
      * destruct (decide (op ∈ map fst (createdBy DoubleHash h tx))) as [Hk|Hk].
        { unfold applyTx. now apply lookup_addCoins_key. }
        apply lookup_applyTx_agree. rewrite (vi_fresh _ _ _ _ Hv op) by (rewrite E; apply list_elem_of_here).
        apply (vi_uncreated _ _ _ _ Hv tx op); [apply list_elem_of_here | exact E | exact Hk].
      * apply lookup_applyTx_agree, H2. rewrite map_cons, elem_of_cons. tauto.
  - intros tx' op Hin Ho Hk. apply lookup_applyTx_none.
    + apply Hnew. rewrite Ho. apply list_elem_of_In, in_map, list_elem_of_In, Hin.
    + apply (vi_uncreated _ _ _ _ Hv tx' op); [now apply list_elem_of_further | exact Ho | exact Hk].
  - intros op Ho. apply lookup_applyTx_none; [now apply Hnew|]. apply (vi_fresh _ _ _ _ Hv). now apply list_elem_of_further.
Qed.
End Ledger.

(** ** Inputs and fees *)

Lemma LookupEntry_live v op utxo : LookupEntry v op = Some utxo -> IsSpent utxo = false -> abs ∅ v !! op = Some (coinOf utxo).
Proof.
  unfold LookupEntry. intros H Hs. rewrite lookup_abs. destruct (uv_entries v !! op) as [e|]; [|discriminate].
  subst e. cbn [live]. now rewrite Hs.
Qed.

Lemma i64_wrap z : 2 ^ 63 <= z < 2 ^ 64 -> i64 z = z - 2 ^ 64.
Proof. intros H. unfold i64. rewrite <- (Z.mod_add _ (-1)), Z.mod_small by lia. lia. Qed.

(** What the inputs of a transaction amount to, without overflow. *)
Lemma inputs_loop_spec params h v ins : forall t t', 0 <= t <= MaxSatoshi -> inputs_loop params h v ins t = Ok t' ->
  let ops := map ti_PreviousOutPoint ins in
  t' = t + inputSum (abs ∅ v) ops /\ 0 <= t' <= MaxSatoshi /\
  Forall (fun op => exists c, abs ∅ v !! op = Some c /\ 0 <= c_amount c <= MaxSatoshi /\
    (c_coinbase c = true -> CoinbaseMaturity params <= i32 (h - c_height c))) ops.
Proof.
  assert (HM : MaxSatoshi < 2 ^ 60) by reflexivity.
  induction ins as [|ti ins IH]; intros t t' Ht H; cbn [inputs_loop map inputSum fold_right] in *.
  { injection H as <-. split; [lia|]. split; [lia | constructor]. }
  destruct (LookupEntry v _) as [utxo|] eqn:El; [|discriminate]. destruct (IsSpent utxo) eqn:Es; [discriminate|].
  pose proof (LookupEntry_live _ _ _ El Es) as Hc.
  destruct (ue_IsCoinBase utxo && _) eqn:Em; [discriminate|].
  destruct (Z.ltb_spec (ue_amount utxo) 0); [discriminate|]. destruct (Z.ltb_spec MaxSatoshi (ue_amount utxo)); [discriminate|].
  rewrite i64_id in H by (unfold is_i64; lia). destruct (_ || _) eqn:Eo; [discriminate|].
  apply orb_false_iff in Eo. destruct Eo as [_ Eo]. apply Z.ltb_ge in Eo.
  destruct (IH (t + ue_amount utxo) t' ltac:(lia) H) as (E & Hr & Hf). unfold inputSum in E. rewrite Hc. cbn [coinOf c_amount].
  split; [lia|]. split; [exact Hr|]. constructor; [|exact Hf]. exists (coinOf utxo). split; [exact Hc|].
  cbn [coinOf c_amount c_coinbase c_height]. split; [lia|]. intros Hcb. rewrite Hcb in Em. cbn [andb] in Em. now apply Z.ltb_ge.
Qed.

Lemma sumOutputs_spec outs : amounts_ok outs -> sumOutputs outs = totalOut outs.
Proof.
  intros [Hf Hm]. assert (HM : MaxSatoshi < 2 ^ 60) by reflexivity. unfold sumOutputs.
  enough (H : forall t, 0 <= t -> t + totalOut outs <= MaxSatoshi ->
    fold_left (fun n o => i64 (n + to_Value o)) outs t = t + totalOut outs) by (rewrite H by lia; lia).
  clear Hm. induction Hf as [|o outs Ho Hf IH]; intros t Ht Hm; cbn [fold_left totalOut fold_right] in *; [lia|].
  fold (totalOut outs) in *. pose proof (totalOut_nonneg outs Hf).
  rewrite i64_id by (unfold is_i64; lia). rewrite IH by lia. lia.
Qed.

Lemma inputSum_ext U U' ops : Forall (fun op => U !! op = U' !! op) ops -> inputSum U ops = inputSum U' ops.
Proof. induction 1 as [|op ops E _ IH]; [reflexivity|]. unfold inputSum in *. cbn [fold_right]. now rewrite E, IH. Qed.

Section Fees.
Context (DoubleHash : list Z -> list Z) (params : RuleParams).
Abbreviation tid := (txHash DoubleHash).

(** A transaction that passes the checks pays its fee over every set that
    agrees with the view on the inputs the view knows. *)
Lemma CheckTransactionInputs_pays h v U tx fee :
  (forall op, op ∈ spentBy tx -> is_Some (abs ∅ v !! op) -> abs ∅ v !! op = U !! op) -> IsCoinBaseTx tx = false -> tx_sane tx ->
  CheckTransactionInputs params tx h v = Ok fee -> tx_pays params h U tx fee.
Proof.
  intros Hv Hc Hs H. assert (HM : MaxSatoshi < 2 ^ 60) by reflexivity.
  unfold CheckTransactionInputs in H. rewrite Hc in H. apply obind_Ok in H. destruct H as (t & Ht & H).
  apply inputs_loop_spec in Ht; [|split; [lia | discriminate]]. fold (spentBy tx) in Ht. destruct Ht as (E & Hr & Hf).
  pose proof (ts_amounts tx Hs) as Ha. rewrite (sumOutputs_spec _ Ha) in H.
  destruct (Z.ltb_spec t (totalOut (tx_TxOut tx))); [discriminate|].
  pose proof (totalOut_nonneg _ (proj1 Ha)). rewrite i64_id in H by (unfold is_i64; lia). injection H as <-.
  assert (Hag : Forall (fun op => abs ∅ v !! op = U !! op) (spentBy tx)).
  { rewrite Forall_forall in Hf |- *. intros op Hop. destruct (Hf op Hop) as (c & Ec & _).
    apply (Hv op Hop). now exists c. }
  assert (Hf' : forall op, op ∈ spentBy tx -> exists c, U !! op = Some c /\ 0 <= c_amount c <= MaxSatoshi /\
      (c_coinbase c = true -> CoinbaseMaturity params <= i32 (h - c_height c))).
  { intros op Hop. rewrite Forall_forall in Hf, Hag. destruct (Hf op Hop) as (c & Ec & Hc'). exists c.
    split; [now rewrite <- Hag|exact Hc']. }
  split.
  - exact (ts_distinct tx Hs).
  - apply Forall_forall. intros op Hop. destruct (Hf' op Hop) as (c & Ec & _). now exists c.
  - intros op c Hop Ec Hcb. destruct (Hf' op Hop) as (c' & Ec' & _ & Hm). rewrite Ec in Ec'. injection Ec' as <-. auto.
  - intros op c Hop Ec. destruct (Hf' op Hop) as (c' & Ec' & Hm & _). rewrite Ec in Ec'. injection Ec' as <-. auto.
  - rewrite <- (inputSum_ext _ _ _ Hag). lia.
  - lia.
Qed.

(** The view and the ledger stay together while transactions are connected. *)
Record together (h : Z) (I : UtxoViewpoint -> utxoSet -> list MsgTx -> Prop) : Prop := {
  tg_inputs : forall v U tx rest op, I v U (tx :: rest) -> IsCoinBaseTx tx = false -> op ∈ spentBy tx ->
    is_Some (abs ∅ v !! op) -> abs ∅ v !! op = U !! op;
  tg_step : forall v U tx rest stxos v' stxos', NoDup (map tid (tx :: rest)) -> I v U (tx :: rest) ->
    connectTransaction DoubleHash v tx h stxos = Ok (v', stxos') -> I v' (applyTx DoubleHash h U tx) rest
}.

Lemma view_inv_together h : together h (fun v U txs => view_inv DoubleHash h (abs ∅ v) U txs).
Proof.
  split.
  - intros v U tx rest op Hv Hc Hop. now apply (view_inv_inputs DoubleHash h _ U tx rest).
  - intros v U tx rest stxos v' stxos' Hd Hv Hc. rewrite (connectTransaction_abs DoubleHash ∅ _ _ _ _ _ _ Hc). now apply view_inv_step.
Qed.

(** The loop over the transactions after the coinbase: valid steps, whose fees
    it adds up without overflow. *)
Lemma connectFees_spec h I txs : together h I -> forall v stxos t v' stxos' t' U,
  I v U txs -> NoDup (map tid txs) ->
  Forall tx_sane txs -> Forall (fun tx => IsCoinBaseTx tx = false) txs -> 0 <= t < 2 ^ 63 ->
  connectFees_loop DoubleHash params h v stxos txs t = Ok (v', stxos', t') ->
  t <= t' < 2 ^ 63 /\ txs_pay DoubleHash params h U txs (t' - t).
Proof.
  intros Htg. assert (HM : MaxSatoshi < 2 ^ 60) by reflexivity.
  induction txs as [|tx txs IH]; intros v stxos t v' stxos' t' U Hv Hd Hs Hc Ht H; cbn [connectFees_loop txs_pay] in *.
  { injection H as <- <- <-. split; lia. }
  apply Forall_cons in Hs, Hc. destruct Hs as [Hs1 Hs], Hc as [Hc1 Hc].
  apply obind_Ok in H. destruct H as (fee & Hfee & H).
  pose proof (CheckTransactionInputs_pays h v U tx fee (fun op => tg_inputs h I Htg v U tx txs op Hv Hc1) Hc1 Hs1 Hfee) as Hp. pose proof (tp_range _ _ _ _ _ Hp) as Hr.
  destruct (Z.ltb_spec (i64 (t + fee)) t) as [|Hlt]; [discriminate|].
  assert (Hsum : t + fee < 2 ^ 63).
  { destruct (Z_lt_ge_dec (t + fee) (2 ^ 63)) as [|Hge]; [assumption|]. exfalso. rewrite i64_wrap in Hlt by lia. lia. }
  rewrite i64_id in H by (unfold is_i64; lia). apply obind_Ok in H. destruct H as ([v1 s1] & H1 & H).
  destruct (connectTransaction DoubleHash v tx h stxos) as [[v1' s1']| |] eqn:Ec; [|discriminate..]. injection H1 as -> ->.
  destruct (IH v1 s1 (t + fee) v' stxos' t' (applyTx DoubleHash h U tx)) as [Hr' Hp']; auto.
  - exact (tg_step h I Htg v U tx txs stxos v1 s1 Hd Hv Ec).
  - now apply NoDup_cons in Hd.
  - lia.
  - split; [lia|]. exists fee. split; [exact Hp|]. now replace (t' - t - fee) with (t' - (t + fee)) by lia.
Qed.
End Fees.

(** ** The view before the first transaction *)

Section Fetch.
Context (DoubleHash : list Z -> list Z).
Abbreviation tid := (txHash DoubleHash).
Abbreviation keys h tx := (map fst (createdBy DoubleHash h tx)).

Lemma addTxOuts_keys tx cb h outs : forall v i op e,
  uv_entries (addTxOuts_loop DoubleHash v tx i outs cb h) !! op = Some e ->
  uv_entries v !! op = Some e \/ op ∈ map fst (newCoins (tid tx) i outs h cb).
Proof.
  induction outs as [|o outs IH]; intros v i op e H; [now left|]. cbn [addTxOuts_loop newCoins] in *.
  apply IH in H. rewrite map_app, elem_of_app. destruct H as [H|H]; [|tauto].
  unfold addTxOut in H. destruct (IsUnspendable _); [now left|]. cbn [put_entry set_entries uv_entries map fst] in *.
  destruct (decide (outpointOf DoubleHash tx i = op)) as [<-|Hne].
  - right. left. apply list_elem_of_singleton. reflexivity.
  - rewrite lookup_insert_ne in H by exact Hne. now left.
Qed.

(** Every entry of [v] is an output of one of the first [n] transactions. *)
Definition outputs_of (h : Z) (v : UtxoViewpoint) (txs : list MsgTx) : Prop :=
  forall op e, uv_entries v !! op = Some e -> exists tx, tx ∈ txs /\ op ∈ keys h tx.

Lemma outputs_of_weaken h v txs txs' : txs ⊆ txs' -> outputs_of h v txs -> outputs_of h v txs'.
Proof. intros Hs H op e E. destruct (H op e E) as (tx & Ht & Hk). exists tx. split; [now apply Hs | exact Hk]. Qed.

Lemma outputs_of_add h v txs tx : tx ∈ txs -> outputs_of h v txs -> outputs_of h (AddTxOuts DoubleHash v tx h) txs.
Proof. intros Ht H op e E. apply addTxOuts_keys in E. destruct E as [E|E]; [exact (H op e E) | now exists tx]. Qed.

Lemma inFlight_spec hash txs : forall i j, inFlight DoubleHash txs i hash = Some j ->
  (i <= j)%nat /\ exists tx, nth_error txs (j - i) = Some tx /\ tid tx = hash.
Proof.
  induction txs as [|tx txs IH]; intros i j H; cbn [inFlight] in H; [discriminate|].
  destruct (inFlight DoubleHash txs (S i) hash) as [j'|] eqn:E.
  - injection H as ->. destruct (IH _ _ E) as (Hle & tx' & Hn & Ht). split; [lia|]. exists tx'.
    now replace (j - i)%nat with (S (j - S i)) by lia.
  - destruct (bytes_eqb (tid tx) hash) eqn:Eb; [|discriminate]. injection H as <-. split; [lia|]. exists tx.
    replace (i - i)%nat with 0%nat by lia. split; [reflexivity | now apply bytes_eqb_eq].
Qed.

Lemma firstn_elem {A} (l : list A) n m x : nth_error l n = Some x -> (n < m)%nat -> x ∈ firstn m l.
Proof.
  intros H Hlt. apply list_elem_of_In. apply (nth_error_In _ n). rewrite nth_error_firstn.
  destruct (Nat.ltb_spec n m); [exact H | lia].
Qed.

(** Inputs that are not outputs of an earlier transaction are fetched. *)
Lemma findInputs_spec txs h i ins : forall v v' needed, outputs_of h v (firstn (S i) txs) ->
  findInputs DoubleHash v txs h i ins = (v', needed) ->
  outputs_of h v' (firstn (S i) txs) /\ (forall op, op ∈ needed -> op ∈ map ti_PreviousOutPoint ins) /\
  (forall op, op ∈ map ti_PreviousOutPoint ins -> op_Hash op ∉ map tid (firstn (S i) txs) -> op ∈ needed).
Proof.
  induction ins as [|ti ins IH]; intros v v' needed Hv H; cbn [findInputs map] in H |- *.
  { injection H as <- <-. split; [exact Hv|]. split; [tauto | intros op Hop; inversion Hop]. }
  set (op := ti_PreviousOutPoint ti) in *. revert H.
  set (skip := match inFlight DoubleHash txs 0 (op_Hash op) with Some j => _ | None => _ end).
  destruct skip as [originTx|] eqn:Es.
  - intros H. unfold skip in Es. destruct (inFlight _ txs 0 _) as [j|] eqn:Ej; [|discriminate].
    destruct (Nat.leb_spec j i) as [Hle|]; [|discriminate].
    assert (Hin : originTx ∈ firstn (S i) txs) by (apply (firstn_elem _ j); [exact Es | lia]).
    destruct (IH _ _ _ (outputs_of_add h v _ _ Hin Hv) H) as (Hv' & Hn & Hf). split; [exact Hv'|].
    split; [intros k Hk; right; auto|]. intros k Hk Hh. apply elem_of_cons in Hk. destruct Hk as [->|Hk]; [|auto].
    exfalso. apply Hh. apply inFlight_spec in Ej. destruct Ej as (_ & tx & Hj & <-). rewrite Nat.sub_0_r, Es in Hj.
    injection Hj as <-. apply list_elem_of_In, in_map, list_elem_of_In, Hin.
  - intros H. destruct (uv_entries v !! op) as [e|] eqn:Ee.
    + destruct (IH _ _ _ Hv H) as (Hv' & Hn & Hf). split; [exact Hv'|]. split; [intros k Hk; right; auto|].
      intros k Hk Hh. apply elem_of_cons in Hk. destruct Hk as [->|Hk]; [|auto]. exfalso. apply Hh.
      destruct (Hv _ _ Ee) as (tx & Ht & Hk). apply createdBy_hash in Hk. rewrite Hk.
      apply list_elem_of_In, in_map, list_elem_of_In, Ht.
    + destruct (findInputs DoubleHash v txs h i ins) as [v1 n1] eqn:E1. injection H as <- <-.
      destruct (IH _ _ _ Hv E1) as (Hv' & Hn & Hf). split; [exact Hv'|]. split.
      * intros k Hk. apply elem_of_cons in Hk. destruct Hk as [->|Hk]; [apply list_elem_of_here | right; auto].
      * intros k Hk Hh. apply elem_of_cons in Hk. destruct Hk as [->|Hk]; [apply list_elem_of_here | right; auto].
Qed.

Lemma firstn_sub {A} (l : list A) n m : (n <= m)%nat -> firstn n l ⊆ firstn m l.
Proof.
  intros H x Hx. replace n with (Nat.min n m) in Hx by lia. rewrite <- firstn_firstn in Hx.
  rewrite <- (firstn_skipn n (firstn m l)). apply elem_of_app. now left.
Qed.

Lemma findInputs_loop_spec txs h rest : forall i v v' needed, outputs_of h v (firstn (S i) txs) ->
  findInputs_loop DoubleHash v txs h i rest = (v', needed) ->
  outputs_of h v' (firstn (S (i + List.length rest)) txs) /\ (forall op, op ∈ needed -> exists tx, tx ∈ rest /\ op ∈ spentBy tx) /\
  (forall pre tx post op, rest = pre ++ tx :: post -> op ∈ spentBy tx ->
     op_Hash op ∉ map tid (firstn (S (i + List.length pre)) txs) -> op ∈ needed).
Proof.
  induction rest as [|tx rest IH]; intros i v v' needed Hv H; cbn [findInputs_loop] in H.
  { injection H as <- <-. split; [now rewrite Nat.add_0_r|]. split; [intros op Hop; inversion Hop | intros [|? ?]; discriminate]. }
  destruct (findInputs DoubleHash v txs h i (tx_TxIn tx)) as [v1 n1] eqn:E1.
  destruct (findInputs_loop DoubleHash v1 txs h (S i) rest) as [v2 n2] eqn:E2. injection H as <- <-.
  destruct (findInputs_spec _ _ _ _ _ _ _ Hv E1) as (Hv1 & Hn1 & Hf1).
  destruct (IH (S i) v1 v2 n2 (outputs_of_weaken _ _ _ _ (firstn_sub _ (S i) (S (S i)) ltac:(lia)) Hv1) E2) as (Hv2 & Hn2 & Hf2).
  split; [now replace (S (i + List.length (tx :: rest))) with (S (S i + List.length rest)) by (cbn; lia)|]. split.
  - intros op Hop. apply elem_of_app in Hop. destruct Hop as [Hop|Hop].
    + exists tx. split; [apply list_elem_of_here | auto].
    + destruct (Hn2 op Hop) as (t & Ht & Ho). exists t. split; [now right | exact Ho].
  - intros [|p pre] t post op E Hop Hh; cbn [app] in E; injection E as <- E; apply elem_of_app.
    + left. apply Hf1; [exact Hop|]. cbn [List.length] in Hh. now rewrite Nat.add_0_r in Hh.
    + right. apply (Hf2 pre t post op E Hop). cbn [List.length] in Hh. now rewrite Nat.add_succ_r in Hh.
Qed.

Lemma lookup_insertAll (f : OutPoint -> option UtxoEntry) ops : forall m op,
  insertAll m (combine ops (map f ops)) !! op = if decide (op ∈ ops) then Some (f op) else m !! op.
Proof.
  induction ops as [|x ops IH]; intros m op; cbn [map combine insertAll fst snd].
  - case_decide as H; [inversion H | reflexivity].
  - rewrite IH. repeat case_decide; try reflexivity; try (exfalso; set_solver).
    + assert (op = x) as -> by set_solver. apply lookup_insert_eq.
    + apply lookup_insert_ne. set_solver.
Qed.
End Fetch.

(** ** Totals *)

Definition amounts_pos (U : utxoSet) : Prop := forall op c, U !! op = Some c -> 0 <= c_amount c.

Lemma total_insert_new U k c : U !! k = None -> total (<[k := c]> U) = c_amount c + total U.
Proof. intros H. unfold total. apply (map_fold_insert_L (fun _ c n => c_amount c + n)); [intros; lia | exact H]. Qed.

Lemma total_delete U k c : U !! k = Some c -> total (delete k U) = total U - c_amount c.
Proof. intros H. rewrite <- (insert_delete_id U k c H) at 2. rewrite total_insert_new by apply lookup_delete_eq. lia. Qed.

Lemma total_insert U k c : amounts_pos U -> total (<[k := c]> U) <= total U + c_amount c.
Proof.
  intros Hp. destruct (U !! k) as [d|] eqn:E; [|rewrite total_insert_new by exact E; lia].
  rewrite <- insert_delete_eq, total_insert_new by apply lookup_delete_eq. rewrite (total_delete U k d E). specialize (Hp k d E). lia.
Qed.

Lemma amounts_pos_insert U k c : amounts_pos U -> 0 <= c_amount c -> amounts_pos (<[k := c]> U).
Proof.
  intros Hp Hc op d H. destruct (decide (k = op)) as [->|Hne].
  - rewrite lookup_insert_eq in H. now injection H as <-.
  - rewrite lookup_insert_ne in H by exact Hne. exact (Hp op d H).
Qed.

Lemma total_addCoins l : forall U, amounts_pos U -> Forall (fun p => 0 <= c_amount (snd p)) l ->
  amounts_pos (addCoins U l) /\ total (addCoins U l) <= total U + fold_right (fun p n => c_amount (snd p) + n) 0 l.
Proof.
  induction l as [|[k c] l IH]; intros U Hp Hl; [split; [exact Hp | cbn [fold_right addCoins fold_left]; lia]|].
  apply Forall_cons in Hl. destruct Hl as [Hc Hl]. cbn [snd] in Hc.
  change (addCoins U ((k, c) :: l)) with (addCoins (<[k := c]> U) l).
  destruct (IH (<[k := c]> U) (amounts_pos_insert U k c Hp Hc) Hl) as [H1 H2]. split; [exact H1|].
  pose proof (total_insert U k c Hp). cbn [fold_right snd]. lia.
Qed.

Lemma newCoins_amounts hs h cb outs : Forall (fun o => 0 <= to_Value o) outs -> forall i,
  Forall (fun p => 0 <= c_amount (snd p)) (newCoins hs i outs h cb) /\
  fold_right (fun p n => c_amount (snd p) + n) 0 (newCoins hs i outs h cb) <= totalOut outs.
Proof.
  induction 1 as [|o outs Ho _ IH]; intros i; [split; [constructor | reflexivity]|]. destruct (IH (S i)) as [H1 H2].
  cbn [newCoins totalOut fold_right]. unfold totalOut in H2. destruct (IsUnspendable (to_PkScript o)); cbn [app]; [split; [exact H1 | lia]|].
  split; [constructor; [exact Ho | exact H1]|]. cbn [fold_right snd coinOfOut c_amount]. lia.
Qed.

Lemma total_delCoins ops : forall U, NoDup ops -> Forall (fun op => is_Some (U !! op)) ops ->
  total (delCoins U ops) = total U - inputSum U ops.
Proof.
  induction ops as [|op ops IH]; intros U Hd He; [cbn [delCoins fold_left inputSum fold_right]; lia|].
  apply NoDup_cons in Hd. destruct Hd as [Hn Hd]. apply Forall_cons in He. destruct He as [[c Hc] He].
  change (delCoins U (op :: ops)) with (delCoins (delete op U) ops).
  assert (Hag : Forall (fun x => delete op U !! x = U !! x) ops).
  { apply Forall_forall. intros x Hx. apply lookup_delete_ne. intros ->. contradiction. }
  rewrite IH; [|exact Hd|].
  - rewrite (inputSum_ext _ _ _ Hag), (total_delete U op c Hc). cbn [inputSum fold_right]. rewrite Hc. fold (inputSum U ops). lia.
  - rewrite Forall_forall in *. intros x Hx. rewrite Hag by exact Hx. now apply He.
Qed.

Lemma amounts_pos_delCoins U ops : amounts_pos U -> amounts_pos (delCoins U ops).
Proof. intros Hp op c H. rewrite lookup_delCoins in H. case_decide; [discriminate|]. exact (Hp op c H). Qed.

Section Totals.
Context (DoubleHash : list Z -> list Z) (params : RuleParams).

Lemma total_coinbase h U tx : IsCoinBaseTx tx = true -> amounts_ok (tx_TxOut tx) -> amounts_pos U ->
  amounts_pos (applyTx DoubleHash h U tx) /\ total (applyTx DoubleHash h U tx) <= total U + totalOut (tx_TxOut tx).
Proof.
  intros Hc [Hf _] Hp. unfold applyTx, createdBy. rewrite Hc.
  destruct (newCoins_amounts (txHash DoubleHash tx) h true _ Hf 0%nat) as [H1 H2].
  destruct (total_addCoins _ U Hp H1) as [H3 H4]. split; [exact H3 | lia].
Qed.

(** A transaction that pays takes its fee out of the set. *)
Lemma total_pays h U tx fee : IsCoinBaseTx tx = false -> amounts_ok (tx_TxOut tx) -> amounts_pos U -> tx_pays params h U tx fee ->
  amounts_pos (applyTx DoubleHash h U tx) /\ total (applyTx DoubleHash h U tx) <= total U - fee.
Proof.
  intros Hc [Hf _] Hp Hpay. unfold applyTx, createdBy. rewrite Hc.
  destruct (newCoins_amounts (txHash DoubleHash tx) h false _ Hf 0%nat) as [H1 H2].
  destruct (total_addCoins _ (delCoins U (spentBy tx)) (amounts_pos_delCoins _ _ Hp) H1) as [H3 H4]. split; [exact H3|].
  rewrite (total_delCoins _ _ (tp_distinct _ _ _ _ _ Hpay) (tp_exist _ _ _ _ _ Hpay)) in H4.
  pose proof (tp_fee _ _ _ _ _ Hpay). lia.
Qed.

Lemma total_txs h txs : forall U fees, Forall tx_sane txs -> Forall (fun tx => IsCoinBaseTx tx = false) txs -> amounts_pos U ->
  txs_pay DoubleHash params h U txs fees ->
  amounts_pos (fold_left (applyTx DoubleHash h) txs U) /\ total (fold_left (applyTx DoubleHash h) txs U) <= total U - fees.
Proof.
  induction txs as [|tx txs IH]; intros U fees Hs Hc Hp H; cbn [txs_pay fold_left] in *; [subst; split; [exact Hp | lia]|].
  apply Forall_cons in Hs, Hc. destruct Hs as [Hs1 Hs], Hc as [Hc1 Hc], H as (fee & Hpay & H).
  destruct (total_pays h U tx fee Hc1 (ts_amounts tx Hs1) Hp Hpay) as [Hp1 Ht1].
  destruct (IH _ _ Hs Hc Hp1 H) as [Hp2 Ht2]. split; [exact Hp2 | lia].
Qed.
End Totals.

(** ** Valid steps are sound for the cache *)

Lemma NoDup_map_inj {A B} (f : A -> B) l x y : NoDup (map f l) -> x ∈ l -> y ∈ l -> f x = f y -> x = y.
Proof.
  induction l as [|z l IH]; intros Hd Hx Hy E; [inversion Hx|]. cbn [map] in Hd. apply NoDup_cons in Hd. destruct Hd as [Hn Hd].
  apply elem_of_cons in Hx, Hy. destruct Hx as [->|Hx], Hy as [->|Hy]; auto; exfalso; apply Hn.
  - rewrite E. apply list_elem_of_In, in_map, list_elem_of_In, Hy.
  - rewrite <- E. apply list_elem_of_In, in_map, list_elem_of_In, Hx.
Qed.

Lemma size_scripts tx o : o ∈ tx_TxOut tx -> len (to_PkScript o) <= SerializeSizeStripped tx.
Proof.
  intros Ho. unfold SerializeSizeStripped, baseSize. pose proof (VarIntSize_pos (len (tx_TxIn tx))). pose proof (VarIntSize_pos (len (tx_TxOut tx))).
  assert (Hi : 0 <= fold_right (fun ti n => txin_SerializeSize ti + n) 0 (tx_TxIn tx)).
  { clear. induction (tx_TxIn tx) as [|ti l IH]; cbn [fold_right]; [lia|]. unfold txin_SerializeSize at 1.
    pose proof (VarIntSize_pos (len (ti_SignatureScript ti))). pose proof (len_nonneg (ti_SignatureScript ti)). lia. }
  assert (Hs : forall l, 0 <= fold_right (fun o n => txout_SerializeSize o + n) 0 l /\
      (o ∈ l -> len (to_PkScript o) <= fold_right (fun o n => txout_SerializeSize o + n) 0 l)).
  { clear. induction l as [|x l [IH1 IH2]]; cbn [fold_right]; [split; [lia | intros H; inversion H]|].
    assert (Hx : len (to_PkScript x) <= txout_SerializeSize x).
    { unfold txout_SerializeSize. pose proof (VarIntSize_pos (len (to_PkScript x))). lia. }
    pose proof (len_nonneg (to_PkScript x)). split; [lia|]. intros H0. apply elem_of_cons in H0.
    destruct H0 as [->|H0]; [lia|]. specialize (IH2 H0). lia. }
  destruct (Hs (tx_TxOut tx)) as [_ H1]. specialize (H1 Ho). lia.
Qed.

Lemma sane_outs_ok tx : tx_sane tx -> outs_ok (tx_TxOut tx).
Proof.
  intros Hs. apply Forall_forall. intros o Ho. destruct (ts_amounts tx Hs) as [Hf Hm].
  pose proof (size_scripts tx o Ho). pose proof (ts_size tx Hs) as Hz. unfold MaxBlockBaseSize in Hz. unfold out_ok, maxAmount, maxScript.
  split; [|lia]. assert (HM : MaxSatoshi < 2 ^ 60) by reflexivity.
  enough (Hle : to_Value o <= totalOut (tx_TxOut tx)) by (rewrite Forall_forall in Hf; specialize (Hf o Ho); lia).
  clear -Hf Ho. induction Hf as [|x l Hx Hf IH]; [inversion Ho|]. cbn [totalOut fold_right]. fold (totalOut l).
  pose proof (totalOut_nonneg l Hf). apply elem_of_cons in Ho. destruct Ho as [->|Ho]; [lia|]. specialize (IH Ho). lia.
Qed.

Section Sound.
Context (DoubleHash : list Z -> list Z) (params : RuleParams).
Hypothesis hash_len : forall l, len (DoubleHash l) = 32.
Abbreviation tid := (txHash DoubleHash).

Definition apart (K : gset OutPoint) (txs : list MsgTx) : Prop := forall k, k ∈ K -> op_Hash k ∉ map tid txs.

Lemma apart_created h K tx txs : apart K (tx :: txs) -> forall k, k ∈ map fst (createdBy DoubleHash h tx) -> k ∉ K.
Proof. intros Ha k Hk HK. apply (Ha k HK). rewrite (createdBy_hash _ _ _ _ Hk). apply list_elem_of_here. Qed.

Lemma apart_step h K tx txs : NoDup (map tid (tx :: txs)) -> apart K (tx :: txs) -> apart (K ∪ createdKeys DoubleHash h tx) txs.
Proof.
  intros Hd Ha k Hk Hin. apply NoDup_cons in Hd. destruct Hd as [Hn _]. apply elem_of_union in Hk. destruct Hk as [Hk|Hk].
  - apply (Ha k Hk). now right.
  - apply elem_of_list_to_set in Hk. apply createdBy_hash in Hk. rewrite Hk in Hin. contradiction.
Qed.

Lemma txs_pay_sound h txs : 0 <= h < 2 ^ 31 -> forall K U fees, Forall tx_sane txs ->
  Forall (fun tx => Forall outpoint_ok (spentBy tx)) txs -> NoDup (map tid txs) -> apart K txs ->
  txs_pay DoubleHash params h U txs fees -> txs_sound DoubleHash h K U txs.
Proof.
  intros Hh. induction txs as [|tx txs IH]; intros K U fees Hs Ho Hd Ha Hp; cbn [txs_pay txs_sound] in *; [exact I|].
  apply Forall_cons in Hs, Ho. destruct Hs as [Hs1 Hs], Ho as [Ho1 Ho], Hp as (fee & Hpay & Hp). split.
  - split; [apply hash_len|]. split; [exact Hh|]. split; [now apply sane_outs_ok|]. split.
    + intros _. split; [exact Ho1|]. split; [exact (tp_distinct _ _ _ _ _ Hpay) | exact (tp_exist _ _ _ _ _ Hpay)].
    + exact (apart_created h K tx txs Ha).
  - apply (IH _ _ (fees - fee)); auto; [now apply NoDup_cons in Hd | now apply apart_step].
Qed.
(** The transactions of a block that pays are sound steps of the set. *)
Lemma pays_sound h K U cb rest fees : 0 <= h < 2 ^ 31 -> IsCoinBaseTx cb = true -> Forall tx_sane (cb :: rest) ->
  Forall (fun tx => Forall outpoint_ok (spentBy tx)) rest -> NoDup (map tid (cb :: rest)) -> apart K (cb :: rest) ->
  txs_pay DoubleHash params h (applyTx DoubleHash h U cb) rest fees -> txs_sound DoubleHash h K U (cb :: rest).
Proof.
  intros Hh Hc Hts Hin Hd Hap Hp. apply Forall_cons in Hts. destruct Hts as [Hs1 Hts]. split.
  - split; [apply hash_len|]. split; [exact Hh|]. split; [now apply sane_outs_ok|]. split; [congruence|].
    exact (apart_created h K cb rest Hap).
  - apply (txs_pay_sound _ _ Hh _ _ fees); auto; [now apply NoDup_cons in Hd | now apply apart_step].
Qed.
End Sound.

(** ** The view checkConnectBlock starts from *)

Section Accept.
Context {PubKey : Type} (ParsePubKey : list Z -> option PubKey)
        (SerializeUncompressed : PubKey -> list Z).
Context (CalculateRoughMapSize : Z -> Z -> Z) (CalculateMinEntries : Z -> Z -> Z).
Context (DoubleHash : list Z -> list Z).
Hypothesis forms : pubkey_forms ParsePubKey SerializeUncompressed.
Hypothesis hash_len : forall l, len (DoubleHash l) = 32.
Abbreviation tid := (txHash DoubleHash).
Abbreviation inv := (cinv ParsePubKey).

Lemma fetchUtxos_lookup D db s v needed v' s' : inv D db s -> Forall outpoint_ok needed ->
  fetchUtxosFromCache ParsePubKey SerializeUncompressed CalculateRoughMapSize CalculateMinEntries v s db needed = Ok (v', s') ->
  inv D db s' /\ cabs D s' = cabs D s /\
  forall op, uv_entries v' !! op = if decide (op ∈ needed) then Some (entryFor D s op) else uv_entries v !! op.
Proof.
  intros Hi Hn H. unfold fetchUtxosFromCache in H. destruct (len needed =? 0) eqn:E0.
  - apply len_zero in E0. subst needed. injection H as <- <-. split; [exact Hi|]. split; [reflexivity|].
    intros op. case_decide as Hd; [inversion Hd | reflexivity].
  - destruct (fetchEntries_spec ParsePubKey SerializeUncompressed CalculateRoughMapSize CalculateMinEntries map_to_list forms
      (fun m => Permutation_refl _) D db s needed Hi Hn)
      as (s1 & E & Hi1 & Ha1 & _). rewrite E in H. cbn [obind] in H. injection H as <- <-.
    split; [exact Hi1|]. split; [exact Ha1|]. intros op. cbn [set_entries uv_entries]. apply lookup_insertAll.
Qed.

Lemma fetchInputs_view D db s v b cb rest v' s' : inv D db s -> uv_entries v = ∅ -> Transactions b = cb :: rest ->
  IsCoinBaseTx cb = true -> NoDup (map tid (cb :: rest)) -> Forall (fun tx => Forall outpoint_ok (spentBy tx)) rest ->
  (forall op, op_Hash op ∈ map tid (cb :: rest) -> cabs D s !! op = None) ->
  fetchInputUtxos ParsePubKey SerializeUncompressed CalculateRoughMapSize CalculateMinEntries DoubleHash v s db b = Ok (v', s') ->
  inv D db s' /\ cabs D s' = cabs D s /\ view_inv DoubleHash (blk_height b) (abs ∅ v') (cabs D s) (cb :: rest).
Proof.
  intros Hi Hv Et Hc Hd Ho Hfresh H. unfold fetchInputUtxos, findInputsToFetch in H. rewrite Et, slice_from_one in H. cbn [obind] in H.
  destruct (findInputs_loop DoubleHash v (cb :: rest) (blk_height b) 0 rest) as [v1 needed] eqn:El.
  destruct (findInputs_loop_spec DoubleHash _ _ _ _ _ _ _ ltac:(intros op e E; rewrite Hv, lookup_empty in E; discriminate) El)
    as (Hv1 & Hn & Hf).
  assert (Hnok : Forall outpoint_ok needed).
  { apply Forall_forall. intros op Hop. destruct (Hn op Hop) as (tx & Ht & Hs). rewrite Forall_forall in Ho.
    specialize (Ho tx Ht). rewrite Forall_forall in Ho. now apply Ho. }
  destruct (fetchUtxos_lookup D db s v1 needed v' s' Hi Hnok H) as (Hi' & Ha & Hlk). split; [exact Hi'|]. split; [exact Ha|].
  assert (Hneed : forall op, op ∈ needed -> abs ∅ v' !! op = cabs D s !! op).
  { intros op Hop. rewrite lookup_abs, Hlk. rewrite decide_True by exact Hop. apply live_entryFor. }
  assert (Hin : forall pre tx post op, cb :: rest = pre ++ tx :: post -> IsCoinBaseTx tx = false -> op ∈ spentBy tx ->
      op_Hash op ∉ map tid pre -> abs ∅ v' !! op = cabs D s !! op).
  { intros [|p pre] tx post op E Hcb Hop Hp; cbn [app] in E; injection E as <- E; [congruence|].
    apply Hneed, (Hf pre tx post op E Hop). rewrite E. cbn [firstn Nat.add].
    rewrite firstn_app, Nat.sub_diag, firstn_all. cbn [firstn]. now rewrite app_nil_r. }
  split.
  - intros pre tx post op E Hcb Hop. split; intros Hh.
    + rewrite (Hin pre tx post op E Hcb Hop).
      * apply Hfresh. rewrite E, map_app, elem_of_app. now right.
      * rewrite E, map_app in Hd. apply NoDup_app in Hd. intros Hp. exact (proj1 (proj2 Hd) _ Hp Hh).
    + apply (Hin pre tx post op E Hcb Hop). intros Hp. apply Hh. rewrite E, map_app, elem_of_app. now left.
  - intros tx op Htx Hh Hk. destruct (decide (op ∈ needed)) as [Hop|Hop].
    + rewrite Hneed by exact Hop. apply Hfresh. rewrite Hh. apply list_elem_of_In, in_map, list_elem_of_In, Htx.
    + rewrite lookup_abs, Hlk, decide_False by exact Hop. destruct (uv_entries v1 !! op) as [e|] eqn:Ee; [|apply lookup_empty].
      exfalso. destruct (Hv1 op e Ee) as (tx' & Ht' & Hk'). pose proof (createdBy_hash _ _ _ _ Hk') as Hh'.
      assert (Ht2 : tx' ∈ cb :: rest) by (rewrite <- (firstn_skipn (S (0 + List.length rest)) (cb :: rest)); apply elem_of_app; now left).
      assert (tx = tx') as -> by (apply (NoDup_map_inj tid (cb :: rest)); auto; congruence). contradiction.
  - exact Hfresh.
Qed.

(** ** Accepted blocks *)

Context (params : RuleParams) (bi : blockIndex) (scripts : Block -> UtxoViewpoint -> Z -> verdict).
Abbreviation checkConnect :=
  (checkConnectBlock ParsePubKey SerializeUncompressed CalculateRoughMapSize CalculateMinEntries DoubleHash params bi scripts).

(** What a block needs besides the two checks: a view of its own, the height
    of its node, a place where the duplicate check of BIP 30 does not run, and
    what that rests on: none of its outputs exists, in the set or in the
    database.  Outpoints are those of decoded transactions. *)
Record block_ready (D : utxoSet) (db : utxoDB) (s : utxoCache) (node : nat) (b : Block) (v : UtxoViewpoint) : Prop := {
  br_cache : inv D db s;
  br_view : uv_entries v = ∅;
  br_height : bn_height (deref (bi_nodes bi) node) = blk_height b;
  br_range : 0 <= blk_height b < 2 ^ 31;
  br_bip34 : isBIP0030Node (deref (bi_nodes bi) node) = true \/ BIP0034Height params <= blk_height b;
  br_inputs : Forall (fun tx => Forall outpoint_ok (spentBy tx)) (tl (Transactions b));
  br_fresh : apart DoubleHash (dom D ∪ dom (cabs D s)) (Transactions b);
  br_amounts : amounts_pos (cabs D s)
}.

(** The parts of checkConnectBlock that decide about amounts. *)
Lemma checkConnect_parts node b v stxos s db caches r : let n := deref (bi_nodes bi) node in
  checkConnect node b v stxos s db caches = Ok r ->
  exists v0 s0 v1 s1 v2 stxos2 fees cb,
    (if negb (isBIP0030Node n) && (bn_height n <? BIP0034Height params)
     then checkBIP0030 ParsePubKey SerializeUncompressed CalculateRoughMapSize CalculateMinEntries DoubleHash b v s db
     else Ok (v, s)) = Ok (v0, s0) /\
    fetchInputUtxos ParsePubKey SerializeUncompressed CalculateRoughMapSize CalculateMinEntries DoubleHash v0 s0 db b = Ok (v1, s1) /\
    connectFees_loop DoubleHash params (bn_height n) v1 stxos (Transactions b) 0 = Ok (v2, stxos2, fees) /\
    get_at (Transactions b) 0 = Ok (E := ruleErr) cb /\
    sumOutputs (tx_TxOut cb) <= i64 (CalcBlockSubsidy (bn_height n) params + fees) /\ co_view r = v2 /\ co_cache r = s1.
Proof.
  intros n H. unfold checkConnectBlock in H. fold n in H. destruct (bytes_eqb _ _); [discriminate|].
  apply obind_Ok in H. destruct H as ([v0 s0] & H0 & H).
  apply obind_Ok in H. destruct H as ([v1 s1] & H1 & H).
  destruct (fetchInputUtxos _ _ _ _ _ v0 s0 db b) as [[v1' s1']| |] eqn:Ef; [|discriminate..]. injection H1 as -> ->.
  apply obind_Ok in H. destruct H as ([sw c1] & _ & H). apply obind_Ok in H. destruct H as (u1 & _ & H).
  apply obind_Ok in H. destruct H as ([[v2 st2] fees] & Hfees & H). apply obind_Ok in H. destruct H as (cb & Hcb & H).
  destruct (Z.ltb_spec (i64 (CalcBlockSubsidy (bn_height n) params + fees)) (sumOutputs (tx_TxOut cb))); [discriminate|].
  apply obind_Ok in H. destruct H as ([csv c2] & _ & H). apply obind_Ok in H. destruct H as (c3 & _ & H).
  apply obind_Ok in H. destruct H as ([tap c4] & _ & H). apply obind_Ok in H. destruct H as (u2 & _ & H). injection H as <-.
  exists v0, s0, v1, s1, v2, st2, fees, cb. do 5 (split; [assumption|]). split; reflexivity.
Qed.

(** A block whose transactions stay together with a ledger is a valid block of
    it. *)
Lemma paid_block h I v stxos cb rest v' stxos' fees U : together DoubleHash h I -> I v U (cb :: rest) ->
  IsCoinBaseTx cb = true -> Forall (fun tx => IsCoinBaseTx tx = false) rest ->
  Forall tx_sane (cb :: rest) -> NoDup (map tid (cb :: rest)) ->
  connectFees_loop DoubleHash params h v stxos (cb :: rest) 0 = Ok (v', stxos', fees) ->
  sumOutputs (tx_TxOut cb) <= i64 (CalcBlockSubsidy h params + fees) ->
  txs_pay DoubleHash params h (applyTx DoubleHash h U cb) rest fees /\
  totalOut (tx_TxOut cb) <= CalcBlockSubsidy h params + fees.
Proof.
  intros Htg Hv Hc Hcr Hts Hd Hl Hle. apply Forall_cons in Hts. destruct Hts as [Hs1 Hts].
  cbn [connectFees_loop] in Hl. unfold CheckTransactionInputs at 1 in Hl. rewrite Hc in Hl. cbn [obind] in Hl.
  change (i64 (0 + 0)) with 0 in Hl. cbn [Z.ltb Z.compare] in Hl. apply obind_Ok in Hl. destruct Hl as ([v3 st3] & H3 & Hl).
  destruct (connectTransaction DoubleHash v cb h stxos) as [[v3' st3']| |] eqn:E3; [|discriminate..]. injection H3 as -> ->.
  destruct (connectFees_spec DoubleHash params h I rest Htg v3 st3 0 v' stxos' fees (applyTx DoubleHash h U cb))
    as [Hfr Hp]; auto; [exact (tg_step _ _ _ Htg _ _ _ _ _ _ _ Hd Hv E3) | now apply NoDup_cons in Hd | lia|].
  rewrite Z.sub_0_r in Hp. split; [exact Hp|].
  pose proof (ts_amounts cb Hs1) as Ham. rewrite (sumOutputs_spec _ Ham) in Hle. pose proof (totalOut_nonneg _ (proj1 Ham)).
  pose proof (CalcBlockSubsidy_range params h) as Hsub. assert (Hbs : baseSubsidy < 2 ^ 60) by reflexivity.
  destruct (Z_lt_ge_dec (CalcBlockSubsidy h params + fees) (2 ^ 63)); [rewrite i64_id in Hle by (unfold is_i64; lia); lia|].
  rewrite i64_wrap in Hle by lia. lia.
Qed.

Lemma accepted_block D db s node b v stxos caches r powLimit t flags :
  block_ready D db s node b v -> block_sane DoubleHash b powLimit t flags ->
  checkConnect node b v stxos s db caches = Ok r ->
  exists cb rest fees, let h := blk_height b in let U := cabs D s in
    Transactions b = cb :: rest /\ txs_pay DoubleHash params h (applyTx DoubleHash h U cb) rest fees /\
    totalOut (tx_TxOut cb) <= CalcBlockSubsidy h params + fees /\
    inv D db (co_cache r) /\ cabs D (co_cache r) = U.
Proof.
  intros Hr Hs H. destruct (bs_shape _ _ _ _ _ Hs) as (cb & rest & Et & Hc & Hcr).
  pose proof (br_height _ _ _ _ _ _ Hr) as Hh.
  apply checkConnect_parts in H. destruct H as (v0 & s0 & v1 & s1 & v2 & st2 & fees & cb' & Hb & Hf & Hl & Hg & Hle & _ & Ec).
  replace (negb (isBIP0030Node _) && _) with false in Hb.
  2: { destruct (br_bip34 _ _ _ _ _ _ Hr) as [->|Hb']; [reflexivity|]. rewrite Hh, (proj2 (Z.ltb_ge _ _) Hb'). now rewrite andb_false_r. }
  injection Hb as <- <-. rewrite Et, (get_at_eq [] cb rest) in Hg by reflexivity. injection Hg as <-. rewrite Hh in *.
  pose proof (bs_txs _ _ _ _ _ Hs) as Hts. pose proof (bs_distinct _ _ _ _ _ Hs) as Hd. rewrite Et in Hts, Hd, Hl.
  pose proof (br_inputs _ _ _ _ _ _ Hr) as Hin. rewrite Et in Hin. cbn [tl] in Hin.
  destruct (fetchInputs_view D db s v b cb rest v1 s1) as (Hi1 & Ha1 & Hv); auto; [apply Hr | apply Hr | |].
  { intros op Hop. apply not_elem_of_dom. intros HU. apply (br_fresh _ _ _ _ _ _ Hr op); [now apply elem_of_union_r|]. now rewrite Et. }
  destruct (paid_block _ _ _ _ _ _ _ _ _ _ (view_inv_together DoubleHash (blk_height b)) Hv Hc Hcr Hts Hd Hl Hle) as [Hp Hle'].
  exists cb, rest, fees. cbv zeta. rewrite Ec. auto.
Qed.

(** Connecting an accepted block to the cache is a sound step. *)
Lemma accepted_sound D db s node b v powLimit t flags s1 cb rest fees :
  block_ready D db s node b v -> block_sane DoubleHash b powLimit t flags -> Transactions b = cb :: rest ->
  txs_pay DoubleHash params (blk_height b) (applyTx DoubleHash (blk_height b) (cabs D s) cb) rest fees ->
  inv D db s1 -> cabs D s1 = cabs D s ->
  exists s' spent, cache_connectTransactions ParsePubKey SerializeUncompressed CalculateRoughMapSize CalculateMinEntries DoubleHash
      db s1 b (Some []) = Ok (s', Some spent) /\ inv D db s' /\ cabs D s' = applyBlock DoubleHash (cabs D s1) b.
Proof.
  intros Hr Hs Et Hp Hi Ha. destruct (bs_shape _ _ _ _ _ Hs) as (cb' & rest' & Et' & Hc & Hcr). rewrite Et in Et'. injection Et' as <- <-.
  pose proof (bs_txs _ _ _ _ _ Hs) as Hts. pose proof (bs_distinct _ _ _ _ _ Hs) as Hd. pose proof (br_inputs _ _ _ _ _ _ Hr) as Hin.
  pose proof (br_fresh _ _ _ _ _ _ Hr) as Hap. rewrite Et in Hts, Hd, Hin, Hap. cbn [tl] in Hin.
  set (K := dom D ∪ dom (cabs D s)) in *. pose proof (br_range _ _ _ _ _ _ Hr) as Hh.
  pose proof (pays_sound DoubleHash params hash_len (blk_height b) K (cabs D s) cb rest fees Hh Hc Hts Hin Hd Hap Hp) as Hsound.
  destruct (cache_connect_spec ParsePubKey SerializeUncompressed CalculateRoughMapSize CalculateMinEntries map_to_list DoubleHash forms
    (fun m => Permutation_refl _) D db (blk_height b) (cb :: rest) K s1 (Some [])) as (s2 & E & Hi2 & Ha2 & _);
    [exact Hi | rewrite Ha; reflexivity | rewrite Ha; exact Hsound|].
  unfold cache_connectTransactions, applyBlock. rewrite Et, E. exists s2. eexists. split; [reflexivity|]. split; [exact Hi2 | exact Ha2].
Qed.
End Accept.

(** A coinbase and transactions that pay create no more than the subsidy. *)
Lemma paid_total DoubleHash params h U cb rest fees :
  IsCoinBaseTx cb = true -> Forall (fun tx => IsCoinBaseTx tx = false) rest -> Forall tx_sane (cb :: rest) -> amounts_pos U ->
  txs_pay DoubleHash params h (applyTx DoubleHash h U cb) rest fees -> totalOut (tx_TxOut cb) <= CalcBlockSubsidy h params + fees ->
  let U' := fold_left (applyTx DoubleHash h) (cb :: rest) U in
  amounts_pos U' /\ total U' <= total U + CalcBlockSubsidy h params.
Proof.
  intros Hc Hcr Hts Hpos Hp Hle. apply Forall_cons in Hts. destruct Hts as [Hs1 Hts]. cbn [fold_left].
  destruct (total_coinbase DoubleHash h U cb Hc (ts_amounts cb Hs1) Hpos) as [H1 H2].
  destruct (total_txs DoubleHash params h rest _ fees Hts Hcr H1 Hp) as [H3 H4]. split; [exact H3 | lia].
Qed.

Lemma accepted_total DoubleHash params b cb rest fees U powLimit t flags :
  block_sane DoubleHash b powLimit t flags -> Transactions b = cb :: rest -> amounts_pos U ->
  txs_pay DoubleHash params (blk_height b) (applyTx DoubleHash (blk_height b) U cb) rest fees ->
  totalOut (tx_TxOut cb) <= CalcBlockSubsidy (blk_height b) params + fees ->
  amounts_pos (applyBlock DoubleHash U b) /\ total (applyBlock DoubleHash U b) <= total U + CalcBlockSubsidy (blk_height b) params.
Proof.
  intros Hs Et Hpos Hp Hle. destruct (bs_shape _ _ _ _ _ Hs) as (cb' & rest' & Et' & Hc & Hcr). rewrite Et in Et'. injection Et' as <- <-.
  pose proof (bs_txs _ _ _ _ _ Hs) as Hts. rewrite Et in Hts. unfold applyBlock. rewrite Et. now apply paid_total with (fees := fees).
Qed.

(** ** Properties *)

(** C7: for a block that checkBlockSanity and checkConnectBlock accept, over a cache
    that represents a set of unspent outputs, at a height where the duplicate check
    does not run and with outputs that do not exist yet: its transactions are valid
    steps of a ledger (inputs distinct, existing, mature, covering the outputs), the
    coinbase pays at most the subsidy and the fees, connecting the block to the
    cache then succeeds and gives the set of the ledger, and the total grows by at
    most the subsidy. *)
Theorem accepted_block_connects {PubKey} ParsePubKey (SerializeUncompressed : PubKey -> list Z)
    CalculateRoughMapSize CalculateMinEntries DoubleHash params bi scripts
    D db s node b v stxos caches r powLimit t flags :
  pubkey_forms ParsePubKey SerializeUncompressed -> (forall l, len (DoubleHash l) = 32) ->
  block_ready ParsePubKey DoubleHash params bi D db s node b v ->
  checkBlockSanity DoubleHash b powLimit t flags = Ok tt ->
  checkConnectBlock ParsePubKey SerializeUncompressed CalculateRoughMapSize CalculateMinEntries DoubleHash params bi scripts
    node b v stxos s db caches = Ok r ->
  let h := blk_height b in let U := cabs D s in
  (exists cb rest fees, Transactions b = cb :: rest /\
     txs_pay DoubleHash params h (applyTx DoubleHash h U cb) rest fees /\
     totalOut (tx_TxOut cb) <= CalcBlockSubsidy h params + fees) /\
  (exists s' spent,
     cache_connectTransactions ParsePubKey SerializeUncompressed CalculateRoughMapSize CalculateMinEntries DoubleHash
       db (co_cache r) b (Some []) = Ok (s', Some spent) /\
     cinv ParsePubKey D db s' /\ cabs D s' = applyBlock DoubleHash U b) /\
  amounts_pos (applyBlock DoubleHash U b) /\ total (applyBlock DoubleHash U b) <= total U + CalcBlockSubsidy h params.
Proof.
  intros Hforms Hlen Hr Hs H h U. apply checkBlockSanity_spec in Hs.
  destruct (accepted_block ParsePubKey SerializeUncompressed CalculateRoughMapSize CalculateMinEntries DoubleHash Hforms
    params bi scripts D db s node b v stxos caches r powLimit t flags Hr Hs H) as (cb & rest & fees & Et & Hp & Hle & Hi & Ha).
  fold h U in Hp, Hle, Ha. split; [exists cb, rest, fees; auto|]. rewrite <- Ha. split.
  - apply (accepted_sound _ _ _ _ _ Hforms Hlen params bi D db s node b v powLimit t flags (co_cache r) cb rest fees); auto.
  - rewrite Ha. apply (accepted_total DoubleHash params b cb rest fees U powLimit t flags); auto. apply Hr.
Qed.

(** The sets of unspent outputs of chains in which every block was accepted;
    the outputs of the genesis block are not in the set. *)
Inductive grown {PubKey} ParsePubKey (SerializeUncompressed : PubKey -> list Z) CalculateRoughMapSize CalculateMinEntries
    DoubleHash params : nat -> utxoSet -> Prop :=
| grown_genesis : grown ParsePubKey SerializeUncompressed CalculateRoughMapSize CalculateMinEntries DoubleHash params 0 ∅
| grown_block n U bi scripts D db s node b v stxos caches r powLimit t flags :
    grown ParsePubKey SerializeUncompressed CalculateRoughMapSize CalculateMinEntries DoubleHash params n U ->
    cabs D s = U -> blk_height b = Z.of_nat (S n) ->
    block_ready ParsePubKey DoubleHash params bi D db s node b v ->
    checkBlockSanity DoubleHash b powLimit t flags = Ok tt ->
    checkConnectBlock ParsePubKey SerializeUncompressed CalculateRoughMapSize CalculateMinEntries DoubleHash params bi scripts
      node b v stxos s db caches = Ok r ->
    grown ParsePubKey SerializeUncompressed CalculateRoughMapSize CalculateMinEntries DoubleHash params (S n) (applyBlock DoubleHash U b).

Lemma grown_total {PubKey} ParsePubKey (SerializeUncompressed : PubKey -> list Z) CalculateRoughMapSize CalculateMinEntries
    DoubleHash params n U : pubkey_forms ParsePubKey SerializeUncompressed ->
  grown ParsePubKey SerializeUncompressed CalculateRoughMapSize CalculateMinEntries DoubleHash params n U ->
  amounts_pos U /\ total U <= issued params (S n).
Proof.
  intros Hforms. induction 1 as [|n U bi scripts D db s node b v stxos caches r powLimit t flags Hg IH HU Hh Hr Hs Hc].
  - split; [intros op c H; rewrite lookup_empty in H; discriminate|]. change (total ∅) with 0. cbn [issued].
    pose proof (CalcBlockSubsidy_range params 0). change (Z.of_nat 0) with 0. lia.
  - apply checkBlockSanity_spec in Hs.
    destruct (accepted_block ParsePubKey SerializeUncompressed CalculateRoughMapSize CalculateMinEntries DoubleHash Hforms
      params bi scripts D db s node b v stxos caches r powLimit t flags Hr Hs Hc) as (cb & rest & fees & Et & Hp & Hle & _).
    rewrite HU in Hp. destruct (accepted_total DoubleHash params b cb rest fees U powLimit t flags Hs Et (proj1 IH) Hp Hle) as [H1 H2].
    split; [exact H1|]. cbn [issued] in *. rewrite Hh in H2. lia.
Qed.

(** In every set of unspent outputs grown from the genesis block by blocks that
    checkBlockSanity and checkConnectBlock accept, no amount is negative and the
    total of all amounts is at most the sum of the subsidies of the heights so far,
    which is at most 21 million bitcoins, for every subsidy interval up to the
    210,000 blocks of the main network. *)
Theorem supply_bounded {PubKey} ParsePubKey (SerializeUncompressed : PubKey -> list Z) CalculateRoughMapSize CalculateMinEntries
    DoubleHash params n U :
  pubkey_forms ParsePubKey SerializeUncompressed -> 0 < SubsidyReductionInterval params <= 210000 -> Z.of_nat n < 2 ^ 62 ->
  grown ParsePubKey SerializeUncompressed CalculateRoughMapSize CalculateMinEntries DoubleHash params n U ->
  amounts_pos U /\ total U <= issued params (S n) <= MaxSatoshi.
Proof.
  intros Hforms Hint Hn Hg. destruct (grown_total _ _ _ _ _ _ _ _ Hforms Hg) as [H1 H2].
  split; [exact H1|]. split; [exact H2|]. apply subsidy_bounded; [exact Hint | lia].
Qed.

(** *** A block on the simulation network *)

Definition supplyCoin : coin := mkCoin 700 [0x51] 0 false.
Definition supplyBase : utxoSet := {[ mkOutPoint (repeat 7 32) 3 := supplyCoin ]}.
Definition supplyDB : utxoDB := mkUtxoDB {[ keyOf (mkOutPoint (repeat 7 32) 3) := entryBytes toy_parse (entryOf supplyCoin) ]} None.
Definition mint : MsgTx :=
  mkMsgTx 1 [mkTxIn (mkOutPoint zeroHash 0xffffffff) [OP_1; 2] None 0xffffffff] [mkTxOut 5000000100 [0x51]] 0.
Definition pay : MsgTx := mkMsgTx 1 [mkTxIn (mkOutPoint (repeat 7 32) 3) [] None 0xffffffff] [mkTxOut 500 [0x51]] 0.
Definition spendAgain : MsgTx := mkMsgTx 1 [mkTxIn (outpointOf toyId pay 0) [] None 0xffffffff] [mkTxOut 400 [0x51]] 0.
Definition simHeader (txs : list MsgTx) : BlockHeader :=
  mkBlockHeader 4 zeroHash (merkleRoot toyId (leafHashes toyId false 0 txs)) 0 0x207fffff 0.
Definition simBlock (txs : list MsgTx) : Block := mkBlock (mkMsgBlock (simHeader txs) txs) 1.
Definition simIndex (txs : list MsgTx) : blockIndex :=
  mkIndex [mkBlockNode None None simNetGenesisHash 1 0 1 0x207fffff 0 0 zeroHash 3;
           mkBlockNode (Some 0%nat) None (BlockHash toyId (simHeader txs)) 2 1 4 0x207fffff 0 0 zeroHash 3] ∅ ∅.
Definition simCaches : list stateCache := newThresholdCaches 5.
Definition simConnect (txs : list MsgTx) (db : utxoDB) : outcome ruleErr connected :=
  checkConnectBlock toy_parse (fun k => k) (fun _ _ => 1000) (fun _ _ => 2) toyId SimNetRules (simIndex txs) (fun _ _ _ => Ok tt)
    1%nat (simBlock txs) NewUtxoViewpoint (Some []) (newUtxoCache (fun _ _ => 2) 100) db simCaches.

Lemma supplyDB_rep : db_rep toy_parse supplyDB supplyBase.
Proof.
  split.
  - intros op c H. unfold supplyBase in H. apply lookup_singleton_Some in H. destruct H as [<- <-].
    repeat split; vm_compute; congruence.
  - intros op Ho. unfold supplyDB, supplyBase. cbn [db_utxos].
    destruct (decide (mkOutPoint (repeat 7 32) 3 = op)) as [<-|Hne].
    + now rewrite !lookup_singleton_eq.
    + rewrite !lookup_singleton_ne; [reflexivity | exact Hne|]. intros E. apply Hne, keyOf_inj; [|exact Ho | exact E].
      repeat split; vm_compute; congruence.
Qed.

Lemma accepted_block_connects_witness :
  let txs := [mint; pay; spendAgain] in
  exists r, simConnect txs supplyDB = Ok r /\
    exists s' spent, cache_connectTransactions toy_parse (fun k => k) (fun _ _ => 1000) (fun _ _ => 2) toyId
       supplyDB (co_cache r) (simBlock txs) (Some []) = Ok (s', Some spent) /\
      total (applyBlock toyId supplyBase (simBlock txs)) <= total supplyBase + 5000000000.
Proof.
  intros txs. destruct (simConnect txs supplyDB) as [r| |] eqn:E; [|vm_compute in E; discriminate..]. exists r. split; [reflexivity|].
  destruct (newUtxoCache_inv toy_parse (fun _ _ => 2)
    supplyDB supplyBase 100 supplyDB_rep) as [Hi Ha].
  destruct (accepted_block_connects toy_parse (fun k => k) (fun _ _ => 1000) (fun _ _ => 2) toyId SimNetRules (simIndex txs) (fun _ _ _ => Ok tt)
    supplyBase supplyDB (newUtxoCache (fun _ _ => 2) 100) 1 (simBlock txs) NewUtxoViewpoint (Some []) simCaches r simNetPowLimit 0 0)
    as (_ & (s' & spent & H1 & _) & _ & Ht).
  - exact toy_forms.
  - exact toyId_len.
  - split; [exact Hi | reflexivity | reflexivity | vm_compute; split; congruence | right; vm_compute; congruence | | |].
    + repeat constructor; vm_compute; congruence.
    + rewrite Ha. intros k Hk. assert (Hk' : k ∈ dom supplyBase) by set_solver. unfold supplyBase in Hk'.
      rewrite dom_singleton in Hk'. apply elem_of_singleton in Hk'. subst k. rewrite list_elem_of_In. vm_compute. intuition congruence.
    + rewrite Ha. intros op c H. unfold supplyBase in H. apply lookup_singleton_Some in H. destruct H as [<- <-]. vm_compute. congruence.
  - vm_compute. reflexivity.
  - exact E.
  - exists s', spent. split; [exact H1|]. rewrite Ha in Ht. exact Ht.
Defined.

Lemma supply_bounded_witness :
  exists U, grown toy_parse (fun k => k) (fun _ _ => 1000) (fun _ _ => 2) toyId SimNetRules 1 U /\ U <> ∅ /\ total U <= MaxSatoshi.
Proof.
  set (cb := mkMsgTx 1 (tx_TxIn mint) [mkTxOut 5000000000 [0x51]] 0). exists (applyBlock toyId ∅ (simBlock [cb])).
  set (empty := mkUtxoDB ∅ None).
  assert (Hrep : db_rep toy_parse empty ∅) by (split; [intros op c H; rewrite lookup_empty in H; discriminate | reflexivity]).
  destruct (newUtxoCache_inv toy_parse (fun _ _ => 2)
    empty ∅ 100 Hrep) as [Hi Ha].
  assert (Hg : grown toy_parse (fun k => k) (fun _ _ => 1000) (fun _ _ => 2) toyId SimNetRules 1 (applyBlock toyId ∅ (simBlock [cb]))).
  { destruct (simConnect [cb] empty) as [r| |] eqn:E; [|vm_compute in E; discriminate..].
    eapply (grown_block _ _ _ _ _ _ 0 ∅ (simIndex [cb]) (fun _ _ _ => Ok tt) ∅ empty _ 1 _ NewUtxoViewpoint _ _ _ simNetPowLimit 0 0);
      [constructor | exact Ha | reflexivity | | vm_compute; reflexivity | exact E].
    split; [exact Hi | reflexivity | reflexivity | vm_compute; split; congruence | right; vm_compute; congruence | constructor | |].
    - rewrite Ha. intros k Hk. set_solver.
    - rewrite Ha. intros op c H. rewrite lookup_empty in H. discriminate. }
  split; [exact Hg|]. split.
  - intros E. apply (f_equal (fun m : utxoSet => m !! outpointOf toyId cb 0)) in E. vm_compute in E. discriminate.
  - destruct (supply_bounded toy_parse (fun k => k) (fun _ _ => 1000) (fun _ _ => 2) toyId SimNetRules 1
      (applyBlock toyId ∅ (simBlock [cb]))) as [_ [H1 H2]];
      [exact toy_forms | vm_compute; split; congruence | lia | exact Hg | lia].
Defined.

(** *** Spending an output before it exists *)

(** Where the duplicate check runs, it leaves nil entries for the outputs of
    the block in the view, so that an input that names a later transaction is
    not fetched.  When some transaction behind that one spends another of its
    outputs, findInputsToFetch adds all of them to the view in advance. *)
Definition split_ : MsgTx :=
  mkMsgTx 1 [mkTxIn (mkOutPoint (repeat 7 32) 3) [] None 0xffffffff] [mkTxOut 300 [0x51]; mkTxOut 400 [0x51]] 0.
Definition early : MsgTx := mkMsgTx 1 [mkTxIn (outpointOf toyId split_ 0) [] None 0xffffffff] [mkTxOut 300 [0x51]] 0.
Definition late : MsgTx := mkMsgTx 2 [mkTxIn (outpointOf toyId split_ 1) [] None 0xffffffff] [mkTxOut 400 [0x51]] 0.
Definition regMint : MsgTx := mkMsgTx 1 (tx_TxIn mint) [mkTxOut 5000000000 [0x51]] 0.
Definition earlyBlock : Block := simBlock [regMint; early; split_; late].
Definition earlyConnect : outcome ruleErr connected :=
  checkConnectBlock toy_parse (fun k => k) (fun _ _ => 1000) (fun _ _ => 2) toyId RegressionNetRules
    (simIndex [regMint; early; split_; late]) (fun _ _ _ => Ok tt)
    1%nat earlyBlock NewUtxoViewpoint (Some []) (newUtxoCache (fun _ _ => 2) 100) supplyDB simCaches.

Definition is_assertion {A} (msg : string) (o : outcome chainErr A) : bool :=
  match o with Err (AssertError m) => String.eqb m msg | _ => false end.

Lemma assertion_is {A} msg (o : outcome chainErr A) : is_assertion msg o = true -> o = Err (AssertError msg).
Proof.
  destruct o as [|e|]; try discriminate. destruct e; try discriminate. intros H. apply String.eqb_eq in H. now subst.
Qed.

(** Where the duplicate check of BIP 30 runs, checkConnectBlock accepts a block
    whose second transaction spends an output that the third one creates: the view
    it ends with holds more coins than before and the subsidy, and connecting the
    block to the cache fails with an assertion. *)
Theorem forward_spend_accepted :
  checkBlockSanity toyId earlyBlock regressionPowLimit 0 BFNone = Ok tt /\
  exists r, earlyConnect = Ok r /\
    total supplyBase + CalcBlockSubsidy 1 RegressionNetRules < total (abs supplyBase (co_view r)) /\
    cache_connectTransactions toy_parse (fun k => k) (fun _ _ => 1000) (fun _ _ => 2) toyId
      supplyDB (co_cache r) earlyBlock (Some []) = Err (AssertError "missing input").
Proof.
  split; [vm_compute; reflexivity|].
  assert (H : match earlyConnect with
    | Ok r => (total supplyBase + CalcBlockSubsidy 1 RegressionNetRules <? total (abs supplyBase (co_view r))) &&
        is_assertion "missing input" (cache_connectTransactions toy_parse (fun k => k) (fun _ _ => 1000) (fun _ _ => 2) toyId
            supplyDB (co_cache r) earlyBlock (Some []))
    | _ => false end = true) by (vm_compute; reflexivity).
  destruct earlyConnect as [r| |]; [|discriminate..]. exists r. split; [reflexivity|].
  apply andb_true_iff in H. destruct H as [H1 H2]. split; [now apply Z.ltb_lt|].
  exact (assertion_is _ _ H2).
Qed.
