(* ===== verification/ViewSync.v ===== *)
(** * Views of other points of the chain

    A view over the set at the end of the chain can stand for the set at
    another block: blocks are disconnected from it and connected to it, and it
    can be written to the database.  These lemmas say what the loading of
    inputs, the connecting, the checking, the disconnecting and the writing of
    a view do to the set it stands for, for views that are not empty. *)

From Stdlib Require Import ZArith List Lia Bool String.
From stdpp Require Import gmap.
From S2P Require Import Prelude GoSlice GoIO WireCommon WireTx WireMsgs Merkle Compress Script Difficulty ChainIO BlockIndex ChainView Retarget Index Threshold UtxoView UtxoCache Rules Connect Supply.
Import ListNotations.
Local Open Scope string_scope.
Local Open Scope list_scope.
Local Open Scope Z_scope.
Local Open Scope go_scope.

(** No transaction spends an output of itself or of a later one. *)
Definition ordered (DoubleHash : list Z -> list Z) (txs : list MsgTx) : Prop :=
  forall pre tx post op, txs = pre ++ tx :: post -> IsCoinBaseTx tx = false -> op ∈ spentBy tx ->
    op_Hash op ∉ map (txHash DoubleHash) (tx :: post).

(** ** Loading inputs *)

Section Fetch.
Context (DoubleHash : list Z -> list Z).
Abbreviation tid := (txHash DoubleHash).
Abbreviation keys h tx := (map fst (createdBy DoubleHash h tx)).

(** What adding outputs of the block to a view keeps, the search keeps. *)
Lemma findInputs_keeps (P : UtxoViewpoint -> Prop) txs h i ins :
  (forall v tx, tx ∈ txs -> P v -> P (AddTxOuts DoubleHash v tx h)) ->
  forall v v' needed, P v -> findInputs DoubleHash v txs h i ins = (v', needed) -> P v'.
Proof.
  intros Hadd. induction ins as [|ti ins IH]; intros v v' needed Hv H; cbn [findInputs] in H; [now injection H as <- _|].
  revert H. set (skip := match inFlight DoubleHash txs 0 _ with Some j => _ | None => _ end).
  destruct skip as [o|] eqn:Es.
  - apply IH, Hadd; [|exact Hv]. unfold skip in Es. destruct (inFlight _ _ _ _) as [j|]; [|discriminate].
    destruct (j <=? i)%nat; [|discriminate]. apply list_elem_of_In, (nth_error_In _ _ Es).
  - destruct (uv_entries v !! _); [now apply IH|]. destruct (findInputs DoubleHash v txs h i ins) as [v1 n1] eqn:E1.
    intros [= <- _]. exact (IH _ _ _ Hv E1).
Qed.

Lemma findInputs_loop_keeps (P : UtxoViewpoint -> Prop) txs h rest :
  (forall v tx, tx ∈ txs -> P v -> P (AddTxOuts DoubleHash v tx h)) ->
  forall i v v' needed, P v -> findInputs_loop DoubleHash v txs h i rest = (v', needed) -> P v'.
Proof.
  intros Hadd. induction rest as [|tx rest IH]; intros i v v' needed Hv H; cbn [findInputs_loop] in H; [now injection H as <- _|].
  destruct (findInputs DoubleHash v txs h i (tx_TxIn tx)) as [v1 n1] eqn:E1.
  destruct (findInputs_loop DoubleHash v1 txs h (S i) rest) as [v2 n2] eqn:E2. injection H as <- _.
  exact (IH _ _ _ _ (findInputs_keeps P txs h i _ Hadd _ _ _ Hv E1) E2).
Qed.

(** The entries of a view stay while outputs are added. *)
Lemma addTxOuts_grows tx cb h outs : forall v i op, is_Some (uv_entries v !! op) ->
  is_Some (uv_entries (addTxOuts_loop DoubleHash v tx i outs cb h) !! op).
Proof.
  induction outs as [|o outs IH]; intros v i op H; [exact H|]. cbn [addTxOuts_loop]. apply IH. unfold addTxOut.
  destruct (IsUnspendable _); [exact H|]. cbn [put_entry set_entries uv_entries]. rewrite lookup_insert_is_Some'. now right.
Qed.

Lemma findInputs_grows txs h i ins v v' needed op : is_Some (uv_entries v !! op) ->
  findInputs DoubleHash v txs h i ins = (v', needed) -> is_Some (uv_entries v' !! op).
Proof.
  intros Hs. apply (findInputs_keeps (fun v => is_Some (uv_entries v !! op))); [|exact Hs].
  intros v0 tx _. apply addTxOuts_grows.
Qed.

Lemma findInputs_loop_grows txs h rest i v v' needed op : is_Some (uv_entries v !! op) ->
  findInputs_loop DoubleHash v txs h i rest = (v', needed) -> is_Some (uv_entries v' !! op).
Proof.
  intros Hs. apply (findInputs_loop_keeps (fun v => is_Some (uv_entries v !! op))); [|exact Hs].
  intros v0 tx _. apply addTxOuts_grows.
Qed.

(** What is to be fetched is an input the view did not know, and an input that
    is not an output of an earlier transaction is to be fetched or known. *)
Lemma findInputs_needed txs h i ins : forall v v' needed, findInputs DoubleHash v txs h i ins = (v', needed) ->
  (forall op, op ∈ needed -> op ∈ map ti_PreviousOutPoint ins /\ uv_entries v !! op = None) /\
  (forall op, op ∈ map ti_PreviousOutPoint ins -> op_Hash op ∉ map tid (firstn (S i) txs) -> op ∈ needed \/ is_Some (uv_entries v' !! op)).
Proof.
  induction ins as [|ti ins IH]; intros v v' needed H; cbn [findInputs map] in H |- *.
  { injection H as <- <-. split; intros op Hop; inversion Hop. }
  set (op0 := ti_PreviousOutPoint ti) in *. revert H.
  set (skip := match inFlight DoubleHash txs 0 (op_Hash op0) with Some j => _ | None => _ end).
  destruct skip as [o|] eqn:Es; [|destruct (uv_entries v !! op0) as [e|] eqn:Ee]; intros H.
  - destruct (IH _ _ _ H) as [H1 H2]. split.
    + intros op Hop. destruct (H1 op Hop) as [Hi Hn]. split; [now right|]. destruct (uv_entries v !! op) as [e|] eqn:E; [|reflexivity].
      exfalso. pose proof (addTxOuts_grows o (IsCoinBaseTx o) h (tx_TxOut o) v 0 op ltac:(now exists e)) as [x Hx].
      unfold AddTxOuts in Hn. congruence.
    + intros op Hop Hh. apply elem_of_cons in Hop. destruct Hop as [->|Hop]; [|auto]. exfalso. apply Hh.
      unfold skip in Es. destruct (inFlight _ txs 0 _) as [j|] eqn:Ej; [|discriminate].
      destruct (Nat.leb_spec j i) as [Hle|]; [|discriminate]. apply inFlight_spec in Ej. destruct Ej as (_ & tx & Hj & <-).
      rewrite Nat.sub_0_r, Es in Hj. injection Hj as <-. apply list_elem_of_In, in_map, list_elem_of_In. apply (firstn_elem _ j); [exact Es | lia].
  - destruct (IH _ _ _ H) as [H1 H2]. split.
    + intros op Hop. destruct (H1 op Hop). split; [now right | assumption].
    + intros op Hop Hh. apply elem_of_cons in Hop. destruct Hop as [->|Hop]; [|auto]. right.
      eapply findInputs_grows; [|exact H]. now exists e.
  - destruct (findInputs DoubleHash v txs h i ins) as [v1 n1] eqn:E1. injection H as <- <-. destruct (IH _ _ _ E1) as [H1 H2]. split.
    + intros op Hop. apply elem_of_cons in Hop. destruct Hop as [->|Hop]; [split; [apply list_elem_of_here | exact Ee]|].
      destruct (H1 op Hop). split; [now right | assumption].
    + intros op Hop Hh. apply elem_of_cons in Hop. destruct Hop as [->|Hop]; [left; apply list_elem_of_here|].
      destruct (H2 op Hop Hh); [left; now right | now right].
Qed.

Lemma findInputs_loop_needed txs h rest : forall i v v' needed, findInputs_loop DoubleHash v txs h i rest = (v', needed) ->
  (forall op, op ∈ needed -> (exists tx, tx ∈ rest /\ op ∈ spentBy tx) /\ uv_entries v !! op = None) /\
  (forall pre tx post op, rest = pre ++ tx :: post -> op ∈ spentBy tx ->
     op_Hash op ∉ map tid (firstn (S (i + List.length pre)) txs) -> op ∈ needed \/ is_Some (uv_entries v' !! op)).
Proof.
  induction rest as [|tx rest IH]; intros i v v' needed H; cbn [findInputs_loop] in H.
  { injection H as <- <-. split; [intros op Hop; inversion Hop | intros [|? ?]; discriminate]. }
  destruct (findInputs DoubleHash v txs h i (tx_TxIn tx)) as [v1 n1] eqn:E1.
  destruct (findInputs_loop DoubleHash v1 txs h (S i) rest) as [v2 n2] eqn:E2. injection H as <- <-.
  destruct (findInputs_needed _ _ _ _ _ _ _ E1) as [Hn1 Hf1]. destruct (IH (S i) v1 v2 n2 E2) as [Hn2 Hf2]. split.
  - intros op Hop. apply elem_of_app in Hop. destruct Hop as [Hop|Hop].
    + destruct (Hn1 op Hop) as [Hi Hn]. split; [|exact Hn]. exists tx. split; [apply list_elem_of_here | exact Hi].
    + destruct (Hn2 op Hop) as [(t & Ht & Ho) Hn]. split; [exists t; split; [now right | exact Ho]|].
      destruct (uv_entries v !! op) as [e|] eqn:E; [|reflexivity].
      destruct (findInputs_grows txs h i _ v v1 n1 op ltac:(now exists e) E1) as [x Hx]. congruence.
  - intros [|p pre] t post op E Hop Hh; cbn [app] in E; injection E as <- E.
    + cbn [List.length] in Hh. rewrite Nat.add_0_r in Hh. destruct (Hf1 op Hop Hh) as [Hk|Hk]; [left; apply elem_of_app; now left|].
      right. exact (findInputs_loop_grows _ _ _ _ _ _ _ _ Hk E2).
    + cbn [List.length] in Hh. rewrite Nat.add_succ_r in Hh. destruct (Hf2 pre t post op E Hop Hh) as [Hk|Hk]; [|now right].
      left. apply elem_of_app. now right.
Qed.
End Fetch.

(** ** Views that follow the set *)

(** An entry that is not marked as modified says what the set says. *)
Definition tracks (U : utxoSet) (v : UtxoViewpoint) : Prop :=
  forall op e, uv_entries v !! op = Some e -> outpoint_ok op /\
    match e with None => U !! op = None | Some e => isModified e = false -> live (Some e) = U !! op end.

Lemma tracks_new U : tracks U NewUtxoViewpoint.
Proof. intros op e H. cbn in H. now rewrite lookup_empty in H. Qed.

Lemma tracks_put U v op e : tracks U v -> outpoint_ok op -> isModified e = true -> tracks U (put_entry v op e).
Proof.
  intros Hv Ho Hm op' e'. cbn [put_entry set_entries uv_entries]. rewrite lookup_insert_Some. intros [[<- <-]|[_ H]]; [|now apply Hv].
  split; [exact Ho | congruence].
Qed.

(** Spending marks an entry, or leaves a spent one as it is. *)
Lemma tracks_spend U v op e : tracks U v -> outpoint_ok op -> LookupEntry v op = Some e -> tracks U (put_entry v op (Spend e)).
Proof.
  intros Hv Ho He. destruct (IsSpent e) eqn:Es.
  - unfold Spend. rewrite Es. intros op' e'. cbn [put_entry set_entries uv_entries]. rewrite lookup_insert_Some.
    intros [[<- <-]|[_ H]]; [|now apply Hv]. unfold LookupEntry in He. destruct (uv_entries v !! op) as [x|] eqn:Ex; [|discriminate].
    subst x. exact (Hv _ _ Ex).
  - apply tracks_put; [exact Hv | exact Ho | now apply Spend_flags].
Qed.

Lemma restoredEntry_modified s : isModified (restoredEntry s) = true.
Proof. rewrite isModified_bit. unfold restoredEntry. now destruct (st_IsCoinBase s). Qed.

Section Tracks.
Context (DoubleHash : list Z -> list Z).
Hypothesis hash_len : forall l, len (DoubleHash l) = 32.

Lemma outpointOf_ok tx i : outpoint_ok (outpointOf DoubleHash tx i).
Proof. split; [apply hash_len | apply Z.mod_pos_bound; reflexivity]. Qed.

Lemma tracks_addTxOuts U tx cb h outs : forall v i, tracks U v -> tracks U (addTxOuts_loop DoubleHash v tx i outs cb h).
Proof.
  induction outs as [|o outs IH]; intros v i Hv; [exact Hv|]. cbn [addTxOuts_loop]. apply IH. unfold addTxOut.
  destruct (IsUnspendable _); [exact Hv|]. apply tracks_put; [exact Hv | apply outpointOf_ok | apply freshEntry_flags].
Qed.

Lemma tracks_spendInputs U ins : forall v stxos v' stxos', Forall outpoint_ok (map ti_PreviousOutPoint ins) -> tracks U v ->
  spendInputs v ins stxos = Ok (v', stxos') -> tracks U v'.
Proof.
  induction ins as [|ti ins IH]; intros v stxos v' stxos' Ho Hv H; cbn [spendInputs map] in *; [now injection H as <- _|].
  apply Forall_cons in Ho. destruct Ho as [Ho1 Ho]. destruct (LookupEntry v _) as [e|] eqn:El; [|discriminate].
  apply IH in H; [exact H | exact Ho|]. now apply tracks_spend.
Qed.

Definition inputs_ok (tx : MsgTx) : Prop := IsCoinBaseTx tx = false -> Forall outpoint_ok (spentBy tx).

Lemma tracks_connect U h txs : forall v stxos v' stxos', Forall inputs_ok txs -> tracks U v ->
  connect_loop DoubleHash v txs h stxos = Ok (v', stxos') -> tracks U v'.
Proof.
  induction txs as [|tx txs IH]; intros v stxos v' stxos' Ho Hv H; cbn [connect_loop] in H; [now injection H as <- _|].
  apply Forall_cons in Ho. destruct Ho as [Ho1 Ho]. apply obind_Ok in H. destruct H as ([v1 s1] & H1 & H).
  apply (IH _ _ _ _ Ho) in H; [exact H|]. unfold connectTransaction in H1. destruct (IsCoinBaseTx tx) eqn:Ec.
  - injection H1 as <- _. now apply tracks_addTxOuts.
  - apply obind_Ok in H1. destruct H1 as ([v2 s2] & H2 & H1). injection H1 as <- _. apply tracks_addTxOuts.
    exact (tracks_spendInputs U _ _ _ _ _ (Ho1 Ec) Hv H2).
Qed.

Lemma tracks_unaddOuts U tx fl h outs : Z.testbit fl 1 = false -> forall v i, tracks U v ->
  tracks U (unaddOuts DoubleHash v tx i outs fl h).
Proof.
  intros Hfl. induction outs as [|o outs IH]; intros v i Hv; [exact Hv|]. cbn [unaddOuts]. apply IH.
  destruct (IsUnspendable _); [exact Hv|]. destruct (LookupEntry v _) as [e|] eqn:El.
  - apply tracks_spend; [exact Hv | apply outpointOf_ok | exact El].
  - apply tracks_put; [exact Hv | apply outpointOf_ok|]. apply Spend_flags. now rewrite IsSpent_bit.
Qed.

Lemma tracks_unspend dbByHash U hash ins : forall v ss v' ss', Forall outpoint_ok (map ti_PreviousOutPoint ins) -> tracks U v ->
  unspendIns dbByHash v hash ins ss = Ok (v', ss') -> tracks U v'.
Proof.
  induction ins as [|ti ins IH]; intros v ss v' ss' Ho Hv H; cbn [unspendIns map] in *; [now injection H as <- _|].
  apply Forall_cons in Ho. destruct Ho as [Ho1 Ho]. destruct ss as [|s ss]; [discriminate|].
  apply obind_Ok in H. destruct H as (s1 & _ & H). apply IH in H; [exact H | exact Ho|].
  assert (Hput : forall e, isModified e = true -> tracks U (put_entry (match LookupEntry v (ti_PreviousOutPoint ti) with
      | Some _ => v | None => put_entry v (ti_PreviousOutPoint ti) (mkUtxoEntry 0 [] 0 0) end) (ti_PreviousOutPoint ti) e)).
  { intros e He. destruct (LookupEntry v _); [now apply tracks_put|].
    replace (put_entry (put_entry v _ _) _ e) with (put_entry v (ti_PreviousOutPoint ti) e); [now apply tracks_put|].
    unfold put_entry, set_entries. cbn [uv_entries uv_bestHash]. now rewrite insert_insert_eq. }
  apply Hput, restoredEntry_modified.
Qed.

Lemma tracks_disconnect dbByHash U h rtxs : forall v ss v', Forall inputs_ok rtxs ->
  Forall (fun tx => IsCoinBaseTx tx = false) (removelast rtxs) -> tracks U v ->
  disconnect_loop DoubleHash dbByHash v rtxs h ss = Ok v' -> tracks U v'.
Proof.
  induction rtxs as [|tx rtxs IH]; intros v ss v' Ho Hc Hv H; cbn [disconnect_loop] in H; [now injection H as <-|].
  apply Forall_cons in Ho. destruct Ho as [Ho1 Ho]. destruct rtxs as [|tx2 rtxs].
  - injection H as <-. now apply tracks_unaddOuts.
  - apply obind_Ok in H. destruct H as ([v1 s1] & H1 & H).
    cbn [removelast] in Hc. apply Forall_cons in Hc. destruct Hc as [Hc1 Hc]. apply (IH v1 s1); [exact Ho | exact Hc | | exact H].
    revert H1. apply tracks_unspend; [|now apply tracks_unaddOuts]. rewrite map_rev. apply Forall_rev, Ho1, Hc1.
Qed.
End Tracks.

(** ** Writing a view *)

Section Write.
Context {PubKey : Type} (ParsePubKey : list Z -> option PubKey).
Context (iter : entryMap -> list (OutPoint * option UtxoEntry)).
Hypothesis iter_all : forall m, iter m ≡ₚ map_to_list m.

Lemma partial_alter_same (U : utxoSet) op c : U !! op = c -> partial_alter (fun _ => c) op U = U.
Proof.
  intros <-. apply map_eq. intros k. destruct (decide (op = k)) as [<-|Hne]; [apply lookup_partial_alter_eq | now apply lookup_partial_alter_ne].
Qed.

Lemma putViewEntry_spec db U op e : db_rep ParsePubKey db U -> outpoint_ok op ->
  match e with None => U !! op = None | Some e => isModified e = false -> live (Some e) = U !! op end ->
  (forall c, live e = Some c -> coin_ok c) ->
  exists db', putViewEntry ParsePubKey db (op, e) = Ok db' /\ db_rep ParsePubKey db' (writeCoin U (op, e)).
Proof.
  intros Hdb Ho He Hc. unfold putViewEntry, writeCoin, dbDeleteUtxoEntry, dbPutUtxoEntry. cbn [fst snd].
  destruct e as [e|]; [|exists db; split; [reflexivity|]; now rewrite (partial_alter_same U op (live None) He)].
  destruct (isModified e); cbn [negb]; [|exists db; split; [reflexivity|]; now rewrite (partial_alter_same U op _ (eq_sym (He eq_refl)))].
  rewrite (keyOf_eq op Ho). cbn [lift_derr obind live] in *. destruct (IsSpent e) eqn:Es.
  - eexists. split; [reflexivity|]. now apply db_rep_delete.
  - specialize (Hc _ eq_refl). rewrite (serialize_entry ParsePubKey) by (exact Hc || exact Es). cbn [obind].
    eexists. split; [reflexivity|]. rewrite entryBytes_coinOf. now apply db_rep_insert.
Qed.

Lemma putView_all l : forall db U, db_rep ParsePubKey db U -> NoDup (map fst l) ->
  Forall (fun p : OutPoint * option UtxoEntry => outpoint_ok (fst p) /\
    match snd p with None => U !! fst p = None | Some e => isModified e = false -> live (Some e) = U !! fst p end /\
    (forall c, live (snd p) = Some c -> coin_ok c)) l ->
  exists db', fold_ok (putViewEntry ParsePubKey) db l = Ok db' /\ db_rep ParsePubKey db' (fold_left writeCoin l U).
Proof.
  induction l as [|[op e] l IH]; intros db U Hdb Hd Hl; cbn [fold_ok fold_left]; [now exists db|].
  cbn [map fst] in Hd. apply NoDup_cons in Hd. destruct Hd as [Hn Hd].
  apply Forall_cons in Hl. destruct Hl as [(Ho & He & Hc) Hl]. cbn [fst snd] in *.
  destruct (putViewEntry_spec db U op e Hdb Ho He Hc) as (db1 & -> & Hdb1). cbn [obind]. apply (IH _ _ Hdb1 Hd).
  rewrite Forall_forall in Hl |- *. intros p Hp. destruct (Hl p Hp) as (Hop & Hep & Hcp). split; [exact Hop|]. split; [|exact Hcp].
  rewrite lookup_writeCoin_ne; [exact Hep|]. cbn [fst]. intros ->. apply Hn. apply list_elem_of_In, in_map, list_elem_of_In, Hp.
Qed.

(** Writing a view that follows the set of the database leaves the set the view
    stands for in the database. *)
Lemma dbPutUtxoView_spec db U v : db_rep ParsePubKey db U -> tracks U v ->
  (forall op c, abs U v !! op = Some c -> coin_ok c) ->
  exists db', dbPutUtxoView ParsePubKey iter db (Some v) = Ok db' /\ db_rep ParsePubKey db' (abs U v).
Proof.
  intros Hdb Hv Hc. unfold dbPutUtxoView.
  assert (Hi : forall op e, (op, e) ∈ iter (uv_entries v) <-> uv_entries v !! op = Some e).
  { intros op e. rewrite (iter_all (uv_entries v)). apply elem_of_map_to_list. }
  assert (Hnd : NoDup (map fst (iter (uv_entries v)))) by (rewrite (iter_all (uv_entries v)); apply NoDup_fst_map_to_list).
  destruct (putView_all (iter (uv_entries v)) db U Hdb Hnd) as (db' & E & Hdb').
  { apply Forall_forall. intros [op e] Hp. apply Hi in Hp. cbn [fst snd]. destruct (Hv op e Hp) as [Ho He]. split; [exact Ho|].
    split; [exact He|]. intros c Hl. apply (Hc op). now rewrite lookup_abs, Hp. }
  exists db'. split; [exact E|]. replace (abs U v) with (fold_left writeCoin (iter (uv_entries v)) U); [exact Hdb'|].
  apply map_eq. intros op. rewrite lookup_abs. destruct (lookup_write_all (iter (uv_entries v)) U op Hnd) as [H1 H2].
  destruct (uv_entries v !! op) as [e|] eqn:Ee; [now apply H1, Hi|]. apply H2. intros Hop.
  apply list_elem_of_In, in_map_iff in Hop. destruct Hop as ([k e] & E' & Hk). cbn [fst] in E'. subst k.
  apply list_elem_of_In, Hi in Hk. congruence.
Qed.

(** After the commit, the view says what the new set says. *)
Lemma live_toggle e : live (Some (with_flags e (Z.lxor (ue_packedFlags e) tfModified))) = live (Some e).
Proof.
  cbn [live]. rewrite !IsSpent_bit. unfold coinOf. rewrite !IsCoinBase_bit. cbn [with_flags ue_packedFlags ue_amount ue_pkScript ue_blockHeight].
  rewrite !Z.lxor_spec. change (Z.testbit tfModified 1) with false. change (Z.testbit tfModified 0) with false. now rewrite !xorb_false_r.
Qed.

Lemma commit_tracks U v : tracks U v -> tracks (abs U v) (commit v) /\ abs (abs U v) (commit v) = abs U v.
Proof.
  intros Hv.
  assert (Hl : forall op e, uv_entries (commit v) !! op = Some e -> outpoint_ok op /\ live e = abs U v !! op /\ e <> None).
  { intros op e. cbn [commit set_entries uv_entries]. rewrite lookup_omap, lookup_abs. destruct (uv_entries v !! op) as [[x|]|] eqn:Ex; try discriminate.
    cbn. destruct (isModified x && IsSpent x); [discriminate|]. intros [= <-]. split; [exact (proj1 (Hv _ _ Ex))|]. split; [apply live_toggle | discriminate]. }
  split.
  - intros op e He. destruct (Hl op e He) as (Ho & E & Hne). split; [exact Ho|]. destruct e as [e|]; [now intros _ | congruence].
  - apply map_eq. intros op. rewrite lookup_abs. destruct (uv_entries (commit v) !! op) as [e|] eqn:He; [|reflexivity]. apply (Hl op e He).
Qed.
End Write.

(** ** Fetching *)

Section Sync.
Context {PubKey : Type} (ParsePubKey : list Z -> option PubKey)
        (SerializeUncompressed : PubKey -> list Z).
Context (CalculateRoughMapSize : Z -> Z -> Z) (CalculateMinEntries : Z -> Z -> Z).
Context (DoubleHash : list Z -> list Z).
Hypothesis forms : pubkey_forms ParsePubKey SerializeUncompressed.
Hypothesis hash_len : forall l, len (DoubleHash l) = 32.
Abbreviation tid := (txHash DoubleHash).
Abbreviation inv := (cinv ParsePubKey).
Abbreviation keys h tx := (map fst (createdBy DoubleHash h tx)).
Abbreviation fetchInputs :=
  (fetchInputUtxos ParsePubKey SerializeUncompressed CalculateRoughMapSize CalculateMinEntries DoubleHash).

(** Entries that are fetched say what the set says. *)
Lemma fetchFromCache_sync D db s v needed : inv D db s -> Forall outpoint_ok needed ->
  exists v' s', fetchUtxosFromCache ParsePubKey SerializeUncompressed CalculateRoughMapSize CalculateMinEntries v s db needed = Ok (v', s') /\
    inv D db s' /\ cabs D s' = cabs D s /\ (tracks (cabs D s) v -> tracks (cabs D s) v') /\
    (forall op, op ∈ needed -> is_Some (uv_entries v' !! op)) /\
    (forall op, is_Some (uv_entries v !! op) -> is_Some (uv_entries v' !! op)) /\
    (forall op, (op ∈ needed -> uv_entries v !! op = None) -> abs (cabs D s) v' !! op = abs (cabs D s) v !! op).
Proof.
  intros Hi Hn.
  assert (He : exists v' s', fetchUtxosFromCache ParsePubKey SerializeUncompressed CalculateRoughMapSize CalculateMinEntries v s db needed = Ok (v', s')).
  { unfold fetchUtxosFromCache. destruct (len needed =? 0); [eauto|].
    destruct (fetchEntries_spec ParsePubKey SerializeUncompressed CalculateRoughMapSize CalculateMinEntries map_to_list forms
      (fun m => Permutation_refl _) D db s needed Hi Hn) as (s1 & -> & _). cbn [obind]. eauto. }
  destruct He as (v' & s' & E). exists v', s'. split; [exact E|].
  destruct (fetchUtxos_lookup ParsePubKey SerializeUncompressed CalculateRoughMapSize CalculateMinEntries forms D db s v needed v' s' Hi Hn E)
    as (Hi' & Ha & Hl). split; [exact Hi'|]. split; [exact Ha|]. split; [|split; [|split]].
  - intros Hv op e. rewrite Hl. case_decide as Hd; [|apply Hv]. intros [= <-]. rewrite Forall_forall in Hn. split; [now apply Hn|].
    pose proof (live_entryFor D s op) as Hlv. destruct (entryFor D s op); [now intros _ | now symmetry].
  - intros op Hop. rewrite Hl, decide_True by exact Hop. eauto.
  - intros op Hop. rewrite Hl. case_decide; [eauto | exact Hop].
  - intros op Hop. rewrite !lookup_abs, Hl. case_decide as Hd; [|reflexivity]. now rewrite (Hop Hd), live_entryFor.
Qed.
(** A view that has loaded the inputs of a block: outside the outputs of the
    block it stands for the same set, and it knows every input that is not an
    output of an earlier transaction of the block. *)
Record loaded (U : utxoSet) (h : Z) (cb : MsgTx) (rest : list MsgTx) (v v' : UtxoViewpoint) : Prop := {
  ld_tracks : tracks U v -> tracks U v';
  ld_agree : forall k, Forall (fun tx => k ∉ keys h tx) (cb :: rest) -> abs U v' !! k = abs U v !! k;
  ld_known : forall pre tx post op, rest = pre ++ tx :: post -> op ∈ spentBy tx ->
    op_Hash op ∉ map tid (cb :: pre) -> is_Some (uv_entries v' !! op)
}.

Lemma fetchInputs_sync D db s v b cb rest : inv D db s -> Transactions b = cb :: rest -> Forall (fun tx => Forall outpoint_ok (spentBy tx)) rest ->
  exists v' s', fetchInputs v s db b = Ok (v', s') /\ inv D db s' /\ cabs D s' = cabs D s /\
    loaded (cabs D s) (blk_height b) cb rest v v'.
Proof.
  intros Hi Et Ho. unfold fetchInputUtxos, findInputsToFetch. rewrite Et, slice_from_one. cbn [obind].
  destruct (findInputs_loop DoubleHash v (cb :: rest) (blk_height b) 0 rest) as [v1 needed] eqn:El.
  destruct (findInputs_loop_needed DoubleHash _ _ _ _ _ _ _ El) as [Hn Hf].
  assert (Hnok : Forall outpoint_ok needed).
  { apply Forall_forall. intros op Hop. destruct (Hn op Hop) as [(tx & Ht & Hs) _]. rewrite Forall_forall in Ho.
    specialize (Ho tx Ht). rewrite Forall_forall in Ho. now apply Ho. }
  assert (Hkeep : forall P : UtxoViewpoint -> Prop,
      (forall v tx, tx ∈ cb :: rest -> P v -> P (AddTxOuts DoubleHash v tx (blk_height b))) -> P v -> P v1).
  { intros P Hadd Hv. exact (findInputs_loop_keeps DoubleHash P _ _ _ Hadd _ _ _ _ Hv El). }
  destruct (fetchFromCache_sync D db s v1 needed Hi Hnok) as (v' & s' & E & Hi' & Ha & Htr & Hneed & Hgrow & Hag).
  exists v', s'. split; [exact E|]. split; [exact Hi'|]. split; [exact Ha|]. split.
  - intros Hv. apply Htr. apply Hkeep; [|exact Hv]. intros v0 tx _. now apply tracks_addTxOuts.
  - intros k Hk. destruct (decide (k ∈ needed)) as [Hd|Hd].
    + destruct (uv_entries v1 !! k) as [e|] eqn:E1.
      * exfalso. enough (Hx : forall x, uv_entries v1 !! k = Some x -> uv_entries v !! k = Some x).
        { rewrite (proj2 (Hn k Hd)) in Hx. specialize (Hx _ E1). discriminate. }
        apply (Hkeep (fun v1 => forall x, uv_entries v1 !! k = Some x -> uv_entries v !! k = Some x)); [|auto].
        intros v0 tx Ht IH x Hx. apply addTxOuts_keys in Hx. destruct Hx as [Hx|Hx]; [now apply IH|].
        rewrite Forall_forall in Hk. destruct (Hk tx Ht Hx).
      * rewrite Hag by (intros _; exact E1). rewrite !lookup_abs, E1. now rewrite (proj2 (Hn k Hd)).
    + rewrite Hag by tauto. apply (Hkeep (fun v1 => abs (cabs D s) v1 !! k = abs (cabs D s) v !! k)); [|reflexivity].
      intros v0 tx Ht IH. rewrite AddTxOuts_abs, lookup_addCoins_ne; [exact IH|]. rewrite Forall_forall in Hk. now apply Hk.
  - intros pre tx post op E' Hop Hh. destruct (Hf pre tx post op E' Hop) as [H|H]; [|now apply Hneed | now apply Hgrow].
    rewrite E'. cbn [firstn Nat.add]. rewrite firstn_app, Nat.sub_diag, firstn_all. cbn [firstn]. now rewrite app_nil_r.
Qed.

(** The check of BIP 30 loads what the set says of the outputs of the block. *)
Lemma fetchUtxos_sync D db s v ops : inv D db s -> Forall outpoint_ok ops ->
  exists v' s', fetchUtxos ParsePubKey SerializeUncompressed CalculateRoughMapSize CalculateMinEntries v s db ops = Ok (v', s') /\
    inv D db s' /\ cabs D s' = cabs D s /\ abs (cabs D s) v' = abs (cabs D s) v.
Proof.
  intros Hi Ho. unfold fetchUtxos. destruct (len ops =? 0); [exists v, s; auto|]. set (needed := List.filter _ ops).
  assert (Hn : forall op, op ∈ needed -> op ∈ ops /\ uv_entries v !! op = None).
  { intros op Hop. unfold needed in Hop. apply list_elem_of_In, filter_In in Hop. rewrite list_elem_of_In.
    destruct (uv_entries v !! op); intuition congruence. }
  destruct (fetchFromCache_sync D db s v needed Hi) as (v' & s' & E & Hi' & Ha & _ & _ & _ & Hag).
  { apply Forall_forall. intros op Hop. rewrite Forall_forall in Ho. apply Ho, Hn, Hop. }
  exists v', s'. split; [exact E|]. split; [exact Hi'|]. split; [exact Ha|]. apply map_eq. intros op. apply Hag. intros Hop. apply Hn, Hop.
Qed.

Lemma blockOutpoints_ok b : Forall outpoint_ok (blockOutpoints DoubleHash b).
Proof.
  apply Forall_forall. intros op Hop. unfold blockOutpoints in Hop. apply list_elem_of_In, in_flat_map in Hop. destruct Hop as (tx & _ & Hop).
  apply in_map_iff in Hop. destruct Hop as (i & <- & _). now apply outpointOf_ok.
Qed.
End Sync.

(** ** Connecting *)

Lemma spendInputs_ok ins : forall v stxos cs, NoDup (map ti_PreviousOutPoint ins) ->
  Forall2 (fun op c => exists e, uv_entries v !! op = Some e /\ live e = Some c) (map ti_PreviousOutPoint ins) cs ->
  exists v', spendInputs v ins stxos = Ok (v', append_coins stxos cs) /\
    forall op, is_Some (uv_entries v !! op) -> is_Some (uv_entries v' !! op).
Proof.
  induction ins as [|ti ins IH]; intros v stxos cs Hd Hc; cbn [map spendInputs] in *.
  - apply Forall2_nil_inv_l in Hc. subst cs. exists v. split; [destruct stxos; cbn; now rewrite ?app_nil_r | auto].
  - apply Forall2_cons_inv_l in Hc. destruct Hc as (c & cs' & (e & He & Hl) & Hcs & ->). apply NoDup_cons in Hd. destruct Hd as [Hn Hd].
    unfold LookupEntry. rewrite He. destruct e as [e|]; [|discriminate]. cbn [live] in Hl. destruct (IsSpent e); [discriminate|]. injection Hl as <-.
    destruct (IH (put_entry v (ti_PreviousOutPoint ti) (Spend e)) (append_stxo stxos e) cs' Hd) as (v' & E & Hg).
    { clear -Hcs Hn. cbn [put_entry set_entries uv_entries]. induction Hcs as [|op c l l' (e' & He' & Hl') Hcs IH]; constructor.
      - exists e'. split; [|exact Hl']. rewrite lookup_insert_ne; [exact He'|]. intros <-. apply Hn, list_elem_of_here.
      - apply IH. intros H. apply Hn. now right. }
    exists v'. rewrite E. split; [destruct stxos; cbn [append_stxo append_coins option_map map]; [now rewrite <- app_assoc | reflexivity]|].
    intros op Hop. apply Hg. cbn [put_entry set_entries uv_entries]. rewrite lookup_insert_is_Some'. now right.
Qed.

Section Connecting.
Context (DoubleHash : list Z -> list Z).
Abbreviation tid := (txHash DoubleHash).
Abbreviation keys h tx := (map fst (createdBy DoubleHash h tx)).

(** Over the set [U0], the view stands for [U] but for the outputs of the
    transactions that are still to come. *)
Record sees (U0 : utxoSet) (h : Z) (v : UtxoViewpoint) (U : utxoSet) (rest : list MsgTx) : Prop := {
  se_agree : forall k, Forall (fun tx => k ∉ keys h tx) rest -> abs U0 v !! k = U !! k;
  se_fresh : forall k, op_Hash k ∈ map tid rest -> U !! k = None;
  se_ordered : ordered DoubleHash rest
}.

Lemma ordered_tail tx rest : ordered DoubleHash (tx :: rest) -> ordered DoubleHash rest.
Proof. intros H pre t post op -> Hc Hop. exact (H (tx :: pre) t post op eq_refl Hc Hop). Qed.

(** An input is not an output of the transactions that are still to come. *)
Lemma ordered_input h tx rest op : ordered DoubleHash (tx :: rest) -> IsCoinBaseTx tx = false -> op ∈ spentBy tx ->
  Forall (fun t => op ∉ keys h t) (tx :: rest).
Proof.
  intros Ho Hc Hop. apply Forall_forall. intros t Ht Hk. apply createdBy_hash in Hk.
  apply (Ho [] tx rest op eq_refl Hc Hop). rewrite Hk. apply list_elem_of_In, in_map, list_elem_of_In, Ht.
Qed.

(** Sets that agree but for the outputs of transactions agree after them. *)
Lemma applyTx_agree h A U tx k : (k ∉ keys h tx -> A !! k = U !! k) -> applyTx DoubleHash h A tx !! k = applyTx DoubleHash h U tx !! k.
Proof.
  intros H. destruct (decide (k ∈ keys h tx)) as [Hi|Hi]; [unfold applyTx; now apply lookup_addCoins_key|]. now apply lookup_applyTx_agree, H.
Qed.

Lemma applyTxs_agree h txs : forall A U, (forall k, Forall (fun tx => k ∉ keys h tx) txs -> A !! k = U !! k) ->
  fold_left (applyTx DoubleHash h) txs A = fold_left (applyTx DoubleHash h) txs U.
Proof.
  induction txs as [|tx txs IH]; intros A U H; cbn [fold_left]; [apply map_eq; intros k; now apply H|].
  apply IH. intros k Hk. apply applyTx_agree. intros Hi. apply H. now constructor.
Qed.

Lemma sees_applyTx U0 h v U tx rest v' : NoDup (map tid (tx :: rest)) -> sees U0 h v U (tx :: rest) ->
  abs U0 v' = applyTx DoubleHash h (abs U0 v) tx -> sees U0 h v' (applyTx DoubleHash h U tx) rest.
Proof.
  intros Hd Hs Ha. cbn [map] in Hd. apply NoDup_cons in Hd. destruct Hd as [Hn _]. split.
  - intros k Hk. rewrite Ha. apply applyTx_agree. intros Hi. apply (se_agree _ _ _ _ _ Hs). now constructor.
  - intros k Hk. apply lookup_applyTx_none; [|apply (se_fresh _ _ _ _ _ Hs); now right].
    intros Hc. apply createdBy_hash in Hc. rewrite Hc in Hk. contradiction.
  - exact (ordered_tail _ _ (se_ordered _ _ _ _ _ Hs)).
Qed.

Lemma sees_together U0 h : together DoubleHash h (sees U0 h).
Proof.
  split.
  - intros v U tx rest op Hs Hc Hop [c E]. rewrite <- (se_agree _ _ _ _ _ Hs op).
    + rewrite lookup_abs in E |- *. rewrite lookup_abs. now destruct (uv_entries v !! op).
    + exact (ordered_input h tx rest op (se_ordered _ _ _ _ _ Hs) Hc Hop).
  - intros v U tx rest stxos v' stxos' Hd Hs E. apply (sees_applyTx U0 h v U tx rest v' Hd Hs).
    exact (connectTransaction_abs DoubleHash U0 _ _ _ _ _ _ E).
Qed.

(** The inputs that exist are in the view once their transactions are through. *)
Definition knows (v : UtxoViewpoint) (U : utxoSet) (rest : list MsgTx) : Prop :=
  forall tx op, tx ∈ rest -> IsCoinBaseTx tx = false -> op ∈ spentBy tx -> op_Hash op ∉ map tid rest ->
    is_Some (U !! op) -> is_Some (uv_entries v !! op).

Lemma addTxOuts_has tx cb h outs : forall v i op, op ∈ map fst (newCoins (tid tx) i outs h cb) ->
  is_Some (uv_entries (addTxOuts_loop DoubleHash v tx i outs cb h) !! op).
Proof.
  induction outs as [|o outs IH]; intros v i op H; cbn [newCoins addTxOuts_loop] in *; [inversion H|].
  rewrite map_app, elem_of_app in H. destruct H as [H|H]; [|now apply IH]. apply addTxOuts_grows. unfold addTxOut.
  destruct (IsUnspendable _); [inversion H|]. apply list_elem_of_singleton in H. cbn [fst] in H. subst op.
  cbn [put_entry set_entries uv_entries]. change (mkOutPoint (tid tx) (u32 (Z.of_nat i))) with (outpointOf DoubleHash tx i).
  rewrite lookup_insert_eq. eauto.
Qed.

Lemma connectTransaction_ok U0 h K v U tx rest stxos : NoDup (map tid (tx :: rest)) -> sees U0 h v U (tx :: rest) -> knows v U (tx :: rest) ->
  tx_sound DoubleHash h K U tx ->
  exists v', connectTransaction DoubleHash v tx h stxos = Ok (v', append_coins stxos (spentCoins U tx)) /\
    knows v' (applyTx DoubleHash h U tx) rest.
Proof.
  intros Hd Hs Hk (_ & _ & _ & Hin & _). unfold connectTransaction, spentCoins.
  assert (Hknows : forall v1, (forall op, is_Some (uv_entries v !! op) -> is_Some (uv_entries v1 !! op)) ->
      knows (AddTxOuts DoubleHash v1 tx h) (applyTx DoubleHash h U tx) rest).
  { intros v1 Hg t op Ht Hc Hop Hh HU. destruct (decide (op ∈ keys h tx)) as [Hi|Hi]; [exact (addTxOuts_has _ _ _ _ _ _ _ Hi)|].
    assert (HU' : is_Some (U !! op)).
    { rewrite lookup_applyTx_other in HU by exact Hi. destruct (IsCoinBaseTx tx); [exact HU|]. case_decide; [destruct HU; discriminate | exact HU]. }
    apply addTxOuts_grows, Hg, (Hk t op); [now right | exact Hc | exact Hop | | exact HU']. intros Hm. cbn [map] in Hm.
    apply elem_of_cons in Hm. destruct Hm as [E|Hm]; [|contradiction].
    rewrite (se_fresh _ _ _ _ _ Hs op) in HU' by (rewrite E; apply list_elem_of_here). destruct HU'. discriminate. }
  destruct (IsCoinBaseTx tx) eqn:Ec.
  - eexists. split; [destruct stxos; cbn; now rewrite ?app_nil_r|]. now apply Hknows.
  - destruct (Hin eq_refl) as (_ & Hnd & Hex).
    destruct (spendInputs_ok (tx_TxIn tx) v stxos (omap (fun op => U !! op) (spentBy tx)) Hnd) as (v1 & -> & Hg).
    + fold (spentBy tx). assert (Hall : forall op, op ∈ spentBy tx -> exists e, uv_entries v !! op = Some e /\ live e = U !! op).
      { intros op Hop. rewrite Forall_forall in Hex. destruct (Hk tx op (list_elem_of_here _ _) Ec Hop) as [e He]; [|now apply Hex|].
        - exact (se_ordered _ _ _ _ _ Hs [] tx rest op eq_refl Ec Hop).
        - exists e. split; [exact He|]. rewrite <- (se_agree _ _ _ _ _ Hs op (ordered_input h tx rest op (se_ordered _ _ _ _ _ Hs) Ec Hop)).
          now rewrite lookup_abs, He. }
      clear -Hex Hall. induction Hex as [|op l [c Hc] _ IH]; [constructor|]. cbn. rewrite Hc. constructor.
      * destruct (Hall op (list_elem_of_here _ _)) as (e & He & Hl). exists e. now rewrite <- Hc.
      * apply IH. intros op' Hop'. apply Hall. now right.
    + cbn [obind]. eexists. split; [reflexivity|]. now apply Hknows.
Qed.

(** A view that has loaded the inputs of a valid block connects it. *)
Lemma connect_loop_ok U0 h txs : forall K v U stxos, NoDup (map tid txs) -> sees U0 h v U txs -> knows v U txs ->
  txs_sound DoubleHash h K U txs ->
  exists v', connect_loop DoubleHash v txs h stxos = Ok (v', append_coins stxos (blockSpent DoubleHash h U txs)) /\
    abs U0 v' = fold_left (applyTx DoubleHash h) txs U.
Proof.
  induction txs as [|tx txs IH]; intros K v U stxos Hd Hs Hk Hv; cbn [connect_loop blockSpent fold_left].
  - exists v. split; [destruct stxos; cbn; now rewrite ?app_nil_r|]. apply map_eq. intros k. now apply (se_agree _ _ _ _ _ Hs).
  - destruct Hv as [Hv1 Hv]. destruct (connectTransaction_ok U0 h K v U tx txs stxos Hd Hs Hk Hv1) as (v1 & E & Hk1). rewrite E. cbn [obind].
    pose proof (sees_applyTx U0 h v U tx txs v1 Hd Hs (connectTransaction_abs DoubleHash U0 _ _ _ _ _ _ E)) as Hs1.
    rewrite <- append_coins_app. apply (IH (K ∪ createdKeys DoubleHash h tx)); auto. now apply NoDup_cons in Hd.
Qed.
End Connecting.

(** ** Blocks *)

(** What a coin of a chain is: well formed, and from a block after the first. *)
Definition coins_ok (U : utxoSet) : Prop :=
  forall op c, U !! op = Some c -> outpoint_ok op /\ coin_ok c /\ 0 < c_height c /\ len (c_script c) <= MaxBlockBaseSize.

Section Blocks.
Context {PubKey : Type} (ParsePubKey : list Z -> option PubKey)
        (SerializeUncompressed : PubKey -> list Z).
Context (CalculateRoughMapSize : Z -> Z -> Z) (CalculateMinEntries : Z -> Z -> Z).
Context (DoubleHash : list Z -> list Z) (params : RuleParams).
Hypothesis forms : pubkey_forms ParsePubKey SerializeUncompressed.
Hypothesis hash_len : forall l, len (DoubleHash l) = 32.
Abbreviation tid := (txHash DoubleHash).
Abbreviation inv := (cinv ParsePubKey).
Abbreviation keys h tx := (map fst (createdBy DoubleHash h tx)).
Abbreviation fetchInputs :=
  (fetchInputUtxos ParsePubKey SerializeUncompressed CalculateRoughMapSize CalculateMinEntries DoubleHash).

(** What holds of a block without regard to the set: what checkBlockSanity
    checks of transactions, the outpoints of decoded transactions, and that no
    transaction spends a later one. *)
Record block_form (b : Block) : Prop := {
  bf_shape : exists cb rest, Transactions b = cb :: rest /\ IsCoinBaseTx cb = true /\ Forall (fun tx => IsCoinBaseTx tx = false) rest;
  bf_size : mb_SerializeSizeStripped (blk_msg b) <= MaxBlockBaseSize;
  bf_sane : Forall tx_sane (Transactions b);
  bf_distinct : NoDup (map tid (Transactions b));
  bf_inputs : Forall (fun tx => Forall outpoint_ok (spentBy tx)) (tl (Transactions b));
  bf_ordered : ordered DoubleHash (Transactions b);
  bf_height : 0 < blk_height b < 2 ^ 31
}.

(** The transactions are valid steps of the ledger, and the coinbase pays at
    most the subsidy and the fees. *)
Definition block_valid (U : utxoSet) (b : Block) : Prop :=
  exists cb rest fees, Transactions b = cb :: rest /\
    txs_pay DoubleHash params (blk_height b) (applyTx DoubleHash (blk_height b) U cb) rest fees /\
    totalOut (tx_TxOut cb) <= CalcBlockSubsidy (blk_height b) params + fees.

Abbreviation new_in U b := (apart DoubleHash (dom U) (Transactions b)).

Lemma valid_sound K U b : block_form b -> block_valid U b -> apart DoubleHash K (Transactions b) ->
  txs_sound DoubleHash (blk_height b) K U (Transactions b).
Proof.
  intros [(cb & rest & Et & Hc & Hcr) _ Hs Hd Hin _ Hh] (cb' & rest' & fees & Et' & Hp & _) Hap. rewrite Et in *. injection Et' as <- <-.
  apply (pays_sound DoubleHash params hash_len _ K U cb rest fees); auto. lia.
Qed.

Lemma block_inputs_ok b : block_form b -> Forall inputs_ok (Transactions b).
Proof.
  intros [(cb & rest & Et & Hc & Hcr) _ _ _ Hin _ _]. rewrite Et in *. constructor; [intros H; congruence|].
  eapply Forall_impl; [exact Hin|]. intros tx H _. exact H.
Qed.

(** ** The coins of a ledger *)

Lemma coins_ok_applyTx h K U tx : 0 < h -> tx_sane tx -> tx_sound DoubleHash h K U tx -> coins_ok U -> coins_ok (applyTx DoubleHash h U tx).
Proof.
  intros Hpos Hs (Hh & Hr & Ho & _) HU op c. unfold applyTx.
  assert (HU' : coins_ok (if IsCoinBaseTx tx then U else delCoins U (spentBy tx))).
  { destruct (IsCoinBaseTx tx); [exact HU|]. intros k d. rewrite lookup_delCoins. case_decide; [discriminate | apply HU]. }
  assert (Hl : Forall (fun o => len (to_PkScript o) <= MaxBlockBaseSize) (tx_TxOut tx)).
  { apply Forall_forall. intros o Hin. pose proof (size_scripts tx o Hin). pose proof (ts_size tx Hs). lia. }
  revert HU'. generalize (if IsCoinBaseTx tx then U else delCoins U (spentBy tx)). unfold createdBy. generalize 0%nat.
  induction Ho as [|o outs Ho _ IH]; intros i V HV H; cbn [newCoins] in H; [exact (HV _ _ H)|]. apply Forall_cons in Hl. destruct Hl as [Hl1 Hl].
  specialize (IH Hl). destruct (IsUnspendable _); [exact (IH _ _ HV H)|]. cbn [app] in H.
  apply (IH (S i) (<[mkOutPoint (tid tx) (u32 (Z.of_nat i)) := coinOfOut o h (IsCoinBaseTx tx)]> V)); [|exact H].
  intros k d Hk. apply lookup_insert_Some in Hk. destruct Hk as [[<- <-]|[_ Hk]]; [|exact (HV _ _ Hk)].
  split; [now apply (outpointOf_ok DoubleHash hash_len tx i)|]. split; [split; [exact Ho | exact Hr] | split; [exact Hpos | exact Hl1]].
Qed.

Lemma coins_ok_txs h txs : 0 < h -> Forall tx_sane txs -> forall K U, txs_sound DoubleHash h K U txs -> coins_ok U ->
  coins_ok (fold_left (applyTx DoubleHash h) txs U).
Proof.
  intros Hpos. induction 1 as [|tx txs H0 _ IH]; intros K U Hs HU; [exact HU|]. destruct Hs as [H1 Hs]. cbn [fold_left].
  apply (IH (K ∪ createdKeys DoubleHash h tx)); [exact Hs|]. now apply (coins_ok_applyTx h K).
Qed.

Lemma sound_fits h txs : 0 < h -> Forall tx_sane txs -> forall K U, dom U ⊆ K -> txs_sound DoubleHash h K U txs -> coins_ok U ->
  fits DoubleHash h U txs.
Proof.
  intros Hpos. induction 1 as [|tx txs H0 _ IH]; intros K U HK Hs HU; [exact I|]. destruct Hs as [H1 Hs]. split.
  - destruct H1 as (_ & _ & _ & Hin & Hnew). unfold tx_fits, fresh_in, spends_ok.
    assert (Hf : forall k, k ∈ keys h tx -> U !! k = None) by (intros k Hk; apply not_elem_of_dom; intros H; exact (Hnew k Hk (HK k H))).
    destruct (IsCoinBaseTx tx); [exact Hf|]. destruct (Hin eq_refl) as (_ & Hd & Hex). split; [split; [exact Hd|]|].
    + eapply Forall_impl; [exact Hex|]. intros op [c Hc]. exists c. split; [exact Hc|]. destruct (HU _ _ Hc) as (_ & _ & H & _). lia.
    + intros k Hk. rewrite lookup_delCoins. case_decide; [reflexivity | now apply Hf].
  - apply (IH (K ∪ createdKeys DoubleHash h tx)); [|exact Hs | now apply (coins_ok_applyTx h K)].
    pose proof (dom_applyTx DoubleHash h U tx). set_solver.
Qed.

Lemma coins_ok_block U b : block_form b -> block_valid U b -> new_in U b -> coins_ok U -> coins_ok (applyBlock DoubleHash U b).
Proof.
  intros Hb Hv Hn HU. apply (coins_ok_txs _ _ ltac:(apply Hb) (bf_sane _ Hb) (dom U)); [|exact HU]. now apply valid_sound.
Qed.

(** ** The spent outputs of a block *)

Lemma spentCoins_len h K U tx : IsCoinBaseTx tx = false -> tx_sound DoubleHash h K U tx -> len (spentCoins U tx) = len (tx_TxIn tx).
Proof.
  intros Hc (_ & _ & _ & Hin & _). destruct (Hin Hc) as (_ & _ & Hex). clear Hin. unfold spentCoins, spentBy in *. rewrite Hc.
  induction (tx_TxIn tx) as [|ti ins IH]; [reflexivity|]. cbn [map] in *. apply Forall_cons in Hex. destruct Hex as [[c Hx] Hex].
  cbn. rewrite Hx, !len_cons. now rewrite <- (IH Hex).
Qed.

Lemma blockSpent_len h txs : Forall (fun tx => IsCoinBaseTx tx = false) txs -> forall K U n, txs_sound DoubleHash h K U txs ->
  n + len (blockSpent DoubleHash h U txs) = fold_left (fun n tx => n + len (tx_TxIn tx)) txs n.
Proof.
  induction 1 as [|tx txs H0 _ IH]; intros K U n Hs; cbn [blockSpent fold_left]; [change (len []) with 0; lia|].
  destruct Hs as [H1 Hs]. rewrite len_app, (spentCoins_len h K U tx H0 H1), <- (IH _ _ (n + len (tx_TxIn tx)) Hs). lia.
Qed.

Lemma blockSpent_ok h txs : 0 < h -> Forall tx_sane txs -> forall K U, txs_sound DoubleHash h K U txs -> coins_ok U ->
  Forall (fun c => coin_ok c /\ len (c_script c) <= MaxBlockBaseSize) (blockSpent DoubleHash h U txs).
Proof.
  intros Hpos. induction 1 as [|tx txs H0 _ IH]; intros K U Hs HU; cbn [blockSpent]; [constructor|]. destruct Hs as [H1 Hs].
  apply Forall_app. split; [|apply (IH (K ∪ createdKeys DoubleHash h tx)); [exact Hs | now apply (coins_ok_applyTx h K)]].
  unfold spentCoins. destruct (IsCoinBaseTx tx); [constructor|]. apply Forall_forall. intros c Hc.
  apply list_elem_of_omap in Hc. destruct Hc as (op & _ & Hop). destruct (HU _ _ Hop) as (_ & H2 & _ & H3). now split.
Qed.

Lemma baseSize_inputs tx : len (tx_TxIn tx) <= SerializeSizeStripped tx.
Proof.
  unfold SerializeSizeStripped, baseSize. pose proof (VarIntSize_pos (len (tx_TxIn tx))). pose proof (VarIntSize_pos (len (tx_TxOut tx))).
  assert (Hi : forall l, len l <= fold_right (fun ti n => txin_SerializeSize ti + n) 0 l).
  { induction l as [|ti l IH]; [reflexivity|]. rewrite len_cons. cbn [fold_right]. unfold txin_SerializeSize at 1.
    pose proof (VarIntSize_pos (len (ti_SignatureScript ti))). pose proof (len_nonneg (ti_SignatureScript ti)). lia. }
  assert (Ho : forall l, 0 <= fold_right (fun o n => txout_SerializeSize o + n) 0 l).
  { induction l as [|o l IH]; cbn [fold_right]; [lia|]. unfold txout_SerializeSize at 1.
    pose proof (VarIntSize_pos (len (to_PkScript o))). pose proof (len_nonneg (to_PkScript o)). lia. }
  specialize (Hi (tx_TxIn tx)). specialize (Ho (tx_TxOut tx)). lia.
Qed.

Lemma block_inputs_count b cb rest : Transactions b = cb :: rest -> countTxIns rest <= mb_SerializeSizeStripped (blk_msg b).
Proof.
  unfold Transactions. intros Et. unfold mb_SerializeSizeStripped, countTxIns, blockHeaderLen. rewrite Et.
  pose proof (VarIntSize_pos (len (cb :: rest))). pose proof (baseSize_inputs cb). pose proof (len_nonneg (tx_TxIn cb)). cbn [fold_right].
  enough (Hr : forall n, fold_left (fun n tx => n + len (tx_TxIn tx)) rest n <= n + fold_right (fun tx n => SerializeSizeStripped tx + n) 0 rest)
    by (specialize (Hr 0); lia).
  clear. induction rest as [|tx l IH]; intros n; cbn [fold_left fold_right]; [lia|]. pose proof (baseSize_inputs tx).
  specialize (IH (n + len (tx_TxIn tx))). lia.
Qed.

(** What a valid block spends can be recorded and read back. *)
Lemma journal_valid U b : block_form b -> block_valid U b -> new_in U b -> coins_ok U ->
  let stxos := map stxoOfCoin (blockSpent DoubleHash (blk_height b) U (Transactions b)) in
  countSpentOutputs b = Ok (len stxos) /\
  exists serialized, serializeSpendJournalEntry ParsePubKey stxos = Ok serialized /\
    exists rest, slice (E := chainErr) (Transactions b) 1 (len (Transactions b)) = Ok rest /\
      deserializeSpendJournalEntry ParsePubKey SerializeUncompressed serialized rest = Ok stxos.
Proof.
  intros Hb Hv Hn HU stxos. destruct (bf_shape _ Hb) as (cb & rest & Et & Hc & Hcr). pose proof (bf_height _ Hb) as Hh.
  pose proof (valid_sound (dom U) U b Hb Hv Hn) as Hs. pose proof (bf_sane _ Hb) as Hsane.
  pose proof (blockSpent_ok _ _ (proj1 Hh) Hsane _ _ Hs HU) as Hok.
  assert (Hlen : countTxIns rest = len stxos).
  { unfold stxos, len. rewrite length_map. fold (len (blockSpent DoubleHash (blk_height b) U (Transactions b))). rewrite Et in Hs |- *.
    destruct Hs as [_ Hs]. cbn [blockSpent]. unfold spentCoins at 1. rewrite Hc. cbn [app].
    unfold countTxIns. now rewrite <- (blockSpent_len _ _ Hcr _ _ 0 Hs), Z.add_0_l. }
  split; [unfold countSpentOutputs; rewrite Et, slice_from_one; cbn [obind]; now rewrite <- Hlen|].
  assert (Hst : Forall (fun s => stxo_ok s /\ len (st_PkScript s) <= MaxBlockBaseSize) stxos).
  { unfold stxos. apply Forall_map. eapply Forall_impl; [exact Hok|]. intros c [[H1 H2] H3]. split; [split; [exact H1 | exact H2] | exact H3]. }
  destruct (journal_decodes ParsePubKey SerializeUncompressed stxos rest forms) as (j & Ej & Dj).
  - eapply Forall_impl; [exact Hst|]. now intros x [H _].
  - exact Hlen.
  - rewrite journalSize by (eapply Forall_impl; [exact Hst|]; now intros x [H _]). pose proof (block_inputs_count b cb rest Et) as Hcount.
    pose proof (bf_size _ Hb) as Hsz. change MaxBlockBaseSize with 1000000 in *.
    enough (len (journalBytes ParsePubKey stxos) <= len stxos * 1000100) by (unfold maxAlloc; nia).
    clear -Hst. induction Hst as [|s l [_ H] _ IH]; [reflexivity|].
    change (journalBytes ParsePubKey (s :: l)) with (stxoBytes ParsePubKey s ++ journalBytes ParsePubKey l). unfold stxoBytes.
    rewrite !len_app, len_cons. pose proof (vlq_size_bound (spentTxOutHeaderCode s)). pose proof (txOutBytes_size ParsePubKey (st_Amount s) (st_PkScript s)).
    assert (len (if 0 <? st_Height s then vlq 0 else []) <= 10) by (destruct (0 <? st_Height s); [apply vlq_size_bound | discriminate]). lia.
  - exists j. split; [exact Ej|]. exists rest. rewrite Et, slice_from_one. split; [reflexivity | exact Dj].
Qed.

(** ** A block on a view *)

(** A view that has loaded the inputs sees the ledger before the block. *)
Lemma loaded_sees U0 v v' U b cb rest : block_form b -> Transactions b = cb :: rest -> abs U0 v = U -> new_in U b ->
  loaded DoubleHash U0 (blk_height b) cb rest v v' -> sees DoubleHash U0 (blk_height b) v' U (cb :: rest).
Proof.
  intros Hb Et Ha Hn Hl. split.
  - intros k Hk. rewrite (ld_agree _ _ _ _ _ _ _ Hl k Hk). now rewrite Ha.
  - intros k Hk. apply not_elem_of_dom. intros Hd. apply (Hn k Hd). now rewrite Et.
  - rewrite <- Et. apply Hb.
Qed.

Lemma loaded_knows U0 v v' U b cb rest : block_form b -> Transactions b = cb :: rest ->
  loaded DoubleHash U0 (blk_height b) cb rest v v' -> knows DoubleHash v' U (cb :: rest).
Proof.
  intros Hb Et Hl tx op Ht Hc Hop Hh _. destruct (bf_shape _ Hb) as (cb' & rest' & Et' & Hcb & _). rewrite Et in Et'. injection Et' as <- <-.
  apply elem_of_cons in Ht. destruct Ht as [->|Ht]; [congruence|]. apply list_elem_of_split in Ht. destruct Ht as (pre & post & ->).
  apply (ld_known _ _ _ _ _ _ _ Hl pre tx post op eq_refl Hop). intros Hi. apply Hh. cbn [map] in *. rewrite map_app.
  apply elem_of_cons in Hi. apply elem_of_cons. destruct Hi as [Hi|Hi]; [now left|]. right. apply elem_of_app. now left.
Qed.

(** A valid block connects to a view, whatever record of spent outputs is kept. *)
Lemma connect_valid D db s v U b : inv D db s -> abs (cabs D s) v = U -> block_form b -> block_valid U b -> new_in U b ->
  exists v1 s1, fetchInputs v s db b = Ok (v1, s1) /\ inv D db s1 /\ cabs D s1 = cabs D s /\
    forall stxos, exists v2,
      connectTransactions DoubleHash v1 b stxos = Ok (v2, append_coins stxos (blockSpent DoubleHash (blk_height b) U (Transactions b))) /\
      abs (cabs D s) v2 = applyBlock DoubleHash U b /\ (tracks (cabs D s) v -> tracks (cabs D s) v2).
Proof.
  intros Hi Ha Hb Hv Hn. destruct (bf_shape _ Hb) as (cb & rest & Et & Hc & Hcr). pose proof (bf_inputs _ Hb) as Hin. rewrite Et in Hin.
  destruct (fetchInputs_sync ParsePubKey SerializeUncompressed CalculateRoughMapSize CalculateMinEntries DoubleHash forms hash_len
    D db s v b cb rest Hi Et Hin) as (v1 & s1 & E & Hi1 & Ha1 & Hl).
  exists v1, s1. split; [exact E|]. split; [exact Hi1|]. split; [exact Ha1|]. intros stxos.
  pose proof (valid_sound (dom U) U b Hb Hv Hn) as Hs. pose proof (bf_distinct _ Hb) as Hd.
  destruct (connect_loop_ok DoubleHash (cabs D s) (blk_height b) (Transactions b) (dom U) v1 U stxos Hd) as (v2 & E2 & Ha2); [| |exact Hs|].
  { rewrite Et. exact (loaded_sees _ _ _ _ _ _ _ Hb Et Ha Hn Hl). }
  { rewrite Et. exact (loaded_knows _ _ _ _ _ _ _ Hb Et Hl). }
  unfold connectTransactions. rewrite E2. cbn [obind]. eexists. split; [reflexivity|]. split; [exact Ha2|]. intros Ht.
  exact (tracks_connect DoubleHash hash_len _ _ _ _ _ _ _ (block_inputs_ok b Hb) (ld_tracks _ _ _ _ _ _ _ Hl Ht) E2).
Qed.

(** A view that holds a whole set. *)
Definition viewOf (U : utxoSet) : UtxoViewpoint := mkView (fmap (fun c => Some (entryOf c)) U) [].

Lemma abs_viewOf U : abs ∅ (viewOf U) = U.
Proof.
  apply map_eq. intros op. rewrite lookup_abs. cbn [viewOf uv_entries]. rewrite lookup_fmap.
  destruct (U !! op) as [c|] eqn:E; [apply live_entryOf | now rewrite lookup_empty].
Qed.

(** What a valid block spends takes it back, on a view of the set after it. *)
Lemma disconnect_valid dbByHash D db s v U b : inv D db s -> abs (cabs D s) v = applyBlock DoubleHash U b ->
  block_form b -> block_valid U b -> new_in U b -> coins_ok U ->
  exists v1 s1 v2, fetchInputs v s db b = Ok (v1, s1) /\ inv D db s1 /\ cabs D s1 = cabs D s /\
    disconnectTransactions DoubleHash dbByHash v1 b (map stxoOfCoin (blockSpent DoubleHash (blk_height b) U (Transactions b))) = Ok v2 /\
    abs (cabs D s) v2 = U /\ (tracks (cabs D s) v -> tracks (cabs D s) v2).
Proof.
  intros Hi Ha Hb Hv Hn HU. destruct (bf_shape _ Hb) as (cb & rest & Et & Hc & Hcr). pose proof (bf_inputs _ Hb) as Hin. rewrite Et in Hin.
  destruct (fetchInputs_sync ParsePubKey SerializeUncompressed CalculateRoughMapSize CalculateMinEntries DoubleHash forms hash_len
    D db s v b cb rest Hi Et Hin) as (v1 & s1 & E & Hi1 & Ha1 & Hl).
  pose proof (valid_sound (dom U) U b Hb Hv Hn) as Hs. pose proof (bf_distinct _ Hb) as Hd. pose proof (bf_height _ Hb) as Hh.
  destruct (connect_loop_ok DoubleHash ∅ (blk_height b) (Transactions b) (dom U) (viewOf U) U (Some []) Hd) as (v0 & E0 & Ha0); [| |exact Hs|].
  { split; [intros k _; now rewrite abs_viewOf | intros k Hk; apply not_elem_of_dom; intros H; exact (Hn k H Hk) | apply Hb]. }
  { intros tx op _ _ _ _ [c Hop]. cbn [viewOf uv_entries]. rewrite lookup_fmap, Hop. eauto. }
  pose proof (sound_fits _ _ (proj1 Hh) (bf_sane _ Hb) (dom U) U ltac:(reflexivity) Hs HU) as Hfit. rewrite <- (abs_viewOf U) in Hfit. rewrite Et in Hfit, E0.
  destruct (undo_block DoubleHash dbByHash ∅ (viewOf U) cb rest (blk_height b) [] Hc Hcr Hfit _ _ E0) as (ss & Ess & Hss & Hu).
  cbn [app append_coins option_map] in Ess. rewrite <- Et in Ess. rewrite Ess.
  destruct (Hu (cabs D s) v1) with (tail := @nil SpentTxOut) as (v2 & E2 & Ha2).
  { intros k Hk. rewrite (ld_agree _ _ _ _ _ _ _ Hl k Hk), Ha, Ha0. reflexivity. }
  rewrite app_nil_r in E2. exists v1, s1, (SetBestHash v2 (bh_PrevBlock (mb_Header (blk_msg b)))).
  split; [exact E|]. split; [exact Hi1|]. split; [exact Ha1|]. split; [|split].
  - unfold disconnectTransactions, countSpentOutputs. rewrite Et, slice_from_one. cbn [obind]. rewrite Hss, Z.eqb_refl. cbn [negb].
    now rewrite E2.
  - rewrite abs_best, Ha2. apply abs_viewOf.
  - intros Ht. change (tracks (cabs D s) v2). pose proof (block_inputs_ok b Hb) as Hro. rewrite Et in Hro. apply Forall_rev in Hro.
    assert (Hrc : Forall (fun tx => IsCoinBaseTx tx = false) (removelast (rev (cb :: rest)))) by (cbn [rev]; rewrite removelast_last; now apply Forall_rev).
    apply (tracks_disconnect DoubleHash hash_len _ _ _ _ _ _ _
      Hro Hrc
      (ld_tracks _ _ _ _ _ _ _ Hl Ht) E2).
Qed.
Lemma connectFees_abs h base txs : forall v stxos t v' stxos' t', connectFees_loop DoubleHash params h v stxos txs t = Ok (v', stxos', t') ->
  abs base v' = fold_left (applyTx DoubleHash h) txs (abs base v).
Proof.
  induction txs as [|tx txs IH]; intros v stxos t v' stxos' t' H; cbn [connectFees_loop fold_left] in *; [now injection H as <- _ _|].
  apply obind_Ok in H. destruct H as (fee & _ & H). destruct (_ <? _); [discriminate|]. apply obind_Ok in H. destruct H as ([v1 s1] & H1 & H).
  destruct (connectTransaction DoubleHash v tx h stxos) as [[v1' s1']| |] eqn:Ec; [|discriminate..]. injection H1 as -> ->.
  now rewrite (IH _ _ _ _ _ _ H), (connectTransaction_abs DoubleHash base _ _ _ _ _ _ Ec).
Qed.

Context (bi : blockIndex) (scripts : Block -> UtxoViewpoint -> Z -> verdict).

(** The check of BIP 30, whether it runs or not. *)
Lemma bip30_sync D db s v b (run : bool) v0 s0 : inv D db s ->
  (if run then checkBIP0030 ParsePubKey SerializeUncompressed CalculateRoughMapSize CalculateMinEntries DoubleHash b v s db
   else Ok (v, s)) = Ok (v0, s0) ->
  inv D db s0 /\ cabs D s0 = cabs D s /\ abs (cabs D s) v0 = abs (cabs D s) v.
Proof.
  intros Hi H. destruct run; [|injection H as <- <-; auto]. unfold checkBIP0030 in H.
  destruct (fetchUtxos_sync ParsePubKey SerializeUncompressed CalculateRoughMapSize CalculateMinEntries forms D db s v
    (blockOutpoints DoubleHash b) Hi (blockOutpoints_ok DoubleHash hash_len b)) as (v1 & s1 & E & Hi1 & Ha1 & Hv1).
  rewrite E in H. cbn [lift_chain obind] in H. apply obind_Ok in H. destruct H as (u & _ & H). injection H as <- <-. auto.
Qed.

(** A block that passes the checks on a view of a ledger is a valid block of
    the ledger, and the view then stands for the ledger after it. *)
Lemma check_valid D db s v U node b caches r stxos : inv D db s -> abs (cabs D s) v = U -> block_form b -> new_in U b ->
  bn_height (deref (bi_nodes bi) node) = blk_height b ->
  checkConnectBlock ParsePubKey SerializeUncompressed CalculateRoughMapSize CalculateMinEntries DoubleHash params bi scripts
    node b v stxos s db caches = Ok r ->
  block_valid U b /\ inv D db (co_cache r) /\ cabs D (co_cache r) = cabs D s /\ abs (cabs D s) (co_view r) = applyBlock DoubleHash U b.
Proof.
  intros Hi Ha Hb Hn Hh H. destruct (bf_shape _ Hb) as (cb & rest & Et & Hc & Hcr). pose proof (bf_inputs _ Hb) as Hin. rewrite Et in Hin.
  apply checkConnect_parts in H. destruct H as (v0 & s0 & v1 & s1 & v2 & st2 & fees & cb' & H0 & Hf & Hl & Hg & Hle & -> & ->). rewrite Hh in *.
  destruct (bip30_sync D db s v b _ v0 s0 Hi H0) as (Hi0 & Ha0 & Hv0). rewrite <- Hv0, <- Ha0 in Ha.
  destruct (fetchInputs_sync ParsePubKey SerializeUncompressed CalculateRoughMapSize CalculateMinEntries DoubleHash forms hash_len
    D db s0 v0 b cb rest Hi0 Et Hin) as (v1' & s1' & E & Hi1 & Ha1 & Hld). rewrite Hf in E. injection E as <- <-.
  pose proof (loaded_sees _ _ _ _ _ _ _ Hb Et Ha Hn Hld) as Hs. rewrite Et, (get_at_eq [] cb rest) in Hg by reflexivity. injection Hg as <-.
  pose proof (bf_sane _ Hb) as Hts. pose proof (bf_distinct _ Hb) as Hd. rewrite Et in Hts, Hd, Hl.
  destruct (paid_block DoubleHash params (blk_height b) _ _ _ _ _ _ _ _ _ (sees_together DoubleHash (cabs D s0) (blk_height b)) Hs Hc Hcr Hts Hd Hl Hle)
    as [Hp Hle']. split; [exists cb, rest, fees; auto|]. split; [exact Hi1|]. split; [now rewrite Ha1|].
  rewrite <- Ha0, (connectFees_abs _ (cabs D s0) _ _ _ _ _ _ _ Hl). unfold applyBlock. rewrite Et.
  apply applyTxs_agree. exact (se_agree _ _ _ _ _ _ Hs).
Qed.
End Blocks.
