(* ===== verification/Branches.v ===== *)
(** * Stored blocks along branches

    Every node of the tree of headers may have a block in the database.  The
    blocks on the way from the first block to a node make up the chain of the
    node, and the ledger of the node is the set of unspent outputs after that
    chain.  The outputs of the first block are not in it. *)

From Stdlib Require Import ZArith List Lia Bool String.
From stdpp Require Import gmap.
From S2P Require Import Prelude GoSlice GoIO WireCommon WireTx WireMsgs Merkle Difficulty BlockIndex ChainView UtxoView UtxoCache Rules Index Threshold Growth Supply ViewSync.
Import ListNotations.
Local Open Scope list_scope.
Local Open Scope Z_scope.

(** ** Paths *)

(** The nodes from [x] down to [f], which is not in the list. *)
Inductive down (a : arena) (f : nat) : nat -> list nat -> Prop :=
| down_nil : down a f f []
| down_cons x p l : bn_parent (deref a x) = Some p -> down a f p l -> down a f x (x :: l).

(** The nodes after [f] up to [x]. *)
Inductive up (a : arena) (x : nat) : nat -> list nat -> Prop :=
| up_nil : up a x x []
| up_cons f y l : bn_parent (deref a y) = Some f -> up a x y l -> up a x f (y :: l).

Lemma down_last a f x d l : down a f x (d :: l) -> d = x /\ forall y, bn_parent (deref a (List.last (d :: l) y)) = Some f.
Proof.
  intros H. split; [now inversion H|]. intros y. revert d x H. induction l as [|d' l IH]; intros d x H; inversion H as [|? p ? Hp Hd]; subst.
  - inversion Hd; subst. exact Hp.
  - exact (IH d' p Hd).
Qed.

Lemma up_snoc a x p f l : bn_parent (deref a x) = Some p -> up a p f l -> up a x f (l ++ [x]).
Proof.
  intros Hp. induction 1 as [|f y l Hy _ IH]; cbn [app]; [apply (up_cons _ _ _ _ _ Hp), up_nil | exact (up_cons _ _ _ _ _ Hy IH)].
Qed.

Lemma down_up a f x l : down a f x l -> up a x f (rev l).
Proof. induction 1 as [|x p l Hp _ IH]; [apply up_nil|]. cbn [rev]. exact (up_snoc a x p f _ Hp IH). Qed.

Section Paths.
Context (a : arena).
Hypothesis Hw : arena_wf a.

Lemma down_lt f x l : (x < List.length a)%nat -> down a f x l -> Forall (fun y => (y < List.length a)%nat) l /\ on_branch a x f.
Proof.
  intros Hx H. revert Hx. induction H as [|x p l Hp _ IH]; intros Hx.
  - split; [constructor|]. split; [lia | apply ancestorAt_self].
  - destruct (height_parent a x p Hw Hx Hp) as (_ & Hpl & _). destruct (IH Hpl) as [H1 H2]. split; [now constructor|].
    apply (on_branch_parent a x p f Hw Hx Hp). now right.
Qed.

Lemma down_end f x l : (x < List.length a)%nat -> down a f x l -> (f < List.length a)%nat.
Proof. intros Hx H. revert Hx. induction H as [|x p l Hp _ IH]; intros Hx; [exact Hx | apply IH, (height_parent a x p Hw Hx Hp)]. Qed.

Lemma up_lt x f l : (x < List.length a)%nat -> (f < List.length a)%nat -> up a x f l -> Forall (fun y => (y < List.length a)%nat) l.
Proof.
  intros Hx Hf H. induction H as [|f y l Hy Hup IH]; [constructor|].
  assert (Hyl : (y < List.length a)%nat).
  { destruct (Nat.lt_ge_cases y (List.length a)) as [|Hge]; [assumption|]. unfold deref in Hy. rewrite nth_overflow in Hy by exact Hge. discriminate. }
  constructor; [exact Hyl | now apply IH].
Qed.

Lemma down_extends a' f x l : extends a a' -> (x < List.length a)%nat -> down a f x l -> down a' f x l.
Proof.
  intros He Hx H. revert Hx. induction H as [|x p l Hp _ IH]; intros Hx; [apply down_nil|].
  destruct (height_parent a x p Hw Hx Hp) as (_ & Hpl & _). apply (down_cons _ _ _ p); [|now apply IH]. now rewrite (ex_parent a a' He x Hx).
Qed.

Lemma up_extends a' x f l : extends a a' -> up a x f l -> up a' x f l.
Proof.
  intros He. induction 1 as [|f y l Hy _ IH]; [apply up_nil|]. apply up_cons; [|exact IH].
  destruct (Nat.lt_ge_cases y (List.length a)) as [Hl|Hge]; [now rewrite (ex_parent a a' He y Hl)|].
  unfold deref in Hy. rewrite nth_overflow in Hy by exact Hge. discriminate.
Qed.
End Paths.

(** ** Chains and ledgers *)

Section Branches.
Context (DoubleHash : list Z -> list Z) (params : RuleParams).
Hypothesis hash_len : forall l, len (DoubleHash l) = 32.
Abbreviation tids b := (map (txHash DoubleHash) (Transactions b)).

Definition blockOf (a : arena) (B : gmap (list Z) MsgBlock) (x : nat) : option Block :=
  match B !! bn_hash (deref a x) with Some msg => Some (mkBlock msg (height_of a x)) | None => None end.

Fixpoint chainOf (fuel : nat) (a : arena) (B : gmap (list Z) MsgBlock) (x : nat) : list Block :=
  match fuel, bn_parent (deref a x) with
  | S fuel', Some p => chainOf fuel' a B p ++ match blockOf a B x with Some b => [b] | None => [] end
  | _, _ => []
  end.
(** Parents come before their children, so that the position of a node is
    enough fuel. *)
Definition chainTo (a : arena) (B : gmap (list Z) MsgBlock) (x : nat) : list Block := chainOf (S x) a B x.
Definition ledgerAt (a : arena) (B : gmap (list Z) MsgBlock) (x : nat) : utxoSet :=
  fold_left (applyBlock DoubleHash) (chainTo a B x) ∅.

(** What holds of a block that is stored for the node [x] after [p]. *)
Record stored_block (a : arena) (B : gmap (list Z) MsgBlock) (x p : nat) (b : Block) : Prop := {
  sb_hash : BlockHash DoubleHash (mb_Header (blk_msg b)) = bn_hash (deref a x);
  sb_prev : bh_PrevBlock (mb_Header (blk_msg b)) = bn_hash (deref a p);
  sb_form : block_form DoubleHash b;
  sb_new : forall b' h, b' ∈ chainTo a B p -> h ∈ tids b' -> h ∉ tids b
}.

(** A node whose block, and every block before it, is valid after its parent. *)
Inductive valid_to (a : arena) (B : gmap (list Z) MsgBlock) : nat -> Prop :=
| valid_root x b : bn_parent (deref a x) = None -> blockOf a B x = Some b ->
    BlockHash DoubleHash (mb_Header (blk_msg b)) = bn_hash (deref a x) -> valid_to a B x
| valid_block x p b : bn_parent (deref a x) = Some p -> valid_to a B p -> blockOf a B x = Some b ->
    stored_block a B x p b -> block_valid DoubleHash params (ledgerAt a B p) b -> valid_to a B x.

Section Tree.
Context (a : arena) (B : gmap (list Z) MsgBlock).
Hypothesis Hw : arena_wf a.

Lemma chainOf_fuel f1 : forall f2 x, (x < List.length a)%nat -> (x < f1)%nat -> (x < f2)%nat -> chainOf f1 a B x = chainOf f2 a B x.
Proof.
  induction f1 as [|f1 IH]; intros [|f2] x Hx H1 H2; try lia. cbn [chainOf]. destruct (bn_parent (deref a x)) as [p|] eqn:Ep; [|reflexivity].
  destruct (height_parent a x p Hw Hx Ep) as (Hlt & Hp & _). f_equal. apply IH; lia.
Qed.

Lemma chainTo_parent x p : (x < List.length a)%nat -> bn_parent (deref a x) = Some p ->
  chainTo a B x = chainTo a B p ++ match blockOf a B x with Some b => [b] | None => [] end.
Proof.
  intros Hx Hp. destruct (height_parent a x p Hw Hx Hp) as (Hlt & Hpl & _). unfold chainTo at 1. cbn [chainOf]. rewrite Hp. f_equal.
  apply chainOf_fuel; lia.
Qed.

Lemma ledgerAt_parent x p b : (x < List.length a)%nat -> bn_parent (deref a x) = Some p -> blockOf a B x = Some b ->
  ledgerAt a B x = applyBlock DoubleHash (ledgerAt a B p) b.
Proof. intros Hx Hp Hb. unfold ledgerAt. now rewrite (chainTo_parent x p Hx Hp), Hb, fold_left_app. Qed.

(** The outputs of a ledger are of transactions of its chain. *)
Definition from_chain (chain : list Block) (U : utxoSet) : Prop :=
  forall k, k ∈ dom U -> exists b, b ∈ chain /\ op_Hash k ∈ tids b.

Lemma dom_applyTxs h txs : forall U k, k ∈ dom (fold_left (applyTx DoubleHash h) txs U) -> k ∈ dom U \/ op_Hash k ∈ map (txHash DoubleHash) txs.
Proof.
  induction txs as [|tx txs IH]; intros U k H; cbn [fold_left map] in *; [now left|]. apply IH in H. rewrite elem_of_cons.
  destruct H as [H|H]; [|tauto]. apply dom_applyTx in H. apply elem_of_union in H. destruct H as [H|H]; [now left|].
  apply elem_of_list_to_set in H. apply createdBy_hash in H. tauto.
Qed.

Lemma from_chain_ledger chain : from_chain chain (fold_left (applyBlock DoubleHash) chain ∅).
Proof.
  induction chain as [|b chain IH] using rev_ind; intros k Hk; [cbn in Hk; now apply elem_of_dom in Hk as [c Hc]; rewrite lookup_empty in Hc|]. rewrite fold_left_app in Hk. cbn [fold_left] in Hk.
  apply dom_applyTxs in Hk. destruct Hk as [Hk|Hk].
  - destruct (IH k Hk) as (b' & Hb & Hh). exists b'. split; [apply elem_of_app; now left | exact Hh].
  - exists b. split; [apply elem_of_app; right; now apply list_elem_of_singleton | exact Hk].
Qed.

Lemma from_chain_new x p b U : stored_block a B x p b -> from_chain (chainTo a B p) U -> apart DoubleHash (dom U) (Transactions b).
Proof. intros Hs Hf k Hk. destruct (Hf k Hk) as (b' & Hb & Hh). exact (sb_new _ _ _ _ _ Hs b' _ Hb Hh). Qed.

Lemma stored_new x p b : stored_block a B x p b -> apart DoubleHash (dom (ledgerAt a B p)) (Transactions b).
Proof. intros Hs. exact (from_chain_new x p b _ Hs (from_chain_ledger _)). Qed.

Lemma valid_coins x : (x < List.length a)%nat -> valid_to a B x -> coins_ok (ledgerAt a B x).
Proof.
  intros Hx H. revert Hx. induction H as [x b Hp Hb _|x p b Hp _ IH Hb Hs Hv]; intros Hx.
  - unfold ledgerAt, chainTo. cbn [chainOf]. rewrite Hp. intros op c H. cbn [fold_left] in H. now rewrite lookup_empty in H.
  - destruct (height_parent a x p Hw Hx Hp) as (_ & Hpl & _). rewrite (ledgerAt_parent x p b Hx Hp Hb).
    exact (coins_ok_block DoubleHash params hash_len _ b (sb_form _ _ _ _ _ Hs) Hv (stored_new x p b Hs) (IH Hpl)).
Qed.

(** Every node before a valid one is valid. *)
Lemma valid_branch t x : (t < List.length a)%nat -> (x < List.length a)%nat -> valid_to a B t -> on_branch a t x -> valid_to a B x.
Proof.
  intros Ht Hx H. revert Ht. induction H as [t b Hp Hb Hh|t p b Hp Hv IH Hb Hs Hbv]; intros Ht Hbr.
  - rewrite (on_branch_root a t x Hw Ht Hx Hp Hbr). exact (valid_root a B t b Hp Hb Hh).
  - apply (on_branch_parent a t p x Hw Ht Hp) in Hbr. destruct Hbr as [->|Hbr]; [exact (valid_block a B t p b Hp Hv Hb Hs Hbv)|].
    apply IH; [|exact Hbr]. apply (height_parent a t p Hw Ht Hp).
Qed.

(** A change of statuses changes none of this. *)
Context (a' : arena).
Hypothesis He : extends a a'.

Lemma blockOf_extends x : (x < List.length a)%nat -> blockOf a' B x = blockOf a B x.
Proof. intros Hx. unfold blockOf. now rewrite (ex_hash a a' He x Hx), (ex_height a a' He x Hx). Qed.

Lemma chainOf_extends fuel : forall x, (x < List.length a)%nat -> chainOf fuel a' B x = chainOf fuel a B x.
Proof.
  induction fuel as [|fuel IH]; intros x Hx; [reflexivity|]. cbn [chainOf]. rewrite (ex_parent a a' He x Hx), (blockOf_extends x Hx).
  destruct (bn_parent (deref a x)) as [p|] eqn:Ep; [|reflexivity]. f_equal. apply IH, (height_parent a x p Hw Hx Ep).
Qed.

Lemma chainTo_extends x : (x < List.length a)%nat -> chainTo a' B x = chainTo a B x.
Proof. apply chainOf_extends. Qed.

Lemma ledgerAt_extends x : (x < List.length a)%nat -> ledgerAt a' B x = ledgerAt a B x.
Proof. intros Hx. unfold ledgerAt. now rewrite chainTo_extends. Qed.

Lemma stored_block_extends x p b : (x < List.length a)%nat -> (p < List.length a)%nat -> stored_block a B x p b -> stored_block a' B x p b.
Proof.
  intros Hx Hp [H1 H2 H3 H4]. split; [now rewrite (ex_hash a a' He x Hx) | now rewrite (ex_hash a a' He p Hp) | exact H3|].
  rewrite (chainTo_extends p Hp). exact H4.
Qed.

Lemma valid_to_extends x : (x < List.length a)%nat -> valid_to a B x -> valid_to a' B x.
Proof.
  intros Hx H. revert Hx. induction H as [x b Hp Hb Hh|x p b Hp _ IH Hb Hs Hv]; intros Hx.
  - apply (valid_root a' B x b); rewrite ?(ex_parent a a' He x Hx), ?(ex_hash a a' He x Hx), ?(blockOf_extends x Hx); assumption.
  - destruct (height_parent a x p Hw Hx Hp) as (_ & Hpl & _).
    apply (valid_block a' B x p b); [now rewrite (ex_parent a a' He x Hx) | now apply IH | now rewrite (blockOf_extends x Hx)
      | now apply stored_block_extends | now rewrite (ledgerAt_extends p Hpl)].
Qed.
End Tree.

(** ** Stored blocks that grow *)

Section Stored.
Context (a : arena).
Hypothesis Hw : arena_wf a.
Context (B B' : gmap (list Z) MsgBlock).
Hypothesis Hsub : B ⊆ B'.

Lemma blockOf_grow x b : blockOf a B x = Some b -> blockOf a B' x = Some b.
Proof.
  unfold blockOf. destruct (B !! _) as [m|] eqn:E; [|discriminate]. now rewrite (lookup_weaken _ _ _ _ E Hsub).
Qed.

(** The chain of a valid node has all its blocks already. *)
Lemma chainTo_grow x : (x < List.length a)%nat -> valid_to a B x -> chainTo a B' x = chainTo a B x.
Proof.
  intros Hx H. revert Hx. induction H as [x b Hp _ _|x p b Hp _ IH Hb _ _]; intros Hx.
  - unfold chainTo. cbn [chainOf]. now rewrite Hp.
  - destruct (height_parent a x p Hw Hx Hp) as (_ & Hpl & _).
    now rewrite !(chainTo_parent a _ Hw x p Hx Hp), (IH Hpl), Hb, (blockOf_grow x b Hb).
Qed.

Lemma ledgerAt_grow x : (x < List.length a)%nat -> valid_to a B x -> ledgerAt a B' x = ledgerAt a B x.
Proof. intros Hx H. unfold ledgerAt. now rewrite (chainTo_grow x Hx H). Qed.

Lemma valid_to_grow x : (x < List.length a)%nat -> valid_to a B x -> valid_to a B' x.
Proof.
  intros Hx H. revert Hx. induction H as [x b Hp Hb Hh|x p b Hp Hv IH Hb [S1 S2 S3 S4] Hbv]; intros Hx.
  - exact (valid_root a B' x b Hp (blockOf_grow x b Hb) Hh).
  - destruct (height_parent a x p Hw Hx Hp) as (_ & Hpl & _). apply (valid_block a B' x p b Hp (IH Hpl) (blockOf_grow x b Hb)).
    + split; auto. now rewrite (chainTo_grow p Hpl Hv).
    + now rewrite (ledgerAt_grow p Hpl Hv).
Qed.
End Stored.

(** ** The headers and blocks that exist

    A header and a block for a hash, at most one of each: no two that a node
    ever sees have the same hash.  A header has a height. *)

Record universe : Type := mkUniverse {
  un_header : list Z -> option BlockHeader;
  un_block : list Z -> option MsgBlock;
  un_height : list Z -> Z
}.

(** The block with the first hash comes before the one with the second. *)
Inductive before (u : universe) : list Z -> list Z -> Prop :=
| before_prev h hdr : un_header u h = Some hdr -> before u (bh_PrevBlock hdr) h
| before_step h' h hdr : un_header u h = Some hdr -> before u h' (bh_PrevBlock hdr) -> before u h' h.

(** No block has a transaction of a block before it (BIP 30), the heights fit
    into the best chain, and the first block comes after the zero hash. *)
Record universe_ok (u : universe) : Prop := {
  un_hash : forall h hdr, un_header u h = Some hdr -> BlockHash DoubleHash hdr = h;
  un_body : forall h m, un_block u h = Some m -> un_header u h = Some (mb_Header m);
  un_fresh : forall h' h m m' id, before u h' h -> un_block u h = Some m -> un_block u h' = Some m' ->
    id ∈ map (txHash DoubleHash) (mb_Transactions m') -> id ∉ map (txHash DoubleHash) (mb_Transactions m);
  un_next : forall h hdr, un_header u h = Some hdr -> un_height u h = un_height u (bh_PrevBlock hdr) + 1 /\ un_height u h <= maxViewHeight;
  un_zero : un_header u zeroHash = None /\ un_height u zeroHash = -1
}.

Section Universe.
Context (u : universe).
Hypothesis Hu : universe_ok u.

(** The nodes follow the headers, and the stored blocks are the blocks. *)
Definition links_ok (a : arena) : Prop :=
  forall x, (x < List.length a)%nat ->
    exists hdr, un_header u (bn_hash (deref a x)) = Some hdr /\ bh_PrevBlock hdr = bh_PrevBlock (Header a x).
Definition blocks_ok (B : gmap (list Z) MsgBlock) : Prop :=
  forall h m, B !! h = Some m -> un_block u h = Some m /\ block_form DoubleHash (mkBlock m 1).

(** A block that exists, of the form that the sanity checks ask for. *)
Definition sound_block (msg : MsgBlock) : Prop :=
  un_block u (BlockHash DoubleHash (mb_Header msg)) = Some msg /\ block_form DoubleHash (mkBlock msg 1).

Lemma form_height m h : block_form DoubleHash (mkBlock m 1) -> 0 < h < 2 ^ 31 -> block_form DoubleHash (mkBlock m h).
Proof. intros [H1 H2 H3 H4 H5 H6 _] Hh. now split. Qed.

Section Links.
Context (a : arena) (B : gmap (list Z) MsgBlock).
Hypothesis Hw : arena_wf a.
Hypothesis Hlinks : links_ok a.
Hypothesis Hblocks : blocks_ok B.

Lemma links_parent x p : (x < List.length a)%nat -> bn_parent (deref a x) = Some p ->
  exists hdr, un_header u (bn_hash (deref a x)) = Some hdr /\ bh_PrevBlock hdr = bn_hash (deref a p).
Proof. intros Hx Hp. destruct (Hlinks x Hx) as (hdr & E1 & E2). exists hdr. split; [exact E1|]. rewrite E2. unfold Header. cbn [bh_PrevBlock]. now rewrite Hp. Qed.

Lemma links_height x : (x < List.length a)%nat -> height_of a x = un_height u (bn_hash (deref a x)) /\ height_of a x <= maxViewHeight.
Proof.
  induction x as [x IH] using lt_wf_ind. intros Hx. destruct (Hlinks x Hx) as (hdr & E1 & E2). destruct (un_next u Hu _ _ E1) as [E3 E4].
  destruct (bn_parent (deref a x)) as [p|] eqn:Ep; unfold Header in E2; rewrite Ep in E2; cbn [bh_PrevBlock] in E2; rewrite E2 in E3.
  - destruct (height_parent a x p Hw Hx Ep) as (Hlt & Hpl & Hh). destruct (IH p Hlt Hpl) as [E _]. lia.
  - rewrite (height_root a x Hw Hx Ep). rewrite (proj2 (un_zero u Hu)) in E3. unfold maxViewHeight. lia.
Qed.

Lemma before_branch x : forall p y, (x < List.length a)%nat -> (y < List.length a)%nat -> bn_parent (deref a x) = Some p -> on_branch a p y ->
  before u (bn_hash (deref a y)) (bn_hash (deref a x)).
Proof.
  induction x as [x IH] using lt_wf_ind. intros p y Hx Hy Hp Hb. destruct (links_parent x p Hx Hp) as (hdr & Eh & Ep).
  destruct (height_parent a x p Hw Hx Hp) as (Hlt & Hpl & _). destruct (bn_parent (deref a p)) as [q|] eqn:Eq.
  - apply (on_branch_parent a p q y Hw Hpl Eq) in Hb. destruct Hb as [->|Hb]; [rewrite <- Ep; now apply before_prev|].
    apply (before_step _ _ _ hdr Eh). rewrite Ep. exact (IH p Hlt q y Hpl Hy Eq Hb).
  - rewrite (on_branch_root a p y Hw Hpl Hy Eq Hb), <- Ep. now apply before_prev.
Qed.

Lemma chainTo_in x b : (x < List.length a)%nat -> b ∈ chainTo a B x -> exists y, (y < List.length a)%nat /\ on_branch a x y /\ blockOf a B y = Some b.
Proof.
  induction x as [x IH] using lt_wf_ind. intros Hx Hb. destruct (bn_parent (deref a x)) as [p|] eqn:Ep.
  - destruct (height_parent a x p Hw Hx Ep) as (Hlt & Hpl & _). rewrite (chainTo_parent a B Hw x p Hx Ep), elem_of_app in Hb. destruct Hb as [Hb|Hb].
    + destruct (IH p Hlt Hpl Hb) as (y & Hy & Hbr & E). exists y. split; [exact Hy|]. split; [|exact E]. apply (on_branch_parent a x p y Hw Hx Ep). now right.
    + exists x. split; [exact Hx|]. split; [split; [lia | apply ancestorAt_self]|]. destruct (blockOf a B x) as [b'|]; [|inversion Hb].
      apply list_elem_of_singleton in Hb. now subst b'.
  - unfold chainTo in Hb. cbn [chainOf] in Hb. rewrite Ep in Hb. inversion Hb.
Qed.

Lemma blockOf_stored x b : blockOf a B x = Some b -> B !! bn_hash (deref a x) = Some (blk_msg b) /\ blk_height b = height_of a x.
Proof. unfold blockOf. destruct (B !! _) as [m|]; [|discriminate]. now injection 1 as <-. Qed.

Lemma stored_universe x p b : (x < List.length a)%nat -> bn_parent (deref a x) = Some p -> blockOf a B x = Some b -> stored_block a B x p b.
Proof.
  intros Hx Hp Hb. destruct (height_parent a x p Hw Hx Hp) as (_ & Hpl & Hh). destruct (blockOf_stored x b Hb) as [Hm Hbh].
  destruct (Hblocks _ _ Hm) as [Hub Hf]. destruct (links_parent x p Hx Hp) as (hdr & Eh & Ep).
  pose proof (un_body u Hu _ _ Hub) as Ehm. rewrite Eh in Ehm. injection Ehm as ->. split.
  - exact (un_hash u Hu _ _ Eh).
  - exact Ep.
  - pose proof (aw_height a Hw x Hx) as H1. pose proof (aw_height a Hw p Hpl) as H2. unfold maxHeight in H1.
    destruct b as [m h]. cbn [blk_msg blk_height] in *. apply form_height; [exact Hf | lia].
  - intros b' id Hb' Hid. destruct (chainTo_in p b' Hpl Hb') as (y & Hy & Hbr & E). destruct (blockOf_stored y b' E) as [Hm' _].
    exact (un_fresh u Hu _ _ _ _ id (before_branch x p y Hx Hy Hp Hbr) Hub (proj1 (Hblocks _ _ Hm')) Hid).
Qed.
End Links.

Lemma links_extends a a' : arena_wf a -> extends a a' -> List.length a' = List.length a -> links_ok a -> links_ok a'.
Proof.
  intros Hw He Hl H x Hx. rewrite Hl in Hx. destruct (H x Hx) as (hdr & E1 & E2). exists hdr. rewrite (ex_hash a a' He x Hx). split; [exact E1|].
  rewrite E2. unfold Header. rewrite (ex_parent a a' He x Hx). cbn [bh_PrevBlock]. destruct (bn_parent (deref a x)) as [p|] eqn:Ep; [|reflexivity].
  destruct (height_parent a x p Hw Hx Ep) as (_ & Hpl & _). now rewrite (ex_hash a a' He p Hpl).
Qed.
End Universe.
End Branches.
