(* ===== verification/ScriptVal.v ===== *)
(** * Running the scripts of a block (blockchain/scriptval.go,
      txscript/hashcache.go)

    checkBlockScripts makes an item of every input and hands the items to a
    pool of goroutines over unbuffered channels.  The pool is a labelled step
    function on the state of the dispatcher and of the workers; a label names
    the goroutine that moves, so that a list of labels is a schedule.  The
    workers share a signature cache with each other and with the rest of the
    node: each item has a list of what others add to the cache before each of
    the accesses its engine makes. *)

From Stdlib Require Import ZArith List Lia Bool String.
From stdpp Require Import gmap.
From S2P Require Import Prelude GoSlice GoIO WireCommon WireTx WireMsgs Merkle Script SigHash Taproot Engine EngineTheorems EngineCache ChainIO UtxoView Rules.
Import ListNotations.
Local Open Scope list_scope.
Local Open Scope Z_scope.
Local Open Scope go_scope.

(** ** The pool *)

Inductive workerState : Type :=
| Idle
| Working (item : nat)
| Sending (item : nat) (result : option RuleError)
| Exited.

(** The dispatcher in its loop, or returned with the quit channel closed. *)
Inductive dispatcher : Type := Running | Returned (result : option RuleError).

Record txValidator : Type := mkValidator {
  currentItem : nat;
  processedItems : nat;
  disp : dispatcher;
  workers : list workerState
}.

(** What happens next: the item goes to worker [k], worker [k] ends its work,
    its result is received, the dispatcher leaves its loop, or worker [k] sees
    the closed quit channel. *)
Inductive label : Type := Hand (k : nat) | Work (k : nat) | Deliver (k : nat) | Finish | Quit (k : nat).

Section Pool.
Context (check : nat -> outcome RuleError unit) (numInputs : nat).

Definition set_worker (p : txValidator) (k : nat) (w : workerState) : txValidator :=
  mkValidator (currentItem p) (processedItems p) (disp p) (<[k := w]> (workers p)).

Definition step (p : txValidator) (l : label) : option txValidator :=
  match l, disp p with
  | Hand k, Running =>
      if (processedItems p <? numInputs)%nat && (currentItem p <? numInputs)%nat then
        match workers p !! k with
        | Some Idle =>
            Some (set_worker (mkValidator (S (currentItem p)) (processedItems p) Running (workers p)) k (Working (currentItem p)))
        | _ => None
        end
      else None
  | Work k, _ =>
      match workers p !! k with
      | Some (Working i) =>
          match check i with
          | Ok _ => Some (set_worker p k (Sending i None))
          | Err e => Some (set_worker p k (Sending i (Some e)))
          | Panic => None
          end
      | _ => None
      end
  | Deliver k, Running =>
      if (processedItems p <? numInputs)%nat then
        match workers p !! k with
        | Some (Sending i None) =>
            Some (set_worker (mkValidator (currentItem p) (S (processedItems p)) Running (workers p)) k Idle)
        | Some (Sending i (Some e)) =>
            Some (set_worker (mkValidator (currentItem p) (S (processedItems p)) (Returned (Some e)) (workers p)) k Exited)
        | _ => None
        end
      else None
  | Finish, Running =>
      if (processedItems p <? numInputs)%nat then None
      else Some (mkValidator (currentItem p) (processedItems p) (Returned None) (workers p))
  | Quit k, Returned _ =>
      match workers p !! k with
      | Some Idle => Some (set_worker p k Exited)
      | Some (Sending i None) => Some (set_worker p k Idle)
      | Some (Sending i (Some _)) => Some (set_worker p k Exited)
      | _ => None
      end
  | _, _ => None
  end.

Fixpoint runPool (p : txValidator) (schedule : list label) : option txValidator :=
  match schedule with
  | [] => Some p
  | l :: schedule' => match step p l with Some p' => runPool p' schedule' | None => None end
  end.

(** Validate with [numCPU] processors, before the first step. *)
Definition maxGoRoutines (numCPU : Z) : nat :=
  let n := if numCPU * 3 <=? 0 then 1 else numCPU * 3 in
  Z.to_nat (if Z.of_nat numInputs <? n then Z.of_nat numInputs else n).
Definition startPool (numCPU : Z) : txValidator := mkValidator 0 0 Running (repeat Idle (maxGoRoutines numCPU)).

(** The dispatcher has returned and every worker has ended. *)
Definition terminal (p : txValidator) : Prop :=
  match disp p with Running => False | Returned _ => Forall (fun w => w = Exited) (workers p) end.
End Pool.

(** ** Items *)

Record txValidateItem : Type := mkItem {
  vi_txInIndex : Z;
  vi_txIn : TxIn;
  vi_tx : MsgTx;
  vi_sigHashes : option TxSigHashes
}.

Abbreviation HashCache := (gmap (list Z) TxSigHashes).

Section Scripts.
Context `{C : Crypto}.
Context (evict : list (list Z * sigCacheEntry) -> nat) (DoubleHash : list Z -> list Z).

Definition fetcher (v : UtxoViewpoint) : PrevOutputFetcher := FetchPrevOutput v.

Definition ContainsHashes (h : HashCache) (txid : list Z) : bool :=
  match h !! txid with Some _ => true | None => false end.
Definition GetSigHashes (h : HashCache) (txid : list Z) : option TxSigHashes := h !! txid.
Definition PurgeSigHashes (h : HashCache) (txid : list Z) : HashCache := delete txid h.
Definition AddSigHashes (h : HashCache) (tx : MsgTx) (v : UtxoViewpoint) : outcome scriptErr HashCache :=
  let* sigHashes := NewTxSigHashes sha256 tx (fetcher v) in
  Ok (<[txHash DoubleHash tx := sigHashes]> h).

(** One item in a worker. *)
Definition validateInput (v : UtxoViewpoint) (flags : Z) (sigCache : option SharedCache) (txVI : txValidateItem) : outcome RuleError unit :=
  match LookupEntry v (ti_PreviousOutPoint (vi_txIn txVI)) with
  | None => Err ErrMissingTxOut
  | Some utxo =>
      match NewEngine (ue_pkScript utxo) (vi_tx txVI) (vi_txInIndex txVI) flags sigCache (vi_sigHashes txVI)
              (ue_amount utxo) (fetcher v) with
      | Ok vm =>
          match Execute evict vm with
          | Some (Ok _) => Ok tt
          | Some (Err _) => Err ErrScriptValidation
          | _ => Panic
          end
      | Err _ => Err ErrScriptMalformed
      | Panic => Panic
      end
  end.

(** The items of a transaction; inputs of coinbases have none. *)
Fixpoint itemsOf (tx : MsgTx) (sigHashes : option TxSigHashes) (i : Z) (ins : list TxIn) : list txValidateItem :=
  match ins with
  | [] => []
  | txIn :: ins' =>
      if op_Index (ti_PreviousOutPoint txIn) =? MaxUint32 then itemsOf tx sigHashes (i + 1) ins'
      else mkItem i txIn tx sigHashes :: itemsOf tx sigHashes (i + 1) ins'
  end.

(** The hashes of a transaction, from the cache when there is one. *)
Definition cachedHashes (segwitActive : bool) (hashCache : option HashCache) (v : UtxoViewpoint) (tx : MsgTx)
  : outcome scriptErr (option TxSigHashes * option HashCache) :=
  if segwitActive && HasWitness tx then
    match hashCache with
    | Some h =>
        let* h := if ContainsHashes h (txHash DoubleHash tx) then Ok h else AddSigHashes h tx v in
        Ok (GetSigHashes h (txHash DoubleHash tx), Some h)
    | None => let* sigHashes := NewTxSigHashes sha256 tx (fetcher v) in Ok (Some sigHashes, None)
    end
  else Ok (None, hashCache).

Fixpoint collectItems (segwitActive : bool) (hashCache : option HashCache) (v : UtxoViewpoint) (txs : list MsgTx)
  : outcome scriptErr (list txValidateItem * option HashCache) :=
  match txs with
  | [] => Ok ([], hashCache)
  | tx :: txs' =>
      let* (sigHashes, hashCache) := cachedHashes segwitActive hashCache v tx in
      let* (items, hashCache) := collectItems segwitActive hashCache v txs' in
      Ok (itemsOf tx sigHashes 0 (tx_TxIn tx) ++ items, hashCache)
  end.

Definition purgeAll (segwitActive : bool) (hashCache : option HashCache) (txs : list MsgTx) : option HashCache :=
  if segwitActive then
    match hashCache with
    | Some h => Some (fold_left (fun h tx => if HasWitness tx then PurgeSigHashes h (txHash DoubleHash tx) else h) txs h)
    | None => None
    end
  else hashCache.

(** The signature cache as the engine of an item sees it: the cache at the start,
    and what others add before each of its accesses. *)
Definition seenBy (sigCache : option SigCache) (others : list (list cacheAdd)) : option SharedCache :=
  option_map (fun c => mkShared c others) sigCache.

(** The result for an item by its place in the slice. *)
Definition checkItem (v : UtxoViewpoint) (flags : Z) (sigCache : option SigCache) (others : nat -> list (list cacheAdd))
    (items : list txValidateItem) (i : nat) : outcome RuleError unit :=
  match nth_error items i with Some it => validateInput v flags (seenBy sigCache (others i)) it | None => Panic end.

(** Validate answers [result] under some schedule. *)
Inductive Validate (numCPU : Z) (v : UtxoViewpoint) (flags : Z) (sigCache : option SigCache) (others : nat -> list (list cacheAdd))
    (items : list txValidateItem) : option RuleError -> Prop :=
| Validate_none : items = [] -> Validate numCPU v flags sigCache others items None
| Validate_pool schedule p result : items <> [] ->
    runPool (checkItem v flags sigCache others items) (List.length items) (startPool (List.length items) numCPU) schedule = Some p ->
    terminal p -> disp p = Returned result -> Validate numCPU v flags sigCache others items result.

Definition segwitFlag (flags : Z) : bool := has_flag flags ScriptVerifyWitness.

(** checkBlockScripts answers [result] and leaves [hashCache']. *)
Definition checkBlockScripts (numCPU : Z) (block : Block) (v : UtxoViewpoint) (flags : Z) (sigCache : option SigCache)
    (others : nat -> list (list cacheAdd)) (hashCache : option HashCache) (result : option RuleError) (hashCache' : option HashCache) : Prop :=
  exists items h, collectItems (segwitFlag flags) hashCache v (Transactions block) = Ok (items, h) /\
    Validate numCPU v flags sigCache others items result /\
    hashCache' = match result with None => purgeAll (segwitFlag flags) h (Transactions block) | Some _ => h end.

(** The same for one transaction, whose hashes stay in the cache. *)
Definition ValidateTransactionScripts (numCPU : Z) (tx : MsgTx) (v : UtxoViewpoint) (flags : Z) (sigCache : option SigCache)
    (others : nat -> list (list cacheAdd)) (hashCache : HashCache) (result : option RuleError) (hashCache' : HashCache) : Prop :=
  exists sigHashes, cachedHashes (segwitFlag flags) (Some hashCache) v tx = Ok (sigHashes, Some hashCache') /\
    Validate numCPU v flags sigCache others (itemsOf tx sigHashes 0 (tx_TxIn tx)) result.
End Scripts.

(** ** Every schedule *)

Lemma worker_split {A} (l : list A) k w : l !! k = Some w ->
  exists l1 l2, l = l1 ++ w :: l2 /\ forall y, <[k := y]> l = l1 ++ y :: l2.
Proof.
  intros H. apply list_elem_of_split_length in H. destruct H as (l1 & l2 & -> & ->). exists l1, l2. split; [reflexivity|].
  intros y. rewrite insert_app_r_alt by lia. now rewrite Nat.sub_diag.
Qed.

Definition held (w : workerState) : list nat :=
  match w with Working i | Sending i _ => [i] | _ => [] end.

Section Schedules.
Context (check : nat -> outcome RuleError unit) (numInputs : nat).
Hypothesis no_panic : forall i, (i < numInputs)%nat -> check i <> Panic.
Abbreviation move := (step check numInputs).

Definition worker_ok (w : workerState) : Prop :=
  match w with
  | Working i => (i < numInputs)%nat
  | Sending i None => (i < numInputs)%nat /\ check i = Ok tt
  | Sending i (Some e) => (i < numInputs)%nat /\ check i = Err e
  | _ => True
  end.

(** What an answer means. *)
Definition answer_ok (result : option RuleError) : Prop :=
  match result with
  | None => forall i, (i < numInputs)%nat -> check i = Ok tt
  | Some e => exists i, (i < numInputs)%nat /\ check i = Err e
  end.

(** While the dispatcher runs, an item that was handed out is with a worker or
    was good. *)
Record pool_inv (p : txValidator) : Prop := {
  pi_current : (currentItem p <= numInputs)%nat;
  pi_workers : Forall worker_ok (workers p);
  pi_disp : match disp p with
    | Running => Forall (fun w => w <> Exited) (workers p) /\
        exists good, List.length good = processedItems p /\ Forall (fun i => check i = Ok tt) good /\
          good ++ flat_map held (workers p) ≡ₚ seq 0 (currentItem p)
    | Returned result => answer_ok result
    end
}.

Definition weight (w : workerState) : nat :=
  match w with Idle => 1 | Working _ => 3 | Sending _ _ => 2 | Exited => 0 end.
Definition weights (ws : list workerState) : nat := fold_right (fun w n => weight w + n)%nat 0%nat ws.

(** The number of steps left is at most this. *)
Definition measure (p : txValidator) : nat :=
  3 * (numInputs - currentItem p) + weights (workers p) + match disp p with Running => 1 | Returned _ => 0 end.

Lemma weights_app l1 l2 : weights (l1 ++ l2) = (weights l1 + weights l2)%nat.
Proof. induction l1 as [|w l1 IH]; cbn [weights fold_right app] in *; [reflexivity|]. unfold weights in *. lia. Qed.

Lemma Forall_swap {A} (P : A -> Prop) l1 x y l2 : Forall P (l1 ++ x :: l2) -> P y -> Forall P (l1 ++ y :: l2).
Proof. rewrite !Forall_app, !Forall_cons. tauto. Qed.

Lemma Forall_mid {A} (P : A -> Prop) l1 x l2 : Forall P (l1 ++ x :: l2) -> P x.
Proof. rewrite Forall_app, Forall_cons. tauto. Qed.

(** The cases of a step, with the workers taken apart. *)
Inductive stepped (p : txValidator) : txValidator -> Prop :=
| stepped_hand l1 l2 : disp p = Running -> (processedItems p < numInputs)%nat -> (currentItem p < numInputs)%nat ->
    workers p = l1 ++ Idle :: l2 ->
    stepped p (mkValidator (S (currentItem p)) (processedItems p) Running (l1 ++ Working (currentItem p) :: l2))
| stepped_work l1 i l2 r : workers p = l1 ++ Working i :: l2 -> check i = match r with None => Ok tt | Some e => Err e end ->
    stepped p (mkValidator (currentItem p) (processedItems p) (disp p) (l1 ++ Sending i r :: l2))
| stepped_good l1 i l2 : disp p = Running -> (processedItems p < numInputs)%nat -> workers p = l1 ++ Sending i None :: l2 ->
    stepped p (mkValidator (currentItem p) (S (processedItems p)) Running (l1 ++ Idle :: l2))
| stepped_bad l1 i e l2 : disp p = Running -> (processedItems p < numInputs)%nat -> workers p = l1 ++ Sending i (Some e) :: l2 ->
    stepped p (mkValidator (currentItem p) (S (processedItems p)) (Returned (Some e)) (l1 ++ Exited :: l2))
| stepped_finish : disp p = Running -> (numInputs <= processedItems p)%nat ->
    stepped p (mkValidator (currentItem p) (processedItems p) (Returned None) (workers p))
| stepped_quit l1 w w' l2 r : disp p = Returned r -> workers p = l1 ++ w :: l2 -> (w, w') = (Idle, Exited) \/
      (exists i, (w, w') = (Sending i None, Idle)) \/ (exists i e, (w, w') = (Sending i (Some e), Exited)) ->
    stepped p (mkValidator (currentItem p) (processedItems p) (disp p) (l1 ++ w' :: l2)).

Lemma step_stepped p l p' : move p l = Some p' -> stepped p p'.
Proof.
  unfold step, set_worker. destruct l as [k|k|k| |k], (disp p) as [|r] eqn:Ed; cbn [workers currentItem processedItems disp]; try discriminate.
  - destruct (Nat.ltb_spec (processedItems p) numInputs), (Nat.ltb_spec (currentItem p) numInputs); cbn [andb]; try discriminate.
    destruct (workers p !! k) as [[]|] eqn:Ek; try discriminate. intros H1. injection H1 as <-.
    destruct (worker_split _ _ _ Ek) as (l1 & l2 & E & Hi). rewrite Hi. now apply stepped_hand.
  - destruct (workers p !! k) as [[|i| |]|] eqn:Ek; try discriminate. destruct (worker_split _ _ _ Ek) as (l1 & l2 & E & Hi).
    destruct (check i) as [[]|e|] eqn:Ec; try discriminate; intros H; injection H as <-; rewrite Hi, <- Ed;
      [now apply (stepped_work p l1 i l2 None) | now apply (stepped_work p l1 i l2 (Some e))].
  - destruct (workers p !! k) as [[|i| |]|] eqn:Ek; try discriminate. destruct (worker_split _ _ _ Ek) as (l1 & l2 & E & Hi).
    destruct (check i) as [[]|e|] eqn:Ec; try discriminate; intros H; injection H as <-; rewrite Hi, <- Ed;
      [now apply (stepped_work p l1 i l2 None) | now apply (stepped_work p l1 i l2 (Some e))].
  - destruct (Nat.ltb_spec (processedItems p) numInputs); [|discriminate].
    destruct (workers p !! k) as [[| |i [e|]|]|] eqn:Ek; try discriminate; intros H1; injection H1 as <-;
      destruct (worker_split _ _ _ Ek) as (l1 & l2 & E & Hi); rewrite Hi; [now apply (stepped_bad p l1 i e l2) | now apply (stepped_good p l1 i l2)].
  - destruct (Nat.ltb_spec (processedItems p) numInputs); [discriminate|]. intros H1. injection H1 as <-. now apply stepped_finish.
  - destruct (workers p !! k) as [[| |i [e|]|]|] eqn:Ek; try discriminate; intros H1; injection H1 as <-;
      destruct (worker_split _ _ _ Ek) as (l1 & l2 & E & Hi); rewrite Hi, <- Ed; eapply stepped_quit; eauto 6.
Qed.

(** Each step uses up some of the measure. *)
Lemma measure_step p p' : stepped p p' -> (measure p' < measure p)%nat.
Proof.
  intros H. destruct H; unfold measure; cbn [currentItem workers disp];
    repeat match goal with E : workers _ = _ |- _ => rewrite E | E : disp _ = _ |- _ => rewrite E end;
    rewrite ?weights_app; cbn [weights fold_right weight]; try (destruct (disp p)); try lia.
  all: match goal with H : _ \/ _ |- _ => destruct H as [[= -> ->]|[(? & [= -> ->])|(? & ? & [= -> ->])]] end; cbn [weight]; lia.
Qed.

Lemma held_mid l1 w l2 : flat_map held (l1 ++ w :: l2) ≡ₚ held w ++ flat_map held (l1 ++ l2).
Proof. rewrite !flat_map_app. cbn [flat_map]. rewrite !app_assoc. apply Permutation_app_tail, Permutation_app_comm. Qed.

Lemma seq_snoc n : seq 0 (S n) = seq 0 n ++ [n].
Proof. apply seq_S. Qed.

(** As many good items as there are items are all the items. *)
Lemma all_good good rest n : (numInputs <= List.length good)%nat ->
  Forall (fun i => check i = Ok tt) good -> good ++ rest ≡ₚ seq 0 n -> (n <= numInputs)%nat -> answer_ok None.
Proof.
  intros Hl Hg Hperm Hn i Hi. pose proof (Permutation_length Hperm) as E. rewrite length_app, length_seq in E.
  assert (Hr : rest = []) by (apply length_zero_iff_nil; lia). subst rest. rewrite app_nil_r in Hperm.
  rewrite Forall_forall in Hg. apply Hg. rewrite Hperm. apply list_elem_of_In, in_seq. lia.
Qed.

Lemma pool_inv_step p p' : stepped p p' -> pool_inv p -> pool_inv p'.
Proof.
  intros H [Hc Hw Hd]. destruct H as [l1 l2 Er Hp Hcur E|l1 i l2 r E Hk|l1 i l2 Er Hp E|l1 i e l2 Er Hp E|Er Hp|l1 w w' l2 r Er E Hq].
  - rewrite E in *. rewrite Er in Hd. destruct Hd as (Hex & good & Hl & Hg & Hperm). split; cbn [currentItem workers disp processedItems].
    + lia.
    + apply (Forall_swap _ _ Idle); [exact Hw | exact Hcur].
    + split; [apply (Forall_swap _ _ Idle); [exact Hex | discriminate]|]. exists good. split; [exact Hl|]. split; [exact Hg|].
      rewrite seq_snoc, <- Hperm, !held_mid. cbn [held app]. rewrite <- app_assoc. apply Permutation_app_head.
      apply Permutation_cons_append.
  - rewrite E in *. pose proof (Forall_mid _ _ _ _ Hw) as Hi. cbn [worker_ok] in Hi. split; cbn [currentItem workers disp processedItems].
    + exact Hc.
    + apply (Forall_swap _ _ (Working i)); [exact Hw|]. destruct r; split; assumption.
    + destruct (disp p); [|exact Hd]. destruct Hd as (Hex & good & Hl & Hg & Hperm).
      split; [apply (Forall_swap _ _ (Working i)); [exact Hex | discriminate]|]. exists good. split; [exact Hl|]. split; [exact Hg|].
      rewrite <- Hperm, !held_mid. reflexivity.
  - rewrite E in *. rewrite Er in Hd. destruct Hd as (Hex & good & Hl & Hg & Hperm). pose proof (Forall_mid _ _ _ _ Hw) as [_ Hi].
    split; cbn [currentItem workers disp processedItems].
    + exact Hc.
    + apply (Forall_swap _ _ (Sending i None)); [exact Hw | exact I].
    + split; [apply (Forall_swap _ _ (Sending i None)); [exact Hex | discriminate]|]. exists (i :: good).
      split; [cbn [List.length]; lia|]. split; [now constructor|].
      rewrite <- Hperm, !held_mid. cbn [held app]. apply Permutation_middle.
  - rewrite E in *. pose proof (Forall_mid _ _ _ _ Hw) as [Hi Hi']. split; cbn [currentItem workers disp processedItems].
    + exact Hc.
    + apply (Forall_swap _ _ (Sending i (Some e))); [exact Hw | exact I].
    + now exists i.
  - rewrite Er in Hd. destruct Hd as (Hex & good & Hl & Hg & Hperm). split; cbn [currentItem workers disp processedItems]; [exact Hc | exact Hw|].
    apply (all_good good (flat_map held (workers p)) (currentItem p)); auto. lia.
  - rewrite E in *. rewrite Er in Hd. split; cbn [currentItem workers disp processedItems]; [exact Hc | | now rewrite Er].
    apply (Forall_swap _ _ w); [exact Hw|]. destruct Hq as [[= -> ->]|[(? & [= -> ->])|(? & ? & [= -> ->])]]; exact I.
Qed.

Lemma measure_start numCPU : (measure (startPool numInputs numCPU) <= 3 * numInputs + maxGoRoutines numInputs numCPU + 1)%nat.
Proof.
  unfold measure, startPool. cbn [currentItem workers disp].
  enough (E : forall n, weights (repeat Idle n) = n) by (rewrite E; lia).
  induction n as [|n IH]; [reflexivity|]. cbn [repeat weights fold_right weight] in *. unfold weights in IH. lia.
Qed.

Lemma pool_inv_start numCPU : pool_inv (startPool numInputs numCPU).
Proof.
  split; cbn [startPool currentItem workers disp processedItems]; [lia | |].
  - apply Forall_forall. intros w Hw. apply list_elem_of_In, repeat_spec in Hw. now subst w.
  - split.
    + apply Forall_forall. intros w Hw. apply list_elem_of_In, repeat_spec in Hw. now subst w.
    + exists []. split; [reflexivity|]. split; [constructor|]. cbn [app seq].
      induction (maxGoRoutines numInputs numCPU) as [|n IH]; [constructor | exact IH].
Qed.

Lemma runPool_inv schedule : forall p p', pool_inv p -> runPool check numInputs p schedule = Some p' ->
  pool_inv p' /\ (List.length schedule + measure p' <= measure p)%nat /\ List.length (workers p') = List.length (workers p).
Proof.
  induction schedule as [|l schedule IH]; intros p p' Hp H; cbn [runPool] in H; [injection H as <-; auto|].
  destruct (step check numInputs p l) as [p1|] eqn:E; [|discriminate]. apply step_stepped in E.
  destruct (IH p1 p' (pool_inv_step p p1 E Hp) H) as (H1 & H2 & H3). split; [exact H1|].
  pose proof (measure_step p p1 E). cbn [List.length]. split; [lia|]. rewrite H3. clear -E.
  destruct E; cbn [workers]; repeat match goal with E : workers _ = _ |- _ => rewrite E end; rewrite ?length_app; reflexivity.
Qed.

Lemma find_worker (P : workerState -> Prop) : (forall w, P w \/ ~ P w) -> forall ws,
  Forall P ws \/ exists k w, ws !! k = Some w /\ ~ P w.
Proof.
  intros Hdec. induction ws as [|w ws IH]; [now left|]. destruct (Hdec w) as [Hw|Hw]; [|right; now exists 0%nat, w].
  destruct IH as [IH|(k & w' & Hk & Hw')]; [left; now constructor | right; now exists (S k), w'].
Qed.

(** A worker with an item can always move. *)
Lemma busy_moves p k w i : pool_inv p -> workers p !! k = Some w -> held w = [i] -> (processedItems p < numInputs)%nat \/ disp p <> Running ->
  exists l, move p l <> None.
Proof.
  intros Hp Hk Hh Hd. destruct w as [|j|j r|]; try discriminate.
  - exists (Work k). unfold step. rewrite Hk.
    assert (Hj : (j < numInputs)%nat).
    { pose proof (pi_workers p Hp) as Hw. rewrite Forall_forall in Hw. exact (Hw (Working j) (list_elem_of_lookup_2 _ _ _ Hk)). }
    pose proof (no_panic j Hj). destruct (disp p), (check j); congruence.
  - destruct (disp p) as [|res] eqn:Ed.
    + exists (Deliver k). unfold step. rewrite Ed, Hk. destruct Hd as [Hd|Hd]; [|congruence].
      rewrite (proj2 (Nat.ltb_lt _ _) Hd). now destruct r.
    + exists (Quit k). unfold step. rewrite Ed, Hk. now destruct r.
Qed.

(** No state is stuck before the dispatcher has returned and the workers are gone. *)
Lemma pool_progress p : pool_inv p -> workers p <> [] -> terminal p \/ exists l, move p l <> None.
Proof.
  intros Hp Hne. destruct (disp p) as [|res] eqn:Ed.
  - right. pose proof (pi_disp p Hp) as Hd. rewrite Ed in Hd. destruct Hd as (Hex & good & Hl & Hg & Hperm).
    destruct (Nat.lt_ge_cases (processedItems p) numInputs) as [Hlt|Hge].
    2: { exists Finish. unfold step. rewrite Ed. rewrite (proj2 (Nat.ltb_ge _ _) Hge). discriminate. }
    destruct (find_worker (fun w => held w = []) (fun w => ltac:(destruct w; cbn; auto; right; discriminate)) (workers p)) as [Hall|(k & w & Hk & Hw)].
    + destruct (workers p) as [|w ws] eqn:Ew; [congruence|]. apply Forall_cons in Hall, Hex. destruct Hall as [Hw Hall], Hex as [Hx _].
      assert (w = Idle) as -> by (destruct w; cbn in Hw; congruence).
      assert (Hcur : (currentItem p < numInputs)%nat).
      { apply Permutation_length in Hperm. rewrite length_app, length_seq in Hperm.
        assert (E0 : flat_map held (Idle :: ws) = []) by (cbn [flat_map held app]; clear -Hall; induction Hall as [|x l E _ IH]; cbn [flat_map]; [reflexivity | now rewrite E, IH]).
        rewrite E0 in Hperm. cbn [List.length] in Hperm. lia. }
      exists (Hand 0). unfold step. rewrite Ed, Ew. rewrite (proj2 (Nat.ltb_lt _ _) Hlt), (proj2 (Nat.ltb_lt _ _) Hcur). discriminate.
    + assert (Hi : exists i, held w = [i]) by (destruct w; cbn in *; eauto; congruence). destruct Hi as [i Hi].
      apply (busy_moves p k w i Hp Hk Hi). now left.
  - destruct (find_worker (fun w => w = Exited) (fun w => ltac:(destruct w; auto; right; discriminate)) (workers p)) as [Hall|(k & w & Hk & Hw)].
    + left. unfold terminal. now rewrite Ed.
    + right. destruct w as [|j|j r|]; [| | |congruence].
      * exists (Quit k). unfold step. now rewrite Ed, Hk.
      * apply (busy_moves p k (Working j) j Hp Hk eq_refl). right. congruence.
      * apply (busy_moves p k (Sending j r) j Hp Hk eq_refl). right. congruence.
Qed.

(** Some schedule gets to the end. *)
Lemma pool_answers : forall p, pool_inv p -> workers p <> [] -> exists schedule p', runPool check numInputs p schedule = Some p' /\ terminal p'.
Proof.
  enough (H : forall n p, (measure p < n)%nat -> pool_inv p -> workers p <> [] -> exists schedule p', runPool check numInputs p schedule = Some p' /\ terminal p')
    by (intros p; apply (H (S (measure p))); lia).
  induction n as [|n IH]; intros p Hm Hp Hne; [lia|]. destruct (pool_progress p Hp Hne) as [Ht|[l Hl]]; [now exists [], p|].
  destruct (step check numInputs p l) as [p1|] eqn:E; [|congruence].
  assert (Hr : runPool check numInputs p [l] = Some p1) by (cbn [runPool]; now rewrite E).
  destruct (runPool_inv [l] p p1 Hp Hr) as (H1 & H2 & H3). cbn [List.length] in H2.
  destruct (IH p1) as (schedule & p' & Hrun & Hterm); [lia | exact H1 | intros E1; rewrite E1 in H3; destruct (workers p); discriminate || congruence|].
  exists (l :: schedule), p'. cbn [runPool]. rewrite E. now split.
Qed.
End Schedules.

Lemma maxGoRoutines_pos n numCPU : (0 < n)%nat -> (0 < maxGoRoutines n numCPU)%nat.
Proof.
  intros Hn. unfold maxGoRoutines. cbv zeta. destruct (Z.leb_spec (numCPU * 3) 0);
    match goal with |- context [if ?b then _ else _] => destruct b end; lia.
Qed.

(** C8: in every schedule of the dispatcher and the workers of the script validator
    for at least one item, none of which panics, whatever the number of processors,
    the number of steps is at most three for each item and one for each worker and
    one more; a state with no step left is one where the dispatcher has returned and
    every worker has ended, so nothing deadlocks and no goroutine stays behind; and
    the dispatcher returns nil only if every item is valid and otherwise the error
    of an invalid one. *)
Theorem pool_every_schedule check n numCPU schedule p :
  (0 < n)%nat -> (forall i, (i < n)%nat -> check i <> Panic) ->
  runPool check n (startPool n numCPU) schedule = Some p ->
  (List.length schedule <= 3 * n + maxGoRoutines n numCPU + 1)%nat /\
  (terminal p \/ exists l p', step check n p l = Some p') /\
  match disp p with
  | Running => True
  | Returned None => forall i, (i < n)%nat -> check i = Ok tt
  | Returned (Some e) => exists i, (i < n)%nat /\ check i = Err e
  end.
Proof.
  intros Hn Hnp H. destruct (runPool_inv check n schedule _ _ (pool_inv_start check n numCPU) H) as (Hi & Hm & Hl).
  pose proof (measure_start n numCPU). split; [lia|]. split.
  - destruct (pool_progress check n Hnp p Hi) as [Ht|[l Hs]]; [|now left|right].
    + intros E. rewrite E in Hl. cbn [startPool workers] in Hl. rewrite repeat_length in Hl. cbn [List.length] in Hl.
      pose proof (maxGoRoutines_pos n numCPU Hn). lia.
    + destruct (step check n p l) as [p'|] eqn:E; [|congruence]. now exists l, p'.
  - pose proof (pi_disp check n p Hi) as Hd. destruct (disp p) as [|[e|]]; [exact I | exact Hd | exact Hd].
Qed.

Definition sampleCheck (i : nat) : outcome RuleError unit := if (i =? 2)%nat then Err ErrScriptValidation else Ok tt.

Lemma pool_every_schedule_witness :
  exists p, runPool sampleCheck 4 (startPool 4 1) [Hand 2; Hand 0; Work 2; Deliver 2; Hand 1; Work 1; Deliver 1; Work 0] = Some p /\
    disp p = Returned (Some ErrScriptValidation) /\ exists l p', step sampleCheck 4 p l = Some p'.
Proof.
  destruct (runPool sampleCheck 4 (startPool 4 1) [Hand 2; Hand 0; Work 2; Deliver 2; Hand 1; Work 1; Deliver 1; Work 0]) as [p|] eqn:E;
    [|vm_compute in E; discriminate]. exists p. split; [reflexivity|].
  destruct (pool_every_schedule sampleCheck 4 1 _ p ltac:(lia) ltac:(intros i _; unfold sampleCheck; destruct (i =? 2)%nat; discriminate) E) as (_ & [Ht|Hs] & _).
  - exfalso. vm_compute in E. injection E as <-. cbn in Ht. inversion Ht; discriminate.
  - split; [vm_compute in E; now injection E as <- | exact Hs].
Defined.

(** ** The scripts of a block *)

Section Blocks.
Context `{C : Crypto}.
Context (evict : list (list Z * sigCacheEntry) -> nat) (DoubleHash : list Z -> list Z).
Abbreviation tid := (txHash DoubleHash).

(** The hashes of a transaction computed anew. *)
Definition freshHashes (segwitActive : bool) (v : UtxoViewpoint) (tx : MsgTx) : outcome scriptErr (option TxSigHashes) :=
  if segwitActive && HasWitness tx then let* m := NewTxSigHashes sha256 tx (fetcher v) in Ok (Some m) else Ok None.

(** The cache holds nothing false about the transactions. *)
Definition cache_good (hashCache : option HashCache) (v : UtxoViewpoint) (txs : list MsgTx) : Prop :=
  match hashCache with
  | None => True
  | Some h => forall tx m, tx ∈ txs -> h !! tid tx = Some m -> NewTxSigHashes sha256 tx (fetcher v) = Ok m
  end.

Lemma cachedHashes_spec segwit hc v tx txs m hc' : NoDup (map tid (tx :: txs)) -> cache_good hc v (tx :: txs) ->
  cachedHashes DoubleHash segwit hc v tx = Ok (m, hc') -> freshHashes segwit v tx = Ok m /\ cache_good hc' v txs.
Proof.
  intros Hd Hg H. unfold cachedHashes in H. unfold freshHashes. apply NoDup_cons in Hd. destruct Hd as [Hn _].
  assert (Hrest : cache_good hc v txs) by (destruct hc; [intros t x Ht; apply Hg; now right | exact I]).
  destruct (segwit && HasWitness tx); [|injection H as <- <-; split; [reflexivity | exact Hrest]].
  destruct hc as [h|].
  - unfold ContainsHashes in H. destruct (h !! tid tx) as [x|] eqn:Ex; cbn [obind] in H.
    + injection H as <- <-. unfold GetSigHashes. rewrite Ex. rewrite (Hg tx x); [|apply list_elem_of_here | exact Ex].
      split; [reflexivity | exact Hrest].
    + unfold AddSigHashes in H. destruct (NewTxSigHashes sha256 tx (fetcher v)) as [x| |]; [|discriminate..]. cbn [obind] in H.
      injection H as <- <-. unfold GetSigHashes. rewrite lookup_insert_eq. split; [reflexivity|].
      intros t y Ht. rewrite lookup_insert_ne; [now apply Hrest|]. intros E. apply Hn. rewrite E.
      apply list_elem_of_In, in_map, list_elem_of_In, Ht.
  - destruct (NewTxSigHashes sha256 tx (fetcher v)); [|discriminate..]. injection H as <- <-. split; [reflexivity | exact I].
Qed.

(** The item of an input. *)
Definition item_of (segwit : bool) (v : UtxoViewpoint) (txs : list MsgTx) (it : txValidateItem) : Prop :=
  vi_tx it ∈ txs /\ 0 <= vi_txInIndex it /\ nth_error (tx_TxIn (vi_tx it)) (Z.to_nat (vi_txInIndex it)) = Some (vi_txIn it) /\
  op_Index (ti_PreviousOutPoint (vi_txIn it)) <> MaxUint32 /\ freshHashes segwit v (vi_tx it) = Ok (vi_sigHashes it).

Lemma in_itemsOf tx m ins : forall i it, it ∈ itemsOf tx m i ins <->
  exists k ti, nth_error ins k = Some ti /\ op_Index (ti_PreviousOutPoint ti) <> MaxUint32 /\ it = mkItem (i + Z.of_nat k) ti tx m.
Proof.
  induction ins as [|x ins IH]; intros i it; cbn [itemsOf].
  { split; [intros H; inversion H | intros ([|k] & ti & H & _); discriminate]. }
  assert (Hsh : forall k : nat, i + 1 + Z.of_nat k = i + Z.of_nat (S k)) by lia.
  destruct (Z.eqb_spec (op_Index (ti_PreviousOutPoint x)) MaxUint32) as [E|E].
  - rewrite IH. split.
    + intros (k & ti & Hk & Hn & ->). exists (S k), ti. now rewrite Hsh.
    + intros ([|k] & ti & Hk & Hn & ->); cbn [nth_error] in Hk; [injection Hk as ->; contradiction|]. exists k, ti. now rewrite Hsh.
  - rewrite elem_of_cons, IH. split.
    + intros [->|(k & ti & Hk & Hn & ->)]; [exists 0%nat, x; rewrite Z.add_0_r; auto | exists (S k), ti; now rewrite Hsh].
    + intros ([|k] & ti & Hk & Hn & ->); cbn [nth_error] in Hk; [injection Hk as <-; left; now rewrite Z.add_0_r|].
      right. exists k, ti. now rewrite Hsh.
Qed.

Lemma collectItems_spec segwit v txs : forall hc items hc', NoDup (map tid txs) -> cache_good hc v txs ->
  collectItems DoubleHash segwit hc v txs = Ok (items, hc') -> forall it, it ∈ items <-> item_of segwit v txs it.
Proof.
  induction txs as [|tx txs IH]; intros hc items hc' Hd Hg H it; cbn [collectItems] in H.
  { injection H as <- _. split; [intros Hi; inversion Hi | intros (Hi & _); inversion Hi]. }
  apply obind_Ok in H. destruct H as ([m hc1] & Hm & H). destruct (cachedHashes_spec segwit hc v tx txs m hc1 Hd Hg Hm) as [Hf Hg1].
  apply obind_Ok in H. destruct H as ([items1 hc2] & H1 & H). injection H as <- <-. apply NoDup_cons in Hd. destruct Hd as [Hn Hd].
  rewrite elem_of_app, (IH hc1 items1 hc2 Hd Hg1 H1), in_itemsOf. split.
  - intros [(k & ti & Hk & Hi & ->)|(Ht & Hrest)].
    + split; [apply list_elem_of_here|]. cbn [vi_txInIndex vi_tx vi_txIn vi_sigHashes]. rewrite Z.add_0_l, Nat2Z.id. split; [lia|]. auto.
    + split; [now right | exact Hrest].
  - intros (Ht & H0 & Hk & Hi & Hs). apply elem_of_cons in Ht. destruct Ht as [E|Ht]; [left | right; split; auto].
    rewrite E in Hk, Hs. exists (Z.to_nat (vi_txInIndex it)), (vi_txIn it). split; [exact Hk|]. split; [exact Hi|].
    rewrite Hf in Hs. injection Hs as Hs. rewrite Z.add_0_l, Z2Nat.id by lia. destruct it. cbn in *. now subst.
Qed.

(** The signature cache makes no difference for an item. *)
Lemma validateInput_cache {L : CryptoLaws C} {F : SignatureForms C} v flags sc it :
  match sc with Some sh => shared_all verified sh | None => True end ->
  validateInput evict v flags sc it = validateInput evict v flags None it.
Proof.
  intros Hs. unfold validateInput. destruct (LookupEntry _ _) as [utxo|]; [|reflexivity].
  pose proof (NewEngine_twin (ue_pkScript utxo) (vi_tx it) (vi_txInIndex it) flags sc (vi_sigHashes it) (ue_amount utxo) (fetcher v) Hs) as H.
  destruct (NewEngine _ _ _ _ sc _ _ _) as [vm|e|], (NewEngine _ _ _ _ None _ _ _) as [vm'|e'|]; cbn [sim] in H; try contradiction; auto.
  destruct H as [-> H]. pose proof (sim_verdict _ _ (Execute_twin evict vm H)) as E.
  destruct (Execute evict vm) as [[]|], (Execute evict (strip vm)) as [[]|]; cbn in E; congruence.
Qed.

(** What is in the signature cache, and what others add to it, has been verified. *)
Definition sigs_good (sigCache : option SigCache) (others : nat -> list (list cacheAdd)) : Prop :=
  match sigCache with Some c => cache_all verified c | None => True end /\
  forall i, Forall (Forall (fun x => verified (ca_sigHash x) (ca_sig x) (ca_pubKey x))) (others i).

Lemma checkItem_cache {L : CryptoLaws C} {F : SignatureForms C} v flags sc others items i it : sigs_good sc others ->
  nth_error items i = Some it -> checkItem evict v flags sc others items i = validateInput evict v flags None it.
Proof.
  intros [H1 H2] E. unfold checkItem. rewrite E. apply validateInput_cache. destruct sc; [split; [exact H1 | exact (H2 i)] | exact I].
Qed.

Lemma Validate_spec {L : CryptoLaws C} {F : SignatureForms C} numCPU v flags sc others items result : sigs_good sc others ->
  Validate evict numCPU v flags sc others items result ->
  match result with
  | None => forall it, it ∈ items -> validateInput evict v flags None it = Ok tt
  | Some e => exists it, it ∈ items /\ validateInput evict v flags None it = Err e
  end.
Proof.
  intros Hg H. destruct H as [E|schedule p result Hne Hr Ht Hd]; [subst; intros it Hit; inversion Hit|].
  destruct (runPool_inv _ _ _ _ _ (pool_inv_start (checkItem evict v flags sc others items) (List.length items) numCPU) Hr) as (Hi & _).
  pose proof (pi_disp _ _ p Hi) as Ha. rewrite Hd in Ha. destruct result as [e|].
  - destruct Ha as (i & Hlt & Hc). destruct (nth_error items i) as [it|] eqn:E; [|apply nth_error_None in E; lia].
    exists it. split; [apply list_elem_of_In; now apply nth_error_In in E|]. now rewrite <- (checkItem_cache v flags sc others items i it Hg E).
  - intros it Hit. apply list_elem_of_In, In_nth_error in Hit. destruct Hit as [i Ei].
    assert (Hlt : (i < List.length items)%nat) by (apply nth_error_Some; congruence).
    rewrite <- (checkItem_cache v flags sc others items i it Hg Ei). exact (Ha i Hlt).
Qed.

Lemma Validate_answers {L : CryptoLaws C} {F : SignatureForms C} numCPU v flags sc others items : sigs_good sc others ->
  (forall it, it ∈ items -> validateInput evict v flags None it <> Panic) -> exists result, Validate evict numCPU v flags sc others items result.
Proof.
  intros Hg Hnp. destruct items as [|it0 rest] eqn:Eits; [exists None; now constructor|]. rewrite <- Eits in *.
  assert (Hn : (0 < List.length items)%nat) by (subst; cbn; lia).
  assert (Hp : forall i, (i < List.length items)%nat -> checkItem evict v flags sc others items i <> Panic).
  { intros i Hi. destruct (nth_error items i) as [it|] eqn:E; [|apply nth_error_None in E; lia].
    rewrite (checkItem_cache v flags sc others items i it Hg E). apply Hnp, list_elem_of_In. now apply nth_error_In in E. }
  destruct (pool_answers _ _ Hp (startPool (List.length items) numCPU) (pool_inv_start _ _ _)) as (schedule & p & Hr & Ht).
  { cbn [startPool workers]. pose proof (maxGoRoutines_pos _ numCPU Hn). now destruct (maxGoRoutines _ _); [lia|]. }
  pose proof Ht as Hd. unfold terminal in Hd. destruct (disp p) as [|result] eqn:Ed; [contradiction|].
  exists result. apply (Validate_pool _ _ _ _ _ _ _ schedule p); [subst; discriminate | assumption..].
Qed.

Lemma purge_lookup txs : forall (h : HashCache) tx, tx ∈ txs -> HasWitness tx = true ->
  fold_left (fun h tx => if HasWitness tx then PurgeSigHashes h (tid tx) else h) txs h !! tid tx = None.
Proof.
  assert (Hkeep : forall txs (h : HashCache) k, h !! k = None ->
    fold_left (fun h tx => if HasWitness tx then PurgeSigHashes h (tid tx) else h) txs h !! k = None).
  { induction txs0 as [|t ts IH]; intros h k Hk; cbn [fold_left]; [exact Hk|]. apply IH. destruct (HasWitness t); [|exact Hk].
    unfold PurgeSigHashes. rewrite lookup_delete. now case_decide. }
  induction txs as [|t ts IH]; intros h tx Hin Hw; [inversion Hin|]. cbn [fold_left]. apply elem_of_cons in Hin.
  destruct Hin as [<-|Hin]; [|now apply IH]. apply Hkeep. rewrite Hw. apply lookup_delete_eq.
Qed.
End Blocks.

(** C9: for a block whose transactions have distinct hashes, whatever the schedule
    of the pool, the contents of a hash cache that holds nothing false and of a
    signature cache that holds verified signatures only, and the signatures,
    verified ones only, that other goroutines put into that cache meanwhile:
    checkBlockScripts answers nil only if every input of the block that is not a
    coinbase input passes the engine without a signature cache and with the hashes
    of its transaction computed anew, and otherwise answers the error of such an
    input; after success the hash cache holds no hashes of the witness transactions
    of the block. If the hashes of the transactions can be computed and no input
    makes the engine panic, it answers. Assumed of the elliptic curve library: a
    signature that parses under the strict rules parses to the same under the
    others, and what parses as a public key has 33 or 65 bytes, as a Schnorr public
    key 32. *)
Theorem block_scripts_correct `{C : Crypto} {L : CryptoLaws C} {F : SignatureForms C} evict DoubleHash numCPU block v flags sigCache others hashCache :
  NoDup (map (txHash DoubleHash) (Transactions block)) -> cache_good DoubleHash hashCache v (Transactions block) -> sigs_good sigCache others ->
  (forall result hashCache', checkBlockScripts evict DoubleHash numCPU block v flags sigCache others hashCache result hashCache' ->
    match result with
    | None => (forall it, item_of (segwitFlag flags) v (Transactions block) it -> validateInput evict v flags None it = Ok tt) /\
        (forall h tx, hashCache' = Some h -> segwitFlag flags = true -> tx ∈ Transactions block -> HasWitness tx = true ->
           ContainsHashes h (txHash DoubleHash tx) = false)
    | Some e => exists it, item_of (segwitFlag flags) v (Transactions block) it /\ validateInput evict v flags None it = Err e
    end) /\
  (forall items h, collectItems DoubleHash (segwitFlag flags) hashCache v (Transactions block) = Ok (items, h) ->
    (forall it, item_of (segwitFlag flags) v (Transactions block) it -> validateInput evict v flags None it <> Panic) ->
    exists result hashCache', checkBlockScripts evict DoubleHash numCPU block v flags sigCache others hashCache result hashCache').
Proof.
  intros Hd Hg Hs.
  assert (Hitems : forall items h, collectItems DoubleHash (segwitFlag flags) hashCache v (Transactions block) = Ok (items, h) ->
    forall it, it ∈ items <-> item_of (segwitFlag flags) v (Transactions block) it).
  { intros items h Hc. exact (collectItems_spec DoubleHash (segwitFlag flags) v (Transactions block) hashCache items h Hd Hg Hc). }
  split.
  - intros result hashCache' (items & h & Hc & Hv & ->). pose proof (Hitems items h Hc) as Hit.
    apply (Validate_spec evict numCPU v flags sigCache others items result Hs) in Hv. destruct result as [e|].
    + destruct Hv as (it & Hi & E). exists it. split; [now apply Hit | exact E].
    + split; [intros it Hi; apply Hv; now apply Hit|]. intros h' tx Eh Hsw Htx Hw. unfold purgeAll in Eh. rewrite Hsw in Eh.
      destruct h as [h0|]; [|discriminate]. injection Eh as <-. unfold ContainsHashes. now rewrite purge_lookup.
  - intros items h Hc Hnp. pose proof (Hitems items h Hc) as Hit.
    destruct (Validate_answers evict numCPU v flags sigCache others items Hs) as [result Hv]; [intros it Hi; apply Hnp; now apply Hit|].
    eexists result, _, items, h. split; [exact Hc|]. split; [exact Hv | reflexivity].
Qed.

Definition scriptView : UtxoViewpoint :=
  mkView {[ mkOutPoint (repeat 0 32) 0 := Some (mkUtxoEntry 1000 keyScript 5 0) ]} zeroHash.
Definition scriptBlock : Block := mkBlock (mkMsgBlock (mkBlockHeader 1 zeroHash zeroHash 0 0 0) [cbTx; keyTx keySig]) 9.
Definition scriptOthers (i : nat) : list (list cacheAdd) := [[mkCacheAdd 0 keyHash keyHash keyBytes]].

Lemma block_scripts_correct_witness :
  checkBlockScripts (C := toyCrypto) sampleEvict (fun l => toyId (rev l)) 2 scriptBlock scriptView sampleFlags (Some (NewSigCache 10)) scriptOthers (Some ∅) None (Some ∅) /\
  forall it, item_of (C := toyCrypto) (segwitFlag sampleFlags) scriptView (Transactions scriptBlock) it ->
    validateInput (C := toyCrypto) sampleEvict scriptView sampleFlags None it = Ok tt.
Proof.
  assert (H : checkBlockScripts (C := toyCrypto) sampleEvict (fun l => toyId (rev l)) 2 scriptBlock scriptView sampleFlags
    (Some (NewSigCache 10)) scriptOthers (Some ∅) None (Some ∅)).
  { eexists _, _. split; [vm_compute; reflexivity|]. split; [|vm_compute; reflexivity].
    eapply (Validate_pool _ _ _ _ _ _ _ [Hand 0; Work 0; Deliver 0; Finish; Quit 0]); [discriminate | vm_compute; reflexivity | | reflexivity].
    repeat constructor. }
  split; [exact H|].
  refine (proj1 (proj1 (block_scripts_correct (C := toyCrypto) (L := toyLaws) (F := toyForms) sampleEvict (fun l => toyId (rev l)) 2 scriptBlock scriptView
    sampleFlags (Some (NewSigCache 10)) scriptOthers (Some ∅) _ _ _) None (Some ∅) H)).
  - change (map _ _) with [txHash (fun l => toyId (rev l)) cbTx; txHash (fun l => toyId (rev l)) (keyTx keySig)]. apply NoDup_cons. split; [|apply NoDup_singleton].
    rewrite list_elem_of_singleton. vm_compute. discriminate.
  - intros tx m _ Hm. rewrite lookup_empty in Hm. discriminate.
  - split; [constructor|]. intros i. repeat constructor.
    apply (verified_ecdsa (C := toyCrypto) false _ _ _ keyHash keyBytes); vm_compute; reflexivity.
Defined.
