(* ===== verification/Chain.v ===== *)
(** * The chain (blockchain/chain.go)

    What the chain does with a block it accepts: connecting it to the end of
    the best chain, disconnecting it again, and moving the best chain to a
    branch with more work.  The node keeps the set of unspent outputs
    ([utreexoView] is nil), has no optional indexes ([indexManager] is nil) and
    does not prune ([pruneTarget] is 0).  Notifications and log output are left
    out.

    An operation takes the state of the chain and gives the new state together
    with its result, so that what an operation has done before it fails is part
    of the model.  Of the buckets of the database each is a map; a failed
    transaction leaves them as they were. *)

From Stdlib Require Import ZArith List Lia Bool String.
From stdpp Require Import gmap.
From S2P Require Import Prelude GoSlice GoIO WireCommon WireTx WireMsgs Merkle Compress Difficulty ChainIO BlockIndex ChainView Retarget Index Threshold UtxoView UtxoCache Rules Connect.
Import ListNotations.
Local Open Scope string_scope.
Local Open Scope list_scope.
Local Open Scope Z_scope.
Local Open Scope go_scope.

(** ** The database *)

(** The utxo bucket; the stored blocks; the spend journal; the two directions
    of the index of the main chain; the best state; the rows of the block
    index. *)
Record chainDB : Type := mkChainDB {
  cd_utxo : utxoDB;
  cd_blocks : gmap (list Z) MsgBlock;
  cd_journal : gmap (list Z) (list Z);
  cd_hashIndex : gmap (list Z) (list Z);
  cd_heightIndex : gmap (list Z) (list Z);
  cd_best : option (list Z);
  cd_rows : gmap (list Z) (list Z)
}.

Definition set_utxo (db : chainDB) (u : utxoDB) : chainDB :=
  mkChainDB u (cd_blocks db) (cd_journal db) (cd_hashIndex db) (cd_heightIndex db) (cd_best db) (cd_rows db).

(** The best state, as the rest of the node sees it. *)
Record BestState : Type := mkBestState {
  bst_Hash : list Z;
  bst_Height : Z;
  bst_Bits : Z;
  bst_BlockSize : Z;
  bst_BlockWeight : Z;
  bst_NumTxns : Z;
  bst_TotalTxns : Z;
  bst_MedianTime : Z
}.

Definition newBestState (node : blockNode) (blockSize blockWeight numTxns totalTxns medianTime : Z) : BestState :=
  mkBestState (bn_hash node) (bn_height node) (bn_bits node) blockSize blockWeight numTxns totalTxns medianTime.

Definition dbPutBestState (db : chainDB) (snapshot : BestState) (workSum : Z) : outcome chainErr chainDB :=
  let* serializedData :=
    serializeBestChainState (mkBestChainState (bst_Hash snapshot) (u32 (bst_Height snapshot)) (bst_TotalTxns snapshot) workSum) in
  Ok (mkChainDB (cd_utxo db) (cd_blocks db) (cd_journal db) (cd_hashIndex db) (cd_heightIndex db) (Some serializedData) (cd_rows db)).

Definition dbPutBlockIndex (db : chainDB) (hash : list Z) (height : Z) : chainDB :=
  let serializedHeight := le_put 4 (u32 height) in
  mkChainDB (cd_utxo db) (cd_blocks db) (cd_journal db) (<[hash := serializedHeight]> (cd_hashIndex db))
    (<[serializedHeight := hash]> (cd_heightIndex db)) (cd_best db) (cd_rows db).

Definition dbRemoveBlockIndex (db : chainDB) (hash : list Z) (height : Z) : chainDB :=
  let serializedHeight := le_put 4 (u32 height) in
  mkChainDB (cd_utxo db) (cd_blocks db) (cd_journal db) (delete hash (cd_hashIndex db))
    (delete serializedHeight (cd_heightIndex db)) (cd_best db) (cd_rows db).

Definition dbFetchHeightByHash (db : chainDB) (hash : list Z) : outcome chainErr Z :=
  match cd_hashIndex db !! hash with
  | None => Err errNotInMainChain
  | Some serializedHeight => Ok (i32 (le_get serializedHeight))
  end.

(** ** The chain *)

Record orphanBlock : Type := mkOrphan { ob_block : MsgBlock; ob_expiration : Z }.

Record chainState : Type := mkChain {
  ch_index : blockIndex;
  ch_bestChain : chainView;
  ch_bestHeader : chainView;
  ch_cache : utxoCache;
  ch_db : chainDB;
  ch_snapshot : BestState;
  ch_deployments : list stateCache;
  ch_warnings : list stateCache;
  ch_warned : bool;
  ch_checkpoint : checkpointState;
  ch_orphans : gmap (list Z) orphanBlock;
  ch_prevOrphans : gmap (list Z) (list orphanBlock);
  ch_oldestOrphan : option orphanBlock
}.

Definition with_index (s : chainState) (x : blockIndex) : chainState :=
  mkChain x (ch_bestChain s) (ch_bestHeader s) (ch_cache s) (ch_db s) (ch_snapshot s) (ch_deployments s) (ch_warnings s)
    (ch_warned s) (ch_checkpoint s) (ch_orphans s) (ch_prevOrphans s) (ch_oldestOrphan s).
Definition with_bestChain (s : chainState) (x : chainView) : chainState :=
  mkChain (ch_index s) x (ch_bestHeader s) (ch_cache s) (ch_db s) (ch_snapshot s) (ch_deployments s) (ch_warnings s)
    (ch_warned s) (ch_checkpoint s) (ch_orphans s) (ch_prevOrphans s) (ch_oldestOrphan s).
Definition with_bestHeader (s : chainState) (x : chainView) : chainState :=
  mkChain (ch_index s) (ch_bestChain s) x (ch_cache s) (ch_db s) (ch_snapshot s) (ch_deployments s) (ch_warnings s)
    (ch_warned s) (ch_checkpoint s) (ch_orphans s) (ch_prevOrphans s) (ch_oldestOrphan s).
Definition with_cache (s : chainState) (x : utxoCache) : chainState :=
  mkChain (ch_index s) (ch_bestChain s) (ch_bestHeader s) x (ch_db s) (ch_snapshot s) (ch_deployments s) (ch_warnings s)
    (ch_warned s) (ch_checkpoint s) (ch_orphans s) (ch_prevOrphans s) (ch_oldestOrphan s).
Definition with_db (s : chainState) (x : chainDB) : chainState :=
  mkChain (ch_index s) (ch_bestChain s) (ch_bestHeader s) (ch_cache s) x (ch_snapshot s) (ch_deployments s) (ch_warnings s)
    (ch_warned s) (ch_checkpoint s) (ch_orphans s) (ch_prevOrphans s) (ch_oldestOrphan s).
Definition with_snapshot (s : chainState) (x : BestState) : chainState :=
  mkChain (ch_index s) (ch_bestChain s) (ch_bestHeader s) (ch_cache s) (ch_db s) x (ch_deployments s) (ch_warnings s)
    (ch_warned s) (ch_checkpoint s) (ch_orphans s) (ch_prevOrphans s) (ch_oldestOrphan s).
(** The caches of the states of the deployments and of unknown rules. *)
Definition with_votes (s : chainState) (deployments warnings : list stateCache) (warned : bool) : chainState :=
  mkChain (ch_index s) (ch_bestChain s) (ch_bestHeader s) (ch_cache s) (ch_db s) (ch_snapshot s) deployments warnings
    warned (ch_checkpoint s) (ch_orphans s) (ch_prevOrphans s) (ch_oldestOrphan s).
Definition with_checkpoint (s : chainState) (x : checkpointState) : chainState :=
  mkChain (ch_index s) (ch_bestChain s) (ch_bestHeader s) (ch_cache s) (ch_db s) (ch_snapshot s) (ch_deployments s) (ch_warnings s)
    (ch_warned s) x (ch_orphans s) (ch_prevOrphans s) (ch_oldestOrphan s).
Definition with_orphans (s : chainState) (orphans : gmap (list Z) orphanBlock) (prev : gmap (list Z) (list orphanBlock))
    (oldest : option orphanBlock) : chainState :=
  mkChain (ch_index s) (ch_bestChain s) (ch_bestHeader s) (ch_cache s) (ch_db s) (ch_snapshot s) (ch_deployments s) (ch_warnings s)
    (ch_warned s) (ch_checkpoint s) orphans prev oldest.

(** ** Operations on the chain

    A result together with the state it was reached in. *)

Definition M (A : Type) : Type := chainState -> chainState * outcome ruleErr A.

Definition retM {A} (x : A) : M A := fun s => (s, Ok x).
Definition bindM {A B} (m : M A) (k : A -> M B) : M B :=
  fun s => match m s with
           | (s, Ok x) => k x s
           | (s, Err e) => (s, Err e)
           | (s, Panic) => (s, Panic)
           end.
Definition getM : M chainState := fun s => (s, Ok s).
Definition modifyM (f : chainState -> chainState) : M unit := fun s => (f s, Ok tt).
Definition throwM {A} (e : ruleErr) : M A := fun s => (s, Err e).
Definition liftM {A} (o : outcome ruleErr A) : M A := fun s => (s, o).
(** An operation whose error is inspected. *)
Definition tryM {A} (m : M A) : M (outcome ruleErr A) :=
  fun s => match m s with (s, Panic) => (s, Panic) | (s, o) => (s, Ok o) end.

Declare Scope chain_scope.
Delimit Scope chain_scope with chain.
Notation "'do!' x := m 'in' k" := (bindM m (fun x => k))
  (at level 10, x name, m at level 100, k at level 200) : chain_scope.
Notation "'do!' ( x , y ) := m 'in' k" := (bindM m (fun p => let (x, y) := p in k))
  (at level 10, x name, y name, m at level 100, k at level 200) : chain_scope.
Notation "m ;! k" := (bindM m (fun _ => k)) (at level 199, right associativity) : chain_scope.
Local Open Scope chain_scope.

Definition panicM {A} : M A := liftM Panic.
Definition liftC {A} (o : outcome chainErr A) : M A := liftM (lift_chain o).
(** A calculation that can only panic. *)
Definition liftU {A} (o : outcome unit A) : M A := liftM (match o with Ok x => Ok x | _ => Panic end).
Definition assertM {A} (msg : string) : M A := throwM (Chain (AssertError msg)).

(** A database transaction: what it has written is discarded when it fails. *)
Definition Update {A} (m : M A) : M A :=
  fun s => match m s with
           | (s', Ok x) => (s', Ok x)
           | (s', o) => (with_db s' (ch_db s), o)
           end.

Section Chain.
Context {PubKey : Type} (ParsePubKey : list Z -> option PubKey)
        (SerializeUncompressed : PubKey -> list Z).
Context (CalculateRoughMapSize : Z -> Z -> Z) (CalculateMinEntries : Z -> Z -> Z).
(** The unspecified order in which Go ranges over a map of entries. *)
Context (iter : entryMap -> list (OutPoint * option UtxoEntry)).
Context (DoubleHash : list Z -> list Z).
Context (params : RuleParams).
(** What checkBlockScripts answers for a block, a view and flags. *)
Context (checkBlockScripts : Block -> UtxoViewpoint -> Z -> verdict).
(** dbFetchUtxoEntryByHash on the utxo bucket, for spend journals of older versions. *)
Context (dbByHash : utxoDB -> list Z -> outcome chainErr (option UtxoEntry)).
(** The clock, in nanoseconds, and the adjusted network time, in seconds. *)
Context (now adjustedTime : Z).

Definition blockHash (block : Block) : list Z := BlockHash DoubleHash (mb_Header (blk_msg block)).
Definition prevBlock (block : Block) : list Z := bh_PrevBlock (mb_Header (blk_msg block)).

(** ** Records *)

Definition dbFetchBlockByNode (db : chainDB) (node : blockNode) : outcome chainErr Block :=
  match cd_blocks db !! bn_hash node with
  | None => Err ErrBlockNotFound
  | Some msg => Ok (mkBlock msg (bn_height node))
  end.

Definition dbStoreBlock (db : chainDB) (block : Block) : chainDB :=
  match cd_blocks db !! blockHash block with
  | Some _ => db
  | None =>
      mkChainDB (cd_utxo db) (<[blockHash block := blk_msg block]> (cd_blocks db)) (cd_journal db) (cd_hashIndex db)
        (cd_heightIndex db) (cd_best db) (cd_rows db)
  end.

Definition dbPutSpendJournalEntry (db : chainDB) (hash : list Z) (stxos : list SpentTxOut) : outcome chainErr chainDB :=
  let* serialized := lift_derr (serializeSpendJournalEntry ParsePubKey stxos) in
  Ok (mkChainDB (cd_utxo db) (cd_blocks db) (<[hash := serialized]> (cd_journal db)) (cd_hashIndex db) (cd_heightIndex db)
        (cd_best db) (cd_rows db)).

Definition dbFetchSpendJournalEntry (db : chainDB) (block : Block) : outcome chainErr (list SpentTxOut) :=
  match cd_journal db !! blockHash block with
  | None => Err ErrSpendJournalNotFound
  | Some serialized =>
      let* blockTxns := slice (Transactions block) 1 (len (Transactions block)) in
      match deserializeSpendJournalEntry ParsePubKey SerializeUncompressed serialized blockTxns with
      | Err (deserializeErr _) => Err ErrCorruption
      | o => o
      end
  end.

Definition dbStoreBlockNode (rows : gmap (list Z) (list Z)) (a : arena) (node : nat) : gmap (list Z) (list Z) :=
  let n := deref a node in
  <[blockIndexKey (bn_hash n) (u32 (bn_height n)) := fst (blockRow (Header a node) (bn_status n))]> rows.

(** [blockIndex.flushToDB]; the order in which the rows are written is not
    observable. *)
Definition flushToDB : M unit :=
  modifyM (fun s =>
    let bi := ch_index s in
    let rows := fold_left (fun rows id => dbStoreBlockNode rows (bi_nodes bi) id) (elements (bi_dirty bi)) (cd_rows (ch_db s)) in
    let db := ch_db s in
    with_index
      (with_db s (mkChainDB (cd_utxo db) (cd_blocks db) (cd_journal db) (cd_hashIndex db) (cd_heightIndex db) (cd_best db) rows))
      (mkIndex (bi_nodes bi) (bi_index bi) ∅)).

Definition setStatusM (node : nat) (flags : Z) : M unit :=
  modifyM (fun s => with_index s (SetStatusFlags (ch_index s) node flags)).

(** [utxoCache.flush] in a transaction. *)
Definition flushM (mode : FlushMode) (bestHash : list Z) : M unit :=
  do! s := getM in
  do! (cache, utxo) := liftC (flush ParsePubKey CalculateRoughMapSize iter (ch_cache s) (cd_utxo (ch_db s)) mode bestHash now) in
  modifyM (fun s => with_db (with_cache s cache) (set_utxo (ch_db s) utxo)).

Definition setTipM (node : option nat) : M unit :=
  do! s := getM in
  do! c := liftU (setTip (bi_nodes (ch_index s)) (ch_bestChain s) node) in
  modifyM (fun s => with_bestChain s c).

Definition setHeaderTipM (node : nat) : M unit :=
  do! s := getM in
  do! c := liftU (setTip (bi_nodes (ch_index s)) (ch_bestHeader s) (Some node)) in
  modifyM (fun s => with_bestHeader s c).

Definition tipM : M nat :=
  do! s := getM in
  match tip (ch_bestChain s) with Some t => retM t | None => panicM end.

Definition nodeM (node : nat) : M blockNode := do! s := getM in retM (deref (bi_nodes (ch_index s)) node).
Definition statusM (node : nat) : M Z := do! s := getM in retM (NodeStatus (ch_index s) node).

(** ** Connecting and disconnecting *)

Definition isCurrent (s : chainState) (tip : nat) : bool :=
  let a := bi_nodes (ch_index s) in
  if match LatestCheckpoint (rp_checkpoints params) with Some c => height_of a tip <? cp_Height c | None => false end then false
  else adjustedTime - 24 * 60 * 60 <=? bn_timestamp (deref a tip).

Definition warnM (node : nat) : M unit :=
  do! s := getM in
  do! (r, deployments) := liftC (warnUnknownRuleActivations DoubleHash (ch_index s) (rp_votes params) (ch_warned s)
                                  (ch_warnings s) (ch_deployments s) node) in
  modifyM (fun s => with_votes s deployments (snd r) (fst r)).

(** The snapshot for a node that is about to be the tip, with its block and the
    new number of transactions. *)
Definition snapshotM (node : nat) (block : Block) (totalTxns : Z) : M BestState :=
  do! s := getM in
  do! medianTime := liftU (CalcPastMedianTime (bi_nodes (ch_index s)) node) in
  retM (newBestState (deref (bi_nodes (ch_index s)) node) (u64 (mb_SerializeSize (blk_msg block))) (u64 (GetBlockWeight block))
          (u64 (len (Transactions block))) totalTxns medianTime).

(** A change of the database that can fail. *)
Definition dbM (f : chainDB -> outcome chainErr chainDB) : M unit :=
  do! s := getM in
  do! db := liftC (f (ch_db s)) in
  modifyM (fun s => with_db s db).

Definition putUtxoView (view : UtxoViewpoint) (db : chainDB) : outcome chainErr chainDB :=
  let* utxo := dbPutUtxoView ParsePubKey iter (cd_utxo db) (Some view) in Ok (set_utxo db utxo).

(** [connectBlock].  The view, when there is one, is written to the database
    and committed. *)
Definition connectBlock (node : nat) (block : Block) (view : option UtxoViewpoint) (stxos : list SpentTxOut)
  : M (option UtxoViewpoint) :=
  do! t := tipM in
  do! tipNode := nodeM t in
  if negb (bytes_eqb (prevBlock block) (bn_hash tipNode))
  then assertM "connectBlock must be called with a block that extends the main chain"
  else
    do! numSpent := liftC (countSpentOutputs block) in
    if negb (len stxos =? numSpent) then assertM "connectBlock called with inconsistent spent transaction out information"
    else
      do! s := getM in
      (if isCurrent s t then warnM node else retM tt) ;!
      flushToDB ;!
      do! n := nodeM node in
      do! state := snapshotM node block (u64 (bst_TotalTxns (ch_snapshot s) + u64 (len (Transactions block)))) in
      (match view with Some _ => flushM FlushRequired (bst_Hash state) | None => retM tt end) ;!
      Update (
        dbM (fun db => dbPutBestState db state (bn_workSum n)) ;!
        dbM (fun db => Ok (dbPutBlockIndex db (blockHash block) (bn_height n))) ;!
        dbM (fun db => dbPutSpendJournalEntry db (blockHash block) stxos) ;!
        match view with Some v => dbM (putUtxoView v) | None => retM tt end) ;!
      setTipM (Some node) ;!
      modifyM (fun s => with_snapshot s state) ;!
      flushM FlushIfNeeded (bst_Hash state) ;!
      retM (option_map commit view).

(** [disconnectBlock], with the committed view. *)
Definition disconnectBlock (node : nat) (block : Block) (view : UtxoViewpoint) : M UtxoViewpoint :=
  do! t := tipM in
  do! tipNode := nodeM t in
  do! n := nodeM node in
  if negb (bytes_eqb (bn_hash n) (bn_hash tipNode))
  then assertM "disconnectBlock must be called with the block at the end of the main chain"
  else
    match bn_parent n with
    | None => panicM
    | Some prevNode =>
        do! p := nodeM prevNode in
        do! s := getM in
        do! prevBlock := liftC (dbFetchBlockByNode (ch_db s) p) in
        flushToDB ;!
        do! state := snapshotM prevNode prevBlock (u64 (bst_TotalTxns (ch_snapshot s) - u64 (len (Transactions block)))) in
        Update (
          dbM (fun db => dbPutBestState db state (bn_workSum n)) ;!
          dbM (fun db => Ok (dbRemoveBlockIndex db (blockHash block) (bn_height n))) ;!
          flushM FlushRequired (bst_Hash state) ;!
          dbM (putUtxoView view) ;!
          do! s := getM in
          liftC (dbFetchSpendJournalEntry (ch_db s) block)) ;!
        setTipM (Some prevNode) ;!
        modifyM (fun s => with_snapshot s state) ;!
        retM (commit view)
    end.

(** ** Reorganizing *)

(** [for n := node; n != nil && n != forkNode; n = n.parent]: the nodes on the
    way, the first one first, up to one that [stop] refuses. *)
Fixpoint walkTo (fuel : nat) (a : arena) (stop : nat -> bool) (forkNode n : option nat) : list nat * bool :=
  match n with
  | None => ([], false)
  | Some id =>
      if opt_nat_eqb n forkNode then ([], false)
      else if stop id then ([], true)
      else match fuel with
           | O => ([], false)
           | S fuel' => let (l, stopped) := walkTo fuel' a stop forkNode (bn_parent (deref a id)) in (id :: l, stopped)
           end
  end.

(** The nodes to detach, from the tip down, and those to attach, upwards. *)
Definition getReorganizeNodes (node : nat) : M (list nat * list nat) :=
  do! s := getM in
  let bi := ch_index s in
  let a := bi_nodes bi in
  match bn_parent (deref a node) with
  | None => panicM
  | Some parent =>
      if KnownInvalid (NodeStatus bi parent) then
        setStatusM node statusInvalidAncestor ;!
        retM ([], [])
      else
        let forkNode := findFork a (ch_bestChain s) (Some node) in
        let (attach, invalidChain) := walkTo (List.length a) a (fun n => KnownInvalid (NodeStatus bi n)) forkNode (Some node) in
        if invalidChain then
          modifyM (fun s => with_index s (fold_left (fun bi n => SetStatusFlags bi n statusInvalidAncestor) (rev attach) (ch_index s))) ;!
          retM ([], [])
        else
          let (detach, _) := walkTo (List.length a) a (fun _ => false) forkNode (tip (ch_bestChain s)) in
          retM (detach, rev attach)
  end.

Definition fetchInputsM (view : UtxoViewpoint) (block : Block) : M UtxoViewpoint :=
  do! s := getM in
  do! (view, cache) := liftC (fetchInputUtxos ParsePubKey SerializeUncompressed CalculateRoughMapSize CalculateMinEntries DoubleHash
                               view (ch_cache s) (cd_utxo (ch_db s)) block) in
  modifyM (fun s => with_cache s cache) ;!
  retM view.

Definition disconnectM (view : UtxoViewpoint) (block : Block) (stxos : list SpentTxOut) : M UtxoViewpoint :=
  do! s := getM in
  liftC (disconnectTransactions DoubleHash (dbByHash (cd_utxo (ch_db s))) view block stxos).

(** The cache after a call of checkConnectBlock that fails: what the call has
    fetched stays in it. *)
Definition cacheAfterCheck (s : chainState) (node : nat) (block : Block) (view : UtxoViewpoint) : utxoCache :=
  let n := deref (bi_nodes (ch_index s)) node in
  let db := cd_utxo (ch_db s) in
  if bytes_eqb (bn_hash n) (GenesisHash params) then ch_cache s
  else
    let first :=
      if negb (isBIP0030Node n) && (bn_height n <? BIP0034Height params)
      then fetchUtxos ParsePubKey SerializeUncompressed CalculateRoughMapSize CalculateMinEntries view (ch_cache s) db
             (blockOutpoints DoubleHash block)
      else Ok (view, ch_cache s) in
    match first with
    | Ok (view, cache) =>
        if negb (isBIP0030Node n) && (bn_height n <? BIP0034Height params) &&
           match checkOverwrites view (blockOutpoints DoubleHash block) with Ok _ => false | _ => true end
        then cache
        else
          match fetchInputUtxos ParsePubKey SerializeUncompressed CalculateRoughMapSize CalculateMinEntries DoubleHash
                  view cache db block with
          | Ok (_, cache) => cache
          | _ => cache
          end
    | _ => ch_cache s
    end.

(** [checkConnectBlock] without a record of the spent outputs.  A call that
    fails leaves the caches of the deployments as they were: their content does
    not change any answer. *)
Definition checkConnectM (node : nat) (block : Block) (view : UtxoViewpoint) : M UtxoViewpoint :=
  fun s =>
    match checkConnectBlock ParsePubKey SerializeUncompressed CalculateRoughMapSize CalculateMinEntries DoubleHash params
            (ch_index s) checkBlockScripts node block view None (ch_cache s) (cd_utxo (ch_db s)) (ch_deployments s) with
    | Ok r => (with_votes (with_cache s (co_cache r)) (co_caches r) (ch_warnings s) (ch_warned s), Ok (co_view r))
    | Err e => (with_cache s (cacheAfterCheck s node block view), Err e)
    | Panic => (s, Panic)
    end.

(** The blocks to detach, with what they spent, on a view. *)
Fixpoint verifyDetach (nodes : list nat) (view : UtxoViewpoint) : M (list (Block * list SpentTxOut) * UtxoViewpoint) :=
  match nodes with
  | [] => retM ([], view)
  | node :: nodes' =>
      do! n := nodeM node in
      do! s := getM in
      do! block := liftC (dbFetchBlockByNode (ch_db s) n) in
      if negb (bytes_eqb (bn_hash n) (blockHash block)) then assertM "detach block node hash does not match"
      else
        do! view := fetchInputsM view block in
        do! s := getM in
        do! stxos := liftC (dbFetchSpendJournalEntry (ch_db s) block) in
        do! view := disconnectM view block stxos in
        do! (blocks, view) := verifyDetach nodes' view in
        retM ((block, stxos) :: blocks, view)
  end.

(** The block of [node], which comes before [nodes'], on a view.  It is checked
    unless it is known to be valid. *)
Definition verifyAttachBlock (node : nat) (nodes' : list nat) (block : Block) (view : UtxoViewpoint) : M UtxoViewpoint :=
  do! n := nodeM node in
  if KnownValid (bn_status n) then
    do! view := fetchInputsM view block in
    do! (view, _) := liftC (connectTransactions DoubleHash view block None) in
    retM view
  else
    do! r := tryM (checkConnectM node block view) in
    match r with
    | Ok view => setStatusM node statusValid ;! retM view
    | Err (Rule code) =>
        setStatusM node statusValidateFailed ;!
        modifyM (fun s => with_index s (fold_left (fun bi dn => SetStatusFlags bi dn statusInvalidAncestor) nodes' (ch_index s))) ;!
        throwM (Rule code)
    | Err e => throwM e
    | Panic => panicM
    end.

Fixpoint verifyAttach (nodes : list nat) (view : UtxoViewpoint) : M (list Block) :=
  match nodes with
  | [] => retM []
  | node :: nodes' =>
      do! n := nodeM node in
      do! s := getM in
      do! block := liftC (dbFetchBlockByNode (ch_db s) n) in
      do! view := verifyAttachBlock node nodes' block view in
      do! blocks := verifyAttach nodes' view in
      retM (block :: blocks)
  end.

Definition verifyReorganizationValidity (detachNodes attachNodes : list nat)
  : M (list (Block * list SpentTxOut) * list Block) :=
  match detachNodes, attachNodes with
  | [], [] => retM ([], [])
  | _, _ =>
      do! t := tipM in
      do! s := getM in
      let a := bi_nodes (ch_index s) in
      let hash id := bn_hash (deref a id) in
      let parentHash id := match bn_parent (deref a id) with Some p => Some (hash p) | None => None end in
      if match detachNodes with d :: _ => negb (bytes_eqb (hash d) (hash t)) | [] => false end
      then assertM "reorganize nodes to detach are not for the current best chain"
      else
        do! sameFork :=
          match attachNodes, detachNodes with
          | f :: _, d :: _ =>
              match parentHash f, parentHash (List.last detachNodes d) with
              | Some x, Some y => retM (bytes_eqb x y)
              | _, _ => panicM
              end
          | _, _ => retM true
          end in
        if negb sameFork then assertM "reorganize nodes do not have the same fork point"
        else
          let view := SetBestHash NewUtxoViewpoint (hash t) in
          do! (detachBlocks, view) := verifyDetach detachNodes view in
          do! attachBlocks := verifyAttach attachNodes view in
          retM (detachBlocks, attachBlocks)
  end.

Fixpoint detachAll (nodes : list nat) (blocks : list (Block * list SpentTxOut)) (view : UtxoViewpoint) : M UtxoViewpoint :=
  match nodes, blocks with
  | [], _ => retM view
  | node :: nodes', (block, stxos) :: blocks' =>
      do! view := fetchInputsM view block in
      do! view := disconnectM view block stxos in
      do! view := disconnectBlock node block view in
      detachAll nodes' blocks' view
  | _ :: _, [] => panicM
  end.

Fixpoint attachAll (nodes : list nat) (blocks : list Block) (view : UtxoViewpoint) : M UtxoViewpoint :=
  match nodes, blocks with
  | [], _ => retM view
  | node :: nodes', block :: blocks' =>
      do! view := fetchInputsM view block in
      do! _ := liftC (countSpentOutputs block) in
      do! (view, stxos) := liftC (connectTransactions DoubleHash view block (Some [])) in
      do! view' := connectBlock node block (Some view) (match stxos with Some l => l | None => [] end) in
      attachAll nodes' blocks' (match view' with Some v => v | None => view end)
  | _ :: _, [] => panicM
  end.

Definition reorganizeChain (detachNodes attachNodes : list nat) : M unit :=
  match detachNodes, attachNodes with
  | [], [] => retM tt
  | _, _ =>
      do! (detachBlocks, attachBlocks) := verifyReorganizationValidity detachNodes attachNodes in
      do! view := detachAll detachNodes detachBlocks NewUtxoViewpoint in
      do! _ := attachAll attachNodes attachBlocks view in
      retM tt
  end.

(** ** The best chain *)

(** The checks of a block that extends the best chain. *)
Definition checkExtend (node : nat) (block : Block) : M unit :=
  do! r := tryM (checkConnectM node block (SetBestHash NewUtxoViewpoint (prevBlock block))) in
  match r with
  | Ok _ => setStatusM node statusValid ;! flushToDB
  | Err (Rule code) => setStatusM node statusValidateFailed ;! flushToDB ;! throwM (Rule code)
  | Err e => throwM e
  | Panic => panicM
  end.

(** The transactions of a block on the cache, which keeps what was done when one
    of them fails. *)
Definition connectCacheM (block : Block) : M (option (list SpentTxOut)) :=
  fun s =>
    let db := cd_utxo (ch_db s) in
    match cache_connectTransactions ParsePubKey SerializeUncompressed CalculateRoughMapSize CalculateMinEntries
            DoubleHash db (ch_cache s) block (Some []) with
    | Ok (cache, stxos) => (with_cache s cache, Ok stxos)
    | Err e =>
        (with_cache s (connectUntil ParsePubKey SerializeUncompressed CalculateRoughMapSize CalculateMinEntries DoubleHash
                         db (ch_cache s) (Transactions block) (blk_height block)), Err (Chain e))
    | Panic => (s, Panic)
    end.

(** Extending the best chain by the block of [node]. *)
Definition extendBestChain (node : nat) (block : Block) (flags : Z) : M bool :=
  do! status := statusM node in
  let fastAdd := has_flag flags BFFastAdd || KnownValid status in
  (if fastAdd then retM tt else checkExtend node block) ;!
  do! _ := liftC (countSpentOutputs block) in
  do! stxos := connectCacheM block in
  do! r := tryM (connectBlock node block None (match stxos with Some l => l | None => [] end)) in
  match r with
  | Ok _ =>
      do! status := statusM node in
      (if fastAdd || negb (KnownValid status) then setStatusM node statusValid ;! flushToDB else retM tt) ;!
      retM true
  | Err (Rule code) => setStatusM node statusValidateFailed ;! flushToDB ;! throwM (Rule code)
  | Err e => flushToDB ;! throwM e
  | Panic => panicM
  end.

Definition connectBestChain (node : nat) (block : Block) (flags : Z) : M bool :=
  do! t := tipM in
  do! tipNode := nodeM t in
  if bytes_eqb (prevBlock block) (bn_hash tipNode) then extendBestChain node block flags
  else
    do! n := nodeM node in
    if bn_workSum n <=? bn_workSum tipNode then
      do! s := getM in
      match findFork (bi_nodes (ch_index s)) (ch_bestChain s) (Some node) with
      | None => panicM
      | Some _ => retM false
      end
    else
      do! (detachNodes, attachNodes) := getReorganizeNodes node in
      do! r := tryM (reorganizeChain detachNodes attachNodes) in
      flushToDB ;!
      match r with
      | Ok _ => retM true
      | Err e => throwM e
      | Panic => panicM
      end.

(** ** Accepting blocks (blockchain/accept.go) *)

(** The node of a block after [prevNode]: a new one, or the one its header has
    made. *)
Definition acceptNode (block : Block) (prevNode : nat) : M nat :=
  do! s := getM in
  match LookupNode (ch_index s) (blockHash block) with
  | None =>
      let bi := ch_index s in
      let (a, id) := newBlockNode DoubleHash (bi_nodes bi) (mb_Header (blk_msg block)) (Some prevNode) in
      let a := <[id := with_status (deref a id) statusDataStored]> a in
      modifyM (fun s => with_index s (AddNode (mkIndex a (bi_index bi) (bi_dirty bi)) id)) ;!
      retM id
  | Some id => setStatusM id statusDataStored ;! retM id
  end.

(** The best header chain follows a block with more work. *)
Definition raiseHeader (node : nat) : M unit :=
  do! s := getM in
  let a := bi_nodes (ch_index s) in
  match tip (ch_bestHeader s) with
  | None => panicM
  | Some h => if bn_workSum (deref a h) <? bn_workSum (deref a node) then setHeaderTipM node else retM tt
  end.

(** [maybeAcceptBlock] for a block whose height is not known yet. *)
Definition maybeAcceptBlock (msg : MsgBlock) (flags : Z) : M bool :=
  do! s := getM in
  let bi := ch_index s in
  match LookupNode bi (bh_PrevBlock (mb_Header msg)) with
  | None => throwM (Rule ErrPreviousBlockUnknown)
  | Some prevNode =>
      if KnownInvalid (NodeStatus bi prevNode) then throwM (Rule ErrInvalidAncestorBlock)
      else
        let block := mkBlock msg (i32 (height_of (bi_nodes bi) prevNode + 1)) in
        do! (cs, deployments) := liftM (checkBlockContext DoubleHash params bi (ch_bestChain s) block prevNode flags
                                         (ch_checkpoint s) (ch_deployments s)) in
        modifyM (fun s => with_checkpoint (with_votes s deployments (ch_warnings s) (ch_warned s)) cs) ;!
        dbM (fun db => Ok (dbStoreBlock db block)) ;!
        do! node := acceptNode block prevNode in
        flushToDB ;!
        do! isMainChain := connectBestChain node block flags in
        (if isMainChain then raiseHeader node else retM tt) ;!
        retM isMainChain
  end.

(** ** Headers *)

Definition checkKnownInvalidBlock (status : Z) : verdict :=
  if KnownValidateFailed status then Err (Rule ErrKnownInvalidBlock)
  else if KnownInvalidAncestor status then Err (Rule ErrInvalidAncestorBlock)
  else Ok tt.

(** The best header chain moves to [node] if it extends it or has more work. *)
Definition selectHeader (node : nat) (parentHash : list Z) : M bool :=
  do! s := getM in
  let a := bi_nodes (ch_index s) in
  match tip (ch_bestHeader s) with
  | None => panicM
  | Some h =>
      if bytes_eqb parentHash (bn_hash (deref a h)) then setHeaderTipM node ;! retM true
      else if bn_workSum (deref a node) <=? bn_workSum (deref a h) then
        match findFork a (ch_bestHeader s) (Some node) with None => panicM | Some _ => retM false end
      else setHeaderTipM node ;! retM true
  end.

Definition maybeAcceptBlockHeader (header : BlockHeader) (flags : Z) : M bool :=
  do! s := getM in
  let bi := ch_index s in
  let found := LookupNode bi (BlockHash DoubleHash header) in
  do! known :=
    match found with
    | None => retM false
    | Some node =>
        do! _ := liftM (checkKnownInvalidBlock (NodeStatus bi node)) in
        retM (contains (bi_nodes bi) (ch_bestHeader s) node)
    end in
  if known then retM true
  else
    do! _ := liftM (checkBlockHeaderSanity DoubleHash header (PowLimit (chainParams (rp_retarget params))) adjustedTime flags) in
    match LookupNode bi (bh_PrevBlock header) with
    | None => throwM (Rule ErrMissingParent)
    | Some prevNode =>
        if KnownInvalid (NodeStatus bi prevNode) then throwM (Rule ErrInvalidAncestorBlock)
        else
          do! cs := liftM (checkBlockHeaderContext DoubleHash params bi (ch_bestChain s) header prevNode flags (ch_checkpoint s)) in
          modifyM (fun s => with_checkpoint s cs) ;!
          do! node :=
            match found with
            | Some node => retM node
            | None =>
                let (a, id) := newBlockNode DoubleHash (bi_nodes bi) header (Some prevNode) in
                modifyM (fun s => with_index s (AddNode (mkIndex a (bi_index bi) (bi_dirty bi)) id)) ;!
                retM id
            end in
          flushToDB ;!
          selectHeader node (bh_PrevBlock header)
    end.
Definition ProcessBlockHeader (header : BlockHeader) (flags : Z) : M bool := maybeAcceptBlockHeader header flags.

(** ** Orphans *)

Definition maxOrphanBlocks : Z := 100.
Definition orphanHash (orphan : orphanBlock) : list Z := BlockHash DoubleHash (mb_Header (ob_block orphan)).
Definition orphanPrev (orphan : orphanBlock) : list Z := bh_PrevBlock (mb_Header (ob_block orphan)).

Definition removeOrphanBlock (orphan : orphanBlock) (s : chainState) : chainState :=
  let orphans := match ch_prevOrphans s !! orphanPrev orphan with Some l => l | None => [] end in
  let orphans := List.filter (fun o => negb (bytes_eqb (orphanHash o) (orphanHash orphan))) orphans in
  let prev :=
    match orphans with
    | [] => delete (orphanPrev orphan) (ch_prevOrphans s)
    | _ => <[orphanPrev orphan := orphans]> (ch_prevOrphans s)
    end in
  with_orphans s (delete (orphanHash orphan) (ch_orphans s)) prev (ch_oldestOrphan s).

(** One orphan of the loop over the pool. *)
Definition expireOrphan (s : chainState) (p : list Z * orphanBlock) : chainState :=
  let oBlock := snd p in
  if ob_expiration oBlock <? now then removeOrphanBlock oBlock s
  else
    match ch_oldestOrphan s with
    | Some o =>
        if ob_expiration oBlock <? ob_expiration o then with_orphans s (ch_orphans s) (ch_prevOrphans s) (Some oBlock) else s
    | None => with_orphans s (ch_orphans s) (ch_prevOrphans s) (Some oBlock)
    end.

Definition addOrphanBlock (orphanOrder : gmap (list Z) orphanBlock -> list (list Z * orphanBlock)) (msg : MsgBlock) : M unit :=
  modifyM (fun s => fold_left expireOrphan (orphanOrder (ch_orphans s)) s) ;!
  do! s := getM in
  (if maxOrphanBlocks <? Z.of_nat (size (ch_orphans s)) + 1 then
     match ch_oldestOrphan s with
     | None => panicM
     | Some o =>
         modifyM (removeOrphanBlock o) ;!
         modifyM (fun s => with_orphans s (ch_orphans s) (ch_prevOrphans s) None)
     end
   else retM tt) ;!
  let oBlock := mkOrphan msg (now + 60 * 60 * 10 ^ 9) in
  modifyM (fun s =>
    let prev := match ch_prevOrphans s !! orphanPrev oBlock with Some l => l | None => [] end in
    with_orphans s (<[orphanHash oBlock := oBlock]> (ch_orphans s)) (<[orphanPrev oBlock := prev ++ [oBlock]]> (ch_prevOrphans s))
      (ch_oldestOrphan s)).

(** ** Processing blocks (blockchain/process.go) *)

Definition blockExists (s : chainState) (hash : list Z) : outcome ruleErr bool :=
  if HaveBlock (ch_index s) hash then Ok true
  else
    match cd_blocks (ch_db s) !! hash with
    | None => Ok false
    | Some _ =>
        match dbFetchHeightByHash (ch_db s) hash with
        | Ok _ => Ok true
        | Err errNotInMainChain => Ok false
        | Err e => Err (Chain e)
        | Panic => Panic
        end
    end.

Definition IsKnownOrphan (s : chainState) (hash : list Z) : bool :=
  match ch_orphans s !! hash with Some _ => true | None => false end.

(** The queue of hashes whose orphans are accepted.  A round removes an orphan
    from the pool or a hash from the queue. *)
Fixpoint processOrphans_loop (fuel : nat) (processHashes : list (list Z)) (flags : Z) : M unit :=
  match processHashes with
  | [] => retM tt
  | processHash :: rest =>
      match fuel with
      | O => panicM
      | S fuel' =>
          do! s := getM in
          match ch_prevOrphans s !! processHash with
          | Some (orphan :: _) =>
              modifyM (removeOrphanBlock orphan) ;!
              do! _ := maybeAcceptBlock (ob_block orphan) flags in
              processOrphans_loop fuel' (processHashes ++ [orphanHash orphan]) flags
          | _ => processOrphans_loop fuel' rest flags
          end
      end
  end.

(** The orphans of the dependency lists. *)
Definition orphanCount (s : chainState) : nat :=
  map_fold (fun _ l n => (List.length l + n)%nat) 0%nat (ch_prevOrphans s).

Definition processOrphans (hash : list Z) (flags : Z) : M unit :=
  do! s := getM in processOrphans_loop (2 * orphanCount s + 1) [hash] flags.

(** The checks against the last checkpoint the chain has passed. *)
Definition checkAgainstCheckpoint (header : BlockHeader) (flags : Z) : M unit :=
  do! s := getM in
  do! (checkpointNode, cs) := liftC (findPreviousCheckpoint (ch_index s) (ch_bestChain s) (rp_checkpoints params) (ch_checkpoint s)) in
  modifyM (fun s => with_checkpoint s cs) ;!
  match checkpointNode with
  | None => retM tt
  | Some c =>
      let n := deref (bi_nodes (ch_index s)) c in
      if bh_Timestamp header <? bn_timestamp n then throwM (Rule ErrCheckpointTimeTooOld)
      else if has_flag flags BFFastAdd then retM tt
      else
        let duration := (bh_Timestamp header - bn_timestamp n) * 10 ^ 9 in
        let requiredTarget := CompactToBig (calcEasiestDifficulty (rp_retarget params) (bn_bits n) duration) in
        if requiredTarget <? CompactToBig (bh_Bits header) then throwM (Rule ErrDifficultyTooLow) else retM tt
  end.

(** [ProcessBlock]: whether the block is on the main chain, and whether it is an
    orphan. *)
Definition ProcessBlock (orphanOrder : gmap (list Z) orphanBlock -> list (list Z * orphanBlock)) (msg : MsgBlock) (flags : Z)
  : M (bool * bool) :=
  let hash := BlockHash DoubleHash (mb_Header msg) in
  do! s := getM in
  do! exists_ := liftM (blockExists s hash) in
  do! duplicate :=
    (if exists_ : bool then
       match LookupNode (ch_index s) hash with
       | None => panicM
       | Some node => retM (negb (NodeStatus (ch_index s) node =? statusNone))
       end
     else retM false) in
  if duplicate then throwM (Rule ErrDuplicateBlock)
  else if IsKnownOrphan s hash then throwM (Rule ErrDuplicateBlock)
  else
    do! _ := liftM (checkBlockSanity DoubleHash (mkBlock msg (-1)) (PowLimit (chainParams (rp_retarget params))) adjustedTime flags) in
    checkAgainstCheckpoint (mb_Header msg) flags ;!
    do! prevHashExists := liftM (blockExists s (bh_PrevBlock (mb_Header msg))) in
    if negb prevHashExists then
      addOrphanBlock orphanOrder msg ;!
      retM (false, true)
    else
      do! isMainChain := maybeAcceptBlock msg flags in
      processOrphans hash flags ;!
      retM (isMainChain, false).

(** ** Invalidating and reconsidering blocks *)

Definition unsetStatusM (node : nat) (flags : Z) : M unit :=
  modifyM (fun s => with_index s (UnsetStatusFlags (ch_index s) node flags)).

(** The nodes from [n] down to the one before [node]. *)
Definition branchTo (a : arena) (node n : nat) : list nat := fst (walkTo (List.length a) a (fun _ => false) (Some node) (Some n)).

(** Marks the nodes that are not invalid yet, and returns them. *)
Fixpoint markBranch (nodes : list nat) : M (list nat) :=
  match nodes with
  | [] => retM []
  | n :: nodes' =>
      do! status := statusM n in
      if KnownInvalid status then markBranch nodes'
      else
        setStatusM n statusInvalidAncestor ;!
        unsetStatusM n statusValid ;!
        do! marked := markBranch nodes' in
        retM (n :: marked)
  end.

Fixpoint markTips (node : nat) (tips : list nat) : M unit :=
  match tips with
  | [] => retM tt
  | tip :: tips' =>
      do! s := getM in
      let a := bi_nodes (ch_index s) in
      (if IsAncestor a tip node then do! _ := markBranch (branchTo a node tip) in retM tt else retM tt) ;!
      markTips node tips'
  end.

(** The first of the tips with the most work that is not invalid. *)
Definition bestTipOf (bi : blockIndex) (tips : list nat) : option nat :=
  fold_left (fun bestTip tip =>
    if KnownInvalid (NodeStatus bi tip) then bestTip
    else match bestTip with
         | None => Some tip
         | Some b => if bn_workSum (deref (bi_nodes bi) b) <? bn_workSum (deref (bi_nodes bi) tip) then Some tip else bestTip
         end) tips None.

(** After the best chain has lost its end: the branch that has the most work now. *)
Definition chooseBestTip (indexOrder : gmap (list Z) nat -> list (list Z * nat)) : M unit :=
  do! s := getM in
  do! tips := liftC (InactiveTips indexOrder (ch_index s) (ch_bestChain s)) in
  do! t := tipM in
  let bestTip := bestTipOf (ch_index s) (tips ++ [t]) in
  if opt_nat_eqb bestTip (Some t) then retM tt
  else
    match bestTip with
    | None => panicM
    | Some node =>
        do! (detachNodes, attachNodes) := getReorganizeNodes node in
        do! r := tryM (reorganizeChain detachNodes attachNodes) in
        flushToDB ;!
        match r with Ok _ => retM tt | Err e => throwM e | Panic => panicM end
    end.

Definition InvalidateBlock (indexOrder : gmap (list Z) nat -> list (list Z * nat)) (hash : list Z) : M unit :=
  do! s := getM in
  match LookupNode (ch_index s) hash with
  | None => throwM (Chain (textErr "Requested block hash is not found and thus cannot be invalidated."))
  | Some node =>
      if height_of (bi_nodes (ch_index s)) node =? 0
      then throwM (Chain (textErr "Requested block is a genesis block and cannot be invalidated."))
      else if KnownInvalid (NodeStatus (ch_index s) node) then retM tt
      else
        setStatusM node statusValidateFailed ;!
        unsetStatusM node statusValid ;!
        do! s := getM in
        let a := bi_nodes (ch_index s) in
        if negb (contains a (ch_bestChain s) node) then
          do! tips := liftC (InactiveTips indexOrder (ch_index s) (ch_bestChain s)) in
          markTips node tips ;!
          flushToDB
        else
          do! t := tipM in
          do! marked := markBranch (branchTo a node t) in
          reorganizeChain (marked ++ [node]) [] ;!
          flushToDB ;!
          chooseBestTip indexOrder
  end.

Fixpoint clearBranch (nodes : list nat) : M unit :=
  match nodes with
  | [] => retM tt
  | n :: nodes' => unsetStatusM n statusInvalidAncestor ;! clearBranch nodes'
  end.

(** Clears the branches from [node] to the tips, and returns the last of them. *)
Fixpoint clearTips (node : nat) (tips : list nat) (reconsiderTip : option nat) : M (option nat) :=
  match tips with
  | [] => retM reconsiderTip
  | tip :: tips' =>
      do! s := getM in
      let a := bi_nodes (ch_index s) in
      if negb (IsAncestor a tip node) then clearTips node tips' (if Nat.eqb tip node then Some node else reconsiderTip)
      else
        clearBranch (branchTo a node tip) ;!
        clearTips node tips' (Some tip)
  end.

Definition ReconsiderBlock (indexOrder : gmap (list Z) nat -> list (list Z * nat)) (hash : list Z) : M unit :=
  do! s := getM in
  match LookupNode (ch_index s) hash with
  | None => throwM (Chain (textErr "Requested block hash is not found and thus cannot be reconsidered."))
  | Some node =>
      if KnownValid (NodeStatus (ch_index s) node) then retM tt
      else
        unsetStatusM node statusInvalidAncestor ;!
        unsetStatusM node statusValidateFailed ;!
        do! s := getM in
        do! tips := liftC (InactiveTips indexOrder (ch_index s) (ch_bestChain s)) in
        do! t := tipM in
        do! reconsiderTip := clearTips node (tips ++ [t]) None in
        match reconsiderTip with
        | None => panicM
        | Some x =>
            do! n := nodeM x in
            do! tipNode := nodeM t in
            if bn_workSum n <=? bn_workSum tipNode then retM tt
            else
              do! (detachNodes, attachNodes) := getReorganizeNodes x in
              do! r := tryM (verifyReorganizationValidity detachNodes attachNodes) in
              flushToDB ;!
              match r with
              | Ok _ => reorganizeChain detachNodes attachNodes
              | Err _ => retM tt
              | Panic => panicM
              end
        end
  end.

(** ** A new chain (blockchain/chainio.go, blockchain/chain.go) *)

(** [New] before the state of the chain is loaded.  The snapshot is not set. *)
Definition newChain (utxoCacheMaxSize : Z) : chainState :=
  mkChain (newBlockIndex []) emptyView emptyView (newUtxoCache CalculateMinEntries utxoCacheMaxSize)
    (mkChainDB (mkUtxoDB ∅ None) ∅ ∅ ∅ ∅ None ∅) (mkBestState zeroHash 0 0 0 0 0 0 0)
    (newThresholdCaches (List.length (Deployments (rp_votes params)))) (newThresholdCaches vbNumBits) false
    (mkCheckpointState None None) ∅ ∅ None.

Definition storeSpendJournal (hash : list Z) (data : list Z) (db : chainDB) : chainDB :=
  mkChainDB (cd_utxo db) (cd_blocks db) (<[hash := data]> (cd_journal db)) (cd_hashIndex db) (cd_heightIndex db) (cd_best db) (cd_rows db).

Definition createChainState (genesisBlock : MsgBlock) : M unit :=
  let block := mkBlock genesisBlock 0 in
  do! s := getM in
  let bi := ch_index s in
  let (a, node) := newBlockNode DoubleHash (bi_nodes bi) (mb_Header genesisBlock) None in
  let a := <[node := with_status (deref a node) (Z.lor statusDataStored statusValid)]> a in
  modifyM (fun s => with_index s (mkIndex a (bi_index bi) (bi_dirty bi))) ;!
  setTipM (Some node) ;!
  setHeaderTipM node ;!
  modifyM (fun s => with_index s (addNode (ch_index s) node)) ;!
  let n := deref a node in
  let numTxns := u64 (len (mb_Transactions genesisBlock)) in
  let snapshot := newBestState n (u64 (mb_SerializeSize genesisBlock)) (u64 (GetBlockWeight block)) numTxns numTxns (bn_timestamp n) in
  modifyM (fun s => with_snapshot s snapshot) ;!
  Update (
    dbM (fun db => Ok (mkChainDB (cd_utxo db) (cd_blocks db) (cd_journal db) (cd_hashIndex db) (cd_heightIndex db) (cd_best db)
                         (dbStoreBlockNode (cd_rows db) a node))) ;!
    dbM (fun db => Ok (dbPutBlockIndex db (bn_hash n) (bn_height n))) ;!
    dbM (fun db => dbPutBestState db snapshot (bn_workSum n)) ;!
    dbM (fun db => Ok (storeSpendJournal (blockHash block) [] db)) ;!
    dbM (fun db => Ok (dbStoreBlock db block))).
End Chain.
