(* ===== verification/Orphans.v ===== *)
(** * Orphans

    Blocks whose previous block is not known wait in a pool, under the hash they
    wait for.  Nothing but the handling of orphans itself touches the pool, the
    queue of [processOrphans] always ends, and every orphan stays under the hash
    of its previous block. *)

From Stdlib Require Import ZArith List Lia Bool String.
From stdpp Require Import gmap.
From S2P Require Import Prelude GoSlice GoIO WireCommon WireTx WireMsgs Merkle Compress Difficulty ChainIO BlockIndex ChainView Retarget Index Threshold UtxoView UtxoCache Rules Connect Supply ViewSync Branches Chain.
Import ListNotations.
Local Open Scope string_scope.
Local Open Scope list_scope.
Local Open Scope Z_scope.
Local Open Scope go_scope.
Local Open Scope chain_scope.

(** ** What leaves the orphans alone *)

Definition poolOf (s : chainState) := (ch_orphans s, ch_prevOrphans s, ch_oldestOrphan s).
Definition keeps {A} (m : M A) : Prop := forall s, poolOf (fst (m s)) = poolOf s.

Lemma keeps_ret {A} (x : A) : keeps (retM x).
Proof. intros s. reflexivity. Qed.
Lemma keeps_get : keeps getM.
Proof. intros s. reflexivity. Qed.
Lemma keeps_lift {A} (o : outcome ruleErr A) : keeps (liftM o).
Proof. intros s. reflexivity. Qed.
Lemma keeps_modify f : (forall s, poolOf (f s) = poolOf s) -> keeps (modifyM f).
Proof. intros H s. apply H. Qed.
Lemma keeps_bind {A C} (m : M A) (k : A -> M C) : keeps m -> (forall x, keeps (k x)) -> keeps (bindM m k).
Proof.
  intros Hm Hk s. unfold bindM. specialize (Hm s). destruct (m s) as [s1 [x| |]]; cbn [fst] in *; [|exact Hm..]. rewrite (Hk x s1). exact Hm.
Qed.
Lemma keeps_try {A} (m : M A) : keeps m -> keeps (tryM m).
Proof. intros Hm s. unfold tryM. specialize (Hm s). now destruct (m s) as [s1 [x| |]]. Qed.
Lemma keeps_Update {A} (m : M A) : keeps m -> keeps (Update m).
Proof. intros Hm s. unfold Update. specialize (Hm s). now destruct (m s) as [s1 [x| |]]. Qed.

Create HintDb keeping.
#[export] Hint Resolve keeps_ret keeps_get keeps_lift : keeping.

Ltac keep :=
  repeat (intros; first
    [ solve [auto 2 with keeping]
    | apply keeps_bind
    | apply keeps_try
    | apply keeps_Update
    | apply keeps_modify; reflexivity
    | match goal with
      | |- keeps (if ?c then _ else _) => destruct c
      | |- keeps (match ?x with _ => _ end) => destruct x
      | |- keeps (let '_ := ?x in _) => destruct x
      end ]).

Section Keeping.
Context {PubKey : Type} (ParsePubKey : list Z -> option PubKey)
        (SerializeUncompressed : PubKey -> list Z).
Context (CalculateRoughMapSize : Z -> Z -> Z) (CalculateMinEntries : Z -> Z -> Z).
Context (iter : entryMap -> list (OutPoint * option UtxoEntry)).
Context (DoubleHash : list Z -> list Z).
Context (params : RuleParams).
Context (checkBlockScripts : Block -> UtxoViewpoint -> Z -> verdict).
Context (dbByHash : utxoDB -> list Z -> outcome chainErr (option UtxoEntry)).
Context (now adjustedTime : Z).

Lemma keeps_flushToDB : keeps flushToDB.
Proof. apply keeps_modify. reflexivity. Qed.
Lemma keeps_status node flags : keeps (setStatusM node flags).
Proof. unfold setStatusM. keep. Qed.
Lemma keeps_dbM f : keeps (dbM f).
Proof. unfold dbM, liftC. keep. Qed.
Lemma keeps_flushM mode hash : keeps (flushM ParsePubKey CalculateRoughMapSize iter now mode hash).
Proof. unfold flushM, liftC. keep. Qed.
Lemma keeps_setTip node : keeps (setTipM node).
Proof. unfold setTipM, liftU. keep. Qed.
Lemma keeps_setHeaderTip node : keeps (setHeaderTipM node).
Proof. unfold setHeaderTipM, liftU. keep. Qed.
Lemma keeps_tip : keeps tipM.
Proof. unfold tipM, panicM. keep. Qed.
Lemma keeps_node node : keeps (nodeM node).
Proof. unfold nodeM. keep. Qed.
Lemma keeps_statusM node : keeps (statusM node).
Proof. unfold statusM. keep. Qed.
Lemma keeps_warn node : keeps (warnM DoubleHash params node).
Proof. unfold warnM, liftC. keep. Qed.
Lemma keeps_snapshot node block n : keeps (snapshotM node block n).
Proof. unfold snapshotM, liftU. keep. Qed.
Hint Resolve keeps_flushToDB keeps_status keeps_dbM keeps_flushM keeps_setTip keeps_setHeaderTip keeps_tip keeps_node keeps_statusM keeps_warn
  keeps_snapshot : keeping.

Lemma keeps_connectBlock node block view stxos : keeps (connectBlock ParsePubKey CalculateRoughMapSize iter DoubleHash params now adjustedTime node block view stxos).
Proof. unfold connectBlock, liftC, assertM, throwM. keep. Qed.

Abbreviation fetchIn := (fetchInputsM ParsePubKey SerializeUncompressed CalculateRoughMapSize CalculateMinEntries DoubleHash).
Abbreviation checkC := (checkConnectM ParsePubKey SerializeUncompressed CalculateRoughMapSize CalculateMinEntries DoubleHash params checkBlockScripts).

Lemma keeps_disconnectBlock node block view :
  keeps (disconnectBlock ParsePubKey SerializeUncompressed CalculateRoughMapSize iter DoubleHash now node block view).
Proof. unfold disconnectBlock, liftC, assertM, throwM, panicM. keep. Qed.
Lemma keeps_fetchInputs view block : keeps (fetchIn view block).
Proof. unfold fetchInputsM, liftC. keep. Qed.
Lemma keeps_disconnectM view block stxos : keeps (disconnectM DoubleHash dbByHash view block stxos).
Proof. unfold disconnectM, liftC. keep. Qed.
Lemma keeps_check node block view : keeps (checkC node block view).
Proof. intros s. unfold checkConnectM. now destruct (checkConnectBlock _ _ _ _ _ _ _ _ _ _ _ _ _ _). Qed.
Hint Resolve keeps_connectBlock keeps_disconnectBlock keeps_fetchInputs keeps_disconnectM keeps_check : keeping.

Lemma keeps_verifyDetach nodes : forall view,
  keeps (verifyDetach ParsePubKey SerializeUncompressed CalculateRoughMapSize CalculateMinEntries DoubleHash dbByHash nodes view).
Proof. induction nodes as [|node nodes IH]; intros view; cbn [verifyDetach]; unfold liftC, assertM, throwM; keep. Qed.
Lemma keeps_verifyAttachBlock node nodes block view :
  keeps (verifyAttachBlock ParsePubKey SerializeUncompressed CalculateRoughMapSize CalculateMinEntries DoubleHash params checkBlockScripts node nodes block view).
Proof. unfold verifyAttachBlock, liftC, throwM, panicM. keep. Qed.
Hint Resolve keeps_verifyAttachBlock keeps_verifyDetach : keeping.
Lemma keeps_verifyAttach nodes : forall view,
  keeps (verifyAttach ParsePubKey SerializeUncompressed CalculateRoughMapSize CalculateMinEntries DoubleHash params checkBlockScripts nodes view).
Proof. induction nodes as [|node nodes IH]; intros view; cbn [verifyAttach]; unfold liftC; keep. Qed.
Lemma keeps_detachAll nodes : forall blocks view,
  keeps (detachAll ParsePubKey SerializeUncompressed CalculateRoughMapSize CalculateMinEntries iter DoubleHash dbByHash now nodes blocks view).
Proof. induction nodes as [|node nodes IH]; intros [|[b l] blocks] view; cbn [detachAll]; unfold panicM; keep. Qed.
Lemma keeps_attachAll nodes : forall blocks view,
  keeps (attachAll ParsePubKey SerializeUncompressed CalculateRoughMapSize CalculateMinEntries iter DoubleHash params now adjustedTime nodes blocks view).
Proof. induction nodes as [|node nodes IH]; intros [|b blocks] view; cbn [attachAll]; unfold panicM, liftC; keep. Qed.
Hint Resolve keeps_verifyAttach keeps_detachAll keeps_attachAll : keeping.

Lemma keeps_verify detach attach : keeps (verifyReorganizationValidity ParsePubKey SerializeUncompressed CalculateRoughMapSize CalculateMinEntries
  DoubleHash params checkBlockScripts dbByHash detach attach).
Proof. unfold verifyReorganizationValidity, assertM, throwM, panicM. keep. Qed.
Hint Resolve keeps_verify : keeping.
Lemma keeps_reorganize detach attach : keeps (reorganizeChain ParsePubKey SerializeUncompressed CalculateRoughMapSize CalculateMinEntries iter DoubleHash
  params checkBlockScripts dbByHash now adjustedTime detach attach).
Proof. unfold reorganizeChain. keep. Qed.
Lemma keeps_getNodes node : keeps (getReorganizeNodes node).
Proof. unfold getReorganizeNodes, panicM. keep. Qed.
Hint Resolve keeps_reorganize keeps_getNodes : keeping.

Lemma keeps_connectCache block : keeps (connectCacheM ParsePubKey SerializeUncompressed CalculateRoughMapSize CalculateMinEntries DoubleHash block).
Proof. intros s. unfold connectCacheM. now destruct (cache_connectTransactions _ _ _ _ _ _ _ _ _) as [[]| |]. Qed.
Hint Resolve keeps_connectCache : keeping.
Lemma keeps_extend node block flags : keeps (extendBestChain ParsePubKey SerializeUncompressed CalculateRoughMapSize CalculateMinEntries iter DoubleHash
  params checkBlockScripts now adjustedTime node block flags).
Proof. unfold extendBestChain, checkExtend, liftC, throwM, panicM. keep. Qed.
Hint Resolve keeps_extend : keeping.
Lemma keeps_connectBest node block flags : keeps (connectBestChain ParsePubKey SerializeUncompressed CalculateRoughMapSize CalculateMinEntries iter
  DoubleHash params checkBlockScripts dbByHash now adjustedTime node block flags).
Proof. unfold connectBestChain, throwM, panicM. keep. Qed.
Hint Resolve keeps_connectBest : keeping.

(** Accepting a block leaves the orphans to its caller. *)
Lemma keeps_accept msg flags : keeps (maybeAcceptBlock ParsePubKey SerializeUncompressed CalculateRoughMapSize CalculateMinEntries iter DoubleHash
  params checkBlockScripts dbByHash now adjustedTime msg flags).
Proof. unfold maybeAcceptBlock, acceptNode, raiseHeader, throwM, panicM. keep. Qed.
Lemma keeps_header header flags : keeps (maybeAcceptBlockHeader DoubleHash params adjustedTime header flags).
Proof. unfold maybeAcceptBlockHeader, selectHeader, newBlockNode, throwM, panicM. keep. Qed.

(** So do the calls that mark blocks. *)
Lemma keeps_unset node flags : keeps (unsetStatusM node flags).
Proof. unfold unsetStatusM. keep. Qed.
Hint Resolve keeps_unset : keeping.
Lemma keeps_markBranch nodes : keeps (markBranch nodes).
Proof. induction nodes as [|node nodes IH]; cbn [markBranch]; keep. Qed.
Lemma keeps_clearBranch nodes : keeps (clearBranch nodes).
Proof. induction nodes as [|node nodes IH]; cbn [clearBranch]; keep. Qed.
Hint Resolve keeps_markBranch keeps_clearBranch : keeping.
Lemma keeps_markTips node tips : keeps (markTips node tips).
Proof. induction tips as [|tip tips IH]; cbn [markTips]; keep. Qed.
Lemma keeps_clearTips node tips : forall rt, keeps (clearTips node tips rt).
Proof. induction tips as [|tip tips IH]; intros rt; cbn [clearTips]; keep. Qed.
Hint Resolve keeps_markTips keeps_clearTips : keeping.
Lemma keeps_invalidate order hash : keeps (InvalidateBlock ParsePubKey SerializeUncompressed CalculateRoughMapSize CalculateMinEntries iter DoubleHash
  params checkBlockScripts dbByHash now adjustedTime order hash).
Proof. unfold InvalidateBlock, chooseBestTip, liftC, throwM, panicM. keep. Qed.
Lemma keeps_reconsider order hash : keeps (ReconsiderBlock ParsePubKey SerializeUncompressed CalculateRoughMapSize CalculateMinEntries iter DoubleHash
  params checkBlockScripts dbByHash now adjustedTime order hash).
Proof. unfold ReconsiderBlock, liftC, throwM, panicM. keep. Qed.
End Keeping.

(** ** The pool *)

Section Pool.
Context (DoubleHash : list Z -> list Z).
Context (W : universe).
Abbreviation hashOf := (orphanHash DoubleHash).
Abbreviation remove := (removeOrphanBlock DoubleHash).

Definition others (o : orphanBlock) (l : list orphanBlock) : list orphanBlock :=
  List.filter (fun o' => negb (bytes_eqb (hashOf o') (hashOf o))) l.

Lemma elem_others o o' l : o' ∈ others o l <-> o' ∈ l /\ hashOf o' <> hashOf o.
Proof.
  unfold others. rewrite !list_elem_of_In, filter_In, negb_true_iff. split; intros [H1 H2]; (split; [exact H1|]).
  - intros E. apply bytes_eqb_eq in E. congruence.
  - destruct (bytes_eqb (hashOf o') (hashOf o)) eqn:E; [|reflexivity]. apply bytes_eqb_eq in E. congruence.
Qed.

Definition waiting (s : chainState) (h : list Z) : list orphanBlock :=
  match ch_prevOrphans s !! h with Some l => l | None => [] end.

Lemma waiting_remove o s h : waiting (remove o s) h = if decide (orphanPrev o = h) then others o (waiting s h) else waiting s h.
Proof.
  unfold waiting at 1, removeOrphanBlock. cbn [with_orphans ch_prevOrphans]. fold (waiting s (orphanPrev o)). fold (others o (waiting s (orphanPrev o))).
  case_decide as E.
  - subst h. destruct (others o (waiting s (orphanPrev o))) as [|o' l] eqn:El; [now rewrite lookup_delete_eq | now rewrite lookup_insert_eq].
  - unfold waiting at 2. destruct (others o (waiting s (orphanPrev o))) as [|o' l]; [now rewrite lookup_delete_ne | now rewrite lookup_insert_ne].
Qed.

(** *** Counting the orphans that wait *)

Definition sumLen (m : gmap (list Z) (list orphanBlock)) : nat := map_fold (fun _ l n => (List.length l + n)%nat) 0%nat m.

Lemma sumLen_delete m k l : m !! k = Some l -> sumLen m = (List.length l + sumLen (delete k m))%nat.
Proof. intros H. unfold sumLen. rewrite (map_fold_delete_L _ _ k l m); [reflexivity | | exact H]. intros. lia. Qed.

Lemma sumLen_insert m k l : sumLen (<[k := l]> m) = (List.length l + sumLen (delete k m))%nat.
Proof. rewrite (sumLen_delete (<[k := l]> m) k l) by apply lookup_insert_eq. now rewrite delete_insert_eq. Qed.

Lemma others_length o l : o ∈ l -> (List.length (others o l) < List.length l)%nat.
Proof.
  induction l as [|o' l IH]; intros H; [inversion H|]. unfold others. cbn [List.filter]. fold (others o l). apply elem_of_cons in H.
  pose proof (List.filter_length_le (fun o' => negb (bytes_eqb (hashOf o') (hashOf o))) l) as Hle. fold (others o l) in Hle.
  destruct (bytes_eqb (hashOf o') (hashOf o)) eqn:E; cbn [negb List.length]; [lia|].
  destruct H as [<-|H]; [|specialize (IH H); lia]. rewrite (proj2 (bytes_eqb_eq _ _) eq_refl) in E. discriminate.
Qed.

Lemma count_remove o s : o ∈ waiting s (orphanPrev o) -> (orphanCount (remove o s) < orphanCount s)%nat.
Proof.
  intros H. pose proof (others_length _ _ H) as Hlt. unfold orphanCount. fold (sumLen (ch_prevOrphans s)). fold (sumLen (ch_prevOrphans (remove o s))).
  unfold removeOrphanBlock. cbn [with_orphans ch_prevOrphans]. fold (waiting s (orphanPrev o)). fold (others o (waiting s (orphanPrev o))).
  unfold waiting in *. destruct (ch_prevOrphans s !! orphanPrev o) as [l|] eqn:E; [|inversion H]. rewrite (sumLen_delete _ _ _ E).
  destruct (others o l) as [|o' l']; [lia|]. rewrite sumLen_insert. lia.
Qed.

(** *** Consistency

    An orphan is in the map of the pool exactly when it is in the list of the
    orphans that wait for its previous block. *)

Abbreviation sound o := (sound_block DoubleHash W (ob_block o)).

Record pool_wf (s : chainState) : Prop := {
  pw_hash : forall h o, ch_orphans s !! h = Some o -> hashOf o = h;
  pw_keyed : forall h o, o ∈ waiting s h -> orphanPrev o = h;
  pw_same : forall o, ch_orphans s !! hashOf o = Some o <-> o ∈ waiting s (orphanPrev o);
  pw_sound : forall h o, o ∈ waiting s h -> sound o;
  pw_oldest : forall o, ch_oldestOrphan s = Some o -> sound o
}.

Lemma sound_prev o o' : sound o -> sound o' -> hashOf o = hashOf o' -> orphanPrev o = orphanPrev o'.
Proof. intros [H1 _] [H2 _] E. unfold orphanHash, orphanPrev in *. rewrite E, H2 in H1. injection H1 as ->. reflexivity. Qed.

Lemma member_sound s h o : pool_wf s -> ch_orphans s !! h = Some o -> sound o.
Proof.
  intros Hp H. pose proof (pw_hash s Hp h o H) as E. subst h. apply (pw_same s Hp) in H. exact (pw_sound s Hp _ _ H).
Qed.

Lemma remove_wf o0 s : pool_wf s -> sound o0 -> pool_wf (remove o0 s).
Proof.
  intros Hp H0. assert (Hsub : forall h o, o ∈ waiting (remove o0 s) h -> o ∈ waiting s h).
  { intros h o. rewrite waiting_remove. case_decide; [|auto]. rewrite elem_others. tauto. }
  split.
  - intros h o H. cbn [removeOrphanBlock with_orphans ch_orphans] in H. apply lookup_delete_Some in H. now apply (pw_hash s Hp).
  - intros h o H. now apply (pw_keyed s Hp), Hsub.
  - intros o. cbn [removeOrphanBlock with_orphans ch_orphans]. rewrite lookup_delete_Some, waiting_remove, (pw_same s Hp o). case_decide as E.
    + rewrite elem_others. split; intros [H1 H2]; (split; congruence).
    + split; [tauto|]. intros H. split; [|exact H]. intros Eh. apply E. exact (sound_prev _ _ H0 (pw_sound s Hp _ _ H) Eh).
  - intros h o H. exact (pw_sound s Hp h o (Hsub h o H)).
  - intros o H. exact (pw_oldest s Hp o H).
Qed.

Definition expired (now : Z) (o : orphanBlock) : bool := ob_expiration o <? now.

Lemma expire_wf now p s : pool_wf s -> sound (snd p) -> pool_wf (expireOrphan DoubleHash now s p).
Proof.
  intros Hp H0. unfold expireOrphan. destruct (_ <? _); [now apply remove_wf|].
  assert (Hset : pool_wf (with_orphans s (ch_orphans s) (ch_prevOrphans s) (Some (snd p)))).
  { destruct Hp as [P1 P2 P3 P4 P5]. split; auto. cbn [with_orphans ch_oldestOrphan]. now intros o [= <-]. }
  destruct (ch_oldestOrphan s) as [o|]; [|exact Hset]. destruct (_ <? _); [exact Hset | exact Hp].
Qed.

(** *** The loop that expires orphans *)

Section Expire.
Context (now : Z).
Abbreviation expire := (expireOrphan DoubleHash now).

Lemma expire_orphans p s : hashOf (snd p) = fst p -> ch_orphans (expire s p) = if expired now (snd p) then delete (fst p) (ch_orphans s) else ch_orphans s.
Proof.
  intros E. unfold expireOrphan, expired. destruct (_ <? _); [cbn [removeOrphanBlock with_orphans ch_orphans]; now rewrite E|].
  destruct (ch_oldestOrphan s); [destruct (_ <? _)|]; reflexivity.
Qed.

Lemma loop_wf l : forall s, pool_wf s -> Forall (fun p => sound (snd p)) l -> pool_wf (fold_left expire l s).
Proof.
  induction l as [|p l IH]; intros s Hp Hl; [exact Hp|]. apply Forall_cons in Hl. destruct Hl as [H0 Hl]. apply IH; [now apply expire_wf | exact Hl].
Qed.

(** What is left was there and has not expired. *)
Lemma loop_left l h o : Forall (fun p => hashOf (snd p) = fst p) l -> forall s, ch_orphans (fold_left expire l s) !! h = Some o ->
  ch_orphans s !! h = Some o /\ ((h, o) ∈ l -> expired now o = false).
Proof.
  induction 1 as [|p l Hh _ IH]; intros s H; cbn [fold_left] in H; [split; [exact H | inversion 1]|].
  destruct (IH _ H) as [H1 H2]. rewrite (expire_orphans p s Hh) in H1. destruct (expired now (snd p)) eqn:E.
  - apply lookup_delete_Some in H1. destruct H1 as [Hne H1]. split; [exact H1|]. rewrite elem_of_cons. intros [<-|Hin]; [cbn in Hne; congruence | now apply H2].
  - split; [exact H1|]. rewrite elem_of_cons. intros [<-|Hin]; [exact E | now apply H2].
Qed.

(** What has not expired is left. *)
Lemma loop_stays l h o : Forall (fun p => hashOf (snd p) = fst p) l -> (forall o', (h, o') ∈ l -> o' = o) -> expired now o = false ->
  forall s, ch_orphans s !! h = Some o -> ch_orphans (fold_left expire l s) !! h = Some o.
Proof.
  intros Hl Hone Hx. induction Hl as [|p l Hh _ IH]; intros s H; cbn [fold_left]; [exact H|].
  apply IH; [intros o' Ho'; apply Hone; rewrite elem_of_cons; now right|]. rewrite (expire_orphans p s Hh). destruct (expired now (snd p)) eqn:E; [|exact H].
  rewrite lookup_delete_ne; [exact H|]. intros Ep. assert (Ho : snd p = o) by (apply Hone; rewrite elem_of_cons; left; destruct p; cbn in *; congruence). congruence.
Qed.

Lemma expire_oldest p s : match ch_oldestOrphan (expire s p) with
  | Some o => ch_oldestOrphan s = Some o \/ (snd p = o /\ expired now o = false)
  | None => ch_oldestOrphan s = None /\ expired now (snd p) = true end.
Proof.
  unfold expireOrphan, expired. destruct (ob_expiration (snd p) <? now) eqn:E; [cbn; destruct (ch_oldestOrphan s); auto|].
  destruct (ch_oldestOrphan s) as [o|] eqn:Eo; [|cbn [with_orphans ch_oldestOrphan]; auto].
  destruct (ob_expiration (snd p) <? ob_expiration o); [cbn [with_orphans ch_oldestOrphan]; auto | rewrite Eo; auto].
Qed.

Lemma loop_oldest l : forall s, match ch_oldestOrphan (fold_left expire l s) with
  | Some o => ch_oldestOrphan s = Some o \/ ((exists h, (h, o) ∈ l) /\ expired now o = false)
  | None => ch_oldestOrphan s = None /\ Forall (fun p => expired now (snd p) = true) l end.
Proof.
  induction l as [|p l IH]; intros s; cbn [fold_left]; [destruct (ch_oldestOrphan s); auto|]. specialize (IH (expire s p)). pose proof (expire_oldest p s) as He.
  destruct (ch_oldestOrphan (fold_left expire l (expire s p))) as [o|].
  - destruct IH as [IH|[[h Hin] Hx]]; [|right; split; [exists h; rewrite elem_of_cons; now right | exact Hx]]. rewrite IH in He.
    destruct He as [He|[<- Hx]]; [now left | right; split; [exists (fst p); rewrite elem_of_cons; left; now destruct p | exact Hx]].
  - destruct IH as [IH Hl]. rewrite IH in He. destruct He as [He Hx]. split; [exact He | now constructor].
Qed.
End Expire.

(** *** Adding an orphan *)

(** The pool holds at most one orphan more than its limit, and only while no
    oldest orphan is remembered. *)
Record pool_ok (s : chainState) : Prop := {
  po_wf : pool_wf s;
  po_size : Z.of_nat (size (ch_orphans s)) <= maxOrphanBlocks + 1;
  po_stale : ch_oldestOrphan s <> None -> Z.of_nat (size (ch_orphans s)) <= maxOrphanBlocks
}.

Definition putOrphan (o : orphanBlock) (s : chainState) : chainState :=
  with_orphans s (<[hashOf o := o]> (ch_orphans s)) (<[orphanPrev o := waiting s (orphanPrev o) ++ [o]]> (ch_prevOrphans s)) (ch_oldestOrphan s).

Lemma put_wf o s : pool_wf s -> sound o -> ch_orphans s !! hashOf o = None -> pool_wf (putOrphan o s).
Proof.
  intros Hp Ho Hnew. assert (Hwait : forall h, waiting (putOrphan o s) h = if decide (orphanPrev o = h) then waiting s h ++ [o] else waiting s h).
  { intros h. unfold waiting at 1. cbn [putOrphan with_orphans ch_prevOrphans]. case_decide as E; [subst h; now rewrite lookup_insert_eq | now rewrite lookup_insert_ne]. }
  assert (Hin : forall h o', o' ∈ waiting (putOrphan o s) h <-> o' ∈ waiting s h \/ (o' = o /\ orphanPrev o = h)).
  { intros h o'. rewrite Hwait. case_decide as E; [|intuition]. rewrite elem_of_app, list_elem_of_singleton. tauto. }
  split.
  - intros h o'. cbn [putOrphan with_orphans ch_orphans]. rewrite lookup_insert_Some. intros [[<- <-]|[_ H]]; [reflexivity | now apply (pw_hash s Hp)].
  - intros h o' H. apply Hin in H. destruct H as [H|[-> H]]; [now apply (pw_keyed s Hp) | exact H].
  - intros o'. rewrite Hin. cbn [putOrphan with_orphans ch_orphans]. rewrite lookup_insert_Some, (pw_same s Hp o'). split.
    + intros [[_ ->]|[_ H]]; [right; now split | now left].
    + intros [H|[-> _]]; [|now left]. right. split; [|exact H]. intros E. apply (pw_same s Hp) in H. congruence.
  - intros h o' H. apply Hin in H. destruct H as [H|[-> _]]; [exact (pw_sound s Hp h o' H) | exact Ho].
  - intros o' H. exact (pw_oldest s Hp o' H).
Qed.

Context (now : Z) (order : gmap (list Z) orphanBlock -> list (list Z * orphanBlock)).
Hypothesis order_all : forall m, order m ≡ₚ map_to_list m.
Abbreviation expire := (expireOrphan DoubleHash now).

Lemma order_in m h o : (h, o) ∈ order m <-> m !! h = Some o.
Proof. rewrite (order_all m). apply elem_of_map_to_list. Qed.

Lemma order_hash s : pool_wf s -> Forall (fun p => hashOf (snd p) = fst p) (order (ch_orphans s)).
Proof. intros Hp. apply Forall_forall. intros [h o] H. apply order_in in H. exact (pw_hash s Hp h o H). Qed.

(** The state after the loop, and what the removal of the oldest orphan then
    does. *)
Lemma expired_ok s : pool_ok s -> let s1 := fold_left expire (order (ch_orphans s)) s in
  pool_wf s1 /\ ch_orphans s1 ⊆ ch_orphans s /\ (ch_orphans s1 <> ∅ -> ch_oldestOrphan s1 <> None) /\
  (maxOrphanBlocks < Z.of_nat (size (ch_orphans s)) -> forall o, ch_oldestOrphan s1 = Some o -> ch_orphans s1 !! hashOf o = Some o).
Proof.
  intros [Hp Hs Hst] s1. pose proof (order_hash s Hp) as Hh.
  assert (Hsub : ch_orphans s1 ⊆ ch_orphans s) by (apply map_subseteq_spec; intros h o H; exact (proj1 (loop_left now _ h o Hh s H))).
  split; [|split; [exact Hsub|split]].
  - apply loop_wf; [exact Hp|]. apply Forall_forall. intros [h o] H. apply order_in in H. exact (member_sound s h o Hp H).
  - intros Hne Hnone. apply map_choose in Hne. destruct Hne as (h & o & H). pose proof (loop_oldest now (order (ch_orphans s)) s) as Hl.
    unfold s1 in *. rewrite Hnone in Hl. destruct Hl as [_ Hl]. destruct (loop_left now _ h o Hh s H) as [H1 H2]. apply order_in in H1.
    rewrite Forall_forall in Hl. specialize (Hl _ H1). cbn [snd] in Hl. rewrite (H2 H1) in Hl. discriminate.
  - intros Hbig o Ho. pose proof (loop_oldest now (order (ch_orphans s)) s) as Hl. unfold s1 in *. rewrite Ho in Hl.
    destruct Hl as [Hl|[[h Hin] Hx]]; [exfalso; rewrite Hl in Hst; specialize (Hst ltac:(discriminate)); lia|].
    apply order_in in Hin as Hm. rewrite (pw_hash s Hp h o Hm). apply (loop_stays now _ h o Hh); [|exact Hx | exact Hm].
    intros o' Ho'. apply order_in in Ho'. congruence.
Qed.

(** Only the pool differs. *)
Definition pool_only (s s' : chainState) : Prop := s' = with_orphans s (ch_orphans s') (ch_prevOrphans s') (ch_oldestOrphan s').

Lemma pool_only_refl s : pool_only s s.
Proof. now destruct s. Qed.

Lemma pool_only_trans s1 s2 s3 : pool_only s1 s2 -> pool_only s2 s3 -> pool_only s1 s3.
Proof. unfold pool_only. intros E1 E2. rewrite E2, E1. reflexivity. Qed.

Lemma pool_only_expire l : forall s, pool_only s (fold_left expire l s).
Proof.
  induction l as [|p l IH]; intros s; [apply pool_only_refl|]. apply (pool_only_trans _ (expire s p)); [|apply IH].
  unfold expireOrphan. destruct (_ <? _); [reflexivity|]. destruct (ch_oldestOrphan s) as [o|]; [destruct (_ <? _)|]; reflexivity || apply pool_only_refl.
Qed.

Lemma put_size o s : (size (ch_orphans (putOrphan o s)) <= size (ch_orphans s) + 1)%nat.
Proof. cbn [putOrphan with_orphans ch_orphans]. rewrite map_size_insert. destruct (_ !! _); unfold id; lia. Qed.

Lemma remove_size o s : (size (ch_orphans (remove o s)) <= size (ch_orphans s))%nat /\
  (ch_orphans s !! hashOf o = Some o -> size (ch_orphans (remove o s)) < size (ch_orphans s))%nat.
Proof.
  cbn [removeOrphanBlock with_orphans ch_orphans]. rewrite map_size_delete. split; [destruct (_ !! _); unfold id; lia|].
  intros H. rewrite H. pose proof (map_size_ne_0_lookup_2 _ _ (mk_is_Some _ _ H)). lia.
Qed.

Lemma addOrphan_ok s msg : pool_ok s -> sound_block DoubleHash W msg -> IsKnownOrphan s (BlockHash DoubleHash (mb_Header msg)) = false ->
  exists s', addOrphanBlock DoubleHash now order msg s = (s', Ok tt) /\ pool_ok s' /\ pool_only s s' /\
    IsKnownOrphan s' (BlockHash DoubleHash (mb_Header msg)) = true.
Proof.
  intros Hp Hm Hnew. destruct (expired_ok s Hp) as (Hp1 & Hsub & Hold & Hmem). pose proof (pool_only_expire (order (ch_orphans s)) s) as Hpo.
  set (s1 := fold_left expire (order (ch_orphans s)) s) in *. pose proof (map_subseteq_size _ _ Hsub) as Hle. destruct Hp as [_ Hs _].
  set (o := mkOrphan msg (now + 60 * 60 * 10 ^ 9)). assert (Ho : sound o) by exact Hm.
  assert (Hnone : ch_orphans s !! hashOf o = None) by (unfold IsKnownOrphan in Hnew; now destruct (ch_orphans s !! BlockHash DoubleHash (mb_Header msg)) eqn:E).
  assert (Hnone1 : ch_orphans s1 !! hashOf o = None) by exact (lookup_weaken_None _ _ _ Hnone Hsub).
  assert (Hfin : forall s2, pool_wf s2 -> ch_orphans s2 !! hashOf o = None -> pool_only s s2 -> Z.of_nat (size (ch_orphans s2)) <= maxOrphanBlocks ->
    (ch_oldestOrphan s2 <> None -> Z.of_nat (size (ch_orphans s2)) < maxOrphanBlocks) ->
    pool_ok (putOrphan o s2) /\ pool_only s (putOrphan o s2) /\ IsKnownOrphan (putOrphan o s2) (hashOf o) = true).
  { intros s2 H2 Hn2 Ho2 Hs2 Hst2. pose proof (put_size o s2). split; [|split].
    - split; [now apply put_wf | lia | intros Hne; specialize (Hst2 Hne); lia].
    - apply (pool_only_trans _ s2 _ Ho2). reflexivity.
    - unfold IsKnownOrphan. cbn [putOrphan with_orphans ch_orphans]. now rewrite lookup_insert_eq. }
  unfold addOrphanBlock. unfold bindM at 1, modifyM at 1. fold s1. unfold bindM at 1, getM at 1.
  destruct (Z.ltb_spec maxOrphanBlocks (Z.of_nat (size (ch_orphans s1)) + 1)) as [Hbig|Hsmall].
  - assert (Hne : ch_orphans s1 <> ∅) by (intros E; rewrite E, map_size_empty in Hbig; unfold maxOrphanBlocks in Hbig; lia). specialize (Hold Hne).
    destruct (ch_oldestOrphan s1) as [o0|] eqn:Eo; [|congruence]. set (s2 := with_orphans (remove o0 s1) (ch_orphans (remove o0 s1)) (ch_prevOrphans (remove o0 s1)) None).
    destruct (remove_size o0 s1) as [Hr1 Hr2]. pose proof (remove_wf o0 s1 Hp1 (pw_oldest s1 Hp1 o0 Eo)) as [W1 W2 W3 W4 _].
    destruct (Hfin s2) as (K1 & K2 & K3).
    + split; auto. discriminate.
    + cbn [s2 with_orphans ch_orphans removeOrphanBlock]. apply lookup_delete_None. now right.
    + apply (pool_only_trans _ s1 _ Hpo). reflexivity.
    + change (ch_orphans s2) with (ch_orphans (remove o0 s1)). destruct (Z.le_gt_cases (Z.of_nat (size (ch_orphans s1))) maxOrphanBlocks) as [|Hgt]; [lia|].
      specialize (Hr2 (Hmem ltac:(lia) o0 eq_refl)). lia.
    + intros H. now contradiction H.
    + exists (putOrphan o s2). split; [reflexivity|]. now split.
  - destruct (Hfin s1 Hp1 Hnone1 Hpo) as (K1 & K2 & K3); [lia.. |]. exists (putOrphan o s1). split; [reflexivity|]. now split.
Qed.
End Pool.

(** ** The queue of orphans *)

Section Queue.
Context {PubKey : Type} (ParsePubKey : list Z -> option PubKey)
        (SerializeUncompressed : PubKey -> list Z).
Context (CalculateRoughMapSize : Z -> Z -> Z) (CalculateMinEntries : Z -> Z -> Z).
Context (iter : entryMap -> list (OutPoint * option UtxoEntry)).
Context (DoubleHash : list Z -> list Z).
Context (params : RuleParams).
Context (checkBlockScripts : Block -> UtxoViewpoint -> Z -> verdict).
Context (dbByHash : utxoDB -> list Z -> outcome chainErr (option UtxoEntry)).
Context (now adjustedTime : Z).

Abbreviation accept := (maybeAcceptBlock ParsePubKey SerializeUncompressed CalculateRoughMapSize CalculateMinEntries iter DoubleHash params
  checkBlockScripts dbByHash now adjustedTime).
Abbreviation queue := (processOrphans_loop ParsePubKey SerializeUncompressed CalculateRoughMapSize CalculateMinEntries iter DoubleHash params
  checkBlockScripts dbByHash now adjustedTime).

(** Every orphan waits for its previous block. *)
Definition keyed (s : chainState) : Prop := forall h o, o ∈ waiting s h -> orphanPrev o = h.

Lemma keyed_remove o s : keyed s -> keyed (removeOrphanBlock DoubleHash o s).
Proof. intros Hk h o' H. rewrite waiting_remove in H. case_decide; [apply elem_others in H|]; now apply Hk. Qed.

Lemma accept_pool msg flags s s' r : accept msg flags s = (s', r) -> ch_prevOrphans s' = ch_prevOrphans s.
Proof.
  intros E. pose proof (keeps_accept ParsePubKey SerializeUncompressed CalculateRoughMapSize CalculateMinEntries iter DoubleHash params checkBlockScripts
    dbByHash now adjustedTime msg flags s) as H. rewrite E in H. cbn [fst] in H. unfold poolOf in H. congruence.
Qed.

(** The work list of processOrphans as Go runs it, without a bound on the rounds. *)
Inductive drains (flags : Z) : list (list Z) -> chainState -> chainState * outcome ruleErr unit -> Prop :=
| drains_done s : drains flags [] s (s, Ok tt)
| drains_next h q s res : waiting s h = [] -> drains flags q s res -> drains flags (h :: q) s res
| drains_fail h q o l s s' r : waiting s h = o :: l -> accept (ob_block o) flags (removeOrphanBlock DoubleHash o s) = (s', r) ->
    (forall main, r <> Ok main) -> drains flags (h :: q) s (s', match r with Err e => Err e | _ => Panic end)
| drains_take h q o l s s' main res : waiting s h = o :: l -> accept (ob_block o) flags (removeOrphanBlock DoubleHash o s) = (s', Ok main) ->
    drains flags (h :: q ++ [orphanHash DoubleHash o]) s' res -> drains flags (h :: q) s res.

(** A round takes an orphan from the lists and puts a hash into the queue, or
    takes a hash from the queue. *)
Lemma queue_drains flags : forall fuel q s, keyed s -> (2 * orphanCount s + List.length q <= fuel)%nat -> drains flags q s (queue fuel q flags s).
Proof.
  induction fuel as [|fuel IH]; intros q s Hk Hf; (destruct q as [|h q]; [constructor|]); cbn [List.length] in Hf; [lia|].
  cbn [processOrphans_loop]. unfold bindM at 1, getM. assert (Hrest : drains flags q s (queue fuel q flags s)) by (apply IH; [exact Hk | lia]).
  assert (Ew : waiting s h = match ch_prevOrphans s !! h with Some l => l | None => [] end) by reflexivity.
  destruct (ch_prevOrphans s !! h) as [[|o l]|] eqn:E; [now apply drains_next | | now apply drains_next].
  assert (Ho : o ∈ waiting s h) by (rewrite Ew; apply list_elem_of_here). pose proof (Hk h o Ho) as Hp.
  assert (Hlt : (orphanCount (removeOrphanBlock DoubleHash o s) < orphanCount s)%nat) by (apply count_remove; now rewrite Hp).
  unfold bindM at 1 2, modifyM. destruct (accept (ob_block o) flags (removeOrphanBlock DoubleHash o s)) as [s2 r] eqn:Ea.
  destruct r as [main|e|]; [|eapply (drains_fail _ _ _ _ _ _ _ (Err e)); eauto; discriminate | eapply (drains_fail _ _ _ _ _ _ _ Panic); eauto; discriminate].
  apply (drains_take flags h q o l s s2 main); [exact Ew | exact Ea|]. apply accept_pool in Ea. apply IH.
  - intros h' o' H. apply (keyed_remove o s Hk h' o'). unfold waiting in *. now rewrite <- Ea.
  - unfold orphanCount in *. rewrite Ea. cbn [List.length]. rewrite length_app. cbn [List.length]. lia.
Qed.
End Queue.
