(* ===== verification/Reorg.v ===== *)
(** * Reorganizations

    The chain keeps its best chain, its database and its cache in step: the
    set of unspent outputs the cache and the database stand for is the ledger
    of the tip, the journal holds what every block of the best chain spent,
    and the index of the main chain names exactly its blocks.  Connecting,
    disconnecting and reorganizing keep that, and a reorganization either
    reaches its target or leaves the best chain where it was. *)

From Stdlib Require Import ZArith List Lia Bool String.
From stdpp Require Import gmap.
From S2P Require Import Prelude GoSlice GoIO WireCommon WireTx WireMsgs Merkle Compress Script Difficulty ChainIO BlockIndex ChainView Retarget Index Threshold Growth UtxoView UtxoCache Rules Connect Supply ViewSync Branches Chain.
Import ListNotations.
Local Open Scope string_scope.
Local Open Scope list_scope.
Local Open Scope Z_scope.
Local Open Scope go_scope.
Local Open Scope chain_scope.

Abbreviation arenaOf s := (bi_nodes (ch_index s)).
Abbreviation blocksOf s := (cd_blocks (ch_db s)).

(** A mark stays when other flags are set. *)
Lemma KnownInvalid_lor st flags : KnownInvalid st = true \/ KnownInvalid flags = true -> KnownInvalid (Z.lor st flags) = true.
Proof.
  unfold KnownInvalid. rewrite !negb_true_iff, !Z.eqb_neq, Z.land_lor_distr_l, Z.lor_eq_0_iff. tauto.
Qed.

Section Reorg.
Context {PubKey : Type} (ParsePubKey : list Z -> option PubKey)
        (SerializeUncompressed : PubKey -> list Z).
Context (CalculateRoughMapSize : Z -> Z -> Z) (CalculateMinEntries : Z -> Z -> Z).
Context (iter : entryMap -> list (OutPoint * option UtxoEntry)).
Context (DoubleHash : list Z -> list Z).
Context (params : RuleParams).
Context (checkBlockScripts : Block -> UtxoViewpoint -> Z -> verdict).
Context (dbByHash : utxoDB -> list Z -> outcome chainErr (option UtxoEntry)).
Context (now adjustedTime : Z).
Hypothesis forms : pubkey_forms ParsePubKey SerializeUncompressed.
Hypothesis iter_all : forall m, iter m ≡ₚ map_to_list m.
Hypothesis hash_len : forall l, len (DoubleHash l) = 32.
Hypothesis Hvp : votes_ok (rp_votes params).
Context (W : universe).
Hypothesis HW : universe_ok DoubleHash W.

Abbreviation ledger a B := (ledgerAt DoubleHash a B).
Abbreviation valid a B := (valid_to DoubleHash params a B).
Abbreviation inv := (cinv ParsePubKey).

(** ** The invariant *)

(** What the block of [x] spends after its parent [p]. *)
Definition spentAt (a : arena) (B : gmap (list Z) MsgBlock) (p : nat) (b : Block) : list SpentTxOut :=
  map stxoOfCoin (blockSpent DoubleHash (blk_height b) (ledger a B p) (Transactions b)).

(** The buckets that describe the main chain name the blocks up to [t]. *)
Record main_index (a : arena) (db : chainDB) (t : nat) : Prop := {
  mi_hash : forall x, (x < List.length a)%nat -> on_branch a t x -> cd_hashIndex db !! bn_hash (deref a x) = Some (le_put 4 (height_of a x));
  mi_only : forall h, is_Some (cd_hashIndex db !! h) -> exists x, (x < List.length a)%nat /\ on_branch a t x /\ bn_hash (deref a x) = h;
  mi_height : forall x, (x < List.length a)%nat -> on_branch a t x -> cd_heightIndex db !! le_put 4 (height_of a x) = Some (bn_hash (deref a x));
  mi_above : forall h, height_of a t < h < 2 ^ 31 -> cd_heightIndex db !! le_put 4 h = None
}.

(** Everything but the set of unspent outputs. *)
Record chain_core (s : chainState) (t : nat) : Prop := {
  ck_tree : tree_ok (ch_index s);
  ck_root : forall x, (x < List.length (arenaOf s))%nat -> bn_parent (deref (arenaOf s) x) = None -> x = 0%nat;
  ck_links : links_ok W (arenaOf s);
  ck_blocks : blocks_ok DoubleHash W (blocksOf s);
  ck_header : exists h, view_ok (arenaOf s) (ch_bestHeader s) (Some h);
  ck_view : view_ok (arenaOf s) (ch_bestChain s) (Some t);
  ck_valid : valid (arenaOf s) (blocksOf s) t;
  ck_known : forall x, (x < List.length (arenaOf s))%nat -> KnownValid (bn_status (deref (arenaOf s) x)) = true ->
    valid (arenaOf s) (blocksOf s) x;
  ck_journal : forall x p b, (x < List.length (arenaOf s))%nat -> on_branch (arenaOf s) t x -> bn_parent (deref (arenaOf s) x) = Some p ->
    blockOf (arenaOf s) (blocksOf s) x = Some b -> exists j,
    serializeSpendJournalEntry ParsePubKey (spentAt (arenaOf s) (blocksOf s) p b) = Ok j /\
    cd_journal (ch_db s) !! bn_hash (deref (arenaOf s) x) = Some j;
  ck_main : main_index (arenaOf s) (ch_db s) t;
  ck_votes : all_ok DoubleHash (ch_index s) (rp_votes params) (ch_warnings s) (ch_deployments s);
  ck_snapshot : bst_Hash (ch_snapshot s) = bn_hash (deref (arenaOf s) t) /\ bst_Height (ch_snapshot s) = height_of (arenaOf s) t
}.

(** The cache over the database, which holds [D], stands for [U]. *)
Record set_ok (D U : utxoSet) (s : chainState) : Prop := {
  so_inv : inv D (cd_utxo (ch_db s)) (ch_cache s);
  so_set : cabs D (ch_cache s) = U
}.

(** The chain with its tip [t]. *)
Record chain_ok (D : utxoSet) (s : chainState) (t : nat) : Prop := {
  co_core : chain_core s t;
  co_set : set_ok D (ledger (arenaOf s) (blocksOf s) t) s;
  co_from : from_chain DoubleHash (chainTo (arenaOf s) (blocksOf s) t) D
}.

(** ** Changes that keep it *)

Lemma core_arena s t : chain_core s t -> arena_wf (arenaOf s).
Proof. intros H. apply H. Qed.

Lemma core_heights s t x : chain_core s t -> (x < List.length (arenaOf s))%nat -> height_of (arenaOf s) x <= maxViewHeight.
Proof. intros H Hx. exact (proj2 (links_height DoubleHash W HW _ (core_arena s t H) (ck_links _ _ H) x Hx)). Qed.

Lemma core_stored s t x p b : chain_core s t -> (x < List.length (arenaOf s))%nat -> bn_parent (deref (arenaOf s) x) = Some p ->
  blockOf (arenaOf s) (blocksOf s) x = Some b -> stored_block DoubleHash (arenaOf s) (blocksOf s) x p b.
Proof. intros H. exact (stored_universe DoubleHash W HW _ _ (core_arena s t H) (ck_links _ _ H) (ck_blocks _ _ H) x p b). Qed.

Lemma core_tip s t : chain_core s t -> (t < List.length (arenaOf s))%nat.
Proof. intros H. destruct (ck_view _ _ H) as [_ _ (Ht & _)]. exact Ht. Qed.

Lemma core_tipM s t : chain_core s t -> tipM s = (s, Ok t).
Proof.
  intros H. unfold tipM, bindM, getM. now rewrite (tip_spec _ _ _ (core_arena _ _ H) (ck_view _ _ H)).
Qed.

(** The state changes in nothing the invariant speaks about. *)
Record same_core (s s' : chainState) : Prop := {
  sc_index : ch_index s' = ch_index s;
  sc_best : ch_bestChain s' = ch_bestChain s;
  sc_header : ch_bestHeader s' = ch_bestHeader s;
  sc_blocks : blocksOf s' = blocksOf s;
  sc_journal : cd_journal (ch_db s') = cd_journal (ch_db s);
  sc_hash : cd_hashIndex (ch_db s') = cd_hashIndex (ch_db s);
  sc_heights : cd_heightIndex (ch_db s') = cd_heightIndex (ch_db s);
  sc_votes : ch_warnings s' = ch_warnings s /\ ch_deployments s' = ch_deployments s;
  sc_snapshot : ch_snapshot s' = ch_snapshot s
}.

Lemma core_frame s s' t : same_core s s' -> chain_core s t -> chain_core s' t.
Proof.
  intros [E1 E2 E0 E3 E4 E5 E6 [E7 E8] E9] [H1 H2 H4 H4' H4'' H5 H6 H7 H8 [M1 M2 M3 M4] H9 H10].
  split; rewrite ?E1, ?E2, ?E0, ?E3, ?E4, ?E7, ?E8, ?E9; auto. split; rewrite ?E5, ?E6; auto.
Qed.

(** The statuses of nodes change. *)
Lemma core_extends s t bi' : chain_core s t -> extends (arenaOf s) (bi_nodes bi') -> List.length (bi_nodes bi') = List.length (arenaOf s) ->
  bi_index bi' = bi_index (ch_index s) ->
  (forall x, (x < List.length (arenaOf s))%nat -> KnownValid (bn_status (deref (bi_nodes bi') x)) = true ->
     KnownValid (bn_status (deref (arenaOf s) x)) = true \/ valid (arenaOf s) (blocksOf s) x) ->
  chain_core (with_index s bi') t.
Proof.
  intros H He Hl Hi Hk. pose proof (core_arena _ _ H) as Hw. pose proof (core_tip _ _ H) as Ht.
  set (a' := bi_nodes bi') in *. set (a := arenaOf s) in *.
  assert (Hw' : arena_wf a') by (now apply (arena_wf_extends a)).
  assert (Htree : tree_ok bi').
  { destruct (ck_tree _ _ H) as [_ [Hc Hs] Hz Htm]. split; [exact Hw' | | unfold LookupNode; rewrite Hi; exact Hz|].
    - split; unfold LookupNode; rewrite Hi; fold a'; rewrite Hl.
      + intros id Hid. rewrite (ex_hash a a' He id Hid). now apply Hc.
      + intros hash id E. destruct (Hs hash id E) as [Hid Eh]. split; [exact Hid|]. now rewrite (ex_hash a a' He id Hid).
    - intros id p m Hid Hp Hm. fold a' in Hid, Hp, Hm |- *. rewrite Hl in Hid. rewrite (ex_parent a a' He id Hid) in Hp.
      destruct (height_parent a id p Hw Hid Hp) as (_ & Hpl & _). rewrite (CalcPastMedianTime_extends a a' Hw He p Hpl) in Hm.
      rewrite (ex_timestamp a a' He id Hid). exact (Htm id p m Hid Hp Hm). }
  split; cbn [with_index ch_index ch_bestChain ch_bestHeader ch_db ch_warnings ch_deployments ch_snapshot]; fold a'; try rewrite Hl.
  - exact Htree.
  - intros x Hx. rewrite (ex_parent a a' He x Hx). now apply (ck_root _ _ H).
  - exact (links_extends W a a' Hw He Hl (ck_links _ _ H)).
  - exact (ck_blocks _ _ H).
  - destruct (ck_header _ _ H) as [h Hh]. exists h. exact (view_ok_extends a a' Hw He _ _ Hh).
  - exact (view_ok_extends a a' Hw He _ _ (ck_view _ _ H)).
  - exact (valid_to_extends DoubleHash params a _ Hw a' He t Ht (ck_valid _ _ H)).
  - intros x Hx Hv. apply (valid_to_extends DoubleHash params a _ Hw a' He x Hx). destruct (Hk x Hx Hv) as [Hv'|Hv']; [now apply (ck_known _ _ H) | exact Hv'].
  - intros x p b Hx Hbr Hp Hb. rewrite (on_branch_extends a a' Hw He t x Ht Hx) in Hbr. rewrite (ex_parent a a' He x Hx) in Hp.
    rewrite (blockOf_extends a _ a' He x Hx) in Hb. destruct (height_parent a x p Hw Hx Hp) as (_ & Hpl & _).
    unfold spentAt. rewrite (ledgerAt_extends DoubleHash a _ Hw a' He p Hpl), (ex_hash a a' He x Hx). exact (ck_journal _ _ H x p b Hx Hbr Hp Hb).
  - destruct (ck_main _ _ H) as [M1 M2 M3 M4]. split; rewrite ?Hl; intros x Hx.
    + rewrite (on_branch_extends a a' Hw He t x Ht Hx), (ex_hash a a' He x Hx), (ex_height a a' He x Hx). now apply M1.
    + destruct (M2 x Hx) as (y & Hy & Hb & E). exists y. split; [exact Hy|]. split; [now apply (on_branch_extends a a' Hw He t y Ht Hy)|].
      now rewrite (ex_hash a a' He y Hy).
    + rewrite (on_branch_extends a a' Hw He t x Ht Hx), (ex_hash a a' He x Hx), (ex_height a a' He x Hx). now apply M3.
    + rewrite (ex_height a a' He t Ht) in Hx. now apply M4.
  - exact (all_ok_extends DoubleHash (ch_index s) bi' _ (ck_tree _ _ H) Htree Hvp He _ _ (ck_votes _ _ H)).
  - rewrite (ex_hash a a' He t Ht), (ex_height a a' He t Ht). exact (ck_snapshot _ _ H).
Qed.

Lemma core_votes s t d w b : chain_core s t -> all_ok DoubleHash (ch_index s) (rp_votes params) w d -> chain_core (with_votes s d w b) t.
Proof. intros [H1 H2 H4 H4' H4'' H5 H6 H7 H8 [M1 M2 M3 M4] H9 H10] Hv. split; auto. now split. Qed.

Lemma KnownValid_bit st : KnownValid st = Z.testbit st 1.
Proof. unfold KnownValid. now rewrite <- (land_bit st 1 ltac:(lia)). Qed.

Lemma status_extends bi id f : (id < List.length (bi_nodes bi))%nat -> extends (bi_nodes bi) (bi_nodes (set_status bi id f)) /\
  List.length (bi_nodes (set_status bi id f)) = List.length (bi_nodes bi).
Proof. intros Hid. split; [now apply extends_status | apply length_insert]. Qed.

(** Setting a flag keeps the invariant; the flag that says valid is for valid
    nodes. *)
Lemma core_status s t id flags : chain_core s t -> (id < List.length (arenaOf s))%nat ->
  KnownValid flags = false \/ valid (arenaOf s) (blocksOf s) id ->
  chain_core (with_index s (SetStatusFlags (ch_index s) id flags)) t.
Proof.
  intros H Hid Hf. destruct (status_extends (ch_index s) id (fun st => Z.lor st flags) Hid) as [He Hl].
  apply core_extends; auto. intros x Hx. unfold SetStatusFlags, set_status. cbn [bi_nodes]. rewrite deref_insert by exact Hid.
  case_decide as Ex; [|auto]. subst x. cbn [with_status bn_status]. rewrite !KnownValid_bit, Z.lor_spec, orb_true_iff.
  intros [Hv|Hv]; [now left|]. rewrite <- KnownValid_bit in Hv. destruct Hf as [Hf|Hf]; [congruence | now right].
Qed.

Lemma core_statuses s t flags ids : chain_core s t -> Forall (fun id => (id < List.length (arenaOf s))%nat) ids -> KnownValid flags = false ->
  let bi' := fold_left (fun bi id => SetStatusFlags bi id flags) ids (ch_index s) in
  chain_core (with_index s bi') t /\ extends (arenaOf s) (bi_nodes bi') /\ List.length (bi_nodes bi') = List.length (arenaOf s).
Proof.
  intros H Hids Hf. revert s H Hids. induction ids as [|id ids IH]; intros s H Hids; cbn [fold_left].
  - split; [|split; [apply extends_refl | reflexivity]]. now apply (core_frame s).
  - apply Forall_cons in Hids. destruct Hids as [Hid Hids]. destruct (status_extends (ch_index s) id (fun st => Z.lor st flags) Hid) as [He Hl].
    pose proof (core_status s t id flags H Hid (or_introl Hf)) as H1.
    destruct (IH _ H1) as (H2 & He2 & Hl2); [cbn [with_index ch_index]; unfold SetStatusFlags; now rewrite Hl|].
    cbn [with_index ch_index] in H2, He2, Hl2. split; [exact H2|]. split; [exact (extends_trans _ _ _ He He2)|]. rewrite Hl2. exact Hl.
Qed.

(** ** Rows and flushes *)

(** The state after the changed nodes are written. *)
Definition flushed (s : chainState) : chainState := fst (flushToDB s).

Lemma flushToDB_eq s : flushToDB s = (flushed s, Ok tt).
Proof. reflexivity. Qed.

Lemma core_flushed s t : chain_core s t -> chain_core (flushed s) t.
Proof.
  intros H. apply (core_frame (with_index s (mkIndex (arenaOf s) (bi_index (ch_index s)) ∅))); [now split|].
  apply core_extends; auto. apply extends_refl.
Qed.

Lemma set_flushed D U s : set_ok D U s -> set_ok D U (flushed s).
Proof. intros [H1 H2]. now split. Qed.

(** ** Rules for sequences of operations *)

Lemma bind_Ok {A C} (m : M A) (k : A -> M C) s s' x : m s = (s', Ok x) -> bindM m k s = k x s'.
Proof. intros E. unfold bindM. now rewrite E. Qed.

Lemma bind_assoc {A C E} (m : M A) (k : A -> M C) (k' : C -> M E) s :
  bindM (bindM m k) k' s = bindM m (fun x => bindM (k x) k') s.
Proof. unfold bindM. now destruct (m s) as [s' [x| |]]. Qed.

Lemma get_bind {C} (k : chainState -> M C) s : bindM getM k s = k s s.
Proof. reflexivity. Qed.

Lemma node_bind {C} x (k : blockNode -> M C) s : bindM (nodeM x) k s = k (deref (arenaOf s) x) s.
Proof. reflexivity. Qed.

Lemma status_bind {C} x (k : Z -> M C) s : bindM (statusM x) k s = k (bn_status (deref (arenaOf s) x)) s.
Proof. reflexivity. Qed.

Lemma lift_bind {A C} (o : outcome chainErr A) x (k : A -> M C) s : o = Ok x -> bindM (liftC o) k s = k x s.
Proof. now intros ->. Qed.

(** A flush in any mode: the set stays, and a required one empties the cache. *)
Lemma flushM_ok D U s mode hash : set_ok D U s ->
  exists s' D', flushM ParsePubKey CalculateRoughMapSize iter now mode hash s = (s', Ok tt) /\ same_core s s' /\ set_ok D' U s' /\
    (D' = D \/ D' = U) /\ (mode = FlushRequired -> db_rep ParsePubKey (cd_utxo (ch_db s')) U /\ forall op, ms_get (uc_cachedEntries (ch_cache s')) op = None).
Proof.
  intros [Hi Ha]. destruct (flush_spec ParsePubKey CalculateRoughMapSize CalculateMinEntries iter DoubleHash iter_all D _ _ mode hash now Hi)
    as (c & u & E & Hc).
  unfold flushM, bindM, getM, liftC, liftM, lift_chain, modifyM. rewrite E.
  destruct Hc as [(-> & -> & Hm)|(Hi' & Ha' & _ & He)].
  - eexists _, D. split; [reflexivity|]. split; [now split|]. split; [now split|]. split; [now left | intros; congruence].
  - rewrite Ha in Hi', Ha'. eexists _, U. split; [reflexivity|]. split; [now split|]. split; [now split|]. split; [now right|]. intros _. split; [apply Hi' | exact He].
Qed.

(** ** The best state *)

Lemma CalcWork_range bits : 0 <= CalcWork bits <= 2 ^ 256.
Proof.
  unfold CalcWork. destruct (Z.leb_spec (CompactToBig bits) 0); [split; [lia|]; apply Z.pow_nonneg; lia|].
  change oneLsh256 with (2 ^ 256). unfold bigOne. split; [apply Z.div_pos; [apply Z.pow_nonneg|]; lia|].
  apply Z.div_le_upper_bound; [lia|]. assert (0 < 2 ^ 256) by (apply Z.pow_pos_nonneg; lia). nia.
Qed.

Lemma workSum_range a x : arena_wf a -> (x < List.length a)%nat -> 0 <= bn_workSum (deref a x) <= (height_of a x + 1) * 2 ^ 256.
Proof.
  intros Hw. induction x as [x IH] using lt_wf_ind. intros Hx. pose proof (aw_nodes a Hw x Hx) as Hn. unfold node_wf in Hn.
  pose proof (CalcWork_range (bn_bits (deref a x))). destruct (bn_parent (deref a x)) as [p|].
  - destruct Hn as (Hlt & Hh & _ & ->). specialize (IH p Hlt ltac:(lia)). rewrite Hh. lia.
  - destruct Hn as (-> & _ & ->). lia.
Qed.

Lemma byteLen_small n : 0 <= n < 2 ^ 288 -> byteLen n <= 36.
Proof.
  intros Hn. destruct (Z.eq_dec n 0) as [->|Hz]; [discriminate|]. destruct (byteLen_spec n ltac:(lia)) as (H1 & H2 & _).
  destruct (Z.le_gt_cases (byteLen n) 36) as [|Hgt]; [assumption|]. exfalso.
  assert (2 ^ 288 <= 2 ^ (8 * (byteLen n - 1))) by (apply Z.pow_le_mono_r; lia). lia.
Qed.

Lemma dbPutBestState_ok a db state x : arena_wf a -> (x < List.length a)%nat -> len (bst_Hash state) = 32 -> is_u64 (bst_TotalTxns state) ->
  exists bytes, dbPutBestState db state (bn_workSum (deref a x)) =
    Ok (mkChainDB (cd_utxo db) (cd_blocks db) (cd_journal db) (cd_hashIndex db) (cd_heightIndex db) (Some bytes) (cd_rows db)).
Proof.
  intros Hw Hx Hh Ht. unfold dbPutBestState. pose proof (workSum_range a x Hw Hx) as Hr. pose proof (aw_height a Hw x Hx) as Hhx.
  unfold maxHeight in Hhx. rewrite serializeBestChainState_eq; [cbn [obind]; eauto|].
  split; [exact Hh|]. split; [apply Z.mod_pos_bound; reflexivity|]. split; [exact Ht|]. cbn [bs_workSum]. split; [apply Hr|].
  assert (bn_workSum (deref a x) < 2 ^ 288).
  { change (2 ^ 288) with (2 ^ 32 * 2 ^ 256). assert (0 < 2 ^ 256) by (apply Z.pow_pos_nonneg; lia). nia. }
  pose proof (byteLen_small (bn_workSum (deref a x)) ltac:(lia)). lia.
Qed.

Lemma valid_hash a B x : valid a B x -> len (bn_hash (deref a x)) = 32.
Proof. intros [y b _ _ E|y p b _ _ _ Hs _]; [rewrite <- E | rewrite <- (sb_hash _ _ _ _ _ _ Hs)]; apply hash_len. Qed.

(** ** A new tip *)

Lemma le_put_inj h h' : 0 <= h < 2 ^ 31 -> 0 <= h' < 2 ^ 31 -> le_put 4 h = le_put 4 h' -> h = h'.
Proof. intros H H' E. rewrite <- (le_get_put 4 h), <- (le_get_put 4 h') by (change (256 ^ Z.of_nat 4) with (2 ^ 32); lia). now rewrite E. Qed.

Lemma main_index_connect a db p x : arena_wf a ->
  (forall y z, (y < List.length a)%nat -> (z < List.length a)%nat -> bn_hash (deref a y) = bn_hash (deref a z) -> y = z) ->
  (x < List.length a)%nat -> bn_parent (deref a x) = Some p -> main_index a db p ->
  forall db', cd_hashIndex db' = <[bn_hash (deref a x) := le_put 4 (height_of a x)]> (cd_hashIndex db) ->
  cd_heightIndex db' = <[le_put 4 (height_of a x) := bn_hash (deref a x)]> (cd_heightIndex db) -> main_index a db' x.
Proof.
  intros Hw Hinj Hx Hp [M1 M2 M3 M4] db' E1 E2. destruct (height_parent a x p Hw Hx Hp) as (_ & Hpl & Hh).
  assert (Hr : forall y, (y < List.length a)%nat -> 0 <= height_of a y < 2 ^ 31) by (intros y Hy; pose proof (aw_height a Hw y Hy); unfold maxHeight in *; lia).
  assert (Hbr : forall y, on_branch a x y <-> y = x \/ on_branch a p y) by (intros y; now apply on_branch_parent).
  split; rewrite ?E1, ?E2.
  - intros y Hy Hb. destruct (decide (y = x)) as [->|Hne]; [apply lookup_insert_eq|].
    rewrite lookup_insert_ne by (intros E; apply Hne; symmetry; now apply Hinj). apply M1; [exact Hy|]. apply Hbr in Hb. tauto.
  - intros h Hh'. apply lookup_insert_is_Some' in Hh'. destruct Hh' as [<-|Hh']; [exists x; split; [exact Hx|]; split; [apply Hbr; now left | reflexivity]|].
    destruct (M2 h Hh') as (y & Hy & Hb & E). exists y. split; [exact Hy|]. split; [apply Hbr; now right | exact E].
  - intros y Hy Hb. destruct (decide (y = x)) as [->|Hne]; [apply lookup_insert_eq|]. apply Hbr in Hb. destruct Hb as [->|Hb]; [congruence|].
    rewrite lookup_insert_ne; [now apply M3|]. intros E. apply le_put_inj in E; [|now apply Hr..]. destruct Hb as [Hle _]. lia.
  - intros h Hlt. pose proof (Hr x Hx). rewrite lookup_insert_ne by (intros E; apply le_put_inj in E; lia). apply M4. lia.
Qed.

Lemma main_index_disconnect a db x p : arena_wf a ->
  (forall y z, (y < List.length a)%nat -> (z < List.length a)%nat -> bn_hash (deref a y) = bn_hash (deref a z) -> y = z) ->
  (x < List.length a)%nat -> bn_parent (deref a x) = Some p -> main_index a db x ->
  forall db', cd_hashIndex db' = delete (bn_hash (deref a x)) (cd_hashIndex db) ->
  cd_heightIndex db' = delete (le_put 4 (height_of a x)) (cd_heightIndex db) -> main_index a db' p.
Proof.
  intros Hw Hinj Hx Hp [M1 M2 M3 M4] db' E1 E2. destruct (height_parent a x p Hw Hx Hp) as (_ & Hpl & Hh).
  assert (Hr : forall y, (y < List.length a)%nat -> 0 <= height_of a y < 2 ^ 31) by (intros y Hy; pose proof (aw_height a Hw y Hy); unfold maxHeight in *; lia).
  assert (Hbr : forall y, on_branch a x y <-> y = x \/ on_branch a p y) by (intros y; now apply on_branch_parent).
  assert (Hnx : forall y, on_branch a p y -> y <> x) by (intros y [Hle _] ->; lia).
  split; rewrite ?E1, ?E2.
  - intros y Hy Hb. rewrite lookup_delete_ne by (intros E; apply (Hnx y Hb); symmetry; now apply Hinj). apply M1; [exact Hy|]. apply Hbr. now right.
  - intros h [v Hv]. apply lookup_delete_Some in Hv. destruct Hv as [Hne Hv]. destruct (M2 h (ex_intro _ v Hv)) as (y & Hy & Hb & E).
    exists y. split; [exact Hy|]. split; [|exact E]. apply Hbr in Hb. destruct Hb as [->|Hb]; [congruence | exact Hb].
  - intros y Hy Hb. rewrite lookup_delete_ne; [apply M3; [exact Hy | apply Hbr; now right]|]. intros E. apply le_put_inj in E; [|now apply Hr..].
    destruct Hb as [Hle _]. lia.
  - intros h Hlt. destruct (Z.eq_dec h (height_of a x)) as [->|Hne]; [apply lookup_delete_eq|]. pose proof (Hr x Hx). pose proof (Hr p Hpl).
    rewrite lookup_delete_ne by (intros E; apply le_put_inj in E; lia). apply M4. lia.
Qed.

Lemma core_new_tip s t s' x : chain_core s t -> ch_index s' = ch_index s -> blocksOf s' = blocksOf s ->
  ch_warnings s' = ch_warnings s -> ch_deployments s' = ch_deployments s -> ch_bestHeader s' = ch_bestHeader s ->
  view_ok (arenaOf s) (ch_bestChain s') (Some x) -> valid (arenaOf s) (blocksOf s) x ->
  (forall y p b, (y < List.length (arenaOf s))%nat -> on_branch (arenaOf s) x y -> bn_parent (deref (arenaOf s) y) = Some p ->
    blockOf (arenaOf s) (blocksOf s) y = Some b -> exists j,
    serializeSpendJournalEntry ParsePubKey (spentAt (arenaOf s) (blocksOf s) p b) = Ok j /\
    cd_journal (ch_db s') !! bn_hash (deref (arenaOf s) y) = Some j) ->
  main_index (arenaOf s) (ch_db s') x ->
  bst_Hash (ch_snapshot s') = bn_hash (deref (arenaOf s) x) -> bst_Height (ch_snapshot s') = height_of (arenaOf s) x ->
  chain_core s' x.
Proof.
  intros [H1 H2 H4 H4' H4'' H5 H6 H7 H8 H9 H10 H11] E1 E2 E3 E4 E5 Hv Hx Hj Hm Hs1 Hs2. split; rewrite ?E1, ?E2, ?E3, ?E4, ?E5; auto.
Qed.

(** The journal entry of a valid block is written and read back. *)
Lemma spentAt_journal a B x p b : arena_wf a -> (x < List.length a)%nat -> bn_parent (deref a x) = Some p -> blockOf a B x = Some b ->
  valid a B x -> countSpentOutputs b = Ok (len (spentAt a B p b)) /\ exists j,
    serializeSpendJournalEntry ParsePubKey (spentAt a B p b) = Ok j /\
    exists rest, slice (E := chainErr) (Transactions b) 1 (len (Transactions b)) = Ok rest /\
      deserializeSpendJournalEntry ParsePubKey SerializeUncompressed j rest = Ok (spentAt a B p b).
Proof.
  intros Hw Hx Hp Hb Hv. destruct (height_parent a x p Hw Hx Hp) as (_ & Hpl & _).
  destruct Hv as [x b' Hp' _ _|x p' b' Hp' Hvp' Hb' Hs Hbv]; [congruence|]. rewrite Hp in Hp'. injection Hp' as <-. rewrite Hb in Hb'. injection Hb' as <-.
  exact (journal_valid ParsePubKey SerializeUncompressed DoubleHash params forms hash_len _ b (sb_form _ _ _ _ _ _ Hs) Hbv (stored_new DoubleHash a B x p b Hs)
    (valid_coins DoubleHash params hash_len a B Hw p Hpl Hvp')).
Qed.

Lemma journal_read s t x p b : chain_core s t -> (x < List.length (arenaOf s))%nat -> on_branch (arenaOf s) t x ->
  bn_parent (deref (arenaOf s) x) = Some p -> blockOf (arenaOf s) (blocksOf s) x = Some b ->
  dbFetchSpendJournalEntry ParsePubKey SerializeUncompressed DoubleHash (ch_db s) b = Ok (spentAt (arenaOf s) (blocksOf s) p b).
Proof.
  intros H Hx Hbr Hp Hb. pose proof (core_arena _ _ H) as Hw.
  pose proof (valid_branch DoubleHash params _ _ Hw t x (core_tip _ _ H) Hx (ck_valid _ _ H) Hbr) as Hv.
  destruct (spentAt_journal _ _ x p b Hw Hx Hp Hb Hv) as (_ & j & Ej & rest & Er & Dj).
  destruct (ck_journal _ _ H x p b Hx Hbr Hp Hb) as (j' & Ej' & Hj). rewrite Ej in Ej'. injection Ej' as <-.
  unfold dbFetchSpendJournalEntry, blockHash. rewrite (sb_hash _ _ _ _ _ _ (core_stored _ _ x p b H Hx Hp Hb)), Hj, Er. cbn [obind]. now rewrite Dj.
Qed.

(** ** Connecting a block *)

Lemma warnM_ok s t x : chain_core s t -> (x < List.length (arenaOf s))%nat ->
  exists d w b, warnM DoubleHash params x s = (with_votes s d w b, Ok tt) /\ all_ok DoubleHash (ch_index s) (rp_votes params) w d.
Proof.
  intros H Hx. destruct (ck_votes _ _ H) as (Hw & Hl & Hc). unfold warnM, warnUnknownRuleActivations.
  destruct (warningStates_spec DoubleHash (ch_index s) (rp_votes params) (ck_tree _ _ H) Hvp _ (ch_warnings s) 0 (ch_deployments s)
    (parent_node_ok (ch_index s) (ck_tree _ _ H) x Hx) Hw Hc) as (w' & c' & E & Hw' & Hl' & Hc').
  unfold bindM, getM, liftC, liftM, modifyM. rewrite E. cbn [obind lift_chain fst snd]. eexists c', w', _. split; [reflexivity|].
  split; [exact Hw'|]. split; [congruence | exact Hc'].
Qed.

Lemma snapshotM_ok s x b n : exists m, snapshotM x b n s = (s, Ok (newBestState (deref (arenaOf s) x) (u64 (mb_SerializeSize (blk_msg b)))
  (u64 (GetBlockWeight b)) (u64 (len (Transactions b))) n m)).
Proof.
  destruct (median_total (arenaOf s) x) as [m E]. exists m. unfold snapshotM, bindM, getM, liftU, liftM, retM. now rewrite E.
Qed.

Lemma setTipM_ok s t x : chain_core s t -> (x < List.length (arenaOf s))%nat ->
  exists c, setTipM (Some x) s = (with_bestChain s c, Ok tt) /\ view_ok (arenaOf s) c (Some x).
Proof.
  intros H Hx. destruct (setTip_ok _ _ _ x (core_arena _ _ H) (ck_view _ _ H) Hx (core_heights s t x H Hx)) as (c & E & Hv).
  exists c. split; [|exact Hv]. unfold setTipM, bindM, getM, liftU, liftM, modifyM. now rewrite E.
Qed.

Lemma dbM_ok f s db : f (ch_db s) = Ok db -> dbM f s = (with_db s db, Ok tt).
Proof. intros E. unfold dbM, bindM, getM, liftC, liftM, modifyM. now rewrite E. Qed.

Lemma Update_ok {A} (m : M A) s s' x : m s = (s', Ok x) -> Update m s = (s', Ok x).
Proof. intros E. unfold Update. now rewrite E. Qed.

(** The set after a view is written to the database of an empty cache. *)
Lemma put_view_ok D U V s v : set_ok D U s -> db_rep ParsePubKey (cd_utxo (ch_db s)) U ->
  (forall op, ms_get (uc_cachedEntries (ch_cache s)) op = None) -> tracks U v -> abs U v = V -> coins_ok V ->
  exists u, putUtxoView ParsePubKey iter v (ch_db s) = Ok (set_utxo (ch_db s) u) /\ inv V u (ch_cache s) /\ cabs V (ch_cache s) = V.
Proof.
  intros Hs Hdb He Ht Ha HV. destruct (dbPutUtxoView_spec ParsePubKey iter iter_all (cd_utxo (ch_db s)) U v Hdb Ht) as (u & E & Hu).
  { intros op c Hc. rewrite Ha in Hc. apply (HV op c Hc). }
  exists u. unfold putUtxoView. rewrite E. split; [reflexivity|]. rewrite Ha in Hu. split.
  - split; [apply Hs | exact Hu|]. intros op e Hop. rewrite He in Hop. discriminate.
  - apply map_eq. intros op. now rewrite lookup_cabs, He.
Qed.

(** The view that comes with a block: none when the cache has the block
    already. *)
Definition view_for (U V : utxoSet) (view : option UtxoViewpoint) : Prop :=
  match view with Some v => tracks U v /\ abs U v = V | None => U = V end.

(** What the chain looks like to the caller: the same tree and blocks. *)
Record same_tree (s s' : chainState) : Prop := { st_arena : arenaOf s' = arenaOf s; st_blocks : blocksOf s' = blocksOf s }.

Lemma same_tree_trans s1 s2 s3 : same_tree s1 s2 -> same_tree s2 s3 -> same_tree s1 s3.
Proof. intros [E1 E2] [E3 E4]. split; congruence. Qed.

Abbreviation connect := (connectBlock ParsePubKey CalculateRoughMapSize iter DoubleHash params now adjustedTime).

(** The records of a block that is connected. *)
Lemma connect_records D U s p x b state view : chain_core s p -> set_ok D U s ->
  (x < List.length (arenaOf s))%nat -> bn_parent (deref (arenaOf s) x) = Some p -> blockOf (arenaOf s) (blocksOf s) x = Some b ->
  valid (arenaOf s) (blocksOf s) x -> view_for U (ledger (arenaOf s) (blocksOf s) x) view ->
  (forall v, view = Some v -> db_rep ParsePubKey (cd_utxo (ch_db s)) U /\ forall op, ms_get (uc_cachedEntries (ch_cache s)) op = None) ->
  bst_Hash state = bn_hash (deref (arenaOf s) x) -> is_u64 (bst_TotalTxns state) ->
  exists db D', Update (
      dbM (fun db => dbPutBestState db state (bn_workSum (deref (arenaOf s) x))) ;!
      dbM (fun db => Ok (dbPutBlockIndex db (blockHash DoubleHash b) (bn_height (deref (arenaOf s) x)))) ;!
      dbM (fun db => dbPutSpendJournalEntry ParsePubKey db (blockHash DoubleHash b) (spentAt (arenaOf s) (blocksOf s) p b)) ;!
      match view with Some v => dbM (putUtxoView ParsePubKey iter v) | None => retM tt end) s = (with_db s db, Ok tt) /\
    set_ok D' (ledger (arenaOf s) (blocksOf s) x) (with_db s db) /\ (D' = D \/ D' = ledger (arenaOf s) (blocksOf s) x) /\
    main_index (arenaOf s) db x /\ cd_blocks db = blocksOf s /\
    exists j, serializeSpendJournalEntry ParsePubKey (spentAt (arenaOf s) (blocksOf s) p b) = Ok j /\
      cd_journal db = <[bn_hash (deref (arenaOf s) x) := j]> (cd_journal (ch_db s)).
Proof.
  intros H Hset Hx Hp Hb Hv Hview Hrep Hh Htot. pose proof (core_arena _ _ H) as Hw. pose proof (aw_height _ Hw x Hx) as Hhx. unfold maxHeight in Hhx.
  destruct (dbPutBestState_ok (arenaOf s) (ch_db s) state x Hw Hx) as [bytes E1]; [rewrite Hh; exact (valid_hash _ _ _ Hv) | exact Htot|].
  destruct (spentAt_journal _ _ x p b Hw Hx Hp Hb Hv) as (_ & j & Ej & _).
  assert (Hbh : blockHash DoubleHash b = bn_hash (deref (arenaOf s) x)) by exact (sb_hash _ _ _ _ _ _ (core_stored _ _ x p b H Hx Hp Hb)). rewrite Hbh.
  assert (Hu : u32 (bn_height (deref (arenaOf s) x)) = height_of (arenaOf s) x) by (apply Z.mod_small; unfold height_of in *; lia).
  assert (Hhash : forall y z, (y < List.length (arenaOf s))%nat -> (z < List.length (arenaOf s))%nat ->
    bn_hash (deref (arenaOf s) y) = bn_hash (deref (arenaOf s) z) -> y = z) by exact (tree_inj (ch_index s) (ck_tree _ _ H)).
  set (hash := bn_hash (deref (arenaOf s) x)) in *. set (key := le_put 4 (height_of (arenaOf s) x)).
  set (db := mkChainDB (cd_utxo (ch_db s)) (blocksOf s) (<[hash := j]> (cd_journal (ch_db s))) (<[hash := key]> (cd_hashIndex (ch_db s)))
    (<[key := hash]> (cd_heightIndex (ch_db s))) (Some bytes) (cd_rows (ch_db s))).
  assert (Hmain : forall u, main_index (arenaOf s) (set_utxo db u) x) by (intros u; now apply (main_index_connect _ (ch_db s) p x Hw Hhash Hx Hp (ck_main _ _ H))).
  assert (Hfirst : forall k : M unit, (dbM (fun db => dbPutBestState db state (bn_workSum (deref (arenaOf s) x))) ;!
      dbM (fun db => Ok (dbPutBlockIndex db hash (bn_height (deref (arenaOf s) x)))) ;!
      dbM (fun db => dbPutSpendJournalEntry ParsePubKey db hash (spentAt (arenaOf s) (blocksOf s) p b)) ;! k) s = k (with_db s db)).
  { intros k. erewrite bind_Ok by (apply dbM_ok; exact E1). erewrite bind_Ok by (apply dbM_ok; reflexivity).
    erewrite bind_Ok by (apply dbM_ok; unfold dbPutSpendJournalEntry; rewrite Ej; reflexivity).
    f_equal. unfold dbPutBlockIndex. cbn [with_db ch_db cd_utxo cd_blocks cd_journal cd_hashIndex cd_heightIndex cd_best cd_rows]. now rewrite Hu. }
  destruct view as [v|].
  - destruct (Hrep v eq_refl) as [Hdb He]. destruct Hview as [Ht Ha].
    assert (Hset' : set_ok D U (with_db s db)) by (split; apply Hset).
    destruct (put_view_ok D U _ (with_db s db) v Hset' Hdb He Ht Ha (valid_coins DoubleHash params hash_len _ _ Hw x Hx Hv)) as (u & Eu & Hi & Hc).
    exists (set_utxo db u), (ledger (arenaOf s) (blocksOf s) x). split; [apply Update_ok; now rewrite Hfirst, (dbM_ok _ _ _ Eu)|].
    split; [now split|]. split; [now right|]. split; [apply Hmain|]. split; [reflexivity|]. now exists j.
  - exists db, D. split; [apply Update_ok; now rewrite Hfirst|]. cbn in Hview. subst U.
    split; [split; apply Hset|]. split; [now left|]. split; [exact (Hmain (cd_utxo (ch_db s)))|]. split; [reflexivity|]. now exists j.
Qed.

(** The index, the blocks, the caches of votes and the snapshot as they were. *)
Lemma warn_flush_ok D U s t x cond : chain_core s t -> set_ok D U s -> (x < List.length (arenaOf s))%nat ->
  exists s', (forall A (k : M A), ((if cond : bool then warnM DoubleHash params x else retM tt) ;! flushToDB ;! k) s = k s') /\
    chain_core s' t /\ set_ok D U s' /\ same_tree s s' /\ ch_snapshot s' = ch_snapshot s.
Proof.
  intros H Hs Hx. destruct (warnM_ok s t x H Hx) as (d & w & b & E & Hv).
  assert (Hc : exists s1, (if cond then warnM DoubleHash params x else retM tt) s = (s1, Ok tt) /\ chain_core s1 t /\ set_ok D U s1 /\
    same_tree s s1 /\ ch_snapshot s1 = ch_snapshot s).
  { destruct cond; [|now exists s]. exists (with_votes s d w b). split; [exact E|].
    split; [exact (core_votes s t d w b H Hv)|]. split; [split; apply Hs | now split]. }
  destruct Hc as (s1 & E1 & H1 & Hs1 & [Ha Hb] & Hn). exists (flushed s1). split; [|split; [exact (core_flushed s1 t H1)|]].
  - intros A k. now rewrite (bind_Ok _ _ _ _ _ E1), (bind_Ok _ _ _ _ _ (flushToDB_eq s1)).
  - split; [exact (set_flushed _ _ _ Hs1)|]. split; [now split | exact Hn].
Qed.

Lemma view_flush_ok D U s (view : option UtxoViewpoint) hash : set_ok D U s ->
  exists s' D', match view with Some _ => flushM ParsePubKey CalculateRoughMapSize iter now FlushRequired hash | None => retM tt end s = (s', Ok tt) /\
    same_core s s' /\ set_ok D' U s' /\ (D' = D \/ D' = U) /\
    (forall v, view = Some v -> db_rep ParsePubKey (cd_utxo (ch_db s')) U /\ forall op, ms_get (uc_cachedEntries (ch_cache s')) op = None).
Proof.
  intros Hs. destruct view as [v|].
  - destruct (flushM_ok D U s FlushRequired hash Hs) as (s' & D' & E & Hc & Hs' & HD & Hr). exists s', D'. intuition.
  - exists s, D. split; [reflexivity|]. split; [now split|]. split; [exact Hs|]. split; [now left | discriminate].
Qed.

(** The tip moves to [x] and the snapshot is set. *)
Lemma move_tip_ok s t s' x state : chain_core s t -> (x < List.length (arenaOf s))%nat -> ch_index s' = ch_index s -> ch_bestChain s' = ch_bestChain s ->
  exists c, (forall A (k : M A), (setTipM (Some x) ;! modifyM (fun s => with_snapshot s state) ;! k) s' = k (with_snapshot (with_bestChain s' c) state)) /\
    view_ok (arenaOf s) c (Some x).
Proof.
  intros H Hx E1 E2. destruct (setTip_ok _ _ _ x (core_arena _ _ H) (ck_view _ _ H) Hx (core_heights s t x H Hx)) as (c & E & Hv).
  exists c. split; [|exact Hv]. intros A k. unfold setTipM, bindM, getM, liftU, liftM, modifyM. now rewrite E1, E2, E.
Qed.

Lemma connectBlock_ok D U s p x b view : chain_core s p -> set_ok D U s ->
  (x < List.length (arenaOf s))%nat -> bn_parent (deref (arenaOf s) x) = Some p -> blockOf (arenaOf s) (blocksOf s) x = Some b ->
  valid (arenaOf s) (blocksOf s) x -> view_for U (ledger (arenaOf s) (blocksOf s) x) view ->
  from_chain DoubleHash (chainTo (arenaOf s) (blocksOf s) x) D -> from_chain DoubleHash (chainTo (arenaOf s) (blocksOf s) x) U ->
  exists s' D', connect x b view (spentAt (arenaOf s) (blocksOf s) p b) s = (s', Ok (option_map commit view)) /\ chain_ok D' s' x /\ same_tree s s'.
Proof.
  intros H Hset Hx Hp Hb Hv Hview HD HU. pose proof (core_arena _ _ H) as Hw.
  pose proof (core_stored _ _ x p b H Hx Hp Hb) as Hst. destruct (height_parent _ x p Hw Hx Hp) as (_ & Hpl & _).
  destruct (spentAt_journal _ _ x p b Hw Hx Hp Hb Hv) as [Hc _].
  unfold connectBlock. rewrite (bind_Ok _ _ _ _ _ (core_tipM _ _ H)), node_bind.
  replace (bytes_eqb (prevBlock b) (bn_hash (deref (arenaOf s) p))) with true by (symmetry; apply bytes_eqb_eq, (sb_prev _ _ _ _ _ _ Hst)).
  cbn [negb]. rewrite (lift_bind _ _ _ _ Hc), Z.eqb_refl. cbn [negb]. rewrite get_bind.
  destruct (warn_flush_ok D U s p x (isCurrent params adjustedTime s p) H Hset Hx) as (s2 & E2 & H2 & Hset2 & HT & _). pose proof HT as [Ea Eb].
  rewrite E2, node_bind, Ea. clear E2. rewrite <- Ea, <- Eb in *. clear Ea Eb H Hset.
  destruct (snapshotM_ok s2 x b (u64 (bst_TotalTxns (ch_snapshot s) + u64 (len (Transactions b))))) as [m Em].
  rewrite (bind_Ok _ _ _ _ _ Em). clear Em. set (state := newBestState _ _ _ _ _ m).
  assert (Hsh : bst_Hash state = bn_hash (deref (arenaOf s2) x)) by reflexivity. assert (Hsz : bst_Height state = height_of (arenaOf s2) x) by reflexivity.
  assert (Hsn : is_u64 (bst_TotalTxns state)) by (apply Z.mod_pos_bound; reflexivity). clearbody state.
  destruct (view_flush_ok D U s2 view (bst_Hash state) Hset2) as (s3 & D3 & E3 & Hc3 & Hset3 & HD3 & Hr3). rewrite (bind_Ok _ _ _ _ _ E3). clear E3.
  pose proof (core_frame _ _ _ Hc3 H2) as H3. assert (HT3 : same_tree s2 s3) by (split; [f_equal|]; apply Hc3). destruct Hc3 as [Ea _ _ Eb _ _ _ _ _]. rewrite <- Ea, <- Eb in *. clear Ea Eb H2 Hset2.
  destruct (connect_records D3 U s3 p x b state view H3 Hset3 Hx Hp Hb Hv Hview Hr3 Hsh Hsn) as (db & D4 & E4 & Hset4 & HD4 & Hmi & Edb & j & Ej & Hj).
  rewrite (bind_Ok _ _ _ _ _ E4).
  destruct (move_tip_ok s3 p (with_db s3 db) x state H3 Hx eq_refl eq_refl) as (c & E5 & Hvw). rewrite E5.
  set (s6 := with_snapshot _ state).
  assert (H6 : chain_core s6 x).
  { apply (core_new_tip s3 p); auto. intros y q b' Hy Hbr Hq Hb'. apply (on_branch_parent _ x p y Hw Hx Hp) in Hbr. cbn [s6 with_snapshot with_bestChain with_db ch_db]. rewrite Hj.
    destruct Hbr as [->|Hbr]; [exists j; rewrite lookup_insert_eq; split; [congruence | reflexivity]|].
    rewrite lookup_insert_ne; [now apply (ck_journal _ _ H3)|]. intros E. apply (tree_inj _ (ck_tree _ _ H3)) in E; auto. subst y.
    destruct Hbr as [Hle _]. destruct (height_parent _ x p Hw Hx Hp) as (_ & _ & Hh). lia. }
  assert (Hset6 : set_ok D4 (ledger (arenaOf s3) (blocksOf s3) x) s6) by (split; apply Hset4).
  destruct (flushM_ok D4 _ s6 FlushIfNeeded (bst_Hash state) Hset6) as (s7 & D7 & E7 & Hc7 & Hset7 & HD7 & _). rewrite (bind_Ok _ _ _ _ _ E7). exists s7, D7. split; [reflexivity|].
  pose proof (core_frame _ _ _ Hc7 H6) as H7. destruct Hc7 as [Ea _ _ Eb _ _ _ _ _].
  assert (Ea' : arenaOf s7 = arenaOf s3) by now rewrite Ea. assert (Eb' : blocksOf s7 = blocksOf s3) by now rewrite Eb.
  split; [|now apply (same_tree_trans _ _ _ (same_tree_trans _ _ _ HT HT3))]. split; [exact H7 | rewrite Ea', Eb'; exact Hset7|]. rewrite Ea', Eb'.
  pose proof (from_chain_ledger DoubleHash (chainTo (arenaOf s3) (blocksOf s3) x)) as HL. unfold ledgerAt in HD4, HD7.
  destruct HD7 as [->| ->]; [destruct HD4 as [->| ->]; [destruct HD3 as [->| ->]|]|]; assumption.
Qed.

(** ** Disconnecting a block *)

Abbreviation disconnect := (disconnectBlock ParsePubKey SerializeUncompressed CalculateRoughMapSize iter DoubleHash now).

Lemma journal_read_frame db db' b : cd_journal db' = cd_journal db ->
  dbFetchSpendJournalEntry ParsePubKey SerializeUncompressed DoubleHash db' b = dbFetchSpendJournalEntry ParsePubKey SerializeUncompressed DoubleHash db b.
Proof. intros E. unfold dbFetchSpendJournalEntry. now rewrite E. Qed.

Lemma fetch_node db a x b : blockOf a (cd_blocks db) x = Some b -> dbFetchBlockByNode db (deref a x) = Ok b.
Proof. unfold blockOf, dbFetchBlockByNode. destruct (cd_blocks db !! _); [|discriminate]. now injection 1 as <-. Qed.

(** The records of a block that is disconnected. *)
Lemma disconnect_records D s p x b state v : chain_core s x -> set_ok D (ledger (arenaOf s) (blocksOf s) x) s ->
  (x < List.length (arenaOf s))%nat -> bn_parent (deref (arenaOf s) x) = Some p -> blockOf (arenaOf s) (blocksOf s) x = Some b ->
  tracks (ledger (arenaOf s) (blocksOf s) x) v -> abs (ledger (arenaOf s) (blocksOf s) x) v = ledger (arenaOf s) (blocksOf s) p ->
  bst_Hash state = bn_hash (deref (arenaOf s) p) -> is_u64 (bst_TotalTxns state) ->
  exists s', Update (
      dbM (fun db => dbPutBestState db state (bn_workSum (deref (arenaOf s) x))) ;!
      dbM (fun db => Ok (dbRemoveBlockIndex db (blockHash DoubleHash b) (bn_height (deref (arenaOf s) x)))) ;!
      flushM ParsePubKey CalculateRoughMapSize iter now FlushRequired (bst_Hash state) ;!
      dbM (putUtxoView ParsePubKey iter v) ;!
      do! s := getM in
      liftC (dbFetchSpendJournalEntry ParsePubKey SerializeUncompressed DoubleHash (ch_db s) b)) s =
      (s', Ok (spentAt (arenaOf s) (blocksOf s) p b)) /\
    set_ok (ledger (arenaOf s) (blocksOf s) p) (ledger (arenaOf s) (blocksOf s) p) s' /\ main_index (arenaOf s) (ch_db s') p /\
    ch_index s' = ch_index s /\ ch_bestChain s' = ch_bestChain s /\ blocksOf s' = blocksOf s /\ cd_journal (ch_db s') = cd_journal (ch_db s) /\
    ch_warnings s' = ch_warnings s /\ ch_deployments s' = ch_deployments s /\ ch_bestHeader s' = ch_bestHeader s.
Proof.
  intros H Hset Hx Hp Hb Ht Ha Hh Htot. pose proof (core_arena _ _ H) as Hw. pose proof (aw_height _ Hw x Hx) as Hhx. unfold maxHeight in Hhx.
  destruct (height_parent _ x p Hw Hx Hp) as (_ & Hpl & Hhp).
  assert (Hvp' : valid (arenaOf s) (blocksOf s) p).
  { apply (valid_branch DoubleHash params _ _ Hw x p Hx Hpl (ck_valid _ _ H)). apply (on_branch_parent _ x p p Hw Hx Hp). right. split; [lia | apply ancestorAt_self]. }
  destruct (dbPutBestState_ok (arenaOf s) (ch_db s) state x Hw Hx) as [bytes E1]; [rewrite Hh; exact (valid_hash _ _ _ Hvp') | exact Htot|].
  assert (Hu : u32 (bn_height (deref (arenaOf s) x)) = height_of (arenaOf s) x) by (apply Z.mod_small; unfold height_of in *; lia).
  assert (Hbh : blockHash DoubleHash b = bn_hash (deref (arenaOf s) x)) by exact (sb_hash _ _ _ _ _ _ (core_stored _ _ x p b H Hx Hp Hb)). rewrite Hbh.
  set (hash := bn_hash (deref (arenaOf s) x)) in *.
  set (db2 := mkChainDB (cd_utxo (ch_db s)) (blocksOf s) (cd_journal (ch_db s)) (delete hash (cd_hashIndex (ch_db s)))
    (delete (le_put 4 (height_of (arenaOf s) x)) (cd_heightIndex (ch_db s))) (Some bytes) (cd_rows (ch_db s))).
  assert (Hset2 : set_ok D (ledger (arenaOf s) (blocksOf s) x) (with_db s db2)) by (split; apply Hset).
  destruct (flushM_ok D _ (with_db s db2) FlushRequired (bst_Hash state) Hset2) as (s3 & D3 & E3 & Hc3 & Hset3 & _ & Hr3).
  destruct (Hr3 eq_refl) as [Hdb He].
  destruct (put_view_ok D3 _ _ s3 v Hset3 Hdb He Ht Ha (valid_coins DoubleHash params hash_len _ _ Hw p Hpl Hvp')) as (u & Eu & Hi & Hc).
  destruct Hc3 as [Ea Ebc Ebh Eb Ej Eh Ehh [Ew Ed] _]. exists (with_db s3 (set_utxo (ch_db s3) u)). split; [|split; [now split|]; split; [|now repeat split]].
  - apply Update_ok. erewrite bind_Ok by (apply dbM_ok; exact E1). erewrite bind_Ok by (apply dbM_ok; reflexivity).
    replace (with_db _ (dbRemoveBlockIndex _ _ _)) with (with_db s db2) by (unfold dbRemoveBlockIndex; rewrite Hu; reflexivity).
    rewrite (bind_Ok _ _ _ _ _ E3), (bind_Ok _ _ _ _ _ (dbM_ok _ _ _ Eu)), get_bind. unfold liftC, liftM.
    rewrite (journal_read_frame (ch_db s)) by exact Ej. rewrite (journal_read s x x p b H Hx) by (assumption || (split; [lia | apply ancestorAt_self])). reflexivity.
  - apply (main_index_disconnect _ (ch_db s) x p Hw (tree_inj _ (ck_tree _ _ H)) Hx Hp (ck_main _ _ H)); assumption.
Qed.

Lemma disconnectBlock_ok D s p x b v : chain_ok D s x -> bn_parent (deref (arenaOf s) x) = Some p -> blockOf (arenaOf s) (blocksOf s) x = Some b ->
  tracks (ledger (arenaOf s) (blocksOf s) x) v -> abs (ledger (arenaOf s) (blocksOf s) x) v = ledger (arenaOf s) (blocksOf s) p ->
  exists s', disconnect x b v s = (s', Ok (commit v)) /\ chain_ok (ledger (arenaOf s) (blocksOf s) p) s' p /\ same_tree s s'.
Proof.
  intros [H Hset Hf] Hp Hb Ht Ha. pose proof (core_arena _ _ H) as Hw. pose proof (core_tip _ _ H) as Hx. destruct (height_parent _ x p Hw Hx Hp) as (_ & Hpl & Hhp).
  assert (Hbr : forall y, on_branch (arenaOf s) p y -> on_branch (arenaOf s) x y) by (intros y Hy; apply (on_branch_parent _ x p y Hw Hx Hp); now right).
  assert (Hvp' : valid (arenaOf s) (blocksOf s) p).
  { apply (valid_branch DoubleHash params _ _ Hw x p Hx Hpl (ck_valid _ _ H)), Hbr. split; [lia | apply ancestorAt_self]. }
  assert (Hpb : exists pb, blockOf (arenaOf s) (blocksOf s) p = Some pb) by (destruct Hvp' as [y b' _ Hb' _|y q b' _ _ Hb' _ _]; eauto). destruct Hpb as [pb Hpb].
  unfold disconnectBlock. rewrite (bind_Ok _ _ _ _ _ (core_tipM _ _ H)), !node_bind.
  replace (bytes_eqb _ _) with true by (symmetry; now apply bytes_eqb_eq). cbn [negb]. rewrite Hp, node_bind, get_bind.
  rewrite (lift_bind _ _ _ _ (fetch_node (ch_db s) (arenaOf s) p pb Hpb)), (bind_Ok _ _ _ _ _ (flushToDB_eq s)).
  destruct (snapshotM_ok (flushed s) p pb (u64 (bst_TotalTxns (ch_snapshot s) - u64 (len (Transactions b))))) as [m Em].
  rewrite (bind_Ok _ _ _ _ _ Em). clear Em. set (state := newBestState _ _ _ _ _ m).
  destruct (disconnect_records D (flushed s) p x b state v (core_flushed s x H) (set_flushed _ _ _ Hset) Hx Hp Hb Ht Ha eq_refl)
    as (s3 & E3 & Hset3 & Hmi & Ei & Ebc & Eb & Ej & Ew & Ed & Eh); [apply Z.mod_pos_bound; reflexivity|].
  setoid_rewrite (bind_Ok _ _ _ _ _ E3).
  destruct (move_tip_ok (flushed s) x s3 p state (core_flushed s x H) Hpl Ei Ebc) as (c & E4 & Hv4). rewrite E4.
  eexists. split; [reflexivity|]. set (s4 := with_snapshot _ state).
  assert (Ea : arenaOf s4 = arenaOf s) by (unfold s4; cbn [with_snapshot with_bestChain ch_index]; now rewrite Ei).
  split; [|now split]. split; rewrite ?Ea; cbn [s4 with_snapshot with_bestChain ch_db]; rewrite ?Eb.
  - apply (core_new_tip (flushed s) x s4 p (core_flushed s x H) Ei Eb Ew Ed Eh Hv4 Hvp'); try assumption || reflexivity. intros y q b' Hy Hby Hq Hb'. cbn [s4 with_snapshot with_bestChain ch_db]. rewrite Ej.
    apply (ck_journal _ _ (core_flushed s x H) y q b' Hy); auto.
  - split; apply Hset3.
  - apply from_chain_ledger.
Qed.

(** ** Checking a reorganization *)

Abbreviation fetchIn := (fetchInputsM ParsePubKey SerializeUncompressed CalculateRoughMapSize CalculateMinEntries DoubleHash).
Abbreviation take_back := (disconnectM DoubleHash dbByHash).
Abbreviation detach_check := (verifyDetach ParsePubKey SerializeUncompressed CalculateRoughMapSize CalculateMinEntries DoubleHash dbByHash).
Abbreviation attach_check := (verifyAttach ParsePubKey SerializeUncompressed CalculateRoughMapSize CalculateMinEntries DoubleHash params checkBlockScripts).

Lemma core_cache s t c : chain_core s t -> chain_core (with_cache s c) t.
Proof. apply core_frame. now split. Qed.

(** A block on the branch of a valid node. *)
Record linked (a : arena) (B : gmap (list Z) MsgBlock) (x p : nat) (b : Block) : Prop := {
  lk_node : (x < List.length a)%nat;
  lk_parent : bn_parent (deref a x) = Some p;
  lk_block : blockOf a B x = Some b;
  lk_stored : stored_block DoubleHash a B x p b
}.

Lemma valid_linked a B x p : (x < List.length a)%nat -> bn_parent (deref a x) = Some p -> valid a B x ->
  exists b, linked a B x p b /\ valid a B p /\ block_valid DoubleHash params (ledger a B p) b.
Proof.
  intros Hx Hp Hv. destruct Hv as [y b Hq _ _|y q b Hq Hvq Hb Hs Hbv]; [congruence|]. rewrite Hp in Hq. injection Hq as <-. now exists b.
Qed.

(** The view goes back over one block. *)
Lemma take_back_ok D U s x p b v : arena_wf (arenaOf s) -> linked (arenaOf s) (blocksOf s) x p b -> valid (arenaOf s) (blocksOf s) x ->
  set_ok D U s -> abs U v = ledger (arenaOf s) (blocksOf s) x ->
  exists v1 c v2, fetchIn v b s = (with_cache s c, Ok v1) /\ set_ok D U (with_cache s c) /\
    take_back v1 b (spentAt (arenaOf s) (blocksOf s) p b) (with_cache s c) = (with_cache s c, Ok v2) /\
    abs U v2 = ledger (arenaOf s) (blocksOf s) p /\ (tracks U v -> tracks U v2).
Proof.
  intros Hw [Hx Hp Hb Hs] Hv [Hi <-] Ha. destruct (height_parent _ x p Hw Hx Hp) as (_ & Hpl & _).
  destruct (valid_linked _ _ x p Hx Hp Hv) as (b' & [_ _ Hb' _] & Hvp' & Hbv). rewrite Hb in Hb'. injection Hb' as <-.
  rewrite (ledgerAt_parent DoubleHash _ _ Hw x p b Hx Hp Hb) in Ha.
  destruct (disconnect_valid ParsePubKey SerializeUncompressed CalculateRoughMapSize CalculateMinEntries DoubleHash params forms hash_len
    (dbByHash (cd_utxo (ch_db s))) D _ _ v _ b Hi Ha (sb_form _ _ _ _ _ _ Hs) Hbv (stored_new DoubleHash _ _ x p b Hs)
    (valid_coins DoubleHash params hash_len _ _ Hw p Hpl Hvp')) as (v1 & c & v2 & E1 & Hi1 & Ha1 & E2 & Ha2 & Ht).
  exists v1, c, v2. unfold fetchInputsM, disconnectM. rewrite !get_bind, (lift_bind _ _ _ _ E1). split; [reflexivity|]. split; [now split|].
  split; [unfold liftC, liftM; cbn [with_cache ch_db]; unfold spentAt; now rewrite E2 | now split].
Qed.

(** The blocks of a path, with what they spent. *)
Definition detach_info (a : arena) (B : gmap (list Z) MsgBlock) : list nat -> list (Block * list SpentTxOut) -> Prop :=
  Forall2 (fun x d => exists p, linked a B x p (fst d) /\ snd d = spentAt a B p (fst d)).

Lemma on_branch_step a t x p : arena_wf a -> (t < List.length a)%nat -> (x < List.length a)%nat -> on_branch a t x -> bn_parent (deref a x) = Some p -> on_branch a t p.
Proof.
  intros Hw Ht Hx Hbr Hp. destruct (height_parent a x p Hw Hx Hp) as (_ & Hpl & _). apply (on_branch_trans a t x p Hw Ht Hx Hpl Hbr).
  apply (on_branch_parent a x p p Hw Hx Hp). right. split; [lia | apply ancestorAt_self].
Qed.

Lemma verifyDetach_ok D U t f a B x l : down a f x l -> forall s v, arenaOf s = a -> blocksOf s = B -> chain_core s t -> on_branch a t x ->
  (x < List.length a)%nat -> set_ok D U s -> abs U v = ledger a B x ->
  exists c blocks v', detach_check l v s = (with_cache s c, Ok (blocks, v')) /\ set_ok D U (with_cache s c) /\
    detach_info a B l blocks /\ abs U v' = ledger a B f.
Proof.
  induction 1 as [|x p l Hp Hd IH]; intros s v <- <- H Hbr Hx Hs Ha.
  - exists (ch_cache s), [], v. cbn [verifyDetach]. split; [now destruct s|]. split; [split; apply Hs|]. now split; [constructor|].
  - pose proof (core_arena _ _ H) as Hw. pose proof (valid_branch DoubleHash params _ _ Hw t x (core_tip _ _ H) Hx (ck_valid _ _ H) Hbr) as Hv.
    destruct (height_parent _ x p Hw Hx Hp) as (_ & Hpl & _). destruct (valid_linked _ _ x p Hx Hp Hv) as (b & Hlk & Hvp' & _).
    destruct (take_back_ok D U s x p b v Hw Hlk Hv Hs Ha) as (v1 & c & v2 & E1 & Hs1 & E2 & Ha2 & _).
    pose proof (on_branch_step _ t x p Hw (core_tip _ _ H) Hx Hbr Hp) as Hbp.
    destruct (IH (with_cache s c) v2 eq_refl eq_refl (core_cache s t c H) Hbp Hpl Hs1 Ha2) as (c' & blocks & v' & E3 & Hs3 & Hi & Ha').
    exists c', ((b, spentAt (arenaOf s) (blocksOf s) p b) :: blocks), v'. split; [|split; [exact Hs3 | split; [constructor; eauto | exact Ha']]].
    cbn [verifyDetach]. rewrite node_bind, get_bind, (lift_bind _ _ _ _ (fetch_node (ch_db s) (arenaOf s) x b (lk_block _ _ _ _ _ Hlk))).
    replace (bytes_eqb _ _) with true by (symmetry; apply bytes_eqb_eq; symmetry; apply (sb_hash _ _ _ _ _ _ (lk_stored _ _ _ _ _ Hlk))). cbn [negb].
    rewrite (bind_Ok _ _ _ _ _ E1), get_bind.
    rewrite (lift_bind _ _ _ _ (journal_read s t x p b H Hx Hbr Hp (lk_block _ _ _ _ _ Hlk))), (bind_Ok _ _ _ _ _ E2), (bind_Ok _ _ _ _ _ E3). reflexivity.
Qed.

(** A check that succeeds leaves right answers in the caches of the votes. *)
Section Votes.
Context (bi : blockIndex).
Hypothesis Htree : tree_ok bi.
Abbreviation answers := (caches_ok DoubleHash bi (rp_votes params) (Deployments (rp_votes params))).

Lemma deploymentState_answers caches prevNode k st caches' : node_ok bi prevNode -> 0 <= k -> answers caches ->
  deploymentState DoubleHash bi (rp_votes params) caches prevNode k = Ok (st, caches') -> answers caches'.
Proof.
  intros Hn Hk Hc. destruct (nth_error (Deployments (rp_votes params)) (Z.to_nat k)) as [d|] eqn:Ed.
  - destruct (deploymentState_spec DoubleHash bi (rp_votes params) Htree Hvp caches _ k d Hn Hc Hk Ed) as (c' & -> & Hc'). now intros [= _ <-].
  - unfold deploymentState. destruct (_ <? k); [discriminate|]. unfold get_at. rewrite Ed. now destruct (0 <=? k).
Qed.

Lemma stateAfter_answers caches x k r caches' : (x < List.length (bi_nodes bi))%nat -> 0 <= k -> answers caches ->
  stateAfter DoubleHash params bi caches (bn_parent (deref (bi_nodes bi) x)) k = Ok (r, caches') -> answers caches'.
Proof.
  intros Hx Hk Hc. unfold stateAfter. destruct (deploymentState _ _ _ _ _ _) as [[st c]| |] eqn:E; try discriminate. intros [= _ <-].
  exact (deploymentState_answers _ _ _ _ _ (parent_node_ok bi Htree x Hx) Hk Hc E).
Qed.

Lemma sequenceLocks_answers x v m txs : (x < List.length (bi_nodes bi))%nat -> forall caches caches', answers caches ->
  sequenceLocks_loop DoubleHash params bi x v m txs caches = Ok caches' -> answers caches'.
Proof.
  intros Hx. induction txs as [|tx txs IH]; intros caches caches' Hc H; cbn [sequenceLocks_loop] in H; [now injection H as <-|].
  apply obind_Ok in H. destruct H as ([lock c1] & H1 & H). destruct (negb _); [discriminate|]. apply (IH c1); [|exact H].
  unfold calcSequenceLock in H1. apply obind_Ok in H1. destruct H1 as ([act c2] & H2 & H1).
  apply (stateAfter_answers _ _ DeploymentCSV _ _ Hx ltac:(discriminate) Hc) in H2.
  destruct (negb _ || _); [now injection H1 as _ <-|]. apply obind_Ok in H1. destruct H1 as (? & _ & H1). now injection H1 as _ <-.
Qed.

Lemma checkConnect_answers x b v stxos s db caches r : (x < List.length (bi_nodes bi))%nat -> answers caches ->
  checkConnectBlock ParsePubKey SerializeUncompressed CalculateRoughMapSize CalculateMinEntries DoubleHash params bi checkBlockScripts
    x b v stxos s db caches = Ok r -> answers (co_caches r).
Proof.
  intros Hx Hc H. unfold checkConnectBlock in H. destruct (bytes_eqb _ _); [discriminate|].
  apply obind_Ok in H. destruct H as ([v0 s0] & _ & H). apply obind_Ok in H. destruct H as ([v1 s1] & _ & H).
  apply obind_Ok in H. destruct H as ([segwit c1] & H1 & H). apply (stateAfter_answers _ _ DeploymentSegwit _ _ Hx ltac:(discriminate) Hc) in H1.
  apply obind_Ok in H. destruct H as (? & _ & H). apply obind_Ok in H. destruct H as ([[v2 st2] fees] & _ & H).
  apply obind_Ok in H. destruct H as (cb & _ & H). destruct (_ <? _); [discriminate|].
  apply obind_Ok in H. destruct H as ([csv c2] & H2 & H). apply (stateAfter_answers _ _ DeploymentCSV _ _ Hx ltac:(discriminate) H1) in H2.
  apply obind_Ok in H. destruct H as (c3 & H3 & H).
  assert (Hc3 : answers c3).
  { destruct csv; [|now injection H3 as <-]. destruct (bn_parent _) as [p|]; [|discriminate].
    destruct (CalcPastMedianTime _ p) as [m| |]; try discriminate. exact (sequenceLocks_answers x _ _ _ Hx _ _ H2 H3). }
  apply obind_Ok in H. destruct H as ([tap c4] & H4 & H). apply (stateAfter_answers _ _ DeploymentTaproot _ _ Hx ltac:(discriminate) Hc3) in H4.
  apply obind_Ok in H. destruct H as (? & _ & H). now injection H as <-.
Qed.
End Votes.

(** A check that fails has only fetched entries. *)
Lemma cacheAfterCheck_ok D U s x b v : set_ok D U s -> block_form DoubleHash b ->
  set_ok D U (with_cache s (cacheAfterCheck ParsePubKey SerializeUncompressed CalculateRoughMapSize CalculateMinEntries DoubleHash params s x b v)).
Proof.
  intros [Hi <-] Hb. destruct (bf_shape _ _ Hb) as (cb & rest & Et & _ & _). pose proof (bf_inputs _ _ Hb) as Hin. rewrite Et in Hin.
  assert (Hc : forall c, inv D (cd_utxo (ch_db s)) c -> cabs D c = cabs D (ch_cache s) -> set_ok D (cabs D (ch_cache s)) (with_cache s c)) by now split.
  assert (Hfetch : forall v c, inv D (cd_utxo (ch_db s)) c -> cabs D c = cabs D (ch_cache s) -> set_ok D (cabs D (ch_cache s)) (with_cache s
    match fetchInputUtxos ParsePubKey SerializeUncompressed CalculateRoughMapSize CalculateMinEntries DoubleHash v c (cd_utxo (ch_db s)) b with
    | Ok (_, c) => c | _ => c end)).
  { intros v' c Hi' Ha'. destruct (fetchInputs_sync ParsePubKey SerializeUncompressed CalculateRoughMapSize CalculateMinEntries DoubleHash forms hash_len
      D _ c v' b cb rest Hi' Et Hin) as (v1 & c1 & -> & Hi1 & Ha1 & _). apply Hc; congruence. }
  unfold cacheAfterCheck. destruct (bytes_eqb _ _); [now apply Hc|].
  destruct (negb (isBIP0030Node _) && _); cbn [andb]; [|now apply Hfetch].
  destruct (fetchUtxos_sync ParsePubKey SerializeUncompressed CalculateRoughMapSize CalculateMinEntries forms D _ _ v
    (blockOutpoints DoubleHash b) Hi (blockOutpoints_ok DoubleHash hash_len b)) as (v1 & c1 & -> & Hi1 & Ha1 & _).
  destruct (match checkOverwrites v1 _ with Ok _ => false | _ => true end); [now apply Hc | now apply Hfetch].
Qed.

Abbreviation checkC := (checkConnectM ParsePubKey SerializeUncompressed CalculateRoughMapSize CalculateMinEntries DoubleHash params checkBlockScripts).

(** The check changes nothing but caches, and accepts only valid blocks. *)
Lemma checkConnectM_ok D U s t x p b v : chain_core s t -> set_ok D U s -> linked (arenaOf s) (blocksOf s) x p b ->
  abs U v = ledger (arenaOf s) (blocksOf s) p ->
  exists s' r, checkC x b v s = (s', r) /\ chain_core s' t /\ set_ok D U s' /\ ch_index s' = ch_index s /\ blocksOf s' = blocksOf s /\
    forall v', r = Ok v' -> block_valid DoubleHash params (ledger (arenaOf s) (blocksOf s) p) b /\ abs U v' = ledger (arenaOf s) (blocksOf s) x.
Proof.
  intros H Hs [Hx Hp Hb Hst] Ha. pose proof (sb_form _ _ _ _ _ _ Hst) as Hbf. pose proof (core_arena _ _ H) as Hw.
  unfold checkConnectM. destruct (checkConnectBlock _ _ _ _ _ _ _ _ _ _ _ _ _ _) as [r|e|] eqn:E.
  - pose proof (so_set _ _ _ Hs) as Hset. assert (Hh : bn_height (deref (arenaOf s) x) = blk_height b).
    { unfold blockOf in Hb. destruct (_ !! _); [|discriminate]. now injection Hb as <-. }
    destruct (ck_votes _ _ H) as (Hv1 & Hv2 & Hv3). pose proof (checkConnect_answers _ (ck_tree _ _ H) x b v _ _ _ _ r Hx Hv3 E) as Hans.
    apply (check_valid ParsePubKey SerializeUncompressed CalculateRoughMapSize CalculateMinEntries DoubleHash params forms hash_len
      _ _ D _ _ v (ledger (arenaOf s) (blocksOf s) p)) in E; [|apply Hs | now rewrite Hset | exact Hbf | exact (stored_new _ _ _ _ _ _ Hst) | exact Hh].
    destruct E as (Hbv & Hi & Hc & Ha'). rewrite Hset in Ha', Hc. eexists _, _. split; [reflexivity|].
    split; [apply (core_votes (with_cache s (co_cache r))); [now apply core_cache | now split]|]. split; [now split|]. split; [reflexivity|].
    split; [reflexivity|]. intros v' [= <-]. split; [exact Hbv|]. now rewrite (ledgerAt_parent DoubleHash _ _ Hw x p b Hx Hp Hb).
  - eexists _, _. split; [reflexivity|]. split; [now apply core_cache|]. split; [now apply cacheAfterCheck_ok|]. now repeat split.
  - exists s, Panic. split; [reflexivity|]. split; [exact H|]. split; [exact Hs|]. split; [reflexivity|]. split; [reflexivity | discriminate].
Qed.

(** The same nodes and blocks, up to the statuses of the nodes. *)
Record same_nodes (s s' : chainState) : Prop := {
  sn_extends : extends (arenaOf s) (arenaOf s');
  sn_length : List.length (arenaOf s') = List.length (arenaOf s);
  sn_blocks : blocksOf s' = blocksOf s
}.

Lemma same_nodes_refl s : same_nodes s s.
Proof. split; [apply extends_refl | reflexivity..]. Qed.

Lemma same_nodes_trans s1 s2 s3 : same_nodes s1 s2 -> same_nodes s2 s3 -> same_nodes s1 s3.
Proof. intros [E1 L1 B1] [E2 L2 B2]. split; [exact (extends_trans _ _ _ E1 E2) | congruence..]. Qed.

Lemma same_tree_nodes s s' : same_tree s s' -> same_nodes s s'.
Proof. intros [Ea Eb]. split; rewrite ?Ea; auto. apply extends_refl. Qed.

(** What is said of the nodes and blocks of a state holds of the other one. *)
Section Nodes.
Context (s s' : chainState).
Hypothesis Hn : same_nodes s s'.
Hypothesis Hw : arena_wf (arenaOf s).

Lemma ledger_nodes x : (x < List.length (arenaOf s))%nat -> ledger (arenaOf s') (blocksOf s') x = ledger (arenaOf s) (blocksOf s) x.
Proof. intros Hx. rewrite (sn_blocks _ _ Hn). exact (ledgerAt_extends DoubleHash _ _ Hw _ (sn_extends _ _ Hn) x Hx). Qed.

Lemma valid_nodes x : (x < List.length (arenaOf s))%nat -> valid (arenaOf s) (blocksOf s) x -> valid (arenaOf s') (blocksOf s') x.
Proof. intros Hx. rewrite (sn_blocks _ _ Hn). exact (valid_to_extends DoubleHash params _ _ Hw _ (sn_extends _ _ Hn) x Hx). Qed.

Lemma linked_nodes x p b : linked (arenaOf s) (blocksOf s) x p b -> linked (arenaOf s') (blocksOf s') x p b.
Proof.
  intros [Hx Hp Hb Hs]. destruct (height_parent _ x p Hw Hx Hp) as (_ & Hpl & _). pose proof (sn_extends _ _ Hn) as He. rewrite (sn_blocks _ _ Hn). split.
  - now rewrite (sn_length _ _ Hn).
  - now rewrite (ex_parent _ _ He x Hx).
  - now rewrite (blockOf_extends _ _ _ He x Hx).
  - exact (stored_block_extends DoubleHash _ _ Hw _ He x p b Hx Hpl Hs).
Qed.

Lemma spentAt_nodes p b : (p < List.length (arenaOf s))%nat -> spentAt (arenaOf s') (blocksOf s') p b = spentAt (arenaOf s) (blocksOf s) p b.
Proof. intros Hp. unfold spentAt. now rewrite (ledger_nodes p Hp). Qed.

Lemma detach_info_nodes l blocks : detach_info (arenaOf s) (blocksOf s) l blocks -> detach_info (arenaOf s') (blocksOf s') l blocks.
Proof.
  induction 1 as [|x d l blocks (p & Hl & Hd) _ IH]; constructor; [|exact IH]. exists p. split; [now apply linked_nodes|].
  rewrite Hd. symmetry. apply spentAt_nodes. apply (height_parent _ x p Hw (lk_node _ _ _ _ _ Hl) (lk_parent _ _ _ _ _ Hl)).
Qed.
End Nodes.

Lemma status_nodes s id flags : (id < List.length (arenaOf s))%nat -> same_nodes s (with_index s (SetStatusFlags (ch_index s) id flags)).
Proof. intros Hid. destruct (status_extends (ch_index s) id (fun st => Z.lor st flags) Hid) as [He Hl]. now split. Qed.

Abbreviation attach_one := (verifyAttachBlock ParsePubKey SerializeUncompressed CalculateRoughMapSize CalculateMinEntries DoubleHash params checkBlockScripts).

(** The chain stays as it is but for statuses and caches. *)
Record still D U t (s s' : chainState) : Prop := {
  sl_core : chain_core s' t;
  sl_set : set_ok D U s';
  sl_nodes : same_nodes s s'
}.

Lemma still_status D U t s s' id flags : still D U t s s' -> (id < List.length (arenaOf s'))%nat ->
  KnownValid flags = false \/ valid (arenaOf s') (blocksOf s') id -> still D U t s (with_index s' (SetStatusFlags (ch_index s') id flags)).
Proof.
  intros [H Hs Hn] Hid Hf. split; [now apply core_status | split; apply Hs|]. exact (same_nodes_trans _ _ _ Hn (status_nodes s' id flags Hid)).
Qed.

Lemma still_statuses D U t s s' ids flags : still D U t s s' -> Forall (fun id => (id < List.length (arenaOf s'))%nat) ids -> KnownValid flags = false ->
  still D U t s (with_index s' (fold_left (fun bi id => SetStatusFlags bi id flags) ids (ch_index s'))).
Proof.
  intros [H Hs Hn] Hids Hf. destruct (core_statuses s' t flags ids H Hids Hf) as (H1 & He & Hl).
  split; [exact H1 | split; apply Hs|]. apply (same_nodes_trans _ _ _ Hn). now split.
Qed.

(** One block to attach. *)
Lemma attach_one_ok D U s t x p b v nodes' : chain_core s t -> set_ok D U s -> linked (arenaOf s) (blocksOf s) x p b ->
  valid (arenaOf s) (blocksOf s) p -> Forall (fun id => (id < List.length (arenaOf s))%nat) nodes' -> abs U v = ledger (arenaOf s) (blocksOf s) p ->
  exists s' r, attach_one x nodes' b v s = (s', r) /\ still D U t s s' /\
    forall v', r = Ok v' -> valid (arenaOf s') (blocksOf s') x /\ abs U v' = ledger (arenaOf s') (blocksOf s') x.
Proof.
  intros H Hs Hlk Hv Hnodes Ha. pose proof (core_arena _ _ H) as Hw. pose proof Hlk as [Hx Hp Hb Hst].
  unfold verifyAttachBlock. rewrite node_bind. destruct (KnownValid (bn_status (deref (arenaOf s) x))) eqn:Ek.
  - pose proof (ck_known _ _ H x Hx Ek) as Hvx. destruct (valid_linked _ _ x p Hx Hp Hvx) as (b' & [_ _ Hb' _] & _ & Hbv). rewrite Hb in Hb'. injection Hb' as <-.
    pose proof (so_set _ _ _ Hs) as Hset. rewrite <- Hset in Ha.
    destruct (connect_valid ParsePubKey SerializeUncompressed CalculateRoughMapSize CalculateMinEntries DoubleHash params forms hash_len
      D _ _ v _ b (so_inv _ _ _ Hs) Ha (sb_form _ _ _ _ _ _ Hst) Hbv (stored_new _ _ _ _ _ _ Hst)) as (v1 & c & E1 & Hi1 & Ha1 & Hcon).
    destruct (Hcon None) as (v2 & E2 & Ha2 & _). unfold fetchInputsM. rewrite bind_assoc, get_bind, bind_assoc, (lift_bind _ _ _ _ E1).
    eexists (with_cache s c), (Ok v2). split; [unfold bindM at 1 2, modifyM, retM at 1; now rewrite (lift_bind _ _ _ _ E2)|].
    split; [split; [now apply core_cache | split; [exact Hi1 | exact (eq_trans Ha1 Hset)] | apply same_tree_nodes; now split]|]. intros v' [= <-]. split; [exact Hvx|].
    cbn [with_cache ch_index ch_db]. rewrite (ledgerAt_parent DoubleHash _ _ Hw x p b Hx Hp Hb), <- Hset. exact Ha2.
  - destruct (checkConnectM_ok D U s t x p b v H Hs Hlk Ha) as (s1 & r & E & H1 & Hs1 & Ei & Eb & Hr).
    assert (Hst1 : still D U t s s1) by (split; [exact H1 | exact Hs1 | apply same_tree_nodes; split; [now rewrite Ei | exact Eb]]).
    unfold tryM. unfold bindM at 1. rewrite E. destruct r as [v'|e|].
    + destruct (Hr v' eq_refl) as [Hbv Ha']. eexists _, _. split; [reflexivity|].
      assert (Hvx : valid (arenaOf s1) (blocksOf s1) x) by (rewrite Ei, Eb; exact (valid_block _ _ _ _ x p b Hp Hv Hb Hst Hbv)).
      assert (Hx1 : (x < List.length (arenaOf s1))%nat) by now rewrite Ei.
      pose proof (still_status D U t s s1 x statusValid Hst1 Hx1 (or_intror Hvx)) as Hst2. split; [exact Hst2|]. intros v2 [= <-].
      pose proof (status_nodes s1 x statusValid Hx1) as Hn. pose proof (core_arena _ _ H1) as Hw1. split; [now apply (valid_nodes s1)|].
      rewrite (ledger_nodes s1 _ Hn Hw1 x Hx1), Ei, Eb. exact Ha'.
    + destruct e as [code|e]; [|eexists _, _; split; [reflexivity|]; split; [exact Hst1 | discriminate]]. eexists _, _. split; [reflexivity|]. split; [|discriminate].
      apply (still_statuses D U t s (with_index s1 (SetStatusFlags (ch_index s1) x statusValidateFailed))); [|rewrite (sn_length _ _ (status_nodes s1 x _ ltac:(now rewrite Ei))), Ei; exact Hnodes | reflexivity].
      apply still_status; [exact Hst1 | now rewrite Ei | now left].
    + eexists _, _. split; [reflexivity|]. split; [exact Hst1 | discriminate].
Qed.

Definition attach_info (a : arena) (B : gmap (list Z) MsgBlock) : list nat -> list Block -> Prop :=
  Forall2 (fun x b => exists p, linked a B x p b).

Lemma attach_info_nodes s s' l blocks : same_nodes s s' -> arena_wf (arenaOf s) ->
  attach_info (arenaOf s) (blocksOf s) l blocks -> attach_info (arenaOf s') (blocksOf s') l blocks.
Proof. intros Hn Hw. induction 1 as [|x b l blocks (p & Hl) _ IH]; constructor; [exists p; now apply (linked_nodes s) | exact IH]. Qed.

Lemma up_inv a x f y l : up a x f (y :: l) -> bn_parent (deref a y) = Some f /\ up a x y l.
Proof. intros H. inversion H; subst. now split. Qed.

Lemma still_refl D U t s : chain_core s t -> set_ok D U s -> still D U t s s.
Proof. intros H Hs. split; [exact H | exact Hs | apply same_nodes_refl]. Qed.

Lemma still_trans D U t s1 s2 s3 : still D U t s1 s2 -> still D U t s2 s3 -> still D U t s1 s3.
Proof. intros [_ _ N1] [H S N2]. split; [exact H | exact S | exact (same_nodes_trans _ _ _ N1 N2)]. Qed.

Lemma verifyAttach_ok D U t x l : forall f s v, up (arenaOf s) x f l -> chain_core s t -> set_ok D U s -> (x < List.length (arenaOf s))%nat ->
  (f < List.length (arenaOf s))%nat -> valid (arenaOf s) (blocksOf s) f -> abs U v = ledger (arenaOf s) (blocksOf s) f ->
  exists s' r, attach_check l v s = (s', r) /\ still D U t s s' /\
    forall blocks, r = Ok blocks -> attach_info (arenaOf s') (blocksOf s') l blocks /\ valid (arenaOf s') (blocksOf s') x.
Proof.
  induction l as [|y l IH]; intros f s v Hup H Hs Hx Hf Hvf Ha; cbn [verifyAttach].
  - inversion Hup; subst f. exists s, (Ok []). split; [reflexivity|]. split; [now apply still_refl|]. intros blocks [= <-]. split; [constructor | exact Hvf].
  - pose proof (core_arena _ _ H) as Hw. pose proof (up_lt _ x f _ Hx Hf Hup) as Hl. apply up_inv in Hup. destruct Hup as [Hp Hup].
    apply Forall_cons in Hl. destruct Hl as [Hy Hl]. rewrite node_bind, get_bind.
    destruct (blockOf (arenaOf s) (blocksOf s) y) as [b|] eqn:Hb.
    2: { exists s, (Err (Chain ErrBlockNotFound)). split; [|split; [now apply still_refl | discriminate]].
         unfold blockOf in Hb. unfold dbFetchBlockByNode. now destruct (blocksOf s !! _). }
    rewrite (lift_bind _ _ _ _ (fetch_node (ch_db s) (arenaOf s) y b Hb)).
    assert (Hlk : linked (arenaOf s) (blocksOf s) y f b) by (split; auto; now apply (core_stored s t)).
    destruct (attach_one_ok D U s t y f b v l H Hs Hlk Hvf Hl Ha) as (s1 & r & E & Hst & Hr).
    unfold bindM at 1. rewrite E. destruct r as [v1|e|]; [|eexists _, _; split; [reflexivity|]; split; [exact Hst | discriminate]..].
    destruct (Hr v1 eq_refl) as [Hvy Ha1]. destruct Hst as [H1 Hs1 Hn1].
    destruct (IH y s1 v1) as (s2 & r2 & E2 & Hst2 & Hr2);
      [exact (up_extends _ _ x y l (sn_extends _ _ Hn1) Hup) | exact H1 | exact Hs1 | now rewrite (sn_length _ _ Hn1) .. | exact Hvy | exact Ha1|].
    unfold bindM at 1. rewrite E2. assert (Hst1 : still D U t s s1) by now split.
    pose proof (still_trans _ _ _ _ _ _ Hst1 Hst2) as Hst'. destruct r2 as [blocks|e|]; [|eexists _, _; split; [reflexivity|]; split; [exact Hst' | discriminate]..].
    eexists _, _. split; [reflexivity|]. split; [exact Hst'|]. intros bs [= <-]. destruct (Hr2 blocks eq_refl) as [Hai Hvx]. split; [|exact Hvx].
    constructor; [|exact Hai]. exists f. exact (linked_nodes _ _ (sl_nodes _ _ _ _ _ Hst') Hw y f b Hlk).
Qed.

(** ** Carrying it out *)

Abbreviation detach_all := (detachAll ParsePubKey SerializeUncompressed CalculateRoughMapSize CalculateMinEntries iter DoubleHash dbByHash now).
Abbreviation attach_all := (attachAll ParsePubKey SerializeUncompressed CalculateRoughMapSize CalculateMinEntries iter DoubleHash params now adjustedTime).

Lemma chain_cache D s t c : chain_ok D s t -> set_ok D (ledger (arenaOf s) (blocksOf s) t) (with_cache s c) -> chain_ok D (with_cache s c) t.
Proof. intros [H _ Hf] Hs. split; [now apply core_cache | exact Hs | exact Hf]. Qed.

(** A view that stands for the ledger of the tip, over that ledger. *)
Definition neutral (U : utxoSet) (v : UtxoViewpoint) : Prop := tracks U v /\ abs U v = U.

Lemma commit_neutral U V v : tracks U v -> abs U v = V -> neutral V (commit v).
Proof. intros Ht <-. exact (commit_tracks U v Ht). Qed.

Lemma detachAll_ok f a B x l : down a f x l -> forall D s v blocks, arenaOf s = a -> blocksOf s = B -> chain_ok D s x -> detach_info a B l blocks ->
  neutral (ledger a B x) v ->
  exists D' s' v', detach_all l blocks v s = (s', Ok v') /\ chain_ok D' s' f /\ same_tree s s' /\ neutral (ledger a B f) v'.
Proof.
  induction 1 as [|x p l Hp Hd IH]; intros D s v blocks <- <- H Hi Hn.
  - exists D, s, v. split; [reflexivity|]. split; [exact H|]. split; [now split | exact Hn].
  - inversion Hi as [|? [b st] ? blocks' (q & Hlk & Est) Hi']; subst. cbn [fst snd] in *. subst st. pose proof (lk_parent _ _ _ _ _ Hlk) as Hq. rewrite Hp in Hq. injection Hq as <-.
    pose proof (co_core _ _ _ H) as Hc. pose proof (core_arena _ _ Hc) as Hw. destruct Hn as [Ht Ha].
    destruct (take_back_ok D _ s x p b v Hw Hlk (ck_valid _ _ Hc) (co_set _ _ _ H) Ha) as (v1 & c & v2 & E1 & Hs1 & E2 & Ha2 & Ht2).
    destruct (disconnectBlock_ok D (with_cache s c) p x b v2 (chain_cache D s x c H Hs1) Hp (lk_block _ _ _ _ _ Hlk) (Ht2 Ht) Ha2) as (s2 & E3 & H2 & HT).
    destruct (IH _ s2 (commit v2) blocks' (st_arena _ _ HT) (st_blocks _ _ HT) H2 Hi') as (D' & s' & v' & E4 & H' & HT' & Hn').
    { exact (commit_neutral _ _ _ (Ht2 Ht) Ha2). }
    exists D', s', v'. split; [|split; [exact H'|]; split; [|exact Hn']].
    + cbn [detachAll]. now rewrite (bind_Ok _ _ _ _ _ E1), (bind_Ok _ _ _ _ _ E2), (bind_Ok _ _ _ _ _ E3).
    + apply (same_tree_trans _ (with_cache s c)); [now split | exact (same_tree_trans _ _ _ HT HT')].
Qed.

Lemma up_branch a x f l : arena_wf a -> (x < List.length a)%nat -> (f < List.length a)%nat -> up a x f l -> on_branch a x f.
Proof.
  intros Hw Hx Hf H. pose proof (up_lt a x f l Hx Hf H) as Hl. clear Hf. induction H as [|f y l Hy Hup IH]; [split; [lia | apply ancestorAt_self]|].
  apply Forall_cons in Hl. destruct Hl as [Hyl Hl]. exact (on_branch_step a x y f Hw Hx Hyl (IH Hl) Hy).
Qed.

Lemma from_chain_child a B x p U : arena_wf a -> (x < List.length a)%nat -> bn_parent (deref a x) = Some p ->
  from_chain DoubleHash (chainTo a B p) U -> from_chain DoubleHash (chainTo a B x) U.
Proof.
  intros Hw Hx Hp Hf k Hk. destruct (Hf k Hk) as (b & Hb & Hh). exists b. split; [|exact Hh]. rewrite (chainTo_parent a B Hw x p Hx Hp). apply elem_of_app. now left.
Qed.

Lemma attachAll_ok a B x f l : up a x f l -> forall D s v blocks, arenaOf s = a -> blocksOf s = B -> (x < List.length a)%nat -> valid a B x -> chain_ok D s f ->
  attach_info a B l blocks -> neutral (ledger a B f) v ->
  exists D' s' v', attach_all l blocks v s = (s', Ok v') /\ chain_ok D' s' x /\ same_tree s s'.
Proof.
  induction 1 as [|f y l Hp Hup IH]; intros D s v blocks <- <- Hx Hvx H Hi [Ht Ha].
  - exists D, s, v. split; [reflexivity|]. split; [exact H | now split].
  - inversion Hi as [|? b ? blocks' (q & Hlk) Hi']; subst. pose proof (lk_parent _ _ _ _ _ Hlk) as Hq. rewrite Hp in Hq. injection Hq as <-.
    pose proof (co_core _ _ _ H) as Hc. pose proof (core_arena _ _ Hc) as Hw. pose proof Hlk as [Hy _ Hb Hst].
    pose proof (valid_branch DoubleHash params _ _ Hw x y Hx Hy Hvx (up_branch _ x y l Hw Hx Hy Hup)) as Hvy.
    destruct (valid_linked _ _ y f Hy Hp Hvy) as (b' & [_ _ Hb' _] & _ & Hbv). rewrite Hb in Hb'. injection Hb' as <-.
    pose proof (co_set _ _ _ H) as Hs. pose proof (so_set _ _ _ Hs) as Hset. rewrite <- Hset in Ha at 1.
    destruct (connect_valid ParsePubKey SerializeUncompressed CalculateRoughMapSize CalculateMinEntries DoubleHash params forms hash_len
      D _ _ v _ b (so_inv _ _ _ Hs) Ha (sb_form _ _ _ _ _ _ Hst) Hbv (stored_new _ _ _ _ _ _ Hst)) as (v1 & c & E1 & Hi1 & Ha1 & Hcon).
    destruct (Hcon (Some [])) as (v2 & E2 & Ha2 & Ht2). destruct (spentAt_journal _ _ y f b Hw Hy Hp Hb Hvy) as [Ec _].
    rewrite Hset in Ha1, Ha2, Ht2. rewrite <- (ledgerAt_parent DoubleHash _ _ Hw y f b Hy Hp Hb) in Ha2. cbn [append_coins app] in E2.
    assert (Hcc : chain_core (with_cache s c) f) by now apply core_cache.
    destruct (connectBlock_ok D (ledger (arenaOf s) (blocksOf s) f) (with_cache s c) f y b (Some v2) Hcc) as (s2 & D2 & E3 & H2 & HT); auto.
    { now split. } { split; [|exact Ha2]. now apply Ht2. } { exact (from_chain_child _ _ y f D Hw Hy Hp (co_from _ _ _ H)). }
    { exact (from_chain_child _ _ y f _ Hw Hy Hp (from_chain_ledger DoubleHash _)). }
    cbn [option_map] in E3. destruct (IH D2 s2 (commit v2) blocks' (st_arena _ _ HT) (st_blocks _ _ HT) Hx Hvx H2 Hi') as (D' & s' & v' & E4 & H' & HT').
    { apply (commit_neutral (ledger (arenaOf s) (blocksOf s) f)); [now apply Ht2 | exact Ha2]. }
    exists D', s', v'. split; [|split; [exact H'|]; apply (same_tree_trans _ (with_cache s c)); [now split | exact (same_tree_trans _ _ _ HT HT')]].
    cbn [attachAll]. unfold fetchInputsM at 1. rewrite bind_assoc, get_bind, bind_assoc, (lift_bind _ _ _ _ E1). unfold bindM at 1 2, modifyM, retM at 1.
    rewrite (lift_bind _ _ _ _ Ec), (lift_bind _ _ _ _ E2). cbn [append_coins]. setoid_rewrite (bind_Ok _ _ _ _ _ E3). exact E4.
Qed.

(** ** The whole reorganization *)

Abbreviation verify := (verifyReorganizationValidity ParsePubKey SerializeUncompressed CalculateRoughMapSize CalculateMinEntries DoubleHash params checkBlockScripts dbByHash).
Abbreviation reorganize := (reorganizeChain ParsePubKey SerializeUncompressed CalculateRoughMapSize CalculateMinEntries iter DoubleHash params
  checkBlockScripts dbByHash now adjustedTime).

Lemma still_chain D s s' t : chain_ok D s t -> still D (ledger (arenaOf s) (blocksOf s) t) t s s' -> chain_ok D s' t.
Proof.
  intros [H Hs Hf] [H' Hs' Hn]. pose proof (core_arena _ _ H) as Hw. pose proof (core_tip _ _ H) as Ht.
  split; [exact H' | now rewrite (ledger_nodes s s' Hn Hw t Ht)|]. rewrite (sn_blocks _ _ Hn), (chainTo_extends _ _ Hw _ (sn_extends _ _ Hn) t Ht). exact Hf.
Qed.

Lemma abs_start U hash : abs U (SetBestHash NewUtxoViewpoint hash) = U.
Proof. apply map_eq. intros op. rewrite lookup_abs. cbn [SetBestHash NewUtxoViewpoint uv_entries]. now rewrite lookup_empty. Qed.

(** The assertions hold for two paths from one fork. *)
Lemma verify_run s t f x detach attach : chain_core s t -> down (arenaOf s) f t detach -> up (arenaOf s) x f attach ->
  verify detach attach s =
  (do! (detachBlocks, view) := detach_check detach (SetBestHash NewUtxoViewpoint (bn_hash (deref (arenaOf s) t))) in
   do! attachBlocks := attach_check attach view in retM (detachBlocks, attachBlocks)) s.
Proof.
  intros H Hd Hu. pose proof (core_tipM _ _ H) as Et. destruct attach as [|y attach]; [|apply up_inv in Hu; destruct Hu as [Hy _]].
  - destruct detach as [|d detach]; [reflexivity|]. destruct (down_last _ _ _ _ _ Hd) as [-> _].
    unfold verifyReorganizationValidity. rewrite (bind_Ok _ _ _ _ _ Et), get_bind. replace (bytes_eqb _ _) with true by (symmetry; now apply bytes_eqb_eq). reflexivity.
  - destruct detach as [|d detach]; [|destruct (down_last _ _ _ _ _ Hd) as [-> Hl]]; unfold verifyReorganizationValidity; rewrite (bind_Ok _ _ _ _ _ Et), get_bind; [reflexivity|].
    replace (bytes_eqb _ _) with true by (symmetry; now apply bytes_eqb_eq). cbn [negb]. rewrite Hy, Hl.
    replace (bytes_eqb _ _) with true by (symmetry; now apply bytes_eqb_eq). reflexivity.
Qed.

(** The check passes with the blocks of both paths and the target valid, or
    fails and leaves the chain alone. *)
Lemma verify_ok D s t f x detach attach : chain_ok D s t -> down (arenaOf s) f t detach -> up (arenaOf s) x f attach -> (x < List.length (arenaOf s))%nat ->
  exists s' r, verify detach attach s = (s', r) /\ still D (ledger (arenaOf s) (blocksOf s) t) t s s' /\
    forall db ab, r = Ok (db, ab) -> detach_info (arenaOf s') (blocksOf s') detach db /\ attach_info (arenaOf s') (blocksOf s') attach ab /\
      valid (arenaOf s') (blocksOf s') x.
Proof.
  intros H Hd Hu Hx. pose proof (co_core _ _ _ H) as Hc. pose proof (core_arena _ _ Hc) as Hw. pose proof (core_tip _ _ Hc) as Ht.
  destruct (down_lt _ Hw f t detach Ht Hd) as [_ Hbf]. pose proof (down_end _ Hw f t detach Ht Hd) as Hf.
  pose proof (valid_branch DoubleHash params _ _ Hw t f Ht Hf (ck_valid _ _ Hc) Hbf) as Hvf.
  set (v0 := SetBestHash NewUtxoViewpoint (bn_hash (deref (arenaOf s) t))).
  destruct (verifyDetach_ok D (ledger (arenaOf s) (blocksOf s) t) t f _ _ t detach Hd s v0 eq_refl eq_refl Hc) as (c & db & v1 & E1 & Hs1 & Hdi & Ha1);
    [split; [lia | apply ancestorAt_self] | exact Ht | exact (co_set _ _ _ H) | apply abs_start|].
  destruct (verifyAttach_ok D (ledger (arenaOf s) (blocksOf s) t) t x attach f (with_cache s c) v1 Hu (core_cache s t c Hc) Hs1 Hx Hf Hvf Ha1) as (s2 & r2 & E2 & Hst & Hr2).
  assert (Hst' : still D (ledger (arenaOf s) (blocksOf s) t) t s s2).
  { destruct Hst as [K1 K2 K3]. split; [exact K1 | exact K2|]. apply (same_nodes_trans _ (with_cache s c)); [apply same_tree_nodes; now split | exact K3]. }
  exists s2, (match r2 with Ok ab => Ok (db, ab) | Err e => Err e | Panic => Panic end). split; [|split; [exact Hst'|]].
  - rewrite (verify_run s t f x detach attach Hc Hd Hu), (bind_Ok _ _ _ _ _ E1). unfold bindM. rewrite E2. now destruct r2.
  - intros db' ab E. destruct r2 as [ab'| |]; try discriminate. injection E as <- <-. destruct (Hr2 ab' eq_refl) as [Hai Hvx].
    split; [exact (detach_info_nodes s s2 (sl_nodes _ _ _ _ _ Hst') Hw detach db Hdi) | now split].
Qed.

(** A reorganization that succeeds has moved the chain to the end of the
    second path; one that fails has not moved it. *)
Lemma reorganize_ok D s t f x detach attach : chain_ok D s t -> down (arenaOf s) f t detach -> up (arenaOf s) x f attach -> (x < List.length (arenaOf s))%nat ->
  exists s' r D', reorganize detach attach s = (s', r) /\ same_nodes s s' /\ chain_ok D' s' (match r with Ok _ => x | _ => t end).
Proof.
  intros H Hd Hu Hx. pose proof (co_core _ _ _ H) as Hc. pose proof (core_arena _ _ Hc) as Hw. pose proof (core_tip _ _ Hc) as Ht.
  destruct (verify_ok D s t f x detach attach H Hd Hu Hx) as (s1 & r & E & Hst & Hr). pose proof (still_chain D s s1 t H Hst) as H1. pose proof (sl_nodes _ _ _ _ _ Hst) as Hn.
  assert (Hrun : reorganize detach attach s = match r with
    | Ok (db, ab) => (do! view := detach_all detach db NewUtxoViewpoint in do! _ := attach_all attach ab view in retM tt) s1
    | Err e => (s1, Err e) | Panic => (s1, Panic) end).
  { assert (E' : (do! (detachBlocks, attachBlocks) := verify detach attach in do! view := detach_all detach detachBlocks NewUtxoViewpoint in
      do! _ := attach_all attach attachBlocks view in retM tt) s = reorganize detach attach s) by (destruct detach, attach; reflexivity).
    rewrite <- E'. unfold bindM at 1. rewrite E. now destruct r as [[db ab]| |]. }
  rewrite Hrun. clear Hrun E. destruct r as [[db ab]|e|]; [|exists s1; eexists; exists D; (split; [reflexivity|]; now split)..].
  destruct (Hr db ab eq_refl) as (Hdi & Hai & Hvx). pose proof (sn_extends _ _ Hn) as He.
  destruct (detachAll_ok f _ _ t detach (down_extends _ Hw _ _ _ _ He Ht Hd) D s1 NewUtxoViewpoint db eq_refl eq_refl H1 Hdi)
    as (D2 & s2 & v2 & E2 & H2 & HT2 & Hn2). { split; [apply tracks_new | apply map_eq; intros op; now rewrite lookup_abs]. }
  destruct HT2 as [Ea Eb].
  destruct (attachAll_ok _ _ x f attach (up_extends _ _ _ _ _ He Hu) D2 s2 v2 ab Ea Eb) as (D3 & s3 & v3 & E3 & H3 & HT3); auto; [now rewrite (sn_length _ _ Hn)|].
  exists s3, (Ok tt), D3. split; [rewrite (bind_Ok _ _ _ _ _ E2), (bind_Ok _ _ _ _ _ E3); reflexivity|]. split; [|exact H3].
  apply (same_nodes_trans _ s1 _ Hn), same_tree_nodes, (same_tree_trans _ s2); [now split | exact HT3].
Qed.

(** ** The nodes of a reorganization *)

Lemma walkTo_ok a stop f : arena_wf a -> (f < List.length a)%nat -> forall fuel n, (n < List.length a)%nat -> (n < fuel)%nat -> on_branch a n f ->
  exists l stopped, walkTo fuel a stop (Some f) (Some n) = (l, stopped) /\ Forall (fun y => (y < List.length a)%nat) l /\
    (stopped = false -> down a f n l /\ Forall (fun y => stop y = false) l) /\ ((forall y, stop y = false) -> stopped = false) /\ (stopped = true -> stop n = true \/ n ∈ l).
Proof.
  intros Hw Hf. induction fuel as [|fuel IH]; intros n Hn Hlt Hbr; [lia|]. cbn [walkTo opt_nat_eqb].
  destruct (Nat.eqb_spec n f) as [->|Hne]; [exists [], false; split; [reflexivity|]; split; [constructor|]; split; [intros _; split; [apply down_nil | constructor]|]; split; [reflexivity | discriminate]|].
  destruct (stop n) eqn:Es; [exists [], true; split; [reflexivity|]; split; [constructor|]; split; [discriminate|]; split; [congruence | now left]|].
  destruct (bn_parent (deref a n)) as [p|] eqn:Ep.
  - destruct (height_parent a n p Hw Hn Ep) as (Hpn & Hpl & _). apply (on_branch_parent a n p f Hw Hn Ep) in Hbr. destruct Hbr as [->|Hbr]; [congruence|].
    destruct (IH p Hpl ltac:(lia) Hbr) as (l & st & -> & Hl & Hd & Hs & _). exists (n :: l), st. split; [reflexivity|]. split; [now constructor|].
    split; [|split; [exact Hs | intros _; right; apply list_elem_of_here]]. intros E. destruct (Hd E) as [H1 H2]. split; [exact (down_cons a f n p l Ep H1) | now constructor].
  - exfalso. apply Hne. symmetry. exact (on_branch_root a n f Hw Hn Hf Ep Hbr).
Qed.

Lemma root_branch s t x : chain_core s t -> (x < List.length (arenaOf s))%nat -> on_branch (arenaOf s) x 0.
Proof.
  intros H. pose proof (core_arena _ _ H) as Hw. induction x as [x IH] using lt_wf_ind. intros Hx. destruct (bn_parent (deref (arenaOf s) x)) as [p|] eqn:Ep.
  - destruct (height_parent _ x p Hw Hx Ep) as (Hlt & Hpl & _). apply (on_branch_parent _ x p 0 Hw Hx Ep). right. exact (IH p Hlt Hpl).
  - rewrite (ck_root _ _ H x Hx Ep). split; [lia | apply ancestorAt_self].
Qed.

Lemma fork_exists s t x : chain_core s t -> (x < List.length (arenaOf s))%nat ->
  exists f, findFork (arenaOf s) (ch_bestChain s) (Some x) = Some f /\ (f < List.length (arenaOf s))%nat /\ on_branch (arenaOf s) x f /\ on_branch (arenaOf s) t f.
Proof.
  intros H Hx. pose proof (findFork_spec _ _ t x (core_arena _ _ H) (ck_view _ _ H) Hx) as Hf. destruct (findFork _ _ _) as [f|].
  - exists f. destruct Hf as (H1 & H2 & H3 & _). auto.
  - exfalso. apply (Hf 0%nat); [lia | exact (root_branch s t x H Hx) | exact (root_branch s t t H (core_tip _ _ H))].
Qed.

(** A node is marked once it is among the nodes that are. *)
Lemma statuses_mark flags x ids : forall bi, (x < List.length (bi_nodes bi))%nat -> KnownInvalid flags = true ->
  Forall (fun id => (id < List.length (bi_nodes bi))%nat) ids -> KnownInvalid (NodeStatus bi x) = true \/ x ∈ ids ->
  KnownInvalid (NodeStatus (fold_left (fun bi id => SetStatusFlags bi id flags) ids bi) x) = true.
Proof.
  induction ids as [|id ids IH]; intros bi Hx Hf Hids Hm; cbn [fold_left]; [destruct Hm as [Hm|Hm]; [exact Hm | inversion Hm]|].
  apply Forall_cons in Hids. destruct Hids as [Hid Hids]. destruct (status_extends bi id (fun st => Z.lor st flags) Hid) as [_ Hl].
  apply IH; [unfold SetStatusFlags; now rewrite Hl | exact Hf | unfold SetStatusFlags; now rewrite Hl|].
  rewrite elem_of_cons in Hm. unfold NodeStatus, SetStatusFlags, set_status. cbn [bi_nodes]. rewrite deref_insert by exact Hid.
  case_decide as E; [left; subst id; cbn [with_status bn_status]; apply KnownInvalid_lor; now right|]. destruct Hm as [Hm|[Hm|Hm]]; [now left | congruence | now right].
Qed.

(** Both paths from the fork, or nothing for a branch that is known to be
    invalid, whose nodes are marked. *)
Lemma getReorganizeNodes_ok D s t x p : chain_ok D s t -> (x < List.length (arenaOf s))%nat -> bn_parent (deref (arenaOf s) x) = Some p ->
  exists s' detach attach, getReorganizeNodes x s = (s', Ok (detach, attach)) /\ still D (ledger (arenaOf s) (blocksOf s) t) t s s' /\
    (detach = [] /\ attach = [] /\ KnownInvalid (NodeStatus (ch_index s') x) = true \/ s' = s /\
    exists f, down (arenaOf s) f t detach /\ up (arenaOf s) x f attach /\ Forall (fun y => KnownInvalid (NodeStatus (ch_index s) y) = false) attach).
Proof.
  intros H Hx Hp. pose proof (co_core _ _ _ H) as Hc. pose proof (core_arena _ _ Hc) as Hw. pose proof (core_tip _ _ Hc) as Ht.
  pose proof (still_refl D _ t s Hc (co_set _ _ _ H)) as Hst. unfold getReorganizeNodes. rewrite get_bind, Hp.
  destruct (KnownInvalid (NodeStatus (ch_index s) p)).
  { eexists _, [], []. split; [reflexivity|]. split; [apply (still_status _ _ _ _ _ _ _ Hst Hx); now left|]. left. split; [reflexivity|]. split; [reflexivity|].
    apply (statuses_mark statusInvalidAncestor x [x] (ch_index s) Hx eq_refl); [now constructor | right; apply list_elem_of_here]. }
  destruct (fork_exists s t x Hc Hx) as (f & -> & Hf & Hbx & Hbt).
  destruct (walkTo_ok (arenaOf s) (fun n => KnownInvalid (NodeStatus (ch_index s) n)) f Hw Hf (List.length (arenaOf s)) x Hx Hx Hbx)
    as (la & sa & -> & Hla & Hda & _ & Hma). destruct sa.
  { eexists _, [], []. split; [reflexivity|]. split; [apply (still_statuses _ _ _ _ _ (rev la) _ Hst); [now apply Forall_rev | reflexivity]|].
    left. split; [reflexivity|]. split; [reflexivity|]. apply statuses_mark; [exact Hx | reflexivity | now apply Forall_rev|].
    destruct (Hma eq_refl) as [Hm|Hm]; [now left | right; apply list_elem_of_In, in_rev; rewrite rev_involutive; now apply list_elem_of_In]. }
  rewrite (tip_spec _ _ _ Hw (ck_view _ _ Hc)).
  destruct (walkTo_ok (arenaOf s) (fun _ => false) f Hw Hf (List.length (arenaOf s)) t Ht Ht Hbt) as (ld & sd & -> & _ & Hdd & Hs & _). rewrite (Hs ltac:(reflexivity)) in Hdd.
  destruct (Hda eq_refl) as [Hd1 Hd2]. destruct (Hdd eq_refl) as [Hd3 _].
  exists s, ld, (rev la). split; [reflexivity|]. split; [exact Hst|]. right. split; [reflexivity|]. exists f. split; [exact Hd3|].
  split; [exact (down_up _ _ _ _ Hd1) | now apply Forall_rev].
Qed.

(** ** Extending the chain *)

Abbreviation check_extend := (checkExtend ParsePubKey SerializeUncompressed CalculateRoughMapSize CalculateMinEntries DoubleHash params checkBlockScripts).
Abbreviation extend := (extendBestChain ParsePubKey SerializeUncompressed CalculateRoughMapSize CalculateMinEntries iter DoubleHash params
  checkBlockScripts now adjustedTime).

Lemma still_flushed D U t s s' : still D U t s s' -> still D U t s (flushed s').
Proof.
  intros [H Hs Hn]. split; [now apply core_flushed | now apply set_flushed|]. apply (same_nodes_trans _ _ _ Hn), same_tree_nodes. now split.
Qed.

Lemma checkExtend_ok D s t x b : chain_ok D s t -> linked (arenaOf s) (blocksOf s) x t b ->
  exists s' r, check_extend x b s = (s', r) /\ still D (ledger (arenaOf s) (blocksOf s) t) t s s' /\ (r = Ok tt -> valid (arenaOf s') (blocksOf s') x).
Proof.
  intros H Hlk. pose proof (co_core _ _ _ H) as Hc. pose proof Hlk as [Hx Hp Hb Hst].
  destruct (checkConnectM_ok D _ s t x t b (SetBestHash NewUtxoViewpoint (prevBlock b)) Hc (co_set _ _ _ H) Hlk (abs_start _ _)) as (s1 & r & E & H1 & Hs1 & Ei & Eb & Hr).
  assert (Hst1 : still D (ledger (arenaOf s) (blocksOf s) t) t s s1) by (split; [exact H1 | exact Hs1 | apply same_tree_nodes; split; [now rewrite Ei | exact Eb]]).
  assert (Hx1 : (x < List.length (arenaOf s1))%nat) by now rewrite Ei.
  unfold checkExtend, tryM. unfold bindM at 1. rewrite E. destruct r as [v|e|].
  - destruct (Hr v eq_refl) as [Hbv _]. eexists _, _. split; [reflexivity|].
    assert (Hvx : valid (arenaOf s1) (blocksOf s1) x) by (rewrite Ei, Eb; exact (valid_block _ _ _ _ x t b Hp (ck_valid _ _ Hc) Hb Hst Hbv)).
    split; [exact (still_flushed _ _ _ _ _ (still_status _ _ _ _ _ x statusValid Hst1 Hx1 (or_intror Hvx)))|]. intros _.
    exact (valid_nodes _ _ (status_nodes s1 x statusValid Hx1) (core_arena _ _ H1) x Hx1 Hvx).
  - destruct e as [code|e]; eexists _, _; (split; [reflexivity|]); (split; [|discriminate]); [|exact Hst1].
    exact (still_flushed _ _ _ _ _ (still_status _ _ _ _ _ x statusValidateFailed Hst1 Hx1 (or_introl eq_refl))).
  - eexists _, _. split; [reflexivity|]. split; [exact Hst1 | discriminate].
Qed.

(** A valid block moves the cache to the ledger of its node. *)
Lemma cache_connect_ok D s t x b : chain_ok D s t -> linked (arenaOf s) (blocksOf s) x t b -> valid (arenaOf s) (blocksOf s) x ->
  exists c, cache_connectTransactions ParsePubKey SerializeUncompressed CalculateRoughMapSize CalculateMinEntries DoubleHash
      (cd_utxo (ch_db s)) (ch_cache s) b (Some []) = Ok (c, Some (spentAt (arenaOf s) (blocksOf s) t b)) /\
    set_ok D (ledger (arenaOf s) (blocksOf s) x) (with_cache s c).
Proof.
  intros H [Hx Hp Hb Hst] Hv. pose proof (core_arena _ _ (co_core _ _ _ H)) as Hw. pose proof (so_set _ _ _ (co_set _ _ _ H)) as Hset.
  destruct (valid_linked _ _ x t Hx Hp Hv) as (b' & [_ _ Hb' _] & _ & Hbv). rewrite Hb in Hb'. injection Hb' as <-.
  set (K := dom D ∪ dom (ledger (arenaOf s) (blocksOf s) t)).
  assert (Hap : apart DoubleHash K (Transactions b)).
  { intros k Hk. apply elem_of_union in Hk. destruct Hk as [Hk|Hk]; [exact (from_chain_new DoubleHash _ _ x t b D Hst (co_from _ _ _ H) k Hk) | exact (stored_new DoubleHash _ _ x t b Hst k Hk)]. }
  pose proof (valid_sound DoubleHash params hash_len K _ b (sb_form _ _ _ _ _ _ Hst) Hbv Hap) as Hs. rewrite <- Hset in Hs.
  destruct (cache_connect_spec ParsePubKey SerializeUncompressed CalculateRoughMapSize CalculateMinEntries iter DoubleHash forms iter_all D _ (blk_height b) (Transactions b) K (ch_cache s) (Some [])
    (so_inv _ _ _ (co_set _ _ _ H)) ltac:(rewrite Hset; reflexivity) Hs) as (c & E & Hi & Ha & _).
  exists c. split; [unfold cache_connectTransactions; rewrite E; cbn [append_coins]; unfold spentAt; now rewrite Hset|].
  split; [exact Hi|]. rewrite (ledgerAt_parent DoubleHash _ _ Hw x t b Hx Hp Hb). cbn [with_cache ch_cache]. now rewrite Ha, Hset.
Qed.

(** The cache takes the block, and the block is recorded. *)
Lemma connect_cached_ok D s t x b fastAdd : chain_ok D s t -> linked (arenaOf s) (blocksOf s) x t b -> valid (arenaOf s) (blocksOf s) x ->
  exists s' D', (do! _ := liftC (countSpentOutputs b) in
     do! stxos := connectCacheM ParsePubKey SerializeUncompressed CalculateRoughMapSize CalculateMinEntries DoubleHash b in
     do! r := tryM (connect x b None (match stxos with Some l => l | None => [] end)) in
     match r with
     | Ok _ =>
         do! status := statusM x in
         (if fastAdd || negb (KnownValid status) then setStatusM x statusValid ;! flushToDB else retM tt) ;!
         retM true
     | Err (Rule code) => setStatusM x statusValidateFailed ;! flushToDB ;! throwM (Rule code)
     | Err e => flushToDB ;! throwM e
     | Panic => panicM
     end) s = (s', Ok true) /\ same_nodes s s' /\ chain_ok D' s' x.
Proof.
  intros H Hlk Hv. pose proof Hlk as [Hx Hp Hb Hst]. pose proof (co_core _ _ _ H) as Hc. pose proof (core_arena _ _ Hc) as Hw.
  destruct (spentAt_journal _ _ x t b Hw Hx Hp Hb Hv) as [Ec _]. destruct (cache_connect_ok D s t x b H Hlk Hv) as (c & E1 & Hs1).
  destruct (connectBlock_ok D _ (with_cache s c) t x b None (core_cache s t c Hc) Hs1 Hx Hp Hb Hv eq_refl) as (s2 & D2 & E2 & H2 & HT).
  { exact (from_chain_child _ _ x t D Hw Hx Hp (co_from _ _ _ H)). } { apply from_chain_ledger. }
  rewrite (lift_bind _ _ _ _ Ec). unfold bindM at 1, connectCacheM. rewrite E1. unfold tryM at 1. unfold bindM at 1.
  change (spentAt (arenaOf s) (blocksOf s) t b) with (spentAt (arenaOf (with_cache s c)) (blocksOf (with_cache s c)) t b). rewrite E2. rewrite status_bind.
  assert (Hn2 : same_nodes s s2) by (apply (same_nodes_trans _ (with_cache s c)); apply same_tree_nodes; [now split | exact HT]).
  destruct (fastAdd || _); [|exists s2, D2; split; [reflexivity | now split]].
  assert (Hx2 : (x < List.length (arenaOf s2))%nat) by now rewrite (sn_length _ _ Hn2).
  pose proof (still_status D2 _ x s2 s2 x statusValid (still_refl D2 _ x s2 (co_core _ _ _ H2) (co_set _ _ _ H2)) Hx2
    (or_intror (ck_valid _ _ (co_core _ _ _ H2)))) as Hst2. apply still_flushed in Hst2.
  eexists _, D2. split; [reflexivity|]. split; [exact (same_nodes_trans _ _ _ Hn2 (sl_nodes _ _ _ _ _ Hst2)) | exact (still_chain D2 s2 _ x H2 Hst2)].
Qed.

Lemma extend_ok D s t x b flags : chain_ok D s t -> linked (arenaOf s) (blocksOf s) x t b ->
  (has_flag flags BFFastAdd = true -> valid (arenaOf s) (blocksOf s) x) ->
  exists s' r D', extend x b flags s = (s', r) /\ same_nodes s s' /\ chain_ok D' s' (match r with Ok _ => x | _ => t end) /\ (forall v, r = Ok v -> v = true).
Proof.
  intros H Hlk Hfast. pose proof (co_core _ _ _ H) as Hc. pose proof (core_arena _ _ Hc) as Hw. pose proof (lk_node _ _ _ _ _ Hlk) as Hx.
  unfold extendBestChain. rewrite status_bind. set (fastAdd := has_flag flags BFFastAdd || _).
  assert (Hcheck : exists s1 r, (if fastAdd then retM tt else check_extend x b) s = (s1, r) /\ still D (ledger (arenaOf s) (blocksOf s) t) t s s1 /\
    (r = Ok tt -> valid (arenaOf s1) (blocksOf s1) x)).
  { destruct fastAdd eqn:Ef; [|now apply checkExtend_ok]. exists s, (Ok tt). split; [reflexivity|]. split; [exact (still_refl D _ t s Hc (co_set _ _ _ H))|]. intros _.
    apply orb_true_iff in Ef. destruct Ef as [Ef|Ef]; [now apply Hfast | now apply (ck_known _ _ Hc)]. }
  destruct Hcheck as (s1 & r & E & Hst & Hr). unfold bindM at 1. rewrite E. pose proof (still_chain D s s1 t H Hst) as H1. pose proof (sl_nodes _ _ _ _ _ Hst) as Hn.
  destruct r as [[]|e|]; [|exists s1; eexists _, D; (split; [reflexivity|]; split; [exact Hn|]; split; [exact H1 | discriminate])..].
  destruct (connect_cached_ok D s1 t x b fastAdd H1 (linked_nodes s s1 Hn Hw x t b Hlk) (Hr eq_refl)) as (s2 & D2 & E2 & Hn2 & H2).
  exists s2, (Ok true), D2. split; [exact E2|]. split; [exact (same_nodes_trans _ _ _ Hn Hn2)|]. split; [exact H2|]. now intros v [= <-].
Qed.

(** ** The best chain *)

Abbreviation connectBest := (connectBestChain ParsePubKey SerializeUncompressed CalculateRoughMapSize CalculateMinEntries iter DoubleHash params
  checkBlockScripts dbByHash now adjustedTime).

Lemma chain_flushed D s t : chain_ok D s t -> chain_ok D (flushed s) t.
Proof. intros [H Hs Hf]. split; [now apply core_flushed | now apply set_flushed | exact Hf]. Qed.

(** What a reorganization to the node [x] does to a chain with the tip [t]: a
    new tip is reached over nodes that were not known to be invalid. *)
Record switched {A} (y : A) (s s' : chainState) (t x t' : nat) (r : outcome ruleErr A) : Prop := {
  sw_nodes : same_nodes s s';
  sw_where : t' = t \/ t' = x /\ r = Ok y /\ exists f attach, (f < List.length (arenaOf s))%nat /\ on_branch (arenaOf s) t f /\ up (arenaOf s) x f attach /\
    Forall (fun n => KnownInvalid (NodeStatus (ch_index s) n) = false) attach;
  sw_told : r = Ok y -> t' = x \/ KnownInvalid (NodeStatus (ch_index s') x) = true
}.

Lemma switch_ok {A} (y : A) D s t x p : chain_ok D s t -> (x < List.length (arenaOf s))%nat -> bn_parent (deref (arenaOf s) x) = Some p ->
  exists s' r D' t', (do! (detachNodes, attachNodes) := getReorganizeNodes x in
      do! r := tryM (reorganize detachNodes attachNodes) in
      flushToDB ;!
      match r with Ok _ => retM y | Err e => throwM e | Panic => panicM end) s = (s', r) /\ chain_ok D' s' t' /\ switched y s s' t x t' r.
Proof.
  intros H Hx Hp. destruct (getReorganizeNodes_ok D s t x p H Hx Hp) as (s1 & detach & attach & E & Hst & Hcase).
  pose proof (still_chain D s s1 t H Hst) as H1. pose proof (sl_nodes _ _ _ _ _ Hst) as Hn. unfold bindM at 1. rewrite E.
  assert (Htree : same_nodes s (flushed s1)) by (apply (same_nodes_trans _ _ _ Hn), same_tree_nodes; now split).
  destruct Hcase as [(-> & -> & Hinv)|(-> & f & Hd & Hu & Hni)].
  - exists (flushed s1), (Ok y), D, t. split; [reflexivity|]. split; [now apply chain_flushed|]. split; [exact Htree | now left|].
    intros _. right. exact Hinv.
  - pose proof (core_arena _ _ (co_core _ _ _ H)) as Hw. destruct (down_lt _ Hw f t detach (core_tip _ _ (co_core _ _ _ H)) Hd) as [_ Hbf].
    destruct (reorganize_ok D s t f x detach attach H Hd Hu Hx) as (s2 & r & D2 & E2 & Hn2 & H2). unfold tryM. unfold bindM at 1. rewrite E2.
    assert (Hn4 : same_nodes s (flushed s2)) by (apply (same_nodes_trans _ _ _ Hn2), same_tree_nodes; now split).
    pose proof (down_end _ Hw f t detach (core_tip _ _ (co_core _ _ _ H)) Hd) as Hf.
    destruct r as [[]|e|].
    + exists (flushed s2), (Ok y), D2, x. split; [reflexivity|]. split; [now apply chain_flushed|]. split; [exact Hn4 | right; eauto 9 | now left].
    + exists (flushed s2), (Err e), D2, t. split; [reflexivity|]. split; [now apply chain_flushed|]. split; [exact Hn4 | now left | discriminate].
    + exists s2, Panic, D2, t. split; [reflexivity|]. split; [exact H2|]. split; [exact Hn2 | now left | discriminate].
Qed.

(** What connecting a block for the node [x] does to a chain with the tip [t]. *)
Record moved (s s' : chainState) (t x t' : nat) (r : outcome ruleErr bool) : Prop := {
  mv_nodes : same_nodes s s';
  mv_where : t' = t \/ t' = x /\ r = Ok true;
  mv_work : bn_workSum (deref (arenaOf s) t) <= bn_workSum (deref (arenaOf s) t');
  mv_told : r = Ok true -> t' = x \/ KnownInvalid (NodeStatus (ch_index s') x) = true
}.

Lemma switched_moved s s' t x t' r : switched true s s' t x t' r -> bn_workSum (deref (arenaOf s) t) < bn_workSum (deref (arenaOf s) x) -> moved s s' t x t' r.
Proof. intros [Hn Hw Ht] Hlt. split; [exact Hn | | | exact Ht]; destruct Hw as [->|(-> & -> & _)]; auto; lia. Qed.

Lemma work_parent a x p : arena_wf a -> (x < List.length a)%nat -> bn_parent (deref a x) = Some p -> bn_workSum (deref a p) <= bn_workSum (deref a x).
Proof.
  intros Hw Hx Hp. pose proof (aw_nodes a Hw x Hx) as Hn. unfold node_wf in Hn. rewrite Hp in Hn. destruct Hn as (_ & _ & _ & ->).
  pose proof (CalcWork_range (bn_bits (deref a x))). lia.
Qed.

Lemma connectBest_ok D s t x p b flags : chain_ok D s t -> linked (arenaOf s) (blocksOf s) x p b ->
  (has_flag flags BFFastAdd = true -> valid (arenaOf s) (blocksOf s) x) ->
  exists s' r D' t', connectBest x b flags s = (s', r) /\ chain_ok D' s' t' /\ moved s s' t x t' r.
Proof.
  intros H Hlk Hfast. pose proof (co_core _ _ _ H) as Hc. pose proof (core_arena _ _ Hc) as Hw. pose proof Hlk as [Hx Hp _ Hst].
  destruct (height_parent _ x p Hw Hx Hp) as (_ & Hpl & _). unfold connectBestChain. rewrite (bind_Ok _ _ _ _ _ (core_tipM _ _ Hc)), node_bind.
  destruct (bytes_eqb (prevBlock b) _) eqn:Eb.
  - apply bytes_eqb_eq in Eb. unfold prevBlock in Eb. rewrite (sb_prev _ _ _ _ _ _ Hst) in Eb. apply (tree_inj _ (ck_tree _ _ Hc) p t Hpl (core_tip _ _ Hc)) in Eb. subst p.
    destruct (extend_ok D s t x b flags H Hlk Hfast) as (s' & r & D' & E & Hn & H' & Hr). exists s', r, D', (match r with Ok _ => x | _ => t end).
    split; [exact E|]. split; [exact H'|]. split; [exact Hn| | |].
    + destruct r as [v|e|]; [right|now left..]. now rewrite (Hr v eq_refl).
    + destruct r; [|reflexivity..]. exact (work_parent _ x t Hw Hx Hp).
    + intros ->. now left.
  - rewrite node_bind. destruct (Z.leb_spec (bn_workSum (deref (arenaOf s) x)) (bn_workSum (deref (arenaOf s) t))) as [Hle|Hgt].
    + rewrite get_bind. destruct (fork_exists s t x Hc Hx) as (f & -> & _). exists s, (Ok false), D, t. split; [reflexivity|]. split; [exact H|].
      split; [apply same_nodes_refl | now left | reflexivity | discriminate].
    + destruct (switch_ok true D s t x p H Hx Hp) as (s' & r & D' & t' & E & H' & Hs). exists s', r, D', t'. split; [exact E|]. split; [exact H'|].
      now apply switched_moved.
Qed.
End Reorg.
