(* ===== verification/Accept.v ===== *)
(** * Accepting blocks

    What comes in changes the tree of headers and the stored blocks before it
    changes the best chain.  A new header or block keeps the invariant of the
    chain, whatever the checks say, and processing a block keeps it together
    with everything that follows: the orphans that wait for the block, the
    reorganizations they cause, and the errors on the way. *)

From Stdlib Require Import ZArith List Lia Bool String.
From stdpp Require Import gmap.
From S2P Require Import Prelude GoSlice GoIO WireCommon WireTx WireMsgs Merkle Compress Script Difficulty ChainIO BlockIndex ChainView Retarget Index Threshold Growth UtxoView UtxoCache Rules Connect Supply ViewSync Branches Chain Orphans Reorg.
Import ListNotations.
Local Open Scope string_scope.
Local Open Scope list_scope.
Local Open Scope Z_scope.
Local Open Scope go_scope.
Local Open Scope chain_scope.

#[local] Arguments core_arena {PubKey ParsePubKey DoubleHash params W} s t _.
#[local] Arguments core_tip {PubKey ParsePubKey DoubleHash params W} s t _.
#[local] Arguments ck_valid {PubKey ParsePubKey DoubleHash params W s t} _.
#[local] Arguments ck_view {PubKey ParsePubKey DoubleHash params W s t} _.
#[local] Arguments ck_tree {PubKey ParsePubKey DoubleHash params W s t} _.
#[local] Arguments ck_votes {PubKey ParsePubKey DoubleHash params W s t} _.
#[local] Arguments ck_links {PubKey ParsePubKey DoubleHash params W s t} _.
#[local] Arguments ck_blocks {PubKey ParsePubKey DoubleHash params W s t} _.
#[local] Arguments ck_root {PubKey ParsePubKey DoubleHash params W s t} _.
#[local] Arguments ck_known {PubKey ParsePubKey DoubleHash params W s t} _.
#[local] Arguments ck_journal {PubKey ParsePubKey DoubleHash params W s t} _.
#[local] Arguments ck_main {PubKey ParsePubKey DoubleHash params W s t} _.
#[local] Arguments ck_header {PubKey ParsePubKey DoubleHash params W s t} _.
#[local] Arguments ck_snapshot {PubKey ParsePubKey DoubleHash params W s t} _.
#[local] Arguments co_core {PubKey ParsePubKey DoubleHash params W D s t} _.
#[local] Arguments co_set {PubKey ParsePubKey DoubleHash params W D s t} _.
#[local] Arguments co_from {PubKey ParsePubKey DoubleHash params W D s t} _.

Section Accept.
Context {PubKey : Type} (ParsePubKey : list Z -> option PubKey)
        (SerializeUncompressed : PubKey -> list Z).
Context (CalculateRoughMapSize : Z -> Z -> Z) (CalculateMinEntries : Z -> Z -> Z).
Context (iter : entryMap -> list (OutPoint * option UtxoEntry)).
Context (DoubleHash : list Z -> list Z).
Context (params : RuleParams).
Context (checkBlockScripts : Block -> UtxoViewpoint -> Z -> verdict).
Context (dbByHash : utxoDB -> list Z -> outcome chainErr (option UtxoEntry)).
Context (now adjustedTime : Z).
Context (W : universe).
Hypothesis forms : pubkey_forms ParsePubKey SerializeUncompressed.
Hypothesis iter_all : forall m, iter m ≡ₚ map_to_list m.
Hypothesis hash_len : forall l, len (DoubleHash l) = 32.
Hypothesis Hvp : votes_ok (rp_votes params).
Hypothesis HW : universe_ok DoubleHash W.

Abbreviation ledger a B := (ledgerAt DoubleHash a B).
Abbreviation valid a B := (valid_to DoubleHash params a B).
Abbreviation core := (chain_core ParsePubKey DoubleHash params W).
Abbreviation ok := (chain_ok ParsePubKey DoubleHash params W).
Abbreviation spent := (spentAt DoubleHash).

(** ** A tree that grows *)

(** New nodes and stored blocks, and new statuses; the rest is as it was. *)
Record grows (s s' : chainState) : Prop := {
  gr_extends : extends (arenaOf s) (arenaOf s');
  gr_blocks : blocksOf s ⊆ blocksOf s';
  gr_best : ch_bestChain s' = ch_bestChain s;
  gr_header : ch_bestHeader s' = ch_bestHeader s;
  gr_journal : cd_journal (ch_db s') = cd_journal (ch_db s);
  gr_hash : cd_hashIndex (ch_db s') = cd_hashIndex (ch_db s);
  gr_heights : cd_heightIndex (ch_db s') = cd_heightIndex (ch_db s);
  gr_votes : ch_warnings s' = ch_warnings s /\ ch_deployments s' = ch_deployments s;
  gr_snapshot : ch_snapshot s' = ch_snapshot s;
  gr_set : ch_cache s' = ch_cache s /\ cd_utxo (ch_db s') = cd_utxo (ch_db s)
}.

Section Grow.
Context (s s' : chainState) (t : nat).
Hypothesis Hg : grows s s'.
Hypothesis H : core s t.
Abbreviation a := (arenaOf s).
Abbreviation a' := (arenaOf s').
Abbreviation B := (blocksOf s).
Abbreviation B' := (blocksOf s').
Hypothesis Hw' : arena_wf a'.

Lemma grow_wf : arena_wf a.
Proof. exact (core_arena s t H). Qed.

Lemma grow_valid x : (x < List.length a)%nat -> valid a B x -> valid a' B' x.
Proof.
  intros Hx Hv. pose proof (gr_extends _ _ Hg) as He. pose proof (ex_length _ _ He).
  apply (valid_to_grow DoubleHash params a' Hw' B B' (gr_blocks _ _ Hg)); [lia|].
  exact (valid_to_extends DoubleHash params a B grow_wf a' He x Hx Hv).
Qed.

Lemma grow_chain x : (x < List.length a)%nat -> valid a B x -> chainTo a' B' x = chainTo a B x.
Proof.
  intros Hx Hv. pose proof (gr_extends _ _ Hg) as He. pose proof (ex_length _ _ He).
  rewrite (chainTo_grow DoubleHash params a' Hw' B B' (gr_blocks _ _ Hg) x); [|lia | exact (valid_to_extends DoubleHash params a B grow_wf a' He x Hx Hv)].
  exact (chainTo_extends a B grow_wf a' He x Hx).
Qed.

Lemma grow_ledger x : (x < List.length a)%nat -> valid a B x -> ledger a' B' x = ledger a B x.
Proof. intros Hx Hv. unfold ledgerAt. now rewrite (grow_chain x Hx Hv). Qed.

Lemma grow_block x b : (x < List.length a)%nat -> valid a B x -> blockOf a' B' x = Some b -> blockOf a B x = Some b.
Proof.
  intros Hx Hv Hb. rewrite (blockOf_extends a B' a' (gr_extends _ _ Hg) x Hx) in Hb.
  assert (Hb0 : exists b0, blockOf a B x = Some b0) by (destruct Hv as [y b0 _ E _|y p b0 _ _ E _ _]; eauto). destruct Hb0 as [b0 Hb0].
  rewrite (blockOf_grow a B B' (gr_blocks _ _ Hg) x b0 Hb0) in Hb. congruence.
Qed.

Lemma grow_journal x p b : (x < List.length a)%nat -> on_branch a t x -> bn_parent (deref a' x) = Some p -> blockOf a' B' x = Some b ->
  exists j, serializeSpendJournalEntry ParsePubKey (spent a' B' p b) = Ok j /\ cd_journal (ch_db s') !! bn_hash (deref a' x) = Some j.
Proof.
  intros Hx Hbr Hp Hb. pose proof (gr_extends _ _ Hg) as He. pose proof grow_wf as Hw. rewrite (ex_parent a a' He x Hx) in Hp.
  pose proof (valid_branch DoubleHash params a B Hw t x (core_tip s t H) Hx (ck_valid H) Hbr) as Hv. apply (grow_block x b Hx Hv) in Hb.
  destruct (height_parent a x p Hw Hx Hp) as (_ & Hpl & _).
  pose proof (valid_branch DoubleHash params a B Hw t p (core_tip s t H) Hpl (ck_valid H) (on_branch_step a t x p Hw (core_tip s t H) Hx Hbr Hp)) as Hvp'.
  rewrite (ex_hash a a' He x Hx), (gr_journal _ _ Hg). unfold spentAt. rewrite (grow_ledger p Hpl Hvp'). exact (ck_journal H x p b Hx Hbr Hp Hb).
Qed.

Lemma grow_branch x : (x < List.length a')%nat -> on_branch a' t x <-> (x < List.length a)%nat /\ on_branch a t x.
Proof.
  intros Hx. pose proof (gr_extends _ _ Hg) as He. pose proof (core_tip s t H) as Ht. pose proof grow_wf as Hw. split.
  - intros Hb. assert (Hxa : (x < List.length a)%nat) by (apply (on_branch_old a a' Hw He t x Ht Hb), (aw_height a' Hw' x Hx)).
    split; [exact Hxa | now apply (on_branch_extends a a' Hw He t x Ht Hxa)].
  - intros [Hxa Hb]. now apply (on_branch_extends a a' Hw He t x Ht Hxa).
Qed.

Lemma grow_main : main_index a' (ch_db s') t.
Proof.
  pose proof (gr_extends _ _ Hg) as He. pose proof (core_tip s t H) as Ht. destruct (ck_main H) as [M1 M2 M3 M4].
  pose proof (ex_length _ _ He). split; rewrite ?(gr_hash _ _ Hg), ?(gr_heights _ _ Hg).
  - intros x Hx Hb. apply (grow_branch x Hx) in Hb. destruct Hb as [Hxa Hb]. rewrite (ex_hash a a' He x Hxa), (ex_height a a' He x Hxa). now apply M1.
  - intros h Hh. destruct (M2 h Hh) as (x & Hx & Hb & E). exists x. split; [lia|]. split; [apply grow_branch; [lia | now split]|]. now rewrite (ex_hash a a' He x Hx).
  - intros x Hx Hb. apply (grow_branch x Hx) in Hb. destruct Hb as [Hxa Hb]. rewrite (ex_hash a a' He x Hxa), (ex_height a a' He x Hxa). now apply M3.
  - intros h. rewrite (ex_height a a' He t Ht). apply M4.
Qed.

Hypothesis Htree : tree_ok (ch_index s').
Hypothesis Hroot : forall x, (x < List.length a')%nat -> bn_parent (deref a' x) = None -> x = 0%nat.
Hypothesis Hlinks : links_ok W a'.
Hypothesis Hblocks : blocks_ok DoubleHash W B'.
Hypothesis Hknown : forall x, (x < List.length a')%nat -> KnownValid (bn_status (deref a' x)) = true ->
  (x < List.length a)%nat /\ KnownValid (bn_status (deref a x)) = true.

Lemma core_grow : core s' t.
Proof.
  pose proof (gr_extends _ _ Hg) as He. pose proof (core_tip s t H) as Ht. pose proof grow_wf as Hw. split; auto.
  - destruct (ck_header H) as [h Hh]. exists h. rewrite (gr_header _ _ Hg). exact (view_ok_extends a a' Hw He _ _ Hh).
  - rewrite (gr_best _ _ Hg). exact (view_ok_extends a a' Hw He _ _ (ck_view H)).
  - exact (grow_valid t Ht (ck_valid H)).
  - intros x Hx Hv. destruct (Hknown x Hx Hv) as [Hxa Hva]. exact (grow_valid x Hxa (ck_known H x Hxa Hva)).
  - intros x p b Hx Hbr Hp Hb. apply (grow_branch x Hx) in Hbr. destruct Hbr as [Hxa Hbr]. exact (grow_journal x p b Hxa Hbr Hp Hb).
  - exact grow_main.
  - destruct (gr_votes _ _ Hg) as [-> ->]. exact (all_ok_extends DoubleHash (ch_index s) (ch_index s') _ (ck_tree H) Htree Hvp He _ _ (ck_votes H)).
  - rewrite (gr_snapshot _ _ Hg), (ex_hash a a' He t Ht), (ex_height a a' He t Ht). exact (ck_snapshot H).
Qed.

Lemma chain_grow D : ok D s t -> ok D s' t.
Proof.
  intros [_ Hs Hf]. pose proof (core_tip s t H) as Ht. split; [exact core_grow| |].
  - rewrite (grow_ledger t Ht (ck_valid H)). destruct (gr_set _ _ Hg) as [Ec Eu]. destruct Hs as [Hs1 Hs2]. split; [now rewrite Ec, Eu | now rewrite Ec].
  - rewrite (grow_chain t Ht (ck_valid H)). exact Hf.
Qed.
End Grow.

(** ** A new node *)

Definition newNode (a : arena) (hdr : BlockHeader) (p : nat) (status : Z) : blockNode :=
  with_status (initBlockNode DoubleHash a hdr (Some p)) status.

Section Node.
Context (bi : blockIndex) (hdr : BlockHeader) (p : nat) (status : Z).
Abbreviation a := (bi_nodes bi).
Abbreviation n := (newNode a hdr p status).
Abbreviation bi' := (AddNode (mkIndex (a ++ [n]) (bi_index bi) (bi_dirty bi)) (List.length a)).
Hypothesis Htree : tree_ok bi.
Hypothesis Hp : (p < List.length a)%nat.
Hypothesis Hheight : height_of a p < maxViewHeight.
Hypothesis Hnew : LookupNode bi (BlockHash DoubleHash hdr) = None.
Hypothesis Htime : forall m, CalcPastMedianTime a p = Ok m -> m < bh_Timestamp hdr.
Hypothesis Hhdr : un_header W (BlockHash DoubleHash hdr) = Some hdr.

Lemma new_deref : deref (a ++ [n]) (List.length a) = n.
Proof. unfold deref. now rewrite app_nth2, Nat.sub_diag by lia. Qed.

Lemma new_wf : arena_wf (a ++ [n]).
Proof.
  pose proof (newBlockNode_ok DoubleHash a hdr (Some p) (to_wf bi Htree)) as Hn. cbn [newBlockNode] in Hn.
  destruct Hn as (Hw & _); [split; [exact Hp | unfold maxViewHeight, maxHeight in *; lia]|].
  apply (arena_wf_extends (a ++ [initBlockNode DoubleHash a hdr (Some p)])); [exact Hw | | now rewrite !length_app].
  split; [now rewrite !length_app|]. intros id Hid. rewrite length_app in Hid. cbn [List.length] in Hid.
  destruct (Nat.eq_dec id (List.length a)) as [->|Hne]; [|now rewrite !deref_app by lia].
  rewrite new_deref. unfold deref. now rewrite app_nth2, Nat.sub_diag by lia.
Qed.

Lemma new_cases id : (id < List.length (a ++ [n]))%nat -> (id < List.length a)%nat /\ deref (a ++ [n]) id = deref a id \/ id = List.length a /\ deref (a ++ [n]) id = n.
Proof.
  intros Hid. rewrite length_app in Hid. cbn [List.length] in Hid. destruct (Nat.eq_dec id (List.length a)) as [->|Hne]; [right; split; [reflexivity | apply new_deref]|].
  left. split; [lia | apply deref_app; lia].
Qed.

Lemma new_tree : tree_ok bi'.
Proof.
  split.
  - exact new_wf.
  - exact (index_ok_add bi n (to_index bi Htree) Hnew).
  - unfold LookupNode. cbn [AddNode addNode bi_index bi_nodes]. rewrite new_deref. rewrite lookup_insert_ne; [exact (to_zero bi Htree)|].
    intros E. change (bn_hash n) with (BlockHash DoubleHash hdr) in E. rewrite E, (proj1 (un_zero _ _ HW)) in Hhdr. discriminate.
  - intros id q m Hid Hq Hm. cbn [AddNode addNode bi_nodes] in *. pose proof (to_wf bi Htree) as Hw. pose proof (extends_app a [n]) as He.
    destruct (new_cases id Hid) as [[Hlt E]|[-> E]]; rewrite E in *.
    + destruct (height_parent a id q Hw Hlt Hq) as (_ & Hql & _). rewrite (CalcPastMedianTime_extends a _ Hw He q Hql) in Hm. exact (to_timely bi Htree id q m Hlt Hq Hm).
    + injection Hq as <-. rewrite (CalcPastMedianTime_extends a _ Hw He p Hp) in Hm. exact (Htime m Hm).
Qed.
End Node.

Lemma new_node_ok D s t hdr p status : ok D s t -> (p < List.length (arenaOf s))%nat -> height_of (arenaOf s) p < maxViewHeight ->
  LookupNode (ch_index s) (BlockHash DoubleHash hdr) = None -> (forall m, CalcPastMedianTime (arenaOf s) p = Ok m -> m < bh_Timestamp hdr) ->
  un_header W (BlockHash DoubleHash hdr) = Some hdr -> bh_PrevBlock hdr = bn_hash (deref (arenaOf s) p) -> KnownValid status = false ->
  ok D (with_index s (AddNode (mkIndex (arenaOf s ++ [newNode (arenaOf s) hdr p status]) (bi_index (ch_index s)) (bi_dirty (ch_index s)))
    (List.length (arenaOf s)))) t.
Proof.
  intros H Hp Hh Hnew Htime Hhdr Hprev Hst. pose proof (co_core H) as Hc. set (n := newNode (arenaOf s) hdr p status). set (s' := with_index s _).
  pose proof (new_wf (ch_index s) hdr p status (ck_tree Hc) Hp Hh) as Hw'. pose proof (core_arena s t Hc) as Hw.
  assert (Hcase : forall x, (x < List.length (arenaOf s'))%nat -> (x < List.length (arenaOf s))%nat /\ deref (arenaOf s') x = deref (arenaOf s) x \/
    x = List.length (arenaOf s) /\ deref (arenaOf s') x = n) by exact (new_cases (ch_index s) hdr p status Hp).
  assert (Hdp : deref (arenaOf s') p = deref (arenaOf s) p) by (cbn [s' with_index ch_index AddNode addNode bi_nodes]; now apply deref_app).
  apply (chain_grow s s' t); auto.
  - split; try reflexivity; try now split. apply extends_app.
  - exact (new_tree (ch_index s) hdr p status (ck_tree Hc) Hp Hh Hnew Htime Hhdr).
  - intros x Hx Hpx. destruct (Hcase x Hx) as [[Hlt E]|[-> E]]; rewrite E in Hpx; [now apply (ck_root Hc) | discriminate].
  - intros x Hx. unfold Header. destruct (Hcase x Hx) as [[Hlt E]|[-> E]]; rewrite E; cbn [bh_PrevBlock].
    + destruct (ck_links Hc x Hlt) as (hdr' & E1 & E2). exists hdr'. split; [exact E1|]. rewrite E2. unfold Header. cbn [bh_PrevBlock].
      destruct (bn_parent (deref (arenaOf s) x)) as [q|] eqn:Eq; [|reflexivity]. destruct (height_parent _ x q Hw Hlt Eq) as (_ & Hql & _).
      cbn [s' with_index ch_index AddNode addNode bi_nodes]. now rewrite deref_app.
    + exists hdr. split; [exact Hhdr|]. cbn [n newNode with_status initBlockNode bn_parent]. now rewrite Hdp.
  - exact (ck_blocks Hc).
  - intros x Hx Hk. destruct (Hcase x Hx) as [[Hlt E]|[-> E]]; rewrite E in Hk; [now split|]. cbn [n newNode with_status bn_status] in Hk. congruence.
Qed.

Lemma store_ok D s t b : ok D s t -> un_block W (blockHash DoubleHash b) = Some (blk_msg b) -> block_form DoubleHash (mkBlock (blk_msg b) 1) ->
  ok D (with_db s (dbStoreBlock DoubleHash (ch_db s) b)) t /\
  cd_blocks (dbStoreBlock DoubleHash (ch_db s) b) !! blockHash DoubleHash b = Some (blk_msg b).
Proof.
  intros H Hb Hf. pose proof (co_core H) as Hc. unfold dbStoreBlock. destruct (blocksOf s !! blockHash DoubleHash b) as [m|] eqn:E.
  - split; [now destruct s|]. rewrite E. destruct (ck_blocks Hc _ _ E) as [E' _]. congruence.
  - split; [|apply lookup_insert_eq]. apply (chain_grow s _ t); auto; try apply Hc.
    + split; try reflexivity; try now split. now apply insert_subseteq.
    + intros h m. cbn [with_db ch_db cd_blocks]. rewrite lookup_insert_Some. intros [[<- <-]|[_ Hm]]; [now split | now apply (ck_blocks Hc)].
Qed.

(** ** Accepting a block *)

Lemma lift_chain_Ok {A} (o : outcome chainErr A) x : lift_chain o = Ok x -> o = Ok x.
Proof. destruct o; [now intros [= ->] | discriminate..]. Qed.

Lemma checkBlockHeaderContext_time bi c hdr p flags cs cs' : has_flag flags BFFastAdd = false ->
  checkBlockHeaderContext DoubleHash params bi c hdr p flags cs = Ok cs' ->
  forall m, CalcPastMedianTime (bi_nodes bi) p = Ok m -> m < bh_Timestamp hdr.
Proof.
  intros Hf H m Hm. unfold checkBlockHeaderContext in H. rewrite Hf in H. apply obind_Ok in H. destruct H as (u & H & _).
  destruct (calcNextRequiredDifficulty _ _ _ _) as [d| |]; try discriminate. destruct (negb _); [discriminate|]. rewrite Hm in H.
  destruct (Z.ltb_spec m (bh_Timestamp hdr)); [assumption | discriminate].
Qed.

Lemma checkBlockContext_ok bi c b p flags cs caches cs' caches' : tree_ok bi -> has_flag flags BFFastAdd = false -> node_ok bi (Some p) ->
  caches_ok DoubleHash bi (rp_votes params) (Deployments (rp_votes params)) caches ->
  checkBlockContext DoubleHash params bi c b p flags cs caches = Ok (cs', caches') ->
  caches_ok DoubleHash bi (rp_votes params) (Deployments (rp_votes params)) caches' /\
  forall m, CalcPastMedianTime (bi_nodes bi) p = Ok m -> m < bh_Timestamp (mb_Header (blk_msg b)).
Proof.
  intros Ht Hf Hn Hc H. unfold checkBlockContext in H. apply obind_Ok in H. destruct H as (cs1 & Hh & H). rewrite Hf in H.
  split; [|exact (checkBlockHeaderContext_time bi c _ p flags cs cs1 Hf Hh)].
  apply obind_Ok in H. destruct H as ([st1 c1] & H1 & H). apply lift_chain_Ok in H1.
  apply (deploymentState_answers DoubleHash params Hvp bi Ht _ _ DeploymentCSV _ _ Hn ltac:(discriminate) Hc) in H1.
  apply obind_Ok in H. destruct H as (time & _ & H). destruct (negb _); [discriminate|]. apply obind_Ok in H. destruct H as (u1 & _ & H).
  apply obind_Ok in H. destruct H as ([st2 c2] & H2 & H). apply lift_chain_Ok in H2.
  apply (deploymentState_answers DoubleHash params Hvp bi Ht _ _ DeploymentSegwit _ _ Hn ltac:(discriminate) H1) in H2.
  apply obind_Ok in H. destruct H as (u2 & _ & H). now injection H as _ <-.
Qed.

(** What the invariant does not speak about. *)
Lemma checkpoint_ok D s t d cs : ok D s t -> all_ok DoubleHash (ch_index s) (rp_votes params) (ch_warnings s) d ->
  ok D (with_checkpoint (with_votes s d (ch_warnings s) (ch_warned s)) cs) t.
Proof.
  intros [Hc Hs Hf] Hd. split; [|split; apply Hs | exact Hf].
  apply (core_frame _ _ _ _ (with_votes s d (ch_warnings s) (ch_warned s))); [now split | now apply core_votes].
Qed.

Lemma header_ok D s t c h : ok D s t -> view_ok (arenaOf s) c (Some h) -> ok D (with_bestHeader s c) t.
Proof.
  intros [[H1 H2 H3 H4 H5 H6 H7 H8 H9 [M1 M2 M3 M4] H10 H11] Hs Hf] Hv. split; [|split; apply Hs | exact Hf]. split; auto; [now exists h | now split].
Qed.

Lemma new_arena a hdr p st : let (a1, id) := newBlockNode DoubleHash a hdr (Some p) in
  <[id := with_status (deref a1 id) st]> a1 = a ++ [newNode a hdr p st].
Proof.
  unfold newBlockNode, deref. rewrite app_nth2, Nat.sub_diag by lia. cbn [nth].
  etransitivity; [apply (insert_app_r_alt (A := blockNode) a); lia|]. now rewrite Nat.sub_diag.
Qed.

Lemma acceptNode_ok D s t b p : ok D s t -> sound_block DoubleHash W (blk_msg b) -> blocksOf s !! blockHash DoubleHash b = Some (blk_msg b) ->
  (p < List.length (arenaOf s))%nat -> bh_PrevBlock (mb_Header (blk_msg b)) = bn_hash (deref (arenaOf s) p) ->
  blk_height b = i32 (height_of (arenaOf s) p + 1) -> (forall m, CalcPastMedianTime (arenaOf s) p = Ok m -> m < bh_Timestamp (mb_Header (blk_msg b))) ->
  exists s' x, acceptNode DoubleHash b p s = (s', Ok x) /\ ok D s' t /\ linked DoubleHash (arenaOf s') (blocksOf s') x p b /\ extends (arenaOf s) (arenaOf s') /\
    blocksOf s' = blocksOf s.
Proof.
  intros H [Hb Hf] Hst Hp Hprev Hh Htime. pose proof (co_core H) as Hc. pose proof (core_arena s t Hc) as Hw.
  set (hdr := mb_Header (blk_msg b)) in *. pose proof (un_body _ _ HW _ _ Hb) as Hhdr. fold hdr in Hhdr.
  destruct (un_next _ _ HW _ _ Hhdr) as [Hnext Hmax]. rewrite Hprev in Hnext.
  destruct (links_height DoubleHash W HW _ Hw (ck_links Hc) p Hp) as [Hhp _]. pose proof (aw_height _ Hw p Hp) as Hpos.
  assert (Hlt : height_of (arenaOf s) p < maxViewHeight) by lia.
  assert (Hi : i32 (height_of (arenaOf s) p + 1) = height_of (arenaOf s) p + 1) by (apply i32_id; unfold is_i32, maxViewHeight in *; lia).
  unfold acceptNode. rewrite get_bind. destruct (LookupNode (ch_index s) (blockHash DoubleHash b)) as [x|] eqn:Ex.
  - destruct (io_sound _ (to_index _ (ck_tree Hc)) _ _ Ex) as [Hx Ehx]. destruct (ck_links Hc x Hx) as (hdr' & E1 & E2).
    change (blockHash DoubleHash b) with (BlockHash DoubleHash hdr) in Ehx. rewrite Ehx, Hhdr in E1. injection E1 as <-.
    assert (Hpx : bn_parent (deref (arenaOf s) x) = Some p).
    { unfold Header in E2. cbn [bh_PrevBlock] in E2. rewrite Hprev in E2. destruct (bn_parent (deref (arenaOf s) x)) as [q|] eqn:Eq.
      - destruct (height_parent _ x q Hw Hx Eq) as (_ & Hql & _). f_equal. symmetry. exact (tree_inj _ (ck_tree Hc) p q Hp Hql E2).
      - exfalso. pose proof (io_complete _ (to_index _ (ck_tree Hc)) p Hp) as Hcp. rewrite E2, (to_zero _ (ck_tree Hc)) in Hcp. discriminate. }
    assert (Hbx : blockOf (arenaOf s) (blocksOf s) x = Some b).
    { unfold blockOf. rewrite Ehx. change (BlockHash DoubleHash hdr) with (blockHash DoubleHash b). rewrite Hst.
      destruct (height_parent _ x p Hw Hx Hpx) as (_ & _ & Hhx). rewrite Hhx, <- Hi, <- Hh. now destruct b. }
    pose proof (status_nodes s x statusDataStored Hx) as Hn.
    eexists _, x. split; [reflexivity|]. split; [|split; [|split; [exact (sn_extends _ _ Hn) | reflexivity]]].
    + apply (still_chain ParsePubKey DoubleHash params W D s _ t H). apply still_status; [exact Hvp | exact (still_refl ParsePubKey DoubleHash params W D _ t s Hc (co_set H)) | exact Hx | now left].
    + apply (linked_nodes DoubleHash s _ Hn Hw x p b). split; [exact Hx | exact Hpx | exact Hbx|].
      exact (core_stored ParsePubKey DoubleHash params W HW s t x p b Hc Hx Hpx Hbx).
  - pose proof (new_arena (arenaOf s) hdr p statusDataStored) as Ea. unfold newBlockNode in Ea |- *. fold hdr. rewrite Ea.
    pose proof (new_node_ok D s t hdr p statusDataStored H Hp Hlt Ex Htime Hhdr Hprev eq_refl) as H'.
    set (s' := with_index s _) in *. exists s', (List.length (arenaOf s)). split; [reflexivity|]. split; [exact H'|]. split; [|split; [apply extends_app | reflexivity]].
    assert (Hd : deref (arenaOf s') (List.length (arenaOf s)) = newNode (arenaOf s) hdr p statusDataStored) by (apply new_deref; exact Hp).
    assert (Hx : (List.length (arenaOf s) < List.length (arenaOf s'))%nat) by (cbn [s' with_index ch_index AddNode addNode bi_nodes]; rewrite length_app; cbn; lia).
    assert (Hpx : bn_parent (deref (arenaOf s') (List.length (arenaOf s))) = Some p) by now rewrite Hd.
    assert (Hbx : blockOf (arenaOf s') (blocksOf s') (List.length (arenaOf s)) = Some b).
    { unfold blockOf, height_of. rewrite Hd. cbn [newNode with_status initBlockNode bn_hash bn_height]. change (BlockHash DoubleHash hdr) with (blockHash DoubleHash b).
      change (blocksOf s') with (blocksOf s). rewrite Hst, <- Hh. now destruct b. }
    split; [exact Hx | exact Hpx | exact Hbx|]. exact (core_stored ParsePubKey DoubleHash params W HW s' t _ p b (co_core H') Hx Hpx Hbx).
Qed.

Lemma raiseHeader_ok D s t x : ok D s t -> (x < List.length (arenaOf s))%nat ->
  exists s', raiseHeader x s = (s', Ok tt) /\ ok D s' t /\ same_tree s s'.
Proof.
  intros H Hx. pose proof (co_core H) as Hc. pose proof (core_arena s t Hc) as Hw. destruct (ck_header Hc) as [h Hh].
  unfold raiseHeader. rewrite get_bind, (tip_spec _ _ _ Hw Hh). destruct (_ <? _); [|exists s; split; [reflexivity | now split]].
  destruct (setTip_ok _ _ _ x Hw Hh Hx (core_heights ParsePubKey DoubleHash params W HW s t x Hc Hx)) as (c & E & Hv).
  exists (with_bestHeader s c). split; [|split; [exact (header_ok D s t c x H Hv) | now split]].
  unfold setHeaderTipM, bindM, getM, liftU, liftM, modifyM. now rewrite E.
Qed.

Abbreviation maybeAccept := (maybeAcceptBlock ParsePubKey SerializeUncompressed CalculateRoughMapSize CalculateMinEntries iter DoubleHash params
  checkBlockScripts dbByHash now adjustedTime).

(** What accepting a block does to a chain with the tip [t]. *)
Record advance (msg : MsgBlock) (s s' : chainState) (t t' : nat) (r : outcome ruleErr bool) : Prop := {
  ad_extends : extends (arenaOf s) (arenaOf s');
  ad_blocks : blocksOf s ⊆ blocksOf s';
  ad_work : bn_workSum (deref (arenaOf s) t) <= bn_workSum (deref (arenaOf s') t');
  ad_where : t' = t \/ bn_hash (deref (arenaOf s') t') = BlockHash DoubleHash (mb_Header msg) /\ r = Ok true;
  ad_told : r = Ok true -> exists x, (x < List.length (arenaOf s'))%nat /\ bn_hash (deref (arenaOf s') x) = BlockHash DoubleHash (mb_Header msg) /\
    (t' = x \/ KnownInvalid (NodeStatus (ch_index s') x) = true);
  ad_stored : forall main, r = Ok main -> blocksOf s' !! BlockHash DoubleHash (mb_Header msg) = Some msg
}.

Lemma advance_none msg s s' t r : (t < List.length (arenaOf s))%nat -> extends (arenaOf s) (arenaOf s') -> blocksOf s ⊆ blocksOf s' -> r <> Ok true ->
  (forall main, r = Ok main -> blocksOf s' !! BlockHash DoubleHash (mb_Header msg) = Some msg) -> advance msg s s' t t r.
Proof. intros Ht He Hb Hr Hs. split; [exact He | exact Hb | rewrite (ex_work _ _ He t Ht); lia | now left | congruence | exact Hs]. Qed.

(** The part of the work that starts when the block is stored. *)
Lemma accept_stored D s t b p flags : ok D s t -> sound_block DoubleHash W (blk_msg b) -> has_flag flags BFFastAdd = false ->
  (p < List.length (arenaOf s))%nat -> bh_PrevBlock (mb_Header (blk_msg b)) = bn_hash (deref (arenaOf s) p) ->
  blk_height b = i32 (height_of (arenaOf s) p + 1) -> (forall m, CalcPastMedianTime (arenaOf s) p = Ok m -> m < bh_Timestamp (mb_Header (blk_msg b))) ->
  exists s' r D' t', (dbM (fun db => Ok (dbStoreBlock DoubleHash db b)) ;!
      do! node := acceptNode DoubleHash b p in
      flushToDB ;!
      do! isMainChain := connectBestChain ParsePubKey SerializeUncompressed CalculateRoughMapSize CalculateMinEntries iter DoubleHash params
        checkBlockScripts dbByHash now adjustedTime node b flags in
      (if isMainChain : bool then raiseHeader node else retM tt) ;!
      retM isMainChain) s = (s', r) /\ ok D' s' t' /\ advance (blk_msg b) s s' t t' r.
Proof.
  intros H Hsb Hfast Hp Hprev Hh Htime. destruct (store_ok D s t b H (proj1 Hsb) (proj2 Hsb)) as [H1 Hst].
  erewrite bind_Ok by (apply dbM_ok; reflexivity). set (s1 := with_db s _) in *.
  destruct (acceptNode_ok D s1 t b p H1 Hsb Hst Hp Hprev Hh Htime) as (s2 & x & E2 & H2 & Hlk & He & Eb2). rewrite (bind_Ok _ _ _ _ _ E2), (bind_Ok _ _ _ _ _ (flushToDB_eq s2)).
  pose proof (chain_flushed ParsePubKey DoubleHash params Hvp W D s2 t H2) as H3.
  assert (Hlk3 : linked DoubleHash (arenaOf (flushed s2)) (blocksOf (flushed s2)) x p b) by exact Hlk.
  destruct (connectBest_ok ParsePubKey SerializeUncompressed CalculateRoughMapSize CalculateMinEntries iter DoubleHash params checkBlockScripts dbByHash now adjustedTime
    forms iter_all hash_len Hvp W HW D (flushed s2) t x p b flags H3 Hlk3 ltac:(congruence)) as (s4 & r & D4 & t4 & E4 & H4 & [Hn4 Hwh Hwk Htold]).
  unfold bindM at 1. rewrite E4. pose proof (core_tip _ _ (co_core H)) as Ht. pose proof (sn_extends _ _ Hn4) as He4.
  pose proof (lk_node _ _ _ _ _ _ Hlk3) as Hx. assert (He' : extends (arenaOf s) (arenaOf s4)) by exact (extends_trans _ _ _ He He4).
  assert (Hhash : bn_hash (deref (arenaOf s4) x) = blockHash DoubleHash b) by (rewrite (ex_hash _ _ He4 x Hx); symmetry; exact (sb_hash _ _ _ _ _ _ (lk_stored _ _ _ _ _ _ Hlk3))).
  assert (Hsub : blocksOf s ⊆ blocksOf s4 /\ blocksOf s4 !! blockHash DoubleHash b = Some (blk_msg b)).
  { rewrite (sn_blocks _ _ Hn4). change (blocksOf (flushed s2)) with (blocksOf s2). rewrite Eb2. split; [|exact Hst].
    unfold s1. cbn [with_db ch_db]. unfold dbStoreBlock. destruct (blocksOf s !! blockHash DoubleHash b) eqn:Eb; [reflexivity | now apply insert_subseteq]. }
  destruct Hsub as [Hsub Hst4].
  destruct r as [main|e|].
  2, 3: destruct Hwh as [->|[_ Hr]]; [|discriminate]; eexists _, _, D4, t; (split; [reflexivity|]); (split; [exact H4|]); (apply advance_none; [exact Ht | exact He' | exact Hsub | discriminate | discriminate]).
  assert (Hw4 : bn_workSum (deref (arenaOf s) t) <= bn_workSum (deref (arenaOf s4) t4)).
  { assert (Ht4 : (t4 < List.length (arenaOf (flushed s2)))%nat) by (rewrite <- (sn_length _ _ Hn4); exact (core_tip _ _ (co_core H4))).
    pose proof (ex_work _ _ He t Ht : _ = bn_workSum (deref (arenaOf s) t)) as Ew. rewrite (ex_work _ _ He4 t4 Ht4), <- Ew. exact Hwk. }
  assert (Hx4 : (x < List.length (arenaOf s4))%nat) by now rewrite (sn_length _ _ Hn4).
  destruct main.
  - destruct (raiseHeader_ok D4 s4 t4 x H4 Hx4) as (s5 & E5 & H5 & [Ea Eb]). rewrite (bind_Ok _ _ _ _ _ E5). exists s5, (Ok true), D4, t4.
    split; [reflexivity|]. split; [exact H5|]. unfold NodeStatus. split; rewrite ?Ea, ?Eb; [exact He' | exact Hsub | exact Hw4 | | | intros _ _; exact Hst4].
    + destruct Hwh as [->|[-> _]]; [now left | right; now split].
    + intros _. exists x. unfold NodeStatus. rewrite Ea. split; [exact Hx4|]. split; [exact Hhash | exact (Htold eq_refl)].
  - destruct Hwh as [->|[_ Hr]]; [|discriminate]. exists s4, (Ok false), D4, t. split; [reflexivity|]. split; [exact H4|]. apply advance_none; [exact Ht | exact He' | exact Hsub | discriminate | now intros]. 
Qed.

Lemma maybeAccept_ok D s t msg flags : ok D s t -> sound_block DoubleHash W msg -> has_flag flags BFFastAdd = false ->
  exists s' r D' t', maybeAccept msg flags s = (s', r) /\ ok D' s' t' /\ advance msg s s' t t' r.
Proof.
  intros H Hsb Hfast. pose proof (co_core H) as Hc. pose proof (core_arena s t Hc) as Hw. pose proof (core_tip s t Hc) as Ht.
  assert (Hfail : forall r, (forall main, r <> Ok main) -> exists s' r' D' t', (s, r) = (s', r') /\ ok D' s' t' /\ advance msg s s' t t' r').
  { intros r Hr. exists s, r, D, t. split; [reflexivity|]. split; [exact H|]. apply advance_none; [exact Ht | apply extends_refl | reflexivity | apply Hr | intros main E; now contradiction (Hr main)]. }
  unfold maybeAcceptBlock. rewrite get_bind. destruct (LookupNode (ch_index s) _) as [p|] eqn:Ep; [|now apply Hfail].
  destruct (io_sound _ (to_index _ (ck_tree Hc)) _ _ Ep) as [Hp Ehp]. destruct (KnownInvalid _); [now apply Hfail|].
  set (b := mkBlock msg _). unfold liftM at 1. unfold bindM at 1.
  destruct (checkBlockContext _ _ _ _ b p flags _ _) as [[cs d]| |] eqn:Ec; [|now apply Hfail..].
  destruct (ck_votes Hc) as (Hv1 & Hv2 & Hv3).
  assert (Hnode : node_ok (ch_index s) (Some p)).
  { split; [exact Hp|]. pose proof (core_heights ParsePubKey DoubleHash params W HW s t p Hc Hp). unfold maxViewHeight, maxHeight in *. lia. }
  destruct (checkBlockContext_ok _ _ b p flags _ _ _ _ (ck_tree Hc) Hfast Hnode Hv3 Ec) as [Hd Htime].
  assert (H1 : ok D (with_checkpoint (with_votes s d (ch_warnings s) (ch_warned s)) cs) t) by (apply checkpoint_ok; [exact H | now split]).
  unfold bindM at 1, modifyM. set (s1 := with_checkpoint _ cs) in *.
  destruct (accept_stored D s1 t b p flags H1 Hsb Hfast Hp (eq_sym Ehp) eq_refl Htime) as (s' & r & D' & t' & E & H' & [A1 A2 A3 A4 A5 A6]).
  exists s', r, D', t'. split; [exact E|]. split; [exact H' | now split].
Qed.

(** ** Accepting a header *)

Lemma newNode_none a hdr p : initBlockNode DoubleHash a hdr (Some p) = newNode a hdr p statusNone.
Proof. reflexivity. Qed.

Lemma selectHeader_ok D s t x prev : ok D s t -> (x < List.length (arenaOf s))%nat ->
  exists s' r, selectHeader x prev s = (s', r) /\ ok D s' t /\ same_tree s s'.
Proof.
  intros H Hx. pose proof (co_core H) as Hc. pose proof (core_arena s t Hc) as Hw. destruct (ck_header Hc) as [h Hh].
  destruct (setTip_ok _ _ _ x Hw Hh Hx (core_heights ParsePubKey DoubleHash params W HW s t x Hc Hx)) as (c & E & Hv).
  assert (Hset : (setHeaderTipM x ;! retM true) s = (with_bestHeader s c, Ok true)).
  { unfold setHeaderTipM, bindM, getM, liftU, liftM, modifyM. now rewrite E. }
  assert (Hok : ok D (with_bestHeader s c) t /\ same_tree s (with_bestHeader s c)) by (split; [exact (header_ok D s t c x H Hv) | now split]).
  assert (Hs : ok D s t /\ same_tree s s) by (split; [exact H | now split]).
  unfold selectHeader. rewrite get_bind, (tip_spec _ _ _ Hw Hh). destruct (bytes_eqb _ _); [rewrite Hset; eauto|].
  destruct (_ <=? _); [|rewrite Hset; eauto]. destruct (findFork _ _ _); eauto.
Qed.

Abbreviation acceptHeader := (maybeAcceptBlockHeader DoubleHash params adjustedTime).

Lemma acceptHeader_ok D s t hdr flags : ok D s t -> un_header W (BlockHash DoubleHash hdr) = Some hdr -> has_flag flags BFFastAdd = false ->
  exists s' r, acceptHeader hdr flags s = (s', r) /\ ok D s' t /\ extends (arenaOf s) (arenaOf s') /\ blocksOf s' = blocksOf s.
Proof.
  intros H Hhdr Hfast. pose proof (co_core H) as Hc. pose proof (core_arena s t Hc) as Hw.
  assert (Hfail : forall r : outcome ruleErr bool, exists s' r', (s, r) = (s', r') /\ ok D s' t /\ extends (arenaOf s) (arenaOf s') /\ blocksOf s' = blocksOf s).
  { intros r. exists s, r. split; [reflexivity|]. split; [exact H|]. split; [apply extends_refl | reflexivity]. }
  unfold maybeAcceptBlockHeader. rewrite get_bind. set (found := LookupNode (ch_index s) (BlockHash DoubleHash hdr)).
  assert (Hknown : exists r, match found with None => retM false | Some node =>
      do! _ := liftM (checkKnownInvalidBlock (NodeStatus (ch_index s) node)) in
      retM (contains (arenaOf s) (ch_bestHeader s) node) end s = (s, r)).
  { destruct found; [|eauto]. unfold bindM, liftM. destruct (checkKnownInvalidBlock _); eauto. }
  destruct Hknown as [[known| |] Ek]; unfold bindM at 1; rewrite Ek; [|apply Hfail..]. destruct known; [apply Hfail|].
  unfold liftM at 1. unfold bindM at 1. destruct (checkBlockHeaderSanity _ _ _ _ _); [|apply Hfail..].
  destruct (LookupNode (ch_index s) (bh_PrevBlock hdr)) as [p|] eqn:Ep; [|apply Hfail].
  destruct (io_sound _ (to_index _ (ck_tree Hc)) _ _ Ep) as [Hp Ehp]. destruct (KnownInvalid _); [apply Hfail|].
  unfold liftM at 1. unfold bindM at 1. destruct (checkBlockHeaderContext _ _ _ _ _ _ _ _) as [cs| |] eqn:Ec; [|apply Hfail..].
  pose proof (checkBlockHeaderContext_time _ _ _ _ _ _ _ Hfast Ec) as Htime. unfold modifyM at 1. unfold bindM at 1.
  assert (H1 : ok D (with_checkpoint s cs) t) by (apply (checkpoint_ok D s t (ch_deployments s) cs H (ck_votes Hc))).
  set (s1 := with_checkpoint s cs) in *.
  assert (Hnode : exists s2 x, match found with Some node => retM node | None =>
      let (a, id) := newBlockNode DoubleHash (arenaOf s) hdr (Some p) in
      modifyM (fun s0 => with_index s0 (AddNode (mkIndex a (bi_index (ch_index s)) (bi_dirty (ch_index s))) id)) ;! retM id end s1 = (s2, Ok x) /\
    ok D s2 t /\ extends (arenaOf s) (arenaOf s2) /\ blocksOf s2 = blocksOf s /\ (x < List.length (arenaOf s2))%nat).
  { destruct found as [x|] eqn:Ef.
    - destruct (io_sound _ (to_index _ (ck_tree Hc)) _ _ Ef) as [Hx _]. exists s1, x. split; [reflexivity|]. split; [exact H1|]. split; [apply extends_refl|]. split; [reflexivity | exact Hx].
    - assert (Hlt : height_of (arenaOf s) p < maxViewHeight).
      { destruct (un_next _ _ HW _ _ Hhdr) as [E1 E2]. rewrite <- Ehp in E1. rewrite <- (proj1 (links_height DoubleHash W HW _ Hw (ck_links Hc) p Hp)) in E1. lia. }
      pose proof (new_node_ok D s1 t hdr p statusNone H1 Hp Hlt Ef Htime Hhdr (eq_sym Ehp) eq_refl) as H2.
      eexists _, _. split; [reflexivity|]. split; [exact H2|]. split; [apply extends_app|]. split; [reflexivity|]. cbn [with_index ch_index AddNode addNode bi_nodes]. rewrite length_app. cbn. lia. }
  destruct Hnode as (s2 & x & E2 & H2 & He & Hb & Hx). rewrite (bind_Ok _ _ _ _ _ E2), (bind_Ok _ _ _ _ _ (flushToDB_eq s2)).
  destruct (selectHeader_ok D (flushed s2) t x (bh_PrevBlock hdr) (chain_flushed ParsePubKey DoubleHash params Hvp W D s2 t H2) Hx) as (s3 & r & E3 & H3 & [Ea Eb]).
  exists s3, r. split; [exact E3|]. split; [exact H3|]. rewrite Ea. split; [exact He | now rewrite Eb].
Qed.

(** ** Processing a block *)

(** The chain with its pool of orphans. *)
Record node_state (D : utxoSet) (s : chainState) (t : nat) : Prop := {
  ns_chain : ok D s t;
  ns_pool : pool_ok DoubleHash W s
}.

(** The tree grows, and the best chain never gets less work. *)
Record progress (s s' : chainState) (t t' : nat) : Prop := {
  pr_extends : extends (arenaOf s) (arenaOf s');
  pr_blocks : blocksOf s ⊆ blocksOf s';
  pr_work : bn_workSum (deref (arenaOf s) t) <= bn_workSum (deref (arenaOf s') t')
}.

Lemma progress_refl s t : progress s s t t.
Proof. split; [apply extends_refl | reflexivity..]. Qed.

Lemma progress_trans s1 s2 s3 t1 t2 t3 : progress s1 s2 t1 t2 -> progress s2 s3 t2 t3 -> progress s1 s3 t1 t3.
Proof. intros [E1 B1 W1] [E2 B2 W2]. split; [exact (extends_trans _ _ _ E1 E2) | etransitivity; eassumption | lia]. Qed.

Lemma pool_only_ok D s s' t : pool_only s s' -> ok D s t -> ok D s' t /\ progress s s' t t.
Proof.
  intros E [Hc Hs Hf]. rewrite E. split; [|split; [apply extends_refl | reflexivity..]]. split; [|split; apply Hs | exact Hf].
  apply (core_frame _ _ _ _ s); [now split | exact Hc].
Qed.

Lemma pool_same s s' : poolOf s' = poolOf s -> pool_ok DoubleHash W s -> pool_ok DoubleHash W s'.
Proof.
  intros E. unfold poolOf in E. injection E as E1 E2 E3. intros [[P1 P2 P3 P4 P5] Hs Hst].
  split; [|now rewrite E1 | now rewrite E1, E3]. split; unfold waiting in *; rewrite ?E1, ?E2, ?E3; auto.
Qed.

Lemma pool_remove s o : pool_ok DoubleHash W s -> sound_block DoubleHash W (ob_block o) -> pool_ok DoubleHash W (removeOrphanBlock DoubleHash o s).
Proof.
  intros [Hp Hs Hst] Ho. destruct (remove_size DoubleHash o s) as [Hle _]. split; [now apply remove_wf | lia|]. intros H. specialize (Hst H). lia.
Qed.

Lemma accept_state D s t msg flags : node_state D s t -> sound_block DoubleHash W msg -> has_flag flags BFFastAdd = false ->
  exists s' r D' t', maybeAccept msg flags s = (s', r) /\ node_state D' s' t' /\ progress s s' t t' /\
    advance msg s s' t t' r.
Proof.
  intros [H Hp] Hm Hf. destruct (maybeAccept_ok D s t msg flags H Hm Hf) as (s' & r & D' & t' & E & H' & Had). exists s', r, D', t'.
  split; [exact E|]. split; [|split; [split; apply Had | exact Had]]. split; [exact H'|]. apply (pool_same s); [|exact Hp].
  pose proof (keeps_accept ParsePubKey SerializeUncompressed CalculateRoughMapSize CalculateMinEntries iter DoubleHash params checkBlockScripts
    dbByHash now adjustedTime msg flags s) as Hk. now rewrite E in Hk.
Qed.

Abbreviation queue := (processOrphans_loop ParsePubKey SerializeUncompressed CalculateRoughMapSize CalculateMinEntries iter DoubleHash params
  checkBlockScripts dbByHash now adjustedTime).

Lemma queue_ok flags : has_flag flags BFFastAdd = false -> forall fuel q D s t, node_state D s t ->
  exists s' r D' t', queue fuel q flags s = (s', r) /\ node_state D' s' t' /\ progress s s' t t'.
Proof.
  intros Hf. induction fuel as [|fuel IH]; intros q D s t H; (destruct q as [|h q]; [exists s, (Ok tt), D, t; split; [reflexivity|]; split; [exact H | apply progress_refl]|]).
  - exists s, Panic, D, t. split; [reflexivity|]. split; [exact H | apply progress_refl].
  - cbn [processOrphans_loop]. rewrite get_bind. destruct (ch_prevOrphans s !! h) as [[|o l]|] eqn:E; [exact (IH q D s t H) | | exact (IH q D s t H)].
    assert (Ho : sound_block DoubleHash W (ob_block o)).
    { apply (pw_sound _ _ s (po_wf _ _ s (ns_pool _ _ _ H)) h o). unfold waiting. rewrite E. apply list_elem_of_here. }
    set (s1 := removeOrphanBlock DoubleHash o s). destruct (pool_only_ok D s s1 t ltac:(reflexivity) (ns_chain _ _ _ H)) as [H1 Hp1].
    destruct (accept_state D s1 t (ob_block o) flags) as (s2 & r & D2 & t2 & E2 & H2 & Hp2 & _); [split; [exact H1 | exact (pool_remove s o (ns_pool _ _ _ H) Ho)] | exact Ho | exact Hf|].
    unfold bindM at 1, modifyM. fold s1. unfold bindM at 1. rewrite E2. pose proof (progress_trans _ _ _ _ _ _ Hp1 Hp2) as Hp12.
    destruct r as [b| |]; [|eexists _, _, D2, t2; (split; [reflexivity|]; now split)..].
    destruct (IH ((h :: q) ++ [orphanHash DoubleHash o]) D2 s2 t2 H2) as (s3 & r3 & D3 & t3 & E3 & H3 & Hp3). exists s3, r3, D3, t3.
    split; [exact E3|]. split; [exact H3 | exact (progress_trans _ _ _ _ _ _ Hp12 Hp3)].
Qed.

(** A block that comes in: its inputs have the types of the wire format, and no
    transaction spends an output of a later one. *)
Record incoming (msg : MsgBlock) : Prop := {
  in_world : un_block W (BlockHash DoubleHash (mb_Header msg)) = Some msg;
  in_inputs : Forall (fun tx => Forall ChainIO.outpoint_ok (spentBy tx)) (tl (mb_Transactions msg));
  in_ordered : ordered DoubleHash (mb_Transactions msg)
}.

Lemma sane_sound msg limit time flags : incoming msg -> checkBlockSanity DoubleHash (mkBlock msg (-1)) limit time flags = Ok tt -> sound_block DoubleHash W msg.
Proof.
  intros [H1 H2 H3] H. apply checkBlockSanity_spec in H. split; [exact H1|]. split; try exact H2; try exact H3; try apply H. cbn. lia.
Qed.

Lemma checkpoint_state D s t cs : node_state D s t -> node_state D (with_checkpoint s cs) t /\ progress s (with_checkpoint s cs) t t.
Proof.
  intros [[Hc Hs Hf] Hp]. split; [split|split; [apply extends_refl | reflexivity..]].
  - split; [|split; apply Hs | exact Hf]. apply (core_frame _ _ _ _ s); [now split | exact Hc].
  - now apply (pool_same s).
Qed.

Lemma againstCheckpoint_state D s t hdr flags : node_state D s t ->
  exists s' r, checkAgainstCheckpoint params hdr flags s = (s', r) /\ node_state D s' t /\ progress s s' t t /\ poolOf s' = poolOf s.
Proof.
  intros H. unfold checkAgainstCheckpoint. rewrite get_bind. unfold bindM at 1, liftC, liftM.
  destruct (lift_chain _) as [[node cs]| |]; [|exists s; eexists; (split; [reflexivity|]; split; [exact H|]; split; [apply progress_refl | reflexivity])..].
  destruct (checkpoint_state D s t cs H) as [H1 Hp1]. unfold bindM at 1, modifyM.
  assert (Hend : forall r : outcome ruleErr unit, exists s' r', (with_checkpoint s cs, r) = (s', r') /\ node_state D s' t /\ progress s s' t t /\ poolOf s' = poolOf s)
    by (intros r; exists (with_checkpoint s cs), r; auto).
  destruct node as [c|]; [|apply Hend]. destruct (_ <? _); [apply Hend|]. destruct (has_flag _ _); [apply Hend|]. destruct (_ <? _); apply Hend.
Qed.

Context (order : gmap (list Z) orphanBlock -> list (list Z * orphanBlock)).
Hypothesis order_all : forall m, order m ≡ₚ map_to_list m.

Abbreviation process := (ProcessBlock ParsePubKey SerializeUncompressed CalculateRoughMapSize CalculateMinEntries iter DoubleHash params
  checkBlockScripts dbByHash now adjustedTime order).

(** What the answer says: an orphan waits in the pool and changes nothing else,
    and any other block that is taken is stored. *)
Definition answered (msg : MsgBlock) (s' : chainState) (t t' : nat) (r : outcome ruleErr (bool * bool)) : Prop :=
  match r with
  | Ok (_, true) => IsKnownOrphan s' (BlockHash DoubleHash (mb_Header msg)) = true /\ t' = t
  | Ok (_, false) => blocksOf s' !! BlockHash DoubleHash (mb_Header msg) = Some msg
  | _ => True
  end.

(** A block that is not an orphan, and the orphans that wait for it. *)
Lemma accept_all D s t msg flags : node_state D s t -> sound_block DoubleHash W msg -> has_flag flags BFFastAdd = false ->
  exists s' r D' t', (do! isMainChain := maybeAccept msg flags in
      processOrphans ParsePubKey SerializeUncompressed CalculateRoughMapSize CalculateMinEntries iter DoubleHash params
        checkBlockScripts dbByHash now adjustedTime (BlockHash DoubleHash (mb_Header msg)) flags ;!
      retM (isMainChain, false)) s = (s', r) /\ node_state D' s' t' /\ progress s s' t t' /\ answered msg s' t t' r.
Proof.
  intros H Hm Hf. destruct (accept_state D s t msg flags H Hm Hf) as (s1 & r1 & D1 & t1 & E1 & H1 & Hp1 & Had). unfold bindM at 1. rewrite E1.
  destruct r1 as [main| |]; [|eexists _, _, D1, t1; (split; [reflexivity|]; split; [exact H1|]; split; [exact Hp1 | exact I])..].
  unfold processOrphans. rewrite bind_assoc, get_bind.
  destruct (queue_ok flags Hf (2 * orphanCount s1 + 1) [BlockHash DoubleHash (mb_Header msg)] D1 s1 t1 H1) as (s2 & r2 & D2 & t2 & E2 & H2 & Hp2).
  unfold bindM at 1. rewrite E2. pose proof (progress_trans _ _ _ _ _ _ Hp1 Hp2) as Hp.
  destruct r2 as [[]| |]; eexists _, _, D2, t2; (split; [reflexivity|]; split; [exact H2|]; split; [exact Hp|]); [|exact I..].
  exact (lookup_weaken _ _ _ _ (ad_stored _ _ _ _ _ _ Had main eq_refl) (pr_blocks _ _ _ _ Hp2)).
Qed.

Lemma process_ok D s t msg flags : node_state D s t -> incoming msg -> has_flag flags BFFastAdd = false ->
  exists s' r D' t', process msg flags s = (s', r) /\ node_state D' s' t' /\ progress s s' t t' /\ answered msg s' t t' r.
Proof.
  intros H Hm Hf.
  assert (Hfail : forall r : outcome ruleErr (bool * bool), (forall x, r <> Ok x) -> exists s' r' D' t', (s, r) = (s', r') /\ node_state D' s' t' /\
    progress s s' t t' /\ answered msg s' t t' r').
  { intros r Hr. exists s, r, D, t. split; [reflexivity|]. split; [exact H|]. split; [apply progress_refl|]. destruct r as [x| |]; [now contradiction (Hr x) | exact I..]. }
  unfold ProcessBlock. rewrite get_bind. unfold bindM at 1, liftM at 1. destruct (blockExists s _) as [ex| |]; [|now apply Hfail..].
  assert (Hdup : exists r, (if ex : bool then match LookupNode (ch_index s) (BlockHash DoubleHash (mb_Header msg)) with
      | None => panicM | Some node => retM (negb (NodeStatus (ch_index s) node =? statusNone)) end else retM false) s = (s, r)).
  { destruct ex; [destruct (LookupNode _ _)|]; eexists; reflexivity. }
  destruct Hdup as [rd Ed]. unfold bindM at 1. rewrite Ed. destruct rd as [dup| |]; [|now apply Hfail..]. destruct dup; [now apply Hfail|].
  destruct (IsKnownOrphan s _) eqn:Eo; [now apply Hfail|]. unfold bindM at 1, liftM at 1.
  destruct (checkBlockSanity _ _ _ _ _) as [[]| |] eqn:Es; [|now apply Hfail..]. pose proof (sane_sound _ _ _ _ Hm Es) as Hs.
  destruct (againstCheckpoint_state D s t (mb_Header msg) flags H) as (s1 & r1 & E1 & H1 & Hp1 & Hpool). unfold bindM at 1. rewrite E1.
  destruct r1 as [[]| |]; [|eexists _, _, D, t; (split; [reflexivity|]; split; [exact H1|]; split; [exact Hp1 | exact I])..].
  unfold bindM at 1, liftM at 1. destruct (blockExists s _) as [prev| |]; [|eexists _, _, D, t; (split; [reflexivity|]; split; [exact H1|]; split; [exact Hp1 | exact I])..].
  destruct prev; cbn [negb].
  - destruct (accept_all D s1 t msg flags H1 Hs Hf) as (s2 & r2 & D2 & t2 & E2 & H2 & Hp2 & Ha). exists s2, r2, D2, t2. split; [exact E2|]. split; [exact H2|].
    split; [exact (progress_trans _ _ _ _ _ _ Hp1 Hp2) | exact Ha].
  - assert (Hnew : IsKnownOrphan s1 (BlockHash DoubleHash (mb_Header msg)) = false).
    { unfold poolOf in Hpool. injection Hpool as Hpool _ _. unfold IsKnownOrphan in *. now rewrite Hpool. }
    destruct (addOrphan_ok DoubleHash W now order order_all s1 msg (ns_pool _ _ _ H1) Hs Hnew) as (s2 & E2 & Hp2 & Honly & Hk).
    destruct (pool_only_ok D s1 s2 t Honly (ns_chain _ _ _ H1)) as [H2 Hpr2]. rewrite (bind_Ok _ _ _ _ _ E2).
    exists s2, (Ok (false, true)), D, t. split; [reflexivity|]. split; [now split|]. split; [exact (progress_trans _ _ _ _ _ _ Hp1 Hpr2) | now split].
Qed.
(** A header moves neither the best chain nor the pool. *)
Lemma header_state D s t hdr flags : node_state D s t -> un_header W (BlockHash DoubleHash hdr) = Some hdr -> has_flag flags BFFastAdd = false ->
  exists s' r, ProcessBlockHeader DoubleHash params adjustedTime hdr flags s = (s', r) /\ node_state D s' t /\ progress s s' t t.
Proof.
  intros [H Hp] Hm Hf. destruct (acceptHeader_ok D s t hdr flags H Hm Hf) as (s' & r & E & H' & He & Hb). exists s', r. split; [exact E|].
  assert (Ht : (t < List.length (arenaOf s))%nat) by exact (core_tip s t (co_core H)).
  split; [split|split]; [exact H' | | exact He | now rewrite Hb | now rewrite (ex_work _ _ He t Ht)].
  apply (pool_same s); [|exact Hp]. pose proof (keeps_header DoubleHash params adjustedTime hdr flags s) as Hk.
  change (ProcessBlockHeader DoubleHash params adjustedTime hdr flags s) with (acceptHeader hdr flags s) in E. now rewrite E in Hk.
Qed.
End Accept.
