(* ===== verification/Invalidate.v ===== *)
(** * Invalidating and reconsidering blocks

    A block can be declared invalid, and taken up again, by hand.  Both change the
    marks of nodes first and then move the best chain: the invariant of the chain
    holds whatever happens on the way, and a block that has been invalidated
    without an error is not in the best chain. *)

From Stdlib Require Import ZArith List Lia Bool String.
From stdpp Require Import gmap.
From S2P Require Import Prelude GoSlice GoIO WireCommon WireTx WireMsgs Merkle Compress Script Difficulty ChainIO BlockIndex ChainView Retarget Index Threshold Growth UtxoView UtxoCache Rules Connect Supply ViewSync Branches Chain Orphans Reorg.
Import ListNotations.
Local Open Scope string_scope.
Local Open Scope list_scope.
Local Open Scope Z_scope.
Local Open Scope go_scope.
Local Open Scope chain_scope.

#[local] Arguments core_arena {PubKey ParsePubKey DoubleHash params W} s t _.
#[local] Arguments core_tip {PubKey ParsePubKey DoubleHash params W} s t _.
#[local] Arguments ck_valid {PubKey ParsePubKey DoubleHash params W s t} _.
#[local] Arguments ck_view {PubKey ParsePubKey DoubleHash params W s t} _.
#[local] Arguments ck_tree {PubKey ParsePubKey DoubleHash params W s t} _.
#[local] Arguments ck_votes {PubKey ParsePubKey DoubleHash params W s t} _.
#[local] Arguments ck_links {PubKey ParsePubKey DoubleHash params W s t} _.
#[local] Arguments ck_blocks {PubKey ParsePubKey DoubleHash params W s t} _.
#[local] Arguments ck_root {PubKey ParsePubKey DoubleHash params W s t} _.
#[local] Arguments ck_known {PubKey ParsePubKey DoubleHash params W s t} _.
#[local] Arguments ck_journal {PubKey ParsePubKey DoubleHash params W s t} _.
#[local] Arguments ck_main {PubKey ParsePubKey DoubleHash params W s t} _.
#[local] Arguments ck_header {PubKey ParsePubKey DoubleHash params W s t} _.
#[local] Arguments ck_snapshot {PubKey ParsePubKey DoubleHash params W s t} _.
#[local] Arguments co_core {PubKey ParsePubKey DoubleHash params W D s t} _.
#[local] Arguments co_set {PubKey ParsePubKey DoubleHash params W D s t} _.
#[local] Arguments co_from {PubKey ParsePubKey DoubleHash params W D s t} _.

Section Invalidate.
Context {PubKey : Type} (ParsePubKey : list Z -> option PubKey)
        (SerializeUncompressed : PubKey -> list Z).
Context (CalculateRoughMapSize : Z -> Z -> Z) (CalculateMinEntries : Z -> Z -> Z).
Context (iter : entryMap -> list (OutPoint * option UtxoEntry)).
Context (DoubleHash : list Z -> list Z).
Context (params : RuleParams).
Context (checkBlockScripts : Block -> UtxoViewpoint -> Z -> verdict).
Context (dbByHash : utxoDB -> list Z -> outcome chainErr (option UtxoEntry)).
Context (now adjustedTime : Z).
Context (W : universe).
Hypothesis forms : pubkey_forms ParsePubKey SerializeUncompressed.
Hypothesis iter_all : forall m, iter m ≡ₚ map_to_list m.
Hypothesis hash_len : forall l, len (DoubleHash l) = 32.
Hypothesis Hvp : votes_ok (rp_votes params).
Hypothesis HW : universe_ok DoubleHash W.
Context (indexOrder : gmap (list Z) nat -> list (list Z * nat)).
Hypothesis indexOrder_all : forall m, indexOrder m ≡ₚ map_to_list m.

Abbreviation ledger a B := (ledgerAt DoubleHash a B).
Abbreviation valid a B := (valid_to DoubleHash params a B).
Abbreviation core := (chain_core ParsePubKey DoubleHash params W).
Abbreviation ok := (chain_ok ParsePubKey DoubleHash params W).
Abbreviation still := (still ParsePubKey DoubleHash params W).
Abbreviation known_invalid s x := (KnownInvalid (NodeStatus (ch_index s) x)).

(** ** Marks *)

Lemma core_unset s t id flags : core s t -> (id < List.length (arenaOf s))%nat -> core (with_index s (UnsetStatusFlags (ch_index s) id flags)) t.
Proof.
  intros H Hid. destruct (status_extends (ch_index s) id (fun st => Z.ldiff st flags) Hid) as [He Hl].
  apply core_extends; auto. intros x Hx. unfold UnsetStatusFlags, set_status. cbn [bi_nodes]. rewrite deref_insert by exact Hid.
  case_decide as Ex; [|auto]. subst x. cbn [with_status bn_status]. rewrite !KnownValid_bit, Z.ldiff_spec, andb_true_iff. intros [Hv _]. now left.
Qed.

Lemma unset_still D U t s s' id flags : still D U t s s' -> (id < List.length (arenaOf s'))%nat ->
  still D U t s (with_index s' (UnsetStatusFlags (ch_index s') id flags)).
Proof.
  intros [H Hs Hn] Hid. split; [now apply core_unset | split; apply Hs|]. apply (same_nodes_trans _ _ _ Hn).
  destruct (status_extends (ch_index s') id (fun st => Z.ldiff st flags) Hid) as [He Hl]. now split.
Qed.

(** The marks that say invalid stay. *)
Definition marks_stay (s s' : chainState) : Prop := forall x, known_invalid s x = true -> known_invalid s' x = true.

Lemma status_after bi id f x : (id < List.length (bi_nodes bi))%nat ->
  NodeStatus (set_status bi id f) x = if decide (id = x) then f (NodeStatus bi x) else NodeStatus bi x.
Proof.
  intros Hid. unfold NodeStatus, set_status. cbn [bi_nodes]. rewrite deref_insert by exact Hid. case_decide as E; [now subst id | reflexivity].
Qed.

Lemma invalid_ldiff st : KnownInvalid (Z.ldiff st statusValid) = KnownInvalid st.
Proof.
  unfold KnownInvalid. do 2 f_equal. apply Z.bits_inj'. intros n Hn. rewrite !Z.land_spec, Z.ldiff_spec.
  destruct (Z.testbit (Z.lor statusValidateFailed statusInvalidAncestor) n) eqn:E; [|now rewrite !andb_false_r].
  rewrite !andb_true_r. enough (Z.testbit statusValid n = false) as -> by apply andb_true_r.
  destruct (Z.eq_dec n 1) as [->|Hne]; [discriminate E|]. change statusValid with (2 ^ 1). apply Z.pow2_bits_false. congruence.
Qed.

Lemma mark_one D U t s s' n flags : still D U t s s' -> (n < List.length (arenaOf s'))%nat -> KnownValid flags = false -> KnownInvalid flags = true ->
  exists s1, (forall A (k : M A), (setStatusM n flags ;! unsetStatusM n statusValid ;! k) s' = k s1) /\ still D U t s s1 /\
    known_invalid s1 n = true /\ marks_stay s' s1.
Proof.
  intros H Hn Hf Hi. pose proof (still_status ParsePubKey DoubleHash params Hvp W D U t s s' n flags H Hn (or_introl Hf)) as H1.
  assert (Hn1 : (n < List.length (bi_nodes (SetStatusFlags (ch_index s') n flags)))%nat) by (unfold SetStatusFlags; now rewrite (proj2 (status_extends _ _ _ Hn))).
  eexists. split; [intros A k; reflexivity|]. split; [now apply unset_still|].
  assert (Hst : forall x, NodeStatus (UnsetStatusFlags (SetStatusFlags (ch_index s') n flags) n statusValid) x =
    if decide (n = x) then Z.ldiff (Z.lor (NodeStatus (ch_index s') x) flags) statusValid else NodeStatus (ch_index s') x).
  { intros x. unfold UnsetStatusFlags. rewrite status_after by exact Hn1. unfold SetStatusFlags. rewrite status_after by exact Hn. now case_decide. }
  split.
  - cbn [with_index ch_index]. rewrite Hst, decide_True by reflexivity. rewrite invalid_ldiff. apply KnownInvalid_lor; now right.
  - intros x Hx. cbn [with_index ch_index]. rewrite Hst. case_decide; [|exact Hx]. rewrite invalid_ldiff. apply KnownInvalid_lor. now left.
Qed.

Lemma marks_stay_refl s : marks_stay s s.
Proof. intros x Hx. exact Hx. Qed.

Lemma marks_stay_trans s1 s2 s3 : marks_stay s1 s2 -> marks_stay s2 s3 -> marks_stay s1 s3.
Proof. intros H1 H2 x Hx. exact (H2 x (H1 x Hx)). Qed.

Lemma markBranch_ok D U t s nodes : forall s', still D U t s s' -> Forall (fun n => (n < List.length (arenaOf s))%nat) nodes ->
  exists s1 l, markBranch nodes s' = (s1, Ok l) /\ still D U t s s1 /\ marks_stay s' s1 /\ incl l nodes.
Proof.
  induction nodes as [|n nodes IH]; intros s' H Hl; cbn [markBranch].
  - exists s', []. split; [reflexivity|]. split; [exact H|]. split; [apply marks_stay_refl | apply incl_refl].
  - apply Forall_cons in Hl. destruct Hl as [Hn Hl]. rewrite status_bind. destruct (KnownInvalid _).
    + destruct (IH s' H Hl) as (s1 & l & E & H1 & Hm & Hi). exists s1, l. split; [exact E|]. split; [exact H1|]. split; [exact Hm | now apply incl_tl].
    + destruct (mark_one D U t s s' n statusInvalidAncestor H) as (s1 & E1 & H1 & _ & Hm1); [now rewrite (sn_length _ _ (sl_nodes _ _ _ _ _ _ _ _ _ H)) | reflexivity..|].
      rewrite E1. destruct (IH s1 H1 Hl) as (s2 & l & E & H2 & Hm & Hi). rewrite (bind_Ok _ _ _ _ _ E). exists s2, (n :: l). split; [reflexivity|].
      split; [exact H2|]. split; [exact (marks_stay_trans _ _ _ Hm1 Hm)|]. apply incl_cons; [now left | now apply incl_tl].
Qed.

Lemma walk_lt a node : arena_wf a -> forall fuel n, (n < List.length a)%nat ->
  Forall (fun y => (y < List.length a)%nat) (fst (walkTo fuel a (fun _ => false) (Some node) (Some n))).
Proof.
  intros Hw. induction fuel as [|fuel IH]; intros n Hn; cbn [walkTo]; destruct (opt_nat_eqb _ _); try constructor.
  destruct (bn_parent (deref a n)) as [p|] eqn:Ep; [|destruct fuel; cbn; now repeat constructor].
  destruct (height_parent a n p Hw Hn Ep) as (_ & Hpl & _). specialize (IH p Hpl). destruct (walkTo fuel a _ _ _) as [l st]. cbn [fst] in *. now constructor.
Qed.

Lemma branch_lt a node n : arena_wf a -> (n < List.length a)%nat -> Forall (fun y => (y < List.length a)%nat) (branchTo a node n).
Proof. intros Hw Hn. now apply walk_lt. Qed.

Lemma markTips_ok D U t s node tips : core s t -> Forall (fun n => (n < List.length (arenaOf s))%nat) tips -> forall s', still D U t s s' ->
  exists s1, markTips node tips s' = (s1, Ok tt) /\ still D U t s s1.
Proof.
  intros Hc. induction tips as [|tip tips IH]; intros Hl s' H; cbn [markTips]; [exists s'; now split|].
  apply Forall_cons in Hl. destruct Hl as [Hn Hl]. rewrite get_bind. pose proof (sl_nodes _ _ _ _ _ _ _ _ _ H) as Hs. destruct (IsAncestor _ _ _); [|exact (IH Hl s' H)].
  destruct (markBranch_ok D U t s (branchTo (arenaOf s') node tip) s' H) as (s1 & l & E & H1 & _).
  { rewrite <- (sn_length _ _ Hs). apply branch_lt; [exact (core_arena _ _ (sl_core _ _ _ _ _ _ _ _ _ H)) | now rewrite (sn_length _ _ Hs)]. }
  rewrite bind_assoc, (bind_Ok _ _ _ _ _ E). exact (IH Hl s1 H1).
Qed.

Lemma clearBranch_ok D U t s nodes : forall s', still D U t s s' -> Forall (fun n => (n < List.length (arenaOf s))%nat) nodes ->
  exists s1, clearBranch nodes s' = (s1, Ok tt) /\ still D U t s s1.
Proof.
  induction nodes as [|n nodes IH]; intros s' H Hl; cbn [clearBranch]; [exists s'; now split|]. apply Forall_cons in Hl. destruct Hl as [Hn Hl].
  apply (IH (with_index s' (UnsetStatusFlags (ch_index s') n statusInvalidAncestor))); [|exact Hl].
  apply unset_still; [exact H | now rewrite (sn_length _ _ (sl_nodes _ _ _ _ _ _ _ _ _ H))].
Qed.

(** Clearing the branches leaves one of the tips. *)
Lemma clearTips_ok (P : nat -> Prop) D U t s node tips : core s t -> Forall (fun n => (n < List.length (arenaOf s))%nat /\ P n) tips ->
  forall rt s', still D U t s s' -> (forall x, rt = Some x -> P x) ->
  exists s1 rt', clearTips node tips rt s' = (s1, Ok rt') /\ still D U t s s1 /\ (forall x, rt' = Some x -> P x).
Proof.
  intros Hc. induction tips as [|tip tips IH]; intros Hl rt s' H Hrt; cbn [clearTips]; [exists s', rt; now split|].
  apply Forall_cons in Hl. destruct Hl as [[Hn HP] Hl]. rewrite get_bind. pose proof (sl_nodes _ _ _ _ _ _ _ _ _ H) as Hs. destruct (IsAncestor _ _ _); cbn [negb].
  - destruct (clearBranch_ok D U t s (branchTo (arenaOf s') node tip) s' H) as (s1 & E & H1).
    { rewrite <- (sn_length _ _ Hs). apply branch_lt; [exact (core_arena _ _ (sl_core _ _ _ _ _ _ _ _ _ H)) | now rewrite (sn_length _ _ Hs)]. }
    rewrite (bind_Ok _ _ _ _ _ E). apply (IH Hl (Some tip) s1 H1). now intros x [= <-].
  - apply (IH Hl _ s' H). destruct (Nat.eqb_spec tip node) as [->|_]; [now intros x [= <-] | exact Hrt].
Qed.

(** ** Detaching nodes of the best chain *)

Abbreviation fetchIn := (fetchInputsM ParsePubKey SerializeUncompressed CalculateRoughMapSize CalculateMinEntries DoubleHash).
Abbreviation take_back := (disconnectM DoubleHash dbByHash).
Abbreviation detach_check := (verifyDetach ParsePubKey SerializeUncompressed CalculateRoughMapSize CalculateMinEntries DoubleHash dbByHash).
Abbreviation detach_all := (detachAll ParsePubKey SerializeUncompressed CalculateRoughMapSize CalculateMinEntries iter DoubleHash dbByHash now).
Abbreviation disconnect := (disconnectBlock ParsePubKey SerializeUncompressed CalculateRoughMapSize iter DoubleHash now).
Abbreviation reorganize := (reorganizeChain ParsePubKey SerializeUncompressed CalculateRoughMapSize CalculateMinEntries iter DoubleHash params
  checkBlockScripts dbByHash now adjustedTime).

(** Fetching for any view changes nothing but the cache. *)
Lemma fetch_any D U s b v : set_ok ParsePubKey D U s -> block_form DoubleHash b ->
  exists c v', fetchIn v b s = (with_cache s c, Ok v') /\ set_ok ParsePubKey D U (with_cache s c).
Proof.
  intros [Hi <-] Hb. destruct (bf_shape _ _ Hb) as (cb & rest & Et & _ & _). pose proof (bf_inputs _ _ Hb) as Hin. rewrite Et in Hin.
  destruct (fetchInputs_sync ParsePubKey SerializeUncompressed CalculateRoughMapSize CalculateMinEntries DoubleHash forms hash_len
    D _ (ch_cache s) v b cb rest Hi Et Hin) as (v1 & c1 & E & Hi1 & Ha1 & _).
  exists c1, v1. unfold fetchInputsM. rewrite get_bind, (lift_bind _ _ _ _ E). split; [reflexivity | now split].
Qed.

Lemma take_back_any v b stxos s : exists r, take_back v b stxos s = (s, r).
Proof. unfold disconnectM. rewrite get_bind. unfold liftC, liftM. eauto. Qed.

(** A node of the best chain that is not its first. *)
Definition attached (a : arena) (t y : nat) : Prop := (y < List.length a)%nat /\ on_branch a t y /\ exists p, bn_parent (deref a y) = Some p.

Lemma verifyDetach_any D U t a B l : Forall (attached a t) l -> forall s v, arenaOf s = a -> blocksOf s = B -> core s t -> set_ok ParsePubKey D U s ->
  exists c r, detach_check l v s = (with_cache s c, r) /\ set_ok ParsePubKey D U (with_cache s c) /\
    forall blocks v', r = Ok (blocks, v') -> detach_info DoubleHash a B l blocks.
Proof.
  induction 1 as [|y l (Hy & Hbr & p & Hp) _ IH]; intros s v <- <- H Hs.
  - exists (ch_cache s), (Ok ([], v)). cbn [verifyDetach]. split; [now destruct s|]. split; [split; apply Hs|]. intros blocks v' [= <- _]. constructor.
  - pose proof (core_arena _ _ H) as Hw. pose proof (valid_branch DoubleHash params _ _ Hw t y (core_tip _ _ H) Hy (ck_valid H) Hbr) as Hv.
    destruct (valid_linked DoubleHash params _ _ y p Hy Hp Hv) as (b & Hlk & _).
    cbn [verifyDetach]. rewrite node_bind, get_bind, (lift_bind _ _ _ _ (fetch_node (ch_db s) (arenaOf s) y b (lk_block _ _ _ _ _ _ Hlk))).
    replace (bytes_eqb _ _) with true by (symmetry; apply bytes_eqb_eq; symmetry; apply (sb_hash _ _ _ _ _ _ (lk_stored _ _ _ _ _ _ Hlk))). cbn [negb].
    destruct (fetch_any D U s b v Hs (sb_form _ _ _ _ _ _ (lk_stored _ _ _ _ _ _ Hlk))) as (c & v1 & E1 & Hs1). rewrite (bind_Ok _ _ _ _ _ E1), get_bind.
    rewrite (lift_bind _ _ _ _ (journal_read ParsePubKey SerializeUncompressed DoubleHash params forms hash_len W HW s t y p b H Hy Hbr Hp (lk_block _ _ _ _ _ _ Hlk))).
    destruct (take_back_any v1 b (spentAt DoubleHash (arenaOf s) (blocksOf s) p b) (with_cache s c)) as [r E2].
    unfold bindM at 1. rewrite E2. destruct r as [v2|e|]; [|exists c; eexists; (split; [reflexivity|]; split; [exact Hs1 | discriminate])..].
    destruct (IH (with_cache s c) v2 eq_refl eq_refl (core_cache _ _ _ _ s t c H) Hs1) as (c' & r & E3 & Hs3 & Hi).
    unfold bindM at 1. rewrite E3. exists c'. destruct r as [[blocks v3]|e|]; eexists; (split; [reflexivity|]; split; [exact Hs3|]); [|discriminate..].
    intros bs v' [= <- _]. constructor; [exists p; now split | exact (Hi blocks v3 eq_refl)].
Qed.

Lemma detachAll_any l : forall D s x v blocks, ok D s x -> detach_info DoubleHash (arenaOf s) (blocksOf s) l blocks ->
  neutral (ledger (arenaOf s) (blocksOf s) x) v ->
  exists D' s' r f, detach_all l blocks v s = (s', r) /\ ok D' s' f /\ same_tree s s' /\ (forall v', r = Ok v' -> down (arenaOf s) f x l).
Proof.
  induction l as [|y l IH]; intros D s x v blocks H Hi Hn.
  - exists D, s, (Ok v), x. split; [reflexivity|]. split; [exact H|]. split; [now split|]. intros v' _. apply down_nil.
  - inversion Hi as [|? [b st] ? blocks' (p & Hlk & Est) Hi']; subst. cbn [fst snd] in *. subst st. pose proof (co_core H) as Hc. pose proof (core_arena _ _ Hc) as Hw.
    pose proof Hlk as [Hy Hp Hb Hst]. cbn [detachAll]. destruct (Nat.eq_dec y x) as [->|Hne].
    + destruct Hn as [Ht Ha]. destruct (take_back_ok ParsePubKey SerializeUncompressed CalculateRoughMapSize CalculateMinEntries DoubleHash params dbByHash forms hash_len
        D _ s x p b v Hw Hlk (ck_valid Hc) (co_set H) Ha) as (v1 & c & v2 & E1 & Hs1 & E2 & Ha2 & Ht2).
      destruct (disconnectBlock_ok ParsePubKey SerializeUncompressed CalculateRoughMapSize CalculateMinEntries iter DoubleHash params now forms iter_all hash_len Hvp W HW
        D (with_cache s c) p x b v2 (chain_cache _ _ _ _ D s x c H Hs1) Hp Hb (Ht2 Ht) Ha2) as (s2 & E3 & H2 & HT).
      rewrite (bind_Ok _ _ _ _ _ E1), (bind_Ok _ _ _ _ _ E2), (bind_Ok _ _ _ _ _ E3). pose proof HT as [Ea Eb]. cbn [with_cache ch_index ch_db] in Ea, Eb.
      destruct (IH _ s2 p (commit v2) blocks' H2) as (D' & s' & r & f & E4 & H' & HT' & Hd); [now rewrite Ea, Eb | rewrite Ea, Eb; exact (commit_neutral _ _ _ (Ht2 Ht) Ha2)|].
      exists D', s', r, f. split; [exact E4|]. split; [exact H'|].
      split; [apply (same_tree_trans _ (with_cache s c)); [now split | exact (same_tree_trans _ _ _ HT HT')]|].
      intros v' E. apply (down_cons _ _ _ p _ Hp). rewrite <- Ea. exact (Hd v' E).
    + destruct (fetch_any D _ s b v (co_set H) (sb_form _ _ _ _ _ _ Hst)) as (c & v1 & E1 & Hs1). rewrite (bind_Ok _ _ _ _ _ E1).
      pose proof (chain_cache ParsePubKey DoubleHash params W D s x c H Hs1) as H1. destruct (take_back_any v1 b (spentAt DoubleHash (arenaOf s) (blocksOf s) p b) (with_cache s c)) as [r E2].
      unfold bindM at 1. rewrite E2. destruct r as [v2|e|]; [|exists D, (with_cache s c); eexists _, x; (split; [reflexivity|]; split; [exact H1|]; split; [now split | discriminate])..].
      exists D, (with_cache s c). eexists (Err _), x. split; [|split; [exact H1|]; split; [now split|]]; [|discriminate].
      unfold bindM at 1, disconnectBlock. rewrite (bind_Ok _ _ _ _ _ (core_tipM _ _ _ _ _ _ (co_core H1))), !node_bind. cbn [with_cache ch_index].
      destruct (bytes_eqb _ _) eqn:Eq; [|reflexivity]. apply bytes_eqb_eq in Eq. contradiction Hne. exact (tree_inj _ (ck_tree Hc) y x Hy (core_tip _ _ Hc) Eq).
Qed.

(** A list of nodes of the best chain is detached as far as it goes down from
    the tip; without an error it has gone down to the end. *)
Lemma detach_any D s t l : ok D s t -> Forall (attached (arenaOf s) t) l -> l <> [] ->
  exists D' s' r t', reorganize l [] s = (s', r) /\ ok D' s' t' /\ same_tree s s' /\ (r = Ok tt -> down (arenaOf s) t' t l).
Proof.
  intros H Hl Hne. pose proof (co_core H) as Hc. destruct l as [|d l]; [now contradiction Hne|]. set (l' := d :: l) in *.
  assert (Hrun : reorganize l' [] s = (do! detachBlocks :=
      (if negb (bytes_eqb (bn_hash (deref (arenaOf s) d)) (bn_hash (deref (arenaOf s) t)))
       then assertM "reorganize nodes to detach are not for the current best chain"
       else do! (detachBlocks, view) := detach_check l' (SetBestHash NewUtxoViewpoint (bn_hash (deref (arenaOf s) t))) in retM detachBlocks) in
    do! view := detach_all l' detachBlocks NewUtxoViewpoint in retM tt) s).
  { unfold reorganizeChain, verifyReorganizationValidity, l'. rewrite bind_assoc, (bind_Ok _ _ _ _ _ (core_tipM _ _ _ _ _ _ Hc)), bind_assoc, get_bind.
    destruct (negb _); [reflexivity|]. unfold bindM, retM. cbn [negb verifyAttach]. destruct (verifyDetach _ _ _ _ _ _ _ _ _) as [s1 [[bs v]| |]]; [|reflexivity..].
    cbn [verifyAttach retM]. destruct (detachAll _ _ _ _ _ _ _ _ _ _ _ _) as [s2 [v2| |]]; reflexivity. }
  rewrite Hrun. clear Hrun. destruct (negb _).
  { exists D, s. eexists (Err _), t. split; [reflexivity|]. split; [exact H|]. split; [now split | discriminate]. }
  destruct (verifyDetach_any D _ t (arenaOf s) (blocksOf s) l' Hl s (SetBestHash NewUtxoViewpoint (bn_hash (deref (arenaOf s) t))) eq_refl eq_refl Hc (co_set H))
    as (c & r & E & Hs & Hi). rewrite bind_assoc. unfold bindM at 1. rewrite E. pose proof (chain_cache ParsePubKey DoubleHash params W D s t c H Hs) as H1.
  destruct r as [[blocks v]|e|]; [|exists D, (with_cache s c); eexists _, t; (split; [reflexivity|]; split; [exact H1|]; split; [now split | discriminate])..].
  destruct (detachAll_any l' D (with_cache s c) t NewUtxoViewpoint blocks H1 (Hi blocks v eq_refl)) as (D' & s' & r & f & E' & H' & [Ea Eb] & Hd).
  { split; [apply tracks_new | apply map_eq; intros op; now rewrite lookup_abs]. }
  unfold bindM at 1, retM at 1. unfold bindM at 1. rewrite E'. exists D', s'.
  destruct r as [v'|e|]; eexists _, f; (split; [reflexivity|]; split; [exact H'|]; split; [now split|]); [|discriminate..]. intros _. exact (Hd v' eq_refl).
Qed.

(** ** The other branches *)

Lemma tips_ok s t : core s t -> exists tips, InactiveTips indexOrder (ch_index s) (ch_bestChain s) = Ok tips /\
  Forall (fun x => (x < List.length (arenaOf s))%nat /\ exists p, bn_parent (deref (arenaOf s) x) = Some p) tips.
Proof.
  intros H. pose proof (core_arena _ _ H) as Hw.
  assert (Hroot : forall id, (id < List.length (arenaOf s))%nat -> bn_parent (deref (arenaOf s) id) = None -> contains (arenaOf s) (ch_bestChain s) id = true).
  { intros id Hid Hp. apply (contains_spec _ _ t id Hw (ck_view H) Hid). rewrite (ck_root H id Hid Hp). exact (root_branch _ _ _ _ s t t H (core_tip _ _ H)). }
  destruct (InactiveTips_spec (ch_index s) (ch_bestChain s) t indexOrder indexOrder_all Hw (ck_view H) (to_index _ (ck_tree H)) Hroot) as (tips & E & Ht).
  exists tips. split; [exact E|]. apply Forall_forall. intros x Hx. apply Ht in Hx. destruct Hx as (Hx & Hc & _). split; [exact Hx|].
  destruct (bn_parent (deref (arenaOf s) x)) as [p|] eqn:Ep; [eauto|]. rewrite (Hroot x Hx Ep) in Hc. discriminate.
Qed.

Lemma bestTipOf_in bi tips x : bestTipOf bi tips = Some x -> In x tips.
Proof.
  unfold bestTipOf. assert (Hgen : forall b, (forall y, b = Some y -> In y tips) -> forall l, incl l tips -> forall y,
    fold_left (fun bestTip tip => if KnownInvalid (NodeStatus bi tip) then bestTip else match bestTip with None => Some tip
      | Some b => if bn_workSum (deref (bi_nodes bi) b) <? bn_workSum (deref (bi_nodes bi) tip) then Some tip else bestTip end) l b = Some y -> In y tips).
  { intros b Hb l. revert b Hb. induction l as [|z l IH]; intros b Hb Hl y; cbn [fold_left]; [apply Hb|]. apply IH; [|intros w Hw; apply Hl; now right].
    assert (Hz : In z tips) by (apply Hl; now left). destruct (KnownInvalid _); [exact Hb|]. destruct b as [b|]; [|now intros w [= <-]].
    destruct (_ <? _); [now intros w [= <-] | exact Hb]. }
  apply (Hgen None); [discriminate | apply incl_refl].
Qed.

(** The chain moves, if it does, over nodes that are not marked. *)
Definition unmarked_way (s : chainState) (t t' : nat) : Prop :=
  t' = t \/ exists f attach, (f < List.length (arenaOf s))%nat /\ on_branch (arenaOf s) t f /\ up (arenaOf s) t' f attach /\ Forall (fun n => known_invalid s n = false) attach.

Lemma chooseBestTip_ok D s t : ok D s t -> exists s' r D' t',
  chooseBestTip ParsePubKey SerializeUncompressed CalculateRoughMapSize CalculateMinEntries iter DoubleHash params checkBlockScripts dbByHash now adjustedTime
    indexOrder s = (s', r) /\ ok D' s' t' /\ same_nodes s s' /\ unmarked_way s t t'.
Proof.
  intros H. pose proof (co_core H) as Hc. destruct (tips_ok s t Hc) as (tips & E & Ht). unfold chooseBestTip.
  rewrite get_bind. unfold liftC, lift_chain. rewrite E. unfold liftM. unfold bindM at 1. rewrite (bind_Ok _ _ _ _ _ (core_tipM _ _ _ _ _ _ Hc)).
  assert (Hno : forall r : outcome ruleErr unit, exists s' r' D' t', (s, r) = (s', r') /\ ok D' s' t' /\ same_nodes s s' /\ unmarked_way s t t').
  { intros r. exists s, r, D, t. split; [reflexivity|]. split; [exact H|]. split; [apply same_nodes_refl | now left]. }
  destruct (bestTipOf (ch_index s) (tips ++ [t])) as [x|] eqn:Eb; cbn [opt_nat_eqb]; [|apply Hno]. destruct (Nat.eqb_spec x t) as [->|Hne]; [apply Hno|].
  apply bestTipOf_in, in_app_iff in Eb. destruct Eb as [Hx|[->|[]]]; [|now contradiction Hne].
  rewrite Forall_forall in Ht. apply list_elem_of_In, Ht in Hx. destruct Hx as (Hx & p & Hp).
  destruct (switch_ok ParsePubKey SerializeUncompressed CalculateRoughMapSize CalculateMinEntries iter DoubleHash params checkBlockScripts dbByHash now adjustedTime
    forms iter_all hash_len Hvp W HW tt D s t x p H Hx Hp) as (s' & r & D' & t' & E' & H' & [Hn Hwh _]).
  exists s', r, D', t'. split; [exact E'|]. split; [exact H'|]. split; [exact Hn|].
  destruct Hwh as [->|(-> & _ & Hf)]; [now left | now right].
Qed.

(** ** Invalidating a block *)

Lemma up_cases a x f l y : arena_wf a -> Forall (fun z => (z < List.length a)%nat) l -> up a x f l -> on_branch a x y -> y ∈ l \/ on_branch a f y.
Proof.
  intros Hw Hl H. induction H as [|f z l Hz _ IH]; intros Hy; [now right|]. apply Forall_cons in Hl. destruct Hl as [Hzl Hl].
  destruct (IH Hl Hy) as [Hin|Hin]; [left; now apply list_elem_of_further|]. apply (on_branch_parent a z f y Hw Hzl Hz) in Hin.
  destruct Hin as [->|Hin]; [left; apply list_elem_of_here | now right].
Qed.

(** A marked node that is not in the chain does not get into it. *)
Lemma unmarked_out s t t' y : core s t -> (t' < List.length (arenaOf s))%nat -> (y < List.length (arenaOf s))%nat ->
  unmarked_way s t t' -> known_invalid s y = true -> ~ on_branch (arenaOf s) t y -> ~ on_branch (arenaOf s) t' y.
Proof.
  intros H Ht' Hy [->|(f & attach & Hfl & Hf & Hu & Hni)] Hm Hout; [exact Hout|]. intros Hon. pose proof (core_arena _ _ H) as Hw. pose proof (core_tip _ _ H) as Ht.
  destruct (up_cases _ t' f attach y Hw (up_lt _ t' f attach Ht' Hfl Hu) Hu Hon) as [Hin|Hin].
  - rewrite Forall_forall in Hni. rewrite (Hni y Hin) in Hm. discriminate.
  - apply Hout. exact (on_branch_trans _ t f y Hw Ht Hfl Hy Hf Hin).
Qed.

Lemma down_attached a t f x l : arena_wf a -> (t < List.length a)%nat -> (x < List.length a)%nat -> on_branch a t x -> down a f x l -> Forall (attached a t) l.
Proof.
  intros Hw Ht Hx Hbr H. revert Hx Hbr. induction H as [|x p l Hp _ IH]; intros Hx Hbr; [constructor|]. destruct (height_parent a x p Hw Hx Hp) as (_ & Hpl & _).
  constructor; [split; [exact Hx|]; split; [exact Hbr | eauto]|]. apply (IH Hpl). exact (on_branch_step a t x p Hw Ht Hx Hbr Hp).
Qed.

Lemma attached_nodes s s' t l : core s t -> same_nodes s s' -> Forall (attached (arenaOf s) t) l -> Forall (attached (arenaOf s') t) l.
Proof.
  intros H Hn Hl. eapply Forall_impl; [exact Hl|]. intros y (Hy & Hb & p & Hp). pose proof (sn_extends _ _ Hn) as He.
  split; [now rewrite (sn_length _ _ Hn)|]. split; [now apply (on_branch_extends _ _ (core_arena _ _ H) He t y (core_tip _ _ H) Hy)|].
  exists p. now rewrite (ex_parent _ _ He y Hy).
Qed.

(** The part of the work that detaches the node. *)
Lemma invalidate_main D s t node : ok D s t -> attached (arenaOf s) t node -> known_invalid s node = true ->
  exists s' r D' t', (do! marked := markBranch (branchTo (arenaOf s) node t) in
      reorganize (marked ++ [node]) [] ;!
      flushToDB ;!
      chooseBestTip ParsePubKey SerializeUncompressed CalculateRoughMapSize CalculateMinEntries iter DoubleHash params checkBlockScripts dbByHash now adjustedTime
        indexOrder) s = (s', r) /\ ok D' s' t' /\ same_nodes s s' /\ (r = Ok tt -> ~ on_branch (arenaOf s) t' node).
Proof.
  intros H Hnode Hm. pose proof Hnode as (Hx & Hbr & p & Hp). pose proof (co_core H) as Hc. pose proof (core_arena _ _ Hc) as Hw. pose proof (core_tip _ _ Hc) as Ht.
  destruct (walkTo_ok (arenaOf s) (fun _ => false) node Hw Hx (List.length (arenaOf s)) t Ht Ht Hbr) as (l & st & El & Hl & Hd & Hst & _).
  destruct (Hd (Hst (fun _ => eq_refl))) as [Hdown _]. unfold branchTo. rewrite El. cbn [fst].
  destruct (markBranch_ok D (ledger (arenaOf s) (blocksOf s) t) t s l s (still_refl _ _ _ _ D _ t s Hc (co_set H)) Hl) as (s2 & l' & E2 & H2 & Hm2 & Hi).
  rewrite (bind_Ok _ _ _ _ _ E2). pose proof (sl_nodes _ _ _ _ _ _ _ _ _ H2) as Hn2. pose proof (still_chain _ _ _ _ D s s2 t H H2) as K2.
  assert (Hatt : Forall (attached (arenaOf s) t) (l' ++ [node])).
  { apply Forall_app. split; [|now constructor]. pose proof (down_attached _ t node t l Hw Ht Ht (conj (Z.le_refl _) (ancestorAt_self _ t)) Hdown) as Hall.
    rewrite Forall_forall in Hall |- *. intros y Hy. apply Hall, list_elem_of_In, Hi, list_elem_of_In, Hy. }
  destruct (detach_any D s2 t (l' ++ [node]) K2 (attached_nodes s s2 t _ Hc Hn2 Hatt)) as (D3 & s3 & r3 & t3 & E3 & K3 & [Ea3 Eb3] & Hd3); [now destruct l'|].
  assert (Hn3 : same_nodes s s3) by (apply (same_nodes_trans _ _ _ Hn2), same_tree_nodes; now split).
  unfold bindM at 1. rewrite E3. destruct r3 as [[]|e|]; [|exists s3; eexists _, D3, t3; (split; [reflexivity|]; split; [exact K3|]; split; [exact Hn3 | discriminate])..].
  assert (Hp3 : bn_parent (deref (arenaOf s2) node) = Some t3).
  { specialize (Hd3 eq_refl). destruct (l' ++ [node]) as [|d dl] eqn:Ed; [now destruct l'|]. destruct (down_last _ _ _ _ _ Hd3) as [_ Hlast]. specialize (Hlast 0%nat).
    now rewrite <- Ed, last_last in Hlast. }
  rewrite (bind_Ok _ _ _ _ _ (flushToDB_eq s3)). destruct (chooseBestTip_ok D3 (flushed s3) t3 (chain_flushed _ _ _ Hvp _ D3 s3 t3 K3)) as (s4 & r & D4 & t4 & E4 & K4 & Hn4 & Hway).
  assert (Hn34 : same_nodes s3 s4) by (destruct Hn4; now split). exists s4, r, D4, t4. split; [exact E4|]. split; [exact K4|]. split; [exact (same_nodes_trans _ _ _ Hn3 Hn34)|]. intros _.
  assert (Ht4 : (t4 < List.length (arenaOf s3))%nat) by (rewrite <- (sn_length _ _ Hn34); exact (core_tip _ _ (co_core K4))).
  assert (Hx3 : (node < List.length (arenaOf s3))%nat) by now rewrite (sn_length _ _ Hn3).
  rewrite <- (on_branch_extends _ _ Hw (sn_extends _ _ Hn3) t4 node ltac:(now rewrite <- (sn_length _ _ Hn3)) Hx).
  apply (unmarked_out (flushed s3) t3 t4 node (co_core (chain_flushed _ _ _ Hvp _ D3 s3 t3 K3)) Ht4 Hx3 Hway).
  - specialize (Hm2 node Hm). unfold NodeStatus in *. cbn [flushed flushToDB fst]. now rewrite <- Ea3 in Hm2.
  - intros [Hh _]. rewrite <- Ea3 in Hp3. destruct (height_parent _ node t3 (core_arena _ _ (co_core K3)) Hx3 Hp3) as (_ & _ & Hhp).
    change (arenaOf (flushed s3)) with (arenaOf s3) in Hh. lia.
Qed.

Abbreviation invalidate := (InvalidateBlock ParsePubKey SerializeUncompressed CalculateRoughMapSize CalculateMinEntries iter DoubleHash params
  checkBlockScripts dbByHash now adjustedTime indexOrder).

Lemma invalidate_ok D s t hash : ok D s t -> exists s' r D' t', invalidate hash s = (s', r) /\ ok D' s' t' /\ same_nodes s s' /\
  (r = Ok tt -> forall node, LookupNode (ch_index s) hash = Some node -> known_invalid s node = false -> ~ on_branch (arenaOf s') t' node).
Proof.
  intros H. pose proof (co_core H) as Hc. pose proof (core_arena _ _ Hc) as Hw. pose proof (core_tip _ _ Hc) as Ht. unfold InvalidateBlock. rewrite get_bind.
  destruct (LookupNode (ch_index s) hash) as [node|] eqn:El; [|exists s; eexists (Err _), D, t; split; [reflexivity|]; split; [exact H|]; split; [apply same_nodes_refl | discriminate]].
  destruct (io_sound _ (to_index _ (ck_tree Hc)) _ _ El) as [Hx _].
  destruct (Z.eqb_spec (height_of (arenaOf s) node) 0) as [_|Hh]; [exists s; eexists (Err _), D, t; split; [reflexivity|]; split; [exact H|]; split; [apply same_nodes_refl | discriminate]|].
  destruct (known_invalid s node) eqn:Ek; [exists s, (Ok tt), D, t; split; [reflexivity|]; split; [exact H|]; split; [apply same_nodes_refl | intros _ y [= <-]; congruence]|].
  destruct (mark_one D _ t s s node statusValidateFailed (still_refl _ _ _ _ D _ t s Hc (co_set H)) Hx eq_refl eq_refl) as (s1 & E1 & H1 & Hm & _).
  rewrite E1, get_bind. pose proof (still_chain _ _ _ _ D s s1 t H H1) as K1. pose proof (sl_nodes _ _ _ _ _ _ _ _ _ H1) as Hn1. pose proof (co_core K1) as Hc1.
  pose proof (core_arena _ _ Hc1) as Hw1. assert (Hx1 : (node < List.length (arenaOf s1))%nat) by now rewrite (sn_length _ _ Hn1).
  pose proof (contains_spec _ _ t node Hw1 (ck_view Hc1) Hx1) as Hcon. destruct (contains _ _ _); cbn [negb].
  - rewrite (bind_Ok _ _ _ _ _ (core_tipM _ _ _ _ _ _ Hc1)).
    assert (Hatt : attached (arenaOf s1) t node).
    { split; [exact Hx1|]. split; [now apply Hcon|]. destruct (bn_parent (deref (arenaOf s1) node)) as [p|] eqn:Ep; [eauto|]. exfalso. apply Hh.
      rewrite <- (ex_height _ _ (sn_extends _ _ Hn1) node Hx). exact (height_root _ node Hw1 Hx1 Ep). }
    destruct (invalidate_main D s1 t node K1 Hatt Hm) as (s2 & r & D2 & t2 & E2 & K2 & Hn2 & Hout). exists s2, r, D2, t2. split; [exact E2|]. split; [exact K2|].
    split; [exact (same_nodes_trans _ _ _ Hn1 Hn2)|]. intros Hr y [= <-] _.
    rewrite (on_branch_extends _ _ Hw1 (sn_extends _ _ Hn2) t2 node); [exact (Hout Hr) | rewrite <- (sn_length _ _ Hn2); exact (core_tip _ _ (co_core K2)) | exact Hx1].
  - destruct (tips_ok s1 t Hc1) as (tips & E & Htips). unfold liftC, lift_chain. rewrite E. unfold liftM. unfold bindM at 1.
    destruct (markTips_ok D _ t s1 node tips Hc1 (Forall_impl _ _ _ Htips (fun x Hx => proj1 Hx)) s1 (still_refl _ _ _ _ D _ t s1 Hc1 (co_set K1))) as (s2 & E2 & H2).
    rewrite (bind_Ok _ _ _ _ _ E2). pose proof (still_chain _ _ _ _ D s1 s2 t K1 H2) as K2. pose proof (sl_nodes _ _ _ _ _ _ _ _ _ H2) as Hn2.
    assert (Hn : same_nodes s (flushed s2)) by (apply (same_nodes_trans _ _ _ Hn1), (same_nodes_trans _ _ _ Hn2), same_tree_nodes; now split).
    exists (flushed s2), (Ok tt), D, t. split; [reflexivity|]. split; [now apply chain_flushed|]. split; [exact Hn|]. intros _ y [= <-] _ Hon.
    change (arenaOf (flushed s2)) with (arenaOf s2) in Hon. apply (on_branch_extends _ _ Hw1 (sn_extends _ _ Hn2) t node (core_tip _ _ Hc1) Hx1) in Hon. apply Hcon in Hon. discriminate.
Qed.

(** ** Reconsidering a block *)

Abbreviation verify := (verifyReorganizationValidity ParsePubKey SerializeUncompressed CalculateRoughMapSize CalculateMinEntries DoubleHash params checkBlockScripts dbByHash).
Abbreviation reconsider := (ReconsiderBlock ParsePubKey SerializeUncompressed CalculateRoughMapSize CalculateMinEntries iter DoubleHash params
  checkBlockScripts dbByHash now adjustedTime indexOrder).

(** A branch that is checked before the chain moves to it. *)
Lemma checked_switch D s t x p : ok D s t -> (x < List.length (arenaOf s))%nat -> bn_parent (deref (arenaOf s) x) = Some p ->
  exists s' r D' t', (do! (detachNodes, attachNodes) := getReorganizeNodes x in
      do! r := tryM (verify detachNodes attachNodes) in
      flushToDB ;!
      match r with Ok _ => reorganize detachNodes attachNodes | Err _ => retM tt | Panic => panicM end) s = (s', r) /\
    ok D' s' t' /\ same_nodes s s' /\ (t' = t \/ t' = x).
Proof.
  intros H Hx Hp. pose proof (core_arena _ _ (co_core H)) as Hw. pose proof (core_tip _ _ (co_core H)) as Ht.
  destruct (getReorganizeNodes_ok ParsePubKey DoubleHash params Hvp W D s t x p H Hx Hp) as (s1 & detach & attach & E & Hst & Hcase).
  pose proof (still_chain _ _ _ _ D s s1 t H Hst) as H1. pose proof (sl_nodes _ _ _ _ _ _ _ _ _ Hst) as Hn. unfold bindM at 1. rewrite E.
  destruct Hcase as [(-> & -> & _)|(-> & f & Hd & Hu & _)].
  - exists (flushed s1), (Ok tt), D, t. split; [reflexivity|]. split; [now apply chain_flushed|]. split; [apply (same_nodes_trans _ _ _ Hn), same_tree_nodes; now split | now left].
  - destruct (verify_ok ParsePubKey SerializeUncompressed CalculateRoughMapSize CalculateMinEntries DoubleHash params checkBlockScripts dbByHash forms hash_len Hvp W HW
      D s t f x detach attach H Hd Hu Hx) as (s2 & r & E2 & Hst2 & _). unfold tryM. unfold bindM at 1. rewrite E2.
    pose proof (still_chain _ _ _ _ D s s2 t H Hst2) as H2. pose proof (sl_nodes _ _ _ _ _ _ _ _ _ Hst2) as Hn2.
    assert (Hn3 : same_nodes s (flushed s2)) by (apply (same_nodes_trans _ _ _ Hn2), same_tree_nodes; now split). pose proof (chain_flushed _ _ _ Hvp _ D s2 t H2) as H3.
    destruct r as [bs|e|]; [|exists (flushed s2), (Ok tt), D, t; split; [reflexivity|]; split; [exact H3|]; split; [exact Hn3 | now left]
      | exists s2, Panic, D, t; split; [reflexivity|]; split; [exact H2|]; split; [exact Hn2 | now left]].
    pose proof (sn_extends _ _ Hn3) as He. rewrite (bind_Ok _ _ _ _ _ (flushToDB_eq s2)).
    destruct (reorganize_ok ParsePubKey SerializeUncompressed CalculateRoughMapSize CalculateMinEntries iter DoubleHash params checkBlockScripts dbByHash now adjustedTime
      forms iter_all hash_len Hvp W HW D (flushed s2) t f x detach attach H3 (down_extends _ Hw _ _ _ _ He Ht Hd) (up_extends _ _ _ _ _ He Hu)) as (s4 & r & D4 & E4 & Hn4 & H4);
      [now rewrite (sn_length _ _ Hn3)|].
    exists s4, r, D4, (match r with Ok _ => x | _ => t end). split; [exact E4|]. split; [exact H4|]. split; [exact (same_nodes_trans _ _ _ Hn3 Hn4)|]. destruct r; auto.
Qed.

Lemma reconsider_ok D s t hash : ok D s t -> exists s' r D' t', reconsider hash s = (s', r) /\ ok D' s' t' /\ same_nodes s s' /\
  bn_workSum (deref (arenaOf s) t) <= bn_workSum (deref (arenaOf s) t').
Proof.
  intros H. pose proof (co_core H) as Hc. unfold ReconsiderBlock. rewrite get_bind.
  assert (Hno : forall s1 (r : outcome ruleErr unit), still D (ledger (arenaOf s) (blocksOf s) t) t s s1 -> exists s' r' D' t', (s1, r) = (s', r') /\ ok D' s' t' /\
    same_nodes s s' /\ bn_workSum (deref (arenaOf s) t) <= bn_workSum (deref (arenaOf s) t')).
  { intros s1 r Hst. exists s1, r, D, t. split; [reflexivity|]. split; [exact (still_chain _ _ _ _ D s s1 t H Hst)|]. split; [exact (sl_nodes _ _ _ _ _ _ _ _ _ Hst) | reflexivity]. }
  pose proof (still_refl _ _ _ _ D _ t s Hc (co_set H)) as H0. destruct (LookupNode (ch_index s) hash) as [node|] eqn:El; [|now apply Hno].
  destruct (io_sound _ (to_index _ (ck_tree Hc)) _ _ El) as [Hx _]. destruct (KnownValid _); [now apply Hno|].
  pose proof (unset_still D _ t s s node statusInvalidAncestor H0 Hx) as H1. set (s1 := with_index s _) in H1.
  pose proof (unset_still D _ t s s1 node statusValidateFailed H1 ltac:(rewrite (sn_length _ _ (sl_nodes _ _ _ _ _ _ _ _ _ H1)); exact Hx)) as H2. set (s2 := with_index s1 _) in H2.
  unfold bindM at 1, unsetStatusM at 1, modifyM. fold s1. unfold bindM at 1, unsetStatusM, modifyM. fold s2. rewrite get_bind.
  pose proof (still_chain _ _ _ _ D s s2 t H H2) as K2. pose proof (co_core K2) as Hc2. pose proof (sl_nodes _ _ _ _ _ _ _ _ _ H2) as Hn2.
  destruct (tips_ok s2 t Hc2) as (tips & E & Htips). unfold liftC, lift_chain. rewrite E. unfold liftM. unfold bindM at 1.
  rewrite (bind_Ok _ _ _ _ _ (core_tipM _ _ _ _ _ _ Hc2)).
  set (P := fun x => (x < List.length (arenaOf s))%nat /\ (x = t \/ exists p, bn_parent (deref (arenaOf s) x) = Some p)).
  destruct (clearTips_ok P D (ledger (arenaOf s) (blocksOf s) t) t s node (tips ++ [t]) Hc) with (rt := @None nat) (s' := s2) as (s3 & rt & E3 & H3 & Hrt); [|exact H2 | discriminate|].
  { apply Forall_app. pose proof (core_tip _ _ Hc) as Ht. split; [|constructor; [split; [exact Ht | split; [exact Ht | now left]] | constructor]].
    eapply Forall_impl; [exact Htips|]. intros x [Hxl [p Hp]]. rewrite (sn_length _ _ Hn2) in Hxl. rewrite (ex_parent _ _ (sn_extends _ _ Hn2) x Hxl) in Hp.
    split; [exact Hxl|]. split; [exact Hxl | eauto]. }
  rewrite (bind_Ok _ _ _ _ _ E3). destruct rt as [x|]; [|now apply Hno]. destruct (Hrt x eq_refl) as [Hxl Hxp]. rewrite !node_bind.
  pose proof (sl_nodes _ _ _ _ _ _ _ _ _ H3) as Hn3. pose proof (sn_extends _ _ Hn3) as He. pose proof (core_tip _ _ Hc) as Ht.
  rewrite (ex_work _ _ He x Hxl), (ex_work _ _ He t Ht). destruct (Z.leb_spec (bn_workSum (deref (arenaOf s) x)) (bn_workSum (deref (arenaOf s) t))) as [_|Hgt]; [now apply Hno|].
  destruct Hxp as [->|[p Hp]]; [lia|].
  destruct (checked_switch D s3 t x p (still_chain _ _ _ _ D s s3 t H H3)) as (s4 & r & D4 & t4 & E4 & K4 & Hn4 & Hwh); [now rewrite (sn_length _ _ Hn3) | now rewrite (ex_parent _ _ He x Hxl)|].
  exists s4, r, D4, t4. split; [exact E4|]. split; [exact K4|]. split; [exact (same_nodes_trans _ _ _ Hn3 Hn4)|]. destruct Hwh as [->| ->]; lia.
Qed.
End Invalidate.
