(* ===== verification/Node.v ===== *)
(** * The node

    A node starts from the genesis block and processes whatever blocks and
    headers come in, at any times and in any order, and whatever blocks its
    operator invalidates and reconsiders.  The theorems here say what holds after
    any such history. *)

From Stdlib Require Import ZArith List Lia Bool String.
From stdpp Require Import gmap.
From S2P Require Import Prelude GoSlice GoIO WireCommon WireTx WireMsgs Merkle Compress Script Difficulty ChainIO BlockIndex ChainView Retarget Index Threshold Growth UtxoView UtxoCache Rules Connect Supply ViewSync Branches Chain Orphans Reorg Accept Invalidate.
Import ListNotations.
Local Open Scope string_scope.
Local Open Scope list_scope.
Local Open Scope Z_scope.
Local Open Scope go_scope.
Local Open Scope chain_scope.

Section Start.
Context {PubKey : Type} (ParsePubKey : list Z -> option PubKey).
Context (CalculateMinEntries : Z -> Z -> Z).
Context (DoubleHash : list Z -> list Z).
Context (params : RuleParams).
Context (W : universe).
Hypothesis hash_len : forall l, len (DoubleHash l) = 32.
Hypothesis Hvp : votes_ok (rp_votes params).
Hypothesis HW : universe_ok DoubleHash W.
Context (g : MsgBlock).
Hypothesis Hg : sound_block DoubleHash W g.
Hypothesis Hprev : bh_PrevBlock (mb_Header g) = zeroHash.

Abbreviation hash := (BlockHash DoubleHash (mb_Header g)).
Definition genesisNode : blockNode := with_status (initBlockNode DoubleHash [] (mb_Header g) None) (Z.lor statusDataStored statusValid).
Definition genesisIndex : blockIndex := mkIndex [genesisNode] {[ hash := 0%nat ]} ∅.

Lemma genesis_wf : arena_wf [genesisNode].
Proof.
  destruct (newBlockNode_ok DoubleHash [] (mb_Header g) None arena_wf_nil I) as (Hw & _).
  apply (arena_wf_extends [initBlockNode DoubleHash [] (mb_Header g) None]); [exact Hw | | reflexivity].
  split; [reflexivity|]. intros [|id] Hid; [reflexivity | cbn in Hid; lia].
Qed.

Lemma genesis_header : un_header W hash = Some (mb_Header g).
Proof. exact (un_body _ _ HW _ _ (proj1 Hg)). Qed.

Lemma genesis_tree : tree_ok genesisIndex.
Proof.
  split.
  - exact genesis_wf.
  - split.
    + intros [|id] Hid; [apply lookup_singleton_eq | cbn in Hid; lia].
    + intros h id H. unfold LookupNode in H. cbn [genesisIndex bi_index] in H. apply lookup_singleton_Some in H. destruct H as [<- <-]. split; [cbn; lia | reflexivity].
  - unfold LookupNode. cbn [genesisIndex bi_index]. apply lookup_singleton_ne. intros E. pose proof genesis_header as H. rewrite E, (proj1 (un_zero _ _ HW)) in H. discriminate.
  - intros [|id] p m Hid Hp; [discriminate | cbn in Hid; lia].
Qed.

(** What the state of a new chain is made of. *)
Record started (max : Z) (s : chainState) : Prop := {
  sd_index : ch_index s = genesisIndex;
  sd_best : view_ok [genesisNode] (ch_bestChain s) (Some 0%nat);
  sd_header : view_ok [genesisNode] (ch_bestHeader s) (Some 0%nat);
  sd_blocks : blocksOf s = {[ hash := g ]};
  sd_hash : cd_hashIndex (ch_db s) = {[ hash := le_put 4 0 ]};
  sd_height : cd_heightIndex (ch_db s) = {[ le_put 4 0 := hash ]};
  sd_votes : ch_warnings s = newThresholdCaches vbNumBits /\ ch_deployments s = newThresholdCaches (List.length (Deployments (rp_votes params)));
  sd_snapshot : bst_Hash (ch_snapshot s) = hash /\ bst_Height (ch_snapshot s) = 0;
  sd_cache : ch_cache s = newUtxoCache CalculateMinEntries max /\ cd_utxo (ch_db s) = mkUtxoDB ∅ None;
  sd_pool : ch_orphans s = ∅ /\ ch_prevOrphans s = ∅ /\ ch_oldestOrphan s = None
}.

Lemma genesis_only x : (x < 1)%nat -> x = 0%nat.
Proof. lia. Qed.

Lemma genesis_main s max : started max s -> main_index [genesisNode] (ch_db s) 0.
Proof.
  intros H. split; rewrite ?(sd_hash _ _ H), ?(sd_height _ _ H).
  - intros x Hx _. rewrite (genesis_only x Hx). apply lookup_singleton_eq.
  - intros h [v Hv]. apply lookup_singleton_Some in Hv. destruct Hv as [<- _]. exists 0%nat. split; [cbn; lia|]. split; [split; [lia | apply ancestorAt_self] | reflexivity].
  - intros x Hx _. rewrite (genesis_only x Hx). apply lookup_singleton_eq.
  - intros h Hh. apply lookup_singleton_ne. intros E. change (height_of [genesisNode] 0) with 0 in Hh. apply le_put_inj in E; lia.
Qed.

Lemma genesis_core s max : started max s -> chain_core ParsePubKey DoubleHash params W s 0.
Proof.
  intros H. pose proof (sd_index _ _ H) as Ei.
  assert (Hv : valid_to DoubleHash params (arenaOf s) (blocksOf s) 0).
  { rewrite Ei, (sd_blocks _ _ H). apply (valid_root _ _ _ _ 0%nat (mkBlock g 0)); [reflexivity | unfold blockOf; cbn [genesisIndex bi_nodes deref nth genesisNode with_status initBlockNode bn_hash]; now rewrite lookup_singleton_eq | reflexivity]. }
  split; rewrite ?Ei; cbn [genesisIndex bi_nodes].
  - exact genesis_tree.
  - intros x Hx _. exact (genesis_only x Hx).
  - intros x Hx. rewrite (genesis_only x Hx). exists (mb_Header g). split; [exact genesis_header | exact Hprev].
  - intros h m. rewrite (sd_blocks _ _ H). intros Hm. apply lookup_singleton_Some in Hm. destruct Hm as [<- <-]. exact Hg.
  - exists 0%nat. exact (sd_header _ _ H).
  - exact (sd_best _ _ H).
  - rewrite Ei in Hv. exact Hv.
  - intros x Hx _. rewrite (genesis_only x Hx). rewrite Ei in Hv. exact Hv.
  - intros x p b Hx _ Hp. rewrite (genesis_only x Hx) in Hp. discriminate.
  - exact (genesis_main s max H).
  - destruct (sd_votes _ _ H) as [-> ->]. apply fresh_caches_ok.
  - exact (sd_snapshot _ _ H).
Qed.

Lemma genesis_state s max : started max s -> node_state ParsePubKey DoubleHash params W ∅ s 0.
Proof.
  intros H. assert (HL : ledgerAt DoubleHash (arenaOf s) (blocksOf s) 0 = ∅) by (rewrite (sd_index _ _ H); reflexivity).
  assert (Hrep : db_rep ParsePubKey (mkUtxoDB ∅ None) ∅) by (split; [intros op c E; rewrite lookup_empty in E; discriminate | reflexivity]).
  destruct (newUtxoCache_inv ParsePubKey CalculateMinEntries _ ∅ max Hrep) as [Hi Ha]. destruct (sd_cache _ _ H) as [Ec Eu]. destruct (sd_pool _ _ H) as (P1 & P2 & P3).
  assert (Hnone : forall h, waiting s h = []) by (intros h; unfold waiting; now rewrite P2, lookup_empty).
  split; [split|split].
  - exact (genesis_core s max H).
  - rewrite HL. split; [now rewrite Ec, Eu | now rewrite Ec].
  - intros k Hk. apply elem_of_dom in Hk. destruct Hk as [c Hc]. now rewrite lookup_empty in Hc.
  - split.
    + intros h o E. now rewrite P1, lookup_empty in E.
    + intros h o E. rewrite Hnone in E. inversion E.
    + intros o. rewrite P1, lookup_empty, Hnone. split; [discriminate | inversion 1].
    + intros h o E. rewrite Hnone in E. inversion E.
    + intros o E. rewrite P3 in E. discriminate.
  - rewrite P1, map_size_empty. unfold maxOrphanBlocks. lia.
  - rewrite P3. intros E. now contradiction E.
Qed.

Lemma store_first db : cd_blocks db = ∅ -> dbStoreBlock DoubleHash db (mkBlock g 0) =
  mkChainDB (cd_utxo db) {[ hash := g ]} (cd_journal db) (cd_hashIndex db) (cd_heightIndex db) (cd_best db) (cd_rows db).
Proof. intros E. unfold dbStoreBlock. now rewrite E, lookup_empty. Qed.

(** The rows that createChainState writes. *)
Lemma create_rows s state : ch_db s = mkChainDB (mkUtxoDB ∅ None) ∅ ∅ ∅ ∅ None ∅ -> len (bst_Hash state) = 32 -> is_u64 (bst_TotalTxns state) ->
  exists db, Update (
      dbM (fun db => Ok (mkChainDB (cd_utxo db) (cd_blocks db) (cd_journal db) (cd_hashIndex db) (cd_heightIndex db) (cd_best db)
                           (dbStoreBlockNode (cd_rows db) [genesisNode] 0))) ;!
      dbM (fun db => Ok (dbPutBlockIndex db (bn_hash genesisNode) (bn_height genesisNode))) ;!
      dbM (fun db => dbPutBestState db state (bn_workSum genesisNode)) ;!
      dbM (fun db => Ok (storeSpendJournal (blockHash DoubleHash (mkBlock g 0)) [] db)) ;!
      dbM (fun db => Ok (dbStoreBlock DoubleHash db (mkBlock g 0)))) s = (with_db s db, Ok tt) /\
    cd_blocks db = {[ hash := g ]} /\ cd_hashIndex db = {[ hash := le_put 4 0 ]} /\ cd_heightIndex db = {[ le_put 4 0 := hash ]} /\
    cd_utxo db = mkUtxoDB ∅ None.
Proof.
  intros Edb Hlen Hu.
  set (db1 := mkChainDB (mkUtxoDB ∅ None) ∅ ∅ ∅ ∅ None (dbStoreBlockNode ∅ [genesisNode] 0)). set (db2 := dbPutBlockIndex db1 (bn_hash genesisNode) (bn_height genesisNode)).
  destruct (dbPutBestState_ok [genesisNode] db2 state 0 genesis_wf ltac:(cbn; lia) Hlen Hu) as [bytes Eb].
  set (db3 := mkChainDB (cd_utxo db2) (cd_blocks db2) (cd_journal db2) (cd_hashIndex db2) (cd_heightIndex db2) (Some bytes) (cd_rows db2)) in *.
  set (db4 := storeSpendJournal (blockHash DoubleHash (mkBlock g 0)) [] db3). exists (dbStoreBlock DoubleHash db4 (mkBlock g 0)).
  split; [|rewrite store_first by reflexivity; repeat split; reflexivity]. apply Update_ok.
  rewrite (bind_Ok _ _ s (with_db s db1) tt) by (apply dbM_ok; now rewrite Edb).
  rewrite (bind_Ok _ _ (with_db s db1) (with_db s db2) tt) by (now apply (dbM_ok _ (with_db s db1))).
  rewrite (bind_Ok _ _ (with_db s db2) (with_db s db3) tt) by (now apply (dbM_ok _ (with_db s db2))).
  rewrite (bind_Ok _ _ (with_db s db3) (with_db s db4) tt) by (now apply (dbM_ok _ (with_db s db3))). now apply (dbM_ok _ (with_db s db4)).
Qed.

(** A new chain starts at the genesis block. *)
Lemma create_started max : exists s, createChainState DoubleHash g (newChain CalculateMinEntries params max) = (s, Ok tt) /\ started max s.
Proof.
  assert (Hev : view_ok [genesisNode] emptyView None) by (split; unfold emptyView; cbn [cv_len cv_backing]; change (len []) with 0; try reflexivity; lia).
  destruct (setTip_ok [genesisNode] emptyView None 0 genesis_wf Hev ltac:(cbn; lia)) as (c & Ec & Hc); [unfold maxViewHeight; cbn; lia|].
  assert (Hset : forall s (k : unit -> M unit), arenaOf s = [genesisNode] -> ch_bestChain s = emptyView -> bindM (setTipM (Some 0%nat)) k s = k tt (with_bestChain s c))
    by (intros s k E1 E2; unfold setTipM, bindM, getM, liftU; now rewrite E1, E2, Ec).
  assert (Hset' : forall s (k : unit -> M unit), arenaOf s = [genesisNode] -> ch_bestHeader s = emptyView -> bindM (setHeaderTipM 0) k s = k tt (with_bestHeader s c))
    by (intros s k E1 E2; unfold setHeaderTipM, bindM, getM, liftU; now rewrite E1, E2, Ec).
  unfold createChainState. rewrite get_bind. unfold newChain at 1. cbn [ch_index newBlockIndex bi_nodes bi_index bi_dirty newBlockNode app List.length].
  change (<[0%nat := _]> [_]) with [genesisNode]. cbn beta iota zeta.
  unfold bindM at 1, modifyM at 1. rewrite Hset by reflexivity. rewrite Hset' by reflexivity. unfold bindM at 1, modifyM at 1. unfold bindM at 1, modifyM at 1.
  change (deref [genesisNode] 0) with genesisNode. set (state := newBestState genesisNode _ _ _ _ _).
  match goal with |- exists s, Update _ ?s0 = _ /\ _ => destruct (create_rows s0 state eq_refl) as (db & E & D1 & D2 & D3 & D4) end;
    [apply hash_len | apply u64_range|].
  rewrite E. eexists. split; [reflexivity|].
  split; cbn [with_db with_snapshot with_index with_bestHeader with_bestChain newChain ch_index ch_bestChain ch_bestHeader ch_db ch_snapshot ch_warnings ch_deployments
    ch_cache ch_orphans ch_prevOrphans ch_oldestOrphan]; auto.
Qed.
End Start.

(** ** The supply of a valid chain *)

Section Amounts.
Context (DoubleHash : list Z -> list Z) (params : RuleParams).

Lemma issued_nonneg n : 0 <= issued params n.
Proof. induction n as [|n IH]; cbn [issued]; [lia|]. pose proof (CalcBlockSubsidy_range params (Z.of_nat n)). lia. Qed.

Lemma valid_amounts U b : block_form DoubleHash b -> block_valid DoubleHash params U b -> amounts_pos U ->
  amounts_pos (applyBlock DoubleHash U b) /\ total (applyBlock DoubleHash U b) <= total U + CalcBlockSubsidy (blk_height b) params.
Proof.
  intros Hf (cb & rest & fees & Et & Hp & Hle) Hpos. destruct (bf_shape _ _ Hf) as (cb' & rest' & Et' & Hc & Hcr). rewrite Et in Et'. injection Et' as <- <-.
  pose proof (bf_sane _ _ Hf) as Hts. rewrite Et in Hts. unfold applyBlock. rewrite Et. now apply paid_total with (fees := fees).
Qed.

Lemma valid_total a B x : arena_wf a -> (x < List.length a)%nat -> valid_to DoubleHash params a B x ->
  amounts_pos (ledgerAt DoubleHash a B x) /\ total (ledgerAt DoubleHash a B x) <= issued params (S (Z.to_nat (height_of a x))).
Proof.
  intros Hw Hx H. revert Hx. induction H as [x b Hp Hb Hh | x p b Hp Hv IH Hb Hst Hbv]; intros Hx.
  - unfold ledgerAt, chainTo. cbn [chainOf]. rewrite Hp. cbn [fold_left]. split; [intros op c E; rewrite lookup_empty in E; discriminate|].
    change (total ∅) with 0. apply issued_nonneg.
  - destruct (height_parent a x p Hw Hx Hp) as (Hlt & Hpl & Hh). destruct (IH Hpl) as [H1 H2].
    rewrite (ledgerAt_parent DoubleHash a B Hw x p b Hx Hp Hb).
    destruct (valid_amounts _ b (sb_form _ _ _ _ _ _ Hst) Hbv H1) as [H3 H4]. split; [exact H3|].
    assert (Eb : blk_height b = height_of a x) by (unfold blockOf in Hb; destruct (B !! _); [now injection Hb as <- | discriminate]).
    pose proof (aw_height a Hw p Hpl) as Hp0. rewrite Eb in H4. rewrite Hh in *. replace (Z.to_nat (height_of a p + 1)) with (S (Z.to_nat (height_of a p))) by lia.
    cbn [issued] in *. replace (Z.of_nat (S (Z.to_nat (height_of a p)))) with (height_of a p + 1) by lia. lia.
Qed.
End Amounts.

(** ** Histories *)

(** What the node does not control when something comes in: the clock and the
    median time of its peers, the order in which Go walks through the entries of
    the cache, the orphans and the nodes, and the verdict on the scripts. *)
Record occasion : Type := mkOccasion {
  oc_now : Z;
  oc_time : Z;
  oc_iter : entryMap -> list (OutPoint * option UtxoEntry);
  oc_orphans : gmap (list Z) orphanBlock -> list (list Z * orphanBlock);
  oc_nodes : gmap (list Z) nat -> list (list Z * nat);
  oc_scripts : Block -> UtxoViewpoint -> Z -> verdict
}.

Inductive event : Type :=
| BlockIn (msg : MsgBlock) (flags : Z) (o : occasion)
| HeaderIn (header : BlockHeader) (flags : Z) (o : occasion)
| InvalidateIn (hash : list Z) (o : occasion)
| ReconsiderIn (hash : list Z) (o : occasion).

(** What an operator does can take work from the best chain. *)
Definition lowers (e : event) : bool := match e with InvalidateIn _ _ => true | _ => false end.

Section History.
Context {PubKey : Type} (ParsePubKey : list Z -> option PubKey)
        (SerializeUncompressed : PubKey -> list Z).
Context (CalculateRoughMapSize : Z -> Z -> Z) (CalculateMinEntries : Z -> Z -> Z).
Context (DoubleHash : list Z -> list Z).
Context (params : RuleParams).
Context (dbByHash : utxoDB -> list Z -> outcome chainErr (option UtxoEntry)).

Definition runEvent (s : chainState) (e : event) : chainState :=
  match e with
  | BlockIn msg flags o =>
      fst (ProcessBlock ParsePubKey SerializeUncompressed CalculateRoughMapSize CalculateMinEntries (oc_iter o) DoubleHash params
             (oc_scripts o) dbByHash (oc_now o) (oc_time o) (oc_orphans o) msg flags s)
  | HeaderIn header flags o => fst (ProcessBlockHeader DoubleHash params (oc_time o) header flags s)
  | InvalidateIn hash o =>
      fst (InvalidateBlock ParsePubKey SerializeUncompressed CalculateRoughMapSize CalculateMinEntries (oc_iter o) DoubleHash params
             (oc_scripts o) dbByHash (oc_now o) (oc_time o) (oc_nodes o) hash s)
  | ReconsiderIn hash o =>
      fst (ReconsiderBlock ParsePubKey SerializeUncompressed CalculateRoughMapSize CalculateMinEntries (oc_iter o) DoubleHash params
             (oc_scripts o) dbByHash (oc_now o) (oc_time o) (oc_nodes o) hash s)
  end.

Definition runEvents (s : chainState) (es : list event) : chainState := fold_left runEvent es s.

(** A new chain on the genesis block [g]. *)
Definition startChain (g : MsgBlock) (max : Z) : chainState := fst (createChainState DoubleHash g (newChain CalculateMinEntries params max)).

Context (W : universe).

(** The loops over maps visit every entry once. *)
Record orders_ok (o : occasion) : Prop := {
  or_iter : forall m, oc_iter o m ≡ₚ map_to_list m;
  or_orphans : forall m, oc_orphans o m ≡ₚ map_to_list m;
  or_nodes : forall m, oc_nodes o m ≡ₚ map_to_list m
}.

Definition event_ok (e : event) : Prop :=
  match e with
  | BlockIn msg flags o => incoming DoubleHash W msg /\ has_flag flags BFFastAdd = false /\ orders_ok o
  | HeaderIn header flags o => un_header W (BlockHash DoubleHash header) = Some header /\ has_flag flags BFFastAdd = false
  | InvalidateIn _ o | ReconsiderIn _ o => orders_ok o
  end.

Hypothesis forms : pubkey_forms ParsePubKey SerializeUncompressed.
Hypothesis hash_len : forall l, len (DoubleHash l) = 32.
Hypothesis Hvp : votes_ok (rp_votes params).
Hypothesis HW : universe_ok DoubleHash W.

Abbreviation state := (node_state ParsePubKey DoubleHash params W).

(** The tree grows, and only an invalidation takes work from the best chain. *)
Record onward (kept : Prop) (s s' : chainState) (t t' : nat) : Prop := {
  on_extends : extends (arenaOf s) (arenaOf s');
  on_blocks : blocksOf s ⊆ blocksOf s';
  on_work : kept -> bn_workSum (deref (arenaOf s) t) <= bn_workSum (deref (arenaOf s') t')
}.

Lemma progress_onward kept s s' t t' : progress s s' t t' -> onward kept s s' t t'.
Proof. intros [H1 H2 H3]. now split. Qed.

Lemma state_nodes D s t D' s' t' : state D s t -> chain_ok ParsePubKey DoubleHash params W D' s' t' -> poolOf s' = poolOf s -> state D' s' t'.
Proof. intros [_ Hp] H E. split; [exact H | exact (pool_same _ _ _ _ E Hp)]. Qed.

Lemma invalidate_state D s t hash o : state D s t -> orders_ok o -> exists D' t', state D' (runEvent s (InvalidateIn hash o)) t' /\
  onward False s (runEvent s (InvalidateIn hash o)) t t'.
Proof.
  intros H [Hi _ Hn]. cbn [runEvent]. pose proof (keeps_invalidate ParsePubKey SerializeUncompressed CalculateRoughMapSize CalculateMinEntries (oc_iter o) DoubleHash
    params (oc_scripts o) dbByHash (oc_now o) (oc_time o) (oc_nodes o) hash s) as Hk.
  destruct (invalidate_ok ParsePubKey SerializeUncompressed CalculateRoughMapSize CalculateMinEntries (oc_iter o) DoubleHash params (oc_scripts o) dbByHash
    (oc_now o) (oc_time o) W forms Hi hash_len Hvp HW (oc_nodes o) Hn D s t hash (ns_chain _ _ _ _ _ _ _ H)) as (s' & r & D' & t' & E & H' & [He _ Hb] & _).
  rewrite E in Hk |- *. exists D', t'. split; [exact (state_nodes D s t D' s' t' H H' Hk)|]. split; [exact He | cbn [fst]; now rewrite Hb | contradiction].
Qed.

Lemma reconsider_state D s t hash o kept : state D s t -> orders_ok o -> exists D' t', state D' (runEvent s (ReconsiderIn hash o)) t' /\
  onward kept s (runEvent s (ReconsiderIn hash o)) t t'.
Proof.
  intros H [Hi _ Hn]. cbn [runEvent]. pose proof (keeps_reconsider ParsePubKey SerializeUncompressed CalculateRoughMapSize CalculateMinEntries (oc_iter o) DoubleHash
    params (oc_scripts o) dbByHash (oc_now o) (oc_time o) (oc_nodes o) hash s) as Hk.
  destruct (reconsider_ok ParsePubKey SerializeUncompressed CalculateRoughMapSize CalculateMinEntries (oc_iter o) DoubleHash params (oc_scripts o) dbByHash
    (oc_now o) (oc_time o) W forms Hi hash_len Hvp HW (oc_nodes o) Hn D s t hash (ns_chain _ _ _ _ _ _ _ H)) as (s' & r & D' & t' & E & H' & [He Hl Hb] & Hwk).
  rewrite E in Hk |- *. exists D', t'. split; [exact (state_nodes D s t D' s' t' H H' Hk)|]. cbn [fst]. split; [exact He | now rewrite Hb|]. intros _.
  rewrite (ex_work _ _ He t'); [exact Hwk|]. rewrite <- Hl. exact (core_tip _ _ _ _ s' t' (co_core _ _ _ _ _ _ _ H')).
Qed.

Lemma runEvent_ok D s t e : state D s t -> event_ok e -> exists D' t', state D' (runEvent s e) t' /\ onward (lowers e = false) s (runEvent s e) t t'.
Proof.
  intros H He. destruct e as [msg flags o | header flags o | hash o | hash o]; cbn [event_ok] in He.
  - destruct He as (Hm & Hf & [Hi Ho _]).
    destruct (process_ok ParsePubKey SerializeUncompressed CalculateRoughMapSize CalculateMinEntries (oc_iter o) DoubleHash params (oc_scripts o)
      dbByHash (oc_now o) (oc_time o) W forms Hi hash_len Hvp HW (oc_orphans o) Ho D s t msg flags H Hm Hf) as (s' & r & D' & t' & E & H' & Hp & _).
    cbn [runEvent]. rewrite E. exists D', t'. split; [exact H' | exact (progress_onward _ _ _ _ _ Hp)].
  - destruct He as [Hm Hf].
    destruct (header_state ParsePubKey DoubleHash params (oc_time o) W Hvp HW D s t header flags H Hm Hf) as (s' & r & E & H' & Hp).
    cbn [runEvent]. rewrite E. exists D, t. split; [exact H' | exact (progress_onward _ _ _ _ _ Hp)].
  - destruct (invalidate_state D s t hash o H He) as (D' & t' & H' & [H1 H2 _]). exists D', t'. split; [exact H'|]. split; [exact H1 | exact H2 | discriminate].
  - exact (reconsider_state D s t hash o _ H He).
Qed.

Lemma runEvents_ok es : forall D s t, state D s t -> Forall event_ok es ->
  exists D' t', state D' (runEvents s es) t' /\ onward (Forall (fun e => lowers e = false) es) s (runEvents s es) t t'.
Proof.
  induction es as [|e es IH]; intros D s t H Hes; [exists D, t; split; [exact H|]; split; [apply extends_refl | reflexivity | reflexivity]|].
  apply Forall_cons in Hes. destruct Hes as [He Hes]. destruct (runEvent_ok D s t e H He) as (D1 & t1 & H1 & [E1 B1 W1]).
  destruct (IH D1 _ t1 H1 Hes) as (D2 & t2 & H2 & [E2 B2 W2]). exists D2, t2. split; [exact H2|].
  split; [exact (extends_trans _ _ _ E1 E2) | etransitivity; eassumption|]. intros Hl. apply Forall_cons in Hl. destruct Hl as [Hl1 Hl2].
  exact (Z.le_trans _ _ _ (W1 Hl1) (W2 Hl2)).
Qed.

Lemma startChain_ok g max : sound_block DoubleHash W g -> bh_PrevBlock (mb_Header g) = zeroHash -> state ∅ (startChain g max) 0.
Proof.
  intros Hg Hprev. destruct (create_started CalculateMinEntries DoubleHash params hash_len g max) as (s & E & Hs).
  unfold startChain. rewrite E. exact (genesis_state ParsePubKey CalculateMinEntries DoubleHash params W HW g Hg Hprev s max Hs).
Qed.
End History.

(** ** The universe of a list of blocks *)

Section Listed.
Context (DoubleHash : list Z -> list Z).
Abbreviation hashOf m := (BlockHash DoubleHash (mb_Header m)).
Abbreviation tids m := (map (txHash DoubleHash) (mb_Transactions m)).

Definition blockIn (ms : list (MsgBlock * Z)) (h : list Z) : option (MsgBlock * Z) := List.find (fun p => bytes_eqb (hashOf (fst p)) h) ms.

Definition universeOf (ms : list (MsgBlock * Z)) : universe :=
  mkUniverse (fun h => option_map (fun p => mb_Header (fst p)) (blockIn ms h)) (fun h => option_map fst (blockIn ms h))
    (fun h => match blockIn ms h with Some p => snd p | None => -1 end).

(** The heights follow the links, and blocks with different hashes have
    different transactions. *)
Definition listed (ms : list (MsgBlock * Z)) : bool :=
  forallb (fun p => (snd p =? un_height (universeOf ms) (bh_PrevBlock (mb_Header (fst p))) + 1) && (snd p <=? maxViewHeight)) ms &&
  forallb (fun p => forallb (fun q => bytes_eqb (hashOf (fst p)) (hashOf (fst q)) ||
    forallb (fun id => negb (existsb (bytes_eqb id) (tids (fst q)))) (tids (fst p))) ms) ms &&
  match blockIn ms zeroHash with None => true | Some _ => false end.

Lemma blockIn_spec ms h p : blockIn ms h = Some p -> In p ms /\ hashOf (fst p) = h.
Proof. intros H. apply List.find_some in H. destruct H as [H1 H2]. now apply bytes_eqb_eq in H2. Qed.

Lemma universeOf_ok ms : listed ms = true -> universe_ok DoubleHash (universeOf ms).
Proof.
  intros H. apply andb_true_iff in H. destruct H as [H Hz]. apply andb_true_iff in H. destruct H as [Hn Hf]. rewrite forallb_forall in Hn, Hf.
  assert (Hnext : forall h hdr, un_header (universeOf ms) h = Some hdr ->
    un_height (universeOf ms) h = un_height (universeOf ms) (bh_PrevBlock hdr) + 1 /\ un_height (universeOf ms) h <= maxViewHeight).
  { intros h hdr. cbn [universeOf un_header un_height]. destruct (blockIn ms h) as [p|] eqn:E; [|discriminate]. intros [= <-].
    apply blockIn_spec in E. destruct E as [Hp _]. specialize (Hn p Hp). apply andb_true_iff in Hn. destruct Hn as [H1 H2].
    apply Z.eqb_eq in H1. apply Z.leb_le in H2. now split. }
  assert (Hlt : forall h' h, before (universeOf ms) h' h -> un_height (universeOf ms) h' < un_height (universeOf ms) h).
  { induction 1 as [h hdr E | h' h hdr E Hb IH]; destruct (Hnext h hdr E); lia. }
  split.
  - intros h hdr. cbn. destruct (blockIn ms h) as [p|] eqn:E; [|discriminate]. intros [= <-]. now apply blockIn_spec in E.
  - intros h m. cbn. destruct (blockIn ms h) as [p|]; [|discriminate]. now intros [= <-].
  - intros h' h m m' id Hb Hm Hm' Hid Hid'. apply Hlt in Hb. cbn in Hm, Hm'.
    destruct (blockIn ms h) as [p|] eqn:E; [|discriminate]. destruct (blockIn ms h') as [p'|] eqn:E'; [|discriminate]. injection Hm as <-. injection Hm' as <-.
    apply blockIn_spec in E, E'. destruct E as [Hp Eh], E' as [Hp' Eh']. specialize (Hf p Hp). rewrite forallb_forall in Hf. specialize (Hf p' Hp').
    apply orb_true_iff in Hf. destruct Hf as [Hf|Hf]; [apply bytes_eqb_eq in Hf; rewrite <- Eh, <- Eh', Hf in Hb; lia|].
    rewrite forallb_forall in Hf. apply list_elem_of_In in Hid, Hid'. specialize (Hf id Hid'). apply negb_true_iff in Hf.
    assert (Ht : existsb (bytes_eqb id) (tids (fst p')) = true) by (apply existsb_exists; exists id; split; [exact Hid | apply bytes_eqb_refl]). congruence.
  - exact Hnext.
  - cbn [universeOf un_header un_height]. destruct (blockIn ms zeroHash); [discriminate | split; reflexivity].
Qed.
End Listed.

(** ** Properties *)

Section Node.
Context {PubKey : Type} (ParsePubKey : list Z -> option PubKey)
        (SerializeUncompressed : PubKey -> list Z).
Context (CalculateRoughMapSize : Z -> Z -> Z) (CalculateMinEntries : Z -> Z -> Z).
Context (DoubleHash : list Z -> list Z).
Context (params : RuleParams).
Context (dbByHash : utxoDB -> list Z -> outcome chainErr (option UtxoEntry)).
Context (W : universe) (g : MsgBlock) (max : Z).
Hypothesis forms : pubkey_forms ParsePubKey SerializeUncompressed.
Hypothesis hash_len : forall l, len (DoubleHash l) = 32.
Hypothesis Hvp : votes_ok (rp_votes params).
Hypothesis HW : universe_ok DoubleHash W.
Hypothesis Hg : sound_block DoubleHash W g.
Hypothesis Hprev : bh_PrevBlock (mb_Header g) = zeroHash.

Abbreviation run := (runEvents ParsePubKey SerializeUncompressed CalculateRoughMapSize CalculateMinEntries DoubleHash params dbByHash).

(** A state of the node after some history. *)
Definition nodeAfter (es : list event) : chainState := run (startChain CalculateMinEntries DoubleHash params g max) es.

Definition tipWork (s : chainState) : Z :=
  match tip (ch_bestChain s) with Some t => bn_workSum (deref (arenaOf s) t) | None => 0 end.

Lemma history_state es : Forall (event_ok DoubleHash W) es -> exists D t, node_state ParsePubKey DoubleHash params W D (nodeAfter es) t.
Proof.
  intros Hes. pose proof (startChain_ok ParsePubKey CalculateMinEntries DoubleHash params W hash_len HW g max Hg Hprev) as H0.
  destruct (runEvents_ok ParsePubKey SerializeUncompressed CalculateRoughMapSize CalculateMinEntries DoubleHash params dbByHash W forms hash_len Hvp HW
    es ∅ _ 0%nat H0 Hes) as (D & t & H & _). exists D, t. exact H.
Qed.

Lemma state_tip D s t : node_state ParsePubKey DoubleHash params W D s t -> tip (ch_bestChain s) = Some t.
Proof. intros [[Hc _ _] _]. exact (tip_spec _ _ _ (to_wf _ (ck_tree _ _ _ _ _ _ Hc)) (ck_view _ _ _ _ _ _ Hc)). Qed.

(** C1: for a node that keeps the set of unspent outputs, with a subsidy reduction
    interval that is positive and at most 210,000 blocks, after any sequence of
    blocks, headers, invalidations and reconsiderations under the assumptions below,
    at any times, with any orphans, reorganizations and failures among them: the
    best chain ends in a block that is valid with all the blocks before it (its
    inputs exist, are mature and pay for its outputs, and the coinbase takes no more
    than subsidy and fees), the cache over the database holds exactly the set of
    unspent outputs of a ledger that applies the blocks of that chain, no amount in
    it is negative, and the total is at most the sum of the subsidies, which is at
    most 21 million bitcoins. The history assumes of its events: no block or header
    comes with BFFastAdd (the flag that netsync and addblock set for blocks they
    trust, with which checks are skipped); headers and blocks with the same hash are
    equal; no transaction of a block is in a block before it on the same branch; no
    transaction of a block spends an output of a later one of the same block (a
    block that does is not refused where the duplicate check of BIP 30 runs);
    heights stay below 2^31 - 2000; the inputs have the types of the wire format;
    and a loop over a map visits every entry once, in any order. Of the parameters:
    the genesis block is sane and has no parent, hashes have 32 bytes, a public key
    that parses serializes to its uncompressed form, and the confirmation window of
    the deployments is positive and fits in 31 bits. *)
Theorem node_history es : Forall (event_ok DoubleHash W) es -> 0 < SubsidyReductionInterval params <= 210000 ->
  let s := nodeAfter es in
  exists D t, tip (ch_bestChain s) = Some t /\ valid_to DoubleHash params (arenaOf s) (blocksOf s) t /\
    cinv ParsePubKey D (cd_utxo (ch_db s)) (ch_cache s) /\
    cabs D (ch_cache s) = ledgerAt DoubleHash (arenaOf s) (blocksOf s) t /\
    amounts_pos (cabs D (ch_cache s)) /\
    total (cabs D (ch_cache s)) <= issued params (S (Z.to_nat (height_of (arenaOf s) t))) <= MaxSatoshi.
Proof.
  intros Hes Hint s. destruct (history_state es Hes) as (D & t & H). exists D, t. fold s in H. split; [exact (state_tip D s t H)|].
  destruct H as [[Hc [Hi Ha] _] _]. pose proof (to_wf _ (ck_tree _ _ _ _ _ _ Hc)) as Hw. pose proof (ck_valid _ _ _ _ _ _ Hc) as Hv.
  assert (Ht : (t < List.length (arenaOf s))%nat) by exact (core_tip _ _ _ _ s t Hc).
  destruct (valid_total DoubleHash params _ _ t Hw Ht Hv) as [H1 H2]. split; [exact Hv|]. split; [exact Hi|]. split; [exact Ha|]. rewrite Ha.
  split; [exact H1|]. split; [exact H2|]. apply subsidy_bounded; [exact Hint|]. pose proof (aw_height _ Hw t Ht). unfold maxHeight in *. lia.
Qed.

(** C16: after any history under the assumptions below every node of the index is
    found under its hash and its height and work follow from those of the parent,
    the view is the branch of the tip, the hash and height buckets of the database
    describe exactly the best chain, the snapshot names its tip, and the caches of
    the deployments hold the states the rules give. The history assumes of its
    events: no block or header comes with BFFastAdd (the flag that netsync and
    addblock set for blocks they trust, with which checks are skipped); headers and
    blocks with the same hash are equal; no transaction of a block is in a block
    before it on the same branch; no transaction of a block spends an output of a
    later one of the same block (a block that does is not refused where the
    duplicate check of BIP 30 runs); heights stay below 2^31 - 2000; the inputs have
    the types of the wire format; and a loop over a map visits every entry once, in
    any order. Of the parameters: the genesis block is sane and has no parent,
    hashes have 32 bytes, a public key that parses serializes to its uncompressed
    form, and the confirmation window of the deployments is positive and fits in 31
    bits. *)
Theorem node_wellformed es : Forall (event_ok DoubleHash W) es ->
  let s := nodeAfter es in
  exists t, view_ok (arenaOf s) (ch_bestChain s) (Some t) /\ tree_ok (ch_index s) /\ main_index (arenaOf s) (ch_db s) t /\
    (bst_Hash (ch_snapshot s) = bn_hash (deref (arenaOf s) t) /\ bst_Height (ch_snapshot s) = height_of (arenaOf s) t) /\
    all_ok DoubleHash (ch_index s) (rp_votes params) (ch_warnings s) (ch_deployments s).
Proof.
  intros Hes s. destruct (history_state es Hes) as (D & t & [[Hc _ _] _]). fold s in Hc. exists t.
  split; [exact (ck_view _ _ _ _ _ _ Hc)|]. split; [exact (ck_tree _ _ _ _ _ _ Hc)|]. split; [exact (ck_main _ _ _ _ _ _ Hc)|].
  split; [exact (ck_snapshot _ _ _ _ _ _ Hc) | exact (ck_votes _ _ _ _ _ _ Hc)].
Qed.

(** C15: as long as no block is invalidated by hand, whatever blocks and headers
    come in and are reconsidered under the assumptions below, the work of the best
    chain never gets less, and stored blocks stay. The history assumes of its
    events: no block or header comes with BFFastAdd (the flag that netsync and
    addblock set for blocks they trust, with which checks are skipped); headers and
    blocks with the same hash are equal; no transaction of a block is in a block
    before it on the same branch; no transaction of a block spends an output of a
    later one of the same block (a block that does is not refused where the
    duplicate check of BIP 30 runs); heights stay below 2^31 - 2000; the inputs have
    the types of the wire format; and a loop over a map visits every entry once, in
    any order. Of the parameters: the genesis block is sane and has no parent,
    hashes have 32 bytes, a public key that parses serializes to its uncompressed
    form, and the confirmation window of the deployments is positive and fits in 31
    bits. *)
Theorem best_work_grows es es' : Forall (event_ok DoubleHash W) (es ++ es') -> Forall (fun e => lowers e = false) es' ->
  tipWork (nodeAfter es) <= tipWork (nodeAfter (es ++ es')) /\ blocksOf (nodeAfter es) ⊆ blocksOf (nodeAfter (es ++ es')).
Proof.
  intros Hes Hno. apply Forall_app in Hes. destruct Hes as [H1 H2]. destruct (history_state es H1) as (D & t & H).
  destruct (runEvents_ok ParsePubKey SerializeUncompressed CalculateRoughMapSize CalculateMinEntries DoubleHash params dbByHash W forms hash_len Hvp HW
    es' D _ t H H2) as (D' & t' & H' & [_ Hb Hw]).
  assert (E : run (nodeAfter es) es' = nodeAfter (es ++ es')) by (unfold nodeAfter, runEvents; now rewrite fold_left_app).
  rewrite E in H', Hb, Hw. specialize (Hw Hno). unfold tipWork. rewrite (state_tip _ _ _ H), (state_tip _ _ _ H'). now split.
Qed.

(** C20: after any history under the assumptions below the pool holds at most one
    orphan more than maxOrphanBlocks, and an orphan is in the pool if and only if it
    is in the list of those that wait for its parent. The history assumes of its
    events: no block or header comes with BFFastAdd (the flag that netsync and
    addblock set for blocks they trust, with which checks are skipped); headers and
    blocks with the same hash are equal; no transaction of a block is in a block
    before it on the same branch; no transaction of a block spends an output of a
    later one of the same block (a block that does is not refused where the
    duplicate check of BIP 30 runs); heights stay below 2^31 - 2000; the inputs have
    the types of the wire format; and a loop over a map visits every entry once, in
    any order. Of the parameters: the genesis block is sane and has no parent,
    hashes have 32 bytes, a public key that parses serializes to its uncompressed
    form, and the confirmation window of the deployments is positive and fits in 31
    bits. *)
Theorem orphans_bounded es : Forall (event_ok DoubleHash W) es ->
  let s := nodeAfter es in
  Z.of_nat (size (ch_orphans s)) <= maxOrphanBlocks + 1 /\
  forall o, ch_orphans s !! orphanHash DoubleHash o = Some o <-> o ∈ waiting s (orphanPrev o).
Proof.
  intros Hes s. destruct (history_state es Hes) as (D & t & [_ [Hp Hs _]]). split; [exact Hs | exact (pw_same _ _ _ Hp)].
Qed.

(** C2: reorganizing the chain of a node after any history under the assumptions
    below is all or nothing: for a list that goes down from the tip to a fork and
    one that goes up from there to another node of the tree, as getReorganizeNodes
    makes them, it ends either without an error at that node or with one at the tip
    it had; in both cases the blocks of the best chain are valid, the cache holds
    the set of unspent outputs of the ledger at the tip, and the hash and height
    buckets describe that chain. The history assumes of its events: no block or
    header comes with BFFastAdd (the flag that netsync and addblock set for blocks
    they trust, with which checks are skipped); headers and blocks with the same
    hash are equal; no transaction of a block is in a block before it on the same
    branch; no transaction of a block spends an output of a later one of the same
    block (a block that does is not refused where the duplicate check of BIP 30
    runs); heights stay below 2^31 - 2000; the inputs have the types of the wire
    format; and a loop over a map visits every entry once, in any order. Of the
    parameters: the genesis block is sane and has no parent, hashes have 32 bytes, a
    public key that parses serializes to its uncompressed form, and the confirmation
    window of the deployments is positive and fits in 31 bits. *)
Theorem reorganize_atomic es o t f x detach attach : Forall (event_ok DoubleHash W) es -> (forall m, oc_iter o m ≡ₚ map_to_list m) ->
  let s := nodeAfter es in
  tip (ch_bestChain s) = Some t -> down (arenaOf s) f t detach -> up (arenaOf s) x f attach -> (x < List.length (arenaOf s))%nat ->
  exists s' r D, reorganizeChain ParsePubKey SerializeUncompressed CalculateRoughMapSize CalculateMinEntries (oc_iter o) DoubleHash params
      (oc_scripts o) dbByHash (oc_now o) (oc_time o) detach attach s = (s', r) /\
    let t' := match r with Ok _ => x | _ => t end in
    tip (ch_bestChain s') = Some t' /\ valid_to DoubleHash params (arenaOf s') (blocksOf s') t' /\
    cinv ParsePubKey D (cd_utxo (ch_db s')) (ch_cache s') /\
    cabs D (ch_cache s') = ledgerAt DoubleHash (arenaOf s') (blocksOf s') t' /\ main_index (arenaOf s') (ch_db s') t'.
Proof.
  intros Hes Hi s Htip Hd Hu Hx. destruct (history_state es Hes) as (D & t0 & H). fold s in H.
  assert (t0 = t) as -> by (pose proof (state_tip D s t0 H); congruence).
  destruct (reorganize_ok ParsePubKey SerializeUncompressed CalculateRoughMapSize CalculateMinEntries (oc_iter o) DoubleHash params (oc_scripts o) dbByHash
    (oc_now o) (oc_time o) forms Hi hash_len Hvp W HW D s t f x detach attach (ns_chain _ _ _ _ _ _ _ H) Hd Hu Hx) as (s' & r & D' & E & _ & [Hc [Hci Hca] _]).
  exists s', r, D'. split; [exact E|]. split; [exact (tip_spec _ _ _ (to_wf _ (ck_tree _ _ _ _ _ _ Hc)) (ck_view _ _ _ _ _ _ Hc))|].
  split; [exact (ck_valid _ _ _ _ _ _ Hc)|]. split; [exact Hci|]. split; [exact Hca | exact (ck_main _ _ _ _ _ _ Hc)].
Qed.

(** C13: accepting a block after any history under the assumptions below, where the
    block is of the form checkBlockSanity asks for, spends no output of a later
    transaction of its own and comes without BFFastAdd, as when ProcessBlock calls
    maybeAcceptBlock: an error or the answer that the block is not on the main chain
    leaves the best chain where it was; the answer that it is means that the chain
    now ends in the block, or that the chain stays and the block is marked as
    invalid; without an error the block is stored, and the work of the best chain
    never gets less. The history assumes of its events: no block or header comes
    with BFFastAdd (the flag that netsync and addblock set for blocks they trust,
    with which checks are skipped); headers and blocks with the same hash are equal;
    no transaction of a block is in a block before it on the same branch; no
    transaction of a block spends an output of a later one of the same block (a
    block that does is not refused where the duplicate check of BIP 30 runs);
    heights stay below 2^31 - 2000; the inputs have the types of the wire format;
    and a loop over a map visits every entry once, in any order. Of the parameters:
    the genesis block is sane and has no parent, hashes have 32 bytes, a public key
    that parses serializes to its uncompressed form, and the confirmation window of
    the deployments is positive and fits in 31 bits. *)
Theorem accept_answers es o msg flags : Forall (event_ok DoubleHash W) es -> (forall m, oc_iter o m ≡ₚ map_to_list m) ->
  sound_block DoubleHash W msg -> has_flag flags BFFastAdd = false ->
  let s := nodeAfter es in let hash := BlockHash DoubleHash (mb_Header msg) in
  exists s' r t t', maybeAcceptBlock ParsePubKey SerializeUncompressed CalculateRoughMapSize CalculateMinEntries (oc_iter o) DoubleHash params
      (oc_scripts o) dbByHash (oc_now o) (oc_time o) msg flags s = (s', r) /\
    tip (ch_bestChain s) = Some t /\ tip (ch_bestChain s') = Some t' /\ tipWork s <= tipWork s' /\
    match r with
    | Ok true => blocksOf s' !! hash = Some msg /\ exists x, LookupNode (ch_index s') hash = Some x /\
        (t' = x \/ t' = t /\ KnownInvalid (NodeStatus (ch_index s') x) = true)
    | Ok false => blocksOf s' !! hash = Some msg /\ t' = t
    | _ => t' = t
    end.
Proof.
  intros Hes Hi Hm Hf s hash. destruct (history_state es Hes) as (D & t & H). fold s in H.
  destruct (accept_state ParsePubKey SerializeUncompressed CalculateRoughMapSize CalculateMinEntries (oc_iter o) DoubleHash params (oc_scripts o) dbByHash
    (oc_now o) (oc_time o) W forms Hi hash_len Hvp HW D s t msg flags H Hm Hf) as (s' & r & D' & t' & E & H' & _ & Had).
  exists s', r, t, t'. split; [exact E|]. pose proof (state_tip _ _ _ H) as Et. pose proof (state_tip _ _ _ H') as Et'.
  split; [exact Et|]. split; [exact Et'|]. destruct Had as [_ _ Hwk Hwh Htold Hst]. split; [unfold tipWork; now rewrite Et, Et'|].
  pose proof (to_index _ (ck_tree _ _ _ _ _ _ (co_core _ _ _ _ _ _ _ (ns_chain _ _ _ _ _ _ _ H')))) as Hix.
  destruct r as [[|]|e|]; try (destruct Hwh as [->|[_ Hr]]; [|discriminate]); [| split; [exact (Hst _ eq_refl) | reflexivity] | reflexivity..].
  split; [exact (Hst _ eq_refl)|]. destruct (Htold eq_refl) as (x & Hx & Eh & Hor). exists x. unfold hash. rewrite <- Eh.
  split; [exact (io_complete _ Hix x Hx)|]. destruct Hor as [->|Hinv]; [now left|]. destruct Hwh as [->|[Eh' _]]; [right; now split|left].
  assert (Ht' : (t' < List.length (arenaOf s'))%nat) by exact (core_tip _ _ _ _ s' t' (co_core _ _ _ _ _ _ _ (ns_chain _ _ _ _ _ _ _ H'))).
  pose proof (io_complete _ Hix x Hx) as E1. pose proof (io_complete _ Hix t' Ht') as E2. rewrite Eh, <- Eh', E2 in E1. now injection E1.
Qed.

(** C21: processOrphans ends after any history under the assumptions below: its
    loop, described without a bound, runs until the work list is empty or accepting
    an orphan fails, and the definition gives that result with the rounds it allows,
    one and two for every orphan in the lists. The history assumes of its events: no
    block or header comes with BFFastAdd (the flag that netsync and addblock set for
    blocks they trust, with which checks are skipped); headers and blocks with the
    same hash are equal; no transaction of a block is in a block before it on the
    same branch; no transaction of a block spends an output of a later one of the
    same block (a block that does is not refused where the duplicate check of BIP 30
    runs); heights stay below 2^31 - 2000; the inputs have the types of the wire
    format; and a loop over a map visits every entry once, in any order. Of the
    parameters: the genesis block is sane and has no parent, hashes have 32 bytes, a
    public key that parses serializes to its uncompressed form, and the confirmation
    window of the deployments is positive and fits in 31 bits. *)
Theorem processOrphans_ends es o hash flags : Forall (event_ok DoubleHash W) es ->
  let s := nodeAfter es in
  drains ParsePubKey SerializeUncompressed CalculateRoughMapSize CalculateMinEntries (oc_iter o) DoubleHash params
      (oc_scripts o) dbByHash (oc_now o) (oc_time o) flags [hash] s
    (processOrphans ParsePubKey SerializeUncompressed CalculateRoughMapSize CalculateMinEntries (oc_iter o) DoubleHash params
      (oc_scripts o) dbByHash (oc_now o) (oc_time o) hash flags s).
Proof.
  intros Hes s. destruct (history_state es Hes) as (D & t & [_ [Hp _ _]]). unfold processOrphans. rewrite get_bind.
  apply queue_drains; [exact (pw_keyed _ _ _ Hp) | cbn [List.length]; lia].
Qed.

End Node.

(** *** A history with a reorganization

    The hash of a block of this network is its version and the start of its
    previous hash, and a coinbase can be spent after one block.  The blocks of a
    branch come in before those of a longer one, of which the last two wait as
    orphans for the first. *)

Lemma ordered_nil DoubleHash : ordered DoubleHash [].
Proof. intros pre tx post op E. now destruct pre. Qed.

Lemma ordered_cons DoubleHash tx txs : ordered DoubleHash txs ->
  IsCoinBaseTx tx || forallb (fun op => negb (existsb (bytes_eqb (op_Hash op)) (map (txHash DoubleHash) (tx :: txs)))) (spentBy tx) = true ->
  ordered DoubleHash (tx :: txs).
Proof.
  intros H Hb [|tx' pre] t post op E Hc Hop; injection E as -> ->; [|exact (H pre t post op eq_refl Hc Hop)].
  rewrite Hc in Hb. cbn [orb] in Hb. rewrite forallb_forall in Hb. intros Hin. apply list_elem_of_In in Hop, Hin. specialize (Hb op Hop).
  apply negb_true_iff in Hb. assert (existsb (bytes_eqb (op_Hash op)) (map (txHash DoubleHash) (t :: post)) = true)
    by (apply existsb_exists; exists (op_Hash op); split; [exact Hin | apply bytes_eqb_refl]). congruence.
Qed.

Definition toyRules : RuleParams := mkRuleParams (chainFor SimNetParams) simNetVotes 0 0 0 1 210000 simNetGenesisHash [].
Definition toyCoinbase (version height : Z) : MsgTx :=
  mkMsgTx version [mkTxIn (mkOutPoint zeroHash 0xffffffff) [0x50 + height; 2] None 0xffffffff] [mkTxOut 5000000000 [0x51]] 0.
Definition toyHeader (version : Z) (prev : list Z) (time : Z) (txs : list MsgTx) : BlockHeader :=
  mkBlockHeader version prev (merkleRoot toyId (leafHashes toyId false 0 txs)) time 0x207fffff 0.
Definition toyBlock (version : Z) (prev : list Z) (time height : Z) (txs : list MsgTx) : MsgBlock :=
  let txs := toyCoinbase version height :: txs in mkMsgBlock (toyHeader version prev time txs) txs.
Definition toyPay : MsgTx := mkMsgTx 20 [mkTxIn (outpointOf toyId (toyCoinbase 5 1) 0) [] None 0xffffffff] [mkTxOut 4999999000 [0x51]] 0.
Definition toyG : MsgBlock := toyBlock 4 zeroHash 1000 1 [].
Definition toyA1 : MsgBlock := toyBlock 5 (BlockHash toyId (mb_Header toyG)) 1001 1 [].
Definition toyA2 : MsgBlock := toyBlock 6 (BlockHash toyId (mb_Header toyA1)) 1002 2 [toyPay].
Definition toyB1 : MsgBlock := toyBlock 7 (BlockHash toyId (mb_Header toyG)) 1003 1 [].
Definition toyB2 : MsgBlock := toyBlock 8 (BlockHash toyId (mb_Header toyB1)) 1004 2 [].
Definition toyB3 : MsgBlock := toyBlock 9 (BlockHash toyId (mb_Header toyB2)) 1005 3 [].
Definition toyW : universe := universeOf toyId [(toyG, 0); (toyA1, 1); (toyA2, 2); (toyB1, 1); (toyB2, 2); (toyB3, 3)].
Definition toyOccasion : occasion := mkOccasion 2000 2000 map_to_list map_to_list map_to_list (fun _ _ _ => Ok tt).
Definition toyIn (m : MsgBlock) : event := BlockIn m BFNone toyOccasion.
Abbreviation toyAfter := (nodeAfter toy_parse (fun k => k) (fun _ _ => 1000) (fun _ _ => 2) toyId toyRules (fun _ _ => Ok None) toyG 100).
Definition toyBranch : list event := [toyIn toyA1; toyIn toyA2].
Definition toyOrphans : list event := [HeaderIn (mb_Header toyB1) BFNone toyOccasion; toyIn toyB3; toyIn toyB2].

Lemma toyW_ok : universe_ok toyId toyW.
Proof. apply universeOf_ok. vm_compute. reflexivity. Qed.

Lemma toy_votes : votes_ok (rp_votes toyRules).
Proof. apply network_votes_ok. Qed.

Ltac toy_incoming := split; [vm_compute; reflexivity | repeat constructor; vm_compute; congruence | repeat (apply ordered_cons; [|vm_compute; reflexivity]); apply ordered_nil].

Lemma toy_incoming_all : Forall (incoming toyId toyW) [toyG; toyA1; toyA2; toyB1; toyB2; toyB3].
Proof. repeat (apply Forall_cons; split; [toy_incoming|]). constructor. Qed.

Lemma toy_in m : In m [toyG; toyA1; toyA2; toyB1; toyB2; toyB3] -> event_ok toyId toyW (toyIn m).
Proof. intros H. pose proof toy_incoming_all as Hall. rewrite Forall_forall in Hall. split; [apply Hall, list_elem_of_In, H|]. split; [reflexivity | now split]. Qed.

Lemma toy_sound m : In m [toyG; toyA1; toyA2; toyB1; toyB2; toyB3] -> checkBlockSanity toyId (mkBlock m (-1)) simNetPowLimit 2000 BFNone = Ok tt -> sound_block toyId toyW m.
Proof. intros Hin H. destruct (toy_in m Hin) as [Hm _]. exact (sane_sound toyId toyW m _ _ _ Hm H). Qed.

Lemma toyG_sound : sound_block toyId toyW toyG.
Proof. apply toy_sound; [cbn; tauto | vm_compute; reflexivity]. Qed.

Lemma toy_history : Forall (event_ok toyId toyW) (toyBranch ++ toyOrphans ++ [toyIn toyB1]).
Proof.
  repeat (apply Forall_cons; split; [first [apply toy_in; cbn; tauto | split; vm_compute; reflexivity]|]). constructor.
Qed.

Lemma toy_branch : Forall (event_ok toyId toyW) (toyBranch ++ [toyIn toyB1; toyIn toyB2]).
Proof. repeat (apply Forall_cons; split; [apply toy_in; cbn; tauto|]). constructor. Qed.

Lemma node_history_witness : let s := toyAfter (toyBranch ++ toyOrphans ++ [toyIn toyB1]) in
  exists D, tip (ch_bestChain s) = Some 5%nat /\ height_of (arenaOf s) 5 = 3 /\ cabs D (ch_cache s) = ledgerAt toyId (arenaOf s) (blocksOf s) 5 /\
    total (cabs D (ch_cache s)) <= MaxSatoshi.
Proof.
  cbv zeta. assert (Et : tip (ch_bestChain (toyAfter (toyBranch ++ toyOrphans ++ [toyIn toyB1]))) = Some 5%nat) by (vm_compute; reflexivity).
  destruct (node_history toy_parse (fun k => k) (fun _ _ => 1000) (fun _ _ => 2) toyId toyRules (fun _ _ => Ok None) toyW toyG 100
    toy_forms toyId_len toy_votes toyW_ok toyG_sound eq_refl _ toy_history) as (D & t & Ht & _ & _ & Ha & _ & H1 & H2); [vm_compute; split; congruence|].
  rewrite Et in Ht. injection Ht as <-. exists D. split; [exact Et|]. split; [vm_compute; reflexivity|].
  split; [exact Ha | exact (Z.le_trans _ _ _ H1 H2)].
Defined.

Lemma node_wellformed_witness : let s := toyAfter (toyBranch ++ toyOrphans ++ [toyIn toyB1]) in
  bst_Height (ch_snapshot s) = 3 /\ tree_ok (ch_index s) /\ exists t, main_index (arenaOf s) (ch_db s) t.
Proof.
  cbv zeta. destruct (node_wellformed toy_parse (fun k => k) (fun _ _ => 1000) (fun _ _ => 2) toyId toyRules (fun _ _ => Ok None) toyW toyG 100
    toy_forms toyId_len toy_votes toyW_ok toyG_sound eq_refl _ toy_history) as (t & _ & H1 & H2 & _).
  split; [vm_compute; reflexivity|]. split; [exact H1 | exists t; exact H2].
Defined.

Lemma best_work_grows_witness : tipWork (toyAfter toyBranch) <= tipWork (toyAfter (toyBranch ++ toyOrphans ++ [toyIn toyB1])) /\
  blocksOf (toyAfter toyBranch) ⊆ blocksOf (toyAfter (toyBranch ++ toyOrphans ++ [toyIn toyB1])).
Proof.
  exact (best_work_grows toy_parse (fun k => k) (fun _ _ => 1000) (fun _ _ => 2) toyId toyRules (fun _ _ => Ok None) toyW toyG 100
    toy_forms toyId_len toy_votes toyW_ok toyG_sound eq_refl toyBranch (toyOrphans ++ [toyIn toyB1]) toy_history ltac:(repeat constructor)).
Defined.

Lemma orphans_bounded_witness : let s := toyAfter (toyBranch ++ toyOrphans) in size (ch_orphans s) = 2%nat /\ Z.of_nat (size (ch_orphans s)) <= maxOrphanBlocks + 1.
Proof.
  cbv zeta. split; [vm_compute; reflexivity|].
  exact (proj1 (orphans_bounded toy_parse (fun k => k) (fun _ _ => 1000) (fun _ _ => 2) toyId toyRules (fun _ _ => Ok None) toyW toyG 100
    toy_forms toyId_len toy_votes toyW_ok toyG_sound eq_refl (toyBranch ++ toyOrphans)
    (proj1 (proj1 (Forall_app _ (toyBranch ++ toyOrphans) [toyIn toyB1]) toy_history)))).
Defined.

Lemma reorganize_atomic_witness : let s := toyAfter (toyBranch ++ [toyIn toyB1; toyIn toyB2]) in
  exists s' D, reorganizeChain toy_parse (fun k => k) (fun _ _ => 1000) (fun _ _ => 2) map_to_list toyId toyRules (fun _ _ _ => Ok tt)
      (fun _ _ => Ok None) 2000 2000 [2; 1]%nat [3; 4]%nat s = (s', Ok tt) /\
    tip (ch_bestChain s') = Some 4%nat /\ cabs D (ch_cache s') = ledgerAt toyId (arenaOf s') (blocksOf s') 4.
Proof.
  cbv zeta. destruct (reorganize_atomic toy_parse (fun k => k) (fun _ _ => 1000) (fun _ _ => 2) toyId toyRules (fun _ _ => Ok None) toyW toyG 100
    toy_forms toyId_len toy_votes toyW_ok toyG_sound eq_refl _ toyOccasion 2 0 4 [2; 1]%nat [3; 4]%nat toy_branch) as (s' & r & D & E & H).
  - reflexivity.
  - vm_compute. reflexivity.
  - apply (down_cons _ _ _ 1%nat); [vm_compute; reflexivity|]. apply (down_cons _ _ _ 0%nat); [vm_compute; reflexivity | apply down_nil].
  - apply (up_cons _ _ _ 3%nat); [vm_compute; reflexivity|]. apply (up_cons _ _ _ 4%nat); [vm_compute; reflexivity | apply up_nil].
  - vm_compute. lia.
  - assert (Hr : match r with Ok _ => true | _ => false end = true).
    { change r with (snd (s', r)). rewrite <- E. vm_compute. reflexivity. }
    destruct r as [[]| |]; [|discriminate..]. exists s', D. split; [exact E|]. destruct H as (H1 & _ & _ & H2 & _). split; [exact H1 | exact H2].
Defined.

Lemma accept_answers_witness : let s := toyAfter [toyIn toyA1] in
  exists s', maybeAcceptBlock toy_parse (fun k => k) (fun _ _ => 1000) (fun _ _ => 2) map_to_list toyId toyRules (fun _ _ _ => Ok tt)
      (fun _ _ => Ok None) 2000 2000 toyA2 BFNone s = (s', Ok true) /\ tipWork s <= tipWork s'.
Proof.
  cbv zeta. destruct (accept_answers toy_parse (fun k => k) (fun _ _ => 1000) (fun _ _ => 2) toyId toyRules (fun _ _ => Ok None) toyW toyG 100
    toy_forms toyId_len toy_votes toyW_ok toyG_sound eq_refl [toyIn toyA1] toyOccasion toyA2 BFNone) as (s' & r & t & t' & E & _ & _ & H & _).
  - apply Forall_cons. split; [apply toy_in; cbn; tauto | constructor].
  - reflexivity.
  - apply toy_sound; [cbn; tauto | vm_compute; reflexivity].
  - reflexivity.
  - assert (Hr : match r with Ok true => true | _ => false end = true).
    { change r with (snd (s', r)). rewrite <- E. vm_compute. reflexivity. }
    destruct r as [[]| |]; [|discriminate..]. exists s'. split; [exact E | exact H].
Defined.

Lemma processOrphans_ends_witness : let s := toyAfter (toyBranch ++ toyOrphans) in
  orphanCount s = 2%nat /\ exists res, drains toy_parse (fun k => k) (fun _ _ => 1000) (fun _ _ => 2) map_to_list toyId toyRules (fun _ _ _ => Ok tt)
    (fun _ _ => Ok None) 2000 2000 BFNone [BlockHash toyId (mb_Header toyB1)] s res.
Proof.
  cbv zeta. split; [vm_compute; reflexivity|]. eexists.
  exact (processOrphans_ends toy_parse (fun k => k) (fun _ _ => 1000) (fun _ _ => 2) toyId toyRules (fun _ _ => Ok None) toyW toyG 100
    toy_forms toyId_len toy_votes toyW_ok toyG_sound eq_refl (toyBranch ++ toyOrphans) toyOccasion _ BFNone
    (proj1 (proj1 (Forall_app _ (toyBranch ++ toyOrphans) [toyIn toyB1]) toy_history))).
Defined.


(** *** Marks that the best chain gets around *)

Definition toyMark (m : MsgBlock) : event := InvalidateIn (BlockHash toyId (mb_Header m)) toyOccasion.
Definition toyHead (m : MsgBlock) : event := HeaderIn (mb_Header m) BFNone toyOccasion.
Abbreviation toyInvalidate m s := (InvalidateBlock toy_parse (fun k => k) (fun _ _ => 1000) (fun _ _ => 2) map_to_list toyId toyRules (fun _ _ _ => Ok tt)
  (fun _ _ => Ok None) 2000 2000 map_to_list (BlockHash toyId (mb_Header m)) s).
Definition isErr {A} (o : outcome ruleErr A) : bool := match o with Err _ => true | _ => false end.

(** A block that comes in after its header has been invalidated is connected to
    the best chain. Invalidating it after that does nothing, and a block on top of
    it is refused because its parent is known to be invalid. *)
Theorem marked_header_connects :
  let s := toyAfter [toyHead toyB1; toyMark toyB1; toyIn toyB1] in
  tip (ch_bestChain s) = Some 1%nat /\ KnownInvalid (NodeStatus (ch_index s) 1) = true /\
  toyInvalidate toyB1 s = (s, Ok tt) /\
  snd (ProcessBlock toy_parse (fun k => k) (fun _ _ => 1000) (fun _ _ => 2) map_to_list toyId toyRules (fun _ _ _ => Ok tt)
    (fun _ _ => Ok None) 2000 2000 map_to_list toyB2 BFNone s) = Err (Rule ErrInvalidAncestorBlock).
Proof. vm_compute. repeat split; reflexivity. Qed.

(** InvalidateBlock can choose a tip of which only the header is known: it then
    fails, and the best chain is left at the parent of the invalidated block
    although a stored valid block has more work. *)
Theorem header_tip_chosen :
  let s := toyAfter [toyIn toyA1; toyIn toyB1; toyHead toyB2] in
  let (s', r) := toyInvalidate toyA1 s in
  isErr r = true /\ tip (ch_bestChain s') = Some 0%nat /\
  KnownValid (NodeStatus (ch_index s') 2) = true /\ blocksOf s' !! BlockHash toyId (mb_Header toyB1) = Some toyB1 /\
  bn_workSum (deref (arenaOf s') 0) < bn_workSum (deref (arenaOf s') 2).
Proof. vm_compute. repeat split; reflexivity. Qed.
