(* ===== verification/Queries.v ===== *)
(** * Questions about the chain (blockchain/chain.go)

    What the node answers to peers and filters: the hashes of a range of heights,
    the hashes at multiples of an interval, and the blocks and headers that come
    after a locator.  The answers are compared with the branch of the tip as
    walking the parents gives it. *)

From Stdlib Require Import ZArith List Lia Bool String.
From stdpp Require Import gmap.
From S2P Require Import Prelude GoSlice GoIO WireCommon WireTx WireMsgs Merkle Compress Script Difficulty ChainIO BlockIndex ChainView Index Threshold UtxoView UtxoCache Rules Connect Supply Chain Reorg Node.
Import ListNotations.
Local Open Scope string_scope.
Local Open Scope list_scope.
Local Open Scope Z_scope.
Local Open Scope go_scope.

(** ** Ranges of heights *)

Definition hashOf (a : arena) (id : nat) : list Z := bn_hash (deref a id).

(** The hashes of the view at [n] heights from [i] on. *)
Fixpoint heightRange_loop (n : nat) (a : arena) (c : chainView) (i : Z) : outcome string (list (list Z)) :=
  match n with
  | O => Ok []
  | S n' =>
      match nodeByHeight c i with
      | None => Panic
      | Some id => let* hashes := heightRange_loop n' a c (i32 (i + 1)) in Ok (hashOf a id :: hashes)
      end
  end.

Definition HeightRange (a : arena) (bestChain : chainView) (startHeight endHeight : Z) : outcome string (list (list Z)) :=
  if startHeight <? 0 then Err "start height of fetch range must not be less than zero"
  else if endHeight <? startHeight then Err "end height of fetch range must not be less than the start height"
  else if startHeight =? endHeight then Ok []
  else
    match tip bestChain with
    | None => Panic
    | Some t =>
        let latestHeight := height_of a t in
        if latestHeight <? startHeight then Ok []
        else
          let endHeight := if i32 (latestHeight + 1) <? endHeight then i32 (latestHeight + 1) else endHeight in
          heightRange_loop (Z.to_nat (endHeight - startHeight)) a bestChain startHeight
    end.

(** The hashes of [n] nodes from [node] down, the lowest first. *)
Fixpoint walkHashes (n : nat) (a : arena) (node : option nat) (hashes : list (list Z)) : outcome string (list (list Z)) :=
  match n with
  | O => Ok hashes
  | S n' => match node with None => Panic | Some id => walkHashes n' a (bn_parent (deref a id)) (hashOf a id :: hashes) end
  end.

Definition HeightToHashRange (bi : blockIndex) (startHeight : Z) (endHash : list Z) (maxResults : Z) : outcome string (list (list Z)) :=
  match LookupNode bi endHash with
  | None => Err "no known block header with hash"
  | Some endNode =>
      if negb (KnownValid (NodeStatus bi endNode)) then Err "block is not yet validated"
      else
        let endHeight := height_of (bi_nodes bi) endNode in
        if startHeight <? 0 then Err "start height is below 0"
        else if endHeight <? startHeight then Err "start height is past end height"
        else
          let resultsLength := i32 (endHeight - startHeight + 1) in
          if maxResults <? resultsLength then Err "number of results would exceed max"
          else walkHashes (Z.to_nat resultsLength) (bi_nodes bi) (Some endNode) []
  end.

Fixpoint interval_loop (index : nat) (a : arena) (bestChain : chainView) (interval : Z) (blockNode : nat) (hashes : list (list Z))
  : outcome string (list (list Z)) :=
  match index with
  | O => Ok hashes
  | S index' =>
      let blockHeight := i32 (Z.of_nat index * interval) in
      match (if contains a bestChain blockNode then nodeByHeight bestChain blockHeight else Ancestor a blockNode blockHeight) with
      | None => Panic
      | Some id => interval_loop index' a bestChain interval id (hashOf a id :: hashes)
      end
  end.

(** Go's division panics for zero, and a slice of negative length does. *)
Definition IntervalBlockHashes (bi : blockIndex) (bestChain : chainView) (endHash : list Z) (interval : Z) : outcome string (list (list Z)) :=
  match LookupNode bi endHash with
  | None => Err "no known block header with hash"
  | Some endNode =>
      if negb (KnownValid (NodeStatus bi endNode)) then Err "block is not yet validated"
      else if interval =? 0 then Panic
      else
        let resultsLength := Z.quot (height_of (bi_nodes bi) endNode) interval in
        if resultsLength <? 0 then Panic
        else interval_loop (Z.to_nat resultsLength) (bi_nodes bi) bestChain interval endNode []
  end.

(** ** Locators *)

(** The first of the hashes that is in the best chain. *)
Fixpoint firstKnown (bi : blockIndex) (bestChain : chainView) (locator : list (list Z)) : option nat :=
  match locator with
  | [] => None
  | hash :: locator' =>
      match LookupNode bi hash with
      | Some node => if contains (bi_nodes bi) bestChain node then Some node else firstKnown bi bestChain locator'
      | None => firstKnown bi bestChain locator'
      end
  end.

Definition locateInventory (bi : blockIndex) (bestChain : chainView) (locator : list (list Z)) (hashStop : list Z) (maxEntries : Z)
  : outcome string (option nat * Z) :=
  let a := bi_nodes bi in
  let stopNode := LookupNode bi hashStop in
  match locator with
  | [] => match stopNode with None => Ok (None, 0) | Some stop => Ok (Some stop, 1) end
  | _ =>
      let startNode := match firstKnown bi bestChain locator with Some node => Some node | None => genesis bestChain end in
      match next a bestChain startNode with
      | None => Ok (None, 0)
      | Some start =>
          match tip bestChain with
          | None => Panic
          | Some t =>
              let total := u32 (i32 (i32 (height_of a t - height_of a start) + 1)) in
              let total :=
                match stopNode with
                | Some stop => if contains a bestChain stop && (height_of a start <=? height_of a stop)
                               then u32 (i32 (i32 (height_of a stop - height_of a start) + 1)) else total
                | None => total
                end in
              Ok (Some start, if maxEntries <? total then maxEntries else total)
          end
      end
  end.

(** [total] nodes from [node] on. *)
Fixpoint followNext (total : nat) (a : arena) (bestChain : chainView) (node : option nat) : outcome string (list nat) :=
  match total with
  | O => Ok []
  | S total' =>
      match node with
      | None => Panic
      | Some id => let* ids := followNext total' a bestChain (next a bestChain node) in Ok (id :: ids)
      end
  end.

Definition locateNodes (bi : blockIndex) (bestChain : chainView) (locator : list (list Z)) (hashStop : list Z) (max : Z) : outcome string (list nat) :=
  let* (node, total) := locateInventory bi bestChain locator hashStop max in
  followNext (Z.to_nat total) (bi_nodes bi) bestChain node.

Definition locateBlocks (bi : blockIndex) (bestChain : chainView) (locator : list (list Z)) (hashStop : list Z) (maxHashes : Z)
  : outcome string (list (list Z)) :=
  let* ids := locateNodes bi bestChain locator hashStop maxHashes in
  Ok (map (hashOf (bi_nodes bi)) ids).

Definition locateHeaders (bi : blockIndex) (bestChain : chainView) (locator : list (list Z)) (hashStop : list Z) (maxHeaders : Z)
  : outcome string (list BlockHeader) :=
  let* ids := locateNodes bi bestChain locator hashStop maxHeaders in
  Ok (map (Header (bi_nodes bi)) ids).

(** ** The branch of a node *)

(** The nodes on the branch of [t] at [n] heights from [h] on. *)
Definition segment (a : arena) (t : nat) (h : Z) (n : nat) (ids : list nat) : Prop :=
  map Some ids = map (fun i => ancestorAt a t (h + Z.of_nat i)) (seq 0 n).

Section Segments.
Context (a : arena) (t : nat).

Lemma segment_cons h n id ids : ancestorAt a t h = Some id -> segment a t (h + 1) n ids -> segment a t h (S n) (id :: ids).
Proof.
  unfold segment. intros E H. cbn [map seq]. rewrite Z.add_0_r, E, H, <- seq_shift, map_map. f_equal. apply map_ext. intros i. f_equal. lia.
Qed.

Lemma segment_snoc h n id ids : segment a t h n ids -> ancestorAt a t (h + Z.of_nat n) = Some id -> segment a t h (S n) (ids ++ [id]).
Proof. unfold segment. intros H E. rewrite seq_S, !map_app, H. cbn [map Nat.add]. now rewrite E. Qed.

Lemma segment_nil h : segment a t h 0 [].
Proof. reflexivity. Qed.
End Segments.

(** ** The ranges are right *)

Section Ranges.
Context (bi : blockIndex) (c : chainView) (t : nat).
Abbreviation a := (bi_nodes bi).
Hypothesis Hw : arena_wf a.
Hypothesis Hv : view_ok a c (Some t).

Lemma view_tip : (t < List.length a)%nat /\ 0 <= height_of a t <= maxViewHeight.
Proof. pose proof Hv as [_ _ (Ht & Hh & _)]. pose proof (aw_height a Hw t Ht). split; [exact Ht | lia]. Qed.

Lemma at_height h : 0 <= h <= height_of a t -> exists id, nodeByHeight c h = Some id /\ ancestorAt a t h = Some id /\
  (id < List.length a)%nat /\ height_of a id = h /\ contains a c id = true.
Proof.
  intros Hh. destruct view_tip as [Ht Hmax]. destruct (ancestorAt_spec a t h Hw Ht Hh) as (id & E & Hid & _ & Hidh). exists id.
  assert (En : nodeByHeight c h = Some id).
  { rewrite (nodeByHeight_view a c t h Hw Hv), E. rewrite !(proj2 (Z.ltb_ge _ _)) by lia. reflexivity. }
  split; [exact En|]. split; [exact E|]. split; [exact Hid|]. split; [exact Hidh|]. unfold contains. rewrite Hidh. now apply opt_nat_eqb_eq.
Qed.

Lemma heightRange_loop_ok n : forall i, 0 <= i -> i + Z.of_nat n <= height_of a t + 1 ->
  exists ids, heightRange_loop n a c i = Ok (map (hashOf a) ids) /\ segment a t i n ids.
Proof.
  destruct view_tip as [Ht Hmax]. unfold maxViewHeight in Hmax. induction n as [|n IH]; intros i Hi Hn; [exists []; split; [reflexivity | apply segment_nil]|].
  cbn [heightRange_loop]. destruct (at_height i ltac:(lia)) as (id & -> & E & _). rewrite i32_id by (unfold is_i32; lia).
  destruct (IH (i + 1) ltac:(lia) ltac:(lia)) as (ids & -> & H). exists (id :: ids). split; [reflexivity | now apply segment_cons].
Qed.

(** Heights of a range are those of the best chain. *)
Lemma HeightRange_ok startHeight endHeight : 0 <= startHeight <= endHeight -> exists ids,
  HeightRange a c startHeight endHeight = Ok (map (hashOf a) ids) /\
  segment a t startHeight (Z.to_nat (Z.min endHeight (height_of a t + 1) - startHeight)) ids.
Proof.
  intros [Hs He]. destruct view_tip as [Ht Hmax]. unfold maxViewHeight in Hmax. unfold HeightRange. rewrite (tip_spec a c t Hw Hv).
  rewrite !(proj2 (Z.ltb_ge _ _)) by lia. destruct (Z.eqb_spec startHeight endHeight) as [->|Hne].
  { exists []. split; [reflexivity|]. replace (Z.to_nat _) with 0%nat by lia. apply segment_nil. }
  destruct (Z.ltb_spec (height_of a t) startHeight) as [Hlt|Hge].
  { exists []. split; [reflexivity|]. replace (Z.to_nat _) with 0%nat by lia. apply segment_nil. }
  rewrite i32_id by (unfold is_i32; lia).
  replace (if _ <? _ then _ else _) with (Z.min endHeight (height_of a t + 1)) by (destruct (Z.ltb_spec (height_of a t + 1) endHeight); lia).
  apply heightRange_loop_ok; lia.
Qed.
Hypothesis Hi : index_ok bi.

Lemma walkHashes_ok e n : forall x acc accIds, (x < List.length a)%nat -> on_branch a e x -> (e < List.length a)%nat ->
  Z.of_nat n <= height_of a x + 1 -> acc = map (hashOf a) accIds ->
  exists ids, walkHashes n a (Some x) acc = Ok (map (hashOf a) (ids ++ accIds)) /\ segment a e (height_of a x + 1 - Z.of_nat n) n ids.
Proof.
  induction n as [|n IH]; intros x acc accIds Hx Hb He Hn ->; [exists []; split; [reflexivity | apply segment_nil]|].
  cbn [walkHashes]. destruct (bn_parent (deref a x)) as [p|] eqn:Ep.
  - destruct (height_parent a x p Hw Hx Ep) as (_ & Hp & Hh).
    assert (Hbp : on_branch a e p).
    { apply (on_branch_trans a e x p Hw He Hx Hp Hb). apply (on_branch_parent a x p p Hw Hx Ep). right. split; [lia | apply ancestorAt_self]. }
    destruct (IH p (hashOf a x :: map (hashOf a) accIds) (x :: accIds) Hp Hbp He ltac:(lia) eq_refl) as (ids & -> & Hs).
    exists (ids ++ [x]). rewrite <- app_assoc. split; [reflexivity|]. apply segment_snoc.
    + now replace (height_of a x + 1 - Z.of_nat (S n)) with (height_of a p + 1 - Z.of_nat n) by lia.
    + replace (_ + _) with (height_of a x) by lia. apply Hb.
  - pose proof (height_root a x Hw Hx Ep). replace n with 0%nat by lia. exists [x]. split; [reflexivity|].
    replace (_ - _) with (height_of a x) by lia. exact (segment_cons a e _ 0 x [] (proj2 Hb) (segment_nil a e _)).
Qed.

(** The range ends at the block with the hash and holds its ancestors, whether or
    not they are in the best chain. *)
Lemma HeightToHashRange_ok startHeight e maxResults : (e < List.length a)%nat -> KnownValid (NodeStatus bi e) = true ->
  height_of a e <= maxViewHeight -> 0 <= startHeight <= height_of a e -> height_of a e - startHeight + 1 <= maxResults -> exists ids,
  HeightToHashRange bi startHeight (hashOf a e) maxResults = Ok (map (hashOf a) ids) /\
  segment a e startHeight (Z.to_nat (height_of a e - startHeight + 1)) ids.
Proof.
  intros He Hk Hh Hs Hm. unfold maxViewHeight in Hh. unfold HeightToHashRange, hashOf.
  rewrite (io_complete bi Hi e He), Hk. cbn [negb]. rewrite !(proj2 (Z.ltb_ge _ _)) by lia. rewrite i32_id by (unfold is_i32; lia).
  rewrite (proj2 (Z.ltb_ge _ _)) by lia.
  destruct (walkHashes_ok e (Z.to_nat (height_of a e - startHeight + 1)) e [] [] He) as (ids & E & Hg);
    [split; [lia | apply ancestorAt_self] | exact He | lia | reflexivity |].
  exists ids. rewrite app_nil_r in E. split; [exact E|]. now replace (height_of a e + 1 - _) with startHeight in Hg by lia.
Qed.

Lemma lookup_branch x h : (x < List.length a)%nat -> 0 <= h <= height_of a x ->
  (if contains a c x then nodeByHeight c h else Ancestor a x h) = ancestorAt a x h.
Proof.
  intros Hx Hh. destruct view_tip as [Ht _]. destruct (contains a c x) eqn:Ec.
  - apply (contains_spec a c t x Hw Hv Hx) in Ec. destruct Ec as [Hle Ea].
    rewrite (nodeByHeight_view a c t h Hw Hv), !(proj2 (Z.ltb_ge _ _)) by lia.
    apply (ancestorAt_trans a t (height_of a x) h x Hw Ht); [lia | lia | exact Ea].
  - rewrite (Ancestor_eq a x h Hw Hx), !(proj2 (Z.ltb_ge _ _)) by lia. reflexivity.
Qed.

Lemma interval_loop_ok e interval n : forall x acc, (e < List.length a)%nat -> (x < List.length a)%nat -> on_branch a e x -> 0 < interval ->
  Z.of_nat n * interval <= height_of a x -> exists ids, interval_loop n a c interval x acc = Ok (map (hashOf a) ids ++ acc) /\
  map Some ids = map (fun i => ancestorAt a e (Z.of_nat i * interval)) (seq 1 n).
Proof.
  induction n as [|n IH]; intros x acc He Hx Hb Hp Hn; [exists []; split; reflexivity|]. cbn [interval_loop].
  pose proof (aw_height a Hw x Hx) as Hh. unfold maxHeight in Hh. set (h := Z.of_nat (S n) * interval) in *.
  assert (Hr : 0 <= h <= height_of a x) by (subst h; lia). rewrite i32_id by (unfold is_i32; lia). rewrite lookup_branch by assumption.
  destruct (ancestorAt_spec a x h Hw Hx Hr) as (y & E & Hy & _ & Hyh). rewrite E.
  assert (Hby : on_branch a e y).
  { apply (on_branch_trans a e x y Hw He Hx Hy Hb). split; [lia | now rewrite Hyh]. }
  destruct (IH y (hashOf a y :: acc) He Hy Hby Hp ltac:(subst h; nia)) as (ids & -> & Hm). exists (ids ++ [y]). split.
  - now rewrite map_app, <- app_assoc.
  - rewrite seq_S, !map_app, Hm. cbn [map]. do 2 f_equal. rewrite <- (proj2 Hby), Hyh. f_equal.
Qed.

(** The hashes at the positive multiples of the interval, also where the branch of
    the block and the best chain part. *)
Lemma IntervalBlockHashes_ok e interval : (e < List.length a)%nat -> KnownValid (NodeStatus bi e) = true -> 0 < interval -> exists ids,
  IntervalBlockHashes bi c (hashOf a e) interval = Ok (map (hashOf a) ids) /\
  map Some ids = map (fun i => ancestorAt a e (Z.of_nat i * interval)) (seq 1 (Z.to_nat (height_of a e / interval))).
Proof.
  intros He Hk Hp. pose proof (aw_height a Hw e He) as Hh. unfold IntervalBlockHashes, hashOf.
  rewrite (io_complete bi Hi e He), Hk. cbn [negb]. rewrite (proj2 (Z.eqb_neq _ _)) by lia.
  rewrite Z.quot_div_nonneg by lia. pose proof (Z.div_pos (height_of a e) interval ltac:(lia) Hp).
  pose proof (Z.mul_div_le (height_of a e) interval Hp). rewrite (proj2 (Z.ltb_ge _ _)) by lia.
  destruct (interval_loop_ok e interval (Z.to_nat (height_of a e / interval)) e [] He He) as (ids & E & Hm);
    [split; [lia | apply ancestorAt_self] | exact Hp | lia |].
  exists ids. rewrite app_nil_r in E. now split.
Qed.
End Ranges.

(** ** Locators are answered with the best chain *)

(** Where an answer starts: the first hash of the locator that is on the branch of
    the tip, or the genesis block. *)
Inductive startsAfter (bi : blockIndex) (t : nat) (locator : list (list Z)) (fork : nat) : Prop :=
  | sa_known pre hash post : locator = pre ++ hash :: post -> LookupNode bi hash = Some fork -> on_branch (bi_nodes bi) t fork ->
      (forall h x, In h pre -> LookupNode bi h = Some x -> ~ on_branch (bi_nodes bi) t x) -> startsAfter bi t locator fork
  | sa_genesis : (forall h x, In h locator -> LookupNode bi h = Some x -> ~ on_branch (bi_nodes bi) t x) ->
      ancestorAt (bi_nodes bi) t 0 = Some fork -> startsAfter bi t locator fork.

(** Where it ends: at the stop hash if that is further up the branch, or at the tip. *)
Inductive endsAt (bi : blockIndex) (t fork : nat) (hashStop : list Z) : Z -> Prop :=
  | ea_stop stop : LookupNode bi hashStop = Some stop -> on_branch (bi_nodes bi) t stop ->
      height_of (bi_nodes bi) fork < height_of (bi_nodes bi) stop -> endsAt bi t fork hashStop (height_of (bi_nodes bi) stop)
  | ea_tip : (forall stop, LookupNode bi hashStop = Some stop -> on_branch (bi_nodes bi) t stop ->
      height_of (bi_nodes bi) stop <= height_of (bi_nodes bi) fork) -> endsAt bi t fork hashStop (height_of (bi_nodes bi) t).

Section Locators.
Context (bi : blockIndex) (c : chainView) (t : nat).
Abbreviation a := (bi_nodes bi).
Hypothesis Hw : arena_wf a.
Hypothesis Hv : view_ok a c (Some t).
Hypothesis Hi : index_ok bi.

Lemma contains_at x hash : LookupNode bi hash = Some x -> contains a c x = true <-> on_branch a t x.
Proof. intros H. exact (contains_spec a c t x Hw Hv (proj1 (io_sound bi Hi hash x H))). Qed.

Lemma firstKnown_ok locator :
  match firstKnown bi c locator with
  | Some fork => exists pre hash post, locator = pre ++ hash :: post /\ LookupNode bi hash = Some fork /\ on_branch a t fork /\
      (forall h x, In h pre -> LookupNode bi h = Some x -> ~ on_branch a t x)
  | None => forall h x, In h locator -> LookupNode bi h = Some x -> ~ on_branch a t x
  end.
Proof.
  induction locator as [|hash l IH]; [intros h x []|]. cbn [firstKnown].
  assert (Hskip : (forall x, LookupNode bi hash = Some x -> ~ on_branch a t x) ->
    match firstKnown bi c l with
    | Some fork => exists pre h post, hash :: l = pre ++ h :: post /\ LookupNode bi h = Some fork /\ on_branch a t fork /\
        (forall h' x, In h' pre -> LookupNode bi h' = Some x -> ~ on_branch a t x)
    | None => forall h x, In h (hash :: l) -> LookupNode bi h = Some x -> ~ on_branch a t x
    end).
  { intros Hn. destruct (firstKnown bi c l) as [fork|].
    - destruct IH as (pre & h & post & -> & H1 & H2 & H3). exists (hash :: pre), h, post. split; [reflexivity|]. split; [exact H1|].
      split; [exact H2|]. intros h' x [<-|Hin]; [apply Hn | now apply H3].
    - intros h x [<-|Hin]; [apply Hn | now apply IH]. }
  destruct (LookupNode bi hash) as [x|] eqn:Ex; [|apply Hskip; discriminate].
  pose proof (contains_at x hash Ex) as Hc. destruct (contains a c x).
  - exists [], hash, l. split; [reflexivity|]. split; [exact Ex|]. split; [now apply Hc | intros h y []].
  - apply Hskip. intros y [= <-] Hb. apply Hc in Hb. discriminate.
Qed.

Lemma genesis_view : genesis c = ancestorAt a t 0.
Proof.
  destruct (at_height bi c t Hw Hv 0) as (id & E & -> & _); [destruct (view_tip bi c t Hw Hv); lia|].
  unfold nodeByHeight in E. unfold genesis. destruct (nodes c) as [|x l]; destruct (_ || _); try discriminate; exact E.
Qed.

(** The fork an answer starts after. *)
Definition forkOf (locator : list (list Z)) : option nat :=
  match firstKnown bi c locator with Some node => Some node | None => genesis c end.

Lemma forkOf_ok locator : exists fork, forkOf locator = Some fork /\ startsAfter bi t locator fork /\ (fork < List.length a)%nat /\ on_branch a t fork.
Proof.
  unfold forkOf. pose proof (firstKnown_ok locator) as H. destruct (firstKnown bi c locator) as [fork|].
  - destruct H as (pre & h & post & E & H1 & H2 & H3). exists fork. split; [reflexivity|].
    split; [exact (sa_known _ _ _ _ pre h post E H1 H2 H3)|]. split; [exact (proj1 (io_sound bi Hi h fork H1)) | exact H2].
  - destruct (view_tip bi c t Hw Hv) as [Ht Hh]. destruct (at_height bi c t Hw Hv 0 ltac:(lia)) as (g & _ & E & Hg & Hg0 & _).
    rewrite genesis_view. exists g. split; [exact E|]. split; [now apply sa_genesis|]. split; [exact Hg|]. split; [lia | now rewrite Hg0].
Qed.

Lemma next_at x : (x < List.length a)%nat -> on_branch a t x ->
  next a c (Some x) = if height_of a x <? height_of a t then ancestorAt a t (height_of a x + 1) else None.
Proof.
  intros Hx Hb. destruct (view_tip bi c t Hw Hv) as [Ht Hh]. unfold maxViewHeight in Hh. pose proof (aw_height a Hw x Hx) as Hhx.
  pose proof (proj1 Hb) as Hle. cbn [next]. rewrite (proj2 (contains_spec a c t x Hw Hv Hx) Hb), i32_id by (unfold is_i32; lia).
  rewrite (nodeByHeight_view a c t _ Hw Hv). destruct (Z.ltb_spec (height_of a x) (height_of a t)).
  - now rewrite !(proj2 (Z.ltb_ge _ _)) by lia.
  - rewrite (proj2 (Z.ltb_ge (_ + 1) 0)), (proj2 (Z.ltb_lt _ _)) by lia. reflexivity.
Qed.

Lemma followNext_ok n : forall x, (x < List.length a)%nat -> on_branch a t x -> height_of a x + Z.of_nat n <= height_of a t + 1 ->
  exists ids, followNext n a c (Some x) = Ok ids /\ segment a t (height_of a x) n ids.
Proof.
  destruct (view_tip bi c t Hw Hv) as [Ht Hh].
  induction n as [|n IH]; intros x Hx Hb Hn; [exists []; split; [reflexivity | apply segment_nil]|]. cbn [followNext].
  destruct n as [|n]; [exists [x]; split; [reflexivity | exact (segment_cons a t _ 0 x [] (proj2 Hb) (segment_nil a t _))]|].
  rewrite (next_at x Hx Hb), (proj2 (Z.ltb_lt _ _)) by lia. pose proof (aw_height a Hw x Hx).
  destruct (ancestorAt_spec a t (height_of a x + 1) Hw Ht ltac:(lia)) as (y & E & Hy & _ & Hyh). rewrite E.
  assert (Hby : on_branch a t y) by (split; [lia | now rewrite Hyh]). destruct (IH y Hy Hby ltac:(lia)) as (ids & -> & Hs).
  exists (x :: ids). split; [reflexivity|]. apply segment_cons; [apply Hb | now rewrite <- Hyh].
Qed.

(** How many nodes an answer has. *)
Lemma total_ok fork start hashStop : (fork < List.length a)%nat -> height_of a start = height_of a fork + 1 -> (start < List.length a)%nat -> on_branch a t start ->
  exists last, endsAt bi t fork hashStop last /\ height_of a fork < last <= height_of a t /\
    match LookupNode bi hashStop with
    | Some stop => if contains a c stop && (height_of a start <=? height_of a stop) then u32 (i32 (i32 (height_of a stop - height_of a start) + 1))
                   else u32 (i32 (i32 (height_of a t - height_of a start) + 1))
    | None => u32 (i32 (i32 (height_of a t - height_of a start) + 1))
    end = last - height_of a fork.
Proof.
  intros Hf Hh Hs Hb. destruct (view_tip bi c t Hw Hv) as [Ht Hmax]. unfold maxViewHeight in Hmax. pose proof (aw_height a Hw fork Hf). pose proof (proj1 Hb).
  assert (Hc : forall h, height_of a fork < h <= height_of a t -> u32 (i32 (i32 (h - height_of a start) + 1)) = h - height_of a fork).
  { intros h Hr. rewrite (i32_id (_ - _)), i32_id, u32_id by (unfold is_i32, is_u32; lia). lia. }
  destruct (LookupNode bi hashStop) as [stop|] eqn:Es; [|exists (height_of a t); split; [constructor; congruence | split; [lia | apply Hc; lia]]].
  pose proof (contains_at stop hashStop Es) as Hcs. destruct (contains a c stop); cbn [andb].
  - destruct (Z.leb_spec (height_of a start) (height_of a stop)).
    + pose proof (proj1 (proj1 Hcs eq_refl)). exists (height_of a stop). split; [apply ea_stop; [exact Es | now apply Hcs | lia]|].
      split; [lia | apply Hc; lia].
    + exists (height_of a t). split; [constructor; intros x Hx _; assert (x = stop) as -> by congruence; lia | split; [lia | apply Hc; lia]].
  - exists (height_of a t). split; [constructor; intros x Hx Hon; assert (x = stop) as -> by congruence; apply Hcs in Hon; discriminate|].
    split; [lia | apply Hc; lia].
Qed.

Lemma locateNodes_ok locator hashStop max : locator <> [] -> 0 <= max -> exists fork last ids,
  startsAfter bi t locator fork /\ endsAt bi t fork hashStop last /\ (fork < List.length a)%nat /\ on_branch a t fork /\
  locateNodes bi c locator hashStop max = Ok ids /\
  segment a t (height_of a fork + 1) (Z.to_nat (Z.min max (last - height_of a fork))) ids.
Proof.
  intros Hne Hm. destruct (forkOf_ok locator) as (fork & Ef & Hfrom & Hf & Hb). destruct (view_tip bi c t Hw Hv) as [Ht Hmax]. exists fork.
  unfold locateNodes, locateInventory. destruct locator as [|h l]; [congruence|]. unfold forkOf in Ef. rewrite Ef, (next_at fork Hf Hb), (tip_spec a c t Hw Hv).
  pose proof (aw_height a Hw fork Hf). pose proof (proj1 Hb). destruct (Z.ltb_spec (height_of a fork) (height_of a t)).
  - destruct (ancestorAt_spec a t (height_of a fork + 1) Hw Ht ltac:(lia)) as (start & E & Hs & _ & Hsh). rewrite E.
    assert (Hbs : on_branch a t start) by (split; [lia | now rewrite Hsh]).
    destruct (total_ok fork start hashStop Hf Hsh Hs Hbs) as (last & Hend & Hlast & ->). cbn [obind].
    replace (if _ <? _ then _ else _) with (Z.min max (last - height_of a fork)) by (destruct (Z.ltb_spec max (last - height_of a fork)); lia).
    destruct (followNext_ok (Z.to_nat (Z.min max (last - height_of a fork))) start Hs Hbs ltac:(lia)) as (ids & -> & Hseg).
    exists last, ids. rewrite <- Hsh. repeat (split; [assumption|]). split; [reflexivity | exact Hseg].
  - exists (height_of a t), []. split; [exact Hfrom|]. split; [constructor; intros x _ Hx; pose proof (proj1 Hx); lia|]. split; [exact Hf|].
    split; [exact Hb|]. split; [reflexivity|]. replace (Z.to_nat _) with 0%nat by lia. apply segment_nil.
Qed.

(** Headers of a segment link up. *)
Lemma segment_links h n x ids : (x < List.length a)%nat -> ancestorAt a t h = Some x -> 0 <= h -> h + Z.of_nat n <= height_of a t -> segment a t (h + 1) n ids ->
  map (fun id => bh_PrevBlock (Header a id)) ids = firstn n (hashOf a x :: map (hashOf a) ids).
Proof.
  destruct (view_tip bi c t Hw Hv) as [Ht Hmax]. revert h x ids. induction n as [|n IH]; intros h x ids Hx Ex Hh Hn Hs.
  { destruct ids; [reflexivity | discriminate]. }
  destruct ids as [|y ids]; [discriminate|]. unfold segment in Hs. cbn [map seq] in Hs. rewrite Z.add_0_r in Hs. injection Hs as Ey Hs.
  destruct (ancestorAt_spec a t (h + 1) Hw Ht ltac:(lia)) as (y' & E & Hy & _ & Hyh). assert (y' = y) as -> by congruence.
  destruct (bn_parent (deref a y)) as [p|] eqn:Ep; [|pose proof (height_root a y Hw Hy Ep); lia].
  assert (p = x) as ->.
  { destruct (height_parent a y p Hw Hy Ep) as (_ & _ & Hph). rewrite (ancestorAt_trans a t (h + 1) h y Hw Ht ltac:(lia) ltac:(lia) E) in Ex.
    rewrite (ancestorAt_parent a y p h Hw Hy Ep ltac:(lia)) in Ex. replace h with (height_of a p) in Ex by lia.
    rewrite ancestorAt_self in Ex. congruence. }
  cbn [map firstn]. f_equal; [cbn [Header bh_PrevBlock]; now rewrite Ep|]. apply (IH (h + 1)); [exact Hy | exact E | lia | lia|].
  unfold segment. rewrite Hs, <- seq_shift, map_map. apply map_ext. intros i. f_equal. lia.
Qed.

Lemma segment_length h n ids : segment a t h n ids -> List.length ids = n.
Proof. intros H. apply (f_equal (@List.length _)) in H. now rewrite !length_map, length_seq in H. Qed.
End Locators.

Lemma endsAt_le bi t fork hashStop last : endsAt bi t fork hashStop last -> last <= height_of (bi_nodes bi) t.
Proof. intros [stop _ H _|_]; [apply H | reflexivity]. Qed.

(** C22: a peer that sends a locator gets the blocks of the best chain after the
    first hash of the locator that is on it, or after the genesis block if there is
    none, up to the stop hash if that is further up, else up to the tip, and never
    more than the limit; the headers are those of the same blocks, and each names
    the one before it, the first the block the answer starts after. *)
Theorem locator_answered bi c t locator hashStop max :
  tree_ok bi -> view_ok (bi_nodes bi) c (Some t) -> locator <> [] -> 0 <= max ->
  exists fork last ids, startsAfter bi t locator fork /\ endsAt bi t fork hashStop last /\
    segment (bi_nodes bi) t (height_of (bi_nodes bi) fork + 1) (Z.to_nat (Z.min max (last - height_of (bi_nodes bi) fork))) ids /\
    locateBlocks bi c locator hashStop max = Ok (map (hashOf (bi_nodes bi)) ids) /\
    locateHeaders bi c locator hashStop max = Ok (map (Header (bi_nodes bi)) ids) /\
    map bh_PrevBlock (map (Header (bi_nodes bi)) ids) = firstn (List.length ids) (hashOf (bi_nodes bi) fork :: map (hashOf (bi_nodes bi)) ids).
Proof.
  intros Htree Hv Hne Hm. pose proof (to_wf bi Htree) as Hw.
  destruct (locateNodes_ok bi c t Hw Hv (to_index bi Htree) locator hashStop max Hne Hm) as (fork & last & ids & H1 & H2 & Hf & Hb & E & Hs).
  exists fork, last, ids. split; [exact H1|]. split; [exact H2|]. split; [exact Hs|]. unfold locateBlocks, locateHeaders. rewrite E.
  split; [reflexivity|]. split; [reflexivity|]. rewrite map_map, (segment_length _ _ _ _ _ Hs). pose proof (endsAt_le _ _ _ _ _ H2).
  pose proof (proj1 Hb). apply (segment_links bi c t Hw Hv (height_of (bi_nodes bi) fork)); [exact Hf | apply Hb | apply (aw_height _ Hw fork Hf) | lia | exact Hs].
Qed.

Lemma locator_answered_witness : let s := toyAfter (toyBranch ++ toyOrphans ++ [toyIn toyB1]) in
  locateHeaders (ch_index s) (ch_bestChain s) [BlockHash toyId (mb_Header toyA2); BlockHash toyId (mb_Header toyB1)] zeroHash 2000
    = Ok [mb_Header toyB2; mb_Header toyB3] /\
  exists fork ids, locateBlocks (ch_index s) (ch_bestChain s) [BlockHash toyId (mb_Header toyA2); BlockHash toyId (mb_Header toyB1)] zeroHash 2000
    = Ok (map (hashOf (arenaOf s)) ids) /\
  map bh_PrevBlock (map (Header (arenaOf s)) ids) = firstn (List.length ids) (hashOf (arenaOf s) fork :: map (hashOf (arenaOf s)) ids).
Proof.
  cbv zeta. split; [vm_compute; reflexivity|].
  destruct (history_state toy_parse (fun k => k) (fun _ _ => 1000) (fun _ _ => 2) toyId toyRules (fun _ _ => Ok None) toyW toyG 100
    toy_forms toyId_len toy_votes toyW_ok toyG_sound eq_refl _ toy_history) as (D & t & [[Hc _ _] _]).
  destruct (locator_answered _ _ t [BlockHash toyId (mb_Header toyA2); BlockHash toyId (mb_Header toyB1)] zeroHash 2000 (ck_tree _ _ _ _ _ _ Hc)
    (ck_view _ _ _ _ _ _ Hc) ltac:(discriminate) ltac:(lia)) as (fork & _ & ids & _ & _ & _ & H1 & _ & H2).
  exists fork, ids. exact (conj H1 H2).
Defined.
